(* ===== verification/_CoqProject ===== *)
-Q . S2P
Prelude.v
BinarySearch.v
Interval.v
Tx.v
Utxo.v
UtxoProps.v
ReachabilityStore.v
ReachabilityQueries.v
ReachabilityTree.v
ReachabilityReindex.v
ReachabilityCount.v
ReachabilityPropagate.v
ReachabilityAdd.v
ReachabilityBlocks.v
ReachabilityRefine.v
ReachabilityStaging.v
ReachabilityCommit.v
ReachabilityDag.v
ReachabilityDelete.v
ReachabilityStaged.v
ReachabilityProps.v
Uint.v
UintLemmas.v
UintProps.v
GhostdagStore.v
Difficulty.v
DifficultyProps.v
Ghostdag.v
GhostdagColor.v
GhostdagMergeset.v
GhostdagBlocks.v
GhostdagProps.v
Header.v
Hashing.v
HashingProps.v
MerkleProps.v
HeaderProps.v
Address.v
AddressProps.v
ScriptData.v
ScriptOps.v
ScriptEngine.v
ScriptStandard.v
ScriptNumbers.v
ScriptSafety.v
ScriptCount.v
ScriptBuild.v
ScriptVerify.v
ScriptSpend.v
ScriptProps.v
ScriptCache.v
Mass.v
MassProps.v
TxValidator.v
TxValidatorLemmas.v
TxValidatorProps.v
U3072.v
U3072Lemmas.v
UtxoTotals.v
MuHash.v
MuHashProps.v
Coinbase.v
CoinbaseProps.v
CoinbaseEmission.v
Body.v
BodyProps.v
MergesetOrder.v
BlockDepth.v
Pruning.v
Window.v
Pow.v
Parents.v
UtxoState.v
UtxoStateValid.v
UtxoStateMerge.v
UtxoExample.v
UtxoStateProps.v
UtxoStateVerify.v
UtxoSupply.v
UtxoMempool.v
