(* ===== verification/Prelude.v ===== *)
(** * Verification of the Qaspa node (a Rust fork of rusty-kaspa)

    The node keeps a DAG of blocks.  Headers name parents; the reachability index answers
    ancestry queries on the DAG; GHOSTDAG colours the mergeset of every block and orders it;
    difficulty, work and past median time come from windows of headers.  Bodies carry
    transactions, which are validated in isolation, in the context of the header and
    against the set of unspent outputs (UTXO set), where scripts decide whether an output
    may be spent.  A header commits to its transactions by a Merkle root and to the UTXO set
    by a multiset hash; the coinbase transaction of a block pays the blocks it merges.

    The development is a shallow embedding.  Every function is a Rocq function, state is
    passed explicitly, and a Rust call is an [outcome]: a value, an error, a panic, or fuel
    that ran out.  The release profile of the workspace enables overflow checks, so an
    arithmetic overflow is [Panic]; [debug_assert!] is compiled out and not modelled.
    Unsigned integers are [Z] with their width written where it matters, hashes are [N]
    below 2^256, bytes are [Z] below 256.

    ** Files

    Foundations.
    - [Prelude]: outcomes and their monad, checked arithmetic, slices, loops over lists, the
      hint databases and tactics.
    - [BinarySearch]: [slice::binary_search_by_key] and [partition_point] of the standard
      library.

    Reachability (consensus/src/processes/reachability, consensus/src/model/stores/reachability.rs).
    - [Interval]: interval.rs, with its split by exponential fractions in IEEE arithmetic.
    - [ReachabilityStore]: the store traits as a class, the memory store.
    - [ReachabilityQueries], [ReachabilityBlocks]: inquirer.rs (queries, [add_block],
      [delete_block]); [ReachabilityReindex]: reindex.rs and tree.rs.
    - [ReachabilityStaging]: the database store and the staging store with its commit.
    - [ReachabilityTree], [ReachabilityCount], [ReachabilityPropagate], [ReachabilityAdd],
      [ReachabilityDag], [ReachabilityDelete]: the tree and interval invariant, subtree
      counts, interval propagation, future covering sets, deletion.
    - [ReachabilityRefine], [ReachabilityCommit], [ReachabilityStaged]: every algorithm is
      generic in the store; the staging store simulates the memory store and its commit
      writes what it holds.
    - [ReachabilityProps]: the guarantees.

    Integers and difficulty.
    - [Uint], [UintLemmas], [UintProps]: math/src/uint.rs for every number of limbs, and the
      compact encoding of targets in math/src/lib.rs.
    - [Difficulty], [DifficultyProps]: consensus/src/processes/difficulty.rs and
      past_median_time.rs.

    GHOSTDAG (consensus/src/processes/ghostdag, consensus/src/model/stores/ghostdag.rs).
    - [GhostdagStore]: the data of a block and its stores; [Ghostdag]: protocol.rs,
      mergeset.rs, ordering.rs.
    - [GhostdagColor]: blue sets, anticones, k-clusters and the greedy colouring, without
      reference to the algorithm, and the colouring of one candidate; [GhostdagMergeset],
      [GhostdagBlocks], [GhostdagProps]: the protocol computes it, over an abstract
      reachability service that the reachability theorems discharge.
    - [MergesetOrder]: the ordered iterators of [GhostdagData] over the mergeset.

    Rules that walk the chain (consensus/src/processes, consensus/src/model/services).
    - [BlockDepth]: the chain iterators of services/reachability.rs and block_depth.rs (merge
      depth root, finality point); [Pruning]: pruning.rs.
    - [Window]: window.rs with the caches of stores/block_window_cache.rs.
    - [Parents]: parents_builder.rs, the parents of a block at every level.
    - [Pow]: consensus/pow and crypto/hashes/src/pow_hashers.rs, run on the vectors of matrix.rs.

    Headers, hashing, addresses.
    - [Header], [HeaderProps]: consensus/core/src/header.rs, run-length encoded parents.
    - [Hashing], [HashingProps], [MerkleProps]: consensus/core/src/hashing, merkle.rs and
      crypto/merkle; the hash function is an argument.
    - [Address], [AddressProps]: crypto/addresses.

    Scripts (crypto/txscript).
    - [ScriptData], [ScriptOps], [ScriptEngine], [ScriptStandard]: data_stack.rs, the opcode
      table and parser, the engine with every opcode, the builder and standard scripts.
    - [ScriptNumbers], [ScriptSafety], [ScriptCount], [ScriptBuild], [ScriptVerify],
      [ScriptSpend], [ScriptCache], [ScriptProps]: numbers, absence of
      panics, signature operation counts, built scripts, signature checks with caches,
      standard spends.

    Transactions, UTXO set, blocks.
    - [Tx], [Utxo], [UtxoProps]: consensus/core/src/tx.rs and utxo; the algebra of diffs.
    - [Mass], [MassProps]: consensus/core/src/mass.
    - [TxValidator], [TxValidatorLemmas], [TxValidatorProps]:
      consensus/src/processes/transaction_validator.
    - [U3072], [U3072Lemmas], [MuHash], [MuHashProps]: crypto/muhash and
      consensus/core/src/muhash.rs; [UtxoTotals]: totals over a UTXO set and sequences of
      transactions.
    - [Coinbase], [CoinbaseProps], [CoinbaseEmission]: consensus/src/processes/coinbase.rs,
      consensus/core/src/coinbase.rs and the parameters of the main network they use.
    - [Body], [BodyProps]: consensus/src/pipeline/body_processor/body_validation_in_*.rs.

    UTXO state (consensus/src/pipeline/virtual_processor/utxo_validation.rs).
    - [UtxoState]: validation of transactions of blocks and of the mempool in a UTXO view,
      [calculate_utxo_state] over the mergeset, [verify_expected_utxo_state].
    - [UtxoStateValid], [UtxoStateMerge], [UtxoStateProps]: acceptance of one transaction,
      of one block and of a mergeset as relations, and that the code implements them;
      [UtxoStateVerify]: the exact conditions of verification; [UtxoSupply]: chains of
      verified blocks and the amount they hold; [UtxoMempool]: mempool validation.
    - [UtxoExample]: a small concrete chain on which these theorems are instantiated.

    ** What the theorems show

    - Reachability: adding a block keeps the index exact, queries answer DAG ancestry,
      deletion keeps the answers of the remaining blocks, and running on the staging store
      and committing is the same as running on the memory store.
    - GHOSTDAG: the mergeset walk, the order and the colouring are the specified ones, the
      invariant is kept, and the mergeset handed to reachability is the one it needs.
    - Chain rules: the iterators list the tree path; the block at a depth, the pruning points,
      the windows and the parents by level are the ones their definitions name, whatever the
      caches and recorded entries hold, provided those are right; the proof of work check
      never overflows and compares the matrix product hash with the target.
    - Integers, difficulty: limb algorithms compute the mathematical operation modulo
      the width, compact targets round trip, the next target is the specified average.
    - Hashing: transaction ids, signature hashes and Merkle roots commit to what they hash,
      up to collisions of the hash function, which are exhibited.
    - Addresses: printing and parsing are inverse; single substitutions are rejected.
    - Scripts: no script bytes make the engine panic; standard outputs are spent exactly by
      valid signatures, whatever the caches hold; the static count bounds the operations.
    - UTXO set and transactions: composition and difference of diffs, exact acceptance
      conditions of validation in isolation and in the UTXO context, masses in range.
    - Multiset hash: multiplication on limbs is multiplication modulo the prime, and the
      hash of a set does not depend on the order of updates.
    - Coinbase: exact payment of rewards, payload round trip, bounded emission.
    - Bodies: the exact set of accepted bodies.
    - UTXO state: the consensus order of a mergeset is topological; processing a mergeset
      never panics and implements the abstract acceptance of its blocks whatever the threads
      do; verification accepts exactly the valid blocks; scripts of the selected parent may
      be skipped; along a chain no more is held than was minted; mempool validation and
      block validation agree.

    ** Fuel

    Loops that are not structural carry fuel.  The breadth-first walks of reindexing and of
    the mergeset take the number of blocks of the store; binary searches take the length of
    the slice; division takes the number of bits; chain walks take the length of the path.
    Generation of the proof of work matrix repeats until a random matrix has full rank, so
    its fuel is the number of matrices tried and the theorem says which one it returns.  Each is proved enough where the loop is
    used: the theorems conclude [Ok], never only a property of what is returned.

    ** Parameters

    Third-party code is a parameter with named laws: the hash functions ([H]), signature
    verification and the script hashes ([Crypto]), the element stream of the multiset hash
    ([ElementStream]), modular inversion of the malachite crate ([ModInverse]), functions of
    itertools ([MergeJoin]), the Keccak permutation ([Keccak]).  The thread pool of rayon is an arbitrary order of the checks,
    an arbitrary sound signature cache and an arbitrary bracketing of [reduce].  Theorems
    that depend on a law state it as a hypothesis or class, with an instance in their
    witness.

    ** Not modelled

    - The second reindexing path ([reindex_intervals_earlier_than_root] and the moving of
      the reindex root) is modelled and executable; its invariant is proved for the first
      path and for propagation, not for the earlier-than-root reclaim.
    - Processors, threads, channels and database batches (consensus/src/pipeline): only the
      validation they run is modelled; parallel script checks run in any order.
    - The theorems on the UTXO state assume that every entry holds at least one sompi per
      storage unit of its script: with less, the mean of three or more inputs can be zero,
      and the storage mass divides by it.
    - Traversal, pruning proofs and chain synchronization; eviction from the caches of windows.
      The remaining stores are arguments of the functions that read them.
    - Hash functions, curve and lattice cryptography and RocksDB are third-party.
    - Serialization for RPC, P2P, databases and WASM is derived or generated code.
    - Wallet, command line, bridge, RPC and P2P services are input and output around the
      node and hold no consensus rule. *)

From Stdlib Require Import ZArith Lia Bool.
From stdpp Require Import base gmap list numbers.

#[local] Open Scope Z_scope.

(** ** Outcomes of Rust functions

    A function of the node returns normally, returns an error value,
    panics (an arithmetic overflow under [overflow-checks = true], an index out
    of range, an [unwrap] of a missing value, a failed [assert!]), or, for a
    loop modelled with fuel, has not finished within the fuel. *)
Inductive outcome (E A : Type) : Type :=
| Ok (a : A)
| Err (e : E)
| Panic
| OutOfFuel.
Arguments Ok {E A} a.
Arguments Err {E A} e.
Arguments Panic {E A}.
Arguments OutOfFuel {E A}.

Definition obind {E A B} (m : outcome E A) (f : A -> outcome E B) : outcome E B :=
  match m with
  | Ok a => f a
  | Err e => Err e
  | Panic => Panic
  | OutOfFuel => OutOfFuel
  end.

(** Sequencing: [let! x := m in k] is Rust's [let x = m?; k]. *)
Notation "'let!' x ':=' m 'in' k" := (obind m (fun x => k))
  (at level 10, x name, m at level 100, k at level 200).
Notation "'let!' ' p ':=' m 'in' k" := (obind m (fun x => match x with p => k end))
  (at level 10, p pattern, m at level 100, k at level 200).

#[export] Instance outcome_fmap {E} : FMap (outcome E) := fun A B f m =>
  match m with
  | Ok a => Ok (f a)
  | Err e => Err e
  | Panic => Panic
  | OutOfFuel => OutOfFuel
  end.

(** [unwrap]: an [Option]'s value, or a panic. *)
Definition unwrap {E A} (o : option A) : outcome E A :=
  match o with Some a => Ok a | None => Panic end.

(** [Result::unwrap]: an error is a panic. *)
Definition unwrap_res {E F A} (m : outcome E A) : outcome F A :=
  match m with
  | Ok a => Ok a
  | Err _ => Panic
  | Panic => Panic
  | OutOfFuel => OutOfFuel
  end.

(** [assert!]. *)
Definition rassert {E} (b : bool) : outcome E unit :=
  if b then Ok tt else Panic.

(** [?] on a result whose error type is converted by [From]. *)
Definition map_err {E F A} (f : E -> F) (m : outcome E A) : outcome F A :=
  match m with
  | Ok a => Ok a
  | Err e => Err (f e)
  | Panic => Panic
  | OutOfFuel => OutOfFuel
  end.

(** [iter.map(f).collect::<Result<Vec<_>, _>>()]: stops at the first failure. *)
Fixpoint mapM_out {E A B} (f : A -> outcome E B) (l : list A) : outcome E (list B) :=
  match l with
  | [] => Ok []
  | a :: l' => let! b := f a in let! bs := mapM_out f l' in Ok (b :: bs)
  end.

(** [for a in l { s = f(s, a)?; }]. *)
Fixpoint foldM_out {E A S} (f : S -> A -> outcome E S) (s : S) (l : list A) : outcome E S :=
  match l with
  | [] => Ok s
  | a :: l' => let! s' := f s a in foldM_out f s' l'
  end.

(** [l[i..j]]: panics when the range is not within the list. *)
Definition slice {E A} (i j : nat) (l : list A) : outcome E (list A) :=
  if (i <=? j)%nat && (j <=? length l)%nat then Ok (take (j - i) (drop i l)) else Panic.

(** ** Machine integers

    A w-bit unsigned integer is a [Z]; arithmetic is checked, as the release
    profile of the workspace compiles with [overflow-checks = true]. *)
Abbreviation U8 := 256.
Abbreviation U16 := 65536.
Abbreviation U32 := 4294967296.
Abbreviation U64 := 18446744073709551616.

Definition in_u64 (z : Z) : Prop := 0 <= z < U64.

Definition uadd {E} (m a b : Z) : outcome E Z := if a + b <? m then Ok (a + b) else Panic.
Definition usub {E} (a b : Z) : outcome E Z := if b <=? a then Ok (a - b) else Panic.
Definition umul {E} (m a b : Z) : outcome E Z := if a * b <? m then Ok (a * b) else Panic.
Abbreviation add64 := (uadd U64).
Abbreviation mul64 := (umul U64).

(** [saturating_sub] *)
Definition sat_sub (a b : Z) : Z := Z.max 0 (a - b).

(** [iter().sum::<u64>()]: panics on overflow. *)
Definition sum64 {E} (l : list Z) : outcome E Z := foldM_out (fun s x => add64 s x) 0 l.

(** The mathematical sum of a list. *)
Fixpoint zsum (l : list Z) : Z :=
  match l with [] => 0 | x :: l' => x + zsum l' end.

(** ** Lemmas on outcomes *)

Lemma Ok_inj {E A} (a b : A) : @Ok E A a = Ok b -> a = b.
Proof. congruence. Qed.

Lemma bind_Ok {E A B} (m : outcome E A) (f : A -> outcome E B) b :
  obind m f = Ok b <-> exists a, m = Ok a /\ f a = Ok b.
Proof.
  destruct m; cbn; split; intros H; try discriminate; eauto.
  - by destruct H as (a' & [= ->] & H).
  - by destruct H as (? & ? & _).
  - by destruct H as (? & ? & _).
  - by destruct H as (? & ? & _).
Qed.

Lemma uadd_Ok {E} m a b c : @uadd E m a b = Ok c <-> c = a + b /\ a + b < m.
Proof.
  unfold uadd. destruct (Z.ltb_spec (a + b) m); split; intros H'; try discriminate; try lia.
  - by injection H' as <-.
  - destruct H' as [-> _]. done.
Qed.

Lemma usub_Ok {E} a b c : @usub E a b = Ok c <-> c = a - b /\ b <= a.
Proof.
  unfold usub. destruct (Z.leb_spec b a); split; intros H'; try discriminate; try lia.
  - by injection H' as <-.
  - destruct H' as [-> _]. done.
Qed.

Lemma umul_Ok {E} m a b c : @umul E m a b = Ok c <-> c = a * b /\ a * b < m.
Proof.
  unfold umul. destruct (Z.ltb_spec (a * b) m); split; intros H'; try discriminate; try lia.
  - by injection H' as <-.
  - destruct H' as [-> _]. done.
Qed.

Lemma uadd_lt {E} m a b : a + b < m -> @uadd E m a b = Ok (a + b).
Proof. intros. by apply uadd_Ok. Qed.

Lemma usub_le {E} a b : b <= a -> @usub E a b = Ok (a - b).
Proof. intros. by apply usub_Ok. Qed.

Lemma umul_lt {E} m a b : a * b < m -> @umul E m a b = Ok (a * b).
Proof. intros. by apply umul_Ok. Qed.

Lemma rassert_Ok {E} b u : @rassert E b = Ok u <-> b = true.
Proof. unfold rassert. destruct b; split; try discriminate; intros; by destruct u. Qed.

Lemma unwrap_Ok {E A} (o : option A) a : @unwrap E A o = Ok a <-> o = Some a.
Proof. destruct o; cbn; split; congruence. Qed.

Lemma unwrap_res_Ok {E F A} (m : outcome E A) a : @unwrap_res E F A m = Ok a <-> m = Ok a.
Proof. destruct m; cbn; split; congruence. Qed.

Lemma foldM_out_app {E A S} (f : S -> A -> outcome E S) s l1 l2 :
  foldM_out f s (l1 ++ l2) = (let! s' := foldM_out f s l1 in foldM_out f s' l2).
Proof.
  revert s. induction l1 as [|a l1 IH]; intros s; cbn; [done|].
  destruct (f s a); cbn; [apply IH|done..].
Qed.

Lemma mapM_out_Ok {E A B} (f : A -> outcome E B) (g : A -> B) l :
  (forall x, x ∈ l -> f x = Ok (g x)) -> mapM_out f l = Ok (List.map g l).
Proof.
  induction l as [|x l IH]; intros Hf; cbn; [done|]. rewrite Hf by apply list_elem_of_here. cbn.
  rewrite IH; [done|]. intros y Hy. apply Hf. by apply list_elem_of_further.
Qed.

(** Splits every hypothesis stating that a monadic computation succeeded. *)
Ltac inv_outcome :=
  repeat match goal with
  | H : obind _ _ = Ok _ |- _ => apply bind_Ok in H as (? & ? & ?)
  | H : uadd _ _ _ = Ok _ |- _ => apply uadd_Ok in H as [-> ?]
  | H : usub _ _ = Ok _ |- _ => apply usub_Ok in H as [-> ?]
  | H : umul _ _ _ = Ok _ |- _ => apply umul_Ok in H as [-> ?]
  | H : rassert _ = Ok _ |- _ => apply rassert_Ok in H
  | H : unwrap _ = Ok _ |- _ => apply unwrap_Ok in H
  | H : Ok _ = Ok _ |- _ => injection H as H; simplify_eq
  | H : Err _ = Ok _ |- _ => discriminate H
  | H : Panic = Ok _ |- _ => discriminate H
  | H : OutOfFuel = Ok _ |- _ => discriminate H
  end.

(** ** Safety

    [safe P m]: [m] neither panics nor runs out of fuel, and a result satisfies [P]. *)

Definition safe {E A} (P : A -> Prop) (m : outcome E A) : Prop :=
  match m with Ok a => P a | Err _ => True | Panic => False | OutOfFuel => False end.

Lemma safe_bind {E A B} (P : A -> Prop) (Q : B -> Prop) (m : outcome E A) (f : A -> outcome E B) :
  safe P m -> (forall a, P a -> safe Q (f a)) -> safe Q (obind m f).
Proof. destruct m; cbn; auto. Qed.

Lemma safe_weaken {E A} (P Q : A -> Prop) (m : outcome E A) : safe P m -> (forall a, P a -> Q a) -> safe Q m.
Proof. destruct m; cbn; auto. Qed.

Lemma safe_foldM {E A S} (P : S -> Prop) (f : S -> A -> outcome E S) s l :
  P s -> (forall s a, P s -> a ∈ l -> safe P (f s a)) -> safe P (foldM_out f s l).
Proof.
  revert s. induction l as [|a l IH]; intros s Hs Hf; cbn; [done|].
  eapply safe_bind; [apply Hf; [done|apply list_elem_of_here]|]. intros s' Hs'. apply IH; [done|].
  intros s2 b H2 Hb. apply Hf; [done|by apply list_elem_of_further].
Qed.

Lemma safe_mapM {E A B} (P : B -> Prop) (f : A -> outcome E B) l :
  (forall a, a ∈ l -> safe P (f a)) -> safe (fun r => length r = length l /\ Forall P r) (mapM_out f l).
Proof.
  induction l as [|a l IH]; intros Hf; cbn; [by split|]. eapply safe_bind; [apply Hf, list_elem_of_here|]. intros b Hb.
  eapply safe_bind; [apply IH; intros x Hx; by apply Hf, list_elem_of_further|]. cbn. intros bs [Hl Hbs]. split; [by rewrite Hl|by constructor].
Qed.

(** ** Lemmas on sums *)

Lemma zsum_app l1 l2 : zsum (l1 ++ l2) = zsum l1 + zsum l2.
Proof. induction l1; cbn in *; lia. Qed.

Lemma zsum_nonneg l : Forall (fun x => 0 <= x) l -> 0 <= zsum l.
Proof. induction 1; cbn; lia. Qed.

Lemma zsum_perm l1 l2 : l1 ≡ₚ l2 -> zsum l1 = zsum l2.
Proof. induction 1; cbn; lia. Qed.

Lemma zsum_le {A} (f g : A -> Z) l : (forall x, x ∈ l -> f x <= g x) -> zsum (List.map f l) <= zsum (List.map g l).
Proof.
  induction l as [|x l IH]; intros Hl; cbn [List.map zsum]; [lia|]. pose proof (Hl x ltac:(left)). specialize (IH (fun y Hy => Hl y ltac:(by right))). lia.
Qed.

Lemma sum64_from {E} s l :
  0 <= s -> Forall (fun x => 0 <= x) l ->
  s + zsum l < U64 -> @foldM_out E Z Z (fun s x => add64 s x) s l = Ok (s + zsum l).
Proof.
  intros Hs Hl. revert s Hs. induction Hl as [|x l Hx Hl IH]; intros s Hs Hlt; cbn in *.
  - f_equal. lia.
  - pose proof (zsum_nonneg l Hl). rewrite uadd_lt by lia. cbn.
    rewrite IH by lia. f_equal. lia.
Qed.

Lemma sum64_spec {E} l :
  Forall (fun x => 0 <= x) l -> zsum l < U64 -> @sum64 E l = Ok (zsum l).
Proof. intros. unfold sum64. by rewrite sum64_from. Qed.

Lemma sum64_from_Ok {E} s l r :
  @foldM_out E Z Z (fun s x => add64 s x) s l = Ok r -> r = s + zsum l.
Proof.
  revert s. induction l as [|x l IH]; intros s H; cbn in *.
  - injection H as <-. lia.
  - inv_outcome. apply IH in H0. lia.
Qed.

Lemma sum64_Ok {E} l r : @sum64 E l = Ok r -> r = zsum l.
Proof. intros H%sum64_from_Ok. lia. Qed.
