(* ===== verification/BinarySearch.v ===== *)
(** * Binary search

    [slice::binary_search_by_key] and [slice::partition_point] of the Rust standard
    library, with keys whose computation may fail, and what they find. *)

From Stdlib Require Import ZArith Lia Bool.
From stdpp Require Import base gmap list numbers sorting.
From S2P Require Import Prelude.

#[local] Open Scope Z_scope.

(** ** [slice::binary_search_by_key]

    The algorithm of the Rust standard library: halve the range without an early
    exit, then compare once with the remaining element.  [inl i] is [Ok(i)],
    [inr i] is [Err(i)]. *)
Section BinarySearch.
Context {E A : Type}.
Variable key : A -> outcome E Z.

Fixpoint bsearch_loop (fuel : nat) (point : Z) (l : list A) (base size : nat) : outcome E nat :=
  match fuel with
  | O => OutOfFuel
  | S fuel' =>
      if (size <=? 1)%nat then Ok base else
      let half := (size / 2)%nat in
      let mid := (base + half)%nat in
      let! x := unwrap (l !! mid) in
      let! k := key x in
      bsearch_loop fuel' point l (if point <? k then base else mid) (size - half)%nat
  end.

Definition binary_search_by_key (point : Z) (l : list A) : outcome E (nat + nat) :=
  match l with
  | [] => Ok (inr 0%nat)
  | _ =>
      let! base := bsearch_loop (S (length l)) point l 0 (length l) in
      let! x := unwrap (l !! base) in
      let! k := key x in
      if k =? point then Ok (inl base)
      else Ok (inr (if k <? point then S base else base))
  end.
End BinarySearch.

(** [partition_point]: the binary search with [Less] for the elements that satisfy
    the predicate and [Greater] for the others. *)
Definition partition_point {E A} (pred : A -> outcome E bool) (l : list A) : outcome E nat :=
  let! r := binary_search_by_key (fun x => let! b := pred x in Ok (if b then 0 else 2)) 1 l in
  match r with inl i => Ok i | inr i => Ok i end.

(** ** The binary search finds the last key not above the point *)
Section BinarySearchSpec.
Context {E A : Type}.
Variable key : A -> outcome E Z.
Variable kf : A -> Z.

Definition keys_ascending (l : list A) : Prop :=
  forall i j x y, l !! i = Some x -> l !! j = Some y -> (i < j)%nat -> kf x <= kf y.

Lemma bsearch_loop_spec fuel point l base size :
  Forall (fun x => key x = Ok (kf x)) l -> keys_ascending l ->
  (size <= S fuel)%nat -> (1 <= size)%nat -> (base + size <= length l)%nat ->
  (base = 0%nat \/ exists x, l !! base = Some x /\ kf x <= point) ->
  (forall j x, (base + size <= j)%nat -> l !! j = Some x -> point < kf x) ->
  exists b, bsearch_loop key (S fuel) point l base size = Ok b /\ (b < length l)%nat /\
    (b = 0%nat \/ exists x, l !! b = Some x /\ kf x <= point) /\
    (forall j x, (b < j)%nat -> l !! j = Some x -> point < kf x).
Proof.
  intros Hkey Hasc. revert base size. induction fuel as [|fuel IH]; intros base size Hf H1 Hb Hlo Hhi;
    cbn [bsearch_loop]; destruct (Nat.leb_spec size 1); try lia.
  - exists base. split_and!; [done|lia|done|]. intros j x Hj. apply Hhi. lia.
  - exists base. split_and!; [done|lia|done|]. intros j x Hj. apply Hhi. lia.
  - assert (0 < size / 2 < size)%nat by (split; [apply Nat.div_str_pos; lia|apply Nat.div_lt; lia]).
    pose proof (Nat.Div0.mul_div_le size 2).
    destruct (l !! (base + size / 2)%nat) as [x|] eqn:Hx.
    2: { apply lookup_ge_None in Hx. lia. }
    cbn [unwrap obind]. rewrite Forall_forall in Hkey.
    rewrite (Hkey x) by (eapply list_elem_of_lookup_2; done). cbn [obind].
    destruct (Z.ltb_spec point (kf x)).
    + apply IH; [lia|lia|lia|done|]. intros j y Hj Hy.
      destruct (decide (j = base + size / 2)%nat) as [->|].
      * congruence.
      * assert (kf x <= kf y) by (eapply Hasc; [exact Hx|exact Hy|lia]). lia.
    + apply IH; [lia|lia|lia|eauto|]. intros j y Hj. apply Hhi. lia.
Qed.

Lemma binary_search_spec point l :
  Forall (fun x => key x = Ok (kf x)) l -> keys_ascending l ->
  exists r, binary_search_by_key key point l = Ok r /\
    match r with
    | inl i => exists x, l !! i = Some x /\ kf x = point
    | inr i => (i <= length l)%nat /\
        (forall j x, (j < i)%nat -> l !! j = Some x -> kf x < point) /\
        (forall j x, (i <= j)%nat -> l !! j = Some x -> point < kf x)
    end.
Proof.
  intros Hkey Hasc. unfold binary_search_by_key. destruct l as [|a l'] eqn:Hl.
  { exists (inr 0%nat). split; [done|]. split_and!; [done| |]; intros j x Hj; done. }
  cbv beta iota. rewrite <-Hl in *. assert (Hlen : (1 <= length l)%nat) by (subst; cbn; lia). clear Hl a l'.
  destruct (bsearch_loop_spec (length l) point l 0 (length l)) as (b & -> & Hb & Hlo & Hhi);
    [done|done|lia|lia|lia|by left| |].
  { intros j x Hj Hx%lookup_lt_Some. lia. }
  cbn [obind]. destruct (lookup_lt_is_Some_2 l b Hb) as [x Hx]. rewrite Hx. cbn [unwrap obind].
  rewrite Forall_forall in Hkey. rewrite (Hkey x) by (eapply list_elem_of_lookup_2; done). cbn [obind].
  destruct (Z.eqb_spec (kf x) point); [by exists (inl b); eauto|].
  eexists. split; [done|]. cbv beta iota. destruct (Z.ltb_spec (kf x) point).
  - split; [lia|split].
    + intros j y Hj Hy. destruct (decide (j = b)) as [->|]; [congruence|].
      assert (kf y <= kf x) by (eapply Hasc; [exact Hy|exact Hx|lia]). lia.
    + intros j y Hj. apply Hhi. lia.
  - destruct Hlo as [->|(x' & Hx' & ?)]; [|simplify_eq; lia].
    split; [lia|split].
    + intros j y Hj. lia.
    + intros j y Hj Hy. destruct (decide (j = 0)%nat) as [->|]; [simplify_eq; lia|].
      eapply Hhi; [|done]. lia.
Qed.
End BinarySearchSpec.

Lemma partition_point_spec {E A} (pred : A -> outcome E bool) (pf : A -> bool) l :
  Forall (fun x => pred x = Ok (pf x)) l ->
  (forall i j x y, l !! i = Some x -> l !! j = Some y -> (i < j)%nat -> pf y = true -> pf x = true) ->
  exists i, partition_point pred l = Ok i /\ (i <= length l)%nat /\
    (forall j x, (j < i)%nat -> l !! j = Some x -> pf x = true) /\
    (forall j x, (i <= j)%nat -> l !! j = Some x -> pf x = false).
Proof.
  intros Hp Hmono. unfold partition_point.
  destruct (binary_search_spec (fun x => let! b := pred x in Ok (if b then 0 else 2)) (fun x => if pf x then 0 else 2) 1 l)
    as ([i|i] & -> & Hr).
  - eapply Forall_impl; [exact Hp|]. intros x Hx. cbv beta. by rewrite Hx.
  - intros i j x y Hi Hj Hij. specialize (Hmono i j x y Hi Hj Hij). destruct (pf x), (pf y); try lia; by specialize (Hmono eq_refl).
  - destruct Hr as (x & _ & Hx). destruct (pf x); lia.
  - destruct Hr as (Hlen & Hlo & Hhi). exists i. split_and!; [done|done| |].
    + intros j x Hj Hx. specialize (Hlo j x Hj Hx). cbv beta in Hlo. destruct (pf x); [done|lia].
    + intros j x Hj Hx. specialize (Hhi j x Hj Hx). cbv beta in Hhi. destruct (pf x); [lia|done].
Qed.
