(* ===== verification/Interval.v ===== *)
(** * Reachability intervals

    Model of consensus/src/processes/reachability/interval.rs: the [Interval]
    struct, its checked arithmetic, and the three ways of splitting it
    ([split_half], [split_exact], [split_exponential]), floating point included.

    [f64] values are [spec_float]s of the Standard Library (binary64: precision
    53, emax 1024), computed by its IEEE-754 operations.  The one [f32]
    computation of the file, [ceil(size as f32 * 0.5)], is written out on
    integers: the cast rounds a [u64] to 24 significant bits, ties to even;
    halving is exact. *)

From Stdlib Require Import ZArith Lia Bool SpecFloat.
From stdpp Require Import base list numbers.
From S2P Require Import Prelude.

#[local] Open Scope Z_scope.

Record Interval := mk_interval { iv_start : Z; iv_end : Z }.

#[export] Instance Interval_eq_dec : EqDecision Interval.
Proof. solve_decision. Defined.

(** IEEE-754 binary64 arithmetic. *)
Abbreviation f64_mul := (SFmul 53 1024).
Abbreviation f64_add := (SFadd 53 1024).
Abbreviation f64_div := (SFdiv 53 1024).

(** The error type of callers is left polymorphic: no function of this file
    returns an error value, it returns or panics. *)
Section Ops.
Context {E : Type}.

(** [Interval::new]: its [debug_assert!]s are compiled out of release builds. *)
Definition interval_new (start end_ : Z) : Interval := mk_interval start end_.

Definition interval_empty : Interval := interval_new 1 0.

Definition interval_maximal : Interval := interval_new 1 (U64 - 1 - 1).

Definition interval_size (i : Interval) : outcome E Z :=
  let! e := add64 (iv_end i) 1 in usub e (iv_start i).

Definition interval_is_empty (i : Interval) : outcome E bool :=
  let! n := interval_size i in Ok (n =? 0).

Definition interval_increase (i : Interval) (offset : Z) : outcome E Interval :=
  let! s := add64 (iv_start i) offset in let! e := add64 (iv_end i) offset in Ok (interval_new s e).

Definition interval_decrease (i : Interval) (offset : Z) : outcome E Interval :=
  let! s := usub (iv_start i) offset in let! e := usub (iv_end i) offset in Ok (interval_new s e).

Definition interval_increase_start (i : Interval) (offset : Z) : outcome E Interval :=
  let! s := add64 (iv_start i) offset in Ok (interval_new s (iv_end i)).

Definition interval_decrease_start (i : Interval) (offset : Z) : outcome E Interval :=
  let! s := usub (iv_start i) offset in Ok (interval_new s (iv_end i)).

Definition interval_increase_end (i : Interval) (offset : Z) : outcome E Interval :=
  let! e := add64 (iv_end i) offset in Ok (interval_new (iv_start i) e).

Definition interval_decrease_end (i : Interval) (offset : Z) : outcome E Interval :=
  let! e := usub (iv_end i) offset in Ok (interval_new (iv_start i) e).

(** [n as f32] for a [u64], as the integer it denotes: rounded to the nearest
    multiple of the unit in the last place, ties to the even mantissa. *)
Definition u64_as_f32 (n : Z) : Z :=
  let sh := Z.max 0 (Z.log2 n + 1 - 24) in
  let q := n / 2 ^ sh in
  let r := n mod 2 ^ sh in
  let q' := if 2 * r <? 2 ^ sh then q
            else if 2 ^ sh <? 2 * r then q + 1
            else if Z.even q then q else q + 1 in
  q' * 2 ^ sh.

(** [split_fraction(0.5)]: [f32::ceil(size as f32 * 0.5) as u64] is the rounded
    size halved, rounded up. *)
Definition interval_split_half (i : Interval) : outcome E (Interval * Interval) :=
  let! n := interval_size i in
  let left_size := (u64_as_f32 n + 1) / 2 in
  let! s := add64 (iv_start i) left_size in
  let! le := usub s 1 in
  Ok (interval_new (iv_start i) le, interval_new s (iv_end i)).

Fixpoint split_exact_loop (start : Z) (sizes : list Z) : outcome E (list Interval) :=
  match sizes with
  | [] => Ok []
  | size :: sizes' =>
      let! s := add64 start size in
      let! e := usub s 1 in
      let! rest := split_exact_loop s sizes' in
      Ok (interval_new start e :: rest)
  end.

Definition interval_split_exact (i : Interval) (sizes : list Z) : outcome E (list Interval) :=
  let! total := sum64 sizes in
  let! n := interval_size i in
  let! _ := rassert (total =? n) in
  split_exact_loop (iv_start i) sizes.

Definition f64_of_u64 (n : Z) : spec_float := binary_normalize 53 1024 n 0 false.
Definition f64_one : spec_float := f64_of_u64 1.
Definition f64_zero : spec_float := S754_zero false.

(** [2f64.powf(k as f64)] for a [u64] k: the power of two, or infinity. *)
Definition f64_pow2 (k : Z) : spec_float :=
  if k <=? 1023 then f64_of_u64 (2 ^ k) else S754_infinity false.

Definition exponential_fractions (sizes : list Z) : list spec_float :=
  let max_size := foldr Z.max 0 sizes in
  let fractions := (fun s => f64_div f64_one (f64_pow2 (max_size - s))) <$> sizes in
  let fractions_sum := foldl f64_add f64_zero fractions in
  (fun item => f64_div item fractions_sum) <$> fractions.

(** [f64::round(x) as u64]: ties away from zero, saturating, NaN to 0. *)
Definition f64_round_as_u64 (x : spec_float) : Z :=
  match x with
  | S754_zero _ | S754_nan | S754_infinity true | S754_finite true _ _ => 0
  | S754_infinity false => U64 - 1
  | S754_finite false m e =>
      if 0 <=? e then Z.min (U64 - 1) (Z.pos m * 2 ^ e)
      else Z.min (U64 - 1) ((2 * Z.pos m + 2 ^ (- e)) / (2 * 2 ^ (- e)))
  end.

(** The loop of [split_exponential]; [fractions] and [sizes] are the parts from
    the current index on, so the last index is the one with no fraction left. *)
Fixpoint biased_sizes_loop (total_bias : spec_float) (remaining_bias : Z)
    (fractions : list spec_float) (sizes : list Z) : outcome E (list Z) :=
  match fractions, sizes with
  | fraction :: fractions', size :: sizes' =>
      let bias := match fractions' with
                  | [] => remaining_bias
                  | _ => Z.min remaining_bias (f64_round_as_u64 (f64_mul total_bias fraction))
                  end in
      let! b := add64 size bias in
      let! remaining' := usub remaining_bias bias in
      let! rest := biased_sizes_loop total_bias remaining' fractions' sizes' in
      Ok (b :: rest)
  | _, _ => Ok []
  end.

Definition interval_split_exponential (i : Interval) (sizes : list Z) : outcome E (list Interval) :=
  let! n := interval_size i in
  let! sizes_sum := sum64 sizes in
  let! _ := rassert (sizes_sum <=? n) in
  let! _ := rassert (0 <? sizes_sum) in
  if n =? sizes_sum then interval_split_exact i sizes else
  let! remaining_bias := usub n sizes_sum in
  let total_bias := f64_of_u64 remaining_bias in
  let! biased := biased_sizes_loop total_bias remaining_bias (exponential_fractions sizes) sizes in
  interval_split_exact i biased.

End Ops.

Definition interval_contains (i other : Interval) : bool :=
  (iv_start i <=? iv_start other) && (iv_end other <=? iv_end i).

Definition interval_strictly_contains (i other : Interval) : bool :=
  (iv_start i <=? iv_start other) && (iv_end other <? iv_end i).

(** ** Well-formed intervals and contiguous splits *)

(** The condition of the [debug_assert!]s of [Interval::new]. *)
Definition iv_ok (i : Interval) : Prop :=
  1 <= iv_start i /\ iv_start i - 1 <= iv_end i /\ iv_end i < U64 - 1.

(** The number of points of an interval. *)
Definition iv_len (i : Interval) : Z := iv_end i + 1 - iv_start i.

(** [parts] are adjacent intervals (possibly empty) covering exactly the points
    from [s] to [e]. *)
Fixpoint contiguous (s : Z) (parts : list Interval) (e : Z) : Prop :=
  match parts with
  | [] => s = e + 1
  | p :: ps => iv_start p = s /\ s - 1 <= iv_end p /\ contiguous (iv_end p + 1) ps e
  end.

Lemma interval_size_ok {E} i : iv_ok i -> @interval_size E i = Ok (iv_len i).
Proof.
  unfold iv_ok, interval_size, iv_len. intros. rewrite uadd_lt by lia. cbn. by rewrite usub_le by lia.
Qed.

Lemma interval_size_Ok {E} i n :
  @interval_size E i = Ok n -> n = iv_len i /\ iv_start i <= iv_end i + 1 /\ iv_end i + 1 < U64.
Proof. unfold interval_size, iv_len. intros. inv_outcome. lia. Qed.

Lemma contains_iff a b :
  interval_contains a b = true <-> iv_start a <= iv_start b /\ iv_end b <= iv_end a.
Proof. unfold interval_contains. rewrite andb_true_iff, !Z.leb_le. done. Qed.

Lemma strictly_contains_iff a b :
  interval_strictly_contains a b = true <-> iv_start a <= iv_start b /\ iv_end b < iv_end a.
Proof. unfold interval_strictly_contains. rewrite andb_true_iff, Z.leb_le, Z.ltb_lt. done. Qed.

Lemma contiguous_bounds s ps e : contiguous s ps e -> s <= e + 1.
Proof. revert s. induction ps as [|p ps IH]; cbn; intros s H; [lia|].
  destruct H as (? & ? & H%IH). lia. Qed.

Lemma contiguous_elem s ps e p :
  contiguous s ps e -> p ∈ ps -> s <= iv_start p /\ iv_start p - 1 <= iv_end p <= e.
Proof.
  revert s. induction ps as [|q ps IH]; cbn; intros s H Hp; [by apply elem_of_nil in Hp|].
  destruct H as (? & ? & H). apply elem_of_cons in Hp as [->|Hp].
  - apply contiguous_bounds in H. lia.
  - apply IH in H; [|done]. lia.
Qed.

(** ** The exact split *)

Lemma split_exact_loop_ok {E} start sizes :
  1 <= start -> Forall (fun x => 0 <= x) sizes -> start + zsum sizes < U64 ->
  exists parts, @split_exact_loop E start sizes = Ok parts /\
    contiguous start parts (start + zsum sizes - 1) /\
    iv_len <$> parts = sizes.
Proof.
  intros Hs Hl. revert start Hs. induction Hl as [|x l Hx Hl IH]; intros start Hs Hb; cbn in *.
  - exists []. cbn. split_and!; [done|lia|done].
  - pose proof (zsum_nonneg l Hl).
    destruct (IH (start + x)) as (ps & Hps & Hc & Hsz); [lia..|].
    rewrite uadd_lt by lia. cbn. rewrite usub_le by lia. cbn. rewrite Hps. cbn.
    eexists. split; [done|]. cbn. split_and!; [done|lia| |].
    + replace (start + x - 1 + 1) with (start + x) by lia.
      by replace (start + (x + zsum l) - 1) with (start + x + zsum l - 1) by lia.
    + unfold iv_len at 1. cbn. rewrite Hsz. f_equal. lia.
Qed.

Lemma split_exact_ok {E} i sizes :
  iv_ok i -> Forall (fun x => 0 <= x) sizes -> zsum sizes = iv_len i ->
  exists parts, @interval_split_exact E i sizes = Ok parts /\
    contiguous (iv_start i) parts (iv_end i) /\ iv_len <$> parts = sizes.
Proof.
  intros Hi Hl Hsum. unfold interval_split_exact.
  assert (Hlt : zsum sizes < U64) by (unfold iv_ok, iv_len in *; lia).
  rewrite sum64_spec by done. cbn. rewrite interval_size_ok by done. cbn.
  rewrite Hsum, Z.eqb_refl. cbn.
  destruct (@split_exact_loop_ok E (iv_start i) sizes) as (ps & Hps & Hc & Hsz);
    [unfold iv_ok, iv_len in *; lia|done|unfold iv_ok, iv_len in *; lia|].
  exists ps. split_and!; [done| |done].
  replace (iv_end i) with (iv_start i + zsum sizes - 1) by (unfold iv_len in *; lia). done.
Qed.

(** ** The exponential split *)

Lemma exponential_fractions_length sizes : length (exponential_fractions sizes) = length sizes.
Proof. unfold exponential_fractions. by rewrite !length_fmap. Qed.

Lemma f64_round_as_u64_nonneg x : 0 <= f64_round_as_u64 x.
Proof.
  destruct x as [|[]| |[] m e]; cbn -[Z.pow Z.mul Z.div]; try lia.
  destruct (Z.leb_spec 0 e); [lia|].
  assert (0 <= (2 * Z.pos m + 2 ^ (- e)) / (2 * 2 ^ (- e))); [|lia].
  apply Z.div_pos; lia.
Qed.

Lemma biased_sizes_loop_cons {E} tb rem f g fr x l :
  @biased_sizes_loop E tb rem (f :: g :: fr) (x :: l) =
  (let bias := Z.min rem (f64_round_as_u64 (f64_mul tb f)) in
   let! b := add64 x bias in let! rem' := usub rem bias in
   let! rest := biased_sizes_loop tb rem' (g :: fr) l in Ok (b :: rest)).
Proof. done. Qed.

Lemma biased_sizes_loop_ok {E} total_bias rem fractions sizes :
  length fractions = length sizes -> sizes <> [] -> 0 <= rem ->
  Forall (fun x => 0 <= x) sizes -> rem + zsum sizes < U64 ->
  exists biased, @biased_sizes_loop E total_bias rem fractions sizes = Ok biased /\
    Forall2 Z.le sizes biased /\ zsum biased = rem + zsum sizes.
Proof.
  intros Hlen Hne Hrem Hl. revert rem fractions Hlen Hne Hrem.
  induction Hl as [|x l Hx Hl IH]; intros rem fr Hlen Hne Hrem Hb; [done|].
  destruct fr as [|f fr]; [done|]. cbn in Hlen, Hb. injection Hlen as Hlen.
  pose proof (zsum_nonneg l Hl).
  destruct l as [|y l].
  - destruct fr; [|done]. cbn in *. rewrite uadd_lt by lia. cbn. rewrite usub_le by lia. cbn.
    eexists. split; [done|]. split; [constructor; [lia|constructor]|cbn; lia].
  - destruct fr as [|g fr]; [done|].
    rewrite biased_sizes_loop_cons. cbv zeta.
    set (bias := Z.min rem (f64_round_as_u64 (f64_mul total_bias f))).
    assert (0 <= bias <= rem) by (pose proof (f64_round_as_u64_nonneg (f64_mul total_bias f)); lia).
    rewrite uadd_lt by lia. cbn [obind]. rewrite usub_le by lia.
    cbn [obind].
    destruct (IH (rem - bias) (g :: fr)) as (b & -> & Hle & Hz); [done|done|lia|lia|].
    cbn [obind]. eexists. split; [done|]. split; [constructor; [lia|done]|].
    cbn [zsum] in *. lia.
Qed.

Lemma split_exponential_ok {E} i sizes :
  iv_ok i -> Forall (fun x => 0 <= x) sizes -> 0 < zsum sizes <= iv_len i ->
  exists parts, @interval_split_exponential E i sizes = Ok parts /\
    contiguous (iv_start i) parts (iv_end i) /\
    Forall2 (fun size part => size <= iv_len part) sizes parts.
Proof.
  intros Hi Hl Hsum. unfold interval_split_exponential.
  rewrite interval_size_ok by done. cbn.
  assert (iv_len i < U64) by (unfold iv_ok, iv_len in *; lia).
  rewrite sum64_spec by (done || lia). cbn.
  destruct (Z.leb_spec (zsum sizes) (iv_len i)); [|lia]. cbn.
  destruct (Z.ltb_spec 0 (zsum sizes)); [|lia]. cbn.
  destruct (Z.eqb_spec (iv_len i) (zsum sizes)) as [Heq|Hne].
  - destruct (@split_exact_ok E i sizes) as (ps & Hps & Hc & Hsz); [done..|].
    exists ps. split_and!; [done|done|]. rewrite <-Hsz.
    apply Forall2_fmap_l, Forall_Forall2_diag, Forall_true. intros p. cbn. reflexivity.
  - rewrite usub_le by lia. cbn.
    destruct (@biased_sizes_loop_ok E (f64_of_u64 (iv_len i - zsum sizes)) (iv_len i - zsum sizes)
      (exponential_fractions sizes) sizes) as (b & -> & Hle & Hz).
    + apply exponential_fractions_length.
    + intros ->. cbn in *. lia.
    + lia.
    + done.
    + lia.
    + cbn. destruct (@split_exact_ok E i b) as (ps & Hps & Hc & Hsz); [done| |lia|].
      * clear -Hl Hle. induction Hle; [constructor|]. inversion Hl; subst. constructor; [lia|auto].
      * exists ps. split_and!; [done|done|]. rewrite <-Hsz in Hle.
        rewrite Forall2_fmap_r in Hle. done.
Qed.

(** ** The half split *)

Lemma u64_as_f32_bounds n : 1 <= n -> 1 <= u64_as_f32 n /\ (u64_as_f32 n + 1) / 2 <= n.
Proof.
  intros Hn. unfold u64_as_f32. cbv zeta.
  set (sh := Z.max 0 (Z.log2 n + 1 - 24)).
  assert (Hsh : 0 <= sh) by lia.
  assert (Hp : 0 < 2 ^ sh) by (apply Z.pow_pos_nonneg; lia).
  pose proof (Z.div_mod n (2 ^ sh)) as Hdm.
  pose proof (Z.mod_pos_bound n (2 ^ sh) Hp) as Hr.
  assert (Hlog : 2 ^ Z.log2 n <= n) by (apply Z.log2_spec; lia).
  set (q := n / 2 ^ sh) in *. set (r := n mod 2 ^ sh) in *.
  assert (Hq : 1 <= q).
  { assert (2 ^ sh <= n); [|apply Z.div_le_lower_bound; lia].
    transitivity (2 ^ Z.log2 n); [|done]. apply Z.pow_le_mono_r; [lia|].
    pose proof (Z.log2_nonneg n). lia. }
  assert (Hsh' : sh = 0 \/ Z.log2 n = sh + 23) by lia.
  clearbody q r sh. destruct (Z.eq_dec sh 0) as [->|Hnz].
  - change (2 ^ 0) with 1 in *. assert (r = 0) as -> by lia.
    change (2 * 0 <? 1) with true. cbv iota.
    split; [lia|]. apply Z.div_le_upper_bound; lia.
  - assert (Hle : q <= (if 2 * r <? 2 ^ sh then q
            else if 2 ^ sh <? 2 * r then q + 1
            else if Z.even q then q else q + 1) <= q + 1) by (repeat case_match; lia).
    match type of Hle with _ <= ?e <= _ => set (q' := e) in * end. clearbody q'.
    assert (Hbig : 2 ^ sh + 1 <= n).
    { assert (2 ^ (sh + 1) <= n).
      { transitivity (2 ^ Z.log2 n); [|done]. apply Z.pow_le_mono_r; lia. }
      rewrite Z.pow_add_r in H by lia. lia. }
    split; [nia|]. apply Z.div_le_upper_bound; [lia|]. nia.
Qed.

Lemma split_half_ok {E} i :
  iv_ok i -> 1 <= iv_len i ->
  exists l r, @interval_split_half E i = Ok (l, r) /\
    contiguous (iv_start i) [l; r] (iv_end i) /\ 1 <= iv_len l.
Proof.
  intros Hi Hn. unfold interval_split_half. rewrite interval_size_ok by done. cbn -[Z.div].
  destruct (u64_as_f32_bounds (iv_len i) Hn) as [H1 H2].
  set (ls := (u64_as_f32 (iv_len i) + 1) / 2) in *.
  assert (1 <= ls) by (apply Z.div_le_lower_bound; lia).
  unfold iv_ok, iv_len in *.
  rewrite uadd_lt by lia. cbn. rewrite usub_le by lia. cbn.
  do 2 eexists. split; [done|]. cbn. lia.
Qed.
