(* ===== verification/Tx.v ===== *)
(** * Transactions

    The transaction types of consensus/core/src/tx.rs and subnets.rs that the
    consensus components share.  Byte strings are lists of [Z] in [0, 256); a
    transaction caches its identifier, so the identifier is a field. *)

From Stdlib Require Import ZArith Lia Bool.
From stdpp Require Import base gmap numbers list.
From S2P Require Import Prelude.

#[local] Open Scope Z_scope.

Abbreviation bytes := (list Z).

(** [SubnetworkId]: 20 bytes. *)
Definition SUBNETWORK_ID_SIZE : nat := 20.
Definition subnetwork_from_byte (b : Z) : bytes := b :: replicate (SUBNETWORK_ID_SIZE - 1) 0.
Definition SUBNETWORK_ID_NATIVE : bytes := subnetwork_from_byte 0.
Definition SUBNETWORK_ID_COINBASE : bytes := subnetwork_from_byte 1.
Definition SUBNETWORK_ID_REGISTRY : bytes := subnetwork_from_byte 2.

Definition is_builtin (id : bytes) : bool :=
  bool_decide (id = SUBNETWORK_ID_COINBASE) || bool_decide (id = SUBNETWORK_ID_REGISTRY).
Definition is_native (id : bytes) : bool := bool_decide (id = SUBNETWORK_ID_NATIVE).
Definition is_builtin_or_native (id : bytes) : bool := is_native id || is_builtin id.

Record ScriptPublicKey := mk_spk {
  spk_version : Z;
  spk_script : bytes
}.

#[export] Instance spk_eq_dec : EqDecision ScriptPublicKey.
Proof. solve_decision. Defined.

(** [TransactionOutpoint]: transaction id and output index. *)
Abbreviation TransactionOutpoint := (N * N)%type.

Record UtxoEntry := mk_utxo {
  ue_amount : Z;
  ue_script_public_key : ScriptPublicKey;
  ue_block_daa_score : Z;
  ue_is_coinbase : bool
}.

#[export] Instance utxo_eq_dec : EqDecision UtxoEntry.
Proof. solve_decision. Defined.

Record TransactionInput := mk_input {
  in_previous_outpoint : TransactionOutpoint;
  in_signature_script : bytes;
  in_sequence : Z;
  in_sig_op_count : Z
}.

Record TransactionOutput := mk_output {
  out_value : Z;
  out_script_public_key : ScriptPublicKey
}.

Record Transaction := mk_tx {
  tx_version : Z;
  tx_inputs : list TransactionInput;
  tx_outputs : list TransactionOutput;
  tx_lock_time : Z;
  tx_subnetwork_id : bytes;
  tx_gas : Z;
  tx_payload : bytes;
  tx_mass : Z;
  tx_id : N
}.

Definition is_coinbase (tx : Transaction) : bool := bool_decide (tx_subnetwork_id tx = SUBNETWORK_ID_COINBASE).

(** [VerifiableTransaction]: a transaction with the entry each input spends. *)
Record VerifiableTransaction := mk_vtx {
  v_tx : Transaction;
  v_entries : list UtxoEntry
}.

Definition populated_inputs (v : VerifiableTransaction) : list (TransactionInput * UtxoEntry) :=
  zip (tx_inputs (v_tx v)) (v_entries v).
