(* ===== verification/Utxo.v ===== *)
(** * UTXO collections, diffs and views

    Model of consensus/core/src/utxo: collections of unspent outputs, the algebra
    of UTXO diffs with its DAA score dimension, and views composed of a base and
    a diff.  A [HashMap] is a [gmap]; where the code iterates over one, the model
    iterates in the order of [map_to_list], and no theorem depends on the order. *)

From Stdlib Require Import ZArith Lia Bool.
From stdpp Require Import base gmap numbers list.
From S2P Require Import Prelude Tx.

#[local] Open Scope Z_scope.

Inductive UtxoAlgebraError :=
| DuplicateRemovePoint (o : TransactionOutpoint)
| DuplicateAddPoint (o : TransactionOutpoint)
| DoubleRemoveCall (o : TransactionOutpoint)
| DoubleAddCall (o : TransactionOutpoint)
| DiffIntersectionPoint (o : TransactionOutpoint)
| GeneralUtxoError.

Abbreviation uresult := (outcome UtxoAlgebraError).

(** ** utxo_collection.rs *)

Abbreviation UtxoCollection := (gmap (N * N) UtxoEntry).

Definition contains_with_daa_score (c : UtxoCollection) (o : TransactionOutpoint) (daa_score : Z) : bool :=
  match c !! o with
  | Some entry => ue_block_daa_score entry =? daa_score
  | None => false
  end.

Definition remove_collection (c other : UtxoCollection) : UtxoCollection :=
  foldl (fun c p => delete p.1 c) c (map_to_list other).

Definition intersects (c other : UtxoCollection) : bool :=
  let '(keys, other) := if (size c <=? size other)%nat then (map_to_list c, other) else (map_to_list other, c) in
  existsb (fun p => bool_decide (is_Some (other !! p.1))) keys.

Definition intersects_with_rule (c other : UtxoCollection)
    (rule : TransactionOutpoint -> UtxoEntry -> UtxoEntry -> bool) : option TransactionOutpoint :=
  if (size c <=? size other)%nat then
    fst <$> List.find (fun p => match other !! p.1 with Some v2 => rule p.1 p.2 v2 | None => false end) (map_to_list c)
  else
    fst <$> List.find (fun p => match c !! p.1 with Some v1 => rule p.1 v1 p.2 | None => false end) (map_to_list other).

(** The in-place set operations: each adds to its result collections. *)
Definition intersection_with_remainder (this other result remainder : UtxoCollection) : UtxoCollection * UtxoCollection :=
  foldl (fun acc p =>
    if contains_with_daa_score other p.1 (ue_block_daa_score p.2)
    then (<[p.1 := p.2]> acc.1, acc.2)
    else (acc.1, <[p.1 := p.2]> acc.2)) (result, remainder) (map_to_list this).

Definition subtraction_in_place (this other result : UtxoCollection) : UtxoCollection :=
  foldl (fun acc p =>
    if contains_with_daa_score other p.1 (ue_block_daa_score p.2) then acc else <[p.1 := p.2]> acc)
    result (map_to_list this).

Definition subtraction_with_remainder (this other result remainder : UtxoCollection) : UtxoCollection * UtxoCollection :=
  foldl (fun acc p =>
    if contains_with_daa_score other p.1 (ue_block_daa_score p.2)
    then (acc.1, <[p.1 := p.2]> acc.2)
    else (<[p.1 := p.2]> acc.1, acc.2)) (result, remainder) (map_to_list this).

(** ** utxo_diff.rs *)

Record UtxoDiff := mk_diff {
  ud_add : UtxoCollection;
  ud_remove : UtxoCollection
}.

Definition diff_default : UtxoDiff := mk_diff ∅ ∅.
Definition to_reversed (d : UtxoDiff) : UtxoDiff := mk_diff (ud_remove d) (ud_add d).

Definition with_diff (self other : UtxoDiff) : uresult UtxoDiff :=
  match intersects_with_rule (ud_remove other) (ud_remove self)
          (fun o entry_to_add _ => negb (contains_with_daa_score (ud_add self) o (ue_block_daa_score entry_to_add))) with
  | Some o => Err (DuplicateRemovePoint o)
  | None =>
  match intersects_with_rule (ud_add other) (ud_add self)
          (fun o _ existing_entry => negb (contains_with_daa_score (ud_remove other) o (ue_block_daa_score existing_entry))) with
  | Some o => Err (DuplicateAddPoint o)
  | None =>
      let '(intersection, remove) := intersection_with_remainder (ud_remove other) (ud_add self) ∅ (ud_remove self) in
      let add := remove_collection (ud_add self) intersection in
      let '(intersection, add) := intersection_with_remainder (ud_add other) remove ∅ add in
      let remove := remove_collection remove intersection in
      Ok (mk_diff add remove)
  end end.

Definition diff_from (self other : UtxoDiff) : uresult UtxoDiff :=
  let rule1 o this_entry other_entry :=
    negb (negb (ue_block_daa_score other_entry =? ue_block_daa_score this_entry) &&
          (contains_with_daa_score (ud_add self) o (ue_block_daa_score other_entry) ||
           contains_with_daa_score (ud_remove other) o (ue_block_daa_score this_entry))) in
  match intersects_with_rule (ud_remove self) (ud_add other) rule1 with
  | Some o => Err (DiffIntersectionPoint o)
  | None =>
  let rule2 o this_entry other_entry :=
    negb (negb (ue_block_daa_score other_entry =? ue_block_daa_score this_entry) &&
          (contains_with_daa_score (ud_remove self) o (ue_block_daa_score other_entry) ||
           contains_with_daa_score (ud_add other) o (ue_block_daa_score this_entry))) in
  match intersects_with_rule (ud_add self) (ud_remove other) rule2 with
  | Some o => Err (DiffIntersectionPoint o)
  | None =>
  match intersects_with_rule (ud_remove self) (ud_remove other)
          (fun _ this_entry other_entry => negb (ue_block_daa_score other_entry =? ue_block_daa_score this_entry)) with
  | Some o => Err (DiffIntersectionPoint o)
  | None =>
      let '(remove, in_both_to_add) := subtraction_with_remainder (ud_add self) (ud_add other) ∅ ∅ in
      if negb (Bool.eqb (intersects in_both_to_add (ud_remove self)) (intersects in_both_to_add (ud_remove other)))
      then Err GeneralUtxoError
      else
        let remove := subtraction_in_place (ud_remove other) (ud_remove self) remove in
        let add := subtraction_in_place (ud_remove self) (ud_remove other) ∅ in
        let add := subtraction_in_place (ud_add other) (ud_add self) add in
        Ok (mk_diff add remove)
  end end end.

Definition remove_entry (d : UtxoDiff) (o : TransactionOutpoint) (entry : UtxoEntry) : uresult UtxoDiff :=
  if contains_with_daa_score (ud_add d) o (ue_block_daa_score entry) then Ok (mk_diff (delete o (ud_add d)) (ud_remove d))
  else match ud_remove d !! o with
       | None => Ok (mk_diff (ud_add d) (<[o := entry]> (ud_remove d)))
       | Some _ => Err (DoubleRemoveCall o)
       end.

Definition add_entry (d : UtxoDiff) (o : TransactionOutpoint) (entry : UtxoEntry) : uresult UtxoDiff :=
  if contains_with_daa_score (ud_remove d) o (ue_block_daa_score entry) then Ok (mk_diff (ud_add d) (delete o (ud_remove d)))
  else match ud_add d !! o with
       | None => Ok (mk_diff (<[o := entry]> (ud_add d)) (ud_remove d))
       | Some _ => Err (DoubleAddCall o)
       end.

(** [add_transaction]: output [i] of the transaction gets index [i as u32]. *)
Fixpoint add_outputs (d : UtxoDiff) (tx_id : N) (coinbase : bool) (block_daa_score : Z) (i : N) (outputs : list TransactionOutput) :
    uresult UtxoDiff :=
  match outputs with
  | [] => Ok d
  | output :: outputs' =>
      let o := (tx_id, (i mod 4294967296)%N) in
      let entry := mk_utxo (out_value output) (out_script_public_key output) block_daa_score coinbase in
      let! d := add_entry d o entry in
      add_outputs d tx_id coinbase block_daa_score (N.succ i) outputs'
  end.

Definition add_transaction (d : UtxoDiff) (v : VerifiableTransaction) (block_daa_score : Z) : uresult UtxoDiff :=
  let! d := foldM_out (fun d p => remove_entry d (in_previous_outpoint p.1) p.2) d (populated_inputs v) in
  add_outputs d (tx_id (v_tx v)) (is_coinbase (v_tx v)) block_daa_score 0 (tx_outputs (v_tx v)).

(** ** utxo_view.rs *)

(** A [UtxoView] is its [get] function. *)
Abbreviation UtxoView := (TransactionOutpoint -> option UtxoEntry).

Definition composed (base : UtxoView) (d : UtxoDiff) : UtxoView := fun o =>
  match ud_add d !! o with
  | Some entry => Some entry
  | None => if decide (is_Some (ud_remove d !! o)) then None else base o
  end.
