(* ===== verification/UtxoProps.v ===== *)
(** * UTXO diffs: correctness

    The diff operations against views: [with_diff] composes diffs, [diff_from]
    gives the diff between two diffs of one base, and [add_transaction] spends
    and creates exactly the transaction's outputs. *)

From Stdlib Require Import ZArith Lia Bool.
From stdpp Require Import base gmap numbers list.
From S2P Require Import Prelude Tx Utxo.

#[local] Open Scope Z_scope.

(** ** The set operations, outpoint by outpoint *)

(** Inserting the entries that pass a test. *)
Definition insert_if (t : TransactionOutpoint -> UtxoEntry -> bool) (acc : UtxoCollection) (p : TransactionOutpoint * UtxoEntry) :
    UtxoCollection := if t p.1 p.2 then <[p.1 := p.2]> acc else acc.

Lemma insert_if_lookup (t : TransactionOutpoint -> UtxoEntry -> bool) (this res : UtxoCollection) (o : TransactionOutpoint) :
  foldl (insert_if t) res (map_to_list this) !! o =
  match this !! o with Some e => if t o e then Some e else res !! o | None => res !! o end.
Proof.
  assert (Hgen : forall (l : list (TransactionOutpoint * UtxoEntry)) (res : UtxoCollection), NoDup l.*1 ->
    (forall e, (o, e) ∈ l -> foldl (insert_if t) res l !! o = if t o e then Some e else res !! o) /\
    (o ∉ l.*1 -> foldl (insert_if t) res l !! o = res !! o)).
  { clear res. intros l. induction l as [|[k e] l IH]; intros res Hnd; cbn.
    - split; [intros e He; by apply elem_of_nil in He|done].
    - apply NoDup_cons in Hnd as [Hk Hnd]. destruct (IH (insert_if t res (k, e)) Hnd) as [IHin IHout]. split.
      + intros e' [[= -> ->]|He]%elem_of_cons.
        * rewrite (IHout Hk). unfold insert_if. cbn. case_match; [by rewrite lookup_insert_eq|done].
        * assert (o <> k) by (intros ->; apply Hk, list_elem_of_fmap; by exists (k, e')).
          rewrite (IHin _ He). unfold insert_if. cbn. destruct (t k e); [by rewrite lookup_insert_ne|done].
      + intros [Hok Hol]%not_elem_of_cons. rewrite (IHout Hol). unfold insert_if. cbn.
        destruct (t k e); [by rewrite lookup_insert_ne|done]. }
  destruct (Hgen (map_to_list this) res (NoDup_fst_map_to_list this)) as [Hin Hout].
  destruct (this !! o) as [e|] eqn:He; [apply Hin; by apply elem_of_map_to_list|].
  apply Hout. intros ([k e'] & -> & Hk)%list_elem_of_fmap. apply elem_of_map_to_list in Hk. cbn in He. congruence.
Qed.

Lemma foldl_pair {A B C} (f : A -> C -> A) (g : B -> C -> B) l a b :
  foldl (fun acc x => (f acc.1 x, g acc.2 x)) (a, b) l = (foldl f a l, foldl g b l).
Proof. revert a b. induction l as [|x l IH]; intros a b; cbn; [done|]. apply IH. Qed.

(** What the iteration tests: the entry is in [other] with the same score. *)
Definition in_other (other : UtxoCollection) (o : TransactionOutpoint) (e : UtxoEntry) : bool :=
  contains_with_daa_score other o (ue_block_daa_score e).

Lemma foldl_ext_fun {A B} (f g : A -> B -> A) l a : (forall a b, f a b = g a b) -> foldl f a l = foldl g a l.
Proof. intros H. revert a. induction l as [|x l IH]; intros a; cbn; [done|]. by rewrite H, IH. Qed.

Lemma intersection_lookup this other result remainder o :
  let r := intersection_with_remainder this other result remainder in
  r.1 !! o = match this !! o with Some e => if in_other other o e then Some e else result !! o | None => result !! o end /\
  r.2 !! o = match this !! o with Some e => if in_other other o e then remainder !! o else Some e | None => remainder !! o end.
Proof.
  unfold intersection_with_remainder.
  rewrite (foldl_ext_fun _ (fun acc x => (insert_if (in_other other) acc.1 x, insert_if (fun o e => negb (in_other other o e)) acc.2 x))).
  2: { intros [a b] [k e]. unfold insert_if, in_other. cbn. by destruct (contains_with_daa_score _ _ _). }
  rewrite foldl_pair. cbn. rewrite !insert_if_lookup. split; [done|]. destruct (this !! o); [|done]. by destruct (in_other _ _ _).
Qed.

Lemma subtraction_with_remainder_swap this other result remainder :
  subtraction_with_remainder this other result remainder =
  (let r := intersection_with_remainder this other remainder result in (r.2, r.1)).
Proof.
  unfold subtraction_with_remainder, intersection_with_remainder. cbn. generalize (map_to_list this). intros l.
  revert result remainder. induction l as [|x l IH]; intros result remainder; cbn; [done|].
  destruct (contains_with_daa_score _ _ _); apply IH.
Qed.

Lemma subtraction_lookup this other result o :
  subtraction_in_place this other result !! o =
  match this !! o with Some e => if in_other other o e then result !! o else Some e | None => result !! o end.
Proof.
  unfold subtraction_in_place. rewrite (foldl_ext_fun _ (insert_if (fun o e => negb (in_other other o e)))).
  2: { intros a [k e]. unfold insert_if, in_other. cbn. by destruct (contains_with_daa_score _ _ _). }
  rewrite insert_if_lookup. destruct (this !! o); [|done]. by destruct (in_other _ _ _).
Qed.

Lemma remove_collection_lookup c other o :
  remove_collection c other !! o = (if decide (is_Some (other !! o)) then None else c !! o).
Proof.
  unfold remove_collection.
  assert (Hgen : forall l c, foldl (fun (c : UtxoCollection) (p : TransactionOutpoint * UtxoEntry) => delete p.1 c) c l !! o =
    (if decide (o ∈ l.*1) then None else c !! o)).
  { clear c. intros l. induction l as [|[k e] l IH]; intros c; cbn; [by rewrite decide_False by apply not_elem_of_nil|].
    rewrite IH, lookup_delete. destruct (decide (o ∈ l.*1)), (decide (k = o)), (decide (o ∈ k :: l.*1)) as [Hin|Hin]; try done;
      rewrite elem_of_cons in Hin; naive_solver. }
  rewrite Hgen. apply decide_ext. rewrite list_elem_of_fmap. split.
  - intros ([k e] & -> & Hk). apply elem_of_map_to_list in Hk. cbn. eauto.
  - intros [e He]. exists (o, e). split; [done|]. by apply elem_of_map_to_list.
Qed.

Lemma find_None_map (m : UtxoCollection) (f : TransactionOutpoint * UtxoEntry -> bool) :
  List.find f (map_to_list m) = None <-> forall o e, m !! o = Some e -> f (o, e) = false.
Proof.
  split.
  - intros H o e He. apply (List.find_none _ _ H), list_elem_of_In. by apply elem_of_map_to_list.
  - intros H. destruct (List.find f (map_to_list m)) as [[o e]|] eqn:Hf; [|done].
    apply List.find_some in Hf as [Hin Hf]. apply list_elem_of_In, elem_of_map_to_list in Hin. rewrite H in Hf by done. done.
Qed.

Lemma intersects_with_rule_None c other rule :
  intersects_with_rule c other rule = None <->
  forall o v1 v2, c !! o = Some v1 -> other !! o = Some v2 -> rule o v1 v2 = false.
Proof.
  unfold intersects_with_rule. destruct (_ <=? _)%nat; rewrite fmap_None, find_None_map.
  - split; [intros H o v1 v2 H1 H2; specialize (H o v1 H1); cbn in H; by rewrite H2 in H|].
    intros H o v1 H1. cbn. destruct (other !! o) eqn:H2; [by apply H|done].
  - split; [intros H o v1 v2 H1 H2; specialize (H o v2 H2); cbn in H; by rewrite H1 in H|].
    intros H o v2 H2. cbn. destruct (c !! o) eqn:H1; [by apply H|done].
Qed.

Lemma intersects_true c other : intersects c other = true <-> exists o, is_Some (c !! o) /\ is_Some (other !! o).
Proof.
  unfold intersects. destruct (_ <=? _)%nat; rewrite existsb_exists; split.
  - intros ([o e] & Hin & Hb). apply list_elem_of_In, elem_of_map_to_list in Hin. apply bool_decide_eq_true in Hb. eauto.
  - intros (o & [e He] & Ho). exists (o, e). split; [by apply list_elem_of_In, elem_of_map_to_list|]. by apply bool_decide_eq_true.
  - intros ([o e] & Hin & Hb). apply list_elem_of_In, elem_of_map_to_list in Hin. apply bool_decide_eq_true in Hb. eauto.
  - intros (o & Ho & [e He]). exists (o, e). split; [by apply list_elem_of_In, elem_of_map_to_list|]. by apply bool_decide_eq_true.
Qed.

(** ** Diffs of a base view *)

(** The diff removes what the base holds, and adds what the base does not hold or
    what it removes with a different DAA score. *)
Record diff_valid (base : UtxoView) (d : UtxoDiff) : Prop := mk_diff_valid {
  dv_remove o e : ud_remove d !! o = Some e -> base o = Some e;
  dv_add o e : ud_add d !! o = Some e ->
    base o = None \/ exists r, ud_remove d !! o = Some r /\ ue_block_daa_score r <> ue_block_daa_score e
}.

(** Added entries equal the base's entries of the same outpoint and score. *)
Definition same_entries (base : UtxoView) (d : UtxoDiff) : Prop :=
  forall o e u, ud_add d !! o = Some e -> base o = Some u ->
    ue_block_daa_score e = ue_block_daa_score u -> e = u.

(** The outcome of [with_diff] at one outpoint, from the four entries. *)
Definition with_diff_at (a1 r1 a2 r2 : option UtxoEntry) : option UtxoEntry * option UtxoEntry :=
  let hit (x y : option UtxoEntry) :=
    match x, y with Some e, Some e' => ue_block_daa_score e' =? ue_block_daa_score e | _, _ => false end in
  let rem := if hit r2 a1 then r1 else match r2 with Some e => Some e | None => r1 end in
  let add := if hit r2 a1 then None else a1 in
  (if hit a2 rem then add else match a2 with Some e => Some e | None => add end,
   if hit a2 rem then None else rem).

Lemma with_diff_lookup d1 d2 d o :
  with_diff d1 d2 = Ok d ->
  (ud_add d !! o, ud_remove d !! o) = with_diff_at (ud_add d1 !! o) (ud_remove d1 !! o) (ud_add d2 !! o) (ud_remove d2 !! o).
Proof.
  unfold with_diff. destruct (intersects_with_rule _ _ _); [done|]. destruct (intersects_with_rule _ _ _); [done|].
  destruct (intersection_with_remainder (ud_remove d2) (ud_add d1) ∅ (ud_remove d1)) as [i1 rem1] eqn:H1.
  destruct (intersection_with_remainder (ud_add d2) rem1 ∅ (remove_collection (ud_add d1) i1)) as [i2 add2] eqn:H2.
  intros [= <-]. cbn.
  destruct (intersection_lookup (ud_remove d2) (ud_add d1) ∅ (ud_remove d1) o) as [Hi1 Hr1]. rewrite H1 in Hi1, Hr1.
  destruct (intersection_lookup (ud_add d2) rem1 ∅ (remove_collection (ud_add d1) i1) o) as [Hi2 Ha2]. rewrite H2 in Hi2, Ha2.
  cbn in Hi1, Hr1, Hi2, Ha2. rewrite remove_collection_lookup, Hi2, Ha2, remove_collection_lookup, Hi1.
  unfold in_other, contains_with_daa_score in *. rewrite Hr1. unfold with_diff_at. rewrite !lookup_empty.
  destruct (ud_remove d2 !! o) as [r2|], (ud_add d1 !! o) as [a1|], (ud_add d2 !! o) as [a2|], (ud_remove d1 !! o) as [r1|]; cbn;
    repeat (case_match; cbn); try done; repeat (case_decide; cbn); try done; naive_solver.
Qed.

Ltac utxo_cases :=
  repeat match goal with
  | H : is_Some _ |- _ => destruct H
  | H : exists _, _ |- _ => destruct H
  | H : _ /\ _ |- _ => destruct H
  | H : _ \/ _ |- _ => destruct H
  | H : (_ =? _) = true |- _ => apply Z.eqb_eq in H
  | H : (_ =? _) = false |- _ => apply Z.eqb_neq in H
  end.

Section Compose.
Context (base : UtxoView) (d1 d2 : UtxoDiff).
Hypothesis Hv1 : diff_valid base d1.
Hypothesis Hv2 : diff_valid (composed base d1) d2.
Hypothesis Hsame : same_entries base d2.

Lemma with_diff_checks :
  exists d, with_diff d1 d2 = Ok d.
Proof using Hv1 Hv2.
  unfold with_diff.
  assert (intersects_with_rule (ud_remove d2) (ud_remove d1)
    (fun o e _ => negb (contains_with_daa_score (ud_add d1) o (ue_block_daa_score e))) = None) as ->.
  { apply intersects_with_rule_None. intros o r2 r1 Hr2 Hr1. apply negb_false_iff.
    apply (dv_remove _ _ Hv2) in Hr2. unfold composed in Hr2. unfold contains_with_daa_score.
    destruct (ud_add d1 !! o); [injection Hr2 as ->; apply Z.eqb_refl|]. rewrite decide_True in Hr2 by eauto. done. }
  assert (intersects_with_rule (ud_add d2) (ud_add d1)
    (fun o _ e => negb (contains_with_daa_score (ud_remove d2) o (ue_block_daa_score e))) = None) as ->.
  { apply intersects_with_rule_None. intros o a2 a1 Ha2 Ha1. apply negb_false_iff. unfold contains_with_daa_score.
    destruct (dv_add _ _ Hv2 _ _ Ha2) as [Hc|(r & Hr & Hne)]; [unfold composed in Hc; by rewrite Ha1 in Hc|].
    rewrite Hr. apply (dv_remove _ _ Hv2) in Hr. unfold composed in Hr. rewrite Ha1 in Hr. injection Hr as ->. apply Z.eqb_refl. }
  destruct (intersection_with_remainder _ _ _ _) as [? ?]. destruct (intersection_with_remainder _ _ _ _). eauto.
Qed.

(** At one outpoint: the composed diff gives the composed view and is valid. *)
Lemma with_diff_pointwise d o :
  with_diff d1 d2 = Ok d ->
  composed base d o = composed (composed base d1) d2 o /\
  (forall e, ud_remove d !! o = Some e -> base o = Some e) /\
  (forall e, ud_add d !! o = Some e ->
     base o = None \/ exists r, ud_remove d !! o = Some r /\ ue_block_daa_score r <> ue_block_daa_score e).
Proof using Hv1 Hv2 Hsame.
  intros Hd. pose proof (with_diff_lookup _ _ _ o Hd) as Hat. unfold with_diff_at in Hat.
  pose proof (dv_remove _ _ Hv1 o) as V1r. pose proof (dv_add _ _ Hv1 o) as V1a.
  pose proof (dv_remove _ _ Hv2 o) as V2r. pose proof (dv_add _ _ Hv2 o) as V2a. pose proof (Hsame o) as Hs.
  unfold composed in *. clear Hv1 Hv2 Hsame Hd.
  destruct (ud_add d1 !! o) as [a1|], (ud_remove d1 !! o) as [r1|], (ud_add d2 !! o) as [a2|], (ud_remove d2 !! o) as [r2|];
    cbn in Hat;
    repeat (match type of Hat with context [?x =? ?y] => destruct (Z.eqb_spec x y) end; cbn in Hat);
    apply pair_equal_spec in Hat as [-> ->]; repeat case_decide;
    try specialize (V1r _ eq_refl); try specialize (V2r _ eq_refl); try specialize (V1a _ eq_refl); try specialize (V2a _ eq_refl);
    naive_solver.
Qed.
End Compose.

(** ** [diff_from] *)

(** The outcome of [diff_from] at one outpoint. *)
Definition diff_from_at (a1 r1 a2 r2 : option UtxoEntry) : option UtxoEntry * option UtxoEntry :=
  let hit (x y : option UtxoEntry) :=
    match x, y with Some e, Some e' => ue_block_daa_score e' =? ue_block_daa_score e | _, _ => false end in
  let minus (x y z : option UtxoEntry) := match x with Some e => if hit x y then z else Some e | None => z end in
  (minus a2 a1 (minus r1 r2 None), minus r2 r1 (minus a1 a2 None)).

Lemma diff_from_lookup d1 d2 d o :
  diff_from d1 d2 = Ok d ->
  (ud_add d !! o, ud_remove d !! o) = diff_from_at (ud_add d1 !! o) (ud_remove d1 !! o) (ud_add d2 !! o) (ud_remove d2 !! o).
Proof.
  unfold diff_from. do 3 (destruct (intersects_with_rule _ _ _); [done|]).
  rewrite subtraction_with_remainder_swap. cbv zeta.
  destruct (intersection_with_remainder (ud_add d1) (ud_add d2) ∅ ∅) as [both rem1] eqn:H1. cbn.
  destruct (negb _); [done|]. intros [= <-]. cbn.
  destruct (intersection_lookup (ud_add d1) (ud_add d2) ∅ ∅ o) as [_ Hr1]. rewrite H1 in Hr1. cbn in Hr1.
  rewrite !subtraction_lookup, Hr1, !lookup_empty. unfold in_other, contains_with_daa_score, diff_from_at.
  destruct (ud_remove d2 !! o) as [r2|], (ud_add d1 !! o) as [a1|], (ud_add d2 !! o) as [a2|], (ud_remove d1 !! o) as [r1|]; cbn;
    repeat (case_match; cbn); naive_solver.
Qed.

Section Difference.
Context (base : UtxoView) (d1 d2 : UtxoDiff).
Hypothesis Hv1 : diff_valid base d1.
Hypothesis Hv2 : diff_valid base d2.
(** Entries both diffs add with the same score are the same. *)
Hypothesis Hsame : forall o e1 e2, ud_add d1 !! o = Some e1 -> ud_add d2 !! o = Some e2 ->
  ue_block_daa_score e1 = ue_block_daa_score e2 -> e1 = e2.

Lemma diff_from_checks : exists d, diff_from d1 d2 = Ok d.
Proof using Hv1 Hv2.
  unfold diff_from. cbv zeta.
  match goal with |- context [match ?x with _ => _ end] => assert (x = None) as -> end.
  { apply intersects_with_rule_None. intros o r1 a2 Hr1 Ha2. apply negb_false_iff, andb_true_iff.
    apply (dv_remove _ _ Hv1) in Hr1. destruct (dv_add _ _ Hv2 _ _ Ha2) as [?|(r & Hr & Hne)]; [congruence|].
    pose proof (dv_remove _ _ Hv2 _ _ Hr). assert (r = r1) as -> by congruence.
    split; [apply negb_true_iff, Z.eqb_neq; congruence|]. apply orb_true_iff. right.
    unfold contains_with_daa_score. rewrite Hr. apply Z.eqb_refl. }
  match goal with |- context [match ?x with _ => _ end] => assert (x = None) as -> end.
  { apply intersects_with_rule_None. intros o a1 r2 Ha1 Hr2. apply negb_false_iff, andb_true_iff.
    apply (dv_remove _ _ Hv2) in Hr2. destruct (dv_add _ _ Hv1 _ _ Ha1) as [?|(r & Hr & Hne)]; [congruence|].
    pose proof (dv_remove _ _ Hv1 _ _ Hr). assert (r = r2) as -> by congruence.
    split; [apply negb_true_iff, Z.eqb_neq; congruence|]. apply orb_true_iff. left.
    unfold contains_with_daa_score. rewrite Hr. apply Z.eqb_refl. }
  match goal with |- context [match ?x with _ => _ end] => assert (x = None) as -> end.
  { apply intersects_with_rule_None. intros o r1 r2 Hr1 Hr2. apply negb_false_iff, Z.eqb_eq.
    apply (dv_remove _ _ Hv1) in Hr1. apply (dv_remove _ _ Hv2) in Hr2. congruence. }
  rewrite subtraction_with_remainder_swap. cbv zeta.
  destruct (intersection_with_remainder (ud_add d1) (ud_add d2) ∅ ∅) as [both rem1] eqn:H1. cbn.
  assert (Hboth : forall o, is_Some (both !! o) -> is_Some (ud_add d1 !! o) /\ is_Some (ud_add d2 !! o)).
  { intros o [e He]. destruct (intersection_lookup (ud_add d1) (ud_add d2) ∅ ∅ o) as [Hi _]. rewrite H1 in Hi. cbn in Hi.
    rewrite He, lookup_empty in Hi. unfold in_other, contains_with_daa_score in Hi.
    destruct (ud_add d1 !! o), (ud_add d2 !! o); cbn in Hi; (done || eauto). }
  assert (intersects both (ud_remove d1) = intersects both (ud_remove d2)) as ->.
  { apply Bool.eq_iff_eq_true. rewrite !intersects_true. split; intros (o & Hb & [r Hr]); exists o; (split; [done|]);
      destruct (Hboth o Hb) as [[a1 Ha1] [a2 Ha2]].
    - apply (dv_remove _ _ Hv1) in Hr. destruct (dv_add _ _ Hv2 _ _ Ha2) as [?|(r' & Hr' & _)]; [congruence|eauto].
    - apply (dv_remove _ _ Hv2) in Hr. destruct (dv_add _ _ Hv1 _ _ Ha1) as [?|(r' & Hr' & _)]; [congruence|eauto]. }
  rewrite Bool.eqb_reflx. cbn. eauto.
Qed.

Lemma diff_from_pointwise d o :
  diff_from d1 d2 = Ok d ->
  composed (composed base d1) d o = composed base d2 o /\
  (forall e, ud_remove d !! o = Some e -> composed base d1 o = Some e) /\
  (forall e, ud_add d !! o = Some e ->
     composed base d1 o = None \/ exists r, ud_remove d !! o = Some r /\ ue_block_daa_score r <> ue_block_daa_score e).
Proof using Hv1 Hv2 Hsame.
  intros Hd. pose proof (diff_from_lookup _ _ _ o Hd) as Hat. unfold diff_from_at in Hat.
  pose proof (dv_remove _ _ Hv1 o) as V1r. pose proof (dv_add _ _ Hv1 o) as V1a.
  pose proof (dv_remove _ _ Hv2 o) as V2r. pose proof (dv_add _ _ Hv2 o) as V2a. pose proof (Hsame o) as Hs.
  unfold composed in *. clear Hv1 Hv2 Hsame Hd.
  destruct (ud_add d1 !! o) as [a1|], (ud_remove d1 !! o) as [r1|], (ud_add d2 !! o) as [a2|], (ud_remove d2 !! o) as [r2|];
    cbn in Hat;
    repeat (match type of Hat with context [?x =? ?y] => destruct (Z.eqb_spec x y) end; cbn in Hat);
    apply pair_equal_spec in Hat as [-> ->]; repeat case_decide;
    try specialize (V1r _ eq_refl); try specialize (V2r _ eq_refl); try specialize (V1a _ eq_refl); try specialize (V2a _ eq_refl);
    try specialize (Hs _ _ eq_refl eq_refl); naive_solver.
Qed.
End Difference.

(** ** Transactions *)

Section Entries.
Context (base : UtxoView).

Lemma remove_entry_spec d o e :
  diff_valid base d -> composed base d o = Some e ->
  exists d', remove_entry d o e = Ok d' /\ diff_valid base d' /\
    forall x, composed base d' x = if decide (x = o) then None else composed base d x.
Proof using.
  intros Hv Ho. unfold remove_entry, contains_with_daa_score. unfold composed in Ho.
  destruct (ud_add d !! o) as [a|] eqn:Ha.
  - injection Ho as ->. rewrite Z.eqb_refl. eexists. split; [done|]. split; [split|].
    + intros x r Hr. by apply (dv_remove _ _ Hv).
    + cbn. intros x a. rewrite lookup_delete. case_decide; [done|]. apply (dv_add _ _ Hv).
    + intros x. unfold composed. cbn. rewrite lookup_delete. destruct (decide (o = x)) as [->|Hne].
      * rewrite (decide_True (P := x = x)) by done. case_decide as Hr; [done|].
        destruct (dv_add _ _ Hv _ _ Ha) as [?|(r & ? & _)]; [done|]. destruct Hr. eauto.
      * by rewrite (decide_False (P := x = o)) by congruence.
  - case_decide as Hr; [done|]. destruct (ud_remove d !! o) as [r|] eqn:Hro; [destruct Hr; eauto|].
    eexists. split; [done|]. split; [split|].
    + cbn. intros x r. rewrite lookup_insert. case_decide; [intros [= <-]; by subst|apply (dv_remove _ _ Hv)].
    + cbn. intros x a Hxa. destruct (dv_add _ _ Hv _ _ Hxa) as [?|(r & ? & ?)]; [auto|]. right. exists r.
      rewrite lookup_insert_ne by congruence. done.
    + intros x. unfold composed. cbn. rewrite lookup_insert. destruct (decide (o = x)) as [->|Hne].
      * rewrite Ha. by rewrite !decide_True by eauto.
      * by rewrite (decide_False (P := x = o)) by congruence.
Qed.

Lemma add_entry_spec d o e :
  diff_valid base d -> composed base d o = None ->
  (forall u, base o = Some u -> ue_block_daa_score u = ue_block_daa_score e -> u = e) ->
  exists d', add_entry d o e = Ok d' /\ diff_valid base d' /\
    forall x, composed base d' x = if decide (x = o) then Some e else composed base d x.
Proof using.
  intros Hv Ho Hsame. unfold add_entry, contains_with_daa_score. unfold composed in Ho.
  destruct (ud_add d !! o) as [a|] eqn:Ha; [done|].
  destruct (ud_remove d !! o) as [r|] eqn:Hr; [destruct (Z.eqb_spec (ue_block_daa_score r) (ue_block_daa_score e)) as [Heq|Hne]|].
  - pose proof (dv_remove _ _ Hv _ _ Hr) as Hb. rewrite (Hsame _ Hb Heq) in Hb. clear Ho.
    eexists. split; [done|]. split; [split|].
    + cbn. intros x r'. rewrite lookup_delete. case_decide; [done|]. apply (dv_remove _ _ Hv).
    + cbn. intros x a Hxa. destruct (dv_add _ _ Hv _ _ Hxa) as [?|(r' & ? & ?)]; [auto|]. right. exists r'.
      rewrite lookup_delete_ne by congruence. done.
    + intros x. unfold composed. cbn. rewrite lookup_delete. destruct (decide (o = x)) as [->|Hne].
      * rewrite Ha, (decide_True (P := x = x)) by done. by rewrite decide_False by (by intros [? ?]).
      * by rewrite (decide_False (P := x = o)) by congruence.
  - clear Ho. eexists. split; [done|]. split; [split|].
    + cbn. apply (dv_remove _ _ Hv).
    + cbn. intros x a. rewrite lookup_insert. case_decide; [intros [= <-]; subst x; eauto|apply (dv_add _ _ Hv)].
    + intros x. unfold composed. cbn. rewrite lookup_insert. destruct (decide (o = x)) as [->|Hne'].
      * by rewrite (decide_True (P := x = x)).
      * by rewrite (decide_False (P := x = o)) by congruence.
  - rewrite decide_False in Ho by (by intros [? ?]). eexists. split; [done|]. split; [split|].
    + cbn. apply (dv_remove _ _ Hv).
    + cbn. intros x a. rewrite lookup_insert. case_decide; [intros [= <-]; subst x; eauto|apply (dv_add _ _ Hv)].
    + intros x. unfold composed. cbn. rewrite lookup_insert. destruct (decide (o = x)) as [->|Hne'].
      * by rewrite (decide_True (P := x = x)).
      * by rewrite (decide_False (P := x = o)) by congruence.
Qed.

Lemma remove_inputs_spec (ins : list (TransactionInput * UtxoEntry)) d :
  diff_valid base d -> NoDup ((fun p => in_previous_outpoint p.1) <$> ins) ->
  Forall (fun p => composed base d (in_previous_outpoint p.1) = Some p.2) ins ->
  exists d', foldM_out (fun d p => remove_entry d (in_previous_outpoint p.1) p.2) d ins = Ok d' /\ diff_valid base d' /\
    forall x, composed base d' x =
      if decide (x ∈ (fun p => in_previous_outpoint p.1) <$> ins) then None else composed base d x.
Proof using.
  revert d. induction ins as [|p ins IH]; intros d Hv Hnd Hall.
  { exists d. split_and!; [done..|]. intros x. by rewrite decide_False by apply not_elem_of_nil. }
  cbn in Hnd. apply NoDup_cons in Hnd as [Hp Hnd]. apply Forall_cons in Hall as [Hp0 Hall].
  destruct (remove_entry_spec d _ _ Hv Hp0) as (d1 & Hd1 & Hv1 & Hc1). cbn [foldM_out]. rewrite Hd1. cbn [obind].
  destruct (IH d1 Hv1 Hnd) as (d' & -> & Hv' & Hc').
  { rewrite Forall_forall in Hall |- *. intros q Hq. rewrite Hc1, decide_False; [by apply Hall|].
    intros Heq. apply Hp. apply list_elem_of_fmap. exists q. done. }
  exists d'. split_and!; [done..|]. intros x. rewrite Hc', Hc1. cbn [fmap list_fmap].
  repeat case_decide; try done; set_solver.
Qed.

(** The entry output [i] of the transaction creates. *)
Definition output_entry (v : VerifiableTransaction) (score : Z) (out : TransactionOutput) : UtxoEntry :=
  mk_utxo (out_value out) (out_script_public_key out) score (is_coinbase (v_tx v)).

Lemma add_outputs_spec id cb score (outs : list TransactionOutput) i d :
  let entry out := mk_utxo (out_value out) (out_script_public_key out) score cb in
  diff_valid base d -> (i + N.of_nat (length outs) <= 4294967296)%N ->
  (forall j out, outs !! j = Some out -> composed base d (id, (i + N.of_nat j)%N) = None) ->
  (forall j out u, outs !! j = Some out -> base (id, (i + N.of_nat j)%N) = Some u ->
     ue_block_daa_score u = score -> u = entry out) ->
  exists d', add_outputs d id cb score i outs = Ok d' /\ diff_valid base d' /\
    (forall j out, outs !! j = Some out -> composed base d' (id, (i + N.of_nat j)%N) = Some (entry out)) /\
    (forall x, (forall j out, outs !! j = Some out -> x <> (id, (i + N.of_nat j)%N)) -> composed base d' x = composed base d x).
Proof using.
  cbv zeta. revert i d. induction outs as [|out outs IH]; intros i d Hv Hlen Hnew Hsame.
  { exists d. split_and!; [done..|intros j out Hj; by rewrite lookup_nil in Hj|done]. }
  cbn [add_outputs]. cbn [length] in Hlen. rewrite N.mod_small by lia.
  pose proof (Hnew 0%nat out eq_refl) as H0. pose proof (fun u => Hsame 0%nat out u eq_refl) as S0. cbn in H0, S0.
  rewrite N.add_0_r in H0, S0.
  destruct (add_entry_spec d (id, i) (mk_utxo (out_value out) (out_script_public_key out) score cb) Hv H0) as (d1 & -> & Hv1 & Hc1);
    [exact S0|]. cbn [obind].
  assert (Hshift : forall j, (N.succ i + N.of_nat j = i + N.of_nat (S j))%N) by lia.
  destruct (IH (N.succ i) d1 Hv1) as (d' & -> & Hv' & Hin & Hout); [lia| | |].
  - intros j o Hj. rewrite Hc1, decide_False by (intros [= ?]; lia). rewrite Hshift. by apply (Hnew (S j) o).
  - intros j o u Hj. rewrite Hshift. by apply (Hsame (S j) o).
  - exists d'. split_and!; [done..| |].
    + intros [|j] o Hj; cbn in Hj.
      * injection Hj as <-. rewrite N.add_0_r, Hout, Hc1; [by rewrite decide_True|]. intros j o _ [= ?]. lia.
      * rewrite <-Hshift. by apply Hin.
    + intros x Hx. rewrite Hout, Hc1.
      * rewrite decide_False; [done|]. specialize (Hx 0%nat out eq_refl). cbn in Hx. by rewrite N.add_0_r in Hx.
      * intros j o Hj. rewrite Hshift. by apply (Hx (S j) o).
Qed.
End Entries.

(** What a transaction makes of a view: its outputs appear, the outpoints it spends disappear. *)
Definition spent_outpoints (v : VerifiableTransaction) : list TransactionOutpoint :=
  (fun p => in_previous_outpoint p.1) <$> populated_inputs v.

Definition after_transaction (view : UtxoView) (v : VerifiableTransaction) (score : Z) : UtxoView := fun o =>
  match (if (o.1 =? tx_id (v_tx v))%N then tx_outputs (v_tx v) !! N.to_nat o.2 else None) with
  | Some out => Some (output_entry v score out)
  | None => if decide (o ∈ spent_outpoints v) then None else view o
  end.

Lemma add_transaction_spec base d v score :
  diff_valid base d -> NoDup (spent_outpoints v) ->
  Forall (fun p => composed base d (in_previous_outpoint p.1) = Some p.2) (populated_inputs v) ->
  (N.of_nat (length (tx_outputs (v_tx v))) <= 4294967296)%N ->
  (forall i out, tx_outputs (v_tx v) !! i = Some out -> composed base d (tx_id (v_tx v), N.of_nat i) = None) ->
  (forall i out u, tx_outputs (v_tx v) !! i = Some out -> base (tx_id (v_tx v), N.of_nat i) = Some u ->
     ue_block_daa_score u = score -> u = output_entry v score out) ->
  exists d', add_transaction d v score = Ok d' /\ diff_valid base d' /\
    forall o, composed base d' o = after_transaction (composed base d) v score o.
Proof.
  intros Hv Hnd Hin Hlen Hnew Hsame. unfold add_transaction.
  destruct (remove_inputs_spec base (populated_inputs v) d Hv Hnd Hin) as (d1 & -> & Hv1 & Hc1). cbn [obind].
  destruct (add_outputs_spec base (tx_id (v_tx v)) (is_coinbase (v_tx v)) score (tx_outputs (v_tx v)) 0 d1 Hv1)
    as (d' & -> & Hv' & Hout & Hother); [lia| |by apply Hsame|].
  { intros j out Hj. rewrite Hc1. case_decide; [done|]. by apply (Hnew j out). }
  exists d'. split_and!; [done..|]. intros [h i]. unfold after_transaction. cbn [fst snd].
  assert (Hkeep : (forall j out, tx_outputs (v_tx v) !! j = Some out -> (h, i) <> (tx_id (v_tx v), (0 + N.of_nat j)%N)) ->
    composed base d' (h, i) = if decide ((h, i) ∈ spent_outpoints v) then None else composed base d (h, i))
    by (intros Hx; by rewrite (Hother _ Hx), Hc1).
  destruct (N.eqb_spec h (tx_id (v_tx v))) as [->|Hne]; [|apply Hkeep; congruence].
  destruct (tx_outputs (v_tx v) !! N.to_nat i) as [out|] eqn:Hi.
  - unfold output_entry. rewrite <-(Hout _ _ Hi). do 2 f_equal. lia.
  - apply Hkeep. intros j out Hj [= ->]. rewrite N.add_0_l, Nat2N.id in Hi. congruence.
Qed.

(** ** Properties *)

(** C12: Composing two diffs: when the first applies to a base and the second to
    the view it yields, [with_diff] succeeds, its result applies to the base, and
    the view under the combined diff is the view under both in turn. *)
Theorem with_diff_composes (base : UtxoView) (d1 d2 : UtxoDiff) :
  diff_valid base d1 -> diff_valid (composed base d1) d2 -> same_entries base d2 ->
  exists d, with_diff d1 d2 = Ok d /\ diff_valid base d /\
    forall o, composed base d o = composed (composed base d1) d2 o.
Proof.
  intros Hv1 Hv2 Hs. destruct (with_diff_checks base d1 d2 Hv1 Hv2) as [d Hd].
  pose proof (fun o => with_diff_pointwise base d1 d2 Hv1 Hv2 Hs d o Hd) as Hp.
  exists d. split_and!; [done| |intros o; apply Hp]. split; intros o; apply Hp.
Qed.

(** C32: Difference of two diffs of the same base: [diff_from] succeeds and gives
    the diff that leads from the view of the first to the view of the second. *)
Theorem diff_from_correct (base : UtxoView) (d1 d2 : UtxoDiff) :
  diff_valid base d1 -> diff_valid base d2 ->
  (forall o e1 e2, ud_add d1 !! o = Some e1 -> ud_add d2 !! o = Some e2 ->
     ue_block_daa_score e1 = ue_block_daa_score e2 -> e1 = e2) ->
  exists d, diff_from d1 d2 = Ok d /\ diff_valid (composed base d1) d /\
    forall o, composed (composed base d1) d o = composed base d2 o.
Proof.
  intros Hv1 Hv2 Hs. destruct (diff_from_checks base d1 d2 Hv1 Hv2) as [d Hd].
  pose proof (fun o => diff_from_pointwise base d1 d2 Hv1 Hv2 Hs d o Hd) as Hp.
  exists d. split_and!; [done| |intros o; apply Hp]. split; intros o; apply Hp.
Qed.

(** Adding a transaction whose inputs exist in the view and whose outputs do
    not succeeds; the diff stays valid for the base and its view gains exactly the
    outputs of the transaction and loses exactly the outpoints it spends. *)
Theorem add_transaction_correct (base : UtxoView) (d : UtxoDiff) (v : VerifiableTransaction) (score : Z) :
  diff_valid base d -> NoDup (spent_outpoints v) ->
  Forall (fun p => composed base d (in_previous_outpoint p.1) = Some p.2) (populated_inputs v) ->
  (N.of_nat (length (tx_outputs (v_tx v))) <= 4294967296)%N ->
  (forall i out, tx_outputs (v_tx v) !! i = Some out -> composed base d (tx_id (v_tx v), N.of_nat i) = None) ->
  (forall i out u, tx_outputs (v_tx v) !! i = Some out -> base (tx_id (v_tx v), N.of_nat i) = Some u ->
     ue_block_daa_score u = score -> u = output_entry v score out) ->
  exists d', add_transaction d v score = Ok d' /\ diff_valid base d' /\
    forall o, composed base d' o = after_transaction (composed base d) v score o.
Proof. apply add_transaction_spec. Qed.

(** Reversing a diff undoes it: the reversed diff applies to the view the
    diff yields and leads back to the base. *)
Theorem to_reversed_undoes (base : UtxoView) (d : UtxoDiff) :
  diff_valid base d ->
  diff_valid (composed base d) (to_reversed d) /\ forall o, composed (composed base d) (to_reversed d) o = base o.
Proof.
  intros Hv. unfold composed, to_reversed. split; [split|]; cbn.
  - by intros o e ->.
  - intros o r Hr. destruct (ud_add d !! o) as [a|] eqn:Ha; [|left; by rewrite decide_True by eauto].
    right. exists a. split; [done|]. destruct (dv_add _ _ Hv _ _ Ha) as [Hb|(r' & ? & ?)]; [|congruence].
    rewrite (dv_remove _ _ Hv _ _ Hr) in Hb. done.
  - intros o. destruct (ud_remove d !! o) as [r|] eqn:Hr; [by rewrite (dv_remove _ _ Hv _ _ Hr)|].
    destruct (ud_add d !! o) as [a|] eqn:Ha.
    + rewrite decide_True by eauto. destruct (dv_add _ _ Hv _ _ Ha) as [?|(? & ? & _)]; [done|congruence].
    + rewrite decide_False by (by intros [? ?]). by rewrite decide_False by (by intros [? ?]).
Qed.

(** ** Witnesses: a base with two outputs, a diff that spends the first, and one
    that spends what the first created. *)

Definition ex_entry (amount score : Z) : UtxoEntry := mk_utxo amount (mk_spk 0 [81]) score false.
Definition ex_base : UtxoView := fun o =>
  if bool_decide (o = (1, 0)%N) then Some (ex_entry 10 5) else if bool_decide (o = (1, 1)%N) then Some (ex_entry 20 5) else None.
Definition ex_d1 : UtxoDiff := mk_diff {[ (2, 0)%N := ex_entry 10 7 ]} {[ (1, 0)%N := ex_entry 10 5 ]}.
Definition ex_d2 : UtxoDiff := mk_diff {[ (3, 0)%N := ex_entry 9 8 ]} {[ (2, 0)%N := ex_entry 10 7 ]}.
Definition ex_d3 : UtxoDiff := mk_diff {[ (4, 0)%N := ex_entry 19 6 ]} {[ (1, 1)%N := ex_entry 20 5 ]}.
Definition ex_vtx : VerifiableTransaction :=
  mk_vtx (mk_tx 0 [mk_input (2, 0)%N [] 0 1] [mk_output 4 (mk_spk 0 [81]); mk_output 5 (mk_spk 0 [82])] 0
    SUBNETWORK_ID_NATIVE 0 [] 0 9%N) [ex_entry 10 7].

Ltac singleton_diff :=
  split; cbn; intros ? ?; rewrite lookup_singleton_Some; intros [<- <-]; vm_compute; auto.

Lemma ex_d1_valid : diff_valid ex_base ex_d1.
Proof. singleton_diff. Qed.
Lemma ex_d2_valid : diff_valid (composed ex_base ex_d1) ex_d2.
Proof. singleton_diff. Qed.
Lemma ex_d3_valid : diff_valid ex_base ex_d3.
Proof. singleton_diff. Qed.
Lemma ex_d2_same : same_entries ex_base ex_d2.
Proof. intros ? ? ? ; cbn; rewrite lookup_singleton_Some; intros [<- <-]; by vm_compute. Qed.

Lemma with_diff_composes_witness :
  exists d, with_diff ex_d1 ex_d2 = Ok d /\ diff_valid ex_base d /\
    forall o, composed ex_base d o = composed (composed ex_base ex_d1) ex_d2 o.
Proof. apply (with_diff_composes ex_base ex_d1 ex_d2 ex_d1_valid ex_d2_valid ex_d2_same). Defined.

Lemma diff_from_correct_witness :
  exists d, diff_from ex_d1 ex_d3 = Ok d /\ diff_valid (composed ex_base ex_d1) d /\
    forall o, composed (composed ex_base ex_d1) d o = composed ex_base ex_d3 o.
Proof.
  apply (diff_from_correct ex_base ex_d1 ex_d3 ex_d1_valid ex_d3_valid).
  intros o e1 e2. cbn. rewrite !lookup_singleton_Some. intros [<- _] [? _]. discriminate.
Defined.

Lemma add_transaction_correct_witness :
  exists d', add_transaction ex_d1 ex_vtx 8 = Ok d' /\ diff_valid ex_base d' /\
    forall o, composed ex_base d' o = after_transaction (composed ex_base ex_d1) ex_vtx 8 o.
Proof.
  apply (add_transaction_correct ex_base ex_d1 ex_vtx 8 ex_d1_valid).
  - apply NoDup_singleton.
  - repeat constructor.
  - by vm_compute.
  - by intros [|[|i]] out; vm_compute.
  - intros [|[|i]] out u; by vm_compute.
Defined.

Lemma to_reversed_undoes_witness :
  diff_valid (composed ex_base ex_d1) (to_reversed ex_d1) /\
  forall o, composed (composed ex_base ex_d1) (to_reversed ex_d1) o = ex_base o.
Proof. apply (to_reversed_undoes ex_base ex_d1 ex_d1_valid). Defined.
