(* ===== verification/ReachabilityStore.v ===== *)
(** * The reachability store

    Model of consensus/src/model/stores/reachability.rs: the traits
    [ReachabilityStoreReader]/[ReachabilityStore] as a class of operations, and
    the [MemoryReachabilityStore] that implements them directly.  The error
    types of consensus/src/processes/reachability/mod.rs are here too, as every
    operation of the algorithms on top propagates them with [?]. *)

From Stdlib Require Import ZArith Lia Bool.
From stdpp Require Import base gmap numbers list sorting.
From S2P Require Import Prelude Interval.

#[local] Open Scope Z_scope.

(** A 32-byte hash, read as a big-endian number: the derived [Ord] of
    [Hash([u8; 32])] is the order of these numbers. *)
Abbreviation Hash := N (only parsing).

(** [blockhash::NONE] and [blockhash::ORIGIN]. *)
Definition hash_NONE : Hash := 0%N.
Definition hash_ORIGIN : Hash :=
  0xfefefefefefefefefefefefefefefefefefefefefefefefefefefefefefefefe%N.

Inductive StoreError :=
| KeyNotFound (key : option Hash)
| HashAlreadyExists (hash : Hash).

Inductive OverflowReason := MissingTreeParent | ReindexRootOutOfCapacity.

Inductive ReachabilityError :=
| StoreErr (e : StoreError)
| DataOverflow (why : OverflowReason)
| DataInconsistency
| BadQuery.

Abbreviation rresult := (outcome ReachabilityError).

(** The two traits.  Every method is fallible and the [&mut self] ones return
    the updated store. *)
Class ReachabilityStore (S : Type) := {
  has : S -> Hash -> rresult bool;
  get_interval : S -> Hash -> rresult Interval;
  get_parent : S -> Hash -> rresult Hash;
  get_children : S -> Hash -> rresult (list Hash);
  get_future_covering_set : S -> Hash -> rresult (list Hash);
  store_init : S -> Hash -> Interval -> rresult S;
  store_insert : S -> Hash -> Hash -> Interval -> Z -> rresult S;
  set_interval : S -> Hash -> Interval -> rresult S;
  append_child : S -> Hash -> Hash -> rresult S;
  insert_future_covering_item : S -> Hash -> Hash -> nat -> rresult S;
  set_parent : S -> Hash -> Hash -> rresult S;
  replace_child : S -> Hash -> Hash -> nat -> list Hash -> rresult S;
  replace_future_covering_item : S -> Hash -> Hash -> nat -> list Hash -> rresult S;
  store_delete : S -> Hash -> rresult S;
  get_height : S -> Hash -> rresult Z;
  set_reindex_root : S -> Hash -> rresult S;
  get_reindex_root : S -> rresult Hash
}.

(** [Vec::insert(index, x)]: panics past the end. *)
Definition vec_insert {E A} (i : nat) (x : A) (l : list A) : outcome E (list A) :=
  if (i <=? length l)%nat then Ok (take i l ++ x :: drop i l) else Panic.

(** [Vec::splice(i..i+1, xs)]: panics when the range is out of bounds. *)
Definition vec_splice1 {E A} (i : nat) (xs l : list A) : outcome E (list A) :=
  if (i + 1 <=? length l)%nat then Ok (take i l ++ xs ++ drop (i + 1) l) else Panic.

Lemma splice_at {E A} (b : A) ch l1 l2 : @vec_splice1 E A (length l1) ch (l1 ++ b :: l2) = Ok (l1 ++ ch ++ l2).
Proof.
  unfold vec_splice1. rewrite (proj2 (Nat.leb_le _ _)) by (rewrite length_app; cbn; lia).
  rewrite take_app_length. do 3 f_equal. rewrite Nat.add_1_r, (cons_middle b l1 l2), app_assoc.
  rewrite drop_app_ge by (rewrite length_app; cbn; lia). rewrite length_app. cbn.
  by replace (S (length l1) - (length l1 + 1))%nat with 0%nat by lia.
Qed.

(** ** The memory store *)

Record MemoryReachabilityData := mk_data {
  d_children : list Hash;
  d_parent : Hash;
  d_interval : Interval;
  d_height : Z;
  d_fcs : list Hash
}.

Definition data_new (parent : Hash) (interval : Interval) (height : Z) : MemoryReachabilityData :=
  mk_data [] parent interval height [].

Definition with_interval (d : MemoryReachabilityData) (i : Interval) : MemoryReachabilityData :=
  mk_data (d_children d) (d_parent d) i (d_height d) (d_fcs d).
Definition with_children (d : MemoryReachabilityData) (c : list Hash) : MemoryReachabilityData :=
  mk_data c (d_parent d) (d_interval d) (d_height d) (d_fcs d).
Definition with_parent (d : MemoryReachabilityData) (p : Hash) : MemoryReachabilityData :=
  mk_data (d_children d) p (d_interval d) (d_height d) (d_fcs d).
Definition with_fcs (d : MemoryReachabilityData) (l : list Hash) : MemoryReachabilityData :=
  mk_data (d_children d) (d_parent d) (d_interval d) (d_height d) l.

Record MemoryReachabilityStore := mk_mem {
  m_map : gmap N MemoryReachabilityData;
  m_reindex_root : option Hash
}.

Definition mem_new : MemoryReachabilityStore := mk_mem ∅ None.

Definition mem_get_data (s : MemoryReachabilityStore) (h : Hash) : rresult MemoryReachabilityData :=
  match m_map s !! h with
  | Some d => Ok d
  | None => Err (StoreErr (KeyNotFound (Some h)))
  end.

Definition mem_put (s : MemoryReachabilityStore) (h : Hash) (d : MemoryReachabilityData) :
    MemoryReachabilityStore := mk_mem (<[h := d]> (m_map s)) (m_reindex_root s).

Definition mem_insert (s : MemoryReachabilityStore) (h parent : Hash) (i : Interval) (height : Z) :
    rresult MemoryReachabilityStore :=
  match m_map s !! h with
  | None => Ok (mem_put s h (data_new parent i height))
  | Some _ => Err (StoreErr (HashAlreadyExists h))
  end.

Definition mem_set_reindex_root (s : MemoryReachabilityStore) (root : Hash) :
    rresult MemoryReachabilityStore := Ok (mk_mem (m_map s) (Some root)).

Definition mem_init (s : MemoryReachabilityStore) (origin : Hash) (capacity : Interval) :
    rresult MemoryReachabilityStore :=
  let! s' := mem_insert s origin hash_NONE capacity 0 in mem_set_reindex_root s' origin.

Definition mem_set_interval (s : MemoryReachabilityStore) (h : Hash) (i : Interval) :
    rresult MemoryReachabilityStore :=
  let! d := mem_get_data s h in Ok (mem_put s h (with_interval d i)).

Definition mem_append_child (s : MemoryReachabilityStore) (h child : Hash) :
    rresult MemoryReachabilityStore :=
  let! d := mem_get_data s h in Ok (mem_put s h (with_children d (d_children d ++ [child]))).

Definition mem_insert_future_covering_item (s : MemoryReachabilityStore) (h fci : Hash) (idx : nat) :
    rresult MemoryReachabilityStore :=
  let! d := mem_get_data s h in
  let! l := vec_insert idx fci (d_fcs d) in
  Ok (mem_put s h (with_fcs d l)).

Definition mem_set_parent (s : MemoryReachabilityStore) (h p : Hash) :
    rresult MemoryReachabilityStore :=
  let! d := mem_get_data s h in Ok (mem_put s h (with_parent d p)).

Definition mem_replace_child (s : MemoryReachabilityStore) (h replaced : Hash) (idx : nat)
    (with_ : list Hash) : rresult MemoryReachabilityStore :=
  let! d := mem_get_data s h in
  let! l := vec_splice1 idx with_ (d_children d) in
  Ok (mem_put s h (with_children d l)).

Definition mem_replace_future_covering_item (s : MemoryReachabilityStore) (h replaced : Hash)
    (idx : nat) (with_ : list Hash) : rresult MemoryReachabilityStore :=
  let! d := mem_get_data s h in
  let! l := vec_splice1 idx with_ (d_fcs d) in
  Ok (mem_put s h (with_fcs d l)).

Definition mem_delete (s : MemoryReachabilityStore) (h : Hash) : rresult MemoryReachabilityStore :=
  Ok (mk_mem (delete h (m_map s)) (m_reindex_root s)).

Definition mem_get_reindex_root (s : MemoryReachabilityStore) : rresult Hash :=
  match m_reindex_root s with
  | Some r => Ok r
  | None => Err (StoreErr (KeyNotFound None))
  end.

Definition mem_has (s : MemoryReachabilityStore) (h : Hash) : rresult bool :=
  Ok (bool_decide (is_Some (m_map s !! h))).

#[export] Instance memory_store : ReachabilityStore MemoryReachabilityStore := {
  has := mem_has;
  get_interval s h := d_interval <$> mem_get_data s h;
  get_parent s h := d_parent <$> mem_get_data s h;
  get_children s h := d_children <$> mem_get_data s h;
  get_future_covering_set s h := d_fcs <$> mem_get_data s h;
  store_init := mem_init;
  store_insert := mem_insert;
  set_interval := mem_set_interval;
  append_child := mem_append_child;
  insert_future_covering_item := mem_insert_future_covering_item;
  set_parent := mem_set_parent;
  replace_child := mem_replace_child;
  replace_future_covering_item := mem_replace_future_covering_item;
  store_delete := mem_delete;
  get_height s h := d_height <$> mem_get_data s h;
  set_reindex_root := mem_set_reindex_root;
  get_reindex_root := mem_get_reindex_root
}.
