(* ===== verification/ReachabilityQueries.v ===== *)
(** * Reachability queries

    Model of the query half of consensus/src/processes/reachability/inquirer.rs
    and of the interval extensions of extensions.rs, generic in the store: chain
    and DAG ancestry, the binary search over ordered sets of blocks, and the
    remaining allocation capacity of a block. *)

From Stdlib Require Import ZArith Lia Bool.
From stdpp Require Import base gmap list numbers sorting.
From S2P Require Import Prelude BinarySearch Interval ReachabilityStore.

#[local] Open Scope Z_scope.

Section Queries.
Context {S : Type} `{ReachabilityStore S}.

(** ** extensions.rs *)

Definition interval_children_capacity (store : S) (block : Hash) : rresult Interval :=
  let! i := get_interval store block in interval_decrease_end i 1.

Definition interval_remaining_before (store : S) (block : Hash) : rresult Interval :=
  let! alloc_capacity := interval_children_capacity store block in
  let! children := get_children store block in
  match head children with
  | Some first_child =>
      let! first_alloc := get_interval store first_child in
      let! e := usub (iv_start first_alloc) 1 in
      Ok (interval_new (iv_start alloc_capacity) e)
  | None => Ok alloc_capacity
  end.

Definition interval_remaining_after (store : S) (block : Hash) : rresult Interval :=
  let! alloc_capacity := interval_children_capacity store block in
  let! children := get_children store block in
  match last children with
  | Some last_child =>
      let! last_alloc := get_interval store last_child in
      let! s := add64 (iv_end last_alloc) 1 in
      Ok (interval_new s (iv_end alloc_capacity))
  | None => Ok alloc_capacity
  end.

(** ** inquirer.rs: ancestry queries *)

Definition is_strict_chain_ancestor_of (store : S) (this queried : Hash) : rresult bool :=
  let! a := get_interval store this in let! b := get_interval store queried in
  Ok (interval_strictly_contains a b).

Definition is_chain_ancestor_of (store : S) (this queried : Hash) : rresult bool :=
  let! a := get_interval store this in let! b := get_interval store queried in
  Ok (interval_contains a b).

Inductive SearchOutput :=
| NotFound (i : nat)
| Found (h : Hash) (i : nat).

(** The [unwrap] inside the key closure turns a missing block into a panic. *)
Definition search_key (store : S) (c : Hash) : rresult Z :=
  match get_interval store c with
  | Ok i => Ok (iv_start i)
  | Err _ => Panic
  | Panic => Panic
  | OutOfFuel => OutOfFuel
  end.

Definition binary_search_descendant (store : S) (ordered_hashes : list Hash) (descendant : Hash) :
    rresult SearchOutput :=
  let! d := get_interval store descendant in
  let point := iv_end d in
  let! r := binary_search_by_key (search_key store) point ordered_hashes in
  match r with
  | inl i => let! h := unwrap (ordered_hashes !! (i : nat)) in Ok (Found h i)
  | inr 0%nat => Ok (NotFound 0)
  | inr (Datatypes.S i as i') =>
      let! h := unwrap (ordered_hashes !! i) in
      let! anc := is_chain_ancestor_of store h descendant in
      Ok (if anc then Found h i else NotFound i')
  end.

Definition is_dag_ancestor_of (store : S) (this queried : Hash) : rresult bool :=
  let! c := is_chain_ancestor_of store this queried in
  if c then Ok true else
  let! fcs := get_future_covering_set store this in
  let! r := binary_search_descendant store fcs queried in
  match r with
  | Found _ _ => Ok true
  | NotFound _ => Ok false
  end.

Definition get_next_chain_ancestor_unchecked (store : S) (descendant ancestor : Hash) : rresult Hash :=
  let! children := get_children store ancestor in
  let! r := binary_search_descendant store children descendant in
  match r with
  | Found h _ => Ok h
  | NotFound _ => Err BadQuery
  end.

Definition get_next_chain_ancestor (store : S) (descendant ancestor : Hash) : rresult Hash :=
  if decide (descendant = ancestor) then Err BadQuery else
  let! strict := is_strict_chain_ancestor_of store ancestor descendant in
  if negb strict then Err BadQuery else
  get_next_chain_ancestor_unchecked store descendant ancestor.

(** [insert_to_future_covering_set] *)
Definition insert_to_future_covering_set (store : S) (merged_block new_block : Hash) : rresult S :=
  let! fcs := get_future_covering_set store merged_block in
  let! r := binary_search_descendant store fcs new_block in
  match r with
  | Found _ _ => Err DataInconsistency
  | NotFound i => insert_future_covering_item store merged_block new_block i
  end.

(** [add_dag_block]: the mergeset iterator as the list it yields. *)
Definition add_dag_block (store : S) (new_block : Hash) (mergeset : list Hash) : rresult S :=
  foldM_out (fun st merged_block => insert_to_future_covering_set st merged_block new_block)
    store mergeset.

End Queries.

