(* ===== verification/ReachabilityTree.v ===== *)
(** * The reachability tree and its interval invariant

    What the reachability algorithms maintain, stated on the contents of the
    store: the blocks form a tree ([shape]), every block has a non-empty
    interval that strictly contains the disjoint, ordered intervals of its tree
    children ([local_ok]).  Under this invariant the interval comparisons of
    inquirer.rs decide tree ancestry. *)

From Stdlib Require Import ZArith Lia Bool.
From stdpp Require Import base gmap numbers list sorting.
From S2P Require Import Prelude BinarySearch Interval ReachabilityStore ReachabilityQueries.

#[local] Open Scope Z_scope.

Abbreviation nodes := (gmap N MemoryReachabilityData).

(** [chain_anc m a b]: [a] is [b] or one of its tree ancestors. *)
Inductive chain_anc (m : nodes) : N -> N -> Prop :=
| chain_refl h d : m !! h = Some d -> chain_anc m h h
| chain_up a b d : m !! b = Some d -> chain_anc m a (d_parent d) -> chain_anc m a b.

Record shape (m : nodes) (root : N) : Prop := mk_shape {
  sh_top : exists d, m !! root = Some d /\ d_parent d = hash_NONE;
  sh_none : m !! hash_NONE = None;
  sh_child : forall h d c, m !! h = Some d -> c ∈ d_children d ->
    exists dc, m !! c = Some dc /\ d_parent dc = h;
  sh_parent : forall h d, m !! h = Some d -> h <> root ->
    exists dp, m !! d_parent d = Some dp /\ h ∈ d_children dp;
  sh_nodup : forall h d, m !! h = Some d -> NoDup (d_children d);
  sh_height0 : forall h d, m !! h = Some d -> 0 <= d_height d;
  sh_height : forall h d dp, m !! h = Some d -> m !! d_parent d = Some dp ->
    d_height dp < d_height d
}.

Lemma sh_root m root : shape m root -> exists d, m !! root = Some d /\ m !! d_parent d = None.
Proof. intros H. destruct (sh_top _ _ H) as (d & Hd & Hp). exists d. rewrite Hp. split; [done|apply (sh_none _ _ H)]. Qed.

(** The blocks [cs] have intervals (possibly empty) that follow each other
    between [lo] and [hi]. *)
Fixpoint ordered_in (m : nodes) (lo : Z) (cs : list N) (hi : Z) : Prop :=
  match cs with
  | [] => lo <= hi + 1
  | c :: cs' => exists d, m !! c = Some d /\
      lo <= iv_start (d_interval d) /\ iv_start (d_interval d) <= iv_end (d_interval d) + 1 /\
      ordered_in m (iv_end (d_interval d) + 1) cs' hi
  end.

Definition local_ok (m : nodes) (h : N) : Prop :=
  exists d, m !! h = Some d /\ iv_ok (d_interval d) /\ 1 <= iv_len (d_interval d) /\
    ordered_in m (iv_start (d_interval d)) (d_children d) (iv_end (d_interval d) - 1).

Definition tree_ok (m : nodes) (root : N) : Prop :=
  shape m root /\ forall h, is_Some (m !! h) -> local_ok m h.

(** ** Ordered lists of blocks *)

Lemma ordered_in_bounds m lo cs hi : ordered_in m lo cs hi -> lo <= hi + 1.
Proof.
  revert lo. induction cs as [|c cs IH]; intros lo; cbn; [done|].
  intros (d & _ & ? & ? & H%IH). lia.
Qed.

Lemma ordered_in_elem m lo cs hi c :
  ordered_in m lo cs hi -> c ∈ cs -> exists d, m !! c = Some d /\
    lo <= iv_start (d_interval d) /\ iv_start (d_interval d) <= iv_end (d_interval d) + 1 /\
    iv_end (d_interval d) <= hi.
Proof.
  revert lo. induction cs as [|c' cs IH]; intros lo H Hc; [by apply elem_of_nil in Hc|].
  destruct H as (d & Hd & ? & ? & H). apply elem_of_cons in Hc as [->|Hc].
  - apply ordered_in_bounds in H. exists d. split_and!; [done|lia..].
  - destruct (IH _ H Hc) as (d' & ? & ? & ? & ?). exists d'. split_and!; [done|lia..].
Qed.

Lemma ordered_in_lookup m lo cs hi i j x y dx dy :
  ordered_in m lo cs hi -> cs !! i = Some x -> cs !! j = Some y -> (i < j)%nat ->
  m !! x = Some dx -> m !! y = Some dy -> iv_end (d_interval dx) < iv_start (d_interval dy).
Proof.
  revert lo i j. induction cs as [|c cs IH]; intros lo i j H Hi Hj Hij Hx Hy; [done|].
  destruct H as (d & Hd & ? & ? & H).
  destruct j as [|j]; [lia|]. destruct i as [|i]; cbn in *; simplify_eq.
  - apply list_elem_of_lookup_2 in Hj. destruct (ordered_in_elem _ _ _ _ _ H Hj) as (d' & ? & ? & ? & ?).
    simplify_eq. lia.
  - eapply (IH _ i j); eauto; lia.
Qed.

Lemma ordered_in_disjoint m lo cs hi x y dx dy :
  ordered_in m lo cs hi -> x ∈ cs -> y ∈ cs -> x <> y ->
  m !! x = Some dx -> m !! y = Some dy ->
  iv_end (d_interval dx) < iv_start (d_interval dy) \/ iv_end (d_interval dy) < iv_start (d_interval dx).
Proof.
  intros H [i Hi]%list_elem_of_lookup [j Hj]%list_elem_of_lookup Hne Hx Hy.
  destruct (Nat.lt_trichotomy i j) as [Hij|[->|Hij]].
  - left. exact (ordered_in_lookup _ _ _ _ _ _ _ _ _ _ H Hi Hj Hij Hx Hy).
  - congruence.
  - right. exact (ordered_in_lookup _ _ _ _ _ _ _ _ _ _ H Hj Hi Hij Hy Hx).
Qed.

(** [ordered_in] only reads the intervals of the listed blocks. *)
Lemma ordered_in_ext m m' lo cs hi :
  (forall c, c ∈ cs -> d_interval <$> m !! c = d_interval <$> m' !! c) ->
  ordered_in m lo cs hi -> ordered_in m' lo cs hi.
Proof.
  revert lo. induction cs as [|c cs IH]; intros lo Hext; cbn; [done|].
  intros (d & Hd & ? & ? & H). pose proof (Hext c ltac:(left)) as Hc. rewrite Hd in Hc. cbn in Hc.
  destruct (m' !! c) as [d'|]; [|done]. cbn in Hc. injection Hc as Hc. exists d'.
  rewrite <-Hc. split_and!; [done..|]. apply IH; [|done]. intros. apply Hext. by right.
Qed.

(** ** Tree ancestry *)
Section Shape.
Context (m : nodes) (root : N) (Hsh : shape m root).

Lemma chain_in_l a b : chain_anc m a b -> is_Some (m !! a).
Proof using. induction 1; eauto. Qed.

Lemma chain_in_r a b : chain_anc m a b -> is_Some (m !! b).
Proof using. destruct 1; eauto. Qed.

Lemma chain_trans a b c : chain_anc m a b -> chain_anc m b c -> chain_anc m a c.
Proof using. intros Hab. induction 1 as [h d|b c d Hd Hbc IH]; [done|]. econstructor; eauto. Qed.

Lemma chain_child h d c : m !! h = Some d -> c ∈ d_children d -> chain_anc m h c.
Proof.
  intros Hd Hc. destruct (sh_child _ _ Hsh _ _ _ Hd Hc) as (dc & Hdc & <-).
  eapply chain_up; [done|]. by econstructor.
Qed.

(** Induction from the root towards the leaves. *)
Lemma tree_ind (P : N -> Prop) :
  P root ->
  (forall h d dp, m !! h = Some d -> h <> root -> m !! d_parent d = Some dp ->
     h ∈ d_children dp -> P (d_parent d) -> P h) ->
  forall h, is_Some (m !! h) -> P h.
Proof.
  intros Hroot Hstep h [d Hd].
  assert (exists n, d_height d < Z.of_nat n) as [n Hn].
  { exists (S (Z.to_nat (d_height d))). pose proof (sh_height0 _ _ Hsh _ _ Hd). lia. }
  revert h d Hd Hn. induction n as [|n IH]; intros h d Hd Hn.
  { pose proof (sh_height0 _ _ Hsh _ _ Hd). lia. }
  destruct (decide (h = root)) as [->|Hne]; [done|].
  destruct (sh_parent _ _ Hsh _ _ Hd Hne) as (dp & Hdp & Hin).
  eapply Hstep; eauto. eapply IH; eauto. pose proof (sh_height _ _ Hsh _ _ _ Hd Hdp). lia.
Qed.

Lemma chain_root h : is_Some (m !! h) -> chain_anc m root h.
Proof.
  revert h. apply tree_ind.
  - destruct (sh_root _ _ Hsh) as (d & ? & _). by econstructor.
  - intros h d dp Hd Hne Hdp Hin IH. econstructor; eauto.
Qed.

Lemma chain_height a b da db :
  chain_anc m a b -> m !! a = Some da -> m !! b = Some db -> a <> b -> d_height da < d_height db.
Proof.
  intros H. revert db. induction H as [h d Hd|a b d Hd Hab IH]; intros db Ha Hb Hne; [done|].
  assert (d = db) as -> by congruence. destruct (chain_in_r _ _ Hab) as [dp Hdp].
  pose proof (sh_height _ _ Hsh _ _ _ Hb Hdp).
  destruct (decide (a = d_parent db)) as [->|Hne']; [simplify_eq; lia|].
  pose proof (IH dp Ha Hdp Hne'). lia.
Qed.

Lemma chain_antisym a b : chain_anc m a b -> chain_anc m b a -> a = b.
Proof.
  intros Hab Hba. destruct (decide (a = b)); [done|].
  destruct (chain_in_l _ _ Hab) as [da Ha], (chain_in_l _ _ Hba) as [db Hb].
  pose proof (chain_height _ _ _ _ Hab Ha Hb ltac:(done)).
  pose proof (chain_height _ _ _ _ Hba Hb Ha ltac:(done)). lia.
Qed.

Lemma chain_dec a b : is_Some (m !! b) -> chain_anc m a b \/ ~ chain_anc m a b.
Proof.
  revert b. apply tree_ind.
  - destruct (sh_root _ _ Hsh) as (d & Hd & Hn).
    destruct (decide (a = root)) as [->|Hne]; [left; by econstructor|]. right.
    inversion 1 as [|? ? d' Hd' Hp]; subst; [done|]. apply chain_in_r in Hp as [? ?]. congruence.
  - intros h d dp Hd Hne Hdp Hin [IH|IH]; [left; econstructor; eauto|].
    destruct (decide (a = h)) as [->|Hah]; [left; by econstructor|]. right.
    inversion 1 as [|? ? d' Hd' Hp]; subst; [done|]. apply IH. congruence.
Qed.

(** A strict descendant descends from exactly one child. *)
Lemma chain_first_child a b da :
  chain_anc m a b -> a <> b -> m !! a = Some da -> exists c, c ∈ d_children da /\ chain_anc m c b.
Proof.
  intros H. induction H as [h d Hd|a b d Hd Hab IH]; intros Hne Ha; [done|].
  destruct (decide (b = root)) as [->|Hbr].
  { destruct (sh_root _ _ Hsh) as (d' & Hd' & Hnone). simplify_eq.
    destruct (chain_in_r _ _ Hab) as [? Hsome]. congruence. }
  destruct (sh_parent _ _ Hsh _ _ Hd Hbr) as (dp & Hdp & Hin).
  destruct (decide (a = d_parent d)) as [->|Hne'].
  - simplify_eq. exists b. split; [done|]. by econstructor.
  - destruct (IH Hne' Ha) as (c & Hc & Hcp). exists c. split; [done|]. econstructor; eauto.
Qed.

Lemma chain_linear a b x : chain_anc m a x -> chain_anc m b x -> chain_anc m a b \/ chain_anc m b a.
Proof using.
  intros Ha. revert b. induction Ha as [h d Hd|a x d Hd Ha IH]; intros b Hb; [by right|].
  destruct Hb as [x' d' Hd'|b x' d' Hd' Hb'].
  - left. exact (chain_up _ _ _ _ Hd Ha).
  - simplify_eq. auto.
Qed.

(** Subtrees of distinct siblings have no common block. *)
Lemma siblings_disjoint h d a b x :
  m !! h = Some d -> a ∈ d_children d -> b ∈ d_children d ->
  chain_anc m a x -> chain_anc m b x -> a = b.
Proof.
  intros Hd Ha Hb Hax Hbx.
  assert (Hcase : forall a b, a ∈ d_children d -> b ∈ d_children d -> chain_anc m a b -> a = b).
  { clear a b Ha Hb Hax Hbx. intros a b Ha Hb Hab. destruct (decide (a = b)) as [|Hne]; [done|]. exfalso.
    destruct (sh_child _ _ Hsh _ _ _ Hd Hb) as (db & Hdb & Hpb).
    assert (Hah : chain_anc m a h) by (inversion Hab; congruence).
    pose proof (chain_child _ _ _ Hd Ha) as Hha.
    pose proof (chain_antisym _ _ Hah Hha). subst a.
    destruct (sh_child _ _ Hsh _ _ _ Hd Ha) as (da & Hda & Hpa).
    assert (da = d) as -> by congruence. pose proof (sh_height _ _ Hsh _ d d Hd) as Hlt.
    rewrite Hpa in Hlt. specialize (Hlt Hd). lia. }
  destruct (chain_linear _ _ _ Hax Hbx); [eauto|symmetry; eauto].
Qed.
End Shape.

(** ** The links of the tree *)

(** Everything of a block except its interval and future covering set. *)
Definition links (d : MemoryReachabilityData) : list N * N * Z := (d_children d, d_parent d, d_height d).

Definition same_links (m m' : nodes) : Prop := forall h, links <$> m !! h = links <$> m' !! h.

#[export] Instance same_links_equiv : Equivalence same_links.
Proof.
  split; [by intros m h|by intros m m' H h|]. intros m1 m2 m3 H1 H2 h. by rewrite H1.
Qed.

Lemma same_links_lookup m m' h d :
  same_links m m' -> m !! h = Some d -> exists d', m' !! h = Some d' /\
    d_children d' = d_children d /\ d_parent d' = d_parent d /\ d_height d' = d_height d.
Proof.
  intros H Hd. specialize (H h). rewrite Hd in H. cbn in H.
  destruct (m' !! h) as [d'|]; [|done]. cbn in H. injection H as H. naive_solver.
Qed.

Lemma chain_links m m' a b : same_links m m' -> chain_anc m a b -> chain_anc m' a b.
Proof.
  intros Hs. induction 1 as [h d Hd|a b d Hd Hab IH].
  - destruct (same_links_lookup _ _ _ _ Hs Hd) as (d' & ? & _). by econstructor.
  - destruct (same_links_lookup _ _ _ _ Hs Hd) as (d' & ? & _ & Hp & _).
    eapply chain_up; [done|]. by rewrite Hp.
Qed.

Lemma shape_links m m' root : same_links m m' -> shape m root -> shape m' root.
Proof.
  intros Hs Hsh. assert (Hs' : same_links m' m) by done. constructor.
  - destruct (sh_top _ _ Hsh) as (d & Hd & Hn).
    destruct (same_links_lookup _ _ _ _ Hs Hd) as (d' & ? & _ & Hp & _). exists d'. split; congruence.
  - pose proof (sh_none _ _ Hsh) as Hn. specialize (Hs hash_NONE). rewrite Hn in Hs.
    by destruct (m' !! hash_NONE).
  - intros h d' c Hd' Hc. destruct (same_links_lookup _ _ _ _ Hs' Hd') as (d & Hd & Hch & _).
    rewrite <-Hch in Hc. destruct (sh_child _ _ Hsh _ _ _ Hd Hc) as (dc & Hdc & Hp).
    destruct (same_links_lookup _ _ _ _ Hs Hdc) as (dc' & ? & _ & Hp' & _). exists dc'. split; congruence.
  - intros h d' Hd' Hne. destruct (same_links_lookup _ _ _ _ Hs' Hd') as (d & Hd & _ & Hp & _).
    destruct (sh_parent _ _ Hsh _ _ Hd Hne) as (dp & Hdp & Hin).
    destruct (same_links_lookup _ _ _ _ Hs Hdp) as (dp' & ? & Hch & _). exists dp'.
    split; [congruence|]. by rewrite Hch.
  - intros h d' Hd'. destruct (same_links_lookup _ _ _ _ Hs' Hd') as (d & Hd & Hch & _).
    rewrite <-Hch. by eapply sh_nodup.
  - intros h d' Hd'. destruct (same_links_lookup _ _ _ _ Hs' Hd') as (d & Hd & _ & _ & Hh).
    rewrite <-Hh. by eapply sh_height0.
  - intros h d' dp' Hd' Hdp'. destruct (same_links_lookup _ _ _ _ Hs' Hd') as (d & Hd & _ & Hp & Hh).
    destruct (same_links_lookup _ _ _ _ Hs' Hdp') as (dp & Hdp & _ & _ & Hhp).
    rewrite <-Hh, <-Hhp. eapply (sh_height _ _ Hsh); [done|]. by rewrite Hp.
Qed.

(** ** Intervals decide ancestry *)
Section Intervals.
Context (m : nodes) (root : N) (Hok : tree_ok m root).

#[local] Lemma Hsh : shape m root. Proof using Hok. apply Hok. Qed.

Lemma local_of h d : m !! h = Some d -> iv_ok (d_interval d) /\ 1 <= iv_len (d_interval d) /\
  ordered_in m (iv_start (d_interval d)) (d_children d) (iv_end (d_interval d) - 1).
Proof using Hok.
  intros Hd. destruct Hok as [_ H]. destruct (H h) as (d' & Hd' & ?); [eauto|].
  by simplify_eq.
Qed.

Lemma chain_nested a b da db :
  chain_anc m a b -> m !! a = Some da -> m !! b = Some db -> a <> b ->
  iv_start (d_interval da) <= iv_start (d_interval db) /\ iv_end (d_interval db) < iv_end (d_interval da).
Proof using Hok.
  intros H. revert db. induction H as [h d Hd|a b d Hd Hab IH]; intros db Ha Hb Hne; [done|].
  assert (d = db) as -> by congruence. destruct (chain_in_r _ _ _ Hab) as [dp Hdp].
  assert (Hbr : b <> root).
  { intros ->. destruct (sh_root _ _ Hsh) as (d' & Hd' & Hnone). congruence. }
  destruct (sh_parent _ _ Hsh _ _ Hb Hbr) as (dp' & Hdp' & Hin). simplify_eq.
  destruct (local_of _ _ Hdp) as (_ & _ & Hord).
  destruct (ordered_in_elem _ _ _ _ _ Hord Hin) as (d' & Hd' & ? & ? & ?).
  assert (d' = db) as -> by congruence.
  destruct (decide (a = d_parent db)) as [->|Hne']; [simplify_eq; lia|].
  destruct (IH dp Ha Hdp Hne'). lia.
Qed.

(** Any two blocks are related by ancestry or have disjoint intervals. *)
Lemma laminar a b da db :
  m !! a = Some da -> m !! b = Some db ->
  chain_anc m a b \/ chain_anc m b a \/
  iv_end (d_interval da) < iv_start (d_interval db) \/ iv_end (d_interval db) < iv_start (d_interval da).
Proof using Hok.
  intros Ha Hb. revert db Hb.
  pattern b; revert b; match goal with |- forall b, ?P b => cut (forall b, is_Some (m !! b) -> P b) end.
  { intros H b db Hb. apply H; eauto. }
  apply (tree_ind m root Hsh); [intros; right; left; apply (chain_root m root Hsh); eauto|].
  intros b d dp Hd Hne Hdp Hin IH db Hb. assert (d = db) as -> by congruence.
  destruct (local_of _ _ Hdp) as (_ & _ & Hord).
  destruct (ordered_in_elem _ _ _ _ _ Hord Hin) as (d' & Hd' & ? & ? & ?).
  assert (d' = db) as -> by congruence.
  destruct (IH _ Hdp) as [Hap|[Hpa|Hdis]].
  - left. econstructor; eauto.
  - destruct (decide (d_parent db = a)) as [<-|Hne'].
    { left. eapply chain_up; [done|]. by econstructor. }
    destruct (chain_first_child _ _ Hsh _ _ _ Hpa Hne' Hdp) as (c & Hc & Hca).
    destruct (decide (c = b)) as [->|Hcb]; [by right; left|].
    destruct (chain_in_l _ _ _ Hca) as [dc Hdc].
    destruct (ordered_in_disjoint _ _ _ _ _ _ _ _ Hord Hc Hin Hcb Hdc Hb);
      (destruct (decide (c = a)) as [->|Hca'];
       [simplify_eq; lia|pose proof (chain_nested _ _ _ _ Hca Hdc Ha Hca'); lia]).
  - lia.
Qed.

Lemma contains_chain a b da db :
  m !! a = Some da -> m !! b = Some db ->
  interval_contains (d_interval da) (d_interval db) = true <-> chain_anc m a b.
Proof using Hok.
  intros Ha Hb. rewrite contains_iff. destruct (local_of _ _ Hb) as (_ & Hlen & _).
  unfold iv_len in Hlen. split.
  - intros. destruct (laminar _ _ _ _ Ha Hb) as [?|[Hba|?]]; [done| |lia].
    destruct (decide (b = a)) as [->|Hne]; [by econstructor|].
    pose proof (chain_nested _ _ _ _ Hba Hb Ha Hne). lia.
  - intros Hab. destruct (decide (a = b)) as [->|Hne]; [simplify_eq; lia|].
    pose proof (chain_nested _ _ _ _ Hab Ha Hb Hne). lia.
Qed.

Lemma strictly_contains_chain a b da db :
  m !! a = Some da -> m !! b = Some db ->
  interval_strictly_contains (d_interval da) (d_interval db) = true <-> chain_anc m a b /\ a <> b.
Proof using Hok.
  intros Ha Hb. rewrite strictly_contains_iff. split.
  - intros. split; [apply (contains_chain _ _ _ _ Ha Hb), contains_iff; lia|].
    intros ->. simplify_eq. lia.
  - intros [Hab Hne]. exact (chain_nested _ _ _ _ Hab Ha Hb Hne).
Qed.
End Intervals.

(** ** Reads of the memory store *)
Section MemReads.
Context (s : MemoryReachabilityStore) (h : N) (d : MemoryReachabilityData).
Hypothesis Hd : m_map s !! h = Some d.

Lemma mem_get_data_ok : mem_get_data s h = Ok d.
Proof using Hd. unfold mem_get_data. by rewrite Hd. Qed.
Lemma get_interval_mem : get_interval s h = Ok (d_interval d).
Proof using Hd. cbn. by rewrite mem_get_data_ok. Qed.
Lemma get_parent_mem : get_parent s h = Ok (d_parent d).
Proof using Hd. cbn. by rewrite mem_get_data_ok. Qed.
Lemma get_children_mem : get_children s h = Ok (d_children d).
Proof using Hd. cbn. by rewrite mem_get_data_ok. Qed.
Lemma get_fcs_mem : get_future_covering_set s h = Ok (d_fcs d).
Proof using Hd. cbn. by rewrite mem_get_data_ok. Qed.
Lemma get_height_mem : get_height s h = Ok (d_height d).
Proof using Hd. cbn. by rewrite mem_get_data_ok. Qed.
Lemma set_interval_mem i : set_interval s h i = Ok (mem_put s h (with_interval d i)).
Proof using Hd. cbn. unfold mem_set_interval. by rewrite mem_get_data_ok. Qed.
Lemma set_parent_mem p : set_parent s h p = Ok (mem_put s h (with_parent d p)).
Proof using Hd. cbn. unfold mem_set_parent. by rewrite mem_get_data_ok. Qed.
Lemma append_child_mem c : append_child s h c = Ok (mem_put s h (with_children d (d_children d ++ [c]))).
Proof using Hd. cbn. unfold mem_append_child. by rewrite mem_get_data_ok. Qed.
End MemReads.

Lemma mem_get_data_Ok s h d : mem_get_data s h = Ok d <-> m_map s !! h = Some d.
Proof. unfold mem_get_data. destruct (m_map s !! h); split; congruence. Qed.

(** A successful read tells the block is there. *)
Lemma get_interval_Ok (s : MemoryReachabilityStore) h i :
  get_interval s h = Ok i -> exists d, m_map s !! h = Some d /\ i = d_interval d.
Proof.
  cbn. destruct (mem_get_data s h) as [d| | |] eqn:H; cbn; intros [= <-].
  apply mem_get_data_Ok in H. eauto.
Qed.

(** ** The queries answer tree ancestry *)
Section MemQueries.
Context (s : MemoryReachabilityStore) (root : N).
Hypothesis Hok : tree_ok (m_map s) root.

Lemma is_chain_ancestor_spec a b :
  is_Some (m_map s !! a) -> is_Some (m_map s !! b) ->
  exists r, is_chain_ancestor_of s a b = Ok r /\ (r = true <-> chain_anc (m_map s) a b).
Proof using Hok.
  intros [da Ha] [db Hb]. unfold is_chain_ancestor_of.
  rewrite (get_interval_mem _ _ _ Ha), (get_interval_mem _ _ _ Hb). cbn [obind].
  eexists. split; [done|]. exact (contains_chain _ _ Hok _ _ _ _ Ha Hb).
Qed.

Lemma is_strict_chain_ancestor_spec a b :
  is_Some (m_map s !! a) -> is_Some (m_map s !! b) ->
  exists r, is_strict_chain_ancestor_of s a b = Ok r /\
    (r = true <-> chain_anc (m_map s) a b /\ a <> b).
Proof using Hok.
  intros [da Ha] [db Hb]. unfold is_strict_chain_ancestor_of.
  rewrite (get_interval_mem _ _ _ Ha), (get_interval_mem _ _ _ Hb). cbn [obind].
  eexists. split; [done|]. exact (strictly_contains_chain _ _ Hok _ _ _ _ Ha Hb).
Qed.

Definition start_of (m : nodes) (c : N) : Z :=
  match m !! c with Some d => iv_start (d_interval d) | None => 0 end.

Lemma ordered_starts_increase lo cs hi i j x y :
  ordered_in (m_map s) lo cs hi -> cs !! i = Some x -> cs !! j = Some y -> (i < j)%nat ->
  start_of (m_map s) x < start_of (m_map s) y.
Proof using Hok.
  intros Hord Hi Hj Hij. unfold start_of.
  destruct (ordered_in_elem _ _ _ _ x Hord) as (dx & Hx & _); [by eapply list_elem_of_lookup_2|].
  destruct (ordered_in_elem _ _ _ _ y Hord) as (dy & Hy & _); [by eapply list_elem_of_lookup_2|].
  rewrite Hx, Hy. pose proof (ordered_in_lookup _ _ _ _ _ _ _ _ _ _ Hord Hi Hj Hij Hx Hy).
  destruct (local_of _ _ Hok _ _ Hx) as (_ & Hlen & _). unfold iv_len in Hlen. lia.
Qed.

Lemma ordered_keys_ascending lo cs hi :
  ordered_in (m_map s) lo cs hi -> keys_ascending (start_of (m_map s)) cs.
Proof using Hok. intros Hord i j x y Hi Hj Hij. apply Z.lt_le_incl. by eapply ordered_starts_increase. Qed.

Lemma ordered_search_key lo cs hi :
  ordered_in (m_map s) lo cs hi ->
  Forall (fun c => search_key s c = Ok (start_of (m_map s) c)) cs.
Proof using.
  intros Hord. apply Forall_forall. intros c Hc.
  destruct (ordered_in_elem _ _ _ _ c Hord Hc) as (d & Hd & _).
  unfold search_key, start_of. by rewrite (get_interval_mem _ _ _ Hd), Hd.
Qed.

(** A block of an ordered list whose interval holds the endpoint of [x] is an
    ancestor of [x]. *)
Lemma endpoint_ancestor c x dc dx :
  m_map s !! c = Some dc -> m_map s !! x = Some dx ->
  iv_start (d_interval dc) <= iv_end (d_interval dx) <= iv_end (d_interval dc) ->
  chain_anc (m_map s) c x.
Proof using Hok.
  intros Hc Hx ?. destruct (local_of _ _ Hok _ _ Hx) as (_ & Hlen & _). unfold iv_len in Hlen.
  destruct (laminar _ _ Hok _ _ _ _ Hc Hx) as [?|[Hxc|?]]; [done| |lia].
  destruct (decide (x = c)) as [->|Hne]; [by econstructor|].
  pose proof (chain_nested _ _ Hok _ _ _ _ Hxc Hx Hc Hne). lia.
Qed.

Lemma binary_search_descendant_spec lo cs hi x dx :
  ordered_in (m_map s) lo cs hi -> m_map s !! x = Some dx ->
  exists r, binary_search_descendant s cs x = Ok r /\
    match r with
    | Found h i => cs !! i = Some h /\ chain_anc (m_map s) h x
    | NotFound i => (i <= length cs)%nat /\
        (forall c, c ∈ cs -> ~ chain_anc (m_map s) c x) /\
        (forall j c, (j < i)%nat -> cs !! j = Some c -> start_of (m_map s) c < iv_end (d_interval dx)) /\
        (forall j c, (i <= j)%nat -> cs !! j = Some c -> iv_end (d_interval dx) < start_of (m_map s) c)
    end.
Proof using Hok.
  intros Hord Hx. unfold binary_search_descendant. rewrite (get_interval_mem _ _ _ Hx). cbn [obind].
  destruct (binary_search_spec (search_key s) (start_of (m_map s)) (iv_end (d_interval dx)) cs)
    as (r & -> & Hr).
  { by eapply ordered_search_key. }
  { by eapply ordered_keys_ascending. }
  cbn [obind].
  assert (Hin : forall i c, cs !! i = Some c -> exists dc, m_map s !! c = Some dc /\
             iv_start (d_interval dc) = start_of (m_map s) c /\
             iv_start (d_interval dc) <= iv_end (d_interval dc)).
  { intros i c Hc%list_elem_of_lookup_2. destruct (ordered_in_elem _ _ _ _ c Hord Hc) as (dc & Hdc & _).
    destruct (local_of _ _ Hok _ _ Hdc) as (_ & Hlen & _). unfold iv_len in Hlen.
    exists dc. split_and!; [done| |lia]. unfold start_of. by rewrite Hdc. }
  destruct r as [i|i].
  - destruct Hr as (c & Hc & Heq). destruct (Hin _ _ Hc) as (dc & Hdc & Hs & Hle).
    rewrite Hc. cbn. eexists. split; [done|]. split; [done|].
    eapply endpoint_ancestor; eauto; lia.
  - destruct Hr as (Hlen & Hlo & Hhi). destruct i as [|i].
    + eexists. split; [done|]. cbv beta iota. split; [lia|]. split.
      * intros c [j Hj]%list_elem_of_lookup Hanc. destruct (Hin _ _ Hj) as (dc & Hdc & Hs & _).
        pose proof (Hhi j c ltac:(lia) Hj).
        apply (contains_chain _ _ Hok _ _ _ _ Hdc Hx), contains_iff in Hanc.
        destruct (local_of _ _ Hok _ _ Hx) as (_ & Hl & _). unfold iv_len in Hl. lia.
      * done.
    + destruct (lookup_lt_is_Some_2 cs i ltac:(lia)) as [c Hc]. rewrite Hc. cbn [unwrap obind].
      destruct (is_chain_ancestor_spec c x) as (anc & -> & Hanc).
      { destruct (Hin _ _ Hc) as (? & ? & _); eauto. } { eauto. }
      cbn [obind]. eexists. split; [done|]. destruct anc.
      { split; [done|]. by apply Hanc. }
      cbv beta iota. split; [lia|]. split; [|done].
      intros c' [j Hj]%list_elem_of_lookup Hc'. destruct (Hin _ _ Hj) as (dc' & Hdc' & Hs' & _).
      pose proof Hc' as Hcont. apply (contains_chain _ _ Hok _ _ _ _ Hdc' Hx), contains_iff in Hcont.
      destruct (local_of _ _ Hok _ _ Hx) as (_ & Hl & _). unfold iv_len in Hl.
      destruct (Nat.lt_trichotomy j i) as [Hji|[->|Hji]].
      * destruct (Hin _ _ Hc) as (dc & Hdc & Hs & _).
        pose proof (ordered_in_lookup _ _ _ _ _ _ _ _ _ _ Hord Hj Hc Hji Hdc' Hdc).
        pose proof (Hlo i c ltac:(lia) Hc). lia.
      * simplify_eq. by apply Hanc in Hc'.
      * pose proof (Hhi j c' ltac:(lia) Hj). lia.
Qed.
End MemQueries.

(** ** Deciding the invariant on a concrete store *)

Fixpoint ordered_in_b (m : nodes) (lo : Z) (cs : list N) (hi : Z) : bool :=
  match cs with
  | [] => lo <=? hi + 1
  | c :: cs' =>
      match m !! c with
      | Some d => (lo <=? iv_start (d_interval d)) && (iv_start (d_interval d) <=? iv_end (d_interval d) + 1) &&
          ordered_in_b m (iv_end (d_interval d) + 1) cs' hi
      | None => false
      end
  end.

Definition check_node (m : nodes) (root h : N) (d : MemoryReachabilityData) : bool :=
  let i := d_interval d in
  forallb (fun c => match m !! c with Some dc => bool_decide (d_parent dc = h) | None => false end) (d_children d) &&
  (bool_decide (h = root) ||
   match m !! d_parent d with Some dp => bool_decide (h ∈ d_children dp) | None => false end) &&
  bool_decide (NoDup (d_children d)) && (0 <=? d_height d) &&
  match m !! d_parent d with Some dp => d_height dp <? d_height d | None => true end &&
  (1 <=? iv_start i) && (iv_start i - 1 <=? iv_end i) && (iv_end i <? U64 - 1) && (1 <=? iv_len i) &&
  ordered_in_b m (iv_start i) (d_children d) (iv_end i - 1).

Definition tree_check (m : nodes) (root : N) : bool :=
  match m !! root with Some d => bool_decide (d_parent d = hash_NONE) | None => false end &&
  match m !! hash_NONE with Some _ => false | None => true end &&
  forallb (fun p => check_node m root p.1 p.2) (map_to_list m).

Lemma ordered_in_b_sound m lo cs hi : ordered_in_b m lo cs hi = true -> ordered_in m lo cs hi.
Proof.
  revert lo. induction cs as [|c cs IH]; intros lo; cbn; [by intros ?%Z.leb_le|].
  destruct (m !! c) as [d|]; [|done]. rewrite !andb_true_iff, !Z.leb_le. intros [[? ?] ?%IH].
  exists d. done.
Qed.

Lemma tree_check_sound m root : tree_check m root = true -> tree_ok m root.
Proof.
  unfold tree_check. rewrite !andb_true_iff. intros [[Htop Hnone] Hall].
  assert (Hnode : forall h d, m !! h = Some d -> check_node m root h d = true).
  { intros h d Hd. rewrite forallb_forall in Hall. apply (Hall (h, d)), list_elem_of_In.
    by apply elem_of_map_to_list. }
  assert (Hnone' : m !! hash_NONE = None) by (by destruct (m !! hash_NONE)).
  unfold check_node in Hnode. split; [constructor|]; [..|intros h [d Hd]].
  - destruct (m !! root) as [d|]; [|done]. apply bool_decide_eq_true in Htop. eauto.
  - done.
  - intros h d c Hd Hc. specialize (Hnode h d Hd). rewrite !andb_true_iff in Hnode.
    destruct Hnode as [[[[[[[[[Hcs _] _] _] _] _] _] _] _] _].
    rewrite forallb_forall in Hcs. specialize (Hcs c ltac:(by apply list_elem_of_In)).
    destruct (m !! c) as [dc|]; [|done]. apply bool_decide_eq_true in Hcs. eauto.
  - intros h d Hd Hne. specialize (Hnode h d Hd). rewrite !andb_true_iff in Hnode.
    destruct Hnode as [[[[[[[[[_ Hp] _] _] _] _] _] _] _] _].
    rewrite bool_decide_false in Hp by done. cbn in Hp.
    destruct (m !! d_parent d) as [dp|]; [|done]. apply bool_decide_eq_true in Hp. eauto.
  - intros h d Hd. specialize (Hnode h d Hd). rewrite !andb_true_iff in Hnode.
    destruct Hnode as [[[[[[[[[_ _] Hnd] _] _] _] _] _] _] _]. by apply bool_decide_eq_true in Hnd.
  - intros h d Hd. specialize (Hnode h d Hd). rewrite !andb_true_iff, !Z.leb_le in Hnode. tauto.
  - intros h d dp Hd Hdp. specialize (Hnode h d Hd). rewrite !andb_true_iff, Hdp, Z.ltb_lt in Hnode. tauto.
  - specialize (Hnode h d Hd). rewrite !andb_true_iff, !Z.leb_le, !Z.ltb_lt in Hnode.
    destruct Hnode as [[[[[_ ?] ?] ?] ?] Ho%ordered_in_b_sound]. exists d. unfold iv_ok. done.
Qed.
