(* ===== verification/ReachabilityReindex.v ===== *)
(** * Reindexing of reachability intervals

    Model of consensus/src/processes/reachability/reindex.rs
    ([ReindexOperationContext] and its methods) and of tree.rs
    ([add_tree_block], [find_next_reindex_root], [try_advancing_reindex_root]),
    generic in the store.

    Every loop of the source that is not over a finite collection takes its
    iterations from [fuel]; running out is the distinct outcome [OutOfFuel]. *)

From Stdlib Require Import ZArith Lia Bool.
From stdpp Require Import base gmap numbers list sorting.
From S2P Require Import Prelude Interval ReachabilityStore ReachabilityQueries.

#[local] Open Scope Z_scope.

(** [split_children]: the children before and after the pivot. *)
Definition split_children (children : list Hash) (pivot : Hash) : rresult (list Hash * list Hash) :=
  match list_find (fun c => c = pivot) children with
  | Some (index, _) => Ok (take index children, drop (index + 1) children)
  | None => Err DataInconsistency
  end.

(** [split_exponential]'s operations on intervals, as passed to
    [apply_interval_op]. *)
Abbreviation interval_op := (Interval -> Z -> rresult Interval).

Record ReindexCtx (S : Type) := mk_ctx {
  ctx_store : S;
  ctx_sizes : gmap N Z;
  ctx_slack : Z
}.
Arguments mk_ctx {S}.
Arguments ctx_store {S}.
Arguments ctx_sizes {S}.
Arguments ctx_slack {S}.

Section Reindex.
Context {S : Type} `{ReachabilityStore S}.

Definition ctx_new (store : S) (depth slack : Z) : ReindexCtx S := mk_ctx store ∅ slack.

Definition ctx_with_store (c : ReindexCtx S) (st : S) : ReindexCtx S :=
  mk_ctx st (ctx_sizes c) (ctx_slack c).
Definition ctx_set_size (c : ReindexCtx S) (h : Hash) (n : Z) : ReindexCtx S :=
  mk_ctx (ctx_store c) (<[h := n]> (ctx_sizes c)) (ctx_slack c).

(** [self.subtree_sizes[&h]]: indexing panics on a missing key. *)
Definition ctx_size_of (c : ReindexCtx S) (h : Hash) : rresult Z := unwrap (ctx_sizes c !! h).

Variable fuel : nat.

(** *** [count_subtrees] *)

(** The inner [while current != block] loop that pushes sizes up. *)
Fixpoint push_up (n : nat) (c : ReindexCtx S) (counts : gmap N Z) (block current : Hash) :
    rresult (ReindexCtx S * gmap N Z) :=
  match n with
  | O => OutOfFuel
  | Datatypes.S n' =>
      if decide (current = block) then Ok (c, counts) else
      let! current := get_parent (ctx_store c) current in
      let count := default 0 (counts !! current) in
      let! children := get_children (ctx_store c) current in
      let! count := add64 count 1 in
      let counts := <[current := count]> counts in
      if count <? Z.of_nat (length children) then Ok (c, counts) else
      let! sizes := mapM_out (ctx_size_of c) children in
      let! subtree_sum := sum64 sizes in
      let! subtree_size := add64 subtree_sum 1 in
      push_up n' (ctx_set_size c current subtree_size) counts block current
  end.

(** The outer [while let Some(mut current) = queue.pop_front()] loop. *)
Fixpoint count_loop (n : nat) (c : ReindexCtx S) (counts : gmap N Z) (block : Hash)
    (queue : list Hash) : rresult (ReindexCtx S) :=
  match queue with
  | [] => Ok c
  | current :: queue' =>
      match n with
      | O => OutOfFuel
      | Datatypes.S n' =>
          let! children := get_children (ctx_store c) current in
          match children, ctx_sizes c !! current with
          | [], _ =>
              let! ' (c', counts') :=
                push_up fuel (ctx_set_size c current 1) counts block current in
              count_loop n' c' counts' block queue'
          | _, None => count_loop n' c counts block (queue' ++ children)
          | _, Some _ =>
              let! ' (c', counts') := push_up fuel c counts block current in
              count_loop n' c' counts' block queue'
          end
      end
  end.

Definition count_subtrees (c : ReindexCtx S) (block : Hash) : rresult (ReindexCtx S) :=
  match ctx_sizes c !! block with
  | Some _ => Ok c
  | None => count_loop fuel c ∅ block [block]
  end.

(** *** [propagate_interval] *)

Definition set_intervals (st : S) (l : list (Hash * Interval)) : rresult S :=
  foldM_out (fun st '(h, i) => set_interval st h i) st l.

Fixpoint propagate_loop (n : nat) (c : ReindexCtx S) (queue : list Hash) : rresult (ReindexCtx S) :=
  match queue with
  | [] => Ok c
  | current :: queue' =>
      match n with
      | O => OutOfFuel
      | Datatypes.S n' =>
          let! children := get_children (ctx_store c) current in
          match children with
          | [] => propagate_loop n' c queue'
          | _ =>
              let! sizes := mapM_out (ctx_size_of c) children in
              let! interval := interval_children_capacity (ctx_store c) current in
              let! intervals := interval_split_exponential interval sizes in
              let! st := set_intervals (ctx_store c) (zip children intervals) in
              propagate_loop n' (ctx_with_store c st) (queue' ++ children)
          end
      end
  end.

Definition propagate_interval (c : ReindexCtx S) (block : Hash) : rresult (ReindexCtx S) :=
  let! c := count_subtrees c block in
  propagate_loop fuel c [block].

(** *** Interval operations on one block *)

Definition apply_interval_op (c : ReindexCtx S) (block : Hash) (offset : Z) (op : interval_op) :
    rresult (ReindexCtx S) :=
  let! i := get_interval (ctx_store c) block in
  let! i' := op i offset in
  let! st := set_interval (ctx_store c) block i' in
  Ok (ctx_with_store c st).

Definition apply_interval_op_and_propagate (c : ReindexCtx S) (block : Hash) (offset : Z)
    (op : interval_op) : rresult (ReindexCtx S) :=
  let! i := get_interval (ctx_store c) block in
  let! i' := op i offset in
  let! st := set_interval (ctx_store c) block i' in
  propagate_interval (ctx_with_store c st) block.

Fixpoint offset_siblings_loop (c : ReindexCtx S) (allocation_block : Hash) (offset : Z)
    (final_op other_op : interval_op) (siblings : list Hash) : rresult (ReindexCtx S) :=
  match siblings with
  | [] => Ok c
  | sibling :: siblings' =>
      if decide (sibling = allocation_block)
      then apply_interval_op_and_propagate c allocation_block offset final_op
      else
        let! c' := apply_interval_op_and_propagate c sibling offset other_op in
        offset_siblings_loop c' allocation_block offset final_op other_op siblings'
  end.

Definition offset_siblings_before (c : ReindexCtx S) (allocation_block current : Hash) (offset : Z) :
    rresult (ReindexCtx S) :=
  let! parent := get_parent (ctx_store c) current in
  let! children := get_children (ctx_store c) parent in
  let! ' (siblings_before, _) := split_children children current in
  offset_siblings_loop c allocation_block offset interval_increase_end interval_increase
    (reverse siblings_before).

Definition offset_siblings_after (c : ReindexCtx S) (allocation_block current : Hash) (offset : Z) :
    rresult (ReindexCtx S) :=
  let! parent := get_parent (ctx_store c) current in
  let! children := get_children (ctx_store c) parent in
  let! ' (_, siblings_after) := split_children children current in
  offset_siblings_loop c allocation_block offset interval_decrease_start interval_decrease
    siblings_after.

(** *** Reclaiming slack along the chain to the reindex root *)

(** The walk up of [reclaim_interval_before]; returns the block reached and the
    slack to keep on the way back. *)
Fixpoint reclaim_before_up (n : nat) (c : ReindexCtx S) (allocation_block reindex_root : Hash)
    (required_allocation slack_sum path_len : Z) (current : Hash) :
    rresult (ReindexCtx S * Hash * Z) :=
  match n with
  | O => OutOfFuel
  | Datatypes.S n' =>
      if decide (current = reindex_root) then
        let! path_slack := mul64 (ctx_slack c) path_len in
        let! total := add64 required_allocation path_slack in
        let! offset := usub total slack_sum in
        let! c := apply_interval_op_and_propagate c current offset interval_increase_start in
        let! c := offset_siblings_before c allocation_block current offset in
        Ok (c, current, ctx_slack c)
      else
        let! remaining := interval_remaining_before (ctx_store c) current in
        let! slack_before_current := interval_size remaining in
        let! slack_sum := add64 slack_sum slack_before_current in
        if required_allocation <=? slack_sum then
          let! excess := usub slack_sum required_allocation in
          let! offset := usub slack_before_current excess in
          let! c := apply_interval_op c current offset interval_increase_start in
          let! c := offset_siblings_before c allocation_block current offset in
          Ok (c, current, 0)
        else
          let! current := get_next_chain_ancestor_unchecked (ctx_store c) reindex_root current in
          let! path_len := add64 path_len 1 in
          reclaim_before_up n' c allocation_block reindex_root required_allocation slack_sum
            path_len current
  end.

(** The walk back down towards the common ancestor. *)
Fixpoint reclaim_before_down (n : nat) (c : ReindexCtx S) (allocation_block common_ancestor : Hash)
    (path_slack_alloc : Z) (current : Hash) : rresult (ReindexCtx S) :=
  match n with
  | O => OutOfFuel
  | Datatypes.S n' =>
      let! current := get_parent (ctx_store c) current in
      if decide (current = common_ancestor) then Ok c else
      let! remaining := interval_remaining_before (ctx_store c) current in
      let! slack_before_current := interval_size remaining in
      let! offset := usub slack_before_current path_slack_alloc in
      let! c := apply_interval_op c current offset interval_increase_start in
      let! c := offset_siblings_before c allocation_block current offset in
      reclaim_before_down n' c allocation_block common_ancestor path_slack_alloc current
  end.

Definition reclaim_interval_before (c : ReindexCtx S)
    (allocation_block common_ancestor chosen_child reindex_root : Hash) (required_allocation : Z) :
    rresult (ReindexCtx S) :=
  let! ' (c, current, path_slack_alloc) :=
    reclaim_before_up fuel c allocation_block reindex_root required_allocation 0 0 chosen_child in
  reclaim_before_down fuel c allocation_block common_ancestor path_slack_alloc current.

Fixpoint reclaim_after_up (n : nat) (c : ReindexCtx S) (allocation_block reindex_root : Hash)
    (required_allocation slack_sum path_len : Z) (current : Hash) :
    rresult (ReindexCtx S * Hash * Z) :=
  match n with
  | O => OutOfFuel
  | Datatypes.S n' =>
      if decide (current = reindex_root) then
        let! path_slack := mul64 (ctx_slack c) path_len in
        let! total := add64 required_allocation path_slack in
        let! offset := usub total slack_sum in
        let! c := apply_interval_op_and_propagate c current offset interval_decrease_end in
        let! c := offset_siblings_after c allocation_block current offset in
        Ok (c, current, ctx_slack c)
      else
        let! remaining := interval_remaining_after (ctx_store c) current in
        let! slack_after_current := interval_size remaining in
        let! slack_sum := add64 slack_sum slack_after_current in
        if required_allocation <=? slack_sum then
          let! excess := usub slack_sum required_allocation in
          let! offset := usub slack_after_current excess in
          let! c := apply_interval_op c current offset interval_decrease_end in
          let! c := offset_siblings_after c allocation_block current offset in
          Ok (c, current, 0)
        else
          let! current := get_next_chain_ancestor_unchecked (ctx_store c) reindex_root current in
          let! path_len := add64 path_len 1 in
          reclaim_after_up n' c allocation_block reindex_root required_allocation slack_sum
            path_len current
  end.

Fixpoint reclaim_after_down (n : nat) (c : ReindexCtx S) (allocation_block common_ancestor : Hash)
    (path_slack_alloc : Z) (current : Hash) : rresult (ReindexCtx S) :=
  match n with
  | O => OutOfFuel
  | Datatypes.S n' =>
      let! current := get_parent (ctx_store c) current in
      if decide (current = common_ancestor) then Ok c else
      let! remaining := interval_remaining_after (ctx_store c) current in
      let! slack_after_current := interval_size remaining in
      let! offset := usub slack_after_current path_slack_alloc in
      let! c := apply_interval_op c current offset interval_decrease_end in
      let! c := offset_siblings_after c allocation_block current offset in
      reclaim_after_down n' c allocation_block common_ancestor path_slack_alloc current
  end.

Definition reclaim_interval_after (c : ReindexCtx S)
    (allocation_block common_ancestor chosen_child reindex_root : Hash) (required_allocation : Z) :
    rresult (ReindexCtx S) :=
  let! ' (c, current, path_slack_alloc) :=
    reclaim_after_up fuel c allocation_block reindex_root required_allocation 0 0 chosen_child in
  reclaim_after_down fuel c allocation_block common_ancestor path_slack_alloc current.

Definition reindex_intervals_earlier_than_root (c : ReindexCtx S)
    (allocation_block reindex_root common_ancestor : Hash) (required_allocation : Z) :
    rresult (ReindexCtx S) :=
  let! chosen_child := get_next_chain_ancestor_unchecked (ctx_store c) reindex_root common_ancestor in
  let! block_interval := get_interval (ctx_store c) allocation_block in
  let! chosen_interval := get_interval (ctx_store c) chosen_child in
  if iv_start block_interval <? iv_start chosen_interval
  then reclaim_interval_before c allocation_block common_ancestor chosen_child reindex_root
         required_allocation
  else reclaim_interval_after c allocation_block common_ancestor chosen_child reindex_root
         required_allocation.

(** *** [reindex_intervals] *)

Fixpoint reindex_loop (n : nat) (c : ReindexCtx S) (reindex_root current : Hash) :
    rresult (ReindexCtx S) :=
  match n with
  | O => OutOfFuel
  | Datatypes.S n' =>
      let! current_interval := get_interval (ctx_store c) current in
      let! c := count_subtrees c current in
      let! isize := interval_size current_interval in
      let! ssize := ctx_size_of c current in
      if ssize <=? isize then propagate_interval c current else
      let! parent := get_parent (ctx_store c) current in
      if decide (parent = hash_NONE) then Err (DataOverflow MissingTreeParent) else
      if decide (current = reindex_root) then Err (DataOverflow ReindexRootOutOfCapacity) else
      let! above := is_strict_chain_ancestor_of (ctx_store c) parent reindex_root in
      if above
      then let! required := ctx_size_of c current in
           reindex_intervals_earlier_than_root c current reindex_root parent required
      else reindex_loop n' c reindex_root parent
  end.

Definition reindex_intervals (c : ReindexCtx S) (new_child reindex_root : Hash) :
    rresult (ReindexCtx S) :=
  reindex_loop fuel c reindex_root new_child.

(** *** Concentrating intervals when the reindex root moves *)

(** The sizes of the subtrees of [blocks], counting them on the way. *)
Fixpoint count_sizes (c : ReindexCtx S) (blocks : list Hash) : rresult (ReindexCtx S * list Z) :=
  match blocks with
  | [] => Ok (c, [])
  | block :: blocks' =>
      let! c := count_subtrees c block in
      let! n := ctx_size_of c block in
      let! ' (c, ns) := count_sizes c blocks' in
      Ok (c, n :: ns)
  end.

Fixpoint set_and_propagate (c : ReindexCtx S) (l : list (Hash * Interval)) : rresult (ReindexCtx S) :=
  match l with
  | [] => Ok c
  | (h, i) :: l' =>
      let! st := set_interval (ctx_store c) h i in
      let! c := propagate_interval (ctx_with_store c st) h in
      set_and_propagate c l'
  end.

Definition tighten_intervals_before (c : ReindexCtx S) (parent : Hash) (children_before : list Hash) :
    rresult (ReindexCtx S * Z) :=
  let! ' (c, sizes) := count_sizes c children_before in
  let! sum := sum64 sizes in
  let! interval := get_interval (ctx_store c) parent in
  let! s := add64 (iv_start interval) (ctx_slack c) in
  let! e := add64 s sum in
  let! e := usub e 1 in
  let! parts := interval_split_exact (interval_new s e) sizes in
  let! c := set_and_propagate c (zip children_before parts) in
  Ok (c, sum).

Definition tighten_intervals_after (c : ReindexCtx S) (parent : Hash) (children_after : list Hash) :
    rresult (ReindexCtx S * Z) :=
  let! ' (c, sizes) := count_sizes c children_after in
  let! sum := sum64 sizes in
  let! interval := get_interval (ctx_store c) parent in
  let! e := usub (iv_end interval) (ctx_slack c) in
  let! s := usub e sum in
  let! e := usub e 1 in
  let! parts := interval_split_exact (interval_new s e) sizes in
  let! c := set_and_propagate c (zip children_after parts) in
  Ok (c, sum).

Definition expand_interval_to_chosen (c : ReindexCtx S) (parent child : Hash)
    (siblings_before_subtrees_sum siblings_after_subtrees_sum : Z) (is_final_reindex_root : bool) :
    rresult (ReindexCtx S) :=
  let! interval := get_interval (ctx_store c) parent in
  let! s := add64 (iv_start interval) siblings_before_subtrees_sum in
  let! s := add64 s (ctx_slack c) in
  let! e := usub (iv_end interval) siblings_after_subtrees_sum in
  let! e := usub e (ctx_slack c) in
  let! e := usub e 1 in
  let allocation := interval_new s e in
  let! current := get_interval (ctx_store c) child in
  let! c :=
    (if is_final_reindex_root && negb (interval_contains allocation current) then
       let! ns := add64 (iv_start allocation) (ctx_slack c) in
       let! ne := usub (iv_end allocation) (ctx_slack c) in
       let! st := set_interval (ctx_store c) child (interval_new ns ne) in
       propagate_interval (ctx_with_store c st) child
     else Ok c) in
  let! st := set_interval (ctx_store c) child allocation in
  Ok (ctx_with_store c st).

Definition concentrate_interval (c : ReindexCtx S) (parent child : Hash)
    (is_final_reindex_root : bool) : rresult (ReindexCtx S) :=
  let! children := get_children (ctx_store c) parent in
  let! ' (siblings_before, siblings_after) := split_children children child in
  let! ' (c, before_sum) := tighten_intervals_before c parent siblings_before in
  let! ' (c, after_sum) := tighten_intervals_after c parent siblings_after in
  expand_interval_to_chosen c parent child before_sum after_sum is_final_reindex_root.

(** ** tree.rs *)

Definition add_tree_block (store : S) (new_block parent : Hash) (reindex_depth reindex_slack : Z) :
    rresult S :=
  let! remaining := interval_remaining_after store parent in
  let! store := append_child store parent new_block in
  let! parent_height := get_height store parent in
  let! is_empty := interval_is_empty remaining in
  if is_empty then
    let! height := add64 parent_height 1 in
    let! store := store_insert store new_block parent remaining height in
    let! reindex_root := get_reindex_root store in
    let! ctx := reindex_intervals (ctx_new store reindex_depth reindex_slack) new_block reindex_root in
    Ok (ctx_store ctx)
  else
    let! ' (allocated, _) := interval_split_half remaining in
    let! height := add64 parent_height 1 in
    store_insert store new_block parent allocated height.

Fixpoint find_common_tree_ancestor (n : nat) (store : S) (current reindex_root : Hash) : rresult Hash :=
  match n with
  | O => OutOfFuel
  | Datatypes.S n' =>
      let! anc := is_chain_ancestor_of store current reindex_root in
      if anc then Ok current else
      let! parent := get_parent store current in
      find_common_tree_ancestor n' store parent reindex_root
  end.

(** The loop of [find_next_reindex_root] from the ancestor towards the hint. *)
Fixpoint advance_loop (n : nat) (store : S) (hint : Hash) (hint_height reindex_depth : Z)
    (next : Hash) : rresult Hash :=
  match n with
  | O => OutOfFuel
  | Datatypes.S n' =>
      let! child := get_next_chain_ancestor_unchecked store hint next in
      let! child_height := get_height store child in
      if hint_height <? child_height then Err DataInconsistency else
      let! d := usub hint_height child_height in
      if d <? reindex_depth then Ok next else
      advance_loop n' store hint hint_height reindex_depth child
  end.

Definition find_next_reindex_root (store : S) (current hint : Hash)
    (reindex_depth reindex_slack : Z) : rresult (Hash * Hash) :=
  let! hint_height := get_height store hint in
  let! anc := is_chain_ancestor_of store current hint in
  let advance ancestor :=
    let! next := advance_loop fuel store hint hint_height reindex_depth ancestor in
    Ok (ancestor, next) in
  if negb anc then
    let! current_height := get_height store current in
    if (hint_height <? current_height) || (hint_height - current_height <? reindex_slack)
    then Ok (current, current)
    else
      let! common := find_common_tree_ancestor fuel store hint current in
      advance common
  else advance current.

(** The [while ancestor != next] loop of [try_advancing_reindex_root]. *)
Fixpoint concentrate_loop (n : nat) (store : S) (ancestor next : Hash)
    (reindex_depth reindex_slack : Z) : rresult S :=
  match n with
  | O => OutOfFuel
  | Datatypes.S n' =>
      if decide (ancestor = next) then Ok store else
      let! child := get_next_chain_ancestor_unchecked store next ancestor in
      let! ctx := concentrate_interval (ctx_new store reindex_depth reindex_slack)
                    ancestor child (bool_decide (child = next)) in
      concentrate_loop n' (ctx_store ctx) child next reindex_depth reindex_slack
  end.

Definition try_advancing_reindex_root (store : S) (hint : Hash) (reindex_depth reindex_slack : Z) :
    rresult S :=
  let! current := get_reindex_root store in
  let! ' (ancestor, next) := find_next_reindex_root store current hint reindex_depth reindex_slack in
  if decide (current = next) then Ok store else
  let! store := concentrate_loop fuel store ancestor next reindex_depth reindex_slack in
  set_reindex_root store next.

End Reindex.
