(* ===== verification/ReachabilityCount.v ===== *)
(** * Subtree sizes

    The breadth-first [count_subtrees] of reindex.rs computes, for every block
    below its argument, the size the recursive definition of its doc comment
    gives; it terminates, without panicking, within as many iterations as there
    are blocks below the argument. *)

From Stdlib Require Import ZArith Lia Bool.
From stdpp Require Import base gmap numbers list sorting.
From S2P Require Import Prelude Interval ReachabilityStore ReachabilityQueries ReachabilityTree ReachabilityReindex.

#[local] Open Scope Z_scope.

(** ** The recursive definition

    The doc comment of [count_subtrees] gives the function it implements:
    [subtree_size(block) = sum over children + 1]. *)
Fixpoint size_rec (m : nodes) (n : nat) (h : N) : Z :=
  match n with
  | O => 0
  | S n' =>
      match m !! h with
      | Some d => zsum (size_rec m n' <$> d_children d) + 1
      | None => 0
      end
  end.

Definition max_height (m : nodes) : Z :=
  foldr Z.max 0 ((fun p => d_height p.2) <$> map_to_list m).

(** Heights grow along the tree, so the recursion is at most [max_height] deep. *)
Definition subtree_size (m : nodes) (h : N) : Z := size_rec m (S (Z.to_nat (max_height m))) h.

Lemma max_height_ub m h d : m !! h = Some d -> d_height d <= max_height m.
Proof.
  intros H%elem_of_map_to_list. unfold max_height. revert H.
  generalize (map_to_list m) as l. induction l as [|[k x] l IH]; intros Hin; [by apply elem_of_nil in Hin|].
  cbn. apply elem_of_cons in Hin as [[= <- <-]|Hin]; [lia|]. apply IH in Hin. lia.
Qed.

Lemma max_height_nonneg m : 0 <= max_height m.
Proof. unfold max_height. generalize ((fun p : N * _ => d_height p.2) <$> map_to_list m).
  intros l. induction l; cbn; lia. Qed.

Lemma zsum_fmap_ext {A} (f g : A -> Z) l :
  (forall x, x ∈ l -> f x = g x) -> zsum (f <$> l) = zsum (g <$> l).
Proof.
  induction l as [|x l IH]; intros H; cbn; [done|]. rewrite (H x ltac:(left)), IH; [done|].
  intros. apply H. by right.
Qed.

Section Size.
Context (m : nodes) (root : N) (Hsh : shape m root).

Lemma child_height h d c dc :
  m !! h = Some d -> c ∈ d_children d -> m !! c = Some dc -> d_height d < d_height dc.
Proof.
  intros Hd Hc Hdc. destruct (sh_child _ _ Hsh _ _ _ Hd Hc) as (dc' & Hdc' & <-).
  simplify_eq. by eapply (sh_height _ _ Hsh).
Qed.

Lemma size_rec_stable n1 n2 h d :
  m !! h = Some d -> max_height m - d_height d < Z.of_nat n1 -> max_height m - d_height d < Z.of_nat n2 ->
  size_rec m n1 h = size_rec m n2 h.
Proof.
  revert n2 h d. induction n1 as [|n1 IH]; intros n2 h d Hd H1 H2.
  { pose proof (max_height_ub _ _ _ Hd). lia. }
  destruct n2 as [|n2].
  { pose proof (max_height_ub _ _ _ Hd). lia. }
  cbn. rewrite Hd. f_equal. apply zsum_fmap_ext. intros c Hc.
  destruct (sh_child _ _ Hsh _ _ _ Hd Hc) as (dc & Hdc & _).
  pose proof (child_height _ _ _ _ Hd Hc Hdc). eapply IH; [done|lia..].
Qed.

Lemma subtree_size_eq h d :
  m !! h = Some d -> subtree_size m h = zsum (subtree_size m <$> d_children d) + 1.
Proof.
  intros Hd. pose proof (max_height_nonneg m). unfold subtree_size at 1. cbn. rewrite Hd. f_equal.
  apply zsum_fmap_ext. intros c Hc.
  destruct (sh_child _ _ Hsh _ _ _ Hd Hc) as (dc & Hdc & _).
  pose proof (child_height _ _ _ _ Hd Hc Hdc). pose proof (sh_height0 _ _ Hsh _ _ Hd).
  pose proof (max_height_ub _ _ _ Hdc).
  eapply size_rec_stable; [done|lia..].
Qed.

(** A size function is any function satisfying the recursive equation. *)
Definition sizes_of (sz : N -> Z) : Prop :=
  forall h d, m !! h = Some d -> sz h = zsum (sz <$> d_children d) + 1.

Context (sz : N -> Z) (Hsz : sizes_of sz).

Lemma sz_pos h : is_Some (m !! h) -> 1 <= sz h.
Proof.
  intros [d Hd]. assert (exists n, max_height m - d_height d < Z.of_nat n) as [n Hn].
  { exists (S (Z.to_nat (max_height m - d_height d))). lia. }
  revert h d Hd Hn. induction n as [|n IH]; intros h d Hd Hn.
  { pose proof (max_height_ub _ _ _ Hd). lia. }
  rewrite (Hsz _ _ Hd). assert (0 <= zsum (sz <$> d_children d)); [|lia].
  apply zsum_nonneg, Forall_fmap, Forall_forall. intros c Hc.
  destruct (sh_child _ _ Hsh _ _ _ Hd Hc) as (dc & Hdc & _).
  pose proof (child_height _ _ _ _ Hd Hc Hdc). cbn.
  pose proof (IH c dc Hdc ltac:(lia)). lia.
Qed.

Lemma children_sz_nonneg h d :
  m !! h = Some d -> Forall (fun x => 0 <= x) (sz <$> d_children d).
Proof.
  intros Hd. apply Forall_fmap, Forall_forall. intros c Hc. cbn.
  destruct (sh_child _ _ Hsh _ _ _ Hd Hc) as (dc & Hdc & _).
  pose proof (sz_pos c ltac:(eauto)). lia.
Qed.

Lemma zsum_elem (l : list Z) x : Forall (fun x => 0 <= x) l -> x ∈ l -> x <= zsum l.
Proof using.
  induction 1 as [|y l Hy Hl IH]; intros Hx; [by apply elem_of_nil in Hx|].
  pose proof (zsum_nonneg l Hl). cbn. apply elem_of_cons in Hx as [->|Hx]; [lia|].
  apply IH in Hx. lia.
Qed.

Lemma sz_child h d c : m !! h = Some d -> c ∈ d_children d -> sz c < sz h.
Proof.
  intros Hd Hc. rewrite (Hsz _ _ Hd).
  assert (Hin : sz c ∈ sz <$> d_children d) by (apply list_elem_of_fmap; eauto).
  pose proof (zsum_elem _ _ (children_sz_nonneg _ _ Hd) Hin). lia.
Qed.

Lemma sz_chain a b : chain_anc m a b -> sz b <= sz a.
Proof.
  induction 1 as [|a b d Hd Hab IH]; [lia|].
  destruct (chain_in_r _ _ _ Hab) as [dp Hdp].
  destruct (decide (b = root)) as [->|Hne].
  { destruct (sh_root _ _ Hsh) as (? & ? & ?). congruence. }
  destruct (sh_parent _ _ Hsh _ _ Hd Hne) as (dp' & Hdp' & Hin). simplify_eq.
  pose proof (sz_child _ _ _ Hdp Hin). lia.
Qed.

Lemma children_length h d : m !! h = Some d -> Z.of_nat (length (d_children d)) < sz h.
Proof.
  intros Hd. rewrite (Hsz _ _ Hd).
  assert (Hall : forall c, c ∈ d_children d -> 1 <= sz c).
  { intros c Hc. destruct (sh_child _ _ Hsh _ _ _ Hd Hc) as (dc & Hdc & _). apply sz_pos. eauto. }
  revert Hall. generalize (d_children d) as l. induction l as [|c l IH]; intros Hall; cbn; [lia|].
  pose proof (Hall c ltac:(left)). specialize (IH ltac:(intros; apply Hall; by right)). lia.
Qed.
End Size.

(** ** The breadth-first traversal

    Each block below the operation's block is, at any time, not reached yet
    ([Unseen]), in the queue ([Queued]), expanded but with children still to
    report ([Expanded]), fully counted and reported to its parent ([Reported]),
    or the one currently pushing its size up ([Active]). *)
Inductive status := Unseen | Queued | Expanded | Reported | Active.
#[export] Instance status_eq_dec : EqDecision status.
Proof. solve_decision. Defined.

Definition upd (σ : N -> status) (x : N) (v : status) : N -> status :=
  fun y => if decide (y = x) then v else σ y.

Lemma upd_eq σ x v : upd σ x v x = v.
Proof. unfold upd. by rewrite decide_True. Qed.
Lemma upd_ne σ x v y : y <> x -> upd σ x v y = σ y.
Proof. intros. unfold upd. by rewrite decide_False. Qed.

(** The number of reported blocks of a list. *)
Definition reported (σ : N -> status) (l : list N) : Z :=
  Z.of_nat (length (filter (fun c => σ c = Reported) l)).

Lemma reported_ext σ σ' l : (forall c, c ∈ l -> σ c = Reported <-> σ' c = Reported) ->
  reported σ l = reported σ' l.
Proof.
  unfold reported. induction l as [|c l IH]; intros H; [done|].
  rewrite !filter_cons. pose proof (H c ltac:(left)).
  specialize (IH ltac:(intros; apply H; by right)).
  repeat case_decide; cbn; [lia|tauto|tauto|done].
Qed.

Lemma reported_upd σ x l : NoDup l -> x ∈ l -> σ x <> Reported ->
  reported (upd σ x Reported) l = reported σ l + 1.
Proof.
  induction 1 as [|c l Hc Hl IH]; intros Hx Hr; [by apply elem_of_nil in Hx|].
  unfold reported in *. rewrite !filter_cons. apply elem_of_cons in Hx as [->|Hx].
  - rewrite upd_eq, decide_True, decide_False by done. cbn.
    assert (Heq : reported (upd σ c Reported) l = reported σ l).
    { apply reported_ext. intros y Hy. rewrite upd_ne; [done|]. by intros ->. }
    unfold reported in Heq. lia.
  - rewrite upd_ne by (by intros ->). specialize (IH Hx Hr). case_decide; cbn; lia.
Qed.

Lemma reported_all σ l : reported σ l = Z.of_nat (length l) -> forall c, c ∈ l -> σ c = Reported.
Proof.
  unfold reported. induction l as [|x l IH]; intros H c Hc; [by apply elem_of_nil in Hc|].
  rewrite filter_cons in H. pose proof (length_filter (fun c => σ c = Reported) l).
  case_decide; cbn in H; [|lia]. apply elem_of_cons in Hc as [->|Hc]; [done|].
  apply IH; [lia|done].
Qed.

Lemma reported_full σ l : (forall c, c ∈ l -> σ c = Reported) -> reported σ l = Z.of_nat (length l).
Proof.
  unfold reported. induction l as [|x l IH]; intros H; [done|].
  rewrite filter_cons, decide_True by (apply H; left). cbn.
  specialize (IH ltac:(intros; apply H; by right)). lia.
Qed.

Lemma reported_none σ l : (forall c, c ∈ l -> σ c <> Reported) -> reported σ l = 0.
Proof.
  unfold reported. induction l as [|x l IH]; intros H; [done|]. rewrite filter_cons, decide_False.
  - apply IH. intros. apply H. by right.
  - apply H. by left.
Qed.

Lemma reported_le σ l : 0 <= reported σ l <= Z.of_nat (length l).
Proof. unfold reported. pose proof (length_filter (fun c => σ c = Reported) l). lia. Qed.

Section Count.
Context (s : MemoryReachabilityStore) (root : N).
Let m := m_map s.
Context (Hsh : shape m root) (sz : N -> Z) (Hsz : sizes_of m sz).

(** The cache holds true sizes and is closed under children. *)
Definition good_sizes (S : gmap N Z) : Prop :=
  forall h n, S !! h = Some n -> n = sz h /\ exists d, m !! h = Some d /\
    forall c, c ∈ d_children d -> is_Some (S !! c).

Record count_inv (b : N) (σ : N -> status) (S K : gmap N Z) (Q : list N) (act : option N) : Prop := {
  ci_queue : forall x, x ∈ Q <-> σ x = Queued;
  ci_nodup : NoDup Q;
  ci_active : forall x, act = Some x <-> σ x = Active;
  ci_below : forall x, σ x <> Unseen -> chain_anc m b x;
  ci_block : σ b <> Unseen;
  ci_child : forall x d c, chain_anc m b x -> m !! x = Some d -> c ∈ d_children d ->
    match σ x with
    | Unseen | Queued => σ c = Unseen
    | Expanded => σ c <> Unseen
    | Reported | Active => σ c = Unseen \/ σ c = Reported
    end;
  ci_expanded : forall x d, σ x = Expanded -> m !! x = Some d ->
    S !! x = None /\ default 0 (K !! x) = reported σ (d_children d) /\
    reported σ (d_children d) < Z.of_nat (length (d_children d));
  ci_counts : forall x, σ x = Unseen \/ σ x = Queued -> K !! x = None;
  ci_done : forall x, σ x = Reported \/ σ x = Active -> is_Some (S !! x);
  ci_sizes : good_sizes S
}.

Lemma parent_unique x y dx dy c :
  m !! x = Some dx -> m !! y = Some dy -> c ∈ d_children dx -> c ∈ d_children dy -> x = y.
Proof using Hsh.
  intros Hx Hy Hcx Hcy.
  destruct (sh_child _ _ Hsh _ _ _ Hx Hcx) as (d1 & H1 & <-).
  destruct (sh_child _ _ Hsh _ _ _ Hy Hcy) as (d2 & H2 & <-). congruence.
Qed.

Lemma not_own_child x d : m !! x = Some d -> x ∉ d_children d.
Proof using Hsh.
  intros Hd Hin. pose proof (child_height _ _ Hsh _ _ _ _ Hd Hin Hd). lia.
Qed.

Lemma good_sizes_lookup S x : good_sizes S -> is_Some (S !! x) -> S !! x = Some (sz x).
Proof using. intros HS [n Hn]. destruct (HS _ _ Hn) as [-> _]. done. Qed.

(** Taking the head of the queue makes it active once its size is known. *)
Lemma inv_activate b σ S K x Q :
  count_inv b σ S K (x :: Q) None -> good_sizes S -> is_Some (S !! x) ->
  count_inv b (upd σ x Active) S K Q (Some x).
Proof using Hsh.
  intros [HQ HN HA HB Hb HC HE HK HD HS] _ Hx.
  assert (Hxq : σ x = Queued) by (apply HQ; left).
  apply NoDup_cons in HN as [HxQ HN].
  constructor.
  - intros y. destruct (decide (y = x)) as [->|Hne].
    + rewrite upd_eq. done.
    + rewrite upd_ne by done. rewrite <-HQ, elem_of_cons. naive_solver.
  - done.
  - intros y. destruct (decide (y = x)) as [->|Hne]; [by rewrite upd_eq|].
    rewrite upd_ne by done. rewrite <-HA. naive_solver.
  - intros y. destruct (decide (y = x)) as [->|Hne]; [|rewrite upd_ne by done]; intros; apply HB; congruence.
  - destruct (decide (b = x)) as [->|Hne]; [by rewrite upd_eq|by rewrite upd_ne].
  - intros y d c Hby Hd Hc. specialize (HC y d c Hby Hd Hc).
    assert (c <> y) by (intros ->; by eapply not_own_child).
    destruct (decide (y = x)) as [->|Hne].
    + rewrite upd_eq, upd_ne by done. rewrite Hxq in HC. by left.
    + rewrite (upd_ne σ x Active y) by done. destruct (decide (c = x)) as [->|Hcx].
      * rewrite upd_eq, Hxq in *. destruct (σ y); naive_solver.
      * by rewrite upd_ne.
  - intros y d Hy Hd. assert (y <> x) by (intros ->; by rewrite upd_eq in Hy).
    rewrite upd_ne in Hy by done. destruct (HE _ _ Hy Hd) as (? & ? & ?).
    assert (reported (upd σ x Active) (d_children d) = reported σ (d_children d)) as ->; [|done].
    apply reported_ext. intros c Hc. destruct (decide (c = x)) as [->|]; [rewrite upd_eq, Hxq; naive_solver|by rewrite upd_ne].
  - intros y Hy. apply HK. destruct (decide (y = x)) as [->|Hne]; [rewrite upd_eq in Hy; naive_solver|by rewrite upd_ne in Hy].
  - intros y Hy. destruct (decide (y = x)) as [->|Hne]; [done|]. rewrite upd_ne in Hy by done. auto.
  - done.
Qed.

(** The parent of a block that has been reached, other than the operation's
    block, is expanded as long as the block has not reported. *)
Lemma parent_expanded b σ S K Q act x dx :
  count_inv b σ S K Q act -> x <> b -> σ x = Queued \/ σ x = Active \/ σ x = Expanded -> m !! x = Some dx ->
  exists dp, m !! d_parent dx = Some dp /\ x ∈ d_children dp /\ σ (d_parent dx) = Expanded /\ x <> d_parent dx.
Proof using Hsh.
  intros Hinv Hne Hx Hdx.
  assert (Hbx : chain_anc m b x) by (apply (ci_below _ _ _ _ _ _ Hinv); naive_solver congruence).
  destruct (decide (x = root)) as [->|Hr].
  { destruct Hne. apply (chain_antisym _ _ Hsh); [|done]. apply (chain_root _ _ Hsh).
    by eapply chain_in_l. }
  destruct (sh_parent _ _ Hsh _ _ Hdx Hr) as (dp & Hdp & Hin). exists dp.
  assert (Hbp : chain_anc m b (d_parent dx)) by (inversion Hbx; congruence).
  pose proof (ci_child _ _ _ _ _ _ Hinv _ _ _ Hbp Hdp Hin) as HC.
  split_and!; [done|done| |].
  - destruct (σ (d_parent dx)); naive_solver congruence.
  - intros Heq. rewrite <-Heq in Hdp. simplify_eq. by eapply not_own_child.
Qed.

Lemma inv_finish b σ S K Q :
  count_inv b σ S K Q (Some b) -> count_inv b (upd σ b Reported) S K Q None.
Proof using Hsh.
  intros [HQ HN HA HB Hb HC HE HK HD HS].
  assert (Hba : σ b = Active) by (by apply HA).
  constructor; [..|done].
  - intros y. unfold upd. case_decide; [|done]. subst. rewrite HQ. split; congruence.
  - done.
  - intros y. unfold upd. case_decide; [done|]. rewrite <-HA. naive_solver.
  - intros y. unfold upd. case_decide; [intros _; subst; apply HB; congruence|apply HB].
  - by rewrite upd_eq.
  - intros y d c Hby Hd Hc. specialize (HC y d c Hby Hd Hc). unfold upd.
    assert (c <> y) by (intros ->; by eapply not_own_child).
    repeat case_decide; subst; try done.
    + by rewrite Hba in HC.
    + rewrite Hba in HC. destruct (σ y); naive_solver congruence.
  - intros y d. unfold upd at 1. case_decide; [done|]. intros Hy Hd. destruct (HE _ _ Hy Hd) as (? & ? & ?).
    assert (b ∉ d_children d).
    { intros Hin. pose proof (HB y ltac:(congruence)) as Hby.
      apply (chain_antisym _ _ Hsh b y) in Hby; [congruence|]. by eapply chain_child. }
    assert (reported (upd σ b Reported) (d_children d) = reported σ (d_children d)) as ->; [|done].
    apply reported_ext. intros c Hc. rewrite upd_ne; [done|]. by intros ->.
  - intros y. unfold upd. case_decide; [naive_solver|apply HK].
  - intros y. unfold upd. case_decide; [intros _; subst; apply HD; by right|apply HD].
Qed.

Section Report.
Context (b : N) (σ : N -> status) (S K : gmap N Z) (Q : list N) (x p : N) (dp : MemoryReachabilityData).
Hypothesis Hinv : count_inv b σ S K Q (Some x).
Hypothesis Hdp : m !! p = Some dp.
Hypothesis Hin : x ∈ d_children dp.
Hypothesis Hp : σ p = Expanded.

#[local] Lemma Hxa : σ x = Active.
Proof using Hinv. by apply (ci_active _ _ _ _ _ _ Hinv). Qed.

#[local] Lemma Hxp : x <> p.
Proof using Hinv Hp. pose proof Hxa. congruence. Qed.

Lemma reported_after : reported (upd σ x Reported) (d_children dp) = reported σ (d_children dp) + 1.
Proof using Hsh Hinv Hdp Hin.
  apply reported_upd; [by eapply (sh_nodup _ _ Hsh)|done|]. by rewrite Hxa.
Qed.

Lemma reported_other y dy : m !! y = Some dy -> y <> p ->
  reported (upd σ x Reported) (d_children dy) = reported σ (d_children dy).
Proof using Hsh Hinv Hdp Hin.
  intros Hy Hne. apply reported_ext. intros c Hc. rewrite upd_ne; [done|]. intros ->.
  destruct Hne. by eapply parent_unique.
Qed.

Lemma inv_report_wait :
  reported σ (d_children dp) + 1 < Z.of_nat (length (d_children dp)) ->
  count_inv b (upd σ x Reported) S (<[p := reported σ (d_children dp) + 1]> K) Q None.
Proof using Hsh Hinv Hdp Hin Hp.
  intros Hlt. pose proof Hxa as Hx. pose proof Hxp as Hne.
  pose proof Hinv as [HQ HN HA HB Hb HC HE HK HD HS]. constructor; [..|done].
  - intros y. unfold upd. case_decide; [|done]. subst. rewrite HQ. split; congruence.
  - done.
  - intros y. unfold upd. case_decide; [done|]. rewrite <-HA. naive_solver.
  - intros y. unfold upd. case_decide; [intros _; subst; apply HB; congruence|apply HB].
  - unfold upd. case_decide; [done|]. done.
  - intros y d c Hby Hd Hc. specialize (HC y d c Hby Hd Hc). unfold upd.
    assert (c <> y) by (intros ->; by eapply not_own_child).
    repeat case_decide; subst; try done.
    + by rewrite Hx in HC.
    + rewrite Hx in HC. destruct (σ y); naive_solver congruence.
  - intros y d. unfold upd at 1. case_decide; [done|]. intros Hy Hd. destruct (HE _ _ Hy Hd) as (? & ? & ?).
    destruct (decide (y = p)) as [->|Hyp].
    + simplify_eq. rewrite lookup_insert_eq, reported_after. done.
    + rewrite lookup_insert_ne, (reported_other _ _ Hd Hyp) by done. done.
  - intros y Hy. assert (y <> p) by (intros ->; rewrite upd_ne, Hp in Hy by done; naive_solver).
    rewrite lookup_insert_ne by done. apply HK. revert Hy. unfold upd. case_decide; naive_solver.
  - intros y. unfold upd. case_decide; [intros _; subst; apply HD; by right|apply HD].
Qed.

Lemma inv_report_up :
  reported σ (d_children dp) + 1 = Z.of_nat (length (d_children dp)) ->
  count_inv b (upd (upd σ x Reported) p Active) (<[p := sz p]> S)
    (<[p := reported σ (d_children dp) + 1]> K) Q (Some p).
Proof using Hsh Hinv Hdp Hin Hp.
  intros Hall. pose proof Hxa as Hx. pose proof Hxp as Hne.
  rewrite <-reported_after in Hall. pose proof (reported_all _ _ Hall) as Hrep.
  pose proof Hinv as [HQ HN HA HB Hb HC HE HK HD HS]. constructor.
  - intros y. unfold upd. repeat case_decide; subst; try done; rewrite HQ; split; congruence.
  - done.
  - intros y. unfold upd. repeat case_decide; subst; try done; naive_solver congruence.
  - intros y. unfold upd. repeat case_decide; [intros _; subst; apply HB; congruence..|apply HB].
  - unfold upd. repeat case_decide; done.
  - intros y d c Hby Hd Hc. specialize (HC y d c Hby Hd Hc).
    assert (Hcy : c <> y) by (intros ->; by eapply not_own_child).
    destruct (decide (y = p)) as [->|Hyp].
    + rewrite upd_eq, upd_ne by done. simplify_eq. right. by apply Hrep.
    + rewrite (upd_ne _ p Active y) by done. destruct (decide (y = x)) as [->|Hyx].
      * rewrite upd_eq. rewrite Hx in HC.
        destruct (decide (c = p)) as [->|Hcp]; [rewrite Hp in HC; naive_solver|].
        by rewrite !upd_ne.
      * rewrite (upd_ne _ x Reported y) by done. destruct (decide (c = p)) as [->|Hcp].
        { rewrite upd_eq. rewrite Hp in HC. destruct (σ y); naive_solver. }
        rewrite upd_ne by done. destruct (decide (c = x)) as [->|Hcx]; [|by rewrite upd_ne].
        rewrite upd_eq. rewrite Hx in HC. destruct (σ y); naive_solver.
  - intros y d Hy Hd. assert (Hyp : y <> p) by (intros ->; by rewrite upd_eq in Hy).
    rewrite upd_ne in Hy by done. assert (Hyx : y <> x) by (intros ->; by rewrite upd_eq in Hy).
    rewrite upd_ne in Hy by done. destruct (HE _ _ Hy Hd) as (? & ? & ?).
    rewrite !lookup_insert_ne by done.
    assert (reported (upd (upd σ x Reported) p Active) (d_children d) = reported σ (d_children d)) as ->; [|done].
    rewrite <-(reported_other _ _ Hd Hyp). apply reported_ext. intros c Hc.
    destruct (decide (c = p)) as [->|]; [|by rewrite upd_ne].
    rewrite upd_eq, upd_ne, Hp by done. naive_solver.
  - intros y Hy. assert (y <> p) by (intros ->; rewrite upd_eq in Hy; naive_solver).
    rewrite lookup_insert_ne by done. apply HK. rewrite upd_ne in Hy by done.
    revert Hy. unfold upd. case_decide; naive_solver.
  - intros y Hy. destruct (decide (y = p)) as [->|Hyp]; [by rewrite lookup_insert_eq|].
    rewrite lookup_insert_ne by done. rewrite upd_ne in Hy by done. revert Hy. unfold upd.
    case_decide; [intros _; subst; apply HD; by right|apply HD].
  - intros y n. destruct (decide (y = p)) as [->|Hyp].
    + rewrite lookup_insert_eq. intros [= <-]. split; [done|]. exists dp. split; [done|].
      intros c Hc. destruct (decide (c = p)) as [->|]; [by rewrite lookup_insert_eq|].
      rewrite lookup_insert_ne by done. specialize (Hrep c Hc). revert Hrep. unfold upd.
      case_decide; intros ?; apply HD; [subst; by right|by left].
    + rewrite lookup_insert_ne by done. intros Hn. destruct (HS _ _ Hn) as (-> & d & Hd & Hcs).
      split; [done|]. exists d. split; [done|]. intros c Hc.
      destruct (decide (c = p)) as [->|]; [by rewrite lookup_insert_eq|]. rewrite lookup_insert_ne by done. auto.
Qed.
End Report.

Lemma inv_expand b σ S K x d Q :
  count_inv b σ S K (x :: Q) None -> m !! x = Some d -> d_children d <> [] -> S !! x = None ->
  exists σ', count_inv b σ' S K (Q ++ d_children d) None.
Proof using Hsh.
  intros [HQ HN HA HB Hb HC HE HK HD HS] Hd Hnil HSx.
  assert (Hxq : σ x = Queued) by (apply HQ; left).
  apply NoDup_cons in HN as [HxQ HN].
  assert (Hunseen : forall c, c ∈ d_children d -> σ c = Unseen).
  { intros c Hc. specialize (HC x d c (HB x ltac:(congruence)) Hd Hc). by rewrite Hxq in HC. }
  assert (Hxc : x ∉ d_children d) by (by eapply not_own_child).
  set (σ' := fun y => if decide (y = x) then Expanded else if decide (y ∈ d_children d) then Queued else σ y).
  assert (Hsame : forall y, y <> x -> y ∉ d_children d -> σ' y = σ y).
  { intros y H1 H2. unfold σ'. by rewrite !decide_False. }
  assert (Hchild : forall c, c ∈ d_children d -> σ' c = Queued).
  { intros c Hc. unfold σ'. rewrite decide_False, decide_True; [done|done|]. by intros ->. }
  assert (Hx' : σ' x = Expanded) by (unfold σ'; by rewrite decide_True).
  assert (Hcases : forall y, y = x \/ y ∈ d_children d \/ (y <> x /\ y ∉ d_children d)).
  { intros y. destruct (decide (y = x)); [by left|]. destruct (decide (y ∈ d_children d)); auto. }
  assert (Hrep : forall l, reported σ' l = reported σ l).
  { intros l. apply reported_ext. intros c _. destruct (Hcases c) as [->|[Hc|[? ?]]].
    - rewrite Hx', Hxq. naive_solver.
    - rewrite (Hchild _ Hc), (Hunseen _ Hc). naive_solver.
    - by rewrite Hsame. }
  exists σ'. constructor; [..|done].
  - intros y. rewrite elem_of_app. destruct (Hcases y) as [->|[Hc|[H1 H2]]].
    + rewrite Hx'. naive_solver.
    + rewrite (Hchild _ Hc). naive_solver.
    + rewrite Hsame, <-HQ, elem_of_cons by done. naive_solver.
  - apply NoDup_app. split_and!; [done| |by eapply (sh_nodup _ _ Hsh)].
    intros y Hy Hc. assert (σ y = Queued) by (apply HQ; by right). rewrite (Hunseen _ Hc) in *. done.
  - intros y. destruct (Hcases y) as [->|[Hc|[H1 H2]]]; [by rewrite Hx'|by rewrite Hchild|].
    rewrite Hsame by done. apply HA.
  - intros y. destruct (Hcases y) as [->|[Hc|[H1 H2]]].
    + intros _. apply HB. congruence.
    + intros _. eapply chain_trans; [apply HB; rewrite Hxq; done|]. by eapply chain_child.
    + rewrite Hsame by done. apply HB.
  - destruct (Hcases b) as [->|[Hc|[H1 H2]]]; [by rewrite Hx'|by rewrite Hchild|by rewrite Hsame].
  - intros y dy c Hby Hy Hc. specialize (HC y dy c Hby Hy Hc).
    assert (Hcy : c <> y) by (intros ->; by eapply not_own_child).
    destruct (Hcases y) as [->|[Hyc|[H1 H2]]].
    + simplify_eq. rewrite Hx', Hchild; done.
    + rewrite (Hchild _ Hyc). rewrite (Hunseen _ Hyc) in HC.
      destruct (Hcases c) as [->|[Hcc|[? ?]]]; [congruence| |by rewrite Hsame].
      eapply (parent_unique y x) in Hcc; [|done..]. by subst.
    + rewrite (Hsame y) by done. destruct (Hcases c) as [->|[Hcc|[? ?]]]; [| |by rewrite Hsame].
      * rewrite Hx'. rewrite Hxq in HC. destruct (σ y); naive_solver congruence.
      * eapply (parent_unique y x) in Hcc; [|done..]. by subst.
  - intros y dy Hy Hdy. rewrite Hrep. destruct (Hcases y) as [->|[Hyc|[H1 H2]]].
    + simplify_eq. rewrite (HK x ltac:(by right)). cbn.
      rewrite reported_none by (intros c Hc; by rewrite Hunseen). destruct (d_children d); [done|]. cbn. split_and!; [done|done|lia].
    + by rewrite Hchild in Hy.
    + rewrite Hsame in Hy by done. by apply HE.
  - intros y Hy. destruct (Hcases y) as [->|[Hyc|[H1 H2]]]; [rewrite Hx' in Hy; naive_solver|apply HK; left; auto|].
    rewrite Hsame in Hy by done. by apply HK.
  - intros y Hy. destruct (Hcases y) as [->|[Hyc|[H1 H2]]]; [rewrite Hx' in Hy; naive_solver|rewrite Hchild in Hy by done; naive_solver|].
    rewrite Hsame in Hy by done. by apply HD.
Qed.

Lemma inv_set_leaf b σ S K Q act x d :
  count_inv b σ S K Q act -> σ x = Queued -> m !! x = Some d -> d_children d = [] ->
  count_inv b σ (<[x := sz x]> S) K Q act.
Proof using Hsh.
  intros [HQ HN HA HB Hb HC HE HK HD HS] Hx Hd Hnil. constructor; try done.
  - intros y dy Hy Hdy. rewrite lookup_insert_ne by congruence. by apply HE.
  - intros y Hy. destruct (decide (y = x)) as [->|]; [by rewrite lookup_insert_eq|].
    rewrite lookup_insert_ne by done. auto.
  - intros y n. destruct (decide (y = x)) as [->|].
    + rewrite lookup_insert_eq. intros [= <-]. split; [done|]. exists d. split; [done|].
      rewrite Hnil. by intros c ?%elem_of_nil.
    + rewrite lookup_insert_ne by done. intros Hn. destruct (HS _ _ Hn) as (-> & dy & Hdy & Hcs).
      split; [done|]. exists dy. split; [done|]. intros c Hc.
      destruct (decide (c = x)) as [->|]; [by rewrite lookup_insert_eq|]. rewrite lookup_insert_ne by done. auto.
Qed.

(** With an empty queue everything below the block has reported. *)
Lemma inv_empty_done b σ S K : count_inv b σ S K [] None -> σ b = Reported.
Proof using Hsh.
  intros [HQ HN HA HB Hb HC HE HK HD HS].
  assert (Hno : forall x d, m !! x = Some d -> σ x <> Expanded).
  { intros x d Hd. assert (exists n, max_height m - d_height d < Z.of_nat n) as [n Hn].
    { exists (Datatypes.S (Z.to_nat (max_height m - d_height d))). lia. }
    revert x d Hd Hn. induction n as [|n IH]; intros x d Hd Hn Hx.
    { pose proof (max_height_ub _ _ _ Hd). lia. }
    destruct (HE _ _ Hx Hd) as (_ & _ & Hlt).
    assert (exists c, c ∈ d_children d /\ σ c <> Reported) as (c & Hc & Hcr).
    { destruct (decide (Exists (fun c => σ c <> Reported) (d_children d))) as [He|He].
      - by apply Exists_exists in He.
      - apply not_Exists_Forall in He; [|apply _]. exfalso.
        assert (reported σ (d_children d) = Z.of_nat (length (d_children d))); [|lia].
        apply reported_full. intros c Hc. rewrite Forall_forall in He. specialize (He c Hc).
        by destruct (decide (σ c = Reported)). }
    destruct (sh_child _ _ Hsh _ _ _ Hd Hc) as (dc & Hdc & _).
    pose proof (child_height _ _ Hsh _ _ _ _ Hd Hc Hdc).
    apply (IH c dc Hdc); [lia|]. specialize (HC x d c (HB x ltac:(congruence)) Hd Hc). rewrite Hx in HC.
    destruct (σ c) eqn:Hsc; try done.
    - apply HQ in Hsc. by apply elem_of_nil in Hsc.
    - apply HA in Hsc. done. }
  destruct (chain_in_r _ _ _ (HB b Hb)) as [d Hd]. specialize (Hno b d Hd).
  destruct (σ b) eqn:Hsb; try done.
  - apply HQ in Hsb. by apply elem_of_nil in Hsb.
  - apply HA in Hsb. done.
Qed.

Lemma mapM_sizes (c : ReindexCtx MemoryReachabilityStore) l :
  good_sizes (ctx_sizes c) -> (forall x, x ∈ l -> is_Some (ctx_sizes c !! x)) ->
  mapM_out (ctx_size_of c) l = Ok (sz <$> l).
Proof using.
  intros Hg. induction l as [|x l IH]; intros Hl; cbn; [done|].
  unfold ctx_size_of at 1. rewrite (good_sizes_lookup _ _ Hg (Hl x ltac:(left))). cbn.
  rewrite IH; [done|]. intros. apply Hl. by right.
Qed.

Lemma push_up_spec n b σ (c : ReindexCtx MemoryReachabilityStore) K Q x :
  ctx_store c = s -> count_inv b σ (ctx_sizes c) K Q (Some x) -> sz b < U64 -> sz b - sz x < Z.of_nat n ->
  exists c' K' σ', push_up n c K b x = Ok (c', K') /\ ctx_store c' = s /\ ctx_slack c' = ctx_slack c /\
    ctx_sizes c ⊆ ctx_sizes c' /\ count_inv b σ' (ctx_sizes c') K' Q None.
Proof using Hsh Hsz.
  revert σ c K x. induction n as [|n IH]; intros σ c K x Hst Hinv Hb Hn.
  { assert (sz x <= sz b); [|lia]. apply (sz_chain _ _ Hsh _ Hsz). apply (ci_below _ _ _ _ _ _ Hinv).
    pose proof (proj1 (ci_active _ _ _ _ _ _ Hinv x) eq_refl). congruence. }
  cbn [push_up]. case_decide as Hxb.
  { subst x. do 3 eexists. split_and!; [done..|]. by apply inv_finish. }
  pose proof (proj1 (ci_active _ _ _ _ _ _ Hinv x) eq_refl) as Hxa.
  destruct (chain_in_r _ _ _ (ci_below _ _ _ _ _ _ Hinv x ltac:(congruence))) as [dx Hdx].
  destruct (parent_expanded _ _ _ _ _ _ _ _ Hinv Hxb ltac:(auto) Hdx) as (dp & Hdp & Hin & Hpe & Hxp).
  rewrite Hst, (get_parent_mem _ _ _ Hdx). cbn [obind].
  rewrite (get_children_mem _ _ _ Hdp). cbn [obind].
  destruct (ci_expanded _ _ _ _ _ _ Hinv _ _ Hpe Hdp) as (HSp & Hcount & Hlt).
  rewrite Hcount.
  assert (Hpb : sz (d_parent dx) <= sz b).
  { apply (sz_chain _ _ Hsh _ Hsz). apply (ci_below _ _ _ _ _ _ Hinv). congruence. }
  pose proof (children_length _ _ Hsh _ Hsz _ _ Hdp).
  rewrite uadd_lt by lia. cbn [obind].
  destruct (Z.ltb_spec (reported σ (d_children dp) + 1) (Z.of_nat (length (d_children dp)))) as [Hw|Hw].
  { do 3 eexists. split_and!; [done..|]. by eapply inv_report_wait. }
  pose proof (inv_report_up _ _ _ _ _ _ _ _ Hinv Hdp Hin Hpe ltac:(lia)) as Hinv'.
  rewrite mapM_sizes; [|apply (ci_sizes _ _ _ _ _ _ Hinv)|].
  2: { intros y Hy. assert (Hyp : y <> d_parent dx) by (intros ->; by eapply not_own_child).
       destruct (ci_sizes _ _ _ _ _ _ Hinv' (d_parent dx) (sz (d_parent dx))) as (_ & d' & Hd' & Hcs);
         [by rewrite lookup_insert_eq|].
       simplify_eq. specialize (Hcs y Hy). by rewrite lookup_insert_ne in Hcs. }
  cbn [obind]. pose proof (Hsz _ _ Hdp) as Hszp.
  rewrite sum64_spec; [|by eapply children_sz_nonneg|lia]. cbn [obind].
  rewrite uadd_lt by lia. cbn [obind].
  replace (zsum (sz <$> d_children dp) + 1) with (sz (d_parent dx)).
  destruct (IH _ (ctx_set_size c (d_parent dx) (sz (d_parent dx))) _ _ Hst Hinv' Hb)
    as (c' & K' & σ' & Hp & Hst' & Hsl' & Hsub & Hinv'').
  { pose proof (sz_child _ _ Hsh _ Hsz _ _ _ Hdp Hin). lia. }
  exists c', K', σ'. split_and!; [done|done|done| |done].
  etransitivity; [|exact Hsub]. cbn. by apply insert_subseteq.
Qed.

Context (fuel : nat).

Lemma count_loop_spec n b σ (c : ReindexCtx MemoryReachabilityStore) K Q :
  ctx_store c = s -> count_inv b σ (ctx_sizes c) K Q None -> sz b < U64 -> sz b < Z.of_nat fuel ->
  zsum (sz <$> Q) <= Z.of_nat n ->
  exists c', count_loop fuel n c K b Q = Ok c' /\ ctx_store c' = s /\ ctx_slack c' = ctx_slack c /\
    ctx_sizes c ⊆ ctx_sizes c' /\ good_sizes (ctx_sizes c') /\ is_Some (ctx_sizes c' !! b).
Proof using Hsh Hsz.
  revert σ c K Q. induction n as [|n IH]; intros σ c K Q Hst Hinv Hb Hf Hpot.
  all: destruct Q as [|x Q].
  1, 3: destruct Hinv as [? ? ? ? ? ? ? ? HD HS] eqn:Heq; clear Heq;
    exists c; split_and!; [done..|]; apply HD; left; by eapply inv_empty_done.
  all: assert (Hxq : σ x = Queued) by (apply (ci_queue _ _ _ _ _ _ Hinv); left);
    assert (Hbx : chain_anc m b x) by (apply (ci_below _ _ _ _ _ _ Hinv); congruence);
    destruct (chain_in_r _ _ _ Hbx) as [d Hd];
    pose proof (sz_pos _ _ Hsh _ Hsz x ltac:(eauto)) as Hpos;
    assert (HQ0 : Forall (fun z => 0 <= z) (sz <$> Q))
      by (apply Forall_fmap, Forall_forall; intros y Hy; cbn;
          assert (Hby : chain_anc m b y) by (apply (ci_below _ _ _ _ _ _ Hinv);
            rewrite (proj1 (ci_queue _ _ _ _ _ _ Hinv y) ltac:(by right)); done);
          pose proof (sz_pos _ _ Hsh _ Hsz y (chain_in_r _ _ _ Hby)); lia);
    pose proof (zsum_nonneg _ HQ0); cbn [zsum fmap list_fmap] in Hpot.
  { cbn in Hpot. lia. }
  cbn [count_loop]. rewrite Hst, (get_children_mem _ _ _ Hd). cbn [obind].
  assert (Hpush : forall (c0 : ReindexCtx MemoryReachabilityStore), ctx_store c0 = s -> ctx_slack c0 = ctx_slack c ->
     ctx_sizes c ⊆ ctx_sizes c0 -> count_inv b σ (ctx_sizes c0) K (x :: Q) None ->
     is_Some (ctx_sizes c0 !! x) ->
     exists c', (let! ' (c', counts') := push_up fuel c0 K b x in count_loop fuel n c' counts' b Q) = Ok c' /\
       ctx_store c' = s /\ ctx_slack c' = ctx_slack c /\
       ctx_sizes c ⊆ ctx_sizes c' /\ good_sizes (ctx_sizes c') /\ is_Some (ctx_sizes c' !! b)).
  { intros c0 Hst0 Hsl0 Hsub0 Hinv0 Hx0.
    destruct (push_up_spec fuel b _ c0 K Q x Hst0 (inv_activate _ _ _ _ _ _ Hinv0 (ci_sizes _ _ _ _ _ _ Hinv0) Hx0) Hb)
      as (c1 & K1 & σ1 & -> & Hst1 & Hsl1 & Hsub1 & Hinv1); [lia|].
    cbn [obind]. destruct (IH σ1 c1 K1 Q Hst1 Hinv1 Hb Hf) as (c' & -> & ? & ? & ? & ? & ?); [lia|].
    exists c'. split_and!; [done|done|congruence| |done|done]. by do 2 (etransitivity; [eassumption|]). }
  destruct (d_children d) as [|y l] eqn:Hch.
  - apply Hpush; [done|done| | |].
    + cbn. assert (Hs1 : sz x = 1) by (rewrite (Hsz _ _ Hd), Hch; done).
      destruct (ctx_sizes c !! x) eqn:Hcx; [|by apply insert_subseteq].
      rewrite insert_id; [done|]. destruct (ci_sizes _ _ _ _ _ _ Hinv _ _ Hcx) as [-> _]. congruence.
    + cbn. replace 1 with (sz x) by (rewrite (Hsz _ _ Hd), Hch; done). by eapply inv_set_leaf.
    + cbn. by rewrite lookup_insert_eq.
  - destruct (ctx_sizes c !! x) as [k|] eqn:Hcx.
    + apply Hpush; [done..|]. by rewrite Hcx.
    + rewrite <-Hch. destruct (inv_expand _ _ _ _ _ _ _ Hinv Hd) as [σ' Hinv']; [congruence|done|].
      destruct (IH σ' c K _ Hst Hinv' Hb Hf) as (c' & -> & ? & ? & ? & ? & ?).
      { rewrite fmap_app, zsum_app. pose proof (Hsz _ _ Hd). lia. }
      exists c'. done.
Qed.

(** [count_subtrees] succeeds and its cache holds the recursive sizes. *)
Lemma count_subtrees_spec (c : ReindexCtx MemoryReachabilityStore) b :
  ctx_store c = s -> good_sizes (ctx_sizes c) -> is_Some (m !! b) ->
  sz b < U64 -> sz b < Z.of_nat fuel ->
  exists c', count_subtrees fuel c b = Ok c' /\ ctx_store c' = s /\ ctx_slack c' = ctx_slack c /\
    ctx_sizes c ⊆ ctx_sizes c' /\ good_sizes (ctx_sizes c') /\ ctx_sizes c' !! b = Some (sz b).
Proof using Hsh Hsz.
  intros Hst Hg [d Hd] Hb Hf. unfold count_subtrees. destruct (ctx_sizes c !! b) as [k|] eqn:Hcb.
  { exists c. split_and!; [done..|]. apply good_sizes_lookup; [done|]. by rewrite Hcb. }
  destruct (count_loop_spec fuel b (fun x => if decide (x = b) then Queued else Unseen) c ∅ [b])
    as (c' & -> & ? & ? & ? & Hg' & Hcb'); [done| |done|done|cbn; lia|].
  - constructor; [..|done].
    + intros x. rewrite list_elem_of_singleton. case_decide; naive_solver.
    + apply NoDup_singleton.
    + intros x. case_decide; naive_solver.
    + intros x. case_decide; [subst; intros _; by econstructor|done].
    + by rewrite decide_True.
    + intros x dx y Hbx Hx Hy.
      assert (Hyb : y <> b).
      { intros ->. pose proof (chain_child _ _ Hsh _ _ _ Hx Hy) as Hxb.
        pose proof (chain_antisym _ _ Hsh _ _ Hbx Hxb) as ->. by eapply not_own_child. }
      repeat case_decide; done.
    + intros x dx Hx. by case_decide.
    + intros x _. apply lookup_empty.
    + intros x. case_decide; naive_solver.
  - exists c'. split_and!; try done. by apply good_sizes_lookup.
Qed.
End Count.
