(* ===== verification/ReachabilityPropagate.v ===== *)
(** * Propagating intervals

    [propagate_interval] of reindex.rs reallocates the intervals strictly below a
    block whose interval is at least as large as its subtree: afterwards every
    block of the subtree is well placed, nothing else has changed, and the tree
    itself is the same. *)

From Stdlib Require Import ZArith Lia Bool.
From stdpp Require Import base gmap numbers list sorting.
From S2P Require Import Prelude Interval ReachabilityStore ReachabilityQueries ReachabilityTree ReachabilityReindex ReachabilityCount.

#[local] Open Scope Z_scope.

(** ** What reindexing never changes *)

Definition skel (d : MemoryReachabilityData) : list N * N * Z * list N :=
  (d_children d, d_parent d, d_height d, d_fcs d).

Definition same_skel (m m' : nodes) : Prop := forall h, skel <$> m !! h = skel <$> m' !! h.

#[export] Instance same_skel_equiv : Equivalence same_skel.
Proof.
  split; [by intros m h|by intros m m' H h|]. intros m1 m2 m3 H1 H2 h. by rewrite H1.
Qed.

Lemma same_skel_lookup m m' h d :
  same_skel m m' -> m !! h = Some d -> exists d', m' !! h = Some d' /\
    d_children d' = d_children d /\ d_parent d' = d_parent d /\ d_height d' = d_height d /\ d_fcs d' = d_fcs d.
Proof.
  intros H Hd. specialize (H h). rewrite Hd in H. cbn in H.
  destruct (m' !! h) as [d'|]; [|done]. cbn in H. injection H as H. unfold skel in H. naive_solver.
Qed.

Lemma same_skel_is_Some m m' h : same_skel m m' -> is_Some (m !! h) <-> is_Some (m' !! h).
Proof.
  intros H. specialize (H h). destruct (m !! h), (m' !! h); by cbn in H.
Qed.

Lemma same_skel_links m m' : same_skel m m' -> same_links m m'.
Proof.
  intros H h. specialize (H h). unfold skel, links in *.
  destruct (m !! h), (m' !! h); cbn in *; congruence.
Qed.

Lemma chain_skel m m' a b : same_skel m m' -> chain_anc m a b -> chain_anc m' a b.
Proof. intros H. by apply chain_links, same_skel_links. Qed.

Lemma shape_skel m m' root : same_skel m m' -> shape m root -> shape m' root.
Proof. intros H. by apply shape_links, same_skel_links. Qed.

Lemma sizes_of_skel m m' sz : same_skel m m' -> sizes_of m sz -> sizes_of m' sz.
Proof.
  intros Hs Hsz h d' Hd'. destruct (same_skel_lookup m' m _ _ (symmetry Hs) Hd') as (d & Hd & Hch & _).
  rewrite <-Hch. auto.
Qed.

Lemma good_sizes_skel s s' sz S :
  same_skel (m_map s) (m_map s') -> good_sizes s sz S -> good_sizes s' sz S.
Proof.
  intros Hs Hg h n Hn. destruct (Hg h n Hn) as (-> & d & Hd & Hcs). split; [done|].
  destruct (same_skel_lookup _ _ _ _ Hs Hd) as (d' & Hd' & Hch & _). exists d'. by rewrite Hch.
Qed.

(** ** Setting the intervals of several blocks *)

Definition set_ivs (m : nodes) (l : list (N * Interval)) : nodes :=
  foldl (fun m p => alter (fun d => with_interval d p.2) p.1 m) m l.

Lemma set_ivs_skel m l : same_skel m (set_ivs m l).
Proof.
  revert m. induction l as [|[h i] l IH]; intros m; cbn; [done|].
  etransitivity; [|apply IH]. intros y. rewrite lookup_alter. case_decide; [subst|done].
  by destruct (m !! y).
Qed.

Lemma set_ivs_ne m l h : h ∉ l.*1 -> set_ivs m l !! h = m !! h.
Proof.
  revert m. induction l as [|[x i] l IH]; intros m Hh; cbn; [done|].
  cbn in Hh. rewrite not_elem_of_cons in Hh. rewrite IH by naive_solver.
  apply lookup_alter_ne. naive_solver.
Qed.

Lemma set_ivs_eq m l h i d :
  NoDup l.*1 -> (h, i) ∈ l -> m !! h = Some d -> set_ivs m l !! h = Some (with_interval d i).
Proof.
  revert m. induction l as [|[x j] l IH]; intros m Hnd Hin Hd; [by apply elem_of_nil in Hin|].
  cbn in *. apply NoDup_cons in Hnd as [Hx Hnd]. apply elem_of_cons in Hin as [[= <- <-]|Hin].
  - rewrite set_ivs_ne by done. by rewrite lookup_alter_eq, Hd.
  - apply IH; [done|done|]. rewrite lookup_alter_ne; [done|]. intros ->. destruct Hx.
    apply list_elem_of_fmap. by exists (h, i).
Qed.

Lemma set_intervals_mem (s : MemoryReachabilityStore) l :
  (forall h, h ∈ l.*1 -> is_Some (m_map s !! h)) ->
  set_intervals s l = Ok (mk_mem (set_ivs (m_map s) l) (m_reindex_root s)).
Proof.
  unfold set_intervals. revert s. induction l as [|[h i] l IH]; intros s Hl; cbn [foldM_out].
  - by destruct s.
  - destruct (Hl h) as [d Hd]; [by left|]. rewrite (set_interval_mem _ _ _ Hd). cbn [obind].
    rewrite IH.
    + f_equal. unfold mem_put. cbn. do 2 f_equal. apply map_eq. intros y.
      rewrite lookup_alter, lookup_insert. case_decide; [subst; by rewrite Hd|done].
    + intros y Hy. unfold mem_put. cbn. rewrite lookup_insert. case_decide; [eauto|]. apply Hl. by right.
Qed.

Lemma contiguous_ordered m s cs parts e :
  contiguous s parts e -> Forall2 (fun c p => exists d, m !! c = Some d /\ d_interval d = p) cs parts ->
  ordered_in m s cs e.
Proof.
  intros Hc H. revert s Hc. induction H as [|c p cs parts (d & Hd & Hp) H IH]; intros s Hc; cbn in *.
  - lia.
  - destruct Hc as (? & ? & Hc). exists d. rewrite Hp. split_and!; [done|lia|lia|auto].
Qed.

Section Propagate.
Context (root : N) (sz : N -> Z).
Implicit Types (c : ReindexCtx MemoryReachabilityStore).

(** A block has room for its whole subtree. *)
Definition roomy (m : nodes) (h : N) : Prop :=
  exists d, m !! h = Some d /\ iv_ok (d_interval d) /\ sz h <= iv_len (d_interval d).

Lemma split_children_intervals s x d S :
  shape (m_map s) root -> sizes_of (m_map s) sz -> good_sizes s sz S -> is_Some (S !! x) ->
  m_map s !! x = Some d -> d_children d <> [] -> iv_ok (d_interval d) -> sz x <= iv_len (d_interval d) ->
  exists parts, let cap := interval_new (iv_start (d_interval d)) (iv_end (d_interval d) - 1) in
    interval_children_capacity s x = Ok cap /\
    interval_split_exponential (E := ReachabilityError) cap (sz <$> d_children d) = Ok parts /\
    contiguous (iv_start (d_interval d)) parts (iv_end (d_interval d) - 1) /\
    Forall2 (fun y p => iv_ok p /\ sz y <= iv_len p) (d_children d) parts.
Proof using.
  intros Hsh Hsz Hg Hx Hd Hne Hiv Hroom.
  pose proof (children_sz_nonneg _ _ Hsh _ Hsz _ _ Hd) as Hnn.
  pose proof (children_length _ _ Hsh _ Hsz _ _ Hd) as Hlen.
  pose proof (Hsz _ _ Hd) as Hszx. unfold iv_ok, iv_len in *.
  assert (Hpos : 0 < zsum (sz <$> d_children d)) by (destruct (d_children d); [done|cbn in *; lia]).
  set (cap := interval_new (iv_start (d_interval d)) (iv_end (d_interval d) - 1)).
  destruct (@split_exponential_ok ReachabilityError cap (sz <$> d_children d)) as (parts & Hp & Hc & Hf).
  { unfold iv_ok, cap. cbn. lia. }
  { done. }
  { unfold iv_len, cap. cbn. lia. }
  exists parts. cbv zeta. split_and!; [|done|done|].
  - unfold interval_children_capacity. rewrite (get_interval_mem _ _ _ Hd). cbn [obind].
    unfold interval_decrease_end. rewrite usub_le by lia. done.
  - rewrite Forall2_fmap_l in Hf. apply Forall2_same_length_lookup.
    pose proof (Forall2_length _ _ _ Hf) as Hl. split; [done|]. intros i y p Hy Hpi.
    rewrite Forall2_same_length_lookup in Hf. destruct Hf as [_ Hf].
    pose proof (Hf i y p Hy Hpi). cbn in *.
    apply list_elem_of_lookup_2 in Hpi. pose proof (contiguous_elem _ _ _ _ Hc Hpi).
    unfold cap in *. cbn in *. unfold iv_len in *. lia.
Qed.

Lemma propagate_step s x d S :
  shape (m_map s) root -> sizes_of (m_map s) sz -> good_sizes s sz S -> is_Some (S !! x) ->
  m_map s !! x = Some d -> d_children d <> [] -> iv_ok (d_interval d) -> sz x <= iv_len (d_interval d) ->
  exists cap parts m1, interval_children_capacity s x = Ok cap /\
    interval_split_exponential (E := ReachabilityError) cap (sz <$> d_children d) = Ok parts /\
    set_intervals s (zip (d_children d) parts) = Ok (mk_mem m1 (m_reindex_root s)) /\
    same_skel (m_map s) m1 /\ (forall y, y ∉ d_children d -> m1 !! y = m_map s !! y) /\
    (forall y, y ∈ d_children d -> roomy m1 y) /\
    ordered_in m1 (iv_start (d_interval d)) (d_children d) (iv_end (d_interval d) - 1).
Proof using.
  intros Hsh Hsz Hg Hx Hd Hne Hiv Hroom.
  destruct (split_children_intervals _ _ _ _ Hsh Hsz Hg Hx Hd Hne Hiv Hroom)
    as (parts & Hcap & Hsplit & Hcont & Hf). cbv zeta in *.
  pose proof (Forall2_length _ _ _ Hf) as Hl.
  assert (Hfst : (zip (d_children d) parts).*1 = d_children d) by (apply fst_zip; lia).
  assert (Hnd : NoDup (zip (d_children d) parts).*1) by (rewrite Hfst; by eapply sh_nodup).
  assert (Hset : Forall2 (fun y p => exists d', set_ivs (m_map s) (zip (d_children d) parts) !! y = Some d' /\
             d_interval d' = p) (d_children d) parts).
  { apply Forall2_same_length_lookup. split; [done|]. intros i y p Hy Hp.
    destruct (sh_child _ _ Hsh _ _ _ Hd (list_elem_of_lookup_2 _ _ _ Hy)) as (dy & Hdy & _).
    exists (with_interval dy p). split; [|done]. apply set_ivs_eq; [done| |done].
    apply (list_elem_of_lookup_2 _ i). apply lookup_zip_with_Some. eauto. }
  do 3 eexists. split_and!; [done|done| | | | |].
  - apply set_intervals_mem. rewrite Hfst. intros h Hh.
    destruct (sh_child _ _ Hsh _ _ _ Hd Hh) as (dy & Hdy & _). eauto.
  - apply set_ivs_skel.
  - intros y Hy. apply set_ivs_ne. by rewrite Hfst.
  - intros y [i Hi]%list_elem_of_lookup. destruct (Forall2_lookup_l _ _ _ _ _ Hf Hi) as (p & Hp & ? & ?).
    rewrite Forall2_same_length_lookup in Hset. destruct Hset as [_ Hset].
    destruct (Hset i y p Hi Hp) as (d' & Hd' & Hiv'). exists d'. rewrite Hiv'. done.
  - by eapply contiguous_ordered.
Qed.

(** [y] is at or below one of the blocks of [Q]; strictly below. *)
Definition under (m : nodes) (Q : list N) (y : N) : Prop := exists q, q ∈ Q /\ chain_anc m q y.
Definition strictly_under (m : nodes) (Q : list N) (y : N) : Prop :=
  exists q, q ∈ Q /\ chain_anc m q y /\ q <> y.

Lemma under_expand m x d Q y :
  shape m root -> m !! x = Some d -> under m (x :: Q) y -> y = x \/ under m (Q ++ d_children d) y.
Proof using.
  intros Hsh Hd (q & Hq & Hqy). apply elem_of_cons in Hq as [->|Hq].
  - destruct (decide (x = y)) as [->|Hne]; [by left|]. right.
    destruct (chain_first_child _ _ Hsh _ _ _ Hqy Hne Hd) as (c & Hc & Hcy).
    exists c. split; [|done]. apply elem_of_app. by right.
  - right. exists q. split; [|done]. apply elem_of_app. by left.
Qed.

Lemma strictly_under_shrink m x d Q y :
  shape m root -> m !! x = Some d -> strictly_under m (Q ++ d_children d) y -> strictly_under m (x :: Q) y.
Proof using.
  intros Hsh Hd (q & Hq & Hqy & Hne). apply elem_of_app in Hq as [Hq|Hq].
  - exists q. split_and!; [by right|done..].
  - pose proof (chain_child _ _ Hsh _ _ _ Hd Hq) as Hxq. exists x. split_and!; [by left|by eapply chain_trans|].
    intros ->. apply Hne. by eapply chain_antisym.
Qed.

Lemma child_not_strictly_under m x d Q y :
  shape m root -> m !! x = Some d -> y ∈ d_children d -> ~ under m Q x ->
  ~ strictly_under m (Q ++ d_children d) y.
Proof using.
  intros Hsh Hd Hc Hx (q & Hq & Hqc & Hne).
  destruct (sh_child _ _ Hsh _ _ _ Hd Hc) as (dc & Hdc & Hpc).
  assert (Hqx : chain_anc m q x) by (inversion Hqc; congruence).
  apply elem_of_app in Hq as [Hq|Hq]; [by apply Hx; exists q|].
  pose proof (chain_child _ _ Hsh _ _ _ Hd Hq) as Hxq.
  pose proof (chain_antisym _ _ Hsh _ _ Hqx Hxq). subst q.
  pose proof (child_height _ _ Hsh _ _ _ _ Hd Hq Hd). lia.
Qed.

Lemma under_dec m Q x : shape m root -> is_Some (m !! x) -> under m Q x \/ ~ under m Q x.
Proof using.
  intros Hsh Hx. induction Q as [|q Q IH].
  - right. intros (q & Hq & _). by apply elem_of_nil in Hq.
  - destruct (chain_dec _ _ Hsh q x Hx) as [Hq|Hq]; [left; exists q; split; [left|done]|].
    destruct IH as [(q' & ? & ?)|IH]; [left; exists q'; split; [by right|done]|].
    right. intros (q' & [->|Hq']%elem_of_cons & ?); [done|]. apply IH. by exists q'.
Qed.

Lemma under_skel m m' Q y : same_skel m m' -> under m Q y -> under m' Q y.
Proof using. intros Hs (q & ? & ?). exists q. split; [done|]. by eapply chain_skel. Qed.

Lemma strictly_under_skel m m' Q y : same_skel m m' -> strictly_under m Q y -> strictly_under m' Q y.
Proof using. intros Hs (q & ? & ? & ?). exists q. split_and!; [done| |done]. by eapply chain_skel. Qed.

(** What the rest of the traversal leaves behind, given what one step did. *)
Lemma propagate_finish m m1 m' x d Q :
  shape m root -> same_skel m m1 -> m !! x = Some d -> iv_ok (d_interval d) -> 1 <= iv_len (d_interval d) ->
  (forall y, y ∉ d_children d -> m1 !! y = m !! y) ->
  ordered_in m1 (iv_start (d_interval d)) (d_children d) (iv_end (d_interval d) - 1) ->
  (forall y, ~ strictly_under m1 (Q ++ d_children d) y -> m' !! y = m1 !! y) ->
  (forall y, under m1 (Q ++ d_children d) y -> local_ok m' y) ->
  (forall y, ~ strictly_under m (x :: Q) y -> m' !! y = m !! y) /\
  (forall y, under m (x :: Q) y -> local_ok m' y).
Proof using.
  intros Hsh Hsk Hd Hiv Hlen Hsame Hord Hun Hloc. assert (Hsk' : same_skel m1 m) by done.
  assert (Hxx : x ∉ d_children d).
  { intros Hin. pose proof (child_height _ _ Hsh _ _ _ _ Hd Hin Hd). lia. }
  split; intros y Hy.
  - rewrite Hun; [apply Hsame|]; intros Hc; apply Hy.
    + exists x. split_and!; [by left|by eapply chain_child|by intros ->].
    + eapply strictly_under_shrink; [done..|]. by eapply strictly_under_skel.
  - destruct (under_expand _ _ _ _ _ Hsh Hd Hy) as [->|Hu]; [|apply Hloc; by eapply under_skel].
    destruct (under_dec m Q x Hsh ltac:(eauto)) as [(q & Hq & Hqx)|Hn].
    { apply Hloc. eapply under_skel; [done|]. exists q. split; [|done]. apply elem_of_app. by left. }
    exists d. split_and!; [|done|done|].
    + rewrite Hun; [by rewrite Hsame|]. intros (q & Hq & Hqx & Hne)%(strictly_under_skel _ _ _ _ Hsk').
      apply elem_of_app in Hq as [Hq|Hq]; [apply Hn; by exists q|].
      pose proof (chain_child _ _ Hsh _ _ _ Hd Hq) as Hxq. apply Hne. by eapply chain_antisym.
    + eapply ordered_in_ext; [|exact Hord]. intros z Hz. symmetry. f_equal. apply Hun.
      intros Hsu%(strictly_under_skel _ _ _ _ Hsk'). by eapply child_not_strictly_under in Hsu.
Qed.

Lemma propagate_loop_spec n c Q :
  shape (m_map (ctx_store c)) root -> sizes_of (m_map (ctx_store c)) sz ->
  good_sizes (ctx_store c) sz (ctx_sizes c) ->
  (forall q, q ∈ Q -> is_Some (ctx_sizes c !! q) /\ roomy (m_map (ctx_store c)) q) ->
  zsum (sz <$> Q) <= Z.of_nat n ->
  exists m', propagate_loop n c Q = Ok (ctx_with_store c (mk_mem m' (m_reindex_root (ctx_store c)))) /\
    same_skel (m_map (ctx_store c)) m' /\
    (forall y, ~ strictly_under (m_map (ctx_store c)) Q y -> m' !! y = m_map (ctx_store c) !! y) /\
    (forall y, under (m_map (ctx_store c)) Q y -> local_ok m' y).
Proof using.
  revert c Q. induction n as [|n IH]; intros c Q Hsh Hsz Hg HQ Hpot.
  all: destruct Q as [|x Q].
  1, 3: exists (m_map (ctx_store c)); split_and!; [by destruct c as [[] ?]|done|done|
    intros y (q & Hq & _); by apply elem_of_nil in Hq].
  all: destruct (HQ x ltac:(left)) as [HSx (d & Hd & Hiv & Hroom)];
    pose proof (sz_pos _ _ Hsh _ Hsz x ltac:(eauto)) as Hpos;
    assert (HQ0 : Forall (fun z => 0 <= z) (sz <$> Q))
      by (apply Forall_fmap, Forall_forall; intros y Hy; cbn;
          destruct (HQ y ltac:(by right)) as [_ (dy & Hdy & _)];
          pose proof (sz_pos _ _ Hsh _ Hsz y ltac:(eauto)); lia);
    pose proof (zsum_nonneg _ HQ0); cbn [zsum fmap list_fmap] in Hpot.
  { cbn in Hpot. lia. }
  cbn [propagate_loop]. rewrite (get_children_mem _ _ _ Hd). cbn [obind].
  destruct (decide (d_children d = [])) as [Hnil|Hne].
  - rewrite Hnil. destruct (IH c Q Hsh Hsz Hg) as (m' & -> & Hsk & Hun & Hloc); [|lia|].
    { intros q Hq. apply HQ. by right. }
    exists m'. split; [done|]. split; [done|].
    apply (propagate_finish _ (m_map (ctx_store c)) _ _ _ _ Hsh ltac:(done) Hd Hiv); [lia|done| | |];
      rewrite Hnil, ?app_nil_r; [unfold iv_ok, iv_len in *; cbn; lia|done|done].
  - destruct (propagate_step _ _ _ _ Hsh Hsz Hg HSx Hd Hne Hiv Hroom)
      as (cap & parts & m1 & Hcap & Hsplit & Hset & Hsk & Hsame & Hroom1 & Hord).
    assert (Hkids : forall y, y ∈ d_children d -> is_Some (ctx_sizes c !! y)).
    { destruct HSx as [k Hk]. destruct (Hg _ _ Hk) as (_ & d' & ? & ?). by simplify_eq. }
    destruct (d_children d) as [|y0 l0] eqn:Hch; [done|]. rewrite <-Hch in *.
    rewrite (mapM_sizes _ _ _ _ Hg Hkids). cbn [obind]. rewrite Hcap. cbn [obind].
    rewrite Hsplit. cbn [obind]. rewrite Hset. cbn [obind].
    set (c1 := ctx_with_store c (mk_mem m1 (m_reindex_root (ctx_store c)))).
    destruct (IH c1 (Q ++ d_children d)) as (m' & -> & Hsk' & Hun & Hloc).
    + by eapply shape_skel.
    + by eapply sizes_of_skel.
    + eapply (good_sizes_skel (ctx_store c)); done.
    + intros q [Hq|Hq]%elem_of_app; [|split; [by apply Hkids|by apply Hroom1]].
      destruct (HQ q ltac:(by right)) as [? Hr]. split; [done|].
      destruct (decide (q ∈ d_children d)); [by apply Hroom1|]. unfold roomy. cbn. by rewrite Hsame.
    + rewrite fmap_app, zsum_app. pose proof (Hsz _ _ Hd). lia.
    + exists m'. split; [done|]. split; [by etransitivity|].
      by apply (propagate_finish _ m1 _ _ _ _ Hsh Hsk Hd Hiv ltac:(lia) Hsame Hord).
Qed.

Context (fuel : nat).

(** [propagate_interval] on a block with room for its subtree. *)
Lemma propagate_interval_spec c b :
  shape (m_map (ctx_store c)) root -> sizes_of (m_map (ctx_store c)) sz ->
  good_sizes (ctx_store c) sz (ctx_sizes c) -> roomy (m_map (ctx_store c)) b ->
  sz b < U64 -> sz b < Z.of_nat fuel ->
  exists c', propagate_interval fuel c b = Ok c' /\
    m_reindex_root (ctx_store c') = m_reindex_root (ctx_store c) /\ ctx_slack c' = ctx_slack c /\
    same_skel (m_map (ctx_store c)) (m_map (ctx_store c')) /\
    good_sizes (ctx_store c') sz (ctx_sizes c') /\
    (forall y, ~ (chain_anc (m_map (ctx_store c)) b y /\ b <> y) ->
       m_map (ctx_store c') !! y = m_map (ctx_store c) !! y) /\
    (forall y, chain_anc (m_map (ctx_store c)) b y -> local_ok (m_map (ctx_store c')) y).
Proof using.
  intros Hsh Hsz Hg Hroom Hb Hf. unfold propagate_interval.
  destruct (count_subtrees_spec (ctx_store c) root Hsh sz Hsz fuel c b) as (c1 & -> & Hst & Hsl & _ & Hg1 & Hb1);
    [done|done| |done|done|].
  { destruct Hroom as (d & Hd & _). eauto. }
  cbn [obind]. destruct (propagate_loop_spec fuel c1 [b]) as (m' & -> & Hsk & Hun & Hloc).
  - by rewrite Hst.
  - by rewrite Hst.
  - by rewrite Hst.
  - intros q ->%list_elem_of_singleton. rewrite Hst. eauto.
  - cbn. lia.
  - rewrite Hst in *. eexists. split; [done|]. cbn. split_and!; [done|done|done|eapply good_sizes_skel; done| |].
    + intros y Hy. apply Hun. intros (q & ->%list_elem_of_singleton & ?). auto.
    + intros y Hy. apply Hloc. exists b. split; [left|done].
Qed.
End Propagate.
