(* ===== verification/ReachabilityAdd.v ===== *)
(** * Adding a block to the reachability tree

    [add_tree_block] of tree.rs keeps the interval invariant: without reindexing
    when the parent has capacity left, and through [reindex_intervals] otherwise,
    for a parent in the subtree of the reindex root. *)

From Stdlib Require Import ZArith Lia Bool.
From stdpp Require Import base gmap numbers list sorting.
From S2P Require Import Prelude Interval ReachabilityStore ReachabilityQueries ReachabilityTree ReachabilityReindex ReachabilityCount ReachabilityPropagate.

#[local] Open Scope Z_scope.

(** ** A tree with one more leaf *)

Definition add_leaf (m : nodes) (p : N) (dp : MemoryReachabilityData) (n : N) (i : Interval) (h : Z) : nodes :=
  <[n := data_new p i h]> (<[p := with_children dp (d_children dp ++ [n])]> m).

Lemma local_ok_ext m m' h d d' :
  local_ok m h -> m !! h = Some d -> m' !! h = Some d' ->
  d_interval d' = d_interval d -> d_children d' = d_children d ->
  (forall c, c ∈ d_children d -> d_interval <$> m !! c = d_interval <$> m' !! c) -> local_ok m' h.
Proof.
  intros (d0 & Hd0 & ? & ? & Hord) Hd Hd' Hi Hc Hext. assert (d0 = d) as -> by congruence.
  exists d'. rewrite Hi, Hc. split_and!; [done..|]. by eapply ordered_in_ext.
Qed.

Lemma ordered_in_snoc m lo cs x n dn hi :
  ordered_in m lo cs (x - 1) -> m !! n = Some dn -> x <= iv_start (d_interval dn) ->
  iv_start (d_interval dn) <= iv_end (d_interval dn) + 1 -> iv_end (d_interval dn) <= hi ->
  ordered_in m lo (cs ++ [n]) hi.
Proof.
  intros H Hn ? ? ?. revert lo H. induction cs as [|c cs IH]; intros lo; cbn.
  - intros ?. exists dn. split_and!; [done|lia..].
  - intros (d & Hd & ? & ? & H). exists d. split_and!; auto.
Qed.

Lemma ordered_in_last m lo cs hi c dc :
  ordered_in m lo cs hi -> last cs = Some c -> m !! c = Some dc ->
  ordered_in m lo cs (iv_end (d_interval dc)) /\ iv_end (d_interval dc) <= hi.
Proof.
  intros H Hl Hc. revert lo H. induction cs as [|x cs IH]; intros lo H; [done|].
  destruct H as (d & Hd & ? & ? & H). destruct cs as [|y cs].
  - cbn in Hl. simplify_eq. cbn in *. split; [|lia]. exists dc. split_and!; [done|lia..].
  - destruct (IH Hl _ H) as [Ho Hb]. split; [|done]. exists d. split_and!; done.
Qed.

Section AddLeaf.
Context (m : nodes) (root p n : N) (dp : MemoryReachabilityData) (i : Interval) (h : Z).
Hypothesis Hsh : shape m root.
Hypothesis Hp : m !! p = Some dp.
Hypothesis Hn : m !! n = None.
Hypothesis Hnone : n <> hash_NONE.
Hypothesis Hh : d_height dp < h.
Let m' := add_leaf m p dp n i h.

#[local] Lemma Hpn : p <> n. Proof using Hp Hn. congruence. Qed.

Lemma add_leaf_new : m' !! n = Some (data_new p i h).
Proof using. apply lookup_insert_eq. Qed.

Lemma add_leaf_parent : m' !! p = Some (with_children dp (d_children dp ++ [n])).
Proof using Hp Hn. unfold m', add_leaf. rewrite lookup_insert_ne by (pose proof Hpn; done). apply lookup_insert_eq. Qed.

Lemma add_leaf_other x : x <> n -> x <> p -> m' !! x = m !! x.
Proof using. intros. unfold m', add_leaf. by rewrite !lookup_insert_ne. Qed.

Lemma add_leaf_cases x d : m' !! x = Some d ->
  (x = n /\ d = data_new p i h) \/ (x = p /\ d = with_children dp (d_children dp ++ [n])) \/
  (x <> n /\ x <> p /\ m !! x = Some d).
Proof using Hp Hn.
  intros Hx. destruct (decide (x = n)) as [->|Hxn]; [rewrite add_leaf_new in Hx; naive_solver|].
  destruct (decide (x = p)) as [->|Hxp]; [rewrite add_leaf_parent in Hx; naive_solver|].
  rewrite add_leaf_other in Hx by done. auto.
Qed.

(** Every old block is still there, with the same parent, interval and height. *)
Lemma add_leaf_old x d : m !! x = Some d -> exists d', m' !! x = Some d' /\
  d_parent d' = d_parent d /\ d_interval d' = d_interval d /\ d_height d' = d_height d /\ d_fcs d' = d_fcs d /\
  (forall c, c ∈ d_children d -> c ∈ d_children d').
Proof using Hp Hn.
  intros Hx. destruct (decide (x = p)) as [->|Hxp].
  - simplify_eq. eexists. split; [apply add_leaf_parent|]. cbn. split_and!; try done.
    intros c Hc. apply elem_of_app. by left.
  - exists d. rewrite add_leaf_other; [done| |done]. congruence.
Qed.

Lemma add_leaf_shape : shape m' root.
Proof using Hsh Hp Hn Hnone Hh.
  pose proof Hpn as Hpn. constructor.
  - destruct (sh_top _ _ Hsh) as (d & Hd & ?).
    destruct (add_leaf_old _ _ Hd) as (d' & ? & ? & _). exists d'. split; congruence.
  - destruct (m' !! hash_NONE) as [d|] eqn:Hd; [|done].
    destruct (add_leaf_cases _ _ Hd) as [[? _]|[[<- _]|(_ & _ & Hd')]]; [done| |];
      pose proof (sh_none _ _ Hsh); congruence.
  - intros x d c Hx Hc. destruct (add_leaf_cases _ _ Hx) as [[-> ->]|[[-> ->]|(Hxn & Hxp & Hd)]].
    + by apply elem_of_nil in Hc.
    + cbn in Hc. apply elem_of_app in Hc as [Hc| ->%list_elem_of_singleton].
      * destruct (sh_child _ _ Hsh _ _ _ Hp Hc) as (dc & Hdc & ?).
        destruct (add_leaf_old _ _ Hdc) as (d' & ? & ? & _). exists d'. split; congruence.
      * eexists. split; [apply add_leaf_new|done].
    + destruct (sh_child _ _ Hsh _ _ _ Hd Hc) as (dc & Hdc & ?).
      destruct (add_leaf_old _ _ Hdc) as (d' & ? & ? & _). exists d'. split; congruence.
  - intros x d Hx Hne. destruct (add_leaf_cases _ _ Hx) as [[-> ->]|Hcase].
    + eexists. split; [apply add_leaf_parent|]. cbn. apply elem_of_app. right. by left.
    + assert (exists d0, m !! x = Some d0 /\ d_parent d = d_parent d0) as (d0 & Hd0 & ->).
      { destruct Hcase as [[-> ->]|(_ & _ & ?)]; eauto. }
      destruct (sh_parent _ _ Hsh _ _ Hd0 Hne) as (dq & Hdq & Hin).
      destruct (add_leaf_old _ _ Hdq) as (d' & ? & _ & _ & _ & _ & Hsub). exists d'. auto.
  - intros x d Hx. destruct (add_leaf_cases _ _ Hx) as [[-> ->]|[[-> ->]|(Hxn & Hxp & Hd)]].
    + constructor.
    + cbn. apply NoDup_app. split_and!; [by eapply sh_nodup| |apply NoDup_singleton].
      intros c Hc ->%list_elem_of_singleton. destruct (sh_child _ _ Hsh _ _ _ Hp Hc) as (? & ? & _). congruence.
    + by eapply sh_nodup.
  - intros x d Hx. pose proof (sh_height0 _ _ Hsh _ _ Hp).
    destruct (add_leaf_cases _ _ Hx) as [[-> ->]|[[-> ->]|(Hxn & Hxp & Hd)]]; cbn; [lia|lia|].
    by eapply sh_height0.
  - intros x d dq Hx Hq.
    destruct (add_leaf_cases _ _ Hx) as [[-> ->]|Hcase].
    + cbn in Hq. rewrite add_leaf_parent in Hq. injection Hq as <-. done.
    + assert (exists d0, m !! x = Some d0 /\ d_parent d = d_parent d0 /\ d_height d = d_height d0) as (d0 & Hd0 & Heq & ->).
      { destruct Hcase as [[-> ->]|(_ & _ & ?)]; eauto. }
      rewrite Heq in Hq. destruct (m !! d_parent d0) as [dq0|] eqn:Hdq0.
      * destruct (add_leaf_old _ _ Hdq0) as (d' & ? & _ & _ & Hh' & _). simplify_eq.
        rewrite Hh'. by eapply sh_height.
      * destruct (decide (x = root)) as [->|Hne].
        -- destruct (sh_top _ _ Hsh) as (dr & Hdr & Hpr). simplify_eq. rewrite Hpr in *.
           destruct (add_leaf_cases _ _ Hq) as [[? _]|[[<- _]|(_ & _ & Hd')]]; [congruence..|].
           pose proof (sh_none _ _ Hsh); congruence.
        -- destruct (sh_parent _ _ Hsh _ _ Hd0 Hne) as (? & ? & _). congruence.
Qed.

Lemma chain_add_old a b : chain_anc m a b -> chain_anc m' a b.
Proof using Hp Hn.
  induction 1 as [x d Hx|a b d Hd Hab IH].
  - destruct (add_leaf_old _ _ Hx) as (d' & ? & _). by econstructor.
  - destruct (add_leaf_old _ _ Hd) as (d' & ? & Hpar & _). eapply chain_up; [done|]. by rewrite Hpar.
Qed.

Lemma chain_add_inv a b : chain_anc m' a b ->
  (b = n /\ (a = n \/ chain_anc m a p)) \/ (b <> n /\ chain_anc m a b).
Proof using Hp Hn Hsh Hnone.
  induction 1 as [x d Hx|a b d Hd Hab IH].
  - destruct (decide (x = n)) as [->|Hne]; [auto|]. right. split; [done|].
    destruct (add_leaf_cases _ _ Hx) as [[-> _]|[[-> _]|(_ & _ & ?)]]; [done|by econstructor..].
  - destruct (decide (b = n)) as [->|Hne].
    + left. split; [done|]. right. rewrite add_leaf_new in Hd. injection Hd as <-. cbn in IH.
      destruct IH as [[Heq _]|[_ ?]]; [|done]. by pose proof Hpn.
    + right. split; [done|].
      assert (exists d0, m !! b = Some d0 /\ d_parent d = d_parent d0) as (d0 & Hd0 & Heq).
      { destruct (add_leaf_cases _ _ Hd) as [[? _]|[[-> ->]|(_ & _ & ?)]]; [done|eauto..]. }
      destruct IH as [[Hpn' _]|[_ ?]]; [|eapply chain_up; [done|]; congruence].
      exfalso. rewrite Heq in Hpn'. destruct (decide (b = root)) as [->|Hbr].
      * destruct (sh_top _ _ Hsh) as (dr & Hdr & Hpr). congruence.
      * destruct (sh_parent _ _ Hsh _ _ Hd0 Hbr) as (? & ? & _). congruence.
Qed.

(** Blocks other than the parent and the leaf stay well placed. *)
Lemma local_add_old x : local_ok m x -> x <> p -> local_ok m' x.
Proof using Hp Hn Hsh.
  intros Hx Hne. destruct Hx as (d & Hd & Hrest) eqn:Heq. clear Heq.
  assert (x <> n) by congruence.
  eapply (local_ok_ext m m' x d d); [by exists d|done|by rewrite add_leaf_other|done|done|].
  intros c Hc. destruct (sh_child _ _ Hsh _ _ _ Hd Hc) as (dc & Hdc & _).
  destruct (add_leaf_old _ _ Hdc) as (dc' & -> & _ & Hi & _). rewrite Hdc. cbn. by rewrite Hi.
Qed.

(** So does the parent when the leaf's interval follows those of its siblings. *)
Lemma local_add_parent x :
  local_ok m p -> ordered_in m (iv_start (d_interval dp)) (d_children dp) (x - 1) ->
  x <= iv_start i -> iv_start i <= iv_end i + 1 -> iv_end i <= iv_end (d_interval dp) - 1 ->
  local_ok m' p.
Proof using Hp Hn Hsh.
  intros (d & Hd & ? & ? & _) Hord ? ? ?. simplify_eq. eexists. split; [apply add_leaf_parent|]. cbn.
  split_and!; [done..|]. eapply ordered_in_snoc; [|apply add_leaf_new|done..].
  eapply ordered_in_ext; [|done]. intros c Hc.
  destruct (sh_child _ _ Hsh _ _ _ Hp Hc) as (dc & Hdc & _).
  destruct (add_leaf_old _ _ Hdc) as (dc' & -> & _ & Hi & _). rewrite Hdc. cbn. by rewrite Hi.
Qed.
End AddLeaf.

Lemma interval_remaining_after_spec s root p dp :
  tree_ok (m_map s) root -> m_map s !! p = Some dp ->
  exists lo, interval_remaining_after s p = Ok (interval_new lo (iv_end (d_interval dp) - 1)) /\
    iv_start (d_interval dp) <= lo <= iv_end (d_interval dp) /\
    ordered_in (m_map s) (iv_start (d_interval dp)) (d_children dp) (lo - 1).
Proof.
  intros Hok Hp. destruct (local_of _ _ Hok _ _ Hp) as (Hiv & Hlen & Hord). unfold iv_ok, iv_len in *.
  unfold interval_remaining_after, interval_children_capacity.
  rewrite (get_interval_mem _ _ _ Hp). cbn [obind]. unfold interval_decrease_end.
  rewrite usub_le by lia. cbn [obind]. rewrite (get_children_mem _ _ _ Hp). cbn [obind].
  destruct (last (d_children dp)) as [c|] eqn:Hl.
  - assert (Hc : c ∈ d_children dp) by (by apply last_Some_elem_of).
    destruct (ordered_in_elem _ _ _ _ _ Hord Hc) as (dc & Hdc & ? & ? & ?).
    destruct (ordered_in_last _ _ _ _ _ _ Hord Hl Hdc) as [Ho _].
    rewrite (get_interval_mem _ _ _ Hdc). cbn [obind]. rewrite uadd_lt by lia. cbn [obind].
    exists (iv_end (d_interval dc) + 1). split_and!; [done|lia|lia|].
    by replace (iv_end (d_interval dc) + 1 - 1) with (iv_end (d_interval dc)) by lia.
  - apply last_None in Hl. exists (iv_start (d_interval dp)). split_and!; [done|lia|lia|].
    rewrite Hl. cbn. lia.
Qed.

(** Nesting of intervals along a path whose inner blocks are well placed. *)
Lemma chain_nested_weak m root a b da db :
  shape m root -> chain_anc m a b -> m !! a = Some da -> m !! b = Some db ->
  (forall x, chain_anc m a x -> chain_anc m x b -> x <> b -> local_ok m x) ->
  iv_start (d_interval da) <= iv_start (d_interval db) /\ iv_end (d_interval db) <= iv_end (d_interval da).
Proof.
  intros Hsh H. revert db. induction H as [x d Hx|a b d Hd Hab IH]; intros db Ha Hb Hloc.
  { simplify_eq. lia. }
  assert (d = db) as -> by congruence. destruct (chain_in_r _ _ _ Hab) as [dp Hdp].
  assert (Hbr : b <> root).
  { intros ->. destruct (sh_root _ _ Hsh) as (d' & Hd' & Hnone). congruence. }
  destruct (sh_parent _ _ Hsh _ _ Hb Hbr) as (dp' & Hdp' & Hin). assert (dp' = dp) as -> by congruence.
  assert (Hpb : chain_anc m (d_parent db) b) by (by eapply chain_child).
  assert (Hpne : d_parent db <> b).
  { intros Heq. pose proof (sh_height _ _ Hsh _ _ _ Hb Hdp). rewrite Heq in Hdp. simplify_eq. lia. }
  destruct (Hloc (d_parent db)) as (dp' & Hdp2 & ? & ? & Hord); [done..|].
  assert (dp' = dp) as -> by congruence.
  destruct (ordered_in_elem _ _ _ _ _ Hord Hin) as (d' & Hd' & ? & ? & ?).
  assert (d' = db) as -> by congruence.
  destruct (IH dp Ha Hdp).
  { intros x Hax Hxp Hne. apply Hloc; [done|by eapply chain_trans|].
    intros ->. apply Hpne. by eapply chain_antisym. }
  lia.
Qed.

(** Reallocating below [a] keeps everything else well placed. *)
Lemma local_ok_outside m m' root a h :
  shape m root -> same_skel m m' -> local_ok m h -> ~ chain_anc m a h ->
  (forall y, ~ (chain_anc m a y /\ a <> y) -> m' !! y = m !! y) -> local_ok m' h.
Proof.
  intros Hsh Hsk Hloc Hna Hun. destruct Hloc as (d & Hd & Hrest) eqn:Heq. clear Heq.
  eapply (local_ok_ext m m' h d d); [by exists d|done|rewrite Hun; [done|tauto]|done|done|].
  intros c Hc. rewrite Hun; [done|]. intros [Hac Hne]. apply Hna.
  destruct (sh_child _ _ Hsh _ _ _ Hd Hc) as (dc & Hdc & <-). inversion Hac; congruence.
Qed.

Section Climb.
Context (root : N) (sz : N -> Z) (fuel : nat).
Implicit Types (c : ReindexCtx MemoryReachabilityStore).

(** The climb of [reindex_intervals] from a block in the subtree of the reindex
    root [r] stops at the latest at [r], when [r] has room for its subtree. *)
Lemma reindex_loop_spec n c r cur :
  let m := m_map (ctx_store c) in
  shape m root -> sizes_of m sz -> good_sizes (ctx_store c) sz (ctx_sizes c) ->
  chain_anc m r cur -> roomy sz m r ->
  (exists d, m !! cur = Some d /\ iv_ok (d_interval d)) ->
  (forall h, is_Some (m !! h) -> ~ chain_anc m cur h -> local_ok m h) ->
  sz r < U64 -> sz r < Z.of_nat fuel -> sz r - sz cur < Z.of_nat n ->
  exists c', reindex_loop fuel n c r cur = Ok c' /\
    m_reindex_root (ctx_store c') = m_reindex_root (ctx_store c) /\
    same_skel m (m_map (ctx_store c')) /\
    (forall h, is_Some (m !! h) -> local_ok (m_map (ctx_store c')) h).
Proof using.
  intros m Hsh Hsz. subst m. revert c cur Hsh Hsz.
  induction n as [|n IH]; intros c cur Hsh Hsz Hg Hrc Hr (d & Hd & Hiv) Hout Hr64 Hrf Hn.
  { pose proof (sz_chain _ _ Hsh _ Hsz _ _ Hrc). lia. }
  pose proof (sz_chain _ _ Hsh _ Hsz _ _ Hrc) as Hle.
  cbn [reindex_loop]. rewrite (get_interval_mem _ _ _ Hd). cbn [obind].
  destruct (count_subtrees_spec (ctx_store c) root Hsh sz Hsz fuel c cur)
    as (c1 & -> & Hst & _ & _ & Hg1 & Hc1); [done|done|eauto|lia|lia|].
  cbn [obind]. rewrite interval_size_ok by done. cbn [obind].
  unfold ctx_size_of. rewrite Hc1. cbn [unwrap obind].
  destruct (Z.leb_spec (sz cur) (iv_len (d_interval d))) as [Hroom|Hroom].
  - destruct (propagate_interval_spec root sz fuel c1 cur) as (c' & -> & Hrr & _ & Hsk & _ & Hun & Hloc).
    1-3: by rewrite Hst. { rewrite Hst. by exists d. } 1-2: lia.
    rewrite Hst in *. exists c'. split_and!; [done..|]. intros h Hh.
    destruct (chain_dec _ _ Hsh cur h Hh) as [?|Hna]; [by apply Hloc|].
    eapply local_ok_outside; [done|done| |exact Hna|exact Hun]. by apply Hout.
  - rewrite Hst, (get_parent_mem _ _ _ Hd). cbn [obind].
    assert (Hcr : cur <> r).
    { intros ->. destruct Hr as (d' & Hd' & ? & ?). simplify_eq. lia. }
    assert (Hrp : chain_anc (m_map (ctx_store c)) r (d_parent d)) by (inversion Hrc; congruence).
    destruct (chain_in_r _ _ _ Hrp) as [dp Hdp].
    assert (Hcroot : cur <> root).
    { intros ->. destruct (sh_root _ _ Hsh) as (? & ? & ?). congruence. }
    destruct (sh_parent _ _ Hsh _ _ Hd Hcroot) as (dp' & Hdp' & Hin). assert (dp' = dp) as -> by congruence.
    rewrite decide_False by (intros Heq; rewrite Heq, (sh_none _ _ Hsh) in Hdp; done).
    rewrite decide_False by done.
    assert (Hanc : forall x, chain_anc (m_map (ctx_store c)) x (d_parent d) -> local_ok (m_map (ctx_store c)) x).
    { intros x Hx. apply Hout; [by eapply chain_in_l|]. intros Hcx.
      pose proof (chain_child _ _ Hsh _ _ _ Hdp Hin) as Hpc.
      pose proof (chain_antisym _ _ Hsh _ _ (chain_trans _ _ _ _ Hcx Hx) Hpc) as Heq.
      pose proof (sh_height _ _ Hsh _ _ _ Hd Hdp). rewrite <-Heq in Hdp. simplify_eq. lia. }
    destruct Hr as (dr & Hdr & Hrest).
    unfold is_strict_chain_ancestor_of. rewrite (get_interval_mem _ _ _ Hdp), (get_interval_mem _ _ _ Hdr).
    cbn [obind].
    destruct (interval_strictly_contains (d_interval dp) (d_interval dr)) eqn:Hstrict.
    { apply strictly_contains_iff in Hstrict.
      destruct (chain_nested_weak _ _ _ _ _ _ Hsh Hrp Hdr Hdp); [|lia]. intros x _ Hx _. by apply Hanc. }
    destruct (Hanc (d_parent d)) as (dp' & ? & Hivp & _).
    { econstructor; done. }
    destruct (IH c1 (d_parent d)) as (c' & -> & Hrr & Hsk & Hloc).
    1-10: rewrite ?Hst; try done; try lia.
    + by exists dr.
    + simplify_eq. eauto.
    + intros h Hh Hnp. apply Hout; [done|]. intros Hch. apply Hnp.
      eapply chain_trans; [|exact Hch]. exact (chain_child _ _ Hsh _ _ _ Hdp Hin).
    + pose proof (sz_child _ _ Hsh _ Hsz _ _ _ Hdp Hin). lia.
    + rewrite Hst in *. exists c'. done.
Qed.
End Climb.

(** ** The new leaf adds one to the sizes of its ancestors *)
Lemma zsum_fmap_one {A} (f g : A -> Z) (l : list A) x :
  NoDup l -> x ∈ l -> f x = g x + 1 -> (forall y, y ∈ l -> y <> x -> f y = g y) ->
  zsum (f <$> l) = zsum (g <$> l) + 1.
Proof.
  induction 1 as [|y l Hy Hl IH]; intros Hx Hfx Hne; [by apply elem_of_nil in Hx|]. cbn.
  apply elem_of_cons in Hx as [->|Hx].
  - rewrite Hfx, (zsum_fmap_ext f g l); [lia|]. intros z Hz. apply Hne; [by right|]. by intros ->.
  - rewrite IH; [|done|done|intros; apply Hne; [by right|done]].
    rewrite (Hne y); [lia|left|]. by intros ->.
Qed.

Lemma subtree_size_add m root p dp n i h x :
  shape m root -> m !! p = Some dp -> m !! n = None -> n <> hash_NONE -> d_height dp < h -> is_Some (m !! x) ->
  (chain_anc m x p -> subtree_size (add_leaf m p dp n i h) x = subtree_size m x + 1) /\
  (~ chain_anc m x p -> subtree_size (add_leaf m p dp n i h) x = subtree_size m x).
Proof.
  intros Hsh Hp Hn Hnone Hh [d Hd]. set (m' := add_leaf m p dp n i h).
  pose proof (add_leaf_shape m root p n dp i h Hsh Hp Hn Hnone Hh) as Hsh'.
  pose proof (subtree_size_eq m root Hsh) as Heq. pose proof (subtree_size_eq m' root Hsh') as Heq'.
  assert (exists k, max_height m - d_height d < Z.of_nat k) as [k Hk].
  { exists (S (Z.to_nat (max_height m - d_height d))). lia. }
  revert x d Hd Hk. induction k as [|k IH]; intros x d Hd Hk.
  { pose proof (max_height_ub _ _ _ Hd). lia. }
  assert (Hkids : forall c, c ∈ d_children d ->
    (chain_anc m c p -> subtree_size m' c = subtree_size m c + 1) /\
    (~ chain_anc m c p -> subtree_size m' c = subtree_size m c)).
  { intros c Hc. destruct (sh_child _ _ Hsh _ _ _ Hd Hc) as (dc & Hdc & _).
    pose proof (child_height _ _ Hsh _ _ _ _ Hd Hc Hdc). eapply IH; [done|lia]. }
  rewrite (Heq _ _ Hd).
  destruct (decide (x = p)) as [->|Hne].
  - assert (d = dp) as -> by congruence.
    rewrite (Heq' _ _ (add_leaf_parent m p n dp i h Hp Hn)). cbn [d_children with_children].
    rewrite fmap_app, zsum_app. cbn [fmap list_fmap zsum].
    rewrite (Heq' _ _ (add_leaf_new m p n dp i h)). cbn [d_children data_new fmap list_fmap zsum].
    rewrite (zsum_fmap_ext (subtree_size m') (subtree_size m)).
    { split; [lia|]. intros Hf. destruct Hf. by econstructor. }
    intros c Hc. apply Hkids; [done|]. intros Hcp.
    destruct (sh_child _ _ Hsh _ _ _ Hp Hc) as (dc & Hdc & _).
    pose proof (child_height _ _ Hsh _ _ _ _ Hp Hc Hdc).
    pose proof (chain_antisym _ _ Hsh _ _ Hcp (chain_child _ _ Hsh _ _ _ Hp Hc)). subst c. simplify_eq. lia.
  - assert (Hx' : m' !! x = Some d) by (rewrite <-Hd; apply add_leaf_other; congruence).
    rewrite (Heq' _ _ Hx'). split; intros Hxp.
    + destruct (chain_first_child _ _ Hsh _ _ _ Hxp Hne Hd) as (c & Hc & Hcp).
      rewrite (zsum_fmap_one _ (subtree_size m) _ c); [lia|by eapply sh_nodup|done|by apply Hkids|].
      intros y Hy Hyc. apply Hkids; [done|]. intros Hyp. apply Hyc.
      destruct (sh_child _ _ Hsh _ _ _ Hd Hy) as (dy & Hdy & Hpy), (sh_child _ _ Hsh _ _ _ Hd Hc) as (dc & Hdc & Hpc).
      exact (siblings_disjoint _ _ Hsh _ _ _ _ _ Hd Hy Hc Hyp Hcp).
    + rewrite (zsum_fmap_ext (subtree_size m') (subtree_size m)); [lia|].
      intros c Hc. apply Hkids; [done|]. intros Hcp. apply Hxp.
      eapply chain_trans; [by eapply chain_child|done].
Qed.

(** ** [add_tree_block] *)
Section AddTreeBlock.
Context (s : MemoryReachabilityStore) (root r p n : N) (dp dr : MemoryReachabilityData).
Context (fuel : nat) (depth slack : Z).
Let m := m_map s.
Hypothesis Hok : tree_ok m root.
Hypothesis Hroot : m_reindex_root s = Some r.
Hypothesis Hp : m !! p = Some dp.
Hypothesis Hr : m !! r = Some dr.
Hypothesis Hn : m !! n = None.
Hypothesis Hnone : n <> hash_NONE.
Hypothesis Hrp : chain_anc m r p.
Hypothesis Hheight : d_height dp + 1 < U64.
Hypothesis Hcap : subtree_size m r < iv_len (d_interval dr).
Hypothesis Hfuel : subtree_size m r + 1 < Z.of_nat fuel.

Let leaf i := add_leaf m p dp n i (d_height dp + 1).

Lemma append_and_insert i :
  (let! st := append_child s p n in
   let! parent_height := get_height st p in
   let! height := add64 parent_height 1 in
   store_insert st n p i height) = Ok (mk_mem (leaf i) (Some r)).
Proof using Hroot Hp Hn Hheight.
  rewrite (append_child_mem _ _ _ Hp). cbn [obind].
  erewrite get_height_mem; [|unfold mem_put; cbn; apply lookup_insert_eq]. cbn [obind d_height with_children].
  rewrite uadd_lt by done. cbn [obind]. cbn. unfold mem_insert, mem_put. cbn.
  rewrite lookup_insert_ne by congruence. unfold m in *. rewrite Hn, Hroot. done.
Qed.

Lemma add_tree_block_spec :
  exists s', add_tree_block fuel s n p depth slack = Ok s' /\ m_reindex_root s' = Some r /\
    tree_ok (m_map s') root /\ exists i, same_skel (leaf i) (m_map s').
Proof using Hok Hroot Hp Hr Hn Hnone Hrp Hheight Hcap Hfuel.
  destruct Hok as [Hsh Hloc].
  destruct (local_of _ _ Hok _ _ Hp) as (Hivp & Hlenp & _).
  destruct (local_of _ _ Hok _ _ Hr) as (Hivr & _ & _).
  unfold iv_ok, iv_len in Hivp, Hlenp.
  destruct (interval_remaining_after_spec s root p dp Hok Hp) as (lo & Hrem & Hlo & Hord).
  set (rem := interval_new lo (iv_end (d_interval dp) - 1)) in *.
  assert (Hremok : iv_ok rem) by (unfold iv_ok, rem; cbn; lia).
  assert (Hshl : forall i, shape (leaf i) root).
  { intros i. apply add_leaf_shape; [done..|lia]. }
  assert (Hkeep : forall i, lo <= iv_start i -> iv_start i <= iv_end i + 1 -> iv_end i <= iv_end (d_interval dp) - 1 ->
    forall x, is_Some (leaf i !! x) -> x <> n -> local_ok (leaf i) x).
  { intros i ? ? ? x [d Hx] Hxn. destruct (decide (x = p)) as [->|Hxp].
    - eapply (local_add_parent m root p n dp i _ Hsh Hp Hn lo); [apply Hloc; eauto|exact Hord|done..].
    - apply (local_add_old m root p n dp i _ Hsh Hp Hn); [|done]. apply Hloc.
      destruct (add_leaf_cases m p n dp i _ Hp Hn x d Hx) as [[? _]|[[? _]|(_ & _ & ?)]]; [done|done|eauto]. }
  unfold add_tree_block. rewrite Hrem. cbn [obind].
  pose proof (append_and_insert rem) as Hins.
  destruct (append_child s p n) as [st| | |] eqn:Happ; try done. cbn [obind] in *.
  destruct (get_height st p) as [ph| | |] eqn:Hph; try done. cbn [obind] in *.
  unfold interval_is_empty. rewrite interval_size_ok by done. cbn [obind].
  destruct (Z.eqb_spec (iv_len rem) 0) as [Hz|Hz].
  - destruct (add64 ph 1) as [h| | |]; try done. cbn [obind] in *. rewrite Hins. cbn [obind].
    set (s0 := mk_mem (leaf rem) (Some r)). change (get_reindex_root s0) with (@Ok ReachabilityError N r).
    cbn [obind]. unfold reindex_intervals.
    assert (Hgood : good_sizes s0 (subtree_size (leaf rem)) ∅) by (intros ? ? Hx; by rewrite lookup_empty in Hx).
    destruct (subtree_size_add m root p dp n rem (d_height dp + 1) r Hsh Hp Hn Hnone ltac:(lia) ltac:(eauto)) as [Hszr _].
    specialize (Hszr Hrp).
    destruct (add_leaf_old m p n dp rem (d_height dp + 1) Hp Hn r dr Hr) as (dr' & Hdr' & _ & Hir & _).
    assert (Hszeq : sizes_of (leaf rem) (subtree_size (leaf rem))).
    { intros x d Hx. by eapply subtree_size_eq. }
    pose proof (add_leaf_new m p n dp rem (d_height dp + 1)) as Hnew.
    pose proof (sz_pos _ _ (Hshl rem) _ Hszeq n ltac:(eauto)).
    destruct (reindex_loop_spec root (subtree_size (leaf rem)) fuel fuel (ctx_new s0 depth slack) r n)
      as (c' & -> & Hrr & Hsk & Hall); cbn [ctx_new ctx_store ctx_sizes s0 m_map]; try done.
    + eapply chain_up; [exact Hnew|]. by apply chain_add_old.
    + exists dr'. unfold leaf in *. rewrite Hir. split_and!; [done..|lia].
    + eauto.
    + intros x Hx Hnx. apply Hkeep; try done; [cbn; lia..|]. intros ->. apply Hnx. by econstructor.
    + unfold leaf in *. unfold iv_ok, iv_len in *. lia.
    + unfold leaf in *. lia.
    + unfold leaf in *. lia.
    + eexists. split; [done|]. split; [done|]. split; [|by exists rem]. split; [exact (shape_skel _ _ _ Hsk (Hshl rem))|].
      intros x Hx. apply Hall. by apply (same_skel_is_Some _ _ _ Hsk).
  - assert (1 <= iv_len rem) by (unfold iv_len, rem in *; cbn in *; lia).
    destruct (@split_half_ok ReachabilityError rem) as (l & rr & -> & Hc & Hl1); [done..|]. cbn [obind].
    pose proof (append_and_insert l) as Hins'. rewrite Happ in Hins'. cbn [obind] in Hins'.
    rewrite Hph in Hins'. cbn [obind] in Hins'.
    destruct (add64 ph 1) as [h| | |]; try done. cbn [obind] in *. rewrite Hins'.
    eexists. split; [done|]. split; [done|]. split; [|by exists l].
    cbn in Hc. unfold iv_len in Hl1. split; [apply Hshl|]. intros x Hx. cbn [m_map] in *.
    destruct (decide (x = n)) as [->|Hxn]; [|apply Hkeep; try done; cbn; lia].
    eexists. split; [apply add_leaf_new|]. cbn. unfold iv_ok, iv_len. lia.
Qed.
End AddTreeBlock.
