(* ===== verification/ReachabilityBlocks.v ===== *)
(** * Adding and deleting blocks

    Model of the operations of consensus/src/processes/reachability/inquirer.rs
    that change the store: [init], [add_block], [delete_block] and
    [hint_virtual_selected_parent], generic in the store. *)

From Stdlib Require Import ZArith Lia Bool.
From stdpp Require Import base gmap numbers list sorting.
From S2P Require Import Prelude Interval ReachabilityStore ReachabilityQueries ReachabilityReindex.

#[local] Open Scope Z_scope.

(** constants::perf *)
Definition DEFAULT_REINDEX_DEPTH : Z := 100.
Definition DEFAULT_REINDEX_SLACK : Z := Z.shiftl 1 14.

Section Blocks.
Context {S : Type} `{ReachabilityStore S}.
Variable fuel : nat.

Definition init_with_params (store : S) (origin : Hash) (capacity : Interval) : rresult S :=
  let! present := has store origin in
  if present then Ok store else store_init store origin capacity.

Definition reachability_init (store : S) : rresult S :=
  init_with_params store hash_ORIGIN interval_maximal.

Definition add_block_with_params (store : S) (new_block selected_parent : Hash)
    (mergeset : list Hash) (reindex_depth reindex_slack : option Z) : rresult S :=
  let! store := add_tree_block fuel store new_block selected_parent
                  (default DEFAULT_REINDEX_DEPTH reindex_depth)
                  (default DEFAULT_REINDEX_SLACK reindex_slack) in
  add_dag_block store new_block mergeset.

Definition add_block (store : S) (new_block selected_parent : Hash) (mergeset : list Hash) :
    rresult S :=
  add_block_with_params store new_block selected_parent mergeset None None.

(** The part of [delete_block] that replaces the block by its children in the
    future covering sets of the mergeset. *)
Definition delete_from_mergeset (store : S) (block : Hash) (children mergeset : list Hash) :
    rresult S :=
  foldM_out (fun st merged_block =>
    let! fcs := get_future_covering_set st merged_block in
    let! r := binary_search_descendant st fcs block in
    match r with
    | NotFound _ => Err DataInconsistency
    | Found _ i => replace_future_covering_item st merged_block block i children
    end) store mergeset.

(** The part of [delete_block] that hands over the block's interval. *)
Definition hand_over_interval (store : S) (parent : Hash) (block_index : nat) (interval : Interval)
    (children : list Hash) : rresult S :=
  match children with
  | [] =>
      match block_index with
      | O => Ok store
      | Datatypes.S i =>
          let! siblings := get_children store parent in
          let! sibling := unwrap (siblings !! i) in
          let! sibling_interval := get_interval store sibling in
          set_interval store sibling (interval_new (iv_start sibling_interval) (iv_end interval))
      end
  | [child] => set_interval store child interval
  | first_child :: rest =>
      let! first_interval := get_interval store first_child in
      let! store := set_interval store first_child
                      (interval_new (iv_start interval) (iv_end first_interval)) in
      let! last_child := unwrap (last rest) in
      let! last_interval := get_interval store last_child in
      set_interval store last_child (interval_new (iv_start last_interval) (iv_end interval))
  end.

Definition delete_block (store : S) (block : Hash) (mergeset : list Hash) : rresult S :=
  let! interval := get_interval store block in
  let! parent := get_parent store block in
  let! children := get_children store block in
  let! siblings := get_children store parent in
  let! r := binary_search_descendant store siblings block in
  match r with
  | NotFound _ => Err DataInconsistency
  | Found _ block_index =>
      let! store := replace_child store parent block block_index children in
      let! store := foldM_out (fun st child => set_parent st child parent) store children in
      let! store := delete_from_mergeset store block children mergeset in
      let! store := hand_over_interval store parent block_index interval children in
      store_delete store block
  end.

Definition hint_virtual_selected_parent (store : S) (hint : Hash) : rresult S :=
  try_advancing_reindex_root fuel store hint DEFAULT_REINDEX_DEPTH DEFAULT_REINDEX_SLACK.

End Blocks.
