(* ===== verification/ReachabilityRefine.v ===== *)
(** * Reachability algorithms are independent of the store

    Every algorithm of the reachability subsystem is generic in the store.  If a
    store simulates the memory store operation by operation ([simulates]), then
    each algorithm run on it succeeds whenever the run on the memory store does,
    with the same result and related stores.  The theorems proved on the memory
    store carry over this way to the stores the node runs on. *)

From Stdlib Require Import ZArith Lia Bool.
From stdpp Require Import base gmap numbers list sorting.
From S2P Require Import Prelude BinarySearch Interval ReachabilityStore ReachabilityQueries ReachabilityReindex ReachabilityBlocks.

#[local] Open Scope Z_scope.

(** The second computation succeeds whenever the first one does, with a related
    result. *)
Definition sim {E A1 A2} (RA : A1 -> A2 -> Prop) (o1 : outcome E A1) (o2 : outcome E A2) : Prop :=
  forall a1, o1 = Ok a1 -> exists a2, o2 = Ok a2 /\ RA a1 a2.

Lemma sim_Ok {E A1 A2} (RA : A1 -> A2 -> Prop) a1 a2 : RA a1 a2 -> sim (E := E) RA (Ok a1) (Ok a2).
Proof. intros H a [= <-]. eauto. Qed.

Lemma sim_refl {E A} (o : outcome E A) : sim eq o o.
Proof. intros a H. eauto. Qed.

Lemma sim_bind {E A1 A2 B1 B2} (RA : A1 -> A2 -> Prop) (RB : B1 -> B2 -> Prop)
    (m1 : outcome E A1) (m2 : outcome E A2) f1 f2 :
  sim RA m1 m2 -> (forall a1 a2, RA a1 a2 -> sim RB (f1 a1) (f2 a2)) -> sim RB (obind m1 f1) (obind m2 f2).
Proof.
  intros Hm Hf b Hb. apply bind_Ok in Hb as (a & Ha & Hb). destruct (Hm _ Ha) as (a2 & -> & Hr).
  exact (Hf _ _ Hr _ Hb).
Qed.

Lemma sim_Err {E A1 A2} (RA : A1 -> A2 -> Prop) e (o : outcome E A2) : sim RA (@Err E A1 e) o.
Proof. intros ? [=]. Qed.
Lemma sim_Panic {E A1 A2} (RA : A1 -> A2 -> Prop) (o : outcome E A2) : sim RA (@Panic E A1) o.
Proof. intros ? [=]. Qed.
Lemma sim_OutOfFuel {E A1 A2} (RA : A1 -> A2 -> Prop) (o : outcome E A2) : sim RA (@OutOfFuel E A1) o.
Proof. intros ? [=]. Qed.

Create HintDb sim discriminated.
#[export] Hint Resolve sim_refl sim_Err sim_Panic sim_OutOfFuel : sim.

(** Walks two runs of the same program in step. *)
Ltac sim_step :=
  lazymatch goal with
  | |- sim _ (Ok _) (Ok _) => apply sim_Ok
  | |- sim _ (Err _) _ => apply sim_Err
  | |- sim _ Panic _ => apply sim_Panic
  | |- sim _ OutOfFuel _ => apply sim_OutOfFuel
  | |- sim _ (obind ?m _) (obind ?m _) =>
      apply (sim_bind eq); [apply sim_refl|intros ? ? <-]
  | |- sim _ (obind _ _) (obind _ _) =>
      eapply sim_bind; [solve [eauto with sim]|intros ? ? ?]
  | |- sim _ (if ?b then _ else _) _ => destruct b
  | |- sim _ (match ?b with _ => _ end) _ => destruct b
  end; cbv beta iota zeta in *; subst.

Ltac sim_auto := repeat sim_step; eauto with sim.

(** ** The interface *)
Section Interface.
Context {S1 S2 : Type} `{ReachabilityStore S1} `{ReachabilityStore S2}.

(** [reads_agree] is what the queries need of two stores; [simulates] adds the
    one write reindexing performs. *)
Class reads_agree (R : S1 -> S2 -> Prop) : Prop := mk_reads_agree {
  ra_has s1 s2 h : R s1 s2 -> sim eq (has s1 h) (has s2 h);
  ra_interval s1 s2 h : R s1 s2 -> sim eq (get_interval s1 h) (get_interval s2 h);
  ra_parent s1 s2 h : R s1 s2 -> sim eq (get_parent s1 h) (get_parent s2 h);
  ra_children s1 s2 h : R s1 s2 -> sim eq (get_children s1 h) (get_children s2 h);
  ra_fcs s1 s2 h : R s1 s2 -> sim eq (get_future_covering_set s1 h) (get_future_covering_set s2 h);
  ra_height s1 s2 h : R s1 s2 -> sim eq (get_height s1 h) (get_height s2 h);
  ra_root s1 s2 : R s1 s2 -> sim eq (get_reindex_root s1) (get_reindex_root s2)
}.

Class simulates (R : S1 -> S2 -> Prop) : Prop := mk_simulates {
  sm_reads :: reads_agree R;
  sm_set_interval s1 s2 h i : R s1 s2 -> sim R (set_interval s1 h i) (set_interval s2 h i);
  sm_set_root s1 s2 h : R s1 s2 -> sim R (set_reindex_root s1 h) (set_reindex_root s2 h)
}.

End Interface.

(** *** Queries *)
Section Queries.
Context {S1 S2 : Type} `{ReachabilityStore S1} `{ReachabilityStore S2}.
Context (R : S1 -> S2 -> Prop) `{!reads_agree R}.
#[local] Hint Extern 1 (sim _ _ _) =>
  (first [eapply (ra_interval (R := R))|eapply (ra_parent (R := R))|eapply (ra_children (R := R))
         |eapply (ra_fcs (R := R))|eapply (ra_height (R := R))|eapply (ra_root (R := R))|eapply (ra_has (R := R))]; eassumption) : sim.

Lemma search_key_sim s1 s2 h : R s1 s2 -> sim eq (search_key s1 h) (search_key s2 h).
Proof using All.
  intros HR. unfold search_key. pose proof (ra_interval s1 s2 h HR) as Hi.
  destruct (get_interval s1 h) as [i| | |]; intros ? [= <-]. destruct (Hi _ eq_refl) as (? & -> & <-). eauto.
Qed.
#[local] Hint Resolve search_key_sim : sim.

Lemma bsearch_loop_sim fuel s1 s2 point l base size :
  R s1 s2 -> sim eq (bsearch_loop (search_key s1) fuel point l base size)
               (bsearch_loop (search_key s2) fuel point l base size).
Proof using All.
  intros HR. revert base size. induction fuel as [|fuel IH]; intros base size; cbn [bsearch_loop]; sim_auto.
Qed.
#[local] Hint Resolve bsearch_loop_sim : sim.

Lemma is_chain_ancestor_sim s1 s2 a b :
  R s1 s2 -> sim eq (is_chain_ancestor_of s1 a b) (is_chain_ancestor_of s2 a b).
Proof using All. intros HR. unfold is_chain_ancestor_of. sim_auto. Qed.

Lemma is_strict_chain_ancestor_sim s1 s2 a b :
  R s1 s2 -> sim eq (is_strict_chain_ancestor_of s1 a b) (is_strict_chain_ancestor_of s2 a b).
Proof using All. intros HR. unfold is_strict_chain_ancestor_of. sim_auto. Qed.
#[local] Hint Resolve is_chain_ancestor_sim is_strict_chain_ancestor_sim : sim.

Lemma binary_search_sim s1 s2 point l :
  R s1 s2 -> sim eq (binary_search_by_key (search_key s1) point l) (binary_search_by_key (search_key s2) point l).
Proof using All. intros HR. unfold binary_search_by_key. sim_auto. Qed.
#[local] Hint Resolve binary_search_sim : sim.

Lemma binary_search_descendant_sim s1 s2 l x :
  R s1 s2 -> sim eq (binary_search_descendant s1 l x) (binary_search_descendant s2 l x).
Proof using All. intros HR. unfold binary_search_descendant. sim_auto. Qed.
#[local] Hint Resolve binary_search_descendant_sim : sim.

Lemma is_dag_ancestor_sim s1 s2 a b :
  R s1 s2 -> sim eq (is_dag_ancestor_of s1 a b) (is_dag_ancestor_of s2 a b).
Proof using All. intros HR. unfold is_dag_ancestor_of. sim_auto. Qed.

Lemma next_chain_ancestor_sim s1 s2 a b :
  R s1 s2 -> sim eq (get_next_chain_ancestor_unchecked s1 a b) (get_next_chain_ancestor_unchecked s2 a b).
Proof using All. intros HR. unfold get_next_chain_ancestor_unchecked. sim_auto. Qed.
#[local] Hint Resolve next_chain_ancestor_sim : sim.

Lemma get_next_chain_ancestor_sim s1 s2 a b :
  R s1 s2 -> sim eq (get_next_chain_ancestor s1 a b) (get_next_chain_ancestor s2 a b).
Proof using All. intros HR. unfold get_next_chain_ancestor. sim_auto. Qed.

Lemma children_capacity_sim s1 s2 h :
  R s1 s2 -> sim eq (interval_children_capacity s1 h) (interval_children_capacity s2 h).
Proof using All. intros HR. unfold interval_children_capacity. sim_auto. Qed.
#[local] Hint Resolve children_capacity_sim : sim.

Lemma remaining_before_sim s1 s2 h :
  R s1 s2 -> sim eq (interval_remaining_before s1 h) (interval_remaining_before s2 h).
Proof using All. intros HR. unfold interval_remaining_before. sim_auto. Qed.
Lemma remaining_after_sim s1 s2 h :
  R s1 s2 -> sim eq (interval_remaining_after s1 h) (interval_remaining_after s2 h).
Proof using All. intros HR. unfold interval_remaining_after. sim_auto. Qed.
End Queries.

(** *** Reindexing *)
Section Refine.
Context {S1 S2 : Type} `{ReachabilityStore S1} `{ReachabilityStore S2}.
Context (R : S1 -> S2 -> Prop) `{!simulates R}.
#[local] Hint Extern 1 (sim _ _ _) =>
  (first [eapply (ra_interval (R := R))|eapply (ra_parent (R := R))|eapply (ra_children (R := R))
         |eapply (ra_fcs (R := R))|eapply (ra_height (R := R))|eapply (ra_root (R := R))|eapply (ra_has (R := R))
         |eapply (sm_set_interval (R := R))|eapply (sm_set_root (R := R))]; eassumption) : sim.

#[local] Hint Extern 1 (sim _ _ _) =>
  (first [eapply (is_chain_ancestor_sim R)|eapply (is_strict_chain_ancestor_sim R)|eapply (next_chain_ancestor_sim R)|eapply (get_next_chain_ancestor_sim R)
         |eapply (children_capacity_sim R)|eapply (remaining_before_sim R)|eapply (remaining_after_sim R)]; eassumption) : sim.

(** Contexts with related stores and the same counted sizes. *)
Inductive RC : ReindexCtx S1 -> ReindexCtx S2 -> Prop :=
| RC_intro s1 s2 sizes slack : R s1 s2 -> RC (mk_ctx s1 sizes slack) (mk_ctx s2 sizes slack).
#[local] Hint Constructors RC : sim.

Definition RP {A} (p1 : ReindexCtx S1 * A) (p2 : ReindexCtx S2 * A) : Prop := RC p1.1 p2.1 /\ p1.2 = p2.2.

Ltac open_ctx :=
  repeat match goal with
  | H : RC _ _ |- _ => destruct H
  | H : RP ?a ?b |- _ => destruct a, b; destruct H; cbn [fst snd] in *
  | a : (_ * _)%type |- _ => destruct a
  end; subst;
  cbn [ctx_store ctx_sizes ctx_slack ctx_with_store ctx_set_size ctx_size_of fst snd] in *.

Ltac ctx_auto := repeat (open_ctx; sim_step); open_ctx; eauto 6 with sim.

Lemma RP_intro {A} c1 c2 (a : A) : RC c1 c2 -> RP (c1, a) (c2, a).
Proof using. by split. Qed.
#[local] Hint Resolve RP_intro : sim.

Context (fuel : nat).

Lemma push_up_sim n c1 c2 counts block cur :
  RC c1 c2 -> sim RP (push_up n c1 counts block cur) (push_up n c2 counts block cur).
Proof using All.
  revert c1 c2 counts cur. induction n as [|n IH]; intros c1 c2 counts cur HC; cbn [push_up]; ctx_auto.
Qed.
#[local] Hint Resolve push_up_sim : sim.

Lemma count_loop_sim n c1 c2 counts block queue :
  RC c1 c2 -> sim RC (count_loop fuel n c1 counts block queue) (count_loop fuel n c2 counts block queue).
Proof using All.
  revert c1 c2 counts queue. induction n as [|n IH]; intros c1 c2 counts queue HC; destruct queue; cbn [count_loop]; ctx_auto.
Qed.
#[local] Hint Resolve count_loop_sim : sim.

Lemma count_subtrees_sim c1 c2 b : RC c1 c2 -> sim RC (count_subtrees fuel c1 b) (count_subtrees fuel c2 b).
Proof using All. intros HC. unfold count_subtrees. ctx_auto. Qed.
#[local] Hint Resolve count_subtrees_sim : sim.

Lemma set_intervals_sim s1 s2 l : R s1 s2 -> sim R (set_intervals s1 l) (set_intervals s2 l).
Proof using All.
  unfold set_intervals. revert s1 s2. induction l as [|[h i] l IH]; intros s1 s2 HR; cbn [foldM_out]; sim_auto.
Qed.
#[local] Hint Resolve set_intervals_sim : sim.

Lemma propagate_loop_sim n c1 c2 queue :
  RC c1 c2 -> sim RC (propagate_loop n c1 queue) (propagate_loop n c2 queue).
Proof using All.
  revert c1 c2 queue. induction n as [|n IH]; intros c1 c2 queue HC; destruct queue; cbn [propagate_loop]; ctx_auto.
Qed.
#[local] Hint Resolve propagate_loop_sim : sim.

Lemma propagate_interval_sim c1 c2 b : RC c1 c2 -> sim RC (propagate_interval fuel c1 b) (propagate_interval fuel c2 b).
Proof using All. intros HC. unfold propagate_interval. ctx_auto. Qed.
#[local] Hint Resolve propagate_interval_sim : sim.

Lemma apply_op_sim c1 c2 b off op : RC c1 c2 -> sim RC (apply_interval_op c1 b off op) (apply_interval_op c2 b off op).
Proof using All. intros HC. unfold apply_interval_op. ctx_auto. Qed.

Lemma apply_op_propagate_sim c1 c2 b off op : RC c1 c2 ->
  sim RC (apply_interval_op_and_propagate fuel c1 b off op) (apply_interval_op_and_propagate fuel c2 b off op).
Proof using All. intros HC. unfold apply_interval_op_and_propagate. ctx_auto. Qed.
#[local] Hint Resolve apply_op_sim apply_op_propagate_sim : sim.

Lemma offset_loop_sim c1 c2 b off op1 op2 l : RC c1 c2 ->
  sim RC (offset_siblings_loop fuel c1 b off op1 op2 l) (offset_siblings_loop fuel c2 b off op1 op2 l).
Proof using All. revert c1 c2. induction l as [|x l IH]; intros c1 c2 HC; cbn [offset_siblings_loop]; ctx_auto. Qed.
#[local] Hint Resolve offset_loop_sim : sim.

Lemma offset_before_sim c1 c2 b cur off :
  RC c1 c2 -> sim RC (offset_siblings_before fuel c1 b cur off) (offset_siblings_before fuel c2 b cur off).
Proof using All. intros HC. unfold offset_siblings_before. ctx_auto. Qed.
Lemma offset_after_sim c1 c2 b cur off :
  RC c1 c2 -> sim RC (offset_siblings_after fuel c1 b cur off) (offset_siblings_after fuel c2 b cur off).
Proof using All. intros HC. unfold offset_siblings_after. ctx_auto. Qed.
#[local] Hint Resolve offset_before_sim offset_after_sim : sim.

Definition RP2 {A B} (p1 : ReindexCtx S1 * A * B) (p2 : ReindexCtx S2 * A * B) : Prop :=
  RP p1.1 p2.1 /\ p1.2 = p2.2.

Lemma RP2_intro {A B} c1 c2 (a : A) (b : B) : RC c1 c2 -> RP2 (c1, a, b) (c2, a, b).
Proof using. by split. Qed.
#[local] Hint Resolve RP2_intro : sim.

Ltac open_ctx2 :=
  repeat match goal with
  | H : RP2 ?a ?b |- _ => destruct a, b; destruct H; cbn [fst snd] in *
  end; open_ctx.
Ltac ctx_auto2 := repeat (open_ctx2; sim_step); open_ctx2; eauto 6 with sim.

Lemma reclaim_before_up_sim n c1 c2 b r req sum len cur : RC c1 c2 ->
  sim RP2 (reclaim_before_up fuel n c1 b r req sum len cur) (reclaim_before_up fuel n c2 b r req sum len cur).
Proof using All.
  revert c1 c2 sum len cur. induction n as [|n IH]; intros c1 c2 sum len cur HC; cbn [reclaim_before_up]; ctx_auto2.
Qed.
Lemma reclaim_after_up_sim n c1 c2 b r req sum len cur : RC c1 c2 ->
  sim RP2 (reclaim_after_up fuel n c1 b r req sum len cur) (reclaim_after_up fuel n c2 b r req sum len cur).
Proof using All.
  revert c1 c2 sum len cur. induction n as [|n IH]; intros c1 c2 sum len cur HC; cbn [reclaim_after_up]; ctx_auto2.
Qed.
Lemma reclaim_before_down_sim n c1 c2 b a sl cur : RC c1 c2 ->
  sim RC (reclaim_before_down fuel n c1 b a sl cur) (reclaim_before_down fuel n c2 b a sl cur).
Proof using All. revert c1 c2 cur. induction n as [|n IH]; intros c1 c2 cur HC; cbn [reclaim_before_down]; ctx_auto2. Qed.
Lemma reclaim_after_down_sim n c1 c2 b a sl cur : RC c1 c2 ->
  sim RC (reclaim_after_down fuel n c1 b a sl cur) (reclaim_after_down fuel n c2 b a sl cur).
Proof using All. revert c1 c2 cur. induction n as [|n IH]; intros c1 c2 cur HC; cbn [reclaim_after_down]; ctx_auto2. Qed.
#[local] Hint Resolve reclaim_before_up_sim reclaim_after_up_sim reclaim_before_down_sim reclaim_after_down_sim : sim.

Lemma earlier_than_root_sim c1 c2 b r a req : RC c1 c2 ->
  sim RC (reindex_intervals_earlier_than_root fuel c1 b r a req) (reindex_intervals_earlier_than_root fuel c2 b r a req).
Proof using All.
  intros HC. unfold reindex_intervals_earlier_than_root, reclaim_interval_before, reclaim_interval_after. ctx_auto2.
Qed.
#[local] Hint Resolve earlier_than_root_sim : sim.

Lemma reindex_loop_sim n c1 c2 r cur : RC c1 c2 -> sim RC (reindex_loop fuel n c1 r cur) (reindex_loop fuel n c2 r cur).
Proof using All. revert c1 c2 cur. induction n as [|n IH]; intros c1 c2 cur HC; cbn [reindex_loop]; ctx_auto2. Qed.

Lemma reindex_intervals_sim c1 c2 b r : RC c1 c2 -> sim RC (reindex_intervals fuel c1 b r) (reindex_intervals fuel c2 b r).
Proof using All. apply reindex_loop_sim. Qed.
#[local] Hint Resolve reindex_intervals_sim : sim.

Lemma count_sizes_sim c1 c2 l : RC c1 c2 -> sim RP (count_sizes fuel c1 l) (count_sizes fuel c2 l).
Proof using All. revert c1 c2. induction l as [|x l IH]; intros c1 c2 HC; cbn [count_sizes]; ctx_auto2. Qed.

Lemma set_and_propagate_sim c1 c2 l : RC c1 c2 -> sim RC (set_and_propagate fuel c1 l) (set_and_propagate fuel c2 l).
Proof using All. revert c1 c2. induction l as [|[h i] l IH]; intros c1 c2 HC; cbn [set_and_propagate]; ctx_auto2. Qed.
#[local] Hint Resolve count_sizes_sim set_and_propagate_sim : sim.

Lemma tighten_before_sim c1 c2 p l : RC c1 c2 ->
  sim RP (tighten_intervals_before fuel c1 p l) (tighten_intervals_before fuel c2 p l).
Proof using All. intros HC. unfold tighten_intervals_before. ctx_auto2. Qed.
Lemma tighten_after_sim c1 c2 p l : RC c1 c2 ->
  sim RP (tighten_intervals_after fuel c1 p l) (tighten_intervals_after fuel c2 p l).
Proof using All. intros HC. unfold tighten_intervals_after. ctx_auto2. Qed.
#[local] Hint Resolve tighten_before_sim tighten_after_sim : sim.

Lemma expand_sim c1 c2 p c a b f : RC c1 c2 ->
  sim RC (expand_interval_to_chosen fuel c1 p c a b f) (expand_interval_to_chosen fuel c2 p c a b f).
Proof using All.
  intros HC. unfold expand_interval_to_chosen. do 7 (open_ctx; sim_step). eapply (sim_bind RC); [|intros; ctx_auto2].
  ctx_auto2.
Qed.
#[local] Hint Resolve expand_sim : sim.

Lemma concentrate_sim c1 c2 p c f : RC c1 c2 ->
  sim RC (concentrate_interval fuel c1 p c f) (concentrate_interval fuel c2 p c f).
Proof using All. intros HC. unfold concentrate_interval. ctx_auto2. Qed.
#[local] Hint Resolve concentrate_sim : sim.

(** *** tree.rs and inquirer.rs *)

Lemma find_common_sim n s1 s2 a r : R s1 s2 ->
  sim eq (find_common_tree_ancestor n s1 a r) (find_common_tree_ancestor n s2 a r).
Proof using All. intros HR. revert a. induction n as [|n IH]; intros a; cbn [find_common_tree_ancestor]; sim_auto. Qed.

Lemma advance_sim n s1 s2 h hh d a : R s1 s2 -> sim eq (advance_loop n s1 h hh d a) (advance_loop n s2 h hh d a).
Proof using All. intros HR. revert a. induction n as [|n IH]; intros a; cbn [advance_loop]; sim_auto. Qed.
#[local] Hint Resolve find_common_sim advance_sim : sim.

Lemma find_next_sim s1 s2 a h d sl : R s1 s2 ->
  sim eq (find_next_reindex_root fuel s1 a h d sl) (find_next_reindex_root fuel s2 a h d sl).
Proof using All. intros HR. unfold find_next_reindex_root. sim_auto. Qed.
#[local] Hint Resolve find_next_sim : sim.

Lemma concentrate_loop_sim n s1 s2 a b d sl : R s1 s2 ->
  sim R (concentrate_loop fuel n s1 a b d sl) (concentrate_loop fuel n s2 a b d sl).
Proof using All.
  revert s1 s2 a. induction n as [|n IH]; intros s1 s2 a HR; cbn [concentrate_loop]; [sim_auto|].
  sim_step; [sim_auto|]. sim_step. eapply (sim_bind RC); [apply concentrate_sim; unfold ctx_new; by constructor|].
  intros; ctx_auto2.
Qed.
#[local] Hint Resolve concentrate_loop_sim : sim.

Lemma try_advancing_sim s1 s2 h d sl : R s1 s2 ->
  sim R (try_advancing_reindex_root fuel s1 h d sl) (try_advancing_reindex_root fuel s2 h d sl).
Proof using All. intros HR. unfold try_advancing_reindex_root. ctx_auto2. Qed.

End Refine.
