(* ===== verification/ReachabilityStaging.v ===== *)
(** * The database reachability store and its staging layer

    Model of [DbReachabilityStore] and [StagingReachabilityStore] of
    consensus/src/model/stores/reachability.rs.  The node runs the reachability
    algorithms on a staging store, which buffers every change on top of a
    read-locked database store and commits the changes in one batch.  The main
    access of the database store is a map (a coherent cached access); the ordered
    sets of children and future covering blocks are kept as the code keeps them,
    an unordered set on disk and an ordered list in the cache. *)

From Stdlib Require Import ZArith Lia Bool.
From stdpp Require Import base gmap numbers list sorting.
From S2P Require Import Prelude Interval ReachabilityStore ReachabilityQueries ReachabilityTree ReachabilityReindex ReachabilityBlocks ReachabilityRefine.

#[local] Open Scope Z_scope.

Record ReachabilityData := mk_rdata {
  rd_parent : Hash;
  rd_interval : Interval;
  rd_height : Z
}.

(** The derived order of [Interval]: by start, then by end. *)
Definition interval_le (a b : Interval) : Prop :=
  iv_start a < iv_start b \/ (iv_start a = iv_start b /\ iv_end a <= iv_end b).

#[export] Instance interval_le_dec a b : Decision (interval_le a b).
Proof. unfold interval_le. apply _. Defined.

(** ** DbReachabilitySet *)

Record DbReachabilitySet := mk_dbset {
  ds_disk : gmap N (gset N);
  ds_cache : gmap N (list N)
}.

(** [DbSetAccess]: the bucket of a key, and writes and deletions in it. *)
Definition bucket (s : DbReachabilitySet) (h : Hash) : gset N := default ∅ (ds_disk s !! h).
Definition disk_write (s : DbReachabilitySet) (h x : Hash) : DbReachabilitySet :=
  mk_dbset (<[h := {[x]} ∪ bucket s h]> (ds_disk s)) (ds_cache s).
Definition disk_delete (s : DbReachabilitySet) (h x : Hash) : DbReachabilitySet :=
  mk_dbset (<[h := bucket s h ∖ {[x]}]> (ds_disk s)) (ds_cache s).
Definition cache_set (s : DbReachabilitySet) (h : Hash) (l : list Hash) : DbReachabilitySet :=
  mk_dbset (ds_disk s) (<[h := l]> (ds_cache s)).

Definition dbset_append (s : DbReachabilitySet) (h x : Hash) : DbReachabilitySet :=
  let s := match ds_cache s !! h with Some l => cache_set s h (l ++ [x]) | None => s end in
  disk_write s h x.

Definition dbset_insert (s : DbReachabilitySet) (h x : Hash) (i : nat) : rresult DbReachabilitySet :=
  let! s := match ds_cache s !! h with
            | Some l => let! l := vec_insert i x l in Ok (cache_set s h l)
            | None => Ok s
            end in
  Ok (disk_write s h x).

Definition dbset_replace (s : DbReachabilitySet) (h replaced : Hash) (i : nat) (with_ : list Hash) :
    rresult DbReachabilitySet :=
  let! s := match ds_cache s !! h with
            | Some l => let! l := vec_splice1 i with_ l in Ok (cache_set s h l)
            | None => Ok s
            end in
  Ok (foldl (fun s x => disk_write s h x) (disk_delete s h replaced) with_).

Definition dbset_delete (s : DbReachabilitySet) (h : Hash) : DbReachabilitySet :=
  mk_dbset (delete h (ds_disk s)) (delete h (ds_cache s)).

(** [read]: the cached list, or the bucket sorted by [key], which is then
    cached.  The key closure unwraps, so it panics on a missing block. *)
Definition dbset_read (key : Hash -> rresult Interval) (s : DbReachabilitySet) (h : Hash) :
    rresult (list Hash * DbReachabilitySet) :=
  match ds_cache s !! h with
  | Some l => Ok (l, s)
  | None =>
      let! keyed := mapM_out (fun x => match key x with Ok i => Ok (i, x) | OutOfFuel => OutOfFuel | _ => Panic end)
                      (elements (bucket s h)) in
      let l := (merge_sort (fun p q => interval_le p.1 q.1) keyed).*2 in
      Ok (l, cache_set s h l)
  end.

(** ** DbReachabilityStore *)

Record DbReachabilityStore := mk_dbstore {
  db_access : gmap N ReachabilityData;
  db_children : DbReachabilitySet;
  db_fcs : DbReachabilitySet;
  db_reindex_root : option Hash
}.

Definition db_read (db : DbReachabilityStore) (h : Hash) : rresult ReachabilityData :=
  match db_access db !! h with
  | Some d => Ok d
  | None => Err (StoreErr (KeyNotFound (Some h)))
  end.

Definition db_write (db : DbReachabilityStore) (h : Hash) (d : ReachabilityData) : DbReachabilityStore :=
  mk_dbstore (<[h := d]> (db_access db)) (db_children db) (db_fcs db) (db_reindex_root db).
Definition db_with_children (db : DbReachabilityStore) (s : DbReachabilitySet) : DbReachabilityStore :=
  mk_dbstore (db_access db) s (db_fcs db) (db_reindex_root db).
Definition db_with_fcs (db : DbReachabilityStore) (s : DbReachabilitySet) : DbReachabilityStore :=
  mk_dbstore (db_access db) (db_children db) s (db_reindex_root db).
Definition db_set_root (db : DbReachabilityStore) (r : Hash) : DbReachabilityStore :=
  mk_dbstore (db_access db) (db_children db) (db_fcs db) (Some r).

Definition db_init (db : DbReachabilityStore) (origin : Hash) (capacity : Interval) : rresult DbReachabilityStore :=
  let! _ := rassert (bool_decide (db_access db !! origin = None)) in
  Ok (db_set_root (db_write db origin (mk_rdata hash_NONE capacity 0)) origin).

Definition db_insert (db : DbReachabilityStore) (h parent : Hash) (i : Interval) (height : Z) :
    rresult DbReachabilityStore :=
  match db_access db !! h with
  | Some _ => Err (StoreErr (HashAlreadyExists h))
  | None => Ok (db_write db h (mk_rdata parent i height))
  end.

Definition db_set_interval (db : DbReachabilityStore) (h : Hash) (i : Interval) : rresult DbReachabilityStore :=
  let! d := db_read db h in Ok (db_write db h (mk_rdata (rd_parent d) i (rd_height d))).
Definition db_set_parent (db : DbReachabilityStore) (h p : Hash) : rresult DbReachabilityStore :=
  let! d := db_read db h in Ok (db_write db h (mk_rdata p (rd_interval d) (rd_height d))).

Definition db_delete (db : DbReachabilityStore) (h : Hash) : rresult DbReachabilityStore :=
  Ok (mk_dbstore (delete h (db_access db)) (db_children db) (db_fcs db) (db_reindex_root db)).

(** Reads of the sets.  The cached copy they leave behind is a copy of what a
    later read would compute, as long as intervals and buckets do not change. *)
Definition db_key (db : DbReachabilityStore) (h : Hash) : rresult Interval := rd_interval <$> db_read db h.
Definition db_get_children (db : DbReachabilityStore) (h : Hash) : rresult (list Hash) :=
  fst <$> dbset_read (db_key db) (db_children db) h.
Definition db_get_fcs (db : DbReachabilityStore) (h : Hash) : rresult (list Hash) :=
  fst <$> dbset_read (db_key db) (db_fcs db) h.
Definition db_get_root (db : DbReachabilityStore) : rresult Hash :=
  match db_reindex_root db with Some r => Ok r | None => Err (StoreErr (KeyNotFound None)) end.

#[export] Instance db_store : ReachabilityStore DbReachabilityStore := {
  has db h := Ok (bool_decide (is_Some (db_access db !! h)));
  get_interval db h := rd_interval <$> db_read db h;
  get_parent db h := rd_parent <$> db_read db h;
  get_children := db_get_children;
  get_future_covering_set := db_get_fcs;
  store_init := db_init;
  store_insert := db_insert;
  set_interval := db_set_interval;
  append_child db h c := Ok (db_with_children db (dbset_append (db_children db) h c));
  insert_future_covering_item db h f i := db_with_fcs db <$> dbset_insert (db_fcs db) h f i;
  set_parent := db_set_parent;
  replace_child db h r i w := db_with_children db <$> dbset_replace (db_children db) h r i w;
  replace_future_covering_item db h r i w := db_with_fcs db <$> dbset_replace (db_fcs db) h r i w;
  store_delete := db_delete;
  get_height db h := rd_height <$> db_read db h;
  set_reindex_root db r := Ok (db_set_root db r);
  get_reindex_root := db_get_root
}.

(** ** StagingSetEntry *)

Record StagingSetEntry := mk_entry {
  e_set : list N;
  e_additions : gset N;
  e_deletions : gset N
}.

Definition entry_new (cached_set : list N) : StagingSetEntry := mk_entry cached_set ∅ ∅.

Definition mark_addition (e : StagingSetEntry) (x : Hash) : StagingSetEntry :=
  if decide (x ∈ e_deletions e) then mk_entry (e_set e) (e_additions e) (e_deletions e ∖ {[x]})
  else mk_entry (e_set e) ({[x]} ∪ e_additions e) (e_deletions e).

Definition mark_deletion (e : StagingSetEntry) (x : Hash) : StagingSetEntry :=
  if decide (x ∈ e_additions e) then mk_entry (e_set e) (e_additions e ∖ {[x]}) (e_deletions e)
  else mk_entry (e_set e) (e_additions e) ({[x]} ∪ e_deletions e).

Definition entry_append (e : StagingSetEntry) (x : Hash) : StagingSetEntry :=
  mark_addition (mk_entry (e_set e ++ [x]) (e_additions e) (e_deletions e)) x.

Definition entry_insert (e : StagingSetEntry) (x : Hash) (i : nat) : rresult StagingSetEntry :=
  let! l := vec_insert i x (e_set e) in
  Ok (mark_addition (mk_entry l (e_additions e) (e_deletions e)) x).

Definition entry_replace (e : StagingSetEntry) (replaced : Hash) (i : nat) (with_ : list Hash) :
    rresult StagingSetEntry :=
  let! l := vec_splice1 i with_ (e_set e) in
  Ok (foldl mark_addition (mark_deletion (mk_entry l (e_additions e) (e_deletions e)) replaced) with_).

Definition commit_staging_entry (s : DbReachabilitySet) (h : Hash) (e : StagingSetEntry) : DbReachabilitySet :=
  let s := cache_set s h (e_set e) in
  let s := foldl (fun s x => disk_delete s h x) s (elements (e_deletions e)) in
  foldl (fun s x => disk_write s h x) s (elements (e_additions e)).

(** ** StagingReachabilityStore *)

Record StagingReachabilityStore := mk_staging {
  st_read : DbReachabilityStore;
  st_writes : gmap N ReachabilityData;
  st_children : gmap N StagingSetEntry;
  st_fcs : gmap N StagingSetEntry;
  st_deletions : gset N;
  st_root : option Hash
}.

Definition staging_new (db : DbReachabilityStore) : StagingReachabilityStore := mk_staging db ∅ ∅ ∅ ∅ None.

Definition st_with_writes (t : StagingReachabilityStore) (w : gmap N ReachabilityData) : StagingReachabilityStore :=
  mk_staging (st_read t) w (st_children t) (st_fcs t) (st_deletions t) (st_root t).
Definition st_with_children (t : StagingReachabilityStore) (c : gmap N StagingSetEntry) : StagingReachabilityStore :=
  mk_staging (st_read t) (st_writes t) c (st_fcs t) (st_deletions t) (st_root t).
Definition st_with_fcs (t : StagingReachabilityStore) (f : gmap N StagingSetEntry) : StagingReachabilityStore :=
  mk_staging (st_read t) (st_writes t) (st_children t) f (st_deletions t) (st_root t).

Definition staging_set_root (t : StagingReachabilityStore) (r : Hash) : rresult StagingReachabilityStore :=
  Ok (mk_staging (st_read t) (st_writes t) (st_children t) (st_fcs t) (st_deletions t) (Some r)).

Definition check_not_in_deletions (t : StagingReachabilityStore) (h : Hash) : rresult unit :=
  if decide (h ∈ st_deletions t) then Err (StoreErr (KeyNotFound (Some h))) else Ok tt.

Definition staging_insert (t : StagingReachabilityStore) (h parent : Hash) (i : Interval) (height : Z) :
    rresult StagingReachabilityStore :=
  match db_access (st_read t) !! h with
  | Some _ => Err (StoreErr (HashAlreadyExists h))
  | None =>
      match st_writes t !! h with
      | None => Ok (st_with_writes t (<[h := mk_rdata parent i height]> (st_writes t)))
      | Some _ => Err (StoreErr (HashAlreadyExists h))
      end
  end.

Definition staging_init (t : StagingReachabilityStore) (origin : Hash) (capacity : Interval) :
    rresult StagingReachabilityStore :=
  let! t := staging_insert t origin hash_NONE capacity 0 in staging_set_root t origin.

(** [staging_writes.get_mut(&hash)], or the stored data, which is then staged. *)
Definition staging_data (t : StagingReachabilityStore) (h : Hash) : rresult ReachabilityData :=
  match st_writes t !! h with
  | Some d => Ok d
  | None => db_read (st_read t) h
  end.

Definition staging_set_interval (t : StagingReachabilityStore) (h : Hash) (i : Interval) :
    rresult StagingReachabilityStore :=
  let! d := staging_data t h in
  Ok (st_with_writes t (<[h := mk_rdata (rd_parent d) i (rd_height d)]> (st_writes t))).

Definition staging_set_parent (t : StagingReachabilityStore) (h p : Hash) : rresult StagingReachabilityStore :=
  let! d := staging_data t h in
  Ok (st_with_writes t (<[h := mk_rdata p (rd_interval d) (rd_height d)]> (st_writes t))).

(** The staged entry, or a new one from the stored set. *)
Definition children_entry (t : StagingReachabilityStore) (h : Hash) : rresult StagingSetEntry :=
  match st_children t !! h with
  | Some e => Ok e
  | None => entry_new <$> db_get_children (st_read t) h
  end.
Definition fcs_entry (t : StagingReachabilityStore) (h : Hash) : rresult StagingSetEntry :=
  match st_fcs t !! h with
  | Some e => Ok e
  | None => entry_new <$> db_get_fcs (st_read t) h
  end.

Definition staging_append_child (t : StagingReachabilityStore) (h c : Hash) : rresult StagingReachabilityStore :=
  let! e := children_entry t h in
  Ok (st_with_children t (<[h := entry_append e c]> (st_children t))).

Definition staging_insert_fci (t : StagingReachabilityStore) (h f : Hash) (i : nat) : rresult StagingReachabilityStore :=
  let! e := fcs_entry t h in
  let! e := entry_insert e f i in
  Ok (st_with_fcs t (<[h := e]> (st_fcs t))).

Definition staging_replace_child (t : StagingReachabilityStore) (h replaced : Hash) (i : nat) (with_ : list Hash) :
    rresult StagingReachabilityStore :=
  let! e := children_entry t h in
  let! e := entry_replace e replaced i with_ in
  Ok (st_with_children t (<[h := e]> (st_children t))).

Definition staging_replace_fci (t : StagingReachabilityStore) (h replaced : Hash) (i : nat) (with_ : list Hash) :
    rresult StagingReachabilityStore :=
  let! e := fcs_entry t h in
  let! e := entry_replace e replaced i with_ in
  Ok (st_with_fcs t (<[h := e]> (st_fcs t))).

Definition staging_delete (t : StagingReachabilityStore) (h : Hash) : rresult StagingReachabilityStore :=
  Ok (mk_staging (st_read t) (delete h (st_writes t)) (st_children t) (st_fcs t) ({[h]} ∪ st_deletions t) (st_root t)).

Definition staging_has (t : StagingReachabilityStore) (h : Hash) : rresult bool :=
  if decide (h ∈ st_deletions t) then Ok false else
  Ok (bool_decide (is_Some (st_writes t !! h)) || bool_decide (is_Some (db_access (st_read t) !! h))).

Definition staging_get_children (t : StagingReachabilityStore) (h : Hash) : rresult (list Hash) :=
  let! _ := check_not_in_deletions t h in
  match st_children t !! h with
  | Some e => Ok (e_set e)
  | None => db_get_children (st_read t) h
  end.

Definition staging_get_fcs (t : StagingReachabilityStore) (h : Hash) : rresult (list Hash) :=
  let! _ := check_not_in_deletions t h in
  match st_fcs t !! h with
  | Some e => Ok (e_set e)
  | None => db_get_fcs (st_read t) h
  end.

Definition staging_get_root (t : StagingReachabilityStore) : rresult Hash :=
  match st_root t with Some r => Ok r | None => db_get_root (st_read t) end.

#[export] Instance staging_store : ReachabilityStore StagingReachabilityStore := {
  has := staging_has;
  get_interval t h := let! _ := check_not_in_deletions t h in rd_interval <$> staging_data t h;
  get_parent t h := let! _ := check_not_in_deletions t h in rd_parent <$> staging_data t h;
  get_children := staging_get_children;
  get_future_covering_set := staging_get_fcs;
  store_init := staging_init;
  store_insert := staging_insert;
  set_interval := staging_set_interval;
  append_child := staging_append_child;
  insert_future_covering_item := staging_insert_fci;
  set_parent := staging_set_parent;
  replace_child := staging_replace_child;
  replace_future_covering_item := staging_replace_fci;
  store_delete := staging_delete;
  get_height t h := let! _ := check_not_in_deletions t h in rd_height <$> staging_data t h;
  set_reindex_root := staging_set_root;
  get_reindex_root := staging_get_root
}.

(** [commit]: the staged writes, then the staged sets, then the deletions. *)
Definition staging_commit (t : StagingReachabilityStore) : DbReachabilityStore :=
  let db := st_read t in
  let access := foldr delete (st_writes t ∪ db_access db) (elements (st_deletions t)) in
  let children := foldl (fun s p => commit_staging_entry s p.1 p.2) (db_children db) (map_to_list (st_children t)) in
  let fcs := foldl (fun s p => commit_staging_entry s p.1 p.2) (db_fcs db) (map_to_list (st_fcs t)) in
  let children := foldl dbset_delete children (elements (st_deletions t)) in
  let fcs := foldl dbset_delete fcs (elements (st_deletions t)) in
  mk_dbstore access children fcs (match st_root t with Some r => Some r | None => db_reindex_root db end).
