(* ===== verification/ReachabilityCommit.v ===== *)
(** * Staging simulates the memory store, and commits what it holds

    The staging store simulates the memory store on every operation, so the
    algorithms run on it with the guarantees proved on the memory store.  Each
    staged set entry records exactly the difference to the stored set, so
    [commit] leaves a database that holds the staged contents, in its caches and
    on disk. *)

From Stdlib Require Import ZArith Lia Bool.
From stdpp Require Import base gmap numbers list sorting.
From S2P Require Import Prelude Interval ReachabilityStore ReachabilityQueries ReachabilityTree ReachabilityReindex ReachabilityBlocks ReachabilityRefine ReachabilityStaging.

#[local] Open Scope Z_scope.

Abbreviation set_of l := (list_to_set l : gset N).

(** ** Contents of the stores *)

Definition db_children_of (db : DbReachabilityStore) (h : N) : list N :=
  match db_get_children db h with Ok l => l | _ => [] end.
Definition db_fcs_of (db : DbReachabilityStore) (h : N) : list N :=
  match db_get_fcs db h with Ok l => l | _ => [] end.

(** Every set can be read, lists its bucket without repetition, and only blocks
    that are present have sets. *)
Record db_ok (db : DbReachabilityStore) : Prop := mk_db_ok {
  dbo_children h : db_get_children db h = Ok (db_children_of db h) /\ NoDup (db_children_of db h) /\
    set_of (db_children_of db h) = bucket (db_children db) h;
  dbo_fcs h : db_get_fcs db h = Ok (db_fcs_of db h) /\ NoDup (db_fcs_of db h) /\
    set_of (db_fcs_of db h) = bucket (db_fcs db) h;
  dbo_absent h : db_access db !! h = None -> db_children_of db h = [] /\ db_fcs_of db h = []
}.

Definition data_of (rd : ReachabilityData) (children fcs : list N) : MemoryReachabilityData :=
  mk_data children (rd_parent rd) (rd_interval rd) (rd_height rd) fcs.

Definition db_view (db : DbReachabilityStore) (h : N) : option MemoryReachabilityData :=
  (fun rd => data_of rd (db_children_of db h) (db_fcs_of db h)) <$> db_access db !! h.

Definition staged_children (t : StagingReachabilityStore) (h : N) : list N :=
  match st_children t !! h with Some e => e_set e | None => db_children_of (st_read t) h end.
Definition staged_fcs (t : StagingReachabilityStore) (h : N) : list N :=
  match st_fcs t !! h with Some e => e_set e | None => db_fcs_of (st_read t) h end.
Definition staged_data (t : StagingReachabilityStore) (h : N) : option ReachabilityData :=
  match st_writes t !! h with Some rd => Some rd | None => db_access (st_read t) !! h end.

Definition staging_view (t : StagingReachabilityStore) (h : N) : option MemoryReachabilityData :=
  if decide (h ∈ st_deletions t) then None
  else (fun rd => data_of rd (staged_children t h) (staged_fcs t h)) <$> staged_data t h.

Definition staging_root (t : StagingReachabilityStore) : option N :=
  match st_root t with Some r => Some r | None => db_reindex_root (st_read t) end.

(** ** Exact differences *)

(** The entry lists its set without repetition, and its marks are the
    difference to the stored list [l0]. *)
Record exact (l0 : list N) (e : StagingSetEntry) : Prop := mk_exact {
  ex_nodup : NoDup (e_set e);
  ex_add : e_additions e = set_of (e_set e) ∖ set_of l0;
  ex_del : e_deletions e = set_of l0 ∖ set_of (e_set e)
}.

Lemma exact_new l0 : NoDup l0 -> exact l0 (entry_new l0).
Proof. intros. split; cbn; [done|set_solver..]. Qed.

(** The marks alone, for a set [A] being edited. *)
Definition marks (l0 : list N) (A : gset N) (e : StagingSetEntry) : Prop :=
  e_additions e = A ∖ set_of l0 /\ e_deletions e = set_of l0 ∖ A.

Lemma mark_addition_marks l0 A e x : x ∉ A -> marks l0 A e -> marks l0 ({[x]} ∪ A) (mark_addition e x).
Proof.
  intros Hx [Ha Hd]. unfold mark_addition, marks. rewrite Ha, Hd.
  case_decide as Hin; cbn; [|assert (x ∉ set_of l0) by set_solver]; split; apply set_eq; intros y;
    destruct (decide (y = x)); set_solver.
Qed.

Lemma mark_deletion_marks l0 A e x : x ∈ A -> marks l0 A e -> marks l0 (A ∖ {[x]}) (mark_deletion e x).
Proof.
  intros Hx [Ha Hd]. unfold mark_deletion, marks. rewrite Ha, Hd.
  case_decide as Hin; cbn; [|assert (x ∈ set_of l0) by (destruct (decide (x ∈ set_of l0)); set_solver)];
    split; apply set_eq; intros y; destruct (decide (y = x)); set_solver.
Qed.

Lemma mark_addition_set e x : e_set (mark_addition e x) = e_set e.
Proof. unfold mark_addition. by case_decide. Qed.
Lemma mark_deletion_set e x : e_set (mark_deletion e x) = e_set e.
Proof. unfold mark_deletion. by case_decide. Qed.
Lemma mark_additions_set e l : e_set (foldl mark_addition e l) = e_set e.
Proof. revert e. induction l as [|x l IH]; intros e; cbn; [done|]. by rewrite IH, mark_addition_set. Qed.

Lemma mark_additions_marks l0 A e l :
  NoDup l -> (forall x, x ∈ l -> x ∉ A) -> marks l0 A e -> marks l0 (set_of l ∪ A) (foldl mark_addition e l).
Proof.
  intros Hnd. revert A e. induction Hnd as [|x l Hx Hnd IH]; intros A e Hdis Hm; cbn.
  - by replace (∅ ∪ A) with A by set_solver.
  - replace ({[x]} ∪ set_of l ∪ A) with (set_of l ∪ ({[x]} ∪ A)) by set_solver.
    apply IH; [|apply mark_addition_marks; [apply Hdis; left|done]].
    intros y Hy. apply not_elem_of_union. split; [set_solver|apply Hdis; by right].
Qed.

Lemma exact_marks l0 e : exact l0 e <-> NoDup (e_set e) /\ marks l0 (set_of (e_set e)) e.
Proof. split; [intros []; done|intros (? & ? & ?); by split]. Qed.

Lemma entry_append_exact l0 e x : exact l0 e -> x ∉ e_set e -> exact l0 (entry_append e x).
Proof.
  intros [Hnd Hm]%exact_marks Hx. apply exact_marks. unfold entry_append. rewrite mark_addition_set. cbn.
  split; [apply NoDup_app; split_and!; [done|set_solver|apply NoDup_singleton]|].
  replace (set_of (e_set e ++ [x])) with ({[x]} ∪ set_of (e_set e)) by set_solver.
  apply mark_addition_marks; [set_solver|done].
Qed.

Lemma entry_insert_exact l0 e x i e' :
  exact l0 e -> x ∉ e_set e -> entry_insert e x i = Ok e' ->
  exact l0 e' /\ vec_insert (E := ReachabilityError) i x (e_set e) = Ok (e_set e').
Proof.
  intros [Hnd Hm]%exact_marks Hx. unfold entry_insert. intros Hi.
  apply bind_Ok in Hi as (l & Hl & [= <-]). rewrite mark_addition_set. cbn. split; [|done].
  unfold vec_insert in Hl. destruct (_ <=? _)%nat; [|done]. injection Hl as <-.
  assert (Hp : take i (e_set e) ++ x :: drop i (e_set e) ≡ₚ x :: e_set e).
  { rewrite <-(take_drop i (e_set e)) at 3. by rewrite Permutation_middle. }
  apply exact_marks. rewrite mark_addition_set. cbn. split; [rewrite Hp; by constructor|].
  replace (set_of (take i (e_set e) ++ x :: drop i (e_set e))) with ({[x]} ∪ set_of (e_set e)).
  - apply mark_addition_marks; [set_solver|done].
  - apply set_eq. intros y. rewrite (elem_of_list_to_set y (_ ++ _)), Hp. set_solver.
Qed.

Lemma entry_replace_exact l0 e b i ch e' :
  exact l0 e -> e_set e !! i = Some b -> NoDup ch -> (forall c, c ∈ ch -> c ∉ e_set e) ->
  entry_replace e b i ch = Ok e' ->
  exact l0 e' /\ vec_splice1 (E := ReachabilityError) i ch (e_set e) = Ok (e_set e').
Proof.
  intros [Hnd Hm]%exact_marks Hb Hch Hdis. unfold entry_replace. intros Hi.
  apply bind_Ok in Hi as (l & Hl & [= <-]). rewrite mark_additions_set, mark_deletion_set. cbn. split; [|done].
  destruct (list_elem_of_split_length _ _ _ Hb) as (l1 & l2 & Hs & ->).
  assert (l = l1 ++ ch ++ l2) as ->.
  { rewrite Hs, splice_at in Hl. congruence. }
  rewrite Hs in Hnd, Hdis, Hm. apply NoDup_app in Hnd as (Hn1 & Hn12 & [Hb2 Hn2]%NoDup_cons).
  apply exact_marks. rewrite mark_additions_set, mark_deletion_set. cbn. split.
  - apply NoDup_app. split_and!; [done| |apply NoDup_app; split_and!; [done|intros x Hx; set_solver|done]].
    intros x Hx1 Hx. apply elem_of_app in Hx as [Hx|Hx]; [apply (Hdis _ Hx); set_solver|apply (Hn12 _ Hx1); by right].
  - replace (set_of (l1 ++ ch ++ l2)) with (set_of ch ∪ (set_of (l1 ++ b :: l2) ∖ {[b]})).
    + apply mark_additions_marks; [done|set_solver|]. apply mark_deletion_marks; [set_solver|done].
    + assert (b ∉ l1) by (intros Hb1; apply (Hn12 _ Hb1); left). apply set_eq. intros y.
      destruct (decide (y = b)); set_solver.
Qed.

(** ** The simulation *)

(** [staged allowed s t]: the staging store [t] holds what the memory store [s]
    holds; the blocks of [allowed] are the ones that may still be inserted. *)
Record staged (allowed : N -> Prop) (s : MemoryReachabilityStore) (t : StagingReachabilityStore) : Prop := mk_staged {
  sg_base : db_ok (st_read t);
  sg_view h : m_map s !! h = staging_view t h;
  sg_root : m_reindex_root s = staging_root t;
  sg_fresh h : staged_data t h = None -> h ∉ st_deletions t -> st_children t !! h = None /\ st_fcs t !! h = None;
  sg_children h e : st_children t !! h = Some e -> exact (db_children_of (st_read t) h) e;
  sg_fcs h e : st_fcs t !! h = Some e -> exact (db_fcs_of (st_read t) h) e;
  sg_allowed h : allowed h -> h ∉ st_deletions t
}.

Section Staged.
Context (allowed : N -> Prop).
Implicit Types (s : MemoryReachabilityStore) (t : StagingReachabilityStore).

Lemma staged_lookup s t h d :
  staged allowed s t -> m_map s !! h = Some d -> exists rd, (h ∉ st_deletions t) /\ staged_data t h = Some rd /\
    d = data_of rd (staged_children t h) (staged_fcs t h).
Proof using.
  intros Hst. rewrite (sg_view _ _ _ Hst). unfold staging_view. case_decide; [done|].
  destruct (staged_data t h) as [rd|]; [|done]. intros [= <-]. eauto.
Qed.

Lemma staging_data_Ok t h rd : staged_data t h = Some rd -> staging_data t h = Ok rd.
Proof using.
  unfold staged_data, staging_data, db_read. destruct (st_writes t !! h); [by intros [= <-]|].
  by intros ->.
Qed.

Lemma not_deleted t h : h ∉ st_deletions t -> check_not_in_deletions t h = Ok tt.
Proof using. intros H. unfold check_not_in_deletions. by rewrite decide_False. Qed.

Lemma mem_read {A} (f : MemoryReachabilityData -> A) s h a :
  f <$> mem_get_data s h = Ok a -> exists d, m_map s !! h = Some d /\ a = f d.
Proof using.
  unfold mem_get_data. destruct (m_map s !! h) as [d|]; cbn; [|done]. intros [= <-]. eauto.
Qed.

Lemma read_children s t h : staged allowed s t -> h ∉ st_deletions t -> staging_get_children t h = Ok (staged_children t h).
Proof using.
  intros Hst Hd. unfold staging_get_children, staged_children. rewrite not_deleted by done. cbn [obind].
  destruct (st_children t !! h); [done|]. apply (dbo_children _ (sg_base _ _ _ Hst)).
Qed.

Lemma read_fcs s t h : staged allowed s t -> h ∉ st_deletions t -> staging_get_fcs t h = Ok (staged_fcs t h).
Proof using.
  intros Hst Hd. unfold staging_get_fcs, staged_fcs. rewrite not_deleted by done. cbn [obind].
  destruct (st_fcs t !! h); [done|]. apply (dbo_fcs _ (sg_base _ _ _ Hst)).
Qed.

#[export] Instance staged_reads : reads_agree (staged allowed).
Proof using.
  split.
  - intros s t h Hst a [= <-]. cbn. unfold staging_has. rewrite (sg_view _ _ _ Hst). unfold staging_view, staged_data.
    case_decide; [eexists; split; [done|]; by rewrite bool_decide_eq_false_2 by (by intros [? ?])|].
    eexists. split; [done|].
    destruct (st_writes t !! h); [done|]. destruct (db_access (st_read t) !! h); done.
  - intros s t h Hst a Ha. cbn in Ha. apply mem_read in Ha as (d & Hd & ->).
    destruct (staged_lookup _ _ _ _ Hst Hd) as (rd & Hn & Hrd & ->). cbn.
    rewrite not_deleted, (staging_data_Ok _ _ _ Hrd) by done. cbn. eauto.
  - intros s t h Hst a Ha. cbn in Ha. apply mem_read in Ha as (d & Hd & ->).
    destruct (staged_lookup _ _ _ _ Hst Hd) as (rd & Hn & Hrd & ->). cbn.
    rewrite not_deleted, (staging_data_Ok _ _ _ Hrd) by done. cbn. eauto.
  - intros s t h Hst a Ha. cbn in Ha. apply mem_read in Ha as (d & Hd & ->).
    destruct (staged_lookup _ _ _ _ Hst Hd) as (rd & Hn & Hrd & ->). cbn.
    rewrite (read_children s) by done. eauto.
  - intros s t h Hst a Ha. cbn in Ha. apply mem_read in Ha as (d & Hd & ->).
    destruct (staged_lookup _ _ _ _ Hst Hd) as (rd & Hn & Hrd & ->). cbn.
    rewrite (read_fcs s) by done. eauto.
  - intros s t h Hst a Ha. cbn in Ha. apply mem_read in Ha as (d & Hd & ->).
    destruct (staged_lookup _ _ _ _ Hst Hd) as (rd & Hn & Hrd & ->). cbn.
    rewrite not_deleted, (staging_data_Ok _ _ _ Hrd) by done. cbn. eauto.
  - intros s t Hst a. cbn. unfold mem_get_reindex_root, staging_get_root, db_get_root.
    rewrite (sg_root _ _ _ Hst). unfold staging_root. destruct (st_root t); [intros [= <-]; eauto|].
    destruct (db_reindex_root (st_read t)); [intros [= <-]; eauto|done].
Qed.

(** Staging a change of the main data of one present block. *)
Lemma staged_write s t h d rd rd' :
  staged allowed s t -> m_map s !! h = Some d -> staged_data t h = Some rd ->
  staged allowed (mem_put s h (data_of rd' (staged_children t h) (staged_fcs t h)))
    (st_with_writes t (<[h := rd']> (st_writes t))).
Proof using.
  intros Hst Hd Hrd. destruct (staged_lookup _ _ _ _ Hst Hd) as (_ & Hn & _ & _).
  assert (Hdata : forall x, staged_data (st_with_writes t (<[h := rd']> (st_writes t))) x =
    (if decide (x = h) then Some rd' else staged_data t x)).
  { intros x. unfold staged_data. cbn. rewrite lookup_insert. destruct (decide (h = x)), (decide (x = h)); congruence. }
  destruct Hst as [Hb Hv Hr Hf Hc Hfc Ha]. split; try done.
  - intros x. cbn. rewrite lookup_insert. unfold staging_view. rewrite Hdata. cbn [st_deletions st_with_writes].
    destruct (decide (h = x)) as [->|Hne].
    + by rewrite decide_False, decide_True by done.
    + rewrite Hv. unfold staging_view. by rewrite (decide_False (P := x = h)) by congruence.
  - intros x. rewrite Hdata. case_decide; [done|]. apply Hf.
Qed.

Lemma staged_interval s t h i : staged allowed s t -> sim (staged allowed) (set_interval s h i) (set_interval t h i).
Proof using.
  intros Hst s' Hs. cbn in Hs. unfold mem_set_interval in Hs. apply bind_Ok in Hs as (d & Hd & [= <-]).
  apply mem_get_data_Ok in Hd. destruct (staged_lookup _ _ _ _ Hst Hd) as (rd & Hn & Hrd & Hdd).
  cbn. unfold staging_set_interval. rewrite (staging_data_Ok _ _ _ Hrd). cbn [obind]. eexists. split; [done|].
  subst d. by eapply (staged_write s t h _ rd (mk_rdata (rd_parent rd) i (rd_height rd))).
Qed.

Lemma staged_parent s t h p : staged allowed s t -> sim (staged allowed) (set_parent s h p) (set_parent t h p).
Proof using.
  intros Hst s' Hs. cbn in Hs. unfold mem_set_parent in Hs. apply bind_Ok in Hs as (d & Hd & [= <-]).
  apply mem_get_data_Ok in Hd. destruct (staged_lookup _ _ _ _ Hst Hd) as (rd & Hn & Hrd & Hdd).
  cbn. unfold staging_set_parent. rewrite (staging_data_Ok _ _ _ Hrd). cbn [obind]. eexists. split; [done|].
  subst d. by eapply (staged_write s t h _ rd (mk_rdata p (rd_interval rd) (rd_height rd))).
Qed.

Lemma staged_set_root s t r :
  staged allowed s t -> sim (staged allowed) (set_reindex_root s r) (set_reindex_root t r).
Proof using.
  intros Hst s' [= <-]. cbn. eexists. split; [done|]. by destruct Hst as [Hb Hv Hr Hf Hc Hfc Ha].
Qed.

#[export] Instance staged_simulates : simulates (staged allowed).
Proof using. split; [apply _|exact staged_interval|exact staged_set_root]. Qed.
(** *** Sets *)

Lemma children_entry_Ok s t h : staged allowed s t ->
  exists e, children_entry t h = Ok e /\ e_set e = staged_children t h /\ exact (db_children_of (st_read t) h) e.
Proof using.
  intros Hst. unfold children_entry, staged_children. destruct (st_children t !! h) as [e|] eqn:He.
  - exists e. split_and!; [done..|]. by apply (sg_children _ _ _ Hst).
  - destruct (dbo_children _ (sg_base _ _ _ Hst) h) as (Hr & Hnd & _). rewrite Hr. cbn.
    eexists. split_and!; [done..|]. by apply exact_new.
Qed.

Lemma fcs_entry_Ok s t h : staged allowed s t ->
  exists e, fcs_entry t h = Ok e /\ e_set e = staged_fcs t h /\ exact (db_fcs_of (st_read t) h) e.
Proof using.
  intros Hst. unfold fcs_entry, staged_fcs. destruct (st_fcs t !! h) as [e|] eqn:He.
  - exists e. split_and!; [done..|]. by apply (sg_fcs _ _ _ Hst).
  - destruct (dbo_fcs _ (sg_base _ _ _ Hst) h) as (Hr & Hnd & _). rewrite Hr. cbn.
    eexists. split_and!; [done..|]. by apply exact_new.
Qed.

Lemma staged_children_put s t h d e :
  staged allowed s t -> m_map s !! h = Some d -> exact (db_children_of (st_read t) h) e ->
  staged allowed (mem_put s h (with_children d (e_set e))) (st_with_children t (<[h := e]> (st_children t))).
Proof using.
  intros Hst Hd He. destruct (staged_lookup _ _ _ _ Hst Hd) as (rd & Hn & Hrd & ->).
  destruct Hst as [Hb Hv Hr Hf Hc Hfc Ha]. split; try done.
  - intros x. cbn. rewrite lookup_insert. unfold staging_view, staged_children. cbn. rewrite lookup_insert.
    destruct (decide (h = x)) as [->|Hne].
    + rewrite decide_False by done. change (staged_data _ x) with (staged_data t x). by rewrite Hrd.
    + rewrite Hv. reflexivity.
  - intros x Hx Hxd. cbn in *. change (staged_data t x = None) in Hx.
    rewrite lookup_insert_ne by congruence. by apply Hf.
  - intros x e0. cbn. rewrite lookup_insert. case_decide; [intros [= <-]; by subst|apply Hc].
Qed.

Lemma staged_fcs_put s t h d e :
  staged allowed s t -> m_map s !! h = Some d -> exact (db_fcs_of (st_read t) h) e ->
  staged allowed (mem_put s h (with_fcs d (e_set e))) (st_with_fcs t (<[h := e]> (st_fcs t))).
Proof using.
  intros Hst Hd He. destruct (staged_lookup _ _ _ _ Hst Hd) as (rd & Hn & Hrd & ->).
  destruct Hst as [Hb Hv Hr Hf Hc Hfc Ha]. split; try done.
  - intros x. cbn. rewrite lookup_insert. unfold staging_view, staged_fcs. cbn. rewrite lookup_insert.
    destruct (decide (h = x)) as [->|Hne].
    + rewrite decide_False by done. change (staged_data _ x) with (staged_data t x). by rewrite Hrd.
    + rewrite Hv. reflexivity.
  - intros x Hx Hxd. cbn in *. change (staged_data t x = None) in Hx.
    rewrite (lookup_insert_ne (st_fcs t)) by congruence. by apply Hf.
  - intros x e0. cbn. rewrite lookup_insert. case_decide; [intros [= <-]; by subst|apply Hfc].
Qed.

Lemma staged_append s t h c d :
  staged allowed s t -> m_map s !! h = Some d -> c ∉ d_children d ->
  sim (staged allowed) (append_child s h c) (append_child t h c).
Proof using.
  intros Hst Hd Hc s' Hs. rewrite (append_child_mem _ _ _ Hd) in Hs. injection Hs as <-.
  destruct (children_entry_Ok s t h Hst) as (e & He & Hes & Hex).
  destruct (staged_lookup _ _ _ _ Hst Hd) as (rd & _ & _ & Hdd).
  cbn. unfold staging_append_child. rewrite He. cbn [obind]. eexists. split; [done|].
  replace (d_children d ++ [c]) with (e_set (entry_append e c))
    by (unfold entry_append; rewrite mark_addition_set; cbn; rewrite Hes; by subst d).
  apply staged_children_put; [done|done|]. apply entry_append_exact; [done|]. rewrite Hes. by subst d.
Qed.

Lemma staged_insert_fci s t h f i d :
  staged allowed s t -> m_map s !! h = Some d -> f ∉ d_fcs d ->
  sim (staged allowed) (insert_future_covering_item s h f i) (insert_future_covering_item t h f i).
Proof using.
  intros Hst Hd Hf s' Hs. cbn in Hs. unfold mem_insert_future_covering_item in Hs.
  rewrite (mem_get_data_ok _ _ _ Hd) in Hs. cbn [obind] in Hs. apply bind_Ok in Hs as (l & Hl & [= <-]).
  destruct (fcs_entry_Ok s t h Hst) as (e & He & Hes & Hex).
  destruct (staged_lookup _ _ _ _ Hst Hd) as (rd & _ & _ & Hdd).
  assert (Hde : d_fcs d = e_set e) by (subst d; done).
  cbn. unfold staging_insert_fci. rewrite He. cbn [obind].
  destruct (entry_insert e f i) as [e'| | |] eqn:Hi;
    [|unfold entry_insert in Hi; rewrite Hde in Hl; rewrite Hl in Hi; done..].
  cbn [obind]. eexists. split; [done|].
  destruct (entry_insert_exact _ _ _ _ _ Hex ltac:(by rewrite <-Hde) Hi) as [Hex' Hv].
  replace l with (e_set e') by congruence. by apply staged_fcs_put.
Qed.

Lemma staged_replace_child s t h b i ch d :
  staged allowed s t -> m_map s !! h = Some d -> d_children d !! i = Some b -> NoDup ch ->
  (forall c, c ∈ ch -> c ∉ d_children d) ->
  sim (staged allowed) (replace_child s h b i ch) (replace_child t h b i ch).
Proof using.
  intros Hst Hd Hb Hch Hdis s' Hs. cbn in Hs. unfold mem_replace_child in Hs.
  rewrite (mem_get_data_ok _ _ _ Hd) in Hs. cbn [obind] in Hs. apply bind_Ok in Hs as (l & Hl & [= <-]).
  destruct (children_entry_Ok s t h Hst) as (e & He & Hes & Hex).
  destruct (staged_lookup _ _ _ _ Hst Hd) as (rd & _ & _ & Hdd).
  assert (Hde : d_children d = e_set e) by (subst d; done).
  cbn. unfold staging_replace_child. rewrite He. cbn [obind].
  destruct (entry_replace e b i ch) as [e'| | |] eqn:Hi;
    [|unfold entry_replace in Hi; rewrite Hde in Hl; rewrite Hl in Hi; done..].
  cbn [obind]. eexists. split; [done|]. rewrite Hde in Hb, Hdis.
  destruct (entry_replace_exact _ _ _ _ _ _ Hex Hb Hch Hdis Hi) as [Hex' Hv].
  replace l with (e_set e') by congruence. by apply staged_children_put.
Qed.

Lemma staged_replace_fci s t h b i ch d :
  staged allowed s t -> m_map s !! h = Some d -> d_fcs d !! i = Some b -> NoDup ch ->
  (forall c, c ∈ ch -> c ∉ d_fcs d) ->
  sim (staged allowed) (replace_future_covering_item s h b i ch) (replace_future_covering_item t h b i ch).
Proof using.
  intros Hst Hd Hb Hch Hdis s' Hs. cbn in Hs. unfold mem_replace_future_covering_item in Hs.
  rewrite (mem_get_data_ok _ _ _ Hd) in Hs. cbn [obind] in Hs. apply bind_Ok in Hs as (l & Hl & [= <-]).
  destruct (fcs_entry_Ok s t h Hst) as (e & He & Hes & Hex).
  destruct (staged_lookup _ _ _ _ Hst Hd) as (rd & _ & _ & Hdd).
  assert (Hde : d_fcs d = e_set e) by (subst d; done).
  cbn. unfold staging_replace_fci. rewrite He. cbn [obind].
  destruct (entry_replace e b i ch) as [e'| | |] eqn:Hi;
    [|unfold entry_replace in Hi; rewrite Hde in Hl; rewrite Hl in Hi; done..].
  cbn [obind]. eexists. split; [done|]. rewrite Hde in Hb, Hdis.
  destruct (entry_replace_exact _ _ _ _ _ _ Hex Hb Hch Hdis Hi) as [Hex' Hv].
  replace l with (e_set e') by congruence. by apply staged_fcs_put.
Qed.

(** *** Inserting and deleting blocks *)

Lemma staged_insert s t h p i n :
  staged allowed s t -> allowed h -> sim (staged allowed) (store_insert s h p i n) (store_insert t h p i n).
Proof using.
  intros Hst Hal s' Hs. cbn in Hs. unfold mem_insert in Hs. destruct (m_map s !! h) eqn:Hm; [done|]. injection Hs as <-.
  pose proof (sg_allowed _ _ _ Hst h Hal) as Hn. rewrite (sg_view _ _ _ Hst) in Hm. unfold staging_view in Hm.
  rewrite decide_False in Hm by done. destruct (staged_data t h) eqn:Hsd; [done|].
  destruct (sg_fresh _ _ _ Hst h Hsd Hn) as [Hc0 Hf0].
  unfold staged_data in Hsd. destruct (st_writes t !! h) eqn:Hw; [done|].
  cbn. unfold staging_insert. rewrite Hsd, Hw. eexists. split; [done|].
  destruct (dbo_absent _ (sg_base _ _ _ Hst) h Hsd) as [Hbc Hbf].
  assert (Hdata : forall x, staged_data (st_with_writes t (<[h := mk_rdata p i n]> (st_writes t))) x =
    (if decide (x = h) then Some (mk_rdata p i n) else staged_data t x)).
  { intros x. unfold staged_data. cbn. rewrite lookup_insert. destruct (decide (h = x)), (decide (x = h)); congruence. }
  destruct Hst as [Hb Hv Hr Hf Hc Hfc Ha]. split; try done.
  - intros x. cbn. rewrite lookup_insert. unfold staging_view. rewrite Hdata. cbn [st_deletions st_with_writes].
    destruct (decide (h = x)) as [->|Hne].
    + rewrite decide_False, decide_True by done. cbn. unfold staged_children, staged_fcs. cbn.
      by rewrite Hc0, Hf0, Hbc, Hbf.
    + rewrite Hv. unfold staging_view. by rewrite (decide_False (P := x = h)) by congruence.
  - intros x. rewrite Hdata. case_decide; [done|]. apply Hf.
Qed.

Lemma staged_delete s t h : staged allowed s t -> ~ allowed h -> sim (staged allowed) (store_delete s h) (store_delete t h).
Proof using.
  intros Hst Hal s' [= <-]. cbn. eexists. split; [done|].
  destruct Hst as [Hb Hv Hr Hf Hc Hfc Ha]. split; try done.
  - intros x. cbn. unfold staging_view. cbn. destruct (decide (h = x)) as [->|Hne].
    + rewrite lookup_delete_eq. by rewrite decide_True by set_solver.
    + rewrite lookup_delete_ne, Hv by done. unfold staging_view.
      destruct (decide (x ∈ st_deletions t)); [by rewrite decide_True by set_solver|].
      rewrite decide_False by set_solver. unfold staged_data. cbn. by rewrite lookup_delete_ne.
  - intros x Hx Hxn. cbn in *. apply not_elem_of_union in Hxn as [Hxh Hxn]. apply Hf; [|done].
    unfold staged_data in *. cbn in Hx. by rewrite lookup_delete_ne in Hx by set_solver.
  - intros x Hx. cbn. specialize (Ha x Hx). intros Hin%elem_of_union. destruct Hin as [->%elem_of_singleton|]; done.
Qed.
End Staged.
