(* ===== verification/ReachabilityDag.v ===== *)
(** * Future covering sets and DAG ancestry

    On top of the tree, every block keeps a future covering set: blocks of its
    future, in tree order, whose subtrees together with its own subtree are its
    whole DAG future.  This file states that invariant ([dag_ok]) against a DAG
    given by parent lists, shows that [is_dag_ancestor_of] decides DAG ancestry
    under it, and that [add_dag_block] restores it for a new block. *)

From Stdlib Require Import ZArith Lia Bool.
From stdpp Require Import base gmap numbers list sorting.
From S2P Require Import Prelude BinarySearch Interval ReachabilityStore ReachabilityQueries ReachabilityTree ReachabilityReindex ReachabilityCount ReachabilityPropagate ReachabilityAdd ReachabilityBlocks.

#[local] Open Scope Z_scope.

(** ** Tree order

    [tree_before m a b]: below some block, [a] is in the subtree of an earlier
    child than [b].  It only depends on the tree, so it survives reindexing. *)
Definition tree_before (m : nodes) (a b : N) : Prop :=
  exists h d i j ca cb, m !! h = Some d /\ d_children d !! i = Some ca /\ d_children d !! j = Some cb /\
    (i < j)%nat /\ chain_anc m ca a /\ chain_anc m cb b.

(** Later blocks of the list come later in tree order. *)
Definition tree_sorted (m : nodes) (l : list N) : Prop :=
  (forall x, x ∈ l -> is_Some (m !! x)) /\
  forall i j x y, l !! i = Some x -> l !! j = Some y -> (i < j)%nat -> tree_before m x y.

Section Order.
Context (m : nodes) (root : N).

Lemma tree_before_in a b : tree_before m a b -> is_Some (m !! a) /\ is_Some (m !! b).
Proof using. intros (? & ? & ? & ? & ? & ? & _ & _ & _ & _ & ? & ?). eauto using chain_in_r. Qed.

(** Two blocks are related by ancestry or one comes before the other. *)
Lemma tree_trichotomy a b :
  shape m root -> is_Some (m !! a) -> is_Some (m !! b) ->
  chain_anc m a b \/ chain_anc m b a \/ tree_before m a b \/ tree_before m b a.
Proof using.
  intros Hsh Ha Hb. revert b Hb.
  apply (tree_ind m root Hsh); [right; left; by apply (chain_root m root Hsh)|].
  intros b d dp Hd Hne Hdp Hin [Hap|[Hpa|[Hb|Hb]]].
  - left. econstructor; eauto.
  - destruct (decide (d_parent d = a)) as [<-|Hne'].
    { left. eapply chain_up; [done|]. by econstructor. }
    destruct (chain_first_child _ _ Hsh _ _ _ Hpa Hne' Hdp) as (c & Hc & Hca).
    destruct (decide (c = b)) as [->|Hcb]; [by right; left|]. right; right.
    assert (chain_anc m b b) by (by econstructor).
    apply list_elem_of_lookup in Hc as [i Hi], Hin as [j Hj].
    destruct (Nat.lt_trichotomy i j) as [?|[->|?]]; [left|congruence|right].
    + exists (d_parent d), dp, i, j, c, b. done.
    + exists (d_parent d), dp, j, i, b, c. done.
  - destruct Hb as (h & dh & i & j & ca & cb & ? & ? & ? & ? & ? & ?).
    right; right; left. exists h, dh, i, j, ca, cb. split_and!; eauto using chain_up.
  - destruct Hb as (h & dh & i & j & ca & cb & ? & ? & ? & ? & ? & ?).
    right; right; right. exists h, dh, i, j, ca, cb. split_and!; eauto using chain_up.
Qed.

(** Under the interval invariant tree order is the order of the intervals. *)
Lemma tree_before_interval a b da db :
  tree_ok m root -> tree_before m a b -> m !! a = Some da -> m !! b = Some db ->
  iv_end (d_interval da) < iv_start (d_interval db).
Proof using.
  intros Hok (h & d & i & j & ca & cb & Hd & Hi & Hj & Hij & Hca & Hcb) Ha Hb.
  destruct (local_of _ _ Hok _ _ Hd) as (_ & _ & Hord).
  destruct (chain_in_l _ _ _ Hca) as [dca Hdca], (chain_in_l _ _ _ Hcb) as [dcb Hdcb].
  pose proof (ordered_in_lookup _ _ _ _ _ _ _ _ _ _ Hord Hi Hj Hij Hdca Hdcb).
  assert (Hw : forall x y dx dy, chain_anc m x y -> m !! x = Some dx -> m !! y = Some dy ->
    iv_start (d_interval dx) <= iv_start (d_interval dy) /\ iv_end (d_interval dy) <= iv_end (d_interval dx)).
  { intros x y dx dy Hxy Hx Hy. destruct (decide (x = y)) as [->|Hne]; [simplify_eq; lia|].
    pose proof (chain_nested _ _ Hok _ _ _ _ Hxy Hx Hy Hne). lia. }
  pose proof (Hw _ _ _ _ Hca Hdca Ha). pose proof (Hw _ _ _ _ Hcb Hdcb Hb). lia.
Qed.

Lemma tree_sorted_tail x l : tree_sorted m (x :: l) -> tree_sorted m l.
Proof using.
  intros [Hin Hs]. split; [intros; apply Hin; by right|].
  intros i j y z Hi Hj Hij. apply (Hs (S i) (S j)); [done|done|lia].
Qed.

(** A list in tree order satisfies what the binary search needs. *)
Lemma tree_sorted_ordered l :
  tree_ok m root -> tree_sorted m l -> ordered_in m 1 l (U64 - 2).
Proof using.
  intros Hok. assert (Hgen : forall lo, 1 <= lo <= U64 - 1 -> tree_sorted m l ->
    (forall x d, head l = Some x -> m !! x = Some d -> lo <= iv_start (d_interval d)) ->
    ordered_in m lo l (U64 - 2)).
  2: { intros Hs. apply Hgen; [lia|done|]. intros x d _ Hd.
       destruct (local_of _ _ Hok _ _ Hd) as (Hiv & _). unfold iv_ok in Hiv. lia. }
  induction l as [|x l IH]; intros lo Hlo Hs Hhd; cbn; [lia|].
  destruct (proj1 Hs x ltac:(left)) as [d Hd]. exists d.
  destruct (local_of _ _ Hok _ _ Hd) as (Hiv & Hlen & _). unfold iv_ok, iv_len in Hiv, Hlen.
  split_and!; [done|by apply (Hhd x d)|lia|].
  apply IH; [lia|by eapply tree_sorted_tail|]. intros y dy Hy Hdy. destruct l as [|y' l]; [done|].
  injection Hy as ->. pose proof (proj2 Hs 0%nat 1%nat x y ltac:(done) ltac:(done) ltac:(lia)) as Hb.
  pose proof (tree_before_interval _ _ _ _ Hok Hb Hd Hdy). lia.
Qed.

(** Inserting a block between what comes before and what comes after it. *)
Lemma tree_sorted_insert l i n :
  tree_sorted m l -> is_Some (m !! n) -> (i <= length l)%nat ->
  (forall j x, (j < i)%nat -> l !! j = Some x -> tree_before m x n) ->
  (forall j x, (i <= j)%nat -> l !! j = Some x -> tree_before m n x) ->
  tree_sorted m (take i l ++ n :: drop i l).
Proof using.
  intros [Hin Hs] Hn Hi Hlo Hhi.
  assert (Hlen : length (take i l) = i) by (rewrite length_take; lia).
  assert (Hpos : forall j x, (take i l ++ n :: drop i l) !! j = Some x ->
    (j < i /\ l !! j = Some x)%nat \/ (j = i /\ x = n) \/ (i < j /\ l !! (j - 1) = Some x)%nat).
  { intros j x Hj. apply lookup_app_Some in Hj as [Hj|[Hge Hj]].
    - rewrite lookup_take_Some in Hj. tauto.
    - rewrite Hlen, lookup_cons in *. destruct (j - i)%nat as [|k] eqn:Hk.
      + right; left. split; [lia|congruence].
      + rewrite lookup_drop in Hj. right; right. split; [lia|]. replace (j - 1)%nat with (i + k)%nat by lia. done. }
  split.
  - intros x [j Hj]%list_elem_of_lookup.
    destruct (Hpos _ _ Hj) as [[_ ?]|[[_ ->]|[_ ?]]]; eauto using list_elem_of_lookup_2.
  - intros j k x y Hj Hk Hjk.
    destruct (Hpos _ _ Hj) as [[? ?]|[[? ->]|[? ?]]], (Hpos _ _ Hk) as [[? ?]|[[? ->]|[? ?]]];
      try lia; [by eapply (Hs j k)|by eapply (Hlo j)|eapply (Hs j (k - 1)%nat); eauto; lia
               |eapply (Hhi (k - 1)%nat); eauto; lia|eapply (Hs (j - 1) (k - 1))%nat; eauto; lia].
Qed.
End Order.

(** Tree order only reads parents and children. *)
Lemma chain_ext m m' a b :
  (forall h d, m !! h = Some d -> exists d', m' !! h = Some d' /\ d_parent d' = d_parent d) ->
  chain_anc m a b -> chain_anc m' a b.
Proof.
  intros Hext. induction 1 as [h d Hd|a b d Hd Hab IH].
  - destruct (Hext _ _ Hd) as (d' & ? & _). by econstructor.
  - destruct (Hext _ _ Hd) as (d' & ? & Hp). eapply chain_up; [done|]. by rewrite Hp.
Qed.

Lemma tree_before_ext m m' a b :
  (forall h d, m !! h = Some d -> exists d' l, m' !! h = Some d' /\ d_parent d' = d_parent d /\
     d_children d' = d_children d ++ l) ->
  tree_before m a b -> tree_before m' a b.
Proof.
  intros Hext (h & d & i & j & ca & cb & Hd & Hi & Hj & Hij & Hca & Hcb).
  destruct (Hext _ _ Hd) as (d' & l & Hd' & _ & Hc).
  exists h, d', i, j, ca, cb. rewrite Hc. split_and!; [done|by apply lookup_app_l_Some..|done| |];
    (eapply chain_ext; [|done]; intros x dx Hx; destruct (Hext _ _ Hx) as (dx' & ? & ? & ? & _); eauto).
Qed.

Lemma tree_sorted_ext m m' l :
  (forall h d, m !! h = Some d -> exists d' l, m' !! h = Some d' /\ d_parent d' = d_parent d /\
     d_children d' = d_children d ++ l) ->
  tree_sorted m l -> tree_sorted m' l.
Proof.
  intros Hext [Hin Hs]. split.
  - intros x Hx. destruct (Hin x Hx) as [d Hd]. destruct (Hext _ _ Hd) as (d' & ? & ? & _). eauto.
  - intros i j x y Hi Hj Hij. eapply tree_before_ext; eauto.
Qed.

(** ** The DAG and its covering by subtrees *)

(** The DAG as the parent lists of the blocks. *)
Abbreviation dag := (gmap N (list N)).

Inductive dag_anc (G : dag) : N -> N -> Prop :=
| dag_refl h : is_Some (G !! h) -> dag_anc G h h
| dag_up a p b ps : G !! b = Some ps -> p ∈ ps -> dag_anc G a p -> dag_anc G a b.

(** What the store knows of ancestry: [y] is in the subtree of [x] or of a block
    of its future covering set. *)
Definition covered (m : nodes) (x y : N) : Prop :=
  chain_anc m x y \/ exists d f, m !! x = Some d /\ f ∈ d_fcs d /\ chain_anc m f y.

Definition fcs_sorted (m : nodes) : Prop := forall h d, m !! h = Some d -> tree_sorted m (d_fcs d).

Record dag_ok (m : nodes) (root : N) (G : dag) : Prop := mk_dag_ok {
  do_tree : tree_ok m root;
  do_sorted : fcs_sorted m;
  do_dom : forall h, is_Some (m !! h) <-> is_Some (G !! h);
  do_closed : forall h ps p, G !! h = Some ps -> p ∈ ps -> is_Some (G !! p);
  do_cover : forall x y, is_Some (m !! x) -> is_Some (m !! y) -> dag_anc G x y <-> covered m x y
}.

Lemma is_dag_ancestor_spec (s : MemoryReachabilityStore) root a b :
  tree_ok (m_map s) root -> fcs_sorted (m_map s) -> is_Some (m_map s !! a) -> is_Some (m_map s !! b) ->
  exists r, is_dag_ancestor_of s a b = Ok r /\ (r = true <-> covered (m_map s) a b).
Proof.
  intros Hok Hf [da Ha] [db Hb]. unfold is_dag_ancestor_of.
  destruct (is_chain_ancestor_spec s root Hok a b) as (c & -> & Hc); [eauto..|]. cbn [obind].
  destruct c; [exists true; split; [done|]; split; [|done]; intros _; left; by apply Hc|].
  rewrite (get_fcs_mem _ _ _ Ha). cbn [obind].
  pose proof (tree_sorted_ordered _ _ _ Hok (Hf _ _ Ha)) as Hord.
  destruct (binary_search_descendant_spec s root Hok _ _ _ b db Hord Hb) as (r & -> & Hr). cbn [obind].
  destruct r as [i|h i].
  - exists false. split; [done|]. split; [done|]. intros [Hab|(d & f & Hd & Hin & Hfb)].
    + by apply Hc in Hab.
    + assert (d = da) as -> by congruence. destruct Hr as (_ & Hno & _). by destruct (Hno f Hin).
  - exists true. split; [done|]. split; [|done]. intros _. right. destruct Hr as [Hi Hhb].
    exists da, h. eauto using list_elem_of_lookup_2.
Qed.

(** ** Changing one future covering set *)
Section SetFcs.
Context (m : nodes) (x : N) (dx : MemoryReachabilityData) (l : list N) (Hx : m !! x = Some dx).
Let m' := <[x := with_fcs dx l]> m.

Lemma set_fcs_lookup h : m' !! h = (if decide (h = x) then Some (with_fcs dx l) else m !! h).
Proof using. unfold m'. rewrite lookup_insert. destruct (decide (h = x)), (decide (x = h)); congruence. Qed.

Lemma set_fcs_links : same_links m m'.
Proof using Hx.
  intros h. rewrite set_fcs_lookup. case_decide; [|done]. subst. by rewrite Hx.
Qed.

Lemma set_fcs_tree root : tree_ok m root -> tree_ok m' root.
Proof using Hx.
  intros [Hsh Hloc]. split; [eapply shape_links; [apply set_fcs_links|done]|].
  assert (Hiv : forall h, d_interval <$> m !! h = d_interval <$> m' !! h).
  { intros h. rewrite set_fcs_lookup. case_decide; [subst; by rewrite Hx|done]. }
  intros h [d' Hd'].
  destruct (same_links_lookup m' m h d') as (d & Hd & Hc & _); [symmetry; apply set_fcs_links|done|].
  apply (local_ok_ext m m' h d d'); [apply Hloc; eauto|done|done| |done|done].
  specialize (Hiv h). rewrite Hd, Hd' in Hiv. cbn in Hiv. congruence.
Qed.

Lemma set_fcs_sorted : fcs_sorted m -> tree_sorted m l -> fcs_sorted m'.
Proof using Hx.
  intros Hf Hl. assert (Hmono : forall k, tree_sorted m k -> tree_sorted m' k).
  { intros k. apply tree_sorted_ext. intros h d Hd.
    destruct (same_links_lookup m m' h d) as (d' & Hd' & Hc & Hp & _); [apply set_fcs_links|done|].
    exists d', []. rewrite app_nil_r. done. }
  intros h d. rewrite set_fcs_lookup. case_decide; [intros [= <-]; by apply Hmono|].
  intros Hd. by apply Hmono, (Hf h).
Qed.
End SetFcs.

(** ** Registering a new leaf in a future covering set *)

Definition leaf_of (m : nodes) (n : N) : Prop := forall y, chain_anc m n y -> y = n.

Section Register.
Context (s : MemoryReachabilityStore) (root x n : N) (dx : MemoryReachabilityData).
Let m := m_map s.
Hypothesis Hok : tree_ok m root.
Hypothesis Hf : fcs_sorted m.
Hypothesis Hx : m !! x = Some dx.
Hypothesis Hn : is_Some (m !! n).
Hypothesis Hleaf : leaf_of m n.
Hypothesis Hno : forall f, f ∈ d_fcs dx -> ~ chain_anc m f n.

Lemma insert_to_fcs_spec :
  exists l, insert_to_future_covering_set s x n = Ok (mem_put s x (with_fcs dx l)) /\
    tree_sorted m l /\ (forall f, f ∈ l <-> f = n \/ f ∈ d_fcs dx).
Proof using Hok Hf Hx Hn Hleaf Hno.
  destruct Hn as [dn Hdn]. unfold insert_to_future_covering_set.
  rewrite (get_fcs_mem _ _ _ Hx). cbn [obind].
  pose proof (Hf _ _ Hx) as Hs. pose proof (tree_sorted_ordered _ _ _ Hok Hs) as Hord.
  destruct (binary_search_descendant_spec s root Hok _ _ _ n dn Hord Hdn) as (r & -> & Hr). cbn [obind].
  destruct r as [i|f i].
  2: { destruct Hr as [Hi Hfn]. apply list_elem_of_lookup_2 in Hi. by destruct (Hno _ Hi). }
  destruct Hr as (Hi & _ & Hlo & Hhi). unfold insert_future_covering_item. cbn.
  unfold mem_insert_future_covering_item. rewrite (mem_get_data_ok _ _ _ Hx). cbn [obind].
  unfold vec_insert. rewrite (proj2 (Nat.leb_le _ _) Hi). cbn [obind]. eexists. split; [done|].
  assert (Hcmp : forall j f, d_fcs dx !! j = Some f -> exists df, m !! f = Some df /\
    start_of m f = iv_start (d_interval df) /\ (tree_before m f n \/ tree_before m n f)).
  { intros j f Hj%list_elem_of_lookup_2. destruct (proj1 Hs f Hj) as [df Hdf]. exists df.
    split_and!; [done|unfold start_of; by rewrite Hdf|].
    destruct (tree_trichotomy m root f n) as [?|[Hnf|?]]; [apply Hok|eauto..| |done].
    - by destruct (Hno f Hj).
    - apply Hleaf in Hnf as ->. destruct (Hno n Hj). by econstructor. }
  destruct (local_of _ _ Hok _ _ Hdn) as (_ & Hlen & _). unfold iv_len in Hlen.
  split.
  - apply tree_sorted_insert; [done|eauto|done| |]; intros j f Hj Hf'.
    + destruct (Hcmp _ _ Hf') as (df & Hdf & Hst & [Hb|Hb]); [done|].
      pose proof (tree_before_interval _ _ _ _ _ _ Hok Hb Hdn Hdf). specialize (Hlo _ _ Hj Hf'). fold m in Hlo. lia.
    + destruct (Hcmp _ _ Hf') as (df & Hdf & Hst & [Hb|Hb]); [|done].
      pose proof (tree_before_interval _ _ _ _ _ _ Hok Hb Hdf Hdn).
      destruct (local_of _ _ Hok _ _ Hdf) as (_ & Hlenf & _). unfold iv_len in Hlenf.
      specialize (Hhi _ _ Hj Hf'). fold m in Hhi. lia.
  - intros f. rewrite elem_of_app, elem_of_cons. rewrite <-(take_drop i (d_fcs dx)) at 3.
    rewrite elem_of_app. tauto.
Qed.
End Register.

Lemma leaf_links m m' n : same_links m m' -> leaf_of m n -> leaf_of m' n.
Proof. intros Hs Hl y Hy. apply Hl. eapply chain_links; [|done]. by symmetry. Qed.

(** [add_dag_block] adds the new block to the future covering sets of the
    mergeset and changes nothing else. *)
Lemma add_dag_block_spec (M : list N) (s : MemoryReachabilityStore) root n :
  tree_ok (m_map s) root -> fcs_sorted (m_map s) -> is_Some (m_map s !! n) -> leaf_of (m_map s) n ->
  NoDup M ->
  (forall x, x ∈ M -> exists d, m_map s !! x = Some d /\ forall f, f ∈ d_fcs d -> ~ chain_anc (m_map s) f n) ->
  exists s', add_dag_block s n M = Ok s' /\ m_reindex_root s' = m_reindex_root s /\
    tree_ok (m_map s') root /\ fcs_sorted (m_map s') /\ same_links (m_map s) (m_map s') /\
    forall x d, m_map s !! x = Some d -> exists d', m_map s' !! x = Some d' /\
      forall f, f ∈ d_fcs d' <-> f ∈ d_fcs d \/ (f = n /\ x ∈ M).
Proof.
  revert s. induction M as [|x M IH]; intros s Hok Hf Hn Hleaf Hnd HM.
  { exists s. split_and!; try done. intros x d Hd. exists d. split; [done|]. intros f.
    rewrite elem_of_nil. tauto. }
  apply NoDup_cons in Hnd as [HxM Hnd]. destruct (HM x ltac:(left)) as (dx & Hx & Hno).
  destruct (insert_to_fcs_spec s root x n dx Hok Hf Hx Hn Hleaf Hno) as (l & Hins & Hl & Hel).
  unfold add_dag_block in *. cbn [foldM_out]. rewrite Hins. cbn [obind].
  set (s1 := mem_put s x (with_fcs dx l)) in *.
  assert (Hlk : same_links (m_map s) (m_map s1)) by (by apply set_fcs_links).
  destruct (IH s1) as (s' & -> & Hrr & Hok' & Hf' & Hlk' & Hfcs).
  - by apply set_fcs_tree.
  - by apply set_fcs_sorted.
  - destruct Hn as [dn Hdn]. destruct (same_links_lookup _ _ _ _ Hlk Hdn) as (d' & ? & _). eauto.
  - by eapply leaf_links.
  - done.
  - intros y Hy. destruct (HM y ltac:(by right)) as (dy & Hdy & Hyn). exists dy.
    split; [cbn; rewrite lookup_insert_ne by (by intros ->); done|].
    intros f Hfy Hch. apply (Hyn f Hfy). eapply chain_links; [by symmetry|done].
  - exists s'. split_and!; [done|done|done|done|by etrans|]. intros y d Hy.
    destruct (decide (y = x)) as [->|Hne].
    + assert (d = dx) as -> by congruence.
      destruct (Hfcs x (with_fcs dx l)) as (d' & Hd' & Hfd); [apply lookup_insert_eq|].
      exists d'. split; [done|]. intros f. rewrite Hfd. cbn. rewrite Hel, elem_of_cons. tauto.
    + destruct (Hfcs y d) as (d' & Hd' & Hfd); [cbn; by rewrite lookup_insert_ne|].
      exists d'. split; [done|]. intros f. rewrite Hfd, elem_of_cons. naive_solver.
Qed.

(** ** Adding a block to the DAG *)

(** The mergeset of a new block with parents [ps] and selected parent [sp]: the
    blocks of its past that are not in the past of [sp]. *)
Definition mergeset_of (G : dag) (sp : N) (ps : list N) (x : N) : Prop :=
  (exists p, p ∈ ps /\ dag_anc G x p) /\ ~ dag_anc G x sp.

Section NewBlock.
Context (G : dag) (n : N) (ps : list N).
Hypothesis Hclosed : forall h qs q, G !! h = Some qs -> q ∈ qs -> is_Some (G !! q).
Hypothesis Hnew : G !! n = None.
Hypothesis Hps : forall p, p ∈ ps -> is_Some (G !! p).

Lemma dag_anc_in_l a b : dag_anc G a b -> is_Some (G !! a).
Proof using. by induction 1. Qed.

Lemma dag_anc_in_r a b : dag_anc G a b -> is_Some (G !! b).
Proof using. destruct 1; eauto. Qed.

Lemma dag_insert_old a b : dag_anc G a b -> dag_anc (<[n := ps]> G) a b.
Proof using Hnew.
  induction 1 as [h Hh|a p b qs Hb Hp Ha IH].
  - constructor. rewrite lookup_insert_ne; [done|]. intros ->. rewrite Hnew in Hh. by destruct Hh.
  - econstructor; [|done|done]. rewrite lookup_insert_ne; [done|]. congruence.
Qed.

Lemma dag_insert_iff a b : dag_anc (<[n := ps]> G) a b <->
  dag_anc G a b \/ (b = n /\ (a = n \/ exists p, p ∈ ps /\ dag_anc G a p)).
Proof using Hclosed Hnew Hps.
  split.
  - induction 1 as [h Hh|a p b qs Hb Hp Ha IH].
    + destruct (decide (h = n)) as [->|Hne]; [by right; eauto|]. left. constructor.
      by rewrite lookup_insert_ne in Hh.
    + assert (Hpn : p <> n).
      { intros ->. destruct (decide (b = n)) as [->|Hne].
        - rewrite lookup_insert_eq in Hb. injection Hb as <-. destruct (Hps _ Hp). congruence.
        - rewrite lookup_insert_ne in Hb by done. destruct (Hclosed _ _ _ Hb Hp). congruence. }
      destruct IH as [IH|[-> _]]; [|done].
      destruct (decide (b = n)) as [->|Hne].
      * rewrite lookup_insert_eq in Hb. injection Hb as <-. right. eauto.
      * rewrite lookup_insert_ne in Hb by done. left. econstructor; eauto.
  - intros [?|[-> [->|(p & Hp & Ha)]]]; [by apply dag_insert_old| |].
    + constructor. rewrite lookup_insert_eq. eauto.
    + econstructor; [apply lookup_insert_eq|done|]. by apply dag_insert_old.
Qed.
End NewBlock.

(** [add_block] keeps the store a faithful index of the DAG extended with the
    new block, for parents in the subtree of the reindex root. *)
Section AddBlock.
Context (s : MemoryReachabilityStore) (root r n sp : N) (ps M : list N) (G : dag).
Context (dp dr : MemoryReachabilityData) (fuel : nat) (depth slack : option Z).
Let m := m_map s.
Hypothesis Hdag : dag_ok m root G.
Hypothesis Hroot : m_reindex_root s = Some r.
Hypothesis Hsp : m !! sp = Some dp.
Hypothesis Hr : m !! r = Some dr.
Hypothesis Hn : m !! n = None.
Hypothesis Hnone : n <> hash_NONE.
Hypothesis Hrp : chain_anc m r sp.
Hypothesis Hheight : d_height dp + 1 < U64.
Hypothesis Hcap : subtree_size m r < iv_len (d_interval dr).
Hypothesis Hfuel : subtree_size m r + 1 < Z.of_nat fuel.
Hypothesis Hsps : sp ∈ ps.
Hypothesis Hps : forall p, p ∈ ps -> is_Some (m !! p).
Hypothesis Hnd : NoDup M.
Hypothesis HM : forall x, x ∈ M <-> mergeset_of G sp ps x.

#[local] Lemma Hnew : G !! n = None.
Proof using Hdag Hn.
  destruct (G !! n) eqn:HG; [|done]. destruct (proj2 (do_dom _ _ _ Hdag n)); [by eauto|]. congruence.
Qed.

(** The store after the tree insertion, described on the old one. *)
Record leaf_added (m1 : nodes) : Prop := mk_leaf_added {
  la_old : forall x d, m !! x = Some d -> exists d1 l, m1 !! x = Some d1 /\ d_parent d1 = d_parent d /\
    d_children d1 = d_children d ++ l /\ d_fcs d1 = d_fcs d;
  la_new : exists d1, m1 !! n = Some d1 /\ d_fcs d1 = [];
  la_dom : forall x, is_Some (m1 !! x) <-> x = n \/ is_Some (m !! x);
  la_chain : forall a b, chain_anc m1 a b <->
    (b = n /\ (a = n \/ chain_anc m a sp)) \/ (b <> n /\ chain_anc m a b)
}.

Lemma add_leaf_added i m1 :
  same_skel (add_leaf m sp dp n i (d_height dp + 1)) m1 -> leaf_added m1.
Proof using Hdag Hsp Hn Hnone.
  intros Hsk. pose proof (proj1 (do_tree _ _ _ Hdag)) as Hsh.
  set (m0 := add_leaf m sp dp n i (d_height dp + 1)) in *.
  assert (H0 : forall x d, m !! x = Some d -> exists d1 l, m0 !! x = Some d1 /\ d_parent d1 = d_parent d /\
    d_children d1 = d_children d ++ l /\ d_fcs d1 = d_fcs d).
  { intros x d Hx. destruct (decide (x = sp)) as [->|Hne].
    - assert (d = dp) as -> by congruence. eexists _, [n]. split; [by apply add_leaf_parent|done].
    - exists d, []. rewrite app_nil_r. split; [|done]. unfold m0. rewrite add_leaf_other; [done|congruence|done]. }
  split.
  - intros x d Hx. destruct (H0 x d Hx) as (d0 & l & Hd0 & Hp & Hc & Hfc).
    destruct (same_skel_lookup _ _ _ _ Hsk Hd0) as (d1 & Hd1 & Hc1 & Hp1 & _ & Hf1).
    exists d1, l. split_and!; congruence.
  - destruct (same_skel_lookup _ _ n _ Hsk (add_leaf_new m sp n dp i _)) as (d1 & ? & _ & _ & _ & ?). eauto.
  - intros x. rewrite <-(same_skel_is_Some _ _ x Hsk). split.
    + intros [d Hd]. destruct (add_leaf_cases m sp n dp i _ Hsp Hn x d Hd) as [[? _]|[[-> _]|(_ & _ & ?)]]; eauto.
    + intros [->|[d Hd]]; [eexists; apply add_leaf_new|]. destruct (H0 x d Hd) as (? & ? & ? & _). eauto.
  - intros a b. transitivity (chain_anc m0 a b); [split; by apply chain_skel|]. split.
    + apply (chain_add_inv m root sp n dp i _ Hsh Hsp Hn Hnone).
    + pose proof (add_leaf_new m sp n dp i (d_height dp + 1)) as Hl. fold m0 in Hl.
      intros [[-> [->|Ha]]|[_ Ha]]; [by econstructor| |by apply chain_add_old].
      eapply chain_up; [apply Hl|]. cbn. by apply chain_add_old.
Qed.

(** The covering relation after the new block is registered with [M]. *)
Lemma covered_added m1 m2 x y :
  leaf_added m1 -> same_links m1 m2 ->
  (forall z d, m1 !! z = Some d -> exists d', m2 !! z = Some d' /\
     forall f, f ∈ d_fcs d' <-> f ∈ d_fcs d \/ (f = n /\ z ∈ M)) ->
  (forall z, z ∈ M -> is_Some (m !! z)) ->
  is_Some (m1 !! x) ->
  covered m2 x y <->
    (y = n /\ (x = n \/ covered m x sp \/ x ∈ M)) \/ (y <> n /\ covered m x y).
Proof using Hdag Hn.
  intros [Hold (dn & Hdn & Hfn) Hdom Hch] Hlk Hf HMin [d1 Hd1].
  assert (Hch2 : forall a b, chain_anc m2 a b <-> chain_anc m1 a b).
  { intros a b. split; apply chain_links; [by symmetry|done]. }
  destruct (Hf _ _ Hd1) as (d2 & Hd2 & Hf2).
  assert (Hfx : forall f, f ∈ d_fcs d1 -> exists d, m !! x = Some d /\ f ∈ d_fcs d /\ f <> n).
  { intros f Hff. destruct (proj1 (Hdom x)) as [->|[d Hd]]; [eauto| |].
    - assert (d1 = dn) as -> by congruence. rewrite Hfn in Hff. by apply elem_of_nil in Hff.
    - destruct (Hold _ _ Hd) as (d1' & _ & Hd1' & _ & _ & Hfc). assert (d1' = d1) as -> by congruence.
      rewrite Hfc in Hff. exists d. split_and!; [done..|]. intros ->.
      destruct (proj1 (do_sorted _ _ _ Hdag _ _ Hd) n Hff). congruence. }
  assert (Hxf : forall d f, m !! x = Some d -> f ∈ d_fcs d -> f ∈ d_fcs d1).
  { intros d f Hd Hff. destruct (Hold _ _ Hd) as (d1' & _ & Hd1' & _ & _ & Hfc). congruence. }
  assert (Hnn : forall z, ~ chain_anc m n z).
  { intros z Hz. destruct (chain_in_l _ _ _ Hz). congruence. }
  unfold covered. rewrite Hch2, Hch. split.
  - intros [[[-> [->|Ha]]|[Hy Ha]]|(d & f & Hd & Hff & Hfy)]; [by left; auto|by left; auto|by right; auto|].
    assert (d = d2) as -> by congruence. rewrite Hch2, Hch in Hfy. apply Hf2 in Hff as [Hff|[-> HxM]].
    + destruct (Hfx f Hff) as (d & Hd' & Hff' & Hfne).
      destruct Hfy as [[-> [->|Hfy]]|[Hy Hfy]]; [done|left|right]; (split; [done|]); [right; left|]; right; eauto.
    + destruct Hfy as [[-> _]|[Hy Hfy]]; [by left; auto|]. by destruct (Hnn _ Hfy).
  - intros [[-> [->|[[Ha|(d & f & Hd & Hff & Hfs)]|HxM]]]|[Hy [Ha|(d & f & Hd & Hff & Hfy)]]].
    + left. left. auto.
    + left. left. auto.
    + right. exists d2, f. split_and!; [done|apply Hf2; eauto|]. apply Hch2, Hch. left. auto.
    + right. exists d2, n. split_and!; [done|apply Hf2; auto|]. apply Hch2, Hch. left. auto.
    + left. right. auto.
    + right. exists d2, f. split_and!; [done|apply Hf2; eauto|]. apply Hch2, Hch. right. auto.
Qed.

Lemma mergeset_in x : x ∈ M -> exists d, m !! x = Some d /\ forall f, f ∈ d_fcs d -> ~ chain_anc m f sp.
Proof using Hdag HM Hsp.
  intros [(p & Hp & Ha) Hna]%HM. apply dag_anc_in_l in Ha. apply (do_dom _ _ _ Hdag) in Ha as [d Hd].
  exists d. split; [done|]. intros f Hf Hfs. apply Hna, (do_cover _ _ _ Hdag); [eauto..|]. right. eauto.
Qed.

(** The two steps: the leaf of the tree, then its entry in the future covering sets of [M]. *)
Lemma add_block_steps :
  exists s1 s', add_block_with_params fuel s n sp M depth slack = Ok s' /\ m_reindex_root s' = Some r /\
    tree_ok (m_map s') root /\ fcs_sorted (m_map s') /\ leaf_added (m_map s1) /\ same_links (m_map s1) (m_map s') /\
    forall x d, m_map s1 !! x = Some d -> exists d', m_map s' !! x = Some d' /\ forall f, f ∈ d_fcs d' <-> f ∈ d_fcs d \/ (f = n /\ x ∈ M).
Proof using Hdag Hroot Hsp Hr Hn Hnone Hrp Hheight Hcap Hfuel Hnd HM.
  unfold add_block_with_params.
  destruct (add_tree_block_spec s root r sp n dp dr fuel (default DEFAULT_REINDEX_DEPTH depth)
    (default DEFAULT_REINDEX_SLACK slack) (do_tree _ _ _ Hdag) Hroot Hsp Hr Hn Hnone Hrp Hheight Hcap Hfuel)
    as (s1 & -> & Hrr1 & Hok1 & i & Hsk).
  cbn [obind]. apply add_leaf_added in Hsk as Hla. pose proof Hla as [Hold (dn & Hdn & Hfn) Hdom Hch].
  assert (Hmono : forall l, tree_sorted m l -> tree_sorted (m_map s1) l).
  { intros l. apply tree_sorted_ext. intros h d Hd. destruct (Hold _ _ Hd) as (d1 & l1 & ? & ? & ? & _). eauto. }
  destruct (add_dag_block_spec M s1 root n) as (s2 & Hadd & Hrr & Hok2 & Hf2 & Hlk & Hfcs).
  - done.
  - intros h d1 Hd1. destruct (proj1 (Hdom h)) as [->|[d Hd]]; [eauto| |].
    + assert (d1 = dn) as -> by congruence. rewrite Hfn. split; [intros x Hx; by apply elem_of_nil in Hx|done].
    + destruct (Hold _ _ Hd) as (d1' & _ & Hd1' & _ & _ & Hfc). assert (d1' = d1) as -> by congruence.
      rewrite Hfc. by apply Hmono, (do_sorted _ _ _ Hdag h).
  - eauto.
  - intros y. rewrite Hch. intros [[? _]|[_ Hy]]; [done|]. destruct (chain_in_l _ _ _ Hy). congruence.
  - done.
  - intros x Hx. destruct (mergeset_in x Hx) as (d & Hd & Hno). destruct (Hold _ _ Hd) as (d1 & _ & Hd1 & _ & _ & Hfc).
    exists d1. split; [done|]. intros f. rewrite Hfc, Hch. intros Hf [[_ [->|Ha]]|[? _]]; [|by destruct (Hno f Hf)|done].
    destruct (proj1 (do_sorted _ _ _ Hdag _ _ Hd) n Hf). congruence.
  - exists s1, s2. split_and!; try done. congruence.
Qed.

Lemma add_block_spec :
  exists s', add_block_with_params fuel s n sp M depth slack = Ok s' /\ m_reindex_root s' = Some r /\
    dag_ok (m_map s') root (<[n := ps]> G).
Proof using Hdag Hroot Hsp Hr Hn Hnone Hrp Hheight Hcap Hfuel Hsps Hps Hnd HM.
  destruct add_block_steps as (s1 & s2 & Hadd & Hrr & Hok2 & Hf2 & Hla & Hlk & Hfcs). pose proof Hla as [Hold (dn & Hdn & Hfn) Hdom Hch].
  exists s2. split_and!; [done|done|].
  assert (Hdom2 : forall h, is_Some (m_map s2 !! h) <-> h = n \/ is_Some (m !! h)).
  { intros h. rewrite <-Hdom. specialize (Hlk h). destruct (m_map s1 !! h), (m_map s2 !! h); by cbn in Hlk. }
  pose proof (do_dom _ _ _ Hdag) as Hd0. pose proof (do_closed _ _ _ Hdag) as Hcl. pose proof Hnew as Hnew.
  split; [done|done| | |].
  + intros h. rewrite Hdom2, Hd0, lookup_insert. case_decide; [subst; split; [intros _; eauto|auto]|].
    split; [intros [->|?]; done|auto].
  + intros h qs q. rewrite !lookup_insert. case_decide.
    * intros [= <-] Hq. case_decide; [eauto|]. apply Hd0. auto.
    * intros Hh Hq. case_decide; eauto.
  + intros x y Hx Hy. apply Hdom2 in Hx as Hx'. apply Hdom2 in Hy as Hy'.
    rewrite (covered_added (m_map s1) (m_map s2) x y Hla Hlk Hfcs);
      [|intros z Hz; destruct (mergeset_in z Hz) as (? & ? & _); eauto|by apply Hdom].
    rewrite dag_insert_iff; [|done|done|intros; apply Hd0; auto].
    assert (Hxm : forall z, dag_anc G x z -> is_Some (m !! x)).
    { intros z Hz%dag_anc_in_l. by apply Hd0. }
    assert (Hcx : forall z, covered m x z -> is_Some (m !! x)).
    { intros z [Hz|(d & f & Hd & _)]; [by eapply chain_in_l|eauto]. }
    assert (Hym : forall z, dag_anc G z n -> False).
    { intros z Hz%dag_anc_in_r. rewrite Hnew in Hz. by destruct Hz. }
    split.
    * intros [Ha|[-> [->|(p & Hp & Ha)]]]; [|by left; auto|].
      -- right. destruct (decide (y = n)) as [->|Hne]; [by destruct (Hym x)|]. split; [done|].
         apply (do_cover _ _ _ Hdag); [eauto|naive_solver|done].
      -- left. split; [done|]. right.
         destruct (decide (x ∈ M)) as [|HxM]; [auto|]. left.
         destruct (is_dag_ancestor_spec s root x sp) as (b & _ & Hb);
           [apply Hdag|apply (do_sorted _ _ _ Hdag)|eauto|eauto|].
         destruct b; [by apply Hb|]. exfalso. apply HxM, HM. split; [eauto|].
         intros Hxs. apply (do_cover _ _ _ Hdag) in Hxs; [|eauto..]. apply Hb in Hxs. done.
    * intros [[-> [->|[Hc|Hxm']]]|[Hne Hc]].
      -- right. auto.
      -- right. split; [done|]. right. exists sp. split; [done|]. apply (do_cover _ _ _ Hdag); eauto.
      -- right. split; [done|]. right. apply HM in Hxm' as [Hex _]. done.
      -- left. apply (do_cover _ _ _ Hdag); [eauto|naive_solver|done].
Qed.

(** The chain of the new block: its selected parent's and itself. *)
Lemma add_block_chain s' : add_block_with_params fuel s n sp M depth slack = Ok s' -> forall x, chain_anc m x sp -> chain_anc (m_map s') x n.
Proof using Hdag Hroot Hsp Hr Hn Hnone Hrp Hheight Hcap Hfuel Hnd HM.
  intros Hs' x Hx. destruct add_block_steps as (s1 & s2 & Hadd & _ & _ & _ & [_ _ _ Hch] & Hlk & _). rewrite Hs' in Hadd. injection Hadd as <-.
  eapply chain_links; [exact Hlk|]. apply Hch. auto.
Qed.
End AddBlock.
