(* ===== verification/ReachabilityDelete.v ===== *)
(** * Deleting a block

    [delete_block] of inquirer.rs removes a block from the tree, hands its
    children to its parent and its interval to its neighbours, and replaces it by
    its children in the future covering sets.  The answers of the chain and DAG
    queries on all other blocks stay the same. *)

From Stdlib Require Import ZArith Lia Bool.
From stdpp Require Import base gmap numbers list sorting.
From S2P Require Import Prelude BinarySearch Interval ReachabilityStore ReachabilityQueries ReachabilityTree ReachabilityReindex ReachabilityCount ReachabilityPropagate ReachabilityAdd ReachabilityBlocks ReachabilityDag.

#[local] Open Scope Z_scope.

(** ** Replacing a block by others in a list *)

Fixpoint replace_in (b : N) (ch l : list N) : list N :=
  match l with
  | [] => []
  | x :: l' => (if decide (x = b) then ch else [x]) ++ replace_in b ch l'
  end.

Lemma replace_in_app b ch l1 l2 : replace_in b ch (l1 ++ l2) = replace_in b ch l1 ++ replace_in b ch l2.
Proof. induction l1 as [|x l1 IH]; [done|]. cbn [replace_in app]. by rewrite IH, app_assoc. Qed.

Lemma replace_in_id b ch l : b ∉ l -> replace_in b ch l = l.
Proof.
  induction l as [|x l IH]; [done|]. intros [Hx Hl]%not_elem_of_cons. cbn [replace_in].
  rewrite decide_False by done. by rewrite IH.
Qed.

Lemma replace_in_split b ch l1 l2 : NoDup (l1 ++ b :: l2) -> replace_in b ch (l1 ++ b :: l2) = l1 ++ ch ++ l2.
Proof.
  intros (_ & H1 & [H2 _]%NoDup_cons)%NoDup_app. rewrite replace_in_app. cbn [replace_in].
  rewrite decide_True by done. rewrite !replace_in_id; [done|done|].
  intros Hb. apply (H1 b Hb). left.
Qed.

Lemma elem_of_replace_in b ch l f : f ∈ replace_in b ch l <-> (f ∈ l /\ f <> b) \/ (b ∈ l /\ f ∈ ch).
Proof.
  induction l as [|x l IH]; cbn [replace_in]; [rewrite !elem_of_nil; tauto|].
  rewrite elem_of_app, IH, !elem_of_cons. case_decide as Hx; [naive_solver|].
  rewrite list_elem_of_singleton. naive_solver.
Qed.

(** ** Ordered lists, split and joined *)

Lemma ordered_in_app m lo l1 l2 hi :
  ordered_in m lo (l1 ++ l2) hi <-> exists x, ordered_in m lo l1 (x - 1) /\ ordered_in m x l2 hi.
Proof.
  revert lo. induction l1 as [|c l1 IH]; intros lo; cbn [app ordered_in].
  - split; [intros H; exists lo; split; [lia|done]|].
    intros (x & Hx & H). destruct l2 as [|c l2]; cbn in *; [lia|].
    destruct H as (d & ? & ? & ? & ?). exists d. split_and!; [done|lia|done|done].
  - setoid_rewrite IH. split.
    + intros (d & Hd & ? & ? & x & H1 & H2). exists x. split; [|done]. exists d. done.
    + intros (x & (d & Hd & ? & ? & H1) & H2). exists d. split_and!; [done..|]. exists x. done.
Qed.

Lemma ordered_in_weaken m lo lo' l hi hi' :
  ordered_in m lo l hi -> lo' <= lo -> hi <= hi' -> ordered_in m lo' l hi'.
Proof.
  revert lo lo'. induction l as [|c l IH]; intros lo lo'; cbn; [lia|].
  intros (d & Hd & ? & ? & H) ? ?. exists d. split_and!; [done|lia|done|]. eapply IH; eauto; lia.
Qed.

Lemma ordered_in_single m lo c d hi :
  m !! c = Some d -> lo <= iv_start (d_interval d) -> iv_start (d_interval d) <= iv_end (d_interval d) + 1 ->
  iv_end (d_interval d) <= hi -> ordered_in m lo [c] hi.
Proof. intros. exists d. cbn. split_and!; [done|lia..]. Qed.

(** ** The search only reads intervals *)

Definition same_intervals (m m' : nodes) : Prop := forall h, d_interval <$> m !! h = d_interval <$> m' !! h.

Lemma bsearch_loop_ext {E A} (k1 k2 : A -> outcome E Z) fuel point l base size :
  (forall x, k1 x = k2 x) -> bsearch_loop k1 fuel point l base size = bsearch_loop k2 fuel point l base size.
Proof.
  intros Hk. revert base size. induction fuel as [|fuel IH]; intros base size; cbn; [done|].
  case_match; [done|]. destruct (unwrap _); cbn; [|done..]. rewrite Hk. destruct (k2 a); cbn; [apply IH|done..].
Qed.

Lemma get_interval_ext (s s' : MemoryReachabilityStore) h :
  same_intervals (m_map s) (m_map s') -> get_interval s h = get_interval s' h.
Proof.
  intros H. cbn. unfold mem_get_data. specialize (H h).
  destruct (m_map s !! h), (m_map s' !! h); cbn in *; congruence.
Qed.

Lemma binary_search_descendant_ext (s s' : MemoryReachabilityStore) l x :
  same_intervals (m_map s) (m_map s') -> binary_search_descendant s l x = binary_search_descendant s' l x.
Proof.
  intros H. unfold binary_search_descendant, is_chain_ancestor_of.
  pose proof (fun h => get_interval_ext s s' h H) as Hi. rewrite Hi.
  destruct (get_interval s' x) as [i| | |]; cbn [obind]; [|done..].
  assert (Hk : forall c, search_key s c = search_key s' c) by (intros c; unfold search_key; by rewrite Hi).
  assert (binary_search_by_key (search_key s) (iv_end i) l = binary_search_by_key (search_key s') (iv_end i) l) as ->.
  { unfold binary_search_by_key. destruct l; [done|]. rewrite (bsearch_loop_ext _ _ _ _ _ _ _ Hk).
    destruct (bsearch_loop _ _ _ _ _ _); cbn [obind]; [|done..]. destruct (unwrap _); cbn [obind]; [|done..].
    by rewrite Hk. }
  destruct (binary_search_by_key _ _ _) as [[?|[|?]]| | |]; cbn [obind]; [done|done| |done..].
  destruct (unwrap _); cbn [obind]; [|done..]. by rewrite Hi.
Qed.

(** ** The steps of the deletion *)

Lemma set_parents_spec ch p (s : MemoryReachabilityStore) :
  (forall c, c ∈ ch -> is_Some (m_map s !! c)) ->
  exists s', foldM_out (fun st c => set_parent st c p) s ch = Ok s' /\ m_reindex_root s' = m_reindex_root s /\
    forall h, m_map s' !! h = (fun d => if decide (h ∈ ch) then with_parent d p else d) <$> m_map s !! h.
Proof.
  revert s. induction ch as [|c ch IH]; intros s Hin.
  { exists s. split_and!; [done|done|]. intros h. destruct (_ !! h); [|done]. cbn.
    by rewrite decide_False by (apply not_elem_of_nil). }
  destruct (Hin c ltac:(left)) as [dc Hc]. cbn [foldM_out]. rewrite (set_parent_mem _ _ _ Hc). cbn [obind].
  destruct (IH (mem_put s c (with_parent dc p))) as (s' & -> & ? & Hm).
  { intros x Hx. cbn. rewrite lookup_insert. case_decide; [eauto|]. apply Hin. by right. }
  exists s'. split_and!; [done|done|]. intros h. rewrite Hm. cbn. rewrite lookup_insert.
  destruct (decide (c = h)) as [->|Hne].
  - rewrite Hc. cbn. rewrite (decide_True (P := h ∈ h :: ch)) by left. by case_decide.
  - destruct (m_map s !! h); [|done]. cbn. f_equal. apply decide_ext. rewrite elem_of_cons. naive_solver.
Qed.

Lemma replace_fci_mem (s : MemoryReachabilityStore) h d b i ch l :
  m_map s !! h = Some d -> vec_splice1 (E := ReachabilityError) i ch (d_fcs d) = Ok l ->
  replace_future_covering_item s h b i ch = Ok (mem_put s h (with_fcs d l)).
Proof.
  intros Hd Hl. cbn. unfold mem_replace_future_covering_item. rewrite (mem_get_data_ok _ _ _ Hd). cbn [obind].
  by rewrite Hl.
Qed.

Lemma replace_child_mem (s : MemoryReachabilityStore) h d b i ch l :
  m_map s !! h = Some d -> vec_splice1 (E := ReachabilityError) i ch (d_children d) = Ok l ->
  replace_child s h b i ch = Ok (mem_put s h (with_children d l)).
Proof.
  intros Hd Hl. cbn. unfold mem_replace_child. rewrite (mem_get_data_ok _ _ _ Hd). cbn [obind].
  by rewrite Hl.
Qed.

Section Search.
Context (s : MemoryReachabilityStore) (root b : N).
Hypothesis Hok : tree_ok (m_map s) root.
Hypothesis Hb : is_Some (m_map s !! b).

(** Tree order excludes ancestry. *)
Lemma tree_before_not_chain x y : tree_before (m_map s) x y -> ~ chain_anc (m_map s) x y /\ ~ chain_anc (m_map s) y x.
Proof using Hok.
  intros Hxy. destruct (tree_before_in _ _ _ Hxy) as [[dx Hx] [dy Hy]].
  pose proof (tree_before_interval _ _ _ _ _ _ Hok Hxy Hx Hy).
  destruct (local_of _ _ Hok _ _ Hx) as (_ & Hlx & _), (local_of _ _ Hok _ _ Hy) as (_ & Hly & _).
  unfold iv_len in *. split; intros Hc.
  - apply (contains_chain _ _ Hok _ _ _ _ Hx Hy), contains_iff in Hc. lia.
  - apply (contains_chain _ _ Hok _ _ _ _ Hy Hx), contains_iff in Hc. lia.
Qed.

Lemma tree_sorted_nodup l : tree_sorted (m_map s) l -> NoDup l.
Proof using Hok.
  intros [Hin Hs]. apply NoDup_alt. intros i j x Hi Hj.
  assert (Hcase : forall i j, l !! i = Some x -> l !! j = Some x -> ~ (i < j)%nat).
  { intros i' j' Hi' Hj' Hlt. destruct (tree_before_not_chain x x (Hs _ _ _ _ Hi' Hj' Hlt)) as [Hn _].
    destruct (Hin x) as [d Hd]; [by eapply list_elem_of_lookup_2|]. apply Hn. by econstructor. }
  pose proof (Hcase _ _ Hi Hj). pose proof (Hcase _ _ Hj Hi). lia.
Qed.

(** The search for a block that is in the list finds its position. *)
Lemma search_member lo l hi :
  ordered_in (m_map s) lo l hi -> b ∈ l -> (forall x, x ∈ l -> chain_anc (m_map s) x b -> x = b) ->
  exists i, binary_search_descendant s l b = Ok (Found b i) /\ l !! i = Some b.
Proof using Hok Hb.
  intros Hord Hin Huniq. destruct Hb as [db Hdb].
  destruct (binary_search_descendant_spec s root Hok lo l hi b db Hord Hdb) as (r & Hr & Hspec).
  destruct r as [i|h i].
  - destruct Hspec as (_ & Hno & _). destruct (Hno b Hin). by econstructor.
  - destruct Hspec as [Hi Hh]. assert (h = b) as -> by (apply Huniq; [by eapply list_elem_of_lookup_2|done]).
    eauto.
Qed.

Lemma search_sorted l :
  tree_sorted (m_map s) l -> b ∈ l -> exists i, binary_search_descendant s l b = Ok (Found b i) /\ l !! i = Some b.
Proof using Hok Hb.
  intros Hs Hin. apply (search_member 1 l (U64 - 2)); [by eapply tree_sorted_ordered|done|].
  intros x Hx Hxb. apply list_elem_of_lookup in Hin as [j Hj], Hx as [i Hi].
  destruct (Nat.lt_trichotomy i j) as [Hlt|[->|Hlt]]; [|congruence|].
  - by destruct (tree_before_not_chain _ _ (proj2 Hs _ _ _ _ Hi Hj Hlt)).
  - by destruct (tree_before_not_chain _ _ (proj2 Hs _ _ _ _ Hj Hi Hlt)).
Qed.

Lemma splice_found {E} l i ch :
  NoDup l -> l !! i = Some b -> @vec_splice1 E N i ch l = Ok (replace_in b ch l).
Proof using.
  intros Hnd Hi. destruct (list_elem_of_split_length l i b Hi) as (l1 & l2 & -> & ->).
  rewrite splice_at. by rewrite replace_in_split.
Qed.

Lemma delete_from_mergeset_spec M ch (st : MemoryReachabilityStore) :
  same_intervals (m_map s) (m_map st) -> NoDup M ->
  (forall x, x ∈ M -> exists d, m_map st !! x = Some d /\ b ∈ d_fcs d /\ tree_sorted (m_map s) (d_fcs d)) ->
  exists st', delete_from_mergeset st b ch M = Ok st' /\ m_reindex_root st' = m_reindex_root st /\
    forall h, m_map st' !! h =
      (fun d => if decide (h ∈ M) then with_fcs d (replace_in b ch (d_fcs d)) else d) <$> m_map st !! h.
Proof using Hok Hb.
  unfold delete_from_mergeset. revert st. induction M as [|x M IH]; intros st Hiv Hnd HM.
  { exists st. split_and!; [done|done|]. intros h. destruct (_ !! h); [|done]. cbn.
    by rewrite decide_False by (apply not_elem_of_nil). }
  apply NoDup_cons in Hnd as [HxM Hnd]. destruct (HM x ltac:(left)) as (d & Hd & Hbd & Hs).
  destruct (search_sorted _ Hs Hbd) as (i & Hsearch & Hi).
  cbn [foldM_out]. rewrite (get_fcs_mem _ _ _ Hd). cbn [obind].
  rewrite <-(binary_search_descendant_ext s st) by done. rewrite Hsearch. cbn [obind].
  rewrite (replace_fci_mem _ _ _ _ _ _ _ Hd (splice_found _ _ _ (tree_sorted_nodup _ Hs) Hi)). cbn [obind].
  set (st1 := mem_put st x _).
  destruct (IH st1) as (st' & -> & Hrr & Hm).
  - intros h. rewrite Hiv. unfold st1. cbn. rewrite lookup_insert. case_decide; [subst; by rewrite Hd|done].
  - done.
  - intros y Hy. destruct (HM y ltac:(by right)) as (dy & Hdy & ? & ?). exists dy. split; [|done].
    unfold st1. cbn. rewrite lookup_insert_ne; [done|]. by intros ->.
  - exists st'. split_and!; [done|done|]. intros h. rewrite Hm. unfold st1. cbn. rewrite lookup_insert.
    destruct (decide (x = h)) as [->|Hne].
    + rewrite Hd. cbn. rewrite (decide_False (P := h ∈ M)) by done. by rewrite decide_True by left.
    + destruct (m_map st !! h); [|done]. cbn. f_equal. apply decide_ext. rewrite elem_of_cons. naive_solver.
Qed.
End Search.

(** ** Handing over the interval *)

Lemma put_interval_skel (s : MemoryReachabilityStore) h d i :
  m_map s !! h = Some d -> same_skel (m_map s) (m_map (mem_put s h (with_interval d i))).
Proof. intros Hd x. cbn. rewrite lookup_insert. case_decide; [subst; by rewrite Hd|done]. Qed.

Lemma list_ends {A} (l : list A) :
  l = [] \/ (exists c, l = [c]) \/ exists f mid lst, l = f :: mid ++ [lst].
Proof.
  destruct l as [|f rest]; [auto|]. destruct rest as [|x rest]; [eauto|]. right; right.
  destruct (exists_last (l := x :: rest)) as (mid & lst & ->); [done|eauto].
Qed.

Section HandOver.
Context (m : nodes) (root b p : N) (db dp : MemoryReachabilityData) (l1 l2 : list N).
Hypothesis Hok : tree_ok m root.
Hypothesis Hb : m !! b = Some db.
Hypothesis Hp : m !! p = Some dp.
Hypothesis Hbp : d_parent db = p.
Hypothesis Hcs : d_children dp = l1 ++ b :: l2.
Let ch := d_children db.

(** The intervals after the hand-over: they only grow, only for former
    siblings and children of [b], and the children of [p] stay in order. *)
Record handed_over (m4 : nodes) : Prop := mk_handed_over {
  ho_grow : forall h d, m !! h = Some d -> exists d4, m4 !! h = Some d4 /\
    1 <= iv_start (d_interval d4) <= iv_start (d_interval d) /\
    iv_end (d_interval d) <= iv_end (d_interval d4) < U64 - 1 /\
    (d_parent d <> p -> d_parent d <> b -> d_interval d4 = d_interval d);
  ho_order : ordered_in m4 (iv_start (d_interval dp)) (l1 ++ ch ++ l2) (iv_end (d_interval dp) - 1)
}.

#[local] Lemma parts : exists x, x <= iv_start (d_interval db) /\
  ordered_in m (iv_start (d_interval dp)) l1 (x - 1) /\
  ordered_in m (iv_end (d_interval db) + 1) l2 (iv_end (d_interval dp) - 1) /\
  1 <= iv_start (d_interval db) <= iv_end (d_interval db) /\ iv_end (d_interval db) < U64 - 1 /\
  ordered_in m (iv_start (d_interval db)) ch (iv_end (d_interval db) - 1).
Proof using Hok Hb Hp Hbp Hcs.
  destruct (local_of _ _ Hok _ _ Hp) as (_ & _ & Hord). rewrite Hcs in Hord.
  apply ordered_in_app in Hord as (x & H1 & d & Hd & ? & ? & H2). assert (d = db) as -> by congruence.
  destruct (local_of _ _ Hok _ _ Hb) as (Hiv & Hlen & Hch). unfold iv_ok, iv_len in *.
  exists x. split_and!; (done || lia).
Qed.

#[local] Lemma disjoint_lists :
  p <> b /\ NoDup (l1 ++ b :: l2) /\ NoDup ch /\ (forall c, c ∈ ch -> (c ∉ l1) /\ (c ∉ l2)).
Proof using Hok Hb Hp Hbp Hcs.
  pose proof (proj1 Hok) as Hsh.
  assert (p <> b).
  { intros ->. pose proof (sh_height _ _ Hsh b db db) as Hh. rewrite Hbp in Hh. specialize (Hh Hb Hb). lia. }
  split_and!; [done|rewrite <-Hcs; by eapply sh_nodup|by eapply sh_nodup|].
  intros c Hc. destruct (sh_child _ _ Hsh _ _ _ Hb Hc) as (dc & Hdc & Hpc).
  assert (Hcp : c ∉ d_children dp).
  { intros Hcp. destruct (sh_child _ _ Hsh _ _ _ Hp Hcp) as (dc' & Hdc' & Hpc'). congruence. }
  rewrite Hcs in Hcp. rewrite elem_of_app, elem_of_cons in Hcp. tauto.
Qed.

Section Store.
Context (s3 : MemoryReachabilityStore) (d3 : MemoryReachabilityData).
Hypothesis Hiv : same_intervals m (m_map s3).
Hypothesis Hp3 : m_map s3 !! p = Some d3.
Hypothesis Hc3 : d_children d3 = l1 ++ ch ++ l2.

#[local] Lemma at3 h d : m !! h = Some d -> exists d', m_map s3 !! h = Some d' /\ d_interval d' = d_interval d.
Proof using Hiv.
  intros Hd. specialize (Hiv h). rewrite Hd in Hiv. destruct (m_map s3 !! h) as [d'|]; [|done].
  cbn in Hiv. exists d'. split; congruence.
Qed.

(** Growing the interval of one former child or sibling of [b]. *)
#[local] Lemma grow_one (st : MemoryReachabilityStore) c dc d' i :
  (forall h d, m !! h = Some d -> exists d4, m_map st !! h = Some d4 /\
    1 <= iv_start (d_interval d4) <= iv_start (d_interval d) /\
    iv_end (d_interval d) <= iv_end (d_interval d4) < U64 - 1 /\
    (d_parent d <> p -> d_parent d <> b -> d_interval d4 = d_interval d)) ->
  m !! c = Some dc -> (d_parent dc = p \/ d_parent dc = b) -> m_map st !! c = Some d' ->
  1 <= iv_start i <= iv_start (d_interval dc) -> iv_end (d_interval dc) <= iv_end i < U64 - 1 ->
  forall h d, m !! h = Some d -> exists d4, m_map (mem_put st c (with_interval d' i)) !! h = Some d4 /\
    1 <= iv_start (d_interval d4) <= iv_start (d_interval d) /\
    iv_end (d_interval d) <= iv_end (d_interval d4) < U64 - 1 /\
    (d_parent d <> p -> d_parent d <> b -> d_interval d4 = d_interval d).
Proof using Hbp.
  intros Hgrow Hc Hpar Hd' ? ? h d Hd. cbn. rewrite lookup_insert. case_decide as Heq; [|auto].
  subst h. assert (d = dc) as -> by congruence. eexists. split; [done|]. cbn.
  split_and!; [lia..|]. intros H1 H2. destruct Hpar; contradiction.
Qed.

#[local] Lemma same_grow h d : m !! h = Some d -> exists d4, m_map s3 !! h = Some d4 /\
    1 <= iv_start (d_interval d4) <= iv_start (d_interval d) /\
    iv_end (d_interval d) <= iv_end (d_interval d4) < U64 - 1 /\
    (d_parent d <> p -> d_parent d <> b -> d_interval d4 = d_interval d).
Proof using Hok Hiv Hbp.
  intros Hd. destruct (at3 _ _ Hd) as (d' & Hd' & Hi). destruct (local_of _ _ Hok _ _ Hd) as (Hv & _ & _).
  unfold iv_ok in Hv. exists d'. rewrite Hi. split_and!; (done || lia).
Qed.

(** An untouched part of the order. *)
#[local] Lemma keep (m4 : nodes) lo l hi :
  (forall c, c ∈ l -> m4 !! c = m_map s3 !! c) -> ordered_in m lo l hi -> ordered_in m4 lo l hi.
Proof using Hiv.
  intros Hl. apply ordered_in_ext. intros c Hc. rewrite Hl by done. apply Hiv.
Qed.

#[local] Lemma hand_over_none :
  ch = [] -> exists s4, hand_over_interval s3 p (length l1) (d_interval db) ch = Ok s4 /\
    m_reindex_root s4 = m_reindex_root s3 /\ same_skel (m_map s3) (m_map s4) /\ handed_over (m_map s4).
Proof using Hok Hb Hp Hbp Hcs Hiv Hp3 Hc3.
  intros Hch. destruct parts as (x & Hx & H1 & H2 & Hbi & Hbe & _).
  destruct disjoint_lists as (Hpb & Hnd & _ & _).
  rewrite Hch in *. cbn in Hc3. destruct (decide (l1 = [])) as [Hl1|(l0 & sib & Hl1)%exists_last]; rewrite Hl1 in H1, Hnd, Hc3 |- *.
  { exists s3. split_and!; try done. split; [apply same_grow|]. rewrite Hch, Hl1. cbn in H1 |- *.
    apply (ordered_in_weaken _ (iv_end (d_interval db) + 1) _ _ (iv_end (d_interval dp) - 1)); [|lia..].
    by apply keep. }
  cbn [hand_over_interval]. rewrite length_app, Nat.add_1_r. cbn [length].
  rewrite (get_children_mem _ _ _ Hp3), Hc3. cbn [obind]. rewrite <-app_assoc. cbn [app]. rewrite list_lookup_middle by done. cbn [unwrap obind].
  apply ordered_in_app in H1 as (y & H0 & d & Hd & ? & ? & He). cbn in He.
  destruct (at3 _ _ Hd) as (d' & Hd' & Hi'). rewrite (get_interval_mem _ _ _ Hd'). cbn [obind].
  rewrite (set_interval_mem _ _ _ Hd'), Hi'. eexists. split_and!; [done|done|by apply put_interval_skel|].
  destruct (sh_child _ _ (proj1 Hok) _ _ sib Hp) as (d0 & Hd0 & Hpar0).
  { rewrite Hcs, Hl1, !elem_of_app, list_elem_of_singleton. tauto. }
  assert (d0 = d) as -> by congruence. destruct (local_of _ _ Hok _ _ Hd) as (Hv & Hl & _). unfold iv_ok, iv_len in Hv, Hl.
  rewrite <-app_assoc in Hnd. apply NoDup_app in Hnd as (_ & Hn0 & [Hns Hn2]%NoDup_cons).
  split; [eapply grow_one; eauto using same_grow; cbn; lia|].
  rewrite Hch, Hl1, <-app_assoc. apply ordered_in_app. exists y. split.
  - apply keep; [|done]. intros c Hc. apply lookup_insert_ne. intros ->. apply (Hn0 c Hc). left.
  - eexists. split; [apply lookup_insert_eq|]. cbn. split_and!; [lia|lia|].
    apply keep; [|done]. intros c Hc. apply lookup_insert_ne. intros ->. apply Hns. by right.
Qed.

#[local] Lemma hand_over_one c :
  ch = [c] -> exists s4, hand_over_interval s3 p (length l1) (d_interval db) ch = Ok s4 /\
    m_reindex_root s4 = m_reindex_root s3 /\ same_skel (m_map s3) (m_map s4) /\ handed_over (m_map s4).
Proof using Hok Hb Hp Hbp Hcs Hiv Hp3 Hc3.
  intros Hch. destruct parts as (x & Hx & H1 & H2 & Hbi & Hbe & Hord).
  destruct disjoint_lists as (Hpb & _ & _ & Hdis).
  assert (Hin : c ∈ ch) by (rewrite Hch; left). destruct (Hdis c Hin) as [Hc1 Hc2].
  destruct (sh_child _ _ (proj1 Hok) _ _ c Hb Hin) as (d & Hd & Hpar).
  destruct (ordered_in_elem _ _ _ _ _ Hord Hin) as (d0 & Hd0 & ? & ? & ?). assert (d0 = d) as -> by congruence.
  destruct (at3 _ _ Hd) as (d' & Hd' & Hi'). rewrite Hch. cbn [hand_over_interval].
  rewrite (set_interval_mem _ _ _ Hd'). eexists. split_and!; [done|done|by apply put_interval_skel|].
  split; [eapply grow_one; eauto using same_grow; lia|].
  rewrite Hch. apply ordered_in_app. exists x. split.
  - apply keep; [|done]. intros y Hy. apply lookup_insert_ne. by intros ->.
  - eexists. split; [apply lookup_insert_eq|]. cbn. split_and!; [lia|lia|].
    apply keep; [|done]. intros y Hy. apply lookup_insert_ne. by intros ->.
Qed.

#[local] Lemma hand_over_many f mid lst :
  ch = f :: mid ++ [lst] -> exists s4, hand_over_interval s3 p (length l1) (d_interval db) ch = Ok s4 /\
    m_reindex_root s4 = m_reindex_root s3 /\ same_skel (m_map s3) (m_map s4) /\ handed_over (m_map s4).
Proof using Hok Hb Hp Hbp Hcs Hiv Hp3 Hc3.
  intros Hch. destruct parts as (x & Hx & H1 & H2 & Hbi & Hbe & Hord).
  destruct disjoint_lists as (Hpb & _ & Hnd & Hdis).
  assert (Hinf : f ∈ ch) by (rewrite Hch; left).
  assert (Hinl : lst ∈ ch) by (rewrite Hch, elem_of_cons, elem_of_app, list_elem_of_singleton; tauto).
  destruct (Hdis f Hinf) as [Hf1 Hf2], (Hdis lst Hinl) as [Hl1 Hl2].
  rewrite Hch in Hnd. apply NoDup_cons in Hnd as [Hfn (_ & Hmid & _)%NoDup_app].
  rewrite elem_of_app, list_elem_of_singleton in Hfn.
  assert (Hlm : lst ∉ mid) by (intros Hl; apply (Hmid _ Hl); left).
  destruct (sh_child _ _ (proj1 Hok) _ _ f Hb Hinf) as (df & Hdf & Hpf).
  destruct (sh_child _ _ (proj1 Hok) _ _ lst Hb Hinl) as (dl & Hdl & Hpl).
  rewrite Hch in Hord. destruct Hord as (d0 & Hd0 & ? & ? & Hord). assert (d0 = df) as -> by congruence.
  apply ordered_in_app in Hord as (y & Hm & d1 & Hd1 & ? & ? & He). cbn in He. assert (d1 = dl) as -> by congruence.
  destruct (local_of _ _ Hok _ _ Hdf) as (Hvf & Hlf & _), (local_of _ _ Hok _ _ Hdl) as (Hvl & Hll & _).
  unfold iv_ok, iv_len in *.
  destruct (at3 _ _ Hdf) as (df' & Hdf' & Hif), (at3 _ _ Hdl) as (dl' & Hdl' & Hil).
  set (s31 := mem_put s3 f (with_interval df' (interval_new (iv_start (d_interval db)) (iv_end (d_interval df))))).
  assert (Hl31 : m_map s31 !! lst = Some dl') by (unfold s31; cbn; rewrite lookup_insert_ne; [done|intros ->; tauto]).
  assert (Hrun : hand_over_interval s3 p (length l1) (d_interval db) ch =
    Ok (mem_put s31 lst (with_interval dl' (interval_new (iv_start (d_interval dl)) (iv_end (d_interval db)))))).
  { rewrite Hch. unfold hand_over_interval. destruct (mid ++ [lst]) as [|c0 rest] eqn:Hmr; [by destruct mid|].
    rewrite <-Hmr, (get_interval_mem _ _ _ Hdf'). cbn [obind]. rewrite (set_interval_mem _ _ _ Hdf'), Hif. cbn [obind].
    rewrite last_snoc. cbn [unwrap obind]. fold s31. rewrite (get_interval_mem _ _ _ Hl31). cbn [obind].
    by rewrite (set_interval_mem _ _ _ Hl31), Hil. }
  eexists. split_and!; [exact Hrun|done| |].
  { etrans; [by apply (put_interval_skel s3 f df')|by apply put_interval_skel]. }
  assert (Hsame : forall c, c <> f -> c <> lst ->
    m_map (mem_put s31 lst (with_interval dl' (interval_new (iv_start (d_interval dl)) (iv_end (d_interval db))))) !! c = m_map s3 !! c).
  { intros c Hcf Hcl. unfold s31. cbn. by rewrite !lookup_insert_ne. }
  split.
  { eapply (grow_one s31); [|exact Hdl|auto|done|cbn; lia..].
    eapply grow_one; [apply same_grow|exact Hdf|auto|done|cbn; lia..]. }
  rewrite Hch. apply ordered_in_app. exists x. split.
  { apply keep; [|done]. intros c Hc. apply Hsame; congruence. }
  cbn [app]. eexists. split.
  { cbn. rewrite lookup_insert_ne by (intros ->; tauto). apply lookup_insert_eq. }
  cbn [with_interval d_interval interval_new iv_start iv_end]. split_and!; [lia|lia|].
  rewrite <-app_assoc. apply ordered_in_app. exists y. split.
  { apply keep; [|done]. intros c Hc. apply Hsame; congruence || (intros ->; tauto). }
  eexists. split; [apply lookup_insert_eq|]. cbn. split_and!; [lia|lia|].
  apply keep; [|done]. intros c Hc. apply Hsame; congruence.
Qed.

Lemma hand_over_spec :
  exists s4, hand_over_interval s3 p (length l1) (d_interval db) ch = Ok s4 /\
    m_reindex_root s4 = m_reindex_root s3 /\ same_skel (m_map s3) (m_map s4) /\ handed_over (m_map s4).
Proof using Hok Hb Hp Hbp Hcs Hiv Hp3 Hc3.
  destruct (list_ends ch) as [H|[[c H]|(f & mid & lst & H)]];
    eauto using hand_over_none, hand_over_one, hand_over_many.
Qed.
End Store.
End HandOver.

(** ** Tree order as a sorted list *)

Lemma sorted_lookup {A} (R : A -> A -> Prop) l :
  StronglySorted R l <-> forall i j x y, l !! i = Some x -> l !! j = Some y -> (i < j)%nat -> R x y.
Proof.
  split.
  - induction 1 as [|a l Hl IH Ha]; intros i j x y Hi Hj Hij; [done|].
    destruct j as [|j]; [lia|]. destruct i as [|i]; cbn in Hi, Hj.
    + injection Hi as <-. rewrite Forall_forall in Ha. apply Ha. by eapply list_elem_of_lookup_2.
    + apply (IH i j); [done..|lia].
  - induction l as [|a l IH]; intros H; constructor.
    + apply IH. intros i j x y Hi Hj Hij. apply (H (S i) (S j)); [done..|lia].
    + apply Forall_forall. intros y [j Hj]%list_elem_of_lookup. apply (H 0%nat (S j)); [done..|lia].
Qed.

Lemma tree_before_below m a b c d :
  chain_anc m a c -> chain_anc m b d -> tree_before m a b -> tree_before m c d.
Proof.
  intros Hac Hbd (h & dh & i & j & ca & cb & ? & ? & ? & ? & ? & ?).
  exists h, dh, i, j, ca, cb. split_and!; eauto using chain_trans.
Qed.

(** ** The store after the deletion *)
Section Deleted.
Context (m m' : nodes) (root b p : N) (db dp : MemoryReachabilityData).
Hypothesis Hok : tree_ok m root.
Hypothesis Hb : m !! b = Some db.
Hypothesis Hp : m !! p = Some dp.
Hypothesis Hbp : d_parent db = p.
Hypothesis Hbr : b <> root.
Let ch := d_children db.

Record block_deleted : Prop := mk_block_deleted {
  bd_gone : m' !! b = None;
  bd_keep : forall h d, m !! h = Some d -> h <> b -> exists d', m' !! h = Some d' /\
    d_children d' = replace_in b ch (d_children d) /\
    d_parent d' = (if decide (d_parent d = b) then p else d_parent d) /\
    d_height d' = d_height d /\ d_fcs d' = replace_in b ch (d_fcs d) /\
    1 <= iv_start (d_interval d') <= iv_start (d_interval d) /\
    iv_end (d_interval d) <= iv_end (d_interval d') < U64 - 1 /\
    (d_parent d <> p -> d_parent d <> b -> d_interval d' = d_interval d);
  bd_only : forall h d', m' !! h = Some d' -> h <> b /\ is_Some (m !! h);
  bd_order : ordered_in m' (iv_start (d_interval dp)) (replace_in b ch (d_children dp)) (iv_end (d_interval dp) - 1)
}.

Hypothesis Hdel : block_deleted.

#[local] Lemma Hshape : shape m root. Proof using Hok. apply Hok. Qed.

(** A remaining block, with its old and new data. *)
#[local] Lemma remaining h d' : m' !! h = Some d' -> h <> b /\ exists d, m !! h = Some d /\
    d_children d' = replace_in b ch (d_children d) /\
    d_parent d' = (if decide (d_parent d = b) then p else d_parent d) /\
    d_height d' = d_height d /\ d_fcs d' = replace_in b ch (d_fcs d).
Proof using Hdel.
  intros Hh. destruct (bd_only Hdel _ _ Hh) as [Hne [d Hd]]. split; [done|].
  destruct (bd_keep Hdel _ _ Hd Hne) as (d0 & Hd0 & ? & ? & ? & ? & _). exists d.
  assert (d0 = d') as -> by congruence. done.
Qed.

#[local] Lemma p_not_b : p <> b.
Proof using Hok Hb Hp Hbp Hbr.
  intros ->. pose proof (sh_height _ _ Hshape b db db) as Hh. rewrite Hbp in Hh. specialize (Hh Hb Hb). lia.
Qed.

#[local] Lemma child_of_b c : c ∈ ch -> exists dc, m !! c = Some dc /\ d_parent dc = b /\ c <> b.
Proof using Hok Hb Hp Hbp Hbr.
  intros Hc. destruct (sh_child _ _ Hshape _ _ _ Hb Hc) as (dc & Hdc & Hpc). exists dc. split_and!; [done..|].
  intros ->. pose proof (sh_height _ _ Hshape b dc db Hdc) as Hh. rewrite Hpc in Hh. specialize (Hh Hb).
  assert (dc = db) as -> by congruence. lia.
Qed.

#[local] Lemma b_child_of h d : m !! h = Some d -> b ∈ d_children d -> h = p.
Proof using Hok Hb Hbp.
  intros Hd Hin. destruct (sh_child _ _ Hshape _ _ _ Hd Hin) as (d0 & Hd0 & Hp0). congruence.
Qed.

#[local] Lemma b_in_p : b ∈ d_children dp.
Proof using Hok Hb Hp Hbp Hbr.
  destruct (sh_parent _ _ Hshape _ _ Hb Hbr) as (dp' & Hdp' & Hin). congruence.
Qed.

#[local] Lemma replaced_nodup h d : m !! h = Some d -> h <> b -> NoDup (replace_in b ch (d_children d)).
Proof using Hok Hb Hp Hbp Hbr.
  intros Hd Hhb. pose proof Hshape as Hsh.
  pose proof (sh_nodup _ _ Hsh _ _ Hd) as Hnd. destruct (decide (b ∈ d_children d)) as [Hbd|Hbd].
  + destruct (list_elem_of_split _ _ Hbd) as (l1 & l2 & Hl). rewrite Hl in *. rewrite replace_in_split by done.
    assert (Hsep : forall c, c ∈ ch -> (c ∉ l1) /\ (c ∉ l2)).
    { intros c Hc. destruct (child_of_b c Hc) as (dc & Hdc & Hpc & _).
      assert (Hno : c ∉ d_children d).
      { intros Hc'. destruct (sh_child _ _ Hsh _ _ _ Hd Hc') as (dc' & Hdc' & Hpc'). congruence. }
      rewrite Hl, elem_of_app, elem_of_cons in Hno. tauto. }
    apply NoDup_app in Hnd as (Hn1 & Hn12 & [Hn2 Hn3]%NoDup_cons).
    apply NoDup_app. split_and!; [done| |apply NoDup_app; split_and!].
    * intros x Hx. rewrite elem_of_app. intros [Hxc|Hx2]; [by destruct (Hsep x Hxc)|]. apply (Hn12 x Hx). by right.
    * eapply sh_nodup; eauto.
    * intros x Hx. exact (proj2 (Hsep x Hx)).
    * done.
  + by rewrite replace_in_id.
Qed.

Lemma deleted_shape : shape m' root.
Proof using Hok Hb Hp Hbp Hbr Hdel.
  pose proof Hshape as Hsh. constructor.
  - destruct (sh_top _ _ Hsh) as (d & Hd & Hn). destruct (bd_keep Hdel _ _ Hd) as (d' & Hd' & _ & Hpar & _); [done|].
    exists d'. split; [done|]. rewrite Hpar, Hn, decide_False; [done|]. intros Hnb. rewrite <-Hnb in Hb.
    pose proof (sh_none _ _ Hsh). congruence.
  - destruct (m' !! hash_NONE) eqn:Hn; [|done]. destruct (bd_only Hdel _ _ Hn) as [_ [? ?]].
    pose proof (sh_none _ _ Hsh). congruence.
  - intros h d' c Hd' Hc. destruct (remaining _ _ Hd') as (Hhb & d & Hd & Hch & _).
    rewrite Hch, elem_of_replace_in in Hc. destruct Hc as [[Hc Hcb]|[Hbd Hc]].
    + destruct (sh_child _ _ Hsh _ _ _ Hd Hc) as (dc & Hdc & Hpc).
      destruct (bd_keep Hdel _ _ Hdc Hcb) as (dc' & Hdc' & _ & Hpar & _). exists dc'. split; [done|].
      by rewrite Hpar, Hpc, decide_False.
    + rewrite (b_child_of _ _ Hd Hbd). destruct (child_of_b _ Hc) as (dc & Hdc & Hpc & Hcb).
      destruct (bd_keep Hdel _ _ Hdc Hcb) as (dc' & Hdc' & _ & Hpar & _). exists dc'. split; [done|].
      by rewrite Hpar, decide_True.
  - intros h d' Hd' Hhr. destruct (remaining _ _ Hd') as (Hhb & d & Hd & _ & Hpar & _).
    destruct (sh_parent _ _ Hsh _ _ Hd Hhr) as (dq & Hdq & Hin). rewrite Hpar. case_decide as Hq.
    + destruct (bd_keep Hdel _ _ Hp p_not_b) as (dp' & Hdp' & Hch & _). exists dp'. split; [done|].
      rewrite Hch, elem_of_replace_in. right. split; [apply b_in_p|]. rewrite Hq in Hdq. unfold ch. congruence.
    + destruct (bd_keep Hdel _ _ Hdq Hq) as (dq' & Hdq' & Hch & _). exists dq'. split; [done|].
      rewrite Hch, elem_of_replace_in. auto.
  - intros h d' Hd'. destruct (remaining _ _ Hd') as (Hhb & d & Hd & Hch & _). rewrite Hch. by eapply replaced_nodup.
  - intros h d' Hd'. destruct (remaining _ _ Hd') as (Hhb & d & Hd & _ & _ & Hh & _). rewrite Hh. by eapply sh_height0.
  - intros h d' dq' Hd' Hdq'. destruct (remaining _ _ Hd') as (Hhb & d & Hd & _ & Hpar & Hh & _).
    destruct (remaining _ _ Hdq') as (_ & dq & Hdq & _ & _ & Hhq & _). rewrite Hh, Hhq.
    rewrite Hpar in Hdq. case_decide as Hq.
    + assert (dq = dp) as -> by congruence. pose proof (sh_height _ _ Hsh h d db Hd) as H1. rewrite Hq in H1.
      pose proof (sh_height _ _ Hsh b db dp Hb) as H2. rewrite Hbp in H2. specialize (H1 Hb). specialize (H2 Hp). lia.
    + by eapply (sh_height _ _ Hsh).
Qed.

Lemma deleted_tree : tree_ok m' root.
Proof using Hok Hb Hp Hbp Hbr Hdel.
  split; [apply deleted_shape|]. intros h [d' Hd']. destruct (bd_only Hdel _ _ Hd') as [Hhb [d Hd]].
  destruct (bd_keep Hdel _ _ Hd Hhb) as (d0 & Hd0 & Hch & Hpar & _ & _ & Hs & He & Hun).
  assert (d0 = d') as -> by congruence. destruct (local_of _ _ Hok _ _ Hd) as (Hv & Hl & Hord).
  unfold iv_ok, iv_len in *. exists d'. unfold iv_ok, iv_len. split_and!; [done|lia..|].
  destruct (decide (h = p)) as [->|Hhp].
  - assert (d = dp) as -> by congruence. rewrite Hch. rewrite Hun; [apply (bd_order Hdel)| |].
    + intros Heq. pose proof (sh_height _ _ Hshape p dp dp Hp) as Hh. rewrite Heq in Hh. specialize (Hh Hp). lia.
    + intros Heq. pose proof (sh_height _ _ Hshape p dp db Hp) as Hh. rewrite Heq in Hh. specialize (Hh Hb).
      pose proof (sh_height _ _ Hshape b db dp Hb) as Hh'. rewrite Hbp in Hh'. specialize (Hh' Hp). lia.
  - rewrite Hch, replace_in_id; [|intros Hin; apply Hhp; by eapply b_child_of].
    apply (ordered_in_weaken _ (iv_start (d_interval d)) _ _ (iv_end (d_interval d) - 1)); [|lia..].
    eapply ordered_in_ext; [|exact Hord]. intros c Hc.
    destruct (sh_child _ _ Hshape _ _ _ Hd Hc) as (dc & Hdc & Hpc).
    destruct (bd_keep Hdel c dc Hdc) as (dc' & Hdc' & _ & _ & _ & _ & _ & _ & Hunc).
    { intros ->. apply Hhp. by eapply b_child_of. }
    rewrite Hdc, Hdc'. cbn. f_equal. symmetry. apply Hunc; congruence.
Qed.

Lemma deleted_chain x y : x <> b -> y <> b -> chain_anc m' x y <-> chain_anc m x y.
Proof using Hok Hb Hp Hbp Hbr Hdel.
  intros Hx Hy. split.
  - clear Hx Hy. induction 1 as [h d' Hd'|x y d' Hd' Hxy IH].
    + destruct (bd_only Hdel _ _ Hd') as [_ [d Hd]]. by econstructor.
    + destruct (remaining _ _ Hd') as (_ & d & Hd & _ & Hpar & _). rewrite Hpar in IH.
      eapply chain_up; [done|]. case_decide as Hq; [|done]. rewrite Hq. eapply chain_up; [done|]. by rewrite Hbp.
  - intros Hxy. cut ((y <> b -> chain_anc m' x y) /\ (y = b -> chain_anc m' x p)); [tauto|].
    clear Hy. induction Hxy as [h d Hd|x y d Hd Hxy IH].
    + split; [|done]. intros _. destruct (bd_keep Hdel _ _ Hd Hx) as (d' & Hd' & _). by econstructor.
    + destruct (IH Hx) as [IH1 IH2]. split.
      * intros Hy. destruct (bd_keep Hdel _ _ Hd Hy) as (d' & Hd' & _ & Hpar & _). eapply chain_up; [done|].
        rewrite Hpar. case_decide; auto.
      * intros ->. assert (d = db) as -> by congruence. rewrite Hbp in *. apply IH1, p_not_b.
Qed.

Lemma below_b y : y <> b -> chain_anc m b y <-> exists c, c ∈ ch /\ chain_anc m c y.
Proof using Hok Hb Hp Hbp Hbr.
  intros Hy. split.
  - intros Hby. by apply (chain_first_child m root Hshape b y db).
  - intros (c & Hc & Hcy). eapply chain_trans; [|done]. by eapply (chain_child m root Hshape).
Qed.

Lemma deleted_covered x y : x <> b -> y <> b -> is_Some (m !! x) -> covered m' x y <-> covered m x y.
Proof using Hok Hb Hp Hbp Hbr Hdel.
  intros Hx Hy [d Hd]. destruct (bd_keep Hdel _ _ Hd Hx) as (d' & Hd' & _ & _ & _ & Hf & _).
  assert (Hcb : forall c, c ∈ ch -> c <> b) by (intros c Hc; by destruct (child_of_b c Hc) as (? & _ & _ & ?)).
  unfold covered. rewrite deleted_chain by done. apply or_iff_compat_l. split.
  - intros (d0 & f & Hd0 & Hin & Hfy). assert (d0 = d') as -> by congruence.
    rewrite Hf, elem_of_replace_in in Hin. destruct Hin as [[Hin Hfb]|[Hbf Hc]].
    + exists d, f. split_and!; [done..|]. by apply deleted_chain.
    + exists d, b. split_and!; [done..|]. apply below_b; [done|]. exists f. split; [done|].
      apply deleted_chain; auto.
  - intros (d0 & f & Hd0 & Hin & Hfy). assert (d0 = d) as -> by congruence.
    destruct (decide (f = b)) as [->|Hfb].
    + apply below_b in Hfy as (c & Hc & Hcy); [|done]. exists d', c. split_and!; [done| |apply deleted_chain; auto].
      rewrite Hf, elem_of_replace_in. auto.
    + exists d', f. split_and!; [done| |by apply deleted_chain]. rewrite Hf, elem_of_replace_in. auto.
Qed.

(** Replacing [b] by its children keeps a list in tree order. *)
#[local] Lemma replaced_sorted l : tree_sorted m l -> tree_sorted m (replace_in b ch l).
Proof using Hok Hb Hp Hbp Hbr.
  intros [Hin Hs]. split.
  { intros x. rewrite elem_of_replace_in. intros [[? _]|[_ Hc]]; [auto|].
    destruct (child_of_b _ Hc) as (? & ? & _); eauto. }
  destruct (decide (b ∈ l)) as [Hbl|Hbl]; [|by rewrite replace_in_id].
  assert (Hself : forall x, x ∈ l -> chain_anc m x x) by (intros x Hx; destruct (Hin x Hx); by econstructor).
  assert (Hbc : forall c, c ∈ ch -> chain_anc m b c) by (intros c; by apply (chain_child m root Hshape)).
  assert (Hnd : NoDup l) by (apply (tree_sorted_nodup (mk_mem m None) root Hok); by split).
  apply sorted_lookup. apply sorted_lookup in Hs. destruct (list_elem_of_split _ _ Hbl) as (l1 & l2 & ->).
  rewrite replace_in_split by done. apply StronglySorted_app in Hs as (H12 & H1 & Hs2).
  apply StronglySorted_inv in Hs2 as [H2 Hb2]. rewrite Forall_forall in Hb2.
  assert (Hbb : b ∈ b :: l2) by left.
  apply StronglySorted_app. split_and!; [|done|apply StronglySorted_app; split_and!; [| |done]].
  - intros x y Hx. rewrite elem_of_app. intros [Hy|Hy]; [|apply H12; [done|by right]].
    eapply tree_before_below; [apply Hself, elem_of_app; by left|by apply Hbc|by apply H12].
  - intros x y Hx Hy. eapply tree_before_below; [by apply Hbc| |by apply Hb2].
    apply Hself, elem_of_app. right. by right.
  - apply sorted_lookup. intros i j x y Hi Hj Hij.
    destruct (child_of_b x) as (dx & ? & _); [by eapply list_elem_of_lookup_2|].
    destruct (child_of_b y) as (dy & ? & _); [by eapply list_elem_of_lookup_2|].
    exists b, db, i, j, x, y. split_and!; [done..|by econstructor|by econstructor].
Qed.

#[local] Lemma deleted_before x y : x <> b -> y <> b -> tree_before m x y -> tree_before m' x y.
Proof using Hok Hb Hp Hbp Hbr Hdel.
  intros Hx Hy Hxy. destruct (tree_before_in _ _ _ Hxy) as [[dx Hdx] [dy Hdy]].
  destruct (tree_before_not_chain (mk_mem m None) root Hok x y Hxy) as [Hn1 Hn2].
  destruct (bd_keep Hdel _ _ Hdx Hx) as (dx' & Hdx' & _ & _ & _ & _ & Hsx & Hex & _).
  destruct (bd_keep Hdel _ _ Hdy Hy) as (dy' & Hdy' & _ & _ & _ & _ & Hsy & Hey & _).
  destruct (tree_trichotomy m' root x y) as [Hc|[Hc|[?|Hyx]]]; [apply deleted_shape|eauto|eauto| | |done|].
  - by apply deleted_chain in Hc.
  - by apply deleted_chain in Hc.
  - pose proof (tree_before_interval _ _ _ _ _ _ Hok Hxy Hdx Hdy).
    pose proof (tree_before_interval _ _ _ _ _ _ deleted_tree Hyx Hdy' Hdx').
    destruct (local_of _ _ Hok _ _ Hdx) as (_ & Hl & _), (local_of _ _ Hok _ _ Hdy) as (_ & Hl' & _).
    unfold iv_len in *. lia.
Qed.

Lemma deleted_sorted : fcs_sorted m -> fcs_sorted m'.
Proof using Hok Hb Hp Hbp Hbr Hdel.
  intros Hf h d' Hd'. destruct (remaining _ _ Hd') as (Hhb & d & Hd & _ & _ & _ & Hfc). rewrite Hfc.
  assert (Hnb : forall x, x ∈ replace_in b ch (d_fcs d) -> x <> b).
  { intros x. rewrite elem_of_replace_in. intros [[_ ?]|[_ Hc]]; [done|].
    by destruct (child_of_b _ Hc) as (_ & _ & _ & ?). }
  destruct (replaced_sorted _ (Hf _ _ Hd)) as [Hin Hs]. split.
  - intros x Hx. destruct (Hin x Hx) as [dx Hdx]. destruct (bd_keep Hdel _ _ Hdx (Hnb x Hx)) as (? & ? & _). eauto.
  - intros i j x y Hi Hj Hij.
    apply deleted_before; [eapply Hnb, list_elem_of_lookup_2; eauto..|by apply (Hs i j)].
Qed.
End Deleted.

(** ** [delete_block] *)
Section DeleteBlock.
Context (s : MemoryReachabilityStore) (root b : N) (db : MemoryReachabilityData) (M : list N).
Let m := m_map s.
Hypothesis Hok : tree_ok m root.
Hypothesis Hf : fcs_sorted m.
Hypothesis Hb : m !! b = Some db.
Hypothesis Hbr : b <> root.
Hypothesis Hnd : NoDup M.
Hypothesis HM : forall x, x ∈ M <-> exists d, m !! x = Some d /\ b ∈ d_fcs d.

(** The operation succeeds and leaves the store described by [block_deleted]. *)
Lemma delete_block_runs :
  exists s' dp, m !! d_parent db = Some dp /\ delete_block s b M = Ok s' /\
    m_reindex_root s' = m_reindex_root s /\ block_deleted m (m_map s') b (d_parent db) db dp.
Proof using Hok Hf Hb Hbr Hnd HM.
  pose proof (proj1 Hok) as Hsh. set (p := d_parent db). set (ch := d_children db).
  destruct (sh_parent _ _ Hsh _ _ Hb Hbr) as (dp & Hp & Hin). fold p in Hp.
  assert (Hpb : p <> b).
  { intros Heq. pose proof (sh_height _ _ Hsh b db db Hb) as Hh. fold p in Hh. rewrite Heq in Hh. specialize (Hh Hb). lia. }
  destruct (local_of _ _ Hok _ _ Hp) as (_ & _ & Hord).
  destruct (search_member s root b Hok ltac:(eauto) _ _ _ Hord Hin) as (i & Hsearch & Hi).
  { intros x Hx Hxb. eapply (siblings_disjoint m root Hsh); eauto. by econstructor. }
  pose proof (sh_nodup _ _ Hsh _ _ Hp) as Hndp.
  destruct (list_elem_of_split_length _ _ _ Hi) as (l1 & l2 & Hcs & Hlen).
  unfold delete_block. rewrite (get_interval_mem _ _ _ Hb), (get_parent_mem _ _ _ Hb), (get_children_mem _ _ _ Hb).
  cbn [obind]. fold p ch. rewrite (get_children_mem _ _ _ Hp). cbn [obind]. rewrite Hsearch. cbn [obind].
  rewrite (replace_child_mem _ _ _ b _ ch _ Hp (splice_found b _ _ ch Hndp Hi)). cbn [obind].
  set (s1 := mem_put s p _).
  assert (Hm1 : forall h, m_map s1 !! h = (fun d => with_children d (replace_in b ch (d_children d))) <$> m !! h).
  { intros h. unfold s1. cbn. rewrite lookup_insert. case_decide as Hh; [subst h; by rewrite Hp|]. fold m.
    destruct (m !! h) as [d|] eqn:Hd; [|done]. cbn. rewrite replace_in_id; [by destruct d|].
    intros Hbd. destruct (sh_child _ _ Hsh _ _ _ Hd Hbd) as (d0 & Hd0 & Hp0). unfold p in Hh. congruence. }
  destruct (set_parents_spec ch p s1) as (s2 & -> & Hr2 & Hm2).
  { intros c Hc. destruct (sh_child _ _ Hsh _ _ _ Hb Hc) as (dc & Hdc & _). rewrite Hm1, Hdc. eauto. }
  cbn [obind].
  destruct (delete_from_mergeset_spec s root b Hok ltac:(eauto) M ch s2) as (s3 & -> & Hr3 & Hm3).
  { intros h. rewrite Hm2, Hm1. fold m. destruct (m !! h); cbn; [|done]. by case_decide. }
  { done. }
  { intros x (d & Hd & Hbd)%HM. rewrite Hm2, Hm1, Hd. cbn. eexists. split; [done|].
    case_decide; cbn; (split; [done|by apply (Hf x)]). }
  cbn [obind].
  assert (Hm : forall h d, m !! h = Some d -> exists d3, m_map s3 !! h = Some d3 /\
    d_children d3 = replace_in b ch (d_children d) /\ d_parent d3 = (if decide (d_parent d = b) then p else d_parent d) /\
    d_height d3 = d_height d /\ d_fcs d3 = replace_in b ch (d_fcs d) /\ d_interval d3 = d_interval d).
  { intros h d Hd. rewrite Hm3, Hm2, Hm1, Hd. cbn. eexists. split; [done|].
    assert (Hpar : h ∈ ch <-> d_parent d = b).
    { split; [intros Hc; destruct (sh_child _ _ Hsh _ _ _ Hb Hc) as (? & ? & ?); congruence|].
      intros Hq. destruct (decide (h = root)) as [->|Hhr].
      - destruct (sh_root _ _ Hsh) as (d0 & ? & ?). congruence.
      - destruct (sh_parent _ _ Hsh _ _ Hd Hhr) as (dq & ? & ?). unfold ch. congruence. }
    assert (Hfc : h ∉ M -> replace_in b ch (d_fcs d) = d_fcs d).
    { intros HhM. apply replace_in_id. intros Hbd. apply HhM, HM. eauto. }
    destruct (decide (h ∈ ch)), (decide (h ∈ M)), (decide (d_parent d = b)); try tauto; cbn;
      rewrite ?Hfc by done; done. }
  destruct (Hm p dp Hp) as (d3 & Hp3 & Hc3 & _).
  assert (Hc3' : d_children d3 = l1 ++ ch ++ l2).
  { rewrite Hc3, Hcs. apply replace_in_split. by rewrite <-Hcs. }
  destruct (hand_over_spec m root b p db dp l1 l2 Hok Hb Hp ltac:(done) Hcs s3 d3) as (s4 & Hrun & Hr4 & Hsk & Hho).
  { intros h. destruct (m !! h) as [d|] eqn:Hd.
    - destruct (Hm h d Hd) as (d' & -> & _ & _ & _ & _ & Hiv). cbn. by rewrite Hiv.
    - rewrite Hm3, Hm2, Hm1, Hd. done. }
  { done. } { done. }
  fold ch in Hrun. rewrite Hlen, Hrun. cbn [obind]. eexists _, dp. split_and!; [done|cbn; reflexivity|cbn; by rewrite Hr4, Hr3, Hr2|].
  destruct Hho as [Hgrow Horder]. split.
  - cbn. apply lookup_delete_eq.
  - intros h d Hd Hhb. destruct (Hm h d Hd) as (d' & Hd' & Hc & Hpar & Hh & Hfc & _).
    destruct (Hgrow h d Hd) as (d4 & Hd4 & ? & ? & ?).
    destruct (same_skel_lookup _ _ _ _ Hsk Hd') as (d5 & Hd5 & Hc5 & Hp5 & Hh5 & Hf5). assert (d5 = d4) as -> by congruence.
    exists d4. cbn. rewrite lookup_delete_ne, Hc5, Hp5, Hh5, Hf5 by done. split_and!; (done || lia).
  - cbn. intros h d' Hd'. destruct (decide (h = b)) as [->|Hhb]; [by rewrite lookup_delete_eq in Hd'|].
    rewrite lookup_delete_ne in Hd' by done. split; [done|].
    apply (mk_is_Some) in Hd'. apply (same_skel_is_Some _ _ h Hsk) in Hd'. rewrite Hm3, Hm2, Hm1 in Hd'.
    fold m in Hd'. destruct (m !! h); [eauto|]. by destruct Hd'.
  - rewrite Hcs, replace_in_split by (by rewrite <-Hcs). eapply ordered_in_ext; [|exact Horder].
    intros c Hc. cbn. destruct (decide (c = b)) as [->|Hcb]; [|by rewrite lookup_delete_ne].
    exfalso. fold ch in Hc. rewrite <-(replace_in_split b) in Hc by (by rewrite <-Hcs).
    apply elem_of_replace_in in Hc as [[_ ?]|[_ Hc]]; [done|].
    destruct (sh_child _ _ Hsh _ _ _ Hb Hc) as (d0 & Hd0 & Hp0). unfold p in Hpb. congruence.
Qed.

Lemma delete_block_spec :
  exists s', delete_block s b M = Ok s' /\ m_reindex_root s' = m_reindex_root s /\
    tree_ok (m_map s') root /\ fcs_sorted (m_map s') /\
    (forall h, is_Some (m_map s' !! h) <-> h <> b /\ is_Some (m !! h)) /\
    (forall x y, x <> b -> y <> b -> chain_anc (m_map s') x y <-> chain_anc m x y) /\
    (forall x y, x <> b -> y <> b -> is_Some (m !! x) -> covered (m_map s') x y <-> covered m x y).
Proof using Hok Hf Hb Hbr Hnd HM.
  destruct delete_block_runs as (s' & dp & Hp & Hrun & Hr & Hdel). exists s'.
  split_and!; [done|done|by apply (deleted_tree m _ root b (d_parent db) db dp)
    |by apply (deleted_sorted m _ root b (d_parent db) db dp)| | |].
  - intros h. split.
    + intros [d Hd]. exact (bd_only _ _ _ _ _ _ Hdel _ _ Hd).
    + intros [Hhb [d Hd]]. destruct (bd_keep _ _ _ _ _ _ Hdel _ _ Hd Hhb) as (? & ? & _). eauto.
  - intros x y. by apply (deleted_chain m _ root b (d_parent db) db dp).
  - intros x y. by apply (deleted_covered m _ root b (d_parent db) db dp).
Qed.
End DeleteBlock.
