(* ===== verification/ReachabilityStaged.v ===== *)
(** * Block operations on the staging store, and their commit

    [add_block] and [delete_block] run on the staging store with the same effect
    as on the memory store; committing a staging store that holds a well-formed
    index gives a database with that index, whatever its caches evict. *)

From Stdlib Require Import ZArith Lia Bool.
From stdpp Require Import base gmap numbers list sorting.
From S2P Require Import Prelude BinarySearch Interval ReachabilityStore ReachabilityQueries ReachabilityTree ReachabilityReindex ReachabilityCount ReachabilityPropagate ReachabilityAdd ReachabilityBlocks ReachabilityRefine ReachabilityStaging ReachabilityCommit ReachabilityDag ReachabilityDelete.

#[local] Open Scope Z_scope.

Section Ops.
Context (allowed : N -> Prop).
Implicit Types (s : MemoryReachabilityStore) (t : StagingReachabilityStore).
Abbreviation stg := (staged allowed).

Ltac st_step :=
  lazymatch goal with
  | |- sim _ (obind ?m _) (obind ?m _) => apply (sim_bind eq); [apply sim_refl|intros ? ? <-]
  | |- sim _ (if ?b then _ else _) _ => destruct b
  end.

Lemma add_tree_block_staged fuel s t n p depth slack :
  stg s t -> allowed n -> (forall d, m_map s !! p = Some d -> n ∉ d_children d) ->
  sim stg (add_tree_block fuel s n p depth slack) (add_tree_block fuel t n p depth slack).
Proof using.
  intros Hst Hal Hn. unfold add_tree_block.
  eapply (sim_bind eq); [by apply (remaining_after_sim stg)|intros rem ? <-].
  destruct (m_map s !! p) as [d|] eqn:Hd.
  2: { cbn. unfold mem_append_child, mem_get_data. rewrite Hd. apply sim_Err. }
  eapply (sim_bind stg); [by eapply staged_append; eauto|clear s t Hst Hn Hd; intros s t Hst].
  eapply (sim_bind eq); [by apply (ra_height (R := stg))|intros ph ? <-]. st_step. st_step.
  - st_step. eapply (sim_bind stg); [by apply staged_insert|clear s t Hst; intros s t Hst].
    eapply (sim_bind eq); [by apply (ra_root (R := stg))|intros r ? <-].
    eapply (sim_bind (RC stg)); [apply reindex_intervals_sim; [apply _|by constructor]|].
    intros c1 c2 [s1 s2 sizes sl HR]. by apply sim_Ok.
  - apply (sim_bind eq); [apply sim_refl|intros [al ?] ? <-]. st_step. by apply staged_insert.
Qed.

Lemma insert_fcs_staged s t x n d :
  stg s t -> m_map s !! x = Some d -> n ∉ d_fcs d ->
  sim stg (insert_to_future_covering_set s x n) (insert_to_future_covering_set t x n).
Proof using.
  intros Hst Hd Hn. unfold insert_to_future_covering_set.
  eapply (sim_bind eq); [by apply (ra_fcs (R := stg))|intros l ? <-].
  eapply (sim_bind eq); [by apply (binary_search_descendant_sim stg)|intros r ? <-].
  destruct r; [by eapply staged_insert_fci|apply sim_Err].
Qed.

(** What inserting into one future covering set does to the others. *)
Lemma insert_fcs_other s s' x n y :
  insert_to_future_covering_set s x n = Ok s' -> y <> x -> m_map s' !! y = m_map s !! y.
Proof using.
  unfold insert_to_future_covering_set. intros Hs Hne. apply bind_Ok in Hs as (l & _ & Hs).
  apply bind_Ok in Hs as ([i|] & _ & Hs); [|done]. cbn in Hs. unfold mem_insert_future_covering_item in Hs.
  apply bind_Ok in Hs as (d & _ & Hs). apply bind_Ok in Hs as (l' & _ & [= <-]). cbn. by apply lookup_insert_ne.
Qed.

Lemma add_dag_block_staged M s t n :
  stg s t -> NoDup M -> (forall x d, x ∈ M -> m_map s !! x = Some d -> n ∉ d_fcs d) ->
  sim stg (add_dag_block s n M) (add_dag_block t n M).
Proof using.
  unfold add_dag_block. revert s t. induction M as [|x M IH]; intros s t Hst Hnd HM; cbn [foldM_out]; [by apply sim_Ok|].
  apply NoDup_cons in Hnd as [HxM Hnd]. intros s2 Hs2. apply bind_Ok in Hs2 as (s1 & Hs1 & Hs2).
  destruct (m_map s !! x) as [d|] eqn:Hd.
  2: { unfold insert_to_future_covering_set in Hs1. cbn in Hs1. unfold mem_get_data in Hs1. by rewrite Hd in Hs1. }
  destruct (insert_fcs_staged s t x n d Hst Hd (HM x d ltac:(left) Hd) s1 Hs1) as (t1 & -> & Hst1). cbn [obind].
  apply (IH s1 t1 Hst1 Hnd); [|done]. intros y dy Hy. rewrite (insert_fcs_other _ _ _ _ _ Hs1) by congruence.
  apply HM. by right.
Qed.

(** The data a successful tree insertion starts from. *)
Lemma add_block_staged fuel s t n sp M depth slack s' :
  stg s t -> allowed n -> NoDup M -> (forall d, m_map s !! sp = Some d -> n ∉ d_children d) ->
  (forall s1, add_tree_block fuel s n sp (default DEFAULT_REINDEX_DEPTH depth) (default DEFAULT_REINDEX_SLACK slack) = Ok s1 ->
     forall x d, x ∈ M -> m_map s1 !! x = Some d -> n ∉ d_fcs d) ->
  add_block_with_params fuel s n sp M depth slack = Ok s' ->
  exists t', add_block_with_params fuel t n sp M depth slack = Ok t' /\ stg s' t'.
Proof using.
  intros Hst Hal Hnd Hn HM. revert s'. unfold add_block_with_params. intros s' Hs.
  apply bind_Ok in Hs as (s1 & Hs1 & Hs).
  destruct (add_tree_block_staged fuel s t n sp _ _ Hst Hal Hn s1 Hs1) as (t1 & -> & Hst1). cbn [obind].
  by apply (add_dag_block_staged M s1 t1 n Hst1 Hnd (HM s1 Hs1)).
Qed.
End Ops.

(** ** [delete_block] *)
Section DeleteOps.
Implicit Types (s : MemoryReachabilityStore) (t : StagingReachabilityStore).
Abbreviation stg := (staged (fun _ => False)).

Lemma hand_over_staged s t p i iv ch :
  stg s t -> sim stg (hand_over_interval s p i iv ch) (hand_over_interval t p i iv ch).
Proof using.
  intros Hst. unfold hand_over_interval. destruct ch as [|f [|x rest]].
  - destruct i; [by apply sim_Ok|]. eapply (sim_bind eq); [by apply (ra_children (R := stg))|intros l ? <-].
    apply (sim_bind eq); [apply sim_refl|intros sib ? <-].
    eapply (sim_bind eq); [by apply (ra_interval (R := stg))|intros si ? <-]. by apply staged_interval.
  - by apply staged_interval.
  - eapply (sim_bind eq); [by apply (ra_interval (R := stg))|intros fi ? <-].
    eapply (sim_bind stg); [by apply staged_interval|clear s t Hst; intros s t Hst].
    apply (sim_bind eq); [apply sim_refl|intros lst ? <-].
    eapply (sim_bind eq); [by apply (ra_interval (R := stg))|intros li ? <-]. by apply staged_interval.
Qed.

Lemma set_parents_staged ch p s t :
  stg s t -> sim stg (foldM_out (fun st c => set_parent st c p) s ch) (foldM_out (fun st c => set_parent st c p) t ch).
Proof using.
  revert s t. induction ch as [|c ch IH]; intros s t Hst; cbn [foldM_out]; [by apply sim_Ok|].
  eapply sim_bind; [by apply staged_parent|]. auto.
Qed.

Section Mergeset.
Context (s0 : MemoryReachabilityStore) (root b : N) (db : MemoryReachabilityData).
Hypothesis Hok : tree_ok (m_map s0) root.
Hypothesis Hb : m_map s0 !! b = Some db.
Let ch := d_children db.

Lemma children_not_in_sorted l c : tree_sorted (m_map s0) l -> b ∈ l -> c ∈ ch -> c ∉ l.
Proof using Hok Hb.
  intros Hs Hbl Hc Hcl. pose proof (chain_child _ _ (proj1 Hok) _ _ _ Hb Hc) as Hbc.
  destruct (sh_child _ _ (proj1 Hok) _ _ _ Hb Hc) as (dc & Hdc & Hpc).
  assert (Hne : b <> c).
  { intros <-. pose proof (sh_height _ _ (proj1 Hok) b dc db Hdc) as Hh. rewrite Hpc in Hh. specialize (Hh Hb).
    assert (dc = db) as -> by congruence. lia. }
  apply list_elem_of_lookup in Hbl as [i Hi], Hcl as [j Hj].
  destruct (Nat.lt_trichotomy i j) as [Hlt|[->|Hlt]]; [|congruence|].
  - by destruct (tree_before_not_chain s0 root Hok _ _ (proj2 Hs _ _ _ _ Hi Hj Hlt)).
  - by destruct (tree_before_not_chain s0 root Hok _ _ (proj2 Hs _ _ _ _ Hj Hi Hlt)).
Qed.

Lemma delete_from_mergeset_staged M s t :
  stg s t -> same_intervals (m_map s0) (m_map s) -> NoDup M ->
  (forall x, x ∈ M -> exists d, m_map s !! x = Some d /\ b ∈ d_fcs d /\ tree_sorted (m_map s0) (d_fcs d)) ->
  sim stg (delete_from_mergeset s b ch M) (delete_from_mergeset t b ch M).
Proof using Hok Hb.
  unfold delete_from_mergeset. revert s t. induction M as [|x M IH]; intros s t Hst Hiv Hnd HM; cbn [foldM_out]; [by apply sim_Ok|].
  apply NoDup_cons in Hnd as [HxM Hnd]. destruct (HM x ltac:(left)) as (d & Hd & Hbd & Hs).
  destruct (search_sorted s0 root b Hok ltac:(eauto) _ Hs Hbd) as (i & Hsearch & Hi).
  rewrite (binary_search_descendant_ext s0 s) in Hsearch by done.
  rewrite (get_fcs_mem _ _ _ Hd). cbn [obind]. rewrite Hsearch. cbn [obind].
  destruct (ra_fcs (R := stg) s t x Hst (d_fcs d) (get_fcs_mem _ _ _ Hd)) as (? & -> & <-). cbn [obind].
  destruct (binary_search_descendant_sim stg s t (d_fcs d) b Hst _ Hsearch) as (? & -> & <-). cbn [obind].
  eapply (sim_bind (fun s1 t1 => stg s1 t1 /\ s1 = mem_put s x (with_fcs d (replace_in b ch (d_fcs d))))).
  - intros s1 Hs1. destruct (staged_replace_fci _ s t x b i ch d Hst Hd Hi) with (a1 := s1) as (t1 & -> & Hst1); [| |done|].
    + eapply sh_nodup; [apply Hok|done].
    + intros c Hc. by apply children_not_in_sorted.
    + exists t1. split_and!; [done..|].
      rewrite (replace_fci_mem _ _ _ _ _ _ _ Hd (splice_found b _ _ _ (tree_sorted_nodup s0 root Hok _ Hs) Hi)) in Hs1.
      congruence.
  - intros s1 t1 [Hst1 ->]. apply IH; [done| |done|].
    + intros h. rewrite Hiv. cbn. rewrite lookup_insert. case_decide; [subst; by rewrite Hd|done].
    + intros y Hy. destruct (HM y ltac:(by right)) as (dy & Hdy & ? & ?). exists dy. split; [|done].
      cbn. rewrite lookup_insert_ne; [done|]. by intros ->.
Qed.

Lemma delete_block_staged M s' t :
  stg s0 t -> fcs_sorted (m_map s0) -> b <> root -> NoDup M ->
  (forall x, x ∈ M <-> exists d, m_map s0 !! x = Some d /\ b ∈ d_fcs d) ->
  delete_block s0 b M = Ok s' -> exists t', delete_block t b M = Ok t' /\ stg s' t'.
Proof using Hok Hb.
  intros Hst Hf Hbr Hnd HM. pose proof (proj1 Hok) as Hsh. set (p := d_parent db).
  destruct (sh_parent _ _ Hsh _ _ Hb Hbr) as (dp & Hp & Hin). fold p in Hp.
  destruct (local_of _ _ Hok _ _ Hp) as (_ & _ & Hord).
  destruct (search_member s0 root b Hok ltac:(eauto) _ _ _ Hord Hin) as (i & Hsearch & Hi).
  { intros x Hx Hxb. eapply (siblings_disjoint _ root Hsh); eauto. by econstructor. }
  revert s'. change (sim stg (delete_block s0 b M) (delete_block t b M)). unfold delete_block.
  eapply (sim_bind (fun a1 a2 => a1 = a2 /\ a1 = d_interval db));
    [rewrite (get_interval_mem _ _ _ Hb); intros ? [= <-];
     destruct (ra_interval (R := stg) _ _ b Hst _ (get_interval_mem _ _ _ Hb)) as (? & -> & <-); eauto|intros ? ? [<- ->]].
  eapply (sim_bind (fun a1 a2 => a1 = a2 /\ a1 = p));
    [rewrite (get_parent_mem _ _ _ Hb); intros ? [= <-];
     destruct (ra_parent (R := stg) _ _ b Hst _ (get_parent_mem _ _ _ Hb)) as (? & -> & <-); eauto|intros ? ? [<- ->]].
  eapply (sim_bind (fun a1 a2 => a1 = a2 /\ a1 = ch));
    [rewrite (get_children_mem _ _ _ Hb); intros ? [= <-];
     destruct (ra_children (R := stg) _ _ b Hst _ (get_children_mem _ _ _ Hb)) as (? & -> & <-); eauto|intros ? ? [<- ->]].
  eapply (sim_bind (fun a1 a2 => a1 = a2 /\ a1 = d_children dp));
    [rewrite (get_children_mem _ _ _ Hp); intros ? [= <-];
     destruct (ra_children (R := stg) _ _ p Hst _ (get_children_mem _ _ _ Hp)) as (? & -> & <-); eauto|intros ? ? [<- ->]].
  eapply (sim_bind (fun a1 a2 => a1 = a2 /\ a1 = Found b i));
    [rewrite Hsearch; intros ? [= <-]; destruct (binary_search_descendant_sim stg _ _ _ b Hst _ Hsearch) as (? & -> & <-); eauto
    |intros ? ? [<- ->]]. cbv beta iota.
  pose proof (splice_found (E := ReachabilityError) b _ _ ch (sh_nodup _ _ Hsh _ _ Hp) Hi) as Hsp.
  eapply (sim_bind (fun s1 t1 => stg s1 t1 /\ s1 = mem_put s0 p (with_children dp (replace_in b ch (d_children dp))))).
  { intros s1 Hs1. destruct (staged_replace_child _ s0 t p b i ch dp Hst Hp Hi) with (a1 := s1) as (t1 & -> & Hst1);
      [by eapply sh_nodup| |done|exists t1; split_and!; [done..|]; rewrite (replace_child_mem _ _ _ _ _ _ _ Hp Hsp) in Hs1; congruence].
    intros c Hc Hcp. destruct (sh_child _ _ Hsh _ _ _ Hb Hc) as (dc & Hdc & Hpc), (sh_child _ _ Hsh _ _ _ Hp Hcp) as (dc' & Hdc' & Hpc').
    assert (p = b) by congruence. pose proof (sh_height _ _ Hsh b db dp Hb) as Hh. fold p in Hh. specialize (Hh Hp).
    assert (dp = db) as -> by congruence. lia. }
  intros s1 t1 [Hst1 ->]. set (s1 := mem_put s0 p _) in *.
  destruct (set_parents_spec ch p s1) as (s2 & Hs2 & _ & Hm2).
  { intros c Hc. destruct (sh_child _ _ Hsh _ _ _ Hb Hc) as (dc & Hdc & _). unfold s1. cbn. rewrite lookup_insert.
    case_decide; eauto. }
  assert (Hm1 : forall h, (d_interval <$> m_map s1 !! h = d_interval <$> m_map s0 !! h) /\ (d_fcs <$> m_map s1 !! h = d_fcs <$> m_map s0 !! h)).
  { intros h. unfold s1. cbn. rewrite lookup_insert. case_decide; [subst h; by rewrite Hp|done]. }
  assert (Hm : forall h, (d_interval <$> m_map s2 !! h = d_interval <$> m_map s0 !! h) /\ (d_fcs <$> m_map s2 !! h = d_fcs <$> m_map s0 !! h)).
  { intros h. destruct (Hm1 h) as [<- <-]. rewrite Hm2. destruct (m_map s1 !! h); cbn; [|done]. by case_decide. }
  eapply (sim_bind (fun a1 a2 => stg a1 a2 /\ a1 = s2)).
  { rewrite Hs2. intros ? [= <-]. destruct (set_parents_staged ch p s1 t1 Hst1 s2 Hs2) as (t2 & -> & Hst2). eauto. }
  intros ? t2 [Hst2 ->]. eapply (sim_bind stg).
  { apply delete_from_mergeset_staged; [done| |done|].
    - intros h. symmetry. apply Hm.
    - intros x (d & Hd & Hbd)%HM. destruct (Hm x) as [_ Hfx]. rewrite Hd in Hfx.
      destruct (m_map s2 !! x) as [d2|]; [|done]. cbn in Hfx. injection Hfx as Hfx. exists d2.
      rewrite Hfx. split_and!; [done..|]. by apply (Hf x). }
  intros s3 t3 Hst3. eapply (sim_bind stg); [by apply hand_over_staged|]. intros s4 t4 Hst4.
  apply staged_delete; [done|tauto].
Qed.
End Mergeset.
End DeleteOps.

(** ** Reading an ordered set from disk *)

#[local] Instance key_le_trans {A} : Transitive (fun p q : Interval * A => interval_le p.1 q.1).
Proof. intros [a ?] [b ?] [c ?] H1 H2. cbn in *. unfold interval_le in *. lia. Qed.
#[local] Instance key_le_total {A} : Total (fun p q : Interval * A => interval_le p.1 q.1).
Proof. intros [a ?] [b ?]. cbn. unfold interval_le. lia. Qed.

Lemma mapM_out_pure {E A B} (f : A -> outcome E B) (g : A -> B) l :
  (forall x, x ∈ l -> f x = Ok (g x)) -> mapM_out f l = Ok (g <$> l).
Proof.
  induction l as [|x l IH]; intros H; cbn; [done|]. rewrite H by left. cbn.
  rewrite IH by (intros; apply H; by right). done.
Qed.

(** The blocks of [l] in strictly ascending order of the intervals [kf]. *)
Definition ascending (kf : N -> Interval) (l : list N) : Prop :=
  StronglySorted (fun a b => iv_start (kf a) < iv_start (kf b)) l.

Lemma read_sorted key kf s h l :
  ds_cache s !! h = None -> bucket s h = set_of l -> NoDup l -> ascending kf l ->
  (forall x, x ∈ l -> key x = Ok (kf x)) ->
  dbset_read key s h = Ok (l, cache_set s h l).
Proof.
  intros Hc Hb Hnd Hasc Hkey. unfold dbset_read. rewrite Hc, Hb.
  assert (Hp : elements (set_of l) ≡ₚ l) by (by apply elements_list_to_set).
  rewrite (mapM_out_pure _ (fun x => (kf x, x))).
  2: { intros x Hx. rewrite Hkey; [done|]. by rewrite Hp in Hx. }
  cbn [obind].
  assert (Hs : merge_sort (fun p q : Interval * N => interval_le p.1 q.1) ((fun x => (kf x, x)) <$> elements (set_of l))
               = (fun x => (kf x, x)) <$> l).
  { apply (StronglySorted_unique_strong (fun p q => interval_le p.1 q.1)).
    - assert (Huniq : forall x y, x ∈ l -> y ∈ l -> interval_le (kf x) (kf y) -> interval_le (kf y) (kf x) -> x = y).
      { intros x y Hx Hy H1 H2. unfold ascending in Hasc. rewrite sorted_lookup in Hasc.
        apply list_elem_of_lookup in Hx as [i Hi], Hy as [j Hj].
        destruct (Nat.lt_trichotomy i j) as [Hlt|[->|Hlt]]; [|congruence|].
        - pose proof (Hasc _ _ _ _ Hi Hj Hlt). unfold interval_le in *. lia.
        - pose proof (Hasc _ _ _ _ Hj Hi Hlt). unfold interval_le in *. lia. }
      intros p q Hp' Hq. rewrite merge_sort_Permutation, Hp in Hp'.
      apply list_elem_of_fmap in Hp' as (x & -> & Hx), Hq as (y & -> & Hy). cbn. intros H1 H2.
      by rewrite (Huniq x y).
    - apply StronglySorted_merge_sort; apply _.
    - unfold ascending in Hasc. eapply StronglySorted_fmap; [|exact Hasc]. intros x y Hxy. cbv beta in Hxy. cbn. unfold interval_le. lia.
    - rewrite merge_sort_Permutation. by rewrite Hp. }
  rewrite Hs, <-list_fmap_compose. cbn. by rewrite list_fmap_id.
Qed.

Lemma read_cached key s h l : ds_cache s !! h = Some l -> dbset_read key s h = Ok (l, s).
Proof. intros Hc. unfold dbset_read. by rewrite Hc. Qed.

(** ** Committing the sets *)

Lemma bucket_delete s h x k :
  bucket (disk_delete s h x) k = (if decide (k = h) then bucket s h ∖ {[x]} else bucket s k).
Proof.
  unfold disk_delete, bucket. cbn. rewrite lookup_insert. destruct (decide (h = k)), (decide (k = h)); congruence || done.
Qed.

Lemma bucket_write s h x k :
  bucket (disk_write s h x) k = (if decide (k = h) then {[x]} ∪ bucket s h else bucket s k).
Proof.
  unfold disk_write, bucket. cbn. rewrite lookup_insert. destruct (decide (h = k)), (decide (k = h)); congruence || done.
Qed.

Lemma disk_deletes s h l :
  let s' := foldl (fun s x => disk_delete s h x) s l in
  ds_cache s' = ds_cache s /\ (bucket s' h = bucket s h ∖ set_of l) /\ forall k, k <> h -> bucket s' k = bucket s k.
Proof.
  revert s. induction l as [|x l IH]; intros s; cbn.
  { split_and!; [done|set_solver|done]. }
  destruct (IH (disk_delete s h x)) as (Hc & Hb & Hk). split_and!; [done|rewrite Hb, bucket_delete, decide_True by done; set_solver|].
  intros k Hne. by rewrite Hk, bucket_delete, decide_False.
Qed.

Lemma disk_writes s h l :
  let s' := foldl (fun s x => disk_write s h x) s l in
  ds_cache s' = ds_cache s /\ (bucket s' h = set_of l ∪ bucket s h) /\ forall k, k <> h -> bucket s' k = bucket s k.
Proof.
  revert s. induction l as [|x l IH]; intros s; cbn.
  { split_and!; [done|set_solver|done]. }
  destruct (IH (disk_write s h x)) as (Hc & Hb & Hk). split_and!; [done|rewrite Hb, bucket_write, decide_True by done; set_solver|].
  intros k Hne. by rewrite Hk, bucket_write, decide_False.
Qed.

Lemma commit_entry_spec s h e :
  let s' := commit_staging_entry s h e in
  ds_cache s' = <[h := e_set e]> (ds_cache s) /\
  (bucket s' h = e_additions e ∪ (bucket s h ∖ e_deletions e)) /\ forall k, k <> h -> bucket s' k = bucket s k.
Proof.
  unfold commit_staging_entry. cbn.
  destruct (disk_deletes (cache_set s h (e_set e)) h (elements (e_deletions e))) as (Hc1 & Hb1 & Hk1).
  destruct (disk_writes (foldl (fun s x => disk_delete s h x) (cache_set s h (e_set e)) (elements (e_deletions e))) h
    (elements (e_additions e))) as (Hc2 & Hb2 & Hk2). rewrite !list_to_set_elements_L in *.
  split_and!; [by rewrite Hc2, Hc1|by rewrite Hb2, Hb1|]. intros k Hk. by rewrite Hk2, Hk1.
Qed.

Lemma commit_entries_spec (es : gmap N StagingSetEntry) s :
  let s' := foldl (fun s p => commit_staging_entry s p.1 p.2) s (map_to_list es) in
  forall h, match es !! h with
  | Some e => ds_cache s' !! h = Some (e_set e) /\ (bucket s' h = e_additions e ∪ (bucket s h ∖ e_deletions e))
  | None => ds_cache s' !! h = ds_cache s !! h /\ bucket s' h = bucket s h
  end.
Proof.
  cbn. assert (Hgen : forall l s h, NoDup l.*1 ->
    let s' := foldl (fun s p => commit_staging_entry s p.1 p.2) s l in
    (forall e, (h, e) ∈ l -> ds_cache s' !! h = Some (e_set e) /\ (bucket s' h = e_additions e ∪ (bucket s h ∖ e_deletions e))) /\
    (h ∉ l.*1 -> ds_cache s' !! h = ds_cache s !! h /\ bucket s' h = bucket s h)).
  { clear s. intros l. induction l as [|[k ek] l IH]; intros s h Hnd; cbn.
    - split; [intros e He; by apply elem_of_nil in He|done].
    - cbn in Hnd. apply NoDup_cons in Hnd as [Hk Hnd].
      destruct (commit_entry_spec s k ek) as (Hc & Hb & Ho). cbn in Hc, Hb, Ho.
      destruct (IH (commit_staging_entry s k ek) h Hnd) as [IHin IHout]. split.
      + intros e [[= -> ->]|He]%elem_of_cons.
        * destruct (IHout Hk) as [-> ->]. rewrite Hc, lookup_insert_eq. done.
        * assert (h <> k) by (intros ->; apply Hk, list_elem_of_fmap; by exists (k, e)).
          destruct (IHin _ He) as [-> ->]. by rewrite Ho.
      + intros [Hhk Hhl]%not_elem_of_cons. destruct (IHout Hhl) as [-> ->]. rewrite Hc, lookup_insert_ne, Ho by done. done. }
  intros h. destruct (Hgen (map_to_list es) s h (NoDup_fst_map_to_list es)) as [Hin Hout].
  destruct (es !! h) as [e|] eqn:He; [apply Hin; by apply elem_of_map_to_list|].
  apply Hout. intros ([k e'] & -> & Hk)%list_elem_of_fmap. apply elem_of_map_to_list in Hk. cbn in He. congruence.
Qed.

Lemma dbset_deletes l s h :
  let s' := foldl dbset_delete s l in
  ds_cache s' !! h = (if decide (h ∈ l) then None else ds_cache s !! h) /\
  bucket s' h = (if decide (h ∈ l) then ∅ else bucket s h).
Proof.
  revert s. induction l as [|x l IH]; intros s; cbn.
  { by rewrite !decide_False by (apply not_elem_of_nil). }
  destruct (IH (dbset_delete s x)) as [-> ->].
  assert (Hx : ds_cache (dbset_delete s x) !! h = (if decide (h = x) then None else ds_cache s !! h) /\
               bucket (dbset_delete s x) h = (if decide (h = x) then ∅ else bucket s h)).
  { unfold bucket. cbn. rewrite !lookup_delete. destruct (decide (x = h)), (decide (h = x)); congruence || done. }
  destruct Hx as [-> ->]. destruct (decide (h ∈ l)), (decide (h = x)), (decide (h ∈ x :: l)) as [Hin|Hin]; try done;
    rewrite elem_of_cons in Hin; tauto.
Qed.

(** ** The committed database *)

(** Any entries may leave the caches of the sets at any time. *)
Definition ds_evict (E : gset N) (s : DbReachabilitySet) : DbReachabilitySet :=
  mk_dbset (ds_disk s) (filter (fun p => p.1 ∉ E) (ds_cache s)).
Definition db_evict (E1 E2 : gset N) (db : DbReachabilityStore) : DbReachabilityStore :=
  mk_dbstore (db_access db) (ds_evict E1 (db_children db)) (ds_evict E2 (db_fcs db)) (db_reindex_root db).

Lemma evict_cache E s h l : (ds_cache s !! h = None \/ ds_cache s !! h = Some l) ->
  ds_cache (ds_evict E s) !! h = None \/ ds_cache (ds_evict E s) !! h = Some l.
Proof.
  intros H. cbn. destruct (filter _ (ds_cache s) !! h) as [l'|] eqn:Hl; [|auto].
  apply map_lookup_filter_Some in Hl as [Hl _]. right. destruct H; congruence.
Qed.

(** A set that lists [l], in its cache or after sorting its bucket. *)
Lemma dbset_lists key kf s h l :
  (ds_cache s !! h = None \/ ds_cache s !! h = Some l) -> bucket s h = set_of l -> NoDup l -> ascending kf l ->
  (forall x, x ∈ l -> key x = Ok (kf x)) -> fst <$> dbset_read key s h = Ok l.
Proof.
  intros [Hc|Hc] Hb Hnd Hasc Hkey.
  - by rewrite (read_sorted key kf s h l).
  - by rewrite (read_cached key s h l).
Qed.

Lemma foldr_delete_lookup {A} (m : gmap N A) l h :
  foldr delete m l !! h = (if decide (h ∈ l) then None else m !! h).
Proof.
  induction l as [|x l IH]; cbn; [by rewrite decide_False by apply not_elem_of_nil|].
  rewrite lookup_delete, IH. destruct (decide (x = h)), (decide (h ∈ l)), (decide (h ∈ x :: l)) as [Hin|Hin]; try done;
    rewrite elem_of_cons in Hin; naive_solver.
Qed.

Section Commit.
Context (allowed : N -> Prop) (s : MemoryReachabilityStore) (t : StagingReachabilityStore) (root : N).
Hypothesis Hst : staged allowed s t.
Hypothesis Hok : tree_ok (m_map s) root.
Hypothesis Hf : fcs_sorted (m_map s).
Let kf (x : N) : Interval := match m_map s !! x with Some d => d_interval d | None => interval_empty end.

Lemma ordered_ascending lo l hi : ordered_in (m_map s) lo l hi -> ascending kf l.
Proof using Hok.
  intros Ho. unfold ascending. apply sorted_lookup. intros i j x y Hi Hj Hij.
  pose proof (ordered_starts_increase s root Hok _ _ _ i j x y Ho Hi Hj Hij) as Hlt. unfold start_of in Hlt. unfold kf.
  destruct (ordered_in_elem _ _ _ _ x Ho) as (dx & Hx & _); [by eapply list_elem_of_lookup_2|].
  destruct (ordered_in_elem _ _ _ _ y Ho) as (dy & Hy & _); [by eapply list_elem_of_lookup_2|].
  by rewrite Hx, Hy in *.
Qed.

Lemma committed_access h : db_access (staging_commit t) !! h = (if decide (h ∈ st_deletions t) then None else staged_data t h).
Proof using.
  unfold staging_commit. cbn. rewrite foldr_delete_lookup, lookup_union. unfold staged_data.
  rewrite (decide_ext (h ∈ elements (st_deletions t)) (h ∈ st_deletions t)) by apply elem_of_elements.
  case_decide; [done|]. destruct (st_writes t !! h), (db_access (st_read t) !! h); done.
Qed.

Lemma committed_key E1 E2 x d : m_map s !! x = Some d -> db_key (db_evict E1 E2 (staging_commit t)) x = Ok (kf x).
Proof using Hst.
  intros Hx. destruct (staged_lookup _ _ _ _ _ Hst Hx) as (rd & Hn & Hrd & Hd).
  unfold db_key, db_read, kf. cbn. rewrite committed_access, decide_False, Hrd, Hx by done. cbn. by subst d.
Qed.

(** The list each block's set holds after the commit. *)
Definition committed_children (h : N) : list N := if decide (h ∈ st_deletions t) then [] else staged_children t h.
Definition committed_fcs (h : N) : list N := if decide (h ∈ st_deletions t) then [] else staged_fcs t h.

(** The sets of a block the memory store does not hold are empty. *)
Lemma committed_absent h : m_map s !! h = None -> committed_children h = [] /\ committed_fcs h = [].
Proof using Hst.
  rewrite (sg_view _ _ _ Hst). unfold staging_view, committed_children, committed_fcs. case_decide as Hn; [done|].
  destruct (staged_data t h) eqn:Hd; [done|]. intros _. destruct (sg_fresh _ _ _ Hst h Hd Hn) as [Hc Hfc].
  unfold staged_children, staged_fcs. rewrite Hc, Hfc. apply (dbo_absent _ (sg_base _ _ _ Hst)).
  unfold staged_data in Hd. by destruct (st_writes t !! h).
Qed.

Lemma committed_present h d : m_map s !! h = Some d -> committed_children h = d_children d /\ committed_fcs h = d_fcs d.
Proof using Hst.
  intros Hd. destruct (staged_lookup _ _ _ _ _ Hst Hd) as (rd & Hn & _ & ->).
  unfold committed_children, committed_fcs. by rewrite !decide_False.
Qed.

(** One committed set: its cache entry and its bucket. *)
Lemma committed_set (es : gmap N StagingSetEntry) (S0 : DbReachabilitySet) (base : N -> list N) key h :
  (forall x e, es !! x = Some e -> exact (base x) e) ->
  (forall x, fst <$> dbset_read key S0 x = Ok (base x) /\ NoDup (base x) /\ set_of (base x) = bucket S0 x) ->
  let S' := foldl dbset_delete (foldl (fun s p => commit_staging_entry s p.1 p.2) S0 (map_to_list es)) (elements (st_deletions t)) in
  let l := if decide (h ∈ st_deletions t) then [] else match es !! h with Some e => e_set e | None => base h end in
  (ds_cache S' !! h = None \/ ds_cache S' !! h = Some l) /\ bucket S' h = set_of l /\ NoDup l.
Proof using.
  clear kf Hst Hok Hf allowed. intros Hes Hbase S' l. destruct (dbset_deletes (elements (st_deletions t)) (foldl (fun s p => commit_staging_entry s p.1 p.2) S0 (map_to_list es)) h) as [Hc Hb].
  fold S' in Hc, Hb. rewrite (decide_ext (h ∈ elements (st_deletions t)) (h ∈ st_deletions t)) in Hc by apply elem_of_elements.
  rewrite (decide_ext (h ∈ elements (st_deletions t)) (h ∈ st_deletions t)) in Hb by apply elem_of_elements.
  unfold l. case_decide; [rewrite Hc, Hb; split_and!; [auto|done|apply NoDup_nil_2]|].
  pose proof (commit_entries_spec es S0 h) as He. cbv zeta in He. destruct (Hbase h) as (Hr & Hnd & Hs).
  rewrite Hc, Hb. destruct (es !! h) as [e|] eqn:Heq.
  - destruct He as [-> ->]. destruct (Hes _ _ Heq) as [Hn Ha Hd]. split_and!; [auto| |done].
    rewrite Ha, Hd, <-Hs. apply set_eq. intros x. destruct (decide (x ∈ set_of (e_set e))), (decide (x ∈ set_of (base h))); set_solver.
  - destruct He as [-> ->]. split_and!; [|done|done]. destruct (ds_cache S0 !! h) as [l0|] eqn:Hl0; [|auto].
    right. rewrite (read_cached key S0 h l0 Hl0) in Hr. cbn in Hr. congruence.
Qed.

(** Committing gives a readable database with the staged contents, whatever the
    set caches evict. *)
Lemma commit_spec E1 E2 :
  let db := db_evict E1 E2 (staging_commit t) in
  db_ok db /\ (forall h, db_view db h = m_map s !! h) /\ db_reindex_root db = m_reindex_root s.
Proof using Hst Hok Hf.
  intros db. pose proof (sg_base _ _ _ Hst) as Hb.
  assert (Hkeys : forall l : list N, (forall x, x ∈ l -> is_Some (m_map s !! x)) -> forall x, x ∈ l -> db_key db x = Ok (kf x)).
  { intros l Hl x Hx. destruct (Hl x Hx) as [d Hd]. by eapply committed_key. }
  assert (Hread : forall h, (db_get_children db h = Ok (committed_children h) /\ NoDup (committed_children h) /\
      set_of (committed_children h) = bucket (db_children db) h) /\
    (db_get_fcs db h = Ok (committed_fcs h) /\ NoDup (committed_fcs h) /\ set_of (committed_fcs h) = bucket (db_fcs db) h)).
  { intros h.
    destruct (committed_set (st_children t) (db_children (st_read t)) (db_children_of (st_read t)) (db_key (st_read t)) h
      (sg_children _ _ _ Hst) (dbo_children _ Hb)) as (Hc1 & Hb1 & Hn1).
    destruct (committed_set (st_fcs t) (db_fcs (st_read t)) (db_fcs_of (st_read t)) (db_key (st_read t)) h
      (sg_fcs _ _ _ Hst) (dbo_fcs _ Hb)) as (Hc2 & Hb2 & Hn2).
    assert (Hasc : ascending kf (committed_children h) /\ (forall x, x ∈ committed_children h -> is_Some (m_map s !! x)) /\
      ascending kf (committed_fcs h) /\ (forall x, x ∈ committed_fcs h -> is_Some (m_map s !! x))).
    { destruct (m_map s !! h) as [d|] eqn:Hd.
      - destruct (committed_present h d Hd) as [-> ->]. destruct (local_of _ _ Hok _ _ Hd) as (_ & _ & Ho).
        pose proof (tree_sorted_ordered _ _ _ Hok (Hf _ _ Hd)) as Hof.
        split_and!; [by eapply ordered_ascending| |by eapply ordered_ascending|apply (Hf _ _ Hd)].
        intros x Hx. destruct (sh_child _ _ (proj1 Hok) _ _ _ Hd Hx) as (? & ? & _). eauto.
      - destruct (committed_absent h Hd) as [-> ->].
        split_and!; (constructor || (intros x Hx; by apply elem_of_nil in Hx)). }
    destruct Hasc as (Ha1 & Hp1 & Ha2 & Hp2).
    split; (split_and!; [|done|symmetry; done]).
    - apply (dbset_lists _ kf); [by apply evict_cache|done|done|done|by apply Hkeys].
    - apply (dbset_lists _ kf); [by apply evict_cache|done|done|done|by apply Hkeys]. }
  assert (Hc : forall h, db_children_of db h = committed_children h).
  { intros h. unfold db_children_of. by destruct (Hread h) as [(-> & _) _]. }
  assert (Hfc : forall h, db_fcs_of db h = committed_fcs h).
  { intros h. unfold db_fcs_of. by destruct (Hread h) as [_ (-> & _)]. }
  assert (Hview : forall h, db_view db h = m_map s !! h).
  { intros h. unfold db_view. rewrite Hc, Hfc. cbn. rewrite committed_access, (sg_view _ _ _ Hst).
    unfold staging_view, committed_children, committed_fcs. by case_decide. }
  split_and!; [|done|by rewrite (sg_root _ _ _ Hst)]. split.
  - intros h. rewrite Hc. apply Hread.
  - intros h. rewrite Hfc. apply Hread.
  - intros h Hh. rewrite Hc, Hfc. apply committed_absent. rewrite <-Hview. unfold db_view. by rewrite Hh.
Qed.
End Commit.

(** A fresh staging store over a database holds the database's contents. *)
Lemma staging_new_staged allowed (s : MemoryReachabilityStore) (db : DbReachabilityStore) :
  db_ok db -> (forall h, db_view db h = m_map s !! h) -> db_reindex_root db = m_reindex_root s ->
  staged allowed s (staging_new db).
Proof.
  intros Hb Hv Hr. split; cbn; try done.
  - intros h. rewrite <-Hv. unfold staging_view, db_view, staged_data. cbn. rewrite decide_False by set_solver.
    by rewrite lookup_empty.
Qed.
