(* ===== verification/ReachabilityProps.v ===== *)
(** * Reachability: the guarantees

    The main theorems of the reachability subsystem, stated on the memory store,
    each with a witness on a concrete store built by running the operations. *)

From Stdlib Require Import ZArith Lia Bool.
From stdpp Require Import base gmap numbers list sorting.
From S2P Require Import Prelude BinarySearch Interval ReachabilityStore ReachabilityQueries ReachabilityTree ReachabilityReindex ReachabilityCount ReachabilityPropagate ReachabilityAdd ReachabilityBlocks ReachabilityDag ReachabilityDelete ReachabilityRefine ReachabilityStaging ReachabilityCommit ReachabilityStaged.

#[local] Open Scope Z_scope.

(** ** Deciding mergesets by the queries of an indexed store *)

Definition query (s : MemoryReachabilityStore) (a b : N) : bool :=
  match is_dag_ancestor_of s a b with Ok r => r | _ => false end.

Definition mergeset_check (s : MemoryReachabilityStore) (sp : N) (ps M : list N) : bool :=
  forallb (fun p => Bool.eqb (bool_decide (p.1 ∈ M)) (existsb (query s p.1) ps && negb (query s p.1 sp)))
    (map_to_list (m_map s)) &&
  forallb (fun x => bool_decide (is_Some (m_map s !! x))) (sp :: ps ++ M).

Lemma query_dag s root G a b :
  dag_ok (m_map s) root G -> is_Some (m_map s !! a) -> is_Some (m_map s !! b) ->
  query s a b = true <-> dag_anc G a b.
Proof.
  intros Hd Ha Hb. unfold query.
  destruct (is_dag_ancestor_spec s root a b) as (r & -> & Hr); [apply Hd|apply (do_sorted _ _ _ Hd)|done|done|].
  by rewrite (do_cover _ _ _ Hd).
Qed.

Lemma mergeset_check_sound s root G sp ps M :
  dag_ok (m_map s) root G -> mergeset_check s sp ps M = true ->
  forall x, x ∈ M <-> mergeset_of G sp ps x.
Proof.
  intros Hd. unfold mergeset_check. rewrite andb_true_iff, !forallb_forall. intros [Hall Hin] x.
  assert (Hpres : forall y, y ∈ sp :: ps ++ M -> is_Some (m_map s !! y)).
  { intros y Hy%list_elem_of_In. specialize (Hin y Hy). by apply bool_decide_eq_true in Hin. }
  assert (Hx : is_Some (m_map s !! x) -> x ∈ M <-> mergeset_of G sp ps x).
  { intros [d Hd']. specialize (Hall (x, d)). rewrite Bool.eqb_true_iff in Hall. cbn in Hall.
    rewrite <-(bool_decide_eq_true (x ∈ M)), Hall
      by (apply list_elem_of_In; by apply elem_of_map_to_list).
    rewrite andb_true_iff, existsb_exists, negb_true_iff, <-not_true_iff_false.
    unfold mergeset_of. rewrite (query_dag s root G x sp Hd) by (eauto; apply Hpres; left).
    apply and_iff_compat_r. split; intros (p & Hp & Hq); exists p; rewrite <-?list_elem_of_In in *; (split; [done|]);
      (eapply (query_dag s root G); eauto; apply Hpres; right; apply elem_of_app; by left). }
  split.
  - intros HxM. apply Hx; [|done]. apply Hpres. right. apply elem_of_app. by right.
  - intros HxM. apply Hx; [|done]. destruct HxM as [(p & Hp & Ha) _]. apply (do_dom _ _ _ Hd).
    by eapply dag_anc_in_l.
Qed.

Definition outcome_or {E A} (o : outcome E A) (a : A) : A := match o with Ok x => x | _ => a end.

(** ** A small DAG

    Origin 1 with children 2 and 3, the merge 4 of both (selected parent 2), its
    child 5, and 6 on top of 3. *)
Definition ex0 : MemoryReachabilityStore := outcome_or (init_with_params mem_new 1%N (interval_new 1 100)) mem_new.
Definition ex_add s n sp M := outcome_or (add_block_with_params 50 s n sp M None None) mem_new.
Definition ex1 := ex_add ex0 2%N 1%N [].
Definition ex2 := ex_add ex1 3%N 1%N [].
Definition ex3 := ex_add ex2 4%N 2%N [3%N].
Definition ex4 := ex_add ex3 5%N 4%N [].
Definition exG0 : dag := {[1%N := []]}.
Definition exG1 := <[2%N := [1%N]]> exG0.
Definition exG2 := <[3%N := [1%N]]> exG1.
Definition exG3 := <[4%N := [2%N; 3%N]]> exG2.
Definition exG4 := <[5%N := [4%N]]> exG3.

(** A store that holds only its root indexes the one-block DAG. *)
Lemma dag_ok_init root i :
  root <> hash_NONE -> iv_ok i -> 1 <= iv_len i ->
  dag_ok {[root := data_new hash_NONE i 0]} root {[root := []]}.
Proof.
  intros Hr Hi Hl.
  assert (Hin : forall h d, ({[root := data_new hash_NONE i 0]} : nodes) !! h = Some d -> h = root /\ d = data_new hash_NONE i 0).
  { intros h d H. apply lookup_singleton_Some in H as [? ?]. auto. }
  assert (Htree : tree_ok {[root := data_new hash_NONE i 0]} root).
  { split; [constructor|].
    - exists (data_new hash_NONE i 0). by rewrite lookup_singleton_eq.
    - by apply lookup_singleton_ne.
    - intros h d c Hd Hc. apply Hin in Hd as [-> ->]. by apply elem_of_nil in Hc.
    - intros h d Hd Hne. apply Hin in Hd as [-> ->]. done.
    - intros h d Hd. apply Hin in Hd as [-> ->]. constructor.
    - intros h d Hd. apply Hin in Hd as [-> ->]. done.
    - intros h d dp Hd Hdp. apply Hin in Hd as [-> ->]. apply Hin in Hdp as [Hn _]. by destruct Hr.
    - intros h [d Hd]. pose proof Hd as Hd'. apply Hin in Hd' as [-> ->].
      eexists. split; [done|]. cbn. unfold iv_len in *. split_and!; [done|lia|lia]. }
  split; [done| | | |].
  - intros h d Hd. apply Hin in Hd as [-> ->]. split; [intros x Hx; by apply elem_of_nil in Hx|done].
  - intros h. rewrite !lookup_singleton. case_decide; split; eauto; by intros [? ?].
  - intros h ps p Hh Hp. apply lookup_singleton_Some in Hh as [<- <-]. by apply elem_of_nil in Hp.
  - intros x y [dx Hx] [dy Hy]. apply Hin in Hx as [-> _]. pose proof Hy as Hy'. apply Hin in Hy' as [-> _]. split.
    + intros _. left. by econstructor.
    + intros _. constructor. rewrite lookup_singleton_eq. eauto.
Qed.

Lemma chain_by_query (s : MemoryReachabilityStore) root a b :
  tree_ok (m_map s) root -> is_chain_ancestor_of s a b = Ok true -> chain_anc (m_map s) a b.
Proof.
  intros Hok Hq. pose proof Hq as Hq'. unfold is_chain_ancestor_of in Hq'.
  apply bind_Ok in Hq' as (ia & Ha & Hq'). apply bind_Ok in Hq' as (ib & Hb & _).
  apply get_interval_Ok in Ha as (da & Ha & _), Hb as (db & Hb & _).
  destruct (is_chain_ancestor_spec s root Hok a b) as (r & Hr & Hiff); [eauto..|].
  apply Hiff. congruence.
Qed.

(** The data of a block that is in the store. *)
Definition data_at (s : MemoryReachabilityStore) (h : N) : MemoryReachabilityData :=
  default (data_new 0%N interval_empty 0) (m_map s !! h).

Ltac by_vm := vm_compute; (reflexivity || discriminate || (repeat constructor; discriminate)).

(** One block added to an indexed store, with every side condition computed. *)
Lemma add_block_step s s' root r n sp ps M G :
  dag_ok (m_map s) root G ->
  (bool_decide (m_reindex_root s = Some r) && bool_decide (is_Some (m_map s !! sp)) &&
   bool_decide (is_Some (m_map s !! r)) && negb (bool_decide (is_Some (m_map s !! n))) && negb (bool_decide (n = hash_NONE)) &&
   (d_height (data_at s sp) + 1 <? U64) && (subtree_size (m_map s) r <? iv_len (d_interval (data_at s r))) &&
   (subtree_size (m_map s) r + 1 <? 50) && bool_decide (sp ∈ ps) && bool_decide (NoDup M) &&
   mergeset_check s sp ps M)%bool = true ->
  is_chain_ancestor_of s r sp = Ok true ->
  add_block_with_params 50 s n sp M None None = Ok s' ->
  dag_ok (m_map s') root (<[n := ps]> G).
Proof.
  intros Hd. rewrite !andb_true_iff, !bool_decide_eq_true, !negb_true_iff, !bool_decide_eq_false, !Z.ltb_lt.
  intros [[[[[[[[[[Hr [dp Hsp]] [dr Hr']] Hn] Hnone] Hh] Hcap] Hfuel] Hin] Hnd] HM] Hc Hrun.
  unfold data_at in *. rewrite Hsp, Hr' in *. cbn in Hh, Hcap.
  assert (Hps : forall p, p ∈ ps -> is_Some (m_map s !! p)).
  { intros p Hp. unfold mergeset_check in HM. rewrite andb_true_iff, !forallb_forall in HM. destruct HM as [_ HM].
    specialize (HM p). rewrite bool_decide_eq_true in HM. apply HM, list_elem_of_In. right. apply elem_of_app. by left. }
  destruct (add_block_spec s root r n sp ps M G dp dr 50 None None Hd Hr Hsp Hr') as (s1 & Hs1 & _ & Hd1); try done.
  - destruct (m_map s !! n); [|done]. destruct Hn. eauto.
  - by eapply chain_by_query; [apply Hd|].
  - by eapply mergeset_check_sound.
  - congruence.
Qed.

Lemma ex0_dag : dag_ok (m_map ex0) 1%N exG0.
Proof. apply (dag_ok_init 1%N (interval_new 1 100)); [done|by vm_compute|by vm_compute]. Qed.
Lemma ex1_dag : dag_ok (m_map ex1) 1%N exG1.
Proof. apply (add_block_step ex0 ex1 1%N 1%N 2%N 1%N [1%N] []); [apply ex0_dag|by_vm..]. Qed.
Lemma ex2_dag : dag_ok (m_map ex2) 1%N exG2.
Proof. apply (add_block_step ex1 ex2 1%N 1%N 3%N 1%N [1%N] []); [apply ex1_dag|by_vm..]. Qed.
Lemma ex3_dag : dag_ok (m_map ex3) 1%N exG3.
Proof. apply (add_block_step ex2 ex3 1%N 1%N 4%N 2%N [2%N; 3%N] [3%N]); [apply ex2_dag|by_vm..]. Qed.
Lemma ex4_dag : dag_ok (m_map ex4) 1%N exG4.
Proof. apply (add_block_step ex3 ex4 1%N 1%N 5%N 4%N [4%N] []); [apply ex3_dag|by_vm..]. Qed.

(** ** DAG ancestry *)



(** C24: On a store that indexes the DAG [G], [is_dag_ancestor_of] answers without
    error and exactly DAG ancestry, reflexivity included. *)
Theorem is_dag_ancestor_of_correct (s : MemoryReachabilityStore) (root : N) (G : dag) (a b : N) :
  dag_ok (m_map s) root G -> is_Some (G !! a) -> is_Some (G !! b) ->
  exists r, is_dag_ancestor_of s a b = Ok r /\ (r = true <-> dag_anc G a b).
Proof.
  intros Hd Ha%(do_dom _ _ _ Hd) Hb%(do_dom _ _ _ Hd).
  destruct (is_dag_ancestor_spec s root a b) as (r & Hr & Hiff); [apply Hd|apply (do_sorted _ _ _ Hd)|done|done|].
  exists r. by rewrite (do_cover _ _ _ Hd).
Qed.

Lemma is_dag_ancestor_of_correct_witness :
  exists r, is_dag_ancestor_of ex4 3%N 5%N = Ok r /\ (r = true <-> dag_anc exG4 3%N 5%N).
Proof. apply (is_dag_ancestor_of_correct ex4 1%N exG4); [exact ex4_dag|vm_compute; eauto|vm_compute; eauto]. Defined.

(** C25: Deleting a block other than the root, given the blocks whose future
    covering set lists it, succeeds, keeps the store well formed without the
    block, and changes the answer of no chain or DAG query on the other blocks. *)
Theorem delete_block_keeps_queries (s : MemoryReachabilityStore) (root b : N) (M : list N) :
  tree_ok (m_map s) root -> fcs_sorted (m_map s) -> is_Some (m_map s !! b) -> b <> root ->
  NoDup M -> (forall x, x ∈ M <-> exists d, m_map s !! x = Some d /\ b ∈ d_fcs d) ->
  exists s', delete_block s b M = Ok s' /\ tree_ok (m_map s') root /\ fcs_sorted (m_map s') /\
    (forall h, is_Some (m_map s' !! h) <-> h <> b /\ is_Some (m_map s !! h)) /\
    forall x y, x <> b -> y <> b -> is_Some (m_map s !! x) -> is_Some (m_map s !! y) ->
      is_chain_ancestor_of s' x y = is_chain_ancestor_of s x y /\
      is_dag_ancestor_of s' x y = is_dag_ancestor_of s x y.
Proof.
  intros Hok Hf [db Hb] Hbr Hnd HM.
  destruct (delete_block_spec s root b db M Hok Hf Hb Hbr Hnd HM) as (s' & Hrun & _ & Hok' & Hf' & Hdom & Hch & Hcov).
  exists s'. split_and!; [done..|]. intros x y Hx Hy Hsx Hsy.
  assert (Hsx' : is_Some (m_map s' !! x)) by (by apply Hdom). assert (Hsy' : is_Some (m_map s' !! y)) by (by apply Hdom).
  split.
  - destruct (is_chain_ancestor_spec s root Hok x y Hsx Hsy) as (r & -> & Hr).
    destruct (is_chain_ancestor_spec s' root Hok' x y Hsx' Hsy') as (r' & -> & Hr').
    f_equal. apply Bool.eq_iff_eq_true. by rewrite Hr, Hr', Hch.
  - destruct (is_dag_ancestor_spec s root x y Hok Hf Hsx Hsy) as (r & -> & Hr).
    destruct (is_dag_ancestor_spec s' root x y Hok' Hf' Hsx' Hsy') as (r' & -> & Hr').
    f_equal. apply Bool.eq_iff_eq_true. by rewrite Hr, Hr', Hcov.
Qed.

(** The blocks of [M] are the ones that list [b] in their future covering set. *)
Lemma fcs_holders (s : MemoryReachabilityStore) b M :
  forallb (fun x => bool_decide (is_Some (m_map s !! x))) M = true ->
  forallb (fun p => Bool.eqb (bool_decide (p.1 ∈ M)) (bool_decide (b ∈ d_fcs p.2))) (map_to_list (m_map s)) = true ->
  forall x, x ∈ M <-> exists d, m_map s !! x = Some d /\ b ∈ d_fcs d.
Proof.
  rewrite !forallb_forall. intros HM Hall x.
  assert (Hx : forall d, m_map s !! x = Some d -> x ∈ M <-> b ∈ d_fcs d).
  { intros d Hd. specialize (Hall (x, d)). rewrite Bool.eqb_true_iff in Hall. cbn in Hall.
    rewrite <-(bool_decide_eq_true (x ∈ M)), <-(bool_decide_eq_true (b ∈ d_fcs d)), Hall; [done|].
    apply list_elem_of_In. by apply elem_of_map_to_list. }
  split.
  - intros HxM. specialize (HM x ltac:(by apply list_elem_of_In)). apply bool_decide_eq_true in HM as [d Hd].
    exists d. split; [done|]. by apply Hx.
  - intros (d & Hd & Hb). by apply (Hx d).
Qed.

Lemma delete_block_keeps_queries_witness :
  exists s', delete_block ex4 4%N [3%N] = Ok s' /\ tree_ok (m_map s') 1%N /\ fcs_sorted (m_map s') /\
    (forall h, is_Some (m_map s' !! h) <-> h <> 4%N /\ is_Some (m_map ex4 !! h)) /\
    forall x y, x <> 4%N -> y <> 4%N -> is_Some (m_map ex4 !! x) -> is_Some (m_map ex4 !! y) ->
      is_chain_ancestor_of s' x y = is_chain_ancestor_of ex4 x y /\
      is_dag_ancestor_of s' x y = is_dag_ancestor_of ex4 x y.
Proof.
  apply (delete_block_keeps_queries ex4 1%N 4%N [3%N]).
  - apply ex4_dag.
  - apply (do_sorted _ _ _ ex4_dag).
  - vm_compute; eauto.
  - discriminate.
  - apply NoDup_singleton.
  - apply fcs_holders; by_vm.
Defined.

(** ** Tree ancestry *)

(** On a well-formed store [is_chain_ancestor_of] decides (reflexive) tree
    ancestry and [is_strict_chain_ancestor_of] its strict part. *)
Theorem chain_queries_correct (s : MemoryReachabilityStore) (root a b : N) :
  tree_ok (m_map s) root -> is_Some (m_map s !! a) -> is_Some (m_map s !! b) ->
  exists r r', is_chain_ancestor_of s a b = Ok r /\ (r = true <-> chain_anc (m_map s) a b) /\
    is_strict_chain_ancestor_of s a b = Ok r' /\ (r' = true <-> chain_anc (m_map s) a b /\ a <> b).
Proof.
  intros Hok Ha Hb.
  destruct (is_chain_ancestor_spec s root Hok a b Ha Hb) as (r & ? & ?).
  destruct (is_strict_chain_ancestor_spec s root Hok a b Ha Hb) as (r' & ? & ?). exists r, r'. done.
Qed.

Lemma chain_queries_correct_witness :
  exists r r', is_chain_ancestor_of ex4 2%N 5%N = Ok r /\ (r = true <-> chain_anc (m_map ex4) 2%N 5%N) /\
    is_strict_chain_ancestor_of ex4 2%N 5%N = Ok r' /\ (r' = true <-> chain_anc (m_map ex4) 2%N 5%N /\ 2%N <> 5%N).
Proof.
  apply (chain_queries_correct ex4 1%N); [apply tree_check_sound; by_vm|vm_compute; eauto|vm_compute; eauto].
Defined.

(** [get_next_chain_ancestor] returns the unique child of [a] on the tree
    path to [d] when [a] is a strict ancestor of [d], and [BadQuery] otherwise. *)
Theorem get_next_chain_ancestor_correct (s : MemoryReachabilityStore) (root a d : N) (da : MemoryReachabilityData) :
  tree_ok (m_map s) root -> m_map s !! a = Some da -> is_Some (m_map s !! d) ->
  (chain_anc (m_map s) a d /\ a <> d /\ exists c, get_next_chain_ancestor s d a = Ok c /\
     forall c', c' = c <-> c' ∈ d_children da /\ chain_anc (m_map s) c' d) \/
  (~ (chain_anc (m_map s) a d /\ a <> d) /\ get_next_chain_ancestor s d a = Err BadQuery).
Proof.
  intros Hok Ha Hd. unfold get_next_chain_ancestor. case_decide as Heq; [right; split; [intros [_ []]|]; done|].
  destruct (is_strict_chain_ancestor_spec s root Hok a d) as (r & -> & Hr); [eauto..|]. cbn [obind].
  destruct r; cbn [negb]; [left|right; split; [|done]; intros H; by apply Hr in H].
  destruct (proj1 Hr eq_refl) as [Had Hne]. split_and!; [done..|].
  unfold get_next_chain_ancestor_unchecked. rewrite (get_children_mem _ _ _ Ha). cbn [obind].
  destruct Hd as [dd Hd]. destruct (local_of _ _ Hok _ _ Ha) as (_ & _ & Hord).
  destruct (chain_first_child _ _ (proj1 Hok) _ _ _ Had Hne Ha) as (c & Hc & Hcd).
  destruct (binary_search_descendant_spec s root Hok _ _ _ d dd Hord Hd) as ([i|h i] & -> & Hs); cbn [obind].
  - destruct Hs as (_ & Hno & _). by destruct (Hno c Hc).
  - destruct Hs as [Hi Hhd]. apply list_elem_of_lookup_2 in Hi. exists h. split; [done|]. intros c'. split; [by intros ->|].
    intros [Hc' Hc'd]. exact (siblings_disjoint _ _ (proj1 Hok) a da c' h d Ha Hc' Hi Hc'd Hhd).
Qed.

Lemma get_next_chain_ancestor_correct_witness :
  let m := m_map ex4 in
  (chain_anc m 1%N 5%N /\ 1%N <> 5%N /\ exists c, get_next_chain_ancestor ex4 5%N 1%N = Ok c /\
     forall c', c' = c <-> c' ∈ d_children (data_at ex4 1%N) /\ chain_anc m c' 5%N) \/
  (~ (chain_anc m 1%N 5%N /\ 1%N <> 5%N) /\ get_next_chain_ancestor ex4 5%N 1%N = Err BadQuery).
Proof.
  apply (get_next_chain_ancestor_correct ex4 1%N); [apply tree_check_sound; by_vm|by_vm|vm_compute; eauto].
Defined.

(** Adding a leaf below a block of the reindex root's subtree succeeds,
    reindexing where its parent has no room left, keeps every interval invariant,
    and extends the tree by exactly that leaf: parents, children, heights and
    future covering sets of the other blocks are as before. *)
Theorem add_tree_block_keeps_tree (s : MemoryReachabilityStore) (root r p n : N) (dp dr : MemoryReachabilityData)
    (fuel : nat) (depth slack : Z) :
  tree_ok (m_map s) root -> m_reindex_root s = Some r -> m_map s !! p = Some dp -> m_map s !! r = Some dr ->
  m_map s !! n = None -> n <> hash_NONE -> chain_anc (m_map s) r p -> d_height dp + 1 < U64 ->
  subtree_size (m_map s) r < iv_len (d_interval dr) -> subtree_size (m_map s) r + 1 < Z.of_nat fuel ->
  exists s', add_tree_block fuel s n p depth slack = Ok s' /\ m_reindex_root s' = Some r /\
    tree_ok (m_map s') root /\ exists i, same_skel (add_leaf (m_map s) p dp n i (d_height dp + 1)) (m_map s').
Proof. intros. by eapply add_tree_block_spec. Qed.

(** A chain of 5 blocks below a root with interval [1,8]: its tip has no room
    left, so the next child triggers a reindexing. *)
Definition full_store : MemoryReachabilityStore :=
  let add s n p := outcome_or (add_tree_block 50 s n p 100 16384) mem_new in
  add (add (add (add (outcome_or (init_with_params mem_new 1%N (interval_new 1 8)) mem_new) 2%N 1%N) 3%N 2%N) 4%N 3%N) 5%N 4%N.

Lemma add_tree_block_keeps_tree_witness :
  exists s', add_tree_block 50 full_store 6%N 5%N 100 16384 = Ok s' /\ m_reindex_root s' = Some 1%N /\
    tree_ok (m_map s') 1%N /\
    exists i, same_skel (add_leaf (m_map full_store) 5%N (data_at full_store 5%N) 6%N i 5) (m_map s').
Proof.
  apply (add_tree_block_keeps_tree full_store 1%N 1%N 5%N 6%N (data_at full_store 5%N) (data_at full_store 1%N) 50 100 16384).
  - apply tree_check_sound. by_vm.
  - by_vm.
  - by_vm.
  - by_vm.
  - by_vm.
  - discriminate.
  - apply (chain_by_query full_store 1%N); [apply tree_check_sound; by_vm|by_vm].
  - by_vm.
  - by_vm.
  - by_vm.
Defined.

(** ** Reindexing *)

Lemma good_sizes_empty s sz : good_sizes s sz ∅.
Proof. intros h n Hn. by rewrite lookup_empty in Hn. Qed.

(** [count_subtrees], a level-order traversal with back-propagation, computes
    the recursively defined subtree size of the block, and every size it caches
    is the subtree size of its block. *)
Theorem count_subtrees_correct (s : MemoryReachabilityStore) (root b : N) (fuel : nat) (depth slack : Z) :
  shape (m_map s) root -> is_Some (m_map s !! b) -> subtree_size (m_map s) b < U64 ->
  subtree_size (m_map s) b < Z.of_nat fuel ->
  exists c, count_subtrees fuel (ctx_new s depth slack) b = Ok c /\ ctx_store c = s /\
    ctx_sizes c !! b = Some (subtree_size (m_map s) b) /\
    forall h k, ctx_sizes c !! h = Some k -> k = subtree_size (m_map s) h.
Proof.
  intros Hsh Hb H1 H2.
  destruct (count_subtrees_spec s root Hsh (subtree_size (m_map s)) (subtree_size_eq _ _ Hsh) fuel (ctx_new s depth slack) b)
    as (c & Hrun & Hst & _ & _ & Hg & Hb'); [done|apply good_sizes_empty|done..|].
  exists c. split_and!; [done..|]. intros h k Hk. by destruct (Hg h k Hk).
Qed.

Lemma count_subtrees_correct_witness :
  exists c, count_subtrees 50 (ctx_new ex4 100 16384) 2%N = Ok c /\ ctx_store c = ex4 /\
    ctx_sizes c !! 2%N = Some (subtree_size (m_map ex4) 2%N) /\
    forall h k, ctx_sizes c !! h = Some k -> k = subtree_size (m_map ex4) h.
Proof.
  apply (count_subtrees_correct ex4 1%N); [apply (tree_check_sound (m_map ex4)); by_vm|vm_compute; eauto|by_vm|by_vm].
Defined.

(** [propagate_interval] at a block whose interval is at least as large as
    its subtree succeeds, reallocates only strictly below that block, leaves the
    tree as it is, and afterwards every block of the subtree has a non-empty
    interval that holds the ordered, disjoint intervals of its children. *)
Theorem propagate_interval_correct (s : MemoryReachabilityStore) (root b : N) (db : MemoryReachabilityData)
    (fuel : nat) (depth slack : Z) :
  shape (m_map s) root -> m_map s !! b = Some db -> iv_ok (d_interval db) ->
  subtree_size (m_map s) b <= iv_len (d_interval db) ->
  subtree_size (m_map s) b < U64 -> subtree_size (m_map s) b < Z.of_nat fuel ->
  exists c, propagate_interval fuel (ctx_new s depth slack) b = Ok c /\
    same_skel (m_map s) (m_map (ctx_store c)) /\
    (forall y, ~ (chain_anc (m_map s) b y /\ b <> y) -> m_map (ctx_store c) !! y = m_map s !! y) /\
    (forall y, chain_anc (m_map s) b y -> local_ok (m_map (ctx_store c)) y).
Proof.
  intros Hsh Hb Hi Hl H1 H2.
  destruct (propagate_interval_spec root (subtree_size (m_map s)) fuel (ctx_new s depth slack) b)
    as (c & Hrun & _ & _ & Hsk & _ & Hun & Hloc); [done|exact (subtree_size_eq _ _ Hsh)|apply good_sizes_empty|by exists db|done|done|].
  exists c. done.
Qed.

Lemma propagate_interval_correct_witness :
  exists c, propagate_interval 50 (ctx_new full_store 100 16384) 1%N = Ok c /\
    same_skel (m_map full_store) (m_map (ctx_store c)) /\
    (forall y, ~ (chain_anc (m_map full_store) 1%N y /\ 1%N <> y) -> m_map (ctx_store c) !! y = m_map full_store !! y) /\
    (forall y, chain_anc (m_map full_store) 1%N y -> local_ok (m_map (ctx_store c)) y).
Proof.
  apply (propagate_interval_correct full_store 1%N 1%N (data_at full_store 1%N)).
  - apply (tree_check_sound (m_map full_store)). by_vm.
  - by_vm.
  - by_vm.
  - by_vm.
  - by_vm.
  - by_vm.
Defined.

(** ** Staging a block operation and committing it *)

(** The example database: the blocks 1, 2 and 3 added through staging stores and
    committed. *)
Definition db_empty : DbReachabilityStore := mk_dbstore ∅ (mk_dbset ∅ ∅) (mk_dbset ∅ ∅) None.
Definition stg_add t n sp M := outcome_or (add_block_with_params 50 t n sp M None None) (staging_new db_empty).
Definition stg0 := outcome_or (init_with_params (staging_new db_empty) 1%N (interval_new 1 100)) (staging_new db_empty).
Definition stg2 := stg_add (stg_add stg0 2%N 1%N []) 3%N 1%N [].
Definition stg4 := stg_add (stg_add stg2 4%N 2%N [3%N]) 5%N 4%N [].
Definition ex_db2 := db_evict ∅ {[2%N]} (staging_commit stg2).
Definition ex_db4 := db_evict {[1%N]} ∅ (staging_commit stg4).

Lemma stg0_staged : staged (fun _ => True) ex0 stg0.
Proof.
  assert (H : staged (fun _ => True) mem_new (staging_new db_empty)).
  { apply staging_new_staged; [|done|done]. split; [intros h; split_and!; [done|constructor|done]..|done]. }
  destruct (staged_insert (fun _ => True) mem_new (staging_new db_empty) 1%N hash_NONE (interval_new 1 100) 0 H I
    (mem_put mem_new 1%N (data_new hash_NONE (interval_new 1 100) 0)) eq_refl) as (t1 & Ht1 & H1).
  destruct (staged_set_root _ _ _ 1%N H1 _ eq_refl) as (t2 & Ht2 & H2).
  injection Ht1 as <-. injection Ht2 as <-. exact H2.
Qed.

(** One more block on both stores. *)
Lemma stg_step s t n sp M s' t' :
  staged (fun _ => True) s t -> bool_decide (NoDup M) = true ->
  bool_decide (n ∈ d_children (data_at s sp)) = false ->
  forallb (fun x => negb (bool_decide (n ∈ d_fcs (data_at (outcome_or (add_tree_block 50 s n sp DEFAULT_REINDEX_DEPTH DEFAULT_REINDEX_SLACK) mem_new) x)))) M = true ->
  add_block_with_params 50 s n sp M None None = Ok s' -> add_block_with_params 50 t n sp M None None = Ok t' ->
  staged (fun _ => True) s' t'.
Proof.
  rewrite bool_decide_eq_true, bool_decide_eq_false, forallb_forall. intros Hst Hnd Hc HM Hs Ht.
  destruct (add_block_staged (fun _ => True) 50 s t n sp M None None s' Hst I Hnd) as (t1 & Ht1 & Hst1); [| |done|congruence].
  - intros d Hd. unfold data_at in Hc. by rewrite Hd in Hc.
  - cbn [default]. intros s1 Hs1 x d Hx Hd. specialize (HM x ltac:(by apply list_elem_of_In)).
    rewrite Hs1 in HM. cbn [outcome_or] in HM. unfold data_at in HM. rewrite Hd in HM. cbn in HM.
    by apply negb_true_iff, bool_decide_eq_false in HM.
Qed.

Lemma stg2_staged : staged (fun _ => True) ex2 stg2.
Proof.
  apply (stg_step ex1 (stg_add stg0 2%N 1%N []) 3%N 1%N []); [|by_vm..].
  apply (stg_step ex0 stg0 2%N 1%N []); [apply stg0_staged|by_vm..].
Qed.
Lemma stg4_staged : staged (fun _ => True) ex4 stg4.
Proof.
  apply (stg_step ex3 (stg_add stg2 4%N 2%N [3%N]) 5%N 4%N []); [|by_vm..].
  apply (stg_step ex2 stg2 4%N 2%N [3%N]); [apply stg2_staged|by_vm..].
Qed.

Lemma ex_db2_ok : db_ok ex_db2 /\ (forall h, db_view ex_db2 h = m_map ex2 !! h) /\ db_reindex_root ex_db2 = m_reindex_root ex2.
Proof. apply (commit_spec _ ex2 stg2 1%N stg2_staged (do_tree _ _ _ ex2_dag) (do_sorted _ _ _ ex2_dag)). Qed.
Lemma ex_db4_ok : db_ok ex_db4 /\ (forall h, db_view ex_db4 h = m_map ex4 !! h) /\ db_reindex_root ex_db4 = m_reindex_root ex4.
Proof. apply (commit_spec _ ex4 stg4 1%N stg4_staged (do_tree _ _ _ ex4_dag) (do_sorted _ _ _ ex4_dag)). Qed.

(** [add_block] on a fresh staging store, step by step with the memory store. *)
Lemma add_block_on_staging (db : DbReachabilityStore) (s : MemoryReachabilityStore) (root r n sp : N)
    (ps M : list N) (G : dag) (dp dr : MemoryReachabilityData) (fuel : nat) :
  db_ok db -> (forall h, db_view db h = m_map s !! h) -> db_reindex_root db = m_reindex_root s ->
  dag_ok (m_map s) root G -> m_reindex_root s = Some r ->
  m_map s !! sp = Some dp -> m_map s !! r = Some dr -> m_map s !! n = None -> n <> hash_NONE ->
  chain_anc (m_map s) r sp -> d_height dp + 1 < U64 ->
  subtree_size (m_map s) r < iv_len (d_interval dr) -> subtree_size (m_map s) r + 1 < Z.of_nat fuel ->
  sp ∈ ps -> (forall p, p ∈ ps -> is_Some (m_map s !! p)) ->
  NoDup M -> (forall x, x ∈ M <-> mergeset_of G sp ps x) ->
  exists t s', add_block fuel (staging_new db) n sp M = Ok t /\ add_block fuel s n sp M = Ok s' /\
    staged (fun _ => True) s' t /\ m_reindex_root s' = Some r /\ dag_ok (m_map s') root (<[n := ps]> G).
Proof.
  intros Hdb Hv Hr0 Hd Hr Hsp Hdr Hn Hnone Hrp Hh Hcap Hfuel Hin Hps Hnd HM.
  destruct (add_block_spec s root r n sp ps M G dp dr fuel None None Hd Hr Hsp Hdr Hn Hnone Hrp Hh Hcap Hfuel Hin Hps Hnd HM)
    as (s' & Hs' & Hroot' & Hd').
  pose proof (staging_new_staged (fun _ => True) s db Hdb Hv Hr0) as Hst.
  destruct (add_block_staged (fun _ => True) fuel s (staging_new db) n sp M None None s' Hst) as (t & Ht & Hst'); [done|done| | |done|].
  - intros d Hd0 Hc. destruct (sh_child _ _ (proj1 (do_tree _ _ _ Hd)) _ _ _ Hd0 Hc) as (? & ? & _). congruence.
  - intros s1 Hs1 x d1 _ Hx Hnf.
    destruct (add_tree_block_spec s root r sp n dp dr fuel (default DEFAULT_REINDEX_DEPTH None) (default DEFAULT_REINDEX_SLACK None) (do_tree _ _ _ Hd) Hr Hsp Hdr Hn Hnone Hrp Hh Hcap Hfuel)
      as (s1' & Hs1' & _ & _ & i & Hsk). rewrite Hs1 in Hs1'. injection Hs1' as <-.
    destruct (add_leaf_added s root n sp G dp Hd Hsp Hn Hnone i _ Hsk) as [Hold (dn & Hdn & Hfn) Hdom _].
    destruct (proj1 (Hdom x)) as [->|[d Hd0]]; [eauto| |].
    + assert (d1 = dn) as -> by congruence. rewrite Hfn in Hnf. by apply elem_of_nil in Hnf.
    + destruct (Hold _ _ Hd0) as (d1' & _ & Hd1' & _ & _ & Hfc). assert (d1' = d1) as -> by congruence.
      rewrite Hfc in Hnf. destruct (proj1 (do_sorted _ _ _ Hd _ _ Hd0) n Hnf). congruence.
  - by exists t, s'.
Qed.



(** Running [delete_block] on a staging store over a database that holds a
    well-formed index succeeds with the memory store's result, and committing it
    (with any eviction from the set caches) gives a database that holds that
    result. *)
Theorem staged_delete_block_commits (db : DbReachabilityStore) (s : MemoryReachabilityStore) (root b : N) (M : list N)
    (E1 E2 : gset N) :
  db_ok db -> (forall h, db_view db h = m_map s !! h) -> db_reindex_root db = m_reindex_root s ->
  tree_ok (m_map s) root -> fcs_sorted (m_map s) -> is_Some (m_map s !! b) -> b <> root ->
  NoDup M -> (forall x, x ∈ M <-> exists d, m_map s !! x = Some d /\ b ∈ d_fcs d) ->
  exists t s', delete_block (staging_new db) b M = Ok t /\ delete_block s b M = Ok s' /\
    let db' := db_evict E1 E2 (staging_commit t) in
    db_ok db' /\ (forall h, db_view db' h = m_map s' !! h) /\ db_reindex_root db' = m_reindex_root s.
Proof.
  intros Hdb Hv Hr Hok Hf [d Hb] Hbr Hnd HM.
  destruct (delete_block_spec s root b d M Hok Hf Hb Hbr Hnd HM) as (s' & Hs' & Hr' & Hok' & Hf' & _).
  pose proof (staging_new_staged (fun _ => False) s db Hdb Hv Hr) as Hst.
  destruct (delete_block_staged s root b d Hok Hb M s' (staging_new db) Hst Hf Hbr Hnd HM Hs') as (t & Ht & Hst').
  exists t, s'. split_and!; [done|done|]. intros db'. rewrite <-Hr'.
  by apply (commit_spec (fun _ => False) s' t root Hst' Hok' Hf' E1 E2).
Qed.

Lemma staged_delete_block_commits_witness :
  exists t s', delete_block (staging_new ex_db4) 4%N [3%N] = Ok t /\ delete_block ex4 4%N [3%N] = Ok s' /\
    let db' := db_evict ∅ {[3%N]} (staging_commit t) in
    db_ok db' /\ (forall h, db_view db' h = m_map s' !! h) /\ db_reindex_root db' = m_reindex_root ex4.
Proof.
  apply (staged_delete_block_commits ex_db4 ex4 1%N 4%N [3%N]).
  - apply ex_db4_ok.
  - apply ex_db4_ok.
  - apply ex_db4_ok.
  - apply ex4_dag.
  - apply (do_sorted _ _ _ ex4_dag).
  - vm_compute; eauto.
  - discriminate.
  - apply NoDup_singleton.
  - apply fcs_holders; by_vm.
Defined.
