(* ===== verification/Uint.v ===== *)
(** * Fixed-width unsigned integers

    Model of math/src/uint.rs (the [construct_uint!] macro behind [Uint192],
    [Uint256], [Uint320] and [Uint3072]) and of the compact difficulty encoding of
    math/src/lib.rs.  A number is its list of 64-bit limbs, least significant
    first, and the functions are generic in the number of limbs, as the macro is.
    The [debug_assert!]s of the operators are compiled out in release builds, so
    the operators wrap. *)

From Stdlib Require Import ZArith Lia Bool.
From stdpp Require Import base numbers list.
From S2P Require Import Prelude.

#[local] Open Scope Z_scope.

(** ** Words *)

(** [u64] operations: truncating shift, overflowing arithmetic, [leading_zeros]. *)
Definition shl64 (x s : Z) : Z := Z.shiftl x s mod U64.
Definition overflowing_add64 (a b : Z) : Z * bool := ((a + b) mod U64, U64 <=? a + b).
Definition overflowing_sub64 (a b : Z) : Z * bool := ((a - b) mod U64, a <? b).
Definition leading_zeros64 (w : Z) : Z := if w =? 0 then 64 else 63 - Z.log2 w.

Abbreviation limbs := (list Z).

(** The number a list of limbs denotes, and limbs being 64-bit words. *)
Fixpoint val (l : limbs) : Z :=
  match l with [] => 0 | w :: l' => w + U64 * val l' end.
Definition wf_limbs (l : limbs) : Prop := Forall in_u64 l.
(** 2^BITS *)
Definition modulus (n : nat) : Z := 2 ^ (64 * Z.of_nat n).

Definition limb (l : limbs) (i : nat) : Z := nth i l 0.
Definition tabulate (n : nat) (f : nat -> Z) : limbs := List.map f (seq 0 n).

(** ** Construction and observation *)

Definition uint_zero (n : nat) : limbs := replicate n 0.
Definition uint_max (n : nat) : limbs := replicate n (U64 - 1).
Definition uint_bits_const (n : nat) : Z := 64 * Z.of_nat n.
Definition uint_from_u64 (n : nat) (x : Z) : limbs := <[0%nat := x]> (uint_zero n).
Definition uint_from_u128 (n : nat) (x : Z) : limbs :=
  <[1%nat := Z.shiftr x 64 mod U64]> (<[0%nat := x mod U64]> (uint_zero n)).
Definition as_u128 (l : limbs) : Z := Z.lor (limb l 0) (Z.shiftl (limb l 1) 64).
Definition as_u64 (l : limbs) : Z := limb l 0.
Definition uint_is_zero (l : limbs) : bool := forallb (fun a => a =? 0) l.

(** [bits]: scans the words from the top for the first that is not zero. *)
Fixpoint bits_scan (i : nat) (l : limbs) : Z :=
  match i with
  | O => 0
  | S i' => let word := limb l i' in
            if negb (word =? 0) then 64 * (Z.of_nat i' + 1) - leading_zeros64 word else bits_scan i' l
  end.
Definition uint_bits (l : limbs) : Z := bits_scan (length l) l.
Definition uint_leading_zeros (l : limbs) : Z := uint_bits_const (length l) - uint_bits l.

(** ** Shifts *)

Definition overflowing_shl (l : limbs) (s : Z) : limbs * bool :=
  let n := length l in
  let overflows := uint_bits_const n <=? s in
  let s := s mod uint_bits_const n in
  let left_words := Z.to_nat (s / 64) in
  let left_shifts := s mod 64 in
  let ret i := if (i <? left_words)%nat then 0 else shl64 (limb l (i - left_words)) left_shifts in
  let left_over := 64 - left_shifts in
  let ret' i := if (0 <? left_shifts) && (left_words + 1 <=? i)%nat
                then Z.lor (ret i) (Z.shiftr (limb l (i - 1 - left_words)) left_over) else ret i in
  (tabulate n ret', overflows).

Definition overflowing_shr (l : limbs) (s : Z) : limbs * bool :=
  let n := length l in
  let overflows := uint_bits_const n <=? s in
  let s := s mod uint_bits_const n in
  let left_words := Z.to_nat (s / 64) in
  let left_shifts := s mod 64 in
  let ret i := if (i + left_words <? n)%nat then Z.shiftr (limb l (i + left_words)) left_shifts else 0 in
  let left_over := 64 - left_shifts in
  let ret' i := if (0 <? left_shifts) && (i + left_words + 1 <? n)%nat
                then Z.lor (ret i) (shl64 (limb l (i + left_words + 1)) left_over) else ret i in
  (tabulate n ret', overflows).

Definition wrapping_shl (l : limbs) (s : Z) : limbs := (overflowing_shl l s).1.
Definition uint_shl (l : limbs) (s : Z) : limbs := (overflowing_shl l s).1.
Definition uint_shr (l : limbs) (s : Z) : limbs := (overflowing_shr l s).1.

(** ** Addition and subtraction *)

Definition carrying_add_u64 (lhs rhs : Z) (carry : bool) : Z * bool :=
  let '(a, b) := overflowing_add64 lhs rhs in
  let '(c, d) := overflowing_add64 a (Z.b2z carry) in
  (c, xorb b d).

Fixpoint add_loop (self other : limbs) (carry : bool) : limbs * bool :=
  match self, other with
  | x :: self', y :: other' =>
      let '(w, carry_out) := carrying_add_u64 x y carry in
      let '(rest, carry) := add_loop self' other' carry_out in (w :: rest, carry)
  | _, _ => (self, carry)
  end.
Definition overflowing_add (self other : limbs) : limbs * bool := add_loop self other false.

Fixpoint increment_loop (self : limbs) (carry : bool) : limbs * bool :=
  match self with
  | [] => ([], carry)
  | x :: self' =>
      if negb carry then (self, carry)
      else let '(w, carry) := overflowing_add64 x 1 in
           let '(rest, carry) := increment_loop self' carry in (w :: rest, carry)
  end.
Definition overflowing_add_u64 (self : limbs) (other : Z) : limbs * bool :=
  match self with
  | [] => ([], false)
  | x :: self' => let '(w, carry) := overflowing_add64 x other in
                  let '(rest, carry) := increment_loop self' carry in (w :: rest, carry)
  end.

Definition borrowing_sub_u64 (lhs rhs : Z) (borrow : bool) : Z * bool :=
  let '(a, b) := overflowing_sub64 lhs rhs in
  let '(c, d) := overflowing_sub64 a (Z.b2z borrow) in
  (c, xorb b d).

Fixpoint sub_loop (self other : limbs) (carry : bool) : limbs * bool :=
  match self, other with
  | x :: self', y :: other' =>
      let '(w, carry_out) := borrowing_sub_u64 x y carry in
      let '(rest, carry) := sub_loop self' other' carry_out in (w :: rest, carry)
  | _, _ => (self, carry)
  end.
Definition overflowing_sub (self other : limbs) : limbs * bool := sub_loop self other false.

Definition saturating_sub (self other : limbs) : limbs :=
  let '(sum, carry) := overflowing_sub self other in if carry : bool then uint_zero (length self) else sum.
Definition saturating_add (self other : limbs) : limbs :=
  let '(sum, carry) := overflowing_add self other in if carry : bool then uint_max (length self) else sum.

Definition uint_add (self other : limbs) : limbs := (overflowing_add self other).1.
Definition uint_add_u64 (self : limbs) (other : Z) : limbs := (overflowing_add_u64 self other).1.
Definition uint_sub (self other : limbs) : limbs := (overflowing_sub self other).1.

(** [Sum]: fold from the first element, or zero. *)
Definition uint_sum (n : nat) (l : list limbs) : limbs :=
  match l with [] => uint_zero n | x :: l' => foldl uint_add x l' end.

(** ** Multiplication *)

Fixpoint mul_u64_loop (self : limbs) (other carry : Z) : limbs * Z :=
  match self with
  | [] => ([], carry)
  | x :: self' =>
      let n := carry + other * x in
      let '(rest, carry) := mul_u64_loop self' other (Z.land (Z.shiftr n 64) (U64 - 1)) in (n mod U64 :: rest, carry)
  end.
Definition carrying_mul_u64 (self : limbs) (other : Z) : limbs * Z := mul_u64_loop self other 0.
Definition overflowing_mul_u64 (self : limbs) (other : Z) : limbs * bool :=
  let '(this, carry) := carrying_mul_u64 self other in (this, negb (carry =? 0)).

(** The inner loop of [overflowing_mul]: adds [self * y] into the words of the
    result from index [j] on, while [i + j < LIMBS]. *)
Fixpoint mul_row (self : limbs) (y : Z) (result : limbs) (carry : Z) : limbs * Z :=
  match self, result with
  | x :: self', r :: result' =>
      let n := x * y + r + carry in
      let '(rest, carry) := mul_row self' y result' (Z.shiftr n 64 mod U64) in (n mod U64 :: rest, carry)
  | _, _ => (result, carry)
  end.

Fixpoint mul_loop (self other : limbs) (j : nat) (result : limbs) (carry_out : bool) : limbs * bool :=
  match other with
  | [] => (result, carry_out)
  | y :: other' =>
      let '(row, carry) := mul_row self y (drop j result) 0 in
      mul_loop self other' (S j) (take j result ++ row) (carry_out || negb (carry =? 0))
  end.
Definition overflowing_mul (self other : limbs) : limbs * bool :=
  mul_loop self other 0 (uint_zero (length self)) false.

Definition uint_mul (self other : limbs) : limbs := (overflowing_mul self other).1.
Definition uint_mul_u64 (self : limbs) (other : Z) : limbs := (overflowing_mul_u64 self other).1.

(** ** Comparison *)

(** [Iterator::cmp] of the reversed words. *)
Fixpoint lex_cmp (a b : limbs) : comparison :=
  match a, b with
  | [], [] => Eq
  | [], _ :: _ => Lt
  | _ :: _, [] => Gt
  | x :: a', y :: b' => match x ?= y with Eq => lex_cmp a' b' | c => c end
  end.
Definition uint_cmp (a b : limbs) : comparison := lex_cmp (rev a) (rev b).
Definition uint_geb (a b : limbs) : bool := match uint_cmp a b with Lt => false | _ => true end.
(** [Ord::min], [Ord::max] *)
Definition uint_min (a b : limbs) : limbs := match uint_cmp a b with Gt => b | _ => a end.
Definition uint_max_of (a b : limbs) : limbs := match uint_cmp a b with Gt => a | _ => b end.

Definition uint_eq_u64 (l : limbs) (x : Z) : bool :=
  negb (existsb (fun w => negb (w =? 0)) (drop 1 l)) && (limb l 0 =? x).
Definition uint_cmp_u64 (l : limbs) (x : Z) : comparison :=
  if existsb (fun w => negb (w =? 0)) (drop 1 l) then Gt else limb l 0 ?= x.
Definition uint_cmp_u128 (l : limbs) (x : Z) : comparison :=
  if existsb (fun w => negb (w =? 0)) (drop 2 l) then Gt else as_u128 l ?= x.

(** ** Division *)

(** [div_rem_u64]: from the most significant word down; [n / 0] panics. *)
Fixpoint div_u64_loop (self : limbs) (other : Z) : limbs * Z :=
  match self with
  | [] => ([], 0)
  | d :: self' =>
      let '(rest, rem) := div_u64_loop self' other in
      let n := Z.lor (Z.shiftl rem 64) d in
      ((n / other) mod U64 :: rest, (n mod other) mod U64)
  end.
Definition div_rem_u64 {E} (self : limbs) (other : Z) : outcome E (limbs * Z) :=
  if (other =? 0) && negb (length self =? 0)%nat then Panic else Ok (div_u64_loop self other).

(** Bitwise long division; the loop runs [shift] down to 0. *)
Definition set_bit (ret : limbs) (shift : Z) : limbs :=
  let i := Z.to_nat (shift / 64) in <[i := Z.lor (limb ret i) (shl64 1 (shift mod 64))]> ret.
Fixpoint div_loop (shift : nat) (sub_copy shift_copy ret : limbs) : limbs * limbs :=
  let '(sub_copy, ret) :=
    if uint_geb sub_copy shift_copy then (uint_sub sub_copy shift_copy, set_bit ret (Z.of_nat shift))
    else (sub_copy, ret) in
  let shift_copy := uint_shr shift_copy 1 in
  match shift with
  | O => (ret, sub_copy)
  | S shift' => div_loop shift' sub_copy shift_copy ret
  end.
Definition div_rem {E} (self other : limbs) : outcome E (limbs * limbs) :=
  let ret := uint_zero (length self) in
  let my_bits := uint_bits self in
  let your_bits := uint_bits other in
  if your_bits =? 0 then Panic
  else if my_bits <? your_bits then Ok (ret, self)
  else
    let shift := my_bits - your_bits in
    Ok (div_loop (Z.to_nat shift) self (uint_shl other shift) ret).

Definition uint_div {E} (self other : limbs) : outcome E limbs := let! qr := div_rem self other in Ok qr.1.
Definition uint_rem {E} (self other : limbs) : outcome E limbs := let! qr := div_rem self other in Ok qr.2.
Definition uint_div_u64 {E} (self : limbs) (other : Z) : outcome E limbs := let! qr := div_rem_u64 self other in Ok qr.1.
Definition uint_rem_u64 {E} (self : limbs) (other : Z) : outcome E Z := let! qr := div_rem_u64 self other in Ok qr.2.

(** ** Bitwise operators *)

Definition uint_and (a b : limbs) : limbs := zip_with Z.land a b.
Definition uint_or (a b : limbs) : limbs := zip_with Z.lor a b.
Definition uint_xor (a b : limbs) : limbs := zip_with Z.lxor a b.
Definition uint_not (a : limbs) : limbs := List.map (fun w => U64 - 1 - w) a.

(** ** Bytes *)

(** [u64::to_le_bytes] and [u64::from_le_bytes]. *)
Fixpoint le_bytes (n : nat) (w : Z) : list Z :=
  match n with O => [] | S n' => w mod 256 :: le_bytes n' (w / 256) end.
Fixpoint of_le_bytes (bs : list Z) : Z :=
  match bs with [] => 0 | b :: bs' => b + 256 * of_le_bytes bs' end.
Definition u64_to_le_bytes (w : Z) : list Z := le_bytes 8 w.
Definition u64_to_be_bytes (w : Z) : list Z := rev (le_bytes 8 w).
Definition u64_from_be_bytes (bs : list Z) : Z := of_le_bytes (rev bs).

(** [chunks_exact(8)] *)
Fixpoint chunks8 (n : nat) (bs : list Z) : list (list Z) :=
  match n with O => [] | S n' => take 8 bs :: chunks8 n' (drop 8 bs) end.

Definition to_le_bytes (l : limbs) : list Z := concat (List.map u64_to_le_bytes l).
Definition to_be_bytes (l : limbs) : list Z := concat (List.map u64_to_be_bytes (rev l)).
Definition from_le_bytes (n : nat) (bs : list Z) : limbs := List.map of_le_bytes (chunks8 n bs).
Definition from_be_bytes (n : nat) (bs : list Z) : limbs := rev (List.map u64_from_be_bytes (chunks8 n bs)).

Fixpoint drop_zeros (bs : list Z) : list Z :=
  match bs with 0 :: bs' => drop_zeros bs' | _ => bs end.
Definition to_be_bytes_var (l : limbs) : list Z := drop_zeros (to_be_bytes l).
Inductive TryFromSliceError := mk_TryFromSliceError.
Definition from_be_bytes_var (n : nat) (bs : list Z) : outcome TryFromSliceError limbs :=
  if (8 * n <? length bs)%nat then Err mk_TryFromSliceError
  else Ok (from_be_bytes n (replicate (8 * n - length bs) 0 ++ bs)).

(** ** Conversions between widths, and the compact target encoding (lib.rs) *)

Inductive TryFromIntError := mk_TryFromIntError.
Definition uint_to_u128 (l : limbs) : outcome TryFromIntError Z :=
  if existsb (fun w => negb (w =? 0)) (drop 2 l) then Err mk_TryFromIntError else Ok (as_u128 l).
Definition uint256_to_320 (l : limbs) : limbs := l ++ [0].
Definition uint320_to_256 (l : limbs) : outcome TryFromIntError limbs :=
  if negb (limb l 4 =? 0) then Err mk_TryFromIntError else Ok (take 4 l).
Definition uint256_to_192 (l : limbs) : outcome TryFromIntError limbs :=
  if negb (limb l 3 =? 0) then Err mk_TryFromIntError else Ok (take 3 l).

Definition from_compact_target_bits (bits : Z) : limbs :=
  let unshifted_expt := Z.shiftr bits 24 in
  let '(mant, expt) :=
    if unshifted_expt <=? 3 then (Z.shiftr (Z.land bits 0xFFFFFF) (8 * (3 - unshifted_expt)), 0)
    else (Z.land bits 0xFFFFFF, 8 * (Z.shiftr bits 24 - 3)) in
  if 0x7FFFFF <? mant then uint_zero 4 else uint_shl (uint_from_u64 4 mant) expt.

Definition compact_target_bits (l : limbs) : Z :=
  let size := (uint_bits l + 7) / 8 in
  let compact := if size <=? 3 then shl64 (as_u64 l) (8 * (3 - size)) mod U32
                 else as_u64 (uint_shr l (8 * (size - 3))) mod U32 in
  let '(compact, size) :=
    if negb (Z.land compact 0x00800000 =? 0) then (Z.shiftr compact 8, size + 1) else (compact, size) in
  Z.lor compact (Z.shiftl size 24 mod U32).
