(* ===== verification/UintLemmas.v ===== *)
(** * Fixed-width unsigned integers: what the limb algorithms compute

    Each algorithm of [Uint] is related to arithmetic on [Z] through [val]. *)

From Stdlib Require Import ZArith Lia Bool.
From stdpp Require Import base numbers list.
From S2P Require Import Prelude Uint.

#[local] Open Scope Z_scope.

(** ** Values and moduli *)

Lemma modulus_S n : modulus (S n) = U64 * modulus n.
Proof.
  unfold modulus. replace (64 * Z.of_nat (S n)) with (64 + 64 * Z.of_nat n) by lia.
  rewrite Z.pow_add_r by lia. done.
Qed.

Lemma modulus_pos n : 0 < modulus n.
Proof. unfold modulus. apply Z.pow_pos_nonneg; lia. Qed.

Lemma modulus_add n m : modulus (n + m) = modulus n * modulus m.
Proof. unfold modulus. rewrite <-Z.pow_add_r by lia. f_equal. lia. Qed.

Lemma val_bound l : wf_limbs l -> 0 <= val l < modulus (length l).
Proof.
  unfold wf_limbs, in_u64. induction 1 as [|w l Hw Hl IH]; [done|]. cbn [val length]. rewrite modulus_S. lia.
Qed.

Lemma val_app a b : val (a ++ b) = val a + modulus (length a) * val b.
Proof.
  induction a as [|w a IH]; [cbn [app val length]; unfold modulus; cbn; lia|].
  cbn [app val length]. rewrite IH, modulus_S. lia.
Qed.

Lemma val_inj a b : wf_limbs a -> wf_limbs b -> length a = length b -> val a = val b -> a = b.
Proof.
  unfold wf_limbs, in_u64. intros Ha. revert b. induction Ha as [|x a Hx Ha IH]; intros [|y b] Hb Hlen Hv; try done.
  apply Forall_cons in Hb as [Hy Hb]. cbn [val] in Hv.
  assert (x = y) as -> by (Z.to_euclidean_division_equations; lia).
  f_equal. apply IH; [done|by injection Hlen|lia].
Qed.

Lemma wf_zero n : wf_limbs (uint_zero n).
Proof. apply Forall_replicate. unfold in_u64. lia. Qed.
Lemma val_zero n : val (uint_zero n) = 0.
Proof. unfold uint_zero. induction n; cbn in *; [done|]. rewrite IHn. done. Qed.
Lemma length_zero n : length (uint_zero n) = n.
Proof. apply length_replicate. Qed.

Lemma wf_max n : wf_limbs (uint_max n).
Proof. apply Forall_replicate. unfold in_u64. lia. Qed.
Lemma val_max n : val (uint_max n) = modulus n - 1.
Proof. unfold uint_max. induction n; [done|]. cbn [replicate val]. rewrite IHn, modulus_S. lia. Qed.

Lemma wf_from_u64 n x : in_u64 x -> wf_limbs (uint_from_u64 n x).
Proof. intros. apply Forall_insert; [apply wf_zero|done]. Qed.
Lemma val_from_u64 n x : (0 < n)%nat -> val (uint_from_u64 n x) = x.
Proof. destruct n; [lia|]. intros _. pose proof (val_zero n) as H. unfold uint_zero in H. cbn. lia. Qed.
Lemma length_from_u64 n x : length (uint_from_u64 n x) = n.
Proof. unfold uint_from_u64. by rewrite length_insert, length_zero. Qed.

Lemma limb_wf l i : wf_limbs l -> in_u64 (limb l i).
Proof.
  intros Hl. unfold limb. revert i. induction Hl as [|w l Hw Hl IH]; intros [|i]; cbn; try apply IH; try done; unfold in_u64; lia.
Qed.

(** ** Addition, subtraction *)

Lemma carrying_add_spec x y c :
  in_u64 x -> in_u64 y ->
  in_u64 (carrying_add_u64 x y c).1 /\
  (carrying_add_u64 x y c).1 + U64 * Z.b2z (carrying_add_u64 x y c).2 = x + y + Z.b2z c.
Proof.
  unfold carrying_add_u64, overflowing_add64, in_u64. cbn [fst snd]. intros Hx Hy.
  assert (0 <= Z.b2z c <= 1) by (destruct c; cbn; lia).
  destruct (Z.leb_spec U64 (x + y)), (Z.leb_spec U64 ((x + y) mod U64 + Z.b2z c)); cbn [xorb Z.b2z];
    Z.to_euclidean_division_equations; lia.
Qed.

Lemma add_loop_spec a b c :
  wf_limbs a -> wf_limbs b -> length a = length b ->
  wf_limbs (add_loop a b c).1 /\ length (add_loop a b c).1 = length a /\
  val (add_loop a b c).1 + modulus (length a) * Z.b2z (add_loop a b c).2 = val a + val b + Z.b2z c.
Proof.
  intros Ha. revert b c. induction Ha as [|x a Hx Ha IH]; intros [|y b] c Hb Hlen; try done.
  { cbn. unfold modulus. cbn. split_and!; [done..|lia]. }
  apply Forall_cons in Hb as [Hy Hb]. injection Hlen as Hlen. cbn [add_loop].
  destruct (carrying_add_spec x y c Hx Hy) as [Hw Hc]. destruct (carrying_add_u64 x y c) as [w co]. cbn [fst snd] in Hw, Hc.
  destruct (IH b co Hb Hlen) as (Hr & Hlr & Hvr). destruct (add_loop a b co) as [r c']. cbn [fst snd] in *.
  split_and!; [by apply Forall_cons|cbn; lia|]. cbn [val length]. rewrite modulus_S. lia.
Qed.

Lemma borrowing_sub_spec x y c :
  in_u64 x -> in_u64 y ->
  in_u64 (borrowing_sub_u64 x y c).1 /\
  (borrowing_sub_u64 x y c).1 - U64 * Z.b2z (borrowing_sub_u64 x y c).2 = x - y - Z.b2z c.
Proof.
  unfold borrowing_sub_u64, overflowing_sub64, in_u64. cbn [fst snd]. intros Hx Hy.
  assert (0 <= Z.b2z c <= 1) by (destruct c; cbn; lia).
  destruct (Z.ltb_spec x y), (Z.ltb_spec ((x - y) mod U64) (Z.b2z c)); cbn [xorb Z.b2z];
    Z.to_euclidean_division_equations; lia.
Qed.

Lemma sub_loop_spec a b c :
  wf_limbs a -> wf_limbs b -> length a = length b ->
  wf_limbs (sub_loop a b c).1 /\ length (sub_loop a b c).1 = length a /\
  val (sub_loop a b c).1 - modulus (length a) * Z.b2z (sub_loop a b c).2 = val a - val b - Z.b2z c.
Proof.
  intros Ha. revert b c. induction Ha as [|x a Hx Ha IH]; intros [|y b] c Hb Hlen; try done.
  { cbn. unfold modulus. cbn. split_and!; [done..|lia]. }
  apply Forall_cons in Hb as [Hy Hb]. injection Hlen as Hlen. cbn [sub_loop].
  destruct (borrowing_sub_spec x y c Hx Hy) as [Hw Hc]. destruct (borrowing_sub_u64 x y c) as [w co]. cbn [fst snd] in Hw, Hc.
  destruct (IH b co Hb Hlen) as (Hr & Hlr & Hvr). destruct (sub_loop a b co) as [r c']. cbn [fst snd] in *.
  split_and!; [by apply Forall_cons|cbn; lia|]. cbn [val length]. rewrite modulus_S. lia.
Qed.

(** A number written as [q * modulus + r] with [0 <= r < modulus]. *)
Lemma mod_carry v m q x : 0 <= v < m -> v + m * q = x -> v = x mod m /\ q = x / m.
Proof. intros Hv Hx. split; [apply (Z.mod_unique x m q v)|apply (Z.div_unique x m q v)]; lia. Qed.

Lemma overflowing_add_spec a b :
  wf_limbs a -> wf_limbs b -> length a = length b ->
  wf_limbs (overflowing_add a b).1 /\ length (overflowing_add a b).1 = length a /\
  val (overflowing_add a b).1 = (val a + val b) mod modulus (length a) /\
  (overflowing_add a b).2 = (modulus (length a) <=? val a + val b).
Proof.
  intros Ha Hb Hlen. destruct (add_loop_spec a b false Ha Hb Hlen) as (Hr & Hl & Hv). unfold overflowing_add.
  pose proof (val_bound _ Hr) as Hbr. rewrite Hl in Hbr. cbn [Z.b2z] in Hv. rewrite Z.add_0_r in Hv.
  split_and!; [done..|by apply (mod_carry _ _ _ _ Hbr Hv)|].
  destruct (add_loop a b false) as [r [|]]; cbn [fst snd Z.b2z] in *; symmetry; [apply Z.leb_le|apply Z.leb_gt]; lia.
Qed.

Lemma overflowing_sub_spec a b :
  wf_limbs a -> wf_limbs b -> length a = length b ->
  wf_limbs (overflowing_sub a b).1 /\ length (overflowing_sub a b).1 = length a /\
  val (overflowing_sub a b).1 = (val a - val b) mod modulus (length a) /\
  (overflowing_sub a b).2 = (val a <? val b).
Proof.
  intros Ha Hb Hlen. destruct (sub_loop_spec a b false Ha Hb Hlen) as (Hr & Hl & Hv). unfold overflowing_sub.
  pose proof (val_bound _ Hr) as Hbr. rewrite Hl in Hbr. cbn [Z.b2z] in Hv. rewrite Z.sub_0_r in Hv.
  split_and!; [done..| |].
  - apply (mod_carry _ _ (- Z.b2z (sub_loop a b false).2) _ Hbr). lia.
  - destruct (sub_loop a b false) as [r [|]]; cbn [fst snd Z.b2z] in *; symmetry; [apply Z.ltb_lt|apply Z.ltb_ge]; lia.
Qed.

Lemma increment_loop_spec a c :
  wf_limbs a -> wf_limbs (increment_loop a c).1 /\ length (increment_loop a c).1 = length a /\
  val (increment_loop a c).1 + modulus (length a) * Z.b2z (increment_loop a c).2 = val a + Z.b2z c.
Proof.
  intros Ha. revert c. induction Ha as [|x a Hx Ha IH]; intros c.
  { cbn. unfold modulus. cbn. split_and!; [by constructor|done|lia]. }
  cbn [increment_loop].
  destruct c; cbn [negb]; [|split_and!; [by apply Forall_cons|done|cbn [fst snd Z.b2z]; lia]].
  unfold overflowing_add64. destruct (IH (U64 <=? x + 1)) as (Hr & Hl & Hv).
  destruct (increment_loop a (U64 <=? x + 1)) as [r c']. cbn [fst snd] in *. unfold in_u64 in Hx.
  split_and!; [apply Forall_cons; split; [unfold in_u64; Z.to_euclidean_division_equations; lia|done]|cbn; lia|].
  cbn [val length]. rewrite modulus_S. destruct (Z.leb_spec U64 (x + 1)); cbn [Z.b2z] in *;
    Z.to_euclidean_division_equations; lia.
Qed.

Lemma overflowing_add_u64_spec a y :
  wf_limbs a -> (0 < length a)%nat -> in_u64 y ->
  wf_limbs (overflowing_add_u64 a y).1 /\ length (overflowing_add_u64 a y).1 = length a /\
  val (overflowing_add_u64 a y).1 = (val a + y) mod modulus (length a) /\
  (overflowing_add_u64 a y).2 = (modulus (length a) <=? val a + y).
Proof.
  intros Ha Hpos Hy. destruct a as [|x a]; [cbn in Hpos; lia|]. apply Forall_cons in Ha as [Hx Ha].
  cbn [overflowing_add_u64]. unfold overflowing_add64. destruct (increment_loop_spec a (U64 <=? x + y) Ha) as (Hr & Hl & Hv).
  destruct (increment_loop a (U64 <=? x + y)) as [r c]. cbn [fst snd] in *. unfold in_u64 in Hx, Hy.
  assert (Hw : wf_limbs ((x + y) mod U64 :: r)) by (apply Forall_cons; split; [unfold in_u64; Z.to_euclidean_division_equations; lia|done]).
  pose proof (val_bound _ Hw) as Hb. cbn [length] in Hb. rewrite Hl in Hb.
  assert (Heq : val ((x + y) mod U64 :: r) + modulus (S (length a)) * Z.b2z c = val (x :: a) + y).
  { cbn [val]. rewrite modulus_S. destruct (Z.leb_spec U64 (x + y)); cbn [Z.b2z] in *;
      Z.to_euclidean_division_equations; lia. }
  split_and!; [done|cbn; lia|by apply (mod_carry _ _ _ _ Hb Heq)|]. cbn [length].
  destruct c; cbn [Z.b2z] in *; symmetry; [apply Z.leb_le|apply Z.leb_gt]; lia.
Qed.

(** ** Multiplication *)

Lemma word_split n : 0 <= n -> n mod U64 + U64 * Z.shiftr n 64 = n.
Proof. intros. rewrite Z.shiftr_div_pow2 by lia. change (2 ^ 64) with U64. Z.to_euclidean_division_equations; lia. Qed.

Lemma mul_u64_loop_spec a y c :
  wf_limbs a -> in_u64 y -> in_u64 c ->
  wf_limbs (mul_u64_loop a y c).1 /\ length (mul_u64_loop a y c).1 = length a /\ in_u64 (mul_u64_loop a y c).2 /\
  val (mul_u64_loop a y c).1 + modulus (length a) * (mul_u64_loop a y c).2 = val a * y + c.
Proof.
  intros Ha Hy. revert c. induction Ha as [|x a Hx Ha IH]; intros c Hc.
  { cbn. unfold modulus. cbn. split_and!; [by constructor|done|apply Hc..|lia]. }
  cbn [mul_u64_loop]. cbv zeta. unfold in_u64 in *.
  assert (Hn : 0 <= c + y * x < U64 * U64) by nia.
  assert (Hsh : Z.land (Z.shiftr (c + y * x) 64) (U64 - 1) = Z.shiftr (c + y * x) 64).
  { change (U64 - 1) with (Z.ones 64). rewrite Z.land_ones by lia. apply Z.mod_small.
    rewrite Z.shiftr_div_pow2 by lia. change (2 ^ 64) with U64. split; [apply Z.div_pos; lia|apply Z.div_lt_upper_bound; lia]. }
  rewrite Hsh. pose proof (word_split (c + y * x) ltac:(lia)) as Hs.
  pose proof (Z.mod_pos_bound (c + y * x) U64 ltac:(lia)) as Hm.
  destruct (IH (Z.shiftr (c + y * x) 64)) as (Hr & Hl & Hco & Hv); [lia|].
  destruct (mul_u64_loop a y (Z.shiftr (c + y * x) 64)) as [r co]. cbn [fst snd] in *.
  split_and!; [by apply Forall_cons|cbn; lia|lia..|]. cbn [val length]. rewrite modulus_S. nia.
Qed.

Lemma carrying_mul_u64_spec a y :
  wf_limbs a -> in_u64 y ->
  wf_limbs (carrying_mul_u64 a y).1 /\ length (carrying_mul_u64 a y).1 = length a /\
  val (carrying_mul_u64 a y).1 = (val a * y) mod modulus (length a) /\
  (carrying_mul_u64 a y).2 = (val a * y) / modulus (length a).
Proof.
  intros Ha Hy. destruct (mul_u64_loop_spec a y 0 Ha Hy ltac:(unfold in_u64; lia)) as (Hr & Hl & _ & Hv).
  unfold carrying_mul_u64. pose proof (val_bound _ Hr) as Hb. rewrite Hl in Hb. rewrite Z.add_0_r in Hv.
  split_and!; [done..| |]; by apply (mod_carry _ _ _ _ Hb Hv).
Qed.

Lemma mul_row_spec a y res c :
  wf_limbs a -> in_u64 y -> wf_limbs res -> in_u64 c -> (length res <= length a)%nat ->
  wf_limbs (mul_row a y res c).1 /\ length (mul_row a y res c).1 = length res /\ in_u64 (mul_row a y res c).2 /\
  val (mul_row a y res c).1 + modulus (length res) * (mul_row a y res c).2 = val (take (length res) a) * y + val res + c.
Proof.
  intros Ha Hy Hres. revert res Hres c. induction Ha as [|x a Hx Ha IH]; intros [|r res] Hres c Hc Hlen; try (cbn in Hlen; lia);
    try (cbn; unfold modulus; cbn; split_and!; [by constructor|done|apply Hc..|lia]).
  apply Forall_cons in Hres as [Hr Hres]. cbn [mul_row length take]. cbv zeta. unfold in_u64 in *.
  assert (Hn : 0 <= x * y + r + c < U64 * U64) by nia.
  assert (Hsh : Z.shiftr (x * y + r + c) 64 mod U64 = Z.shiftr (x * y + r + c) 64).
  { apply Z.mod_small. rewrite Z.shiftr_div_pow2 by lia. change (2 ^ 64) with U64.
    split; [apply Z.div_pos; lia|apply Z.div_lt_upper_bound; lia]. }
  rewrite Hsh. pose proof (word_split (x * y + r + c) ltac:(lia)) as Hs.
  pose proof (Z.mod_pos_bound (x * y + r + c) U64 ltac:(lia)) as Hm.
  destruct (IH res Hres (Z.shiftr (x * y + r + c) 64)) as (Hr' & Hl & Hco & Hv); [lia|cbn in Hlen; lia|].
  destruct (mul_row a y res (Z.shiftr (x * y + r + c) 64)) as [rest co]. cbn [fst snd] in *.
  split_and!; [by apply Forall_cons|cbn; lia|lia..|]. cbn [val]. rewrite modulus_S. nia.
Qed.

Lemma val_take_drop j l : (j <= length l)%nat -> val l = val (take j l) + modulus j * val (drop j l).
Proof. intros. rewrite <-(take_drop j l) at 1. rewrite val_app, length_take, Nat.min_l by lia. done. Qed.

Lemma mod_eq_add x y m q : 0 < m -> x = y + m * q -> x mod m = y mod m.
Proof. intros Hm ->. rewrite Z.mul_comm, Z.mod_add by lia. done. Qed.

Lemma take_wf j (l : limbs) : wf_limbs l -> wf_limbs (take j l).
Proof. apply Forall_take. Qed.
Lemma drop_wf j (l : limbs) : wf_limbs l -> wf_limbs (drop j l).
Proof. apply Forall_drop. Qed.
Create HintDb uint.
#[export] Hint Resolve take_wf drop_wf wf_zero wf_max : uint.

(** The outer loop, after [j] rows: the result is the truncated product so far,
    never more than the true one, and the flag witnesses an overflow. *)
Lemma mul_loop_spec self other j res flag P :
  wf_limbs self -> wf_limbs other -> wf_limbs res -> length res = length self -> (j + length other = length self)%nat ->
  val res mod modulus (length self) = P mod modulus (length self) -> val res <= P ->
  (flag = true -> modulus (length self) <= P) ->
  let r := mul_loop self other j res flag in
  wf_limbs r.1 /\ length r.1 = length self /\
  val r.1 mod modulus (length self) = (P + modulus j * val self * val other) mod modulus (length self) /\
  (r.2 = true -> modulus (length self) <= P + modulus j * val self * val other).
Proof.
  cbv zeta. intros Hself Hother. revert j res flag P. induction Hother as [|y other Hy Hother IH];
    intros j res flag P Hres Hlen Hj Hmod Hle Hflag; cbn [mul_loop].
  { cbn [val fst snd]. rewrite Z.mul_0_r, Z.add_0_r. split_and!; done. }
  cbn [length] in Hj.
  destruct (mul_row_spec self y (drop j res) 0) as (Hrow & Hlrow & Hc & Hv);
    [done..|by apply drop_wf|unfold in_u64; lia|rewrite length_drop; lia|].
  destruct (mul_row self y (drop j res) 0) as [row c]. cbn [fst snd] in *. rewrite length_drop in *.
  set (m := (length res - j)%nat) in *.
  assert (Hsplit : modulus (length self) = modulus j * modulus m) by (rewrite <-modulus_add; f_equal; lia).
  pose proof (val_take_drop j res ltac:(lia)) as Hres2.
  pose proof (val_take_drop m self ltac:(lia)) as Hself2.
  assert (Hnew : val (take j res ++ row) = val res + modulus j * (val self * y) -
     modulus (length self) * (c + val (drop m self) * y)).
  { rewrite val_app, length_take, Nat.min_l by lia. rewrite Hsplit, Hres2, Hself2. nia. }
  pose proof (val_bound _ Hself). pose proof (val_bound _ (drop_wf m _ Hself)). pose proof (modulus_pos (length self)).
  pose proof (modulus_pos j). unfold in_u64 in Hc, Hy.
  destruct (IH (S j) (take j res ++ row) (flag || negb (c =? 0)) (P + modulus j * (val self * y))) as (Hw & Hl & Hm & Hf).
  - apply Forall_app. split; [by apply take_wf|done].
  - rewrite length_app, length_take, Hlrow. lia.
  - lia.
  - rewrite (mod_eq_add _ (val res + modulus j * (val self * y)) _ (- (c + val (drop m self) * y))) by lia.
    rewrite Z.add_mod, Hmod, <-Z.add_mod by lia. done.
  - rewrite Hnew. nia.
  - intros [Hf|Hf%negb_true_iff%Z.eqb_neq]%orb_true_iff; [specialize (Hflag Hf); nia|].
    assert (Hnn : 0 <= val (take j res ++ row)) by (apply val_bound, Forall_app; split; [by apply take_wf|done]).
    rewrite Hnew in Hnn. nia.
  - assert (Heq : P + modulus j * (val self * y) + modulus (S j) * val self * val other
      = P + modulus j * val self * val (y :: other)) by (cbn [val]; rewrite modulus_S; ring).
    rewrite Heq in Hm, Hf. done.
Qed.

Lemma overflowing_mul_spec a b :
  wf_limbs a -> wf_limbs b -> length a = length b ->
  wf_limbs (overflowing_mul a b).1 /\ length (overflowing_mul a b).1 = length a /\
  val (overflowing_mul a b).1 = (val a * val b) mod modulus (length a) /\
  ((overflowing_mul a b).2 = true -> modulus (length a) <= val a * val b).
Proof.
  intros Ha Hb Hlen. unfold overflowing_mul.
  destruct (mul_loop_spec a b 0 (uint_zero (length a)) false 0) as (Hw & Hl & Hm & Hf);
    [done|done|apply wf_zero|by rewrite length_zero|lia|by rewrite val_zero|by rewrite val_zero|done|].
  change (modulus 0) with 1 in *. rewrite Z.mul_1_l, Z.add_0_l in Hm, Hf.
  split_and!; [done..| |done]. rewrite <-Hm. symmetry. apply Z.mod_small.
  pose proof (val_bound _ Hw) as Hbw. by rewrite Hl in Hbw.
Qed.

(** ** Comparison *)

Lemma lex_cmp_spec p q :
  wf_limbs p -> wf_limbs q -> length p = length q -> lex_cmp p q = (val (rev p) ?= val (rev q)).
Proof.
  intros Hp. revert q. induction Hp as [|x p Hx Hp IH]; intros [|y q] Hq Hlen; try done.
  apply Forall_cons in Hq as [Hy Hq]. injection Hlen as Hlen. cbn [lex_cmp rev].
  rewrite !val_app, !length_rev, <-Hlen, (IH q Hq Hlen). cbn [val]. rewrite !Z.mul_0_r, !Z.add_0_r.
  assert (Hbp : wf_limbs (rev p)) by by apply Forall_rev. assert (Hbq : wf_limbs (rev q)) by by apply Forall_rev.
  apply val_bound in Hbp, Hbq. rewrite length_rev in Hbp, Hbq. rewrite <-Hlen in Hbq.
  destruct (Z.compare_spec x y) as [->|Hlt|Hgt].
  - destruct (Z.compare_spec (val (rev p)) (val (rev q))); symmetry;
      [apply Z.compare_eq_iff|apply Z.compare_lt_iff|apply Z.compare_gt_iff]; lia.
  - symmetry. apply Z.compare_lt_iff. nia.
  - symmetry. apply Z.compare_gt_iff. nia.
Qed.

Lemma uint_cmp_spec a b :
  wf_limbs a -> wf_limbs b -> length a = length b -> uint_cmp a b = (val a ?= val b).
Proof.
  intros Ha Hb Hlen. unfold uint_cmp. rewrite lex_cmp_spec; [by rewrite !rev_involutive|by apply Forall_rev..|by rewrite !length_rev].
Qed.

Lemma uint_geb_spec a b :
  wf_limbs a -> wf_limbs b -> length a = length b -> uint_geb a b = (val b <=? val a).
Proof.
  intros Ha Hb Hlen. unfold uint_geb. rewrite uint_cmp_spec by done. symmetry.
  destruct (Z.compare_spec (val a) (val b)); [apply Z.leb_le|apply Z.leb_gt|apply Z.leb_le]; lia.
Qed.

(** ** Bits *)

Lemma u64_high_bits w j : in_u64 w -> 64 <= j -> Z.testbit w j = false.
Proof.
  unfold in_u64. intros Hw Hj. rewrite <-(Z.mod_small w (2 ^ 64)) by lia. apply Z.mod_pow2_bits_high. lia.
Qed.

Lemma val_cons_bits w l k :
  in_u64 w -> 0 <= val l -> 0 <= k ->
  Z.testbit (val (w :: l)) k = if k <? 64 then Z.testbit w k else Z.testbit (val l) (k - 64).
Proof.
  unfold in_u64. intros Hw Hl Hk. cbn [val]. change U64 with (2 ^ 64). rewrite Z.mul_comm, <-Z.shiftl_mul_pow2 by lia.
  assert (Hdis : Z.land w (Z.shiftl (val l) 64) = 0).
  { apply Z.bits_inj'. intros n Hn. rewrite Z.land_spec, Z.shiftl_spec, Z.bits_0 by lia.
    destruct (Z.ltb_spec n 64); [rewrite (Z.testbit_neg_r (val l)) by lia; apply andb_false_r|].
    by rewrite (u64_high_bits w). }
  rewrite Z.add_nocarry_lxor, Z.lxor_lor by done.
  rewrite Z.lor_spec, Z.shiftl_spec by lia. destruct (Z.ltb_spec k 64).
  - rewrite (Z.testbit_neg_r (val l)) by lia. apply orb_false_r.
  - by rewrite (u64_high_bits w).
Qed.

(** Bit [64 * i + j] of a number is bit [j] of its word [i]. *)
Lemma val_testbit l (i : nat) j :
  wf_limbs l -> 0 <= j < 64 -> Z.testbit (val l) (64 * Z.of_nat i + j) = Z.testbit (limb l i) j.
Proof.
  intros Hl Hj. revert i. induction Hl as [|w l Hw Hl IH]; intros i.
  - destruct i; cbn; by rewrite !Z.testbit_0_l.
  - rewrite val_cons_bits; [|done|by apply val_bound|lia]. destruct i as [|i].
    + destruct (Z.ltb_spec (64 * Z.of_nat 0 + j) 64); [|lia]. f_equal.
    + destruct (Z.ltb_spec (64 * Z.of_nat (S i) + j) 64); [lia|]. change (limb (w :: l) (S i)) with (limb l i). rewrite <-IH. f_equal. lia.
Qed.

Lemma limb_out l i : (length l <= i)%nat -> limb l i = 0.
Proof. intros. unfold limb. by apply nth_overflow. Qed.

Lemma limb_tabulate n f i : limb (tabulate n f) i = if (i <? n)%nat then f i else 0.
Proof.
  unfold limb, tabulate. destruct (Nat.ltb_spec i n).
  - rewrite (nth_indep _ 0 (f 0%nat)) by (rewrite length_map, length_seq; lia).
    rewrite List.map_nth, seq_nth by lia. done.
  - apply nth_overflow. rewrite length_map, length_seq. lia.
Qed.

Lemma tabulate_wf n f : (forall i, in_u64 (f i)) -> wf_limbs (tabulate n f).
Proof. intros Hf. apply Forall_forall. intros x Hx. apply list_elem_of_In, in_map_iff in Hx as (i & <- & _). apply Hf. Qed.

Lemma length_tabulate n f : length (tabulate n f) = n.
Proof. unfold tabulate. by rewrite length_map, length_seq. Qed.

Lemma in_u64_bits w : 0 <= w -> (forall j, 64 <= j -> Z.testbit w j = false) -> in_u64 w.
Proof.
  intros Hw Hb. split; [done|]. destruct (Z.eq_dec w 0) as [->|]; [lia|].
  change U64 with (2 ^ 64). apply Z.log2_lt_pow2; [lia|]. destruct (Z.lt_ge_cases (Z.log2 w) 64); [done|].
  pose proof (Z.bit_log2 w ltac:(lia)). rewrite Hb in * by lia. done.
Qed.

Lemma shl64_testbit x s j : 0 <= s -> 0 <= j -> Z.testbit (shl64 x s) j = (j <? 64) && Z.testbit x (j - s).
Proof.
  intros Hs Hj. unfold shl64. change U64 with (2 ^ 64). destruct (Z.ltb_spec j 64).
  - rewrite Z.mod_pow2_bits_low by lia. by rewrite Z.shiftl_spec.
  - by rewrite Z.mod_pow2_bits_high by lia.
Qed.

Lemma shl64_wf x s : in_u64 (shl64 x s).
Proof. apply Z.mod_pos_bound. lia. Qed.

Lemma shiftr_wf x s : 0 <= s -> in_u64 x -> in_u64 (Z.shiftr x s).
Proof.
  unfold in_u64. intros Hs Hx. rewrite Z.shiftr_div_pow2 by lia. pose proof (Z.pow_pos_nonneg 2 s ltac:(lia) Hs).
  split; [apply Z.div_pos; lia|]. apply Z.div_lt_upper_bound; nia.
Qed.

Lemma lor_wf x y : in_u64 x -> in_u64 y -> in_u64 (Z.lor x y).
Proof.
  intros Hx Hy. apply in_u64_bits; [apply Z.lor_nonneg; unfold in_u64 in *; lia|].
  intros j Hj. rewrite Z.lor_spec, !u64_high_bits by done. done.
Qed.

Lemma in_u64_0 : in_u64 0.
Proof. unfold in_u64. lia. Qed.
#[export] Hint Resolve shl64_wf shiftr_wf lor_wf limb_wf in_u64_0 : uint.

Lemma shift_amount n s : 0 <= s < uint_bits_const n ->
  exists (w : nat) h, s = 64 * Z.of_nat w + h /\ 0 <= h < 64 /\ (w < n)%nat /\ Z.to_nat (s / 64) = w /\ s mod 64 = h.
Proof.
  unfold uint_bits_const. intros Hs. exists (Z.to_nat (s / 64)), (s mod 64).
  Z.to_euclidean_division_equations. split_and!; lia.
Qed.

(** Every bit index is a word and a bit in it. *)
Lemma bit_index k : 0 <= k -> exists (i : nat) j, k = 64 * Z.of_nat i + j /\ 0 <= j < 64.
Proof. intros Hk. exists (Z.to_nat (k / 64)), (k mod 64). Z.to_euclidean_division_equations. lia. Qed.

(** Two bits are equal when their numbers are below the same power of two. *)
Lemma val_eq_bits l v :
  wf_limbs l -> 0 <= v ->
  (forall (i : nat) j, 0 <= j < 64 -> Z.testbit (limb l i) j = Z.testbit v (64 * Z.of_nat i + j)) -> val l = v.
Proof.
  intros Hl Hv Heq. apply Z.bits_inj'. intros k Hk. destruct (bit_index k Hk) as (i & j & -> & Hj).
  rewrite val_testbit by done. by apply Heq.
Qed.

(** ** Shifts *)

Lemma val_below l k : wf_limbs l -> 64 * Z.of_nat (length l) <= k -> Z.testbit (val l) k = false.
Proof.
  intros Hl Hk. destruct (bit_index k ltac:(lia)) as (i & j & -> & Hj). rewrite val_testbit, limb_out by (done || lia).
  apply Z.testbit_0_l.
Qed.

Lemma overflowing_shl_spec l s :
  wf_limbs l -> (0 < length l)%nat -> 0 <= s ->
  wf_limbs (overflowing_shl l s).1 /\ length (overflowing_shl l s).1 = length l /\
  val (overflowing_shl l s).1 = (val l * 2 ^ (s mod uint_bits_const (length l))) mod modulus (length l) /\
  (overflowing_shl l s).2 = (uint_bits_const (length l) <=? s).
Proof.
  intros Hl Hn Hs. unfold overflowing_shl. cbv zeta. cbn [fst snd].
  destruct (shift_amount (length l) (s mod uint_bits_const (length l))) as (w & h & Hsw & Hh & Hwn & -> & ->).
  { apply Z.mod_pos_bound. unfold uint_bits_const. lia. }
  match goal with |- wf_limbs (tabulate _ ?F) /\ _ => set (f := F) end.
  assert (Hf : forall i, in_u64 (f i)).
  { intros i. subst f. cbv beta. repeat case_match; auto with uint lia. }
  split_and!; [by apply tabulate_wf|apply length_tabulate| |done]. rewrite Hsw.
  apply val_eq_bits; [by apply tabulate_wf|apply Z.mod_pos_bound, modulus_pos|].
  intros i j Hj. rewrite limb_tabulate. unfold modulus. destruct (Nat.ltb_spec i (length l)) as [Hi|Hi].
  2:{ rewrite Z.testbit_0_l, Z.mod_pow2_bits_high by lia. done. }
  rewrite Z.mod_pow2_bits_low, Z.mul_pow2_bits by lia. subst f. cbv beta.
  assert (Hcase : forall q : nat, (i = w + q)%nat ->
    64 * Z.of_nat i + j - (64 * Z.of_nat w + h) = 64 * Z.of_nat q + (j - h)) by lia.
  destruct (Nat.ltb_spec i w) as [Hlt|Hge].
  - destruct (Nat.leb_spec (w + 1) i); [lia|]. rewrite andb_false_r, Z.testbit_0_l. symmetry. apply Z.testbit_neg_r. lia.
  - rewrite (Hcase (i - w)%nat ltac:(lia)).
    assert (Hlow : Z.testbit (shl64 (limb l (i - w)) h) j = Z.testbit (limb l (i - w)) (j - h)).
    { rewrite shl64_testbit by lia. destruct (Z.ltb_spec j 64); [done|lia]. }
    destruct (Z.le_gt_cases h j) as [Hjh|Hjh].
    + rewrite val_testbit by (done || lia). destruct ((0 <? h) && (w + 1 <=? i)%nat) eqn:Hb; [|done].
      rewrite Z.lor_spec, Hlow, Z.shiftr_spec, (u64_high_bits (limb l (i - 1 - w))) by (auto with uint || lia). apply orb_false_r.
    + destruct (Z.ltb_spec 0 h); [|lia]. rewrite (Z.testbit_neg_r (limb l (i - w))) in Hlow by lia.
      destruct (Nat.leb_spec (w + 1) i) as [Hwi|Hwi]; cbn [andb].
      * rewrite Z.lor_spec, Hlow, Z.shiftr_spec by lia. cbn [orb].
        replace (64 * Z.of_nat (i - w) + (j - h)) with (64 * Z.of_nat (i - 1 - w) + (j + (64 - h))) by lia.
        by rewrite val_testbit by (done || lia).
      * rewrite Hlow. symmetry. apply Z.testbit_neg_r. lia.
Qed.

Lemma overflowing_shr_spec l s :
  wf_limbs l -> (0 < length l)%nat -> 0 <= s ->
  wf_limbs (overflowing_shr l s).1 /\ length (overflowing_shr l s).1 = length l /\
  val (overflowing_shr l s).1 = val l / 2 ^ (s mod uint_bits_const (length l)) /\
  (overflowing_shr l s).2 = (uint_bits_const (length l) <=? s).
Proof.
  intros Hl Hn Hs. unfold overflowing_shr. cbv zeta. cbn [fst snd].
  destruct (shift_amount (length l) (s mod uint_bits_const (length l))) as (w & h & Hsw & Hh & Hwn & -> & ->).
  { apply Z.mod_pos_bound. unfold uint_bits_const. lia. }
  match goal with |- wf_limbs (tabulate _ ?F) /\ _ => set (f := F) end.
  assert (Hf : forall i, in_u64 (f i)).
  { intros i. subst f. cbv beta. repeat case_match; auto with uint lia. }
  split_and!; [by apply tabulate_wf|apply length_tabulate| |done]. rewrite Hsw. pose proof (val_bound _ Hl).
  rewrite <-Z.shiftr_div_pow2 by lia.
  apply val_eq_bits; [by apply tabulate_wf|by apply Z.shiftr_nonneg; lia|].
  intros i j Hj. rewrite limb_tabulate, Z.shiftr_spec by lia.
  replace (64 * Z.of_nat i + j + (64 * Z.of_nat w + h)) with (64 * Z.of_nat (i + w) + (j + h)) by lia.
  destruct (Nat.ltb_spec i (length l)) as [Hi|Hi].
  2:{ rewrite Z.testbit_0_l. symmetry. apply val_below; [done|lia]. }
  subst f. cbv beta.
  assert (Hlow : j + h < 64 -> Z.testbit (val l) (64 * Z.of_nat (i + w) + (j + h)) =
    Z.testbit (if (i + w <? length l)%nat then Z.shiftr (limb l (i + w)) h else 0) j).
  { intros. rewrite val_testbit by (done || lia). destruct (Nat.ltb_spec (i + w) (length l)); [by rewrite Z.shiftr_spec by lia|].
    rewrite limb_out by lia. by rewrite !Z.testbit_0_l. }
  destruct (Z.lt_ge_cases (j + h) 64) as [Hjh|Hjh].
  - rewrite (Hlow Hjh). destruct ((0 <? h) && (i + w + 1 <? length l)%nat) eqn:Hb; [|done].
    rewrite Z.lor_spec, shl64_testbit, (Z.testbit_neg_r _ (j - (64 - h))) by lia. by rewrite andb_false_r, orb_false_r.
  - replace (64 * Z.of_nat (i + w) + (j + h)) with (64 * Z.of_nat (i + w + 1) + (j - (64 - h))) by lia.
    rewrite val_testbit by (done || lia). destruct (Z.ltb_spec 0 h); [cbn [andb]|lia].
    assert (Hhi : Z.testbit (if (i + w <? length l)%nat then Z.shiftr (limb l (i + w)) h else 0) j = false).
    { destruct (_ <? _)%nat; [|apply Z.testbit_0_l]. rewrite Z.shiftr_spec by lia. apply u64_high_bits; [auto with uint|lia]. }
    destruct (Nat.ltb_spec (i + w + 1) (length l)).
    + rewrite Z.lor_spec, Hhi, shl64_testbit by lia. destruct (Z.ltb_spec j 64); [done|lia].
    + by rewrite Hhi, limb_out, Z.testbit_0_l by lia.
Qed.

(** ** Bit length *)

Definition bit_length (v : Z) : Z := if v =? 0 then 0 else Z.log2 v + 1.

Lemma bit_length_bounds v : 0 <= v -> v < 2 ^ bit_length v /\ (0 < v -> 2 ^ (bit_length v - 1) <= v).
Proof.
  unfold bit_length. intros Hv. destruct (Z.eqb_spec v 0) as [->|]; [split; cbn; lia|].
  destruct (Z.log2_spec v ltac:(lia)). rewrite Z.add_simpl_r, Z.add_1_r. split; [done|]. intros _. done.
Qed.

Lemma bit_length_unique v b : 0 < b -> 2 ^ (b - 1) <= v < 2 ^ b -> bit_length v = b.
Proof.
  intros Hb Hv. pose proof (Z.pow_pos_nonneg 2 (b - 1) ltac:(lia) ltac:(lia)). unfold bit_length.
  destruct (Z.eqb_spec v 0); [lia|]. rewrite (Z.log2_unique v (b - 1)); [lia|lia|]. replace (Z.succ (b - 1)) with b by lia. lia.
Qed.

Lemma take_snoc_limb l i : (i < length l)%nat -> take (S i) l = take i l ++ [limb l i].
Proof.
  intros Hi. apply take_S_r. unfold limb. destruct (lookup_lt_is_Some_2 l i Hi) as [w Hw]. rewrite Hw. f_equal.
  symmetry. apply nth_lookup_Some with (d := 0) in Hw. done.
Qed.

Lemma bits_scan_spec l i :
  wf_limbs l -> (i <= length l)%nat -> bits_scan i l = bit_length (val (take i l)).
Proof.
  intros Hl. induction i as [|i IH]; intros Hi; [done|]. cbn [bits_scan]. cbv zeta.
  rewrite (take_snoc_limb l i) by lia. rewrite val_app, length_take, Nat.min_l by lia. cbn [val].
  rewrite Z.mul_0_r, Z.add_0_r. pose proof (val_bound _ (take_wf i _ Hl)) as Hb. rewrite length_take, Nat.min_l in Hb by lia.
  destruct (Z.eqb_spec (limb l i) 0) as [->|Hne]; cbn [negb]; [rewrite Z.mul_0_r, Z.add_0_r; apply IH; lia|].
  pose proof (limb_wf l i Hl) as Hw. unfold in_u64 in Hw. unfold leading_zeros64. destruct (Z.eqb_spec (limb l i) 0); [done|].
  symmetry. replace (64 * (Z.of_nat i + 1) - (63 - Z.log2 (limb l i))) with (64 * Z.of_nat i + (Z.log2 (limb l i) + 1)) by lia.
  pose proof (Z.log2_nonneg (limb l i)). destruct (Z.log2_spec (limb l i) ltac:(lia)) as [Hlo Hhi].
  apply bit_length_unique; [lia|]. unfold modulus in *.
  replace (64 * Z.of_nat i + (Z.log2 (limb l i) + 1) - 1) with (64 * Z.of_nat i + Z.log2 (limb l i)) by lia.
  rewrite !Z.pow_add_r by lia. rewrite Z.pow_succ_r in Hhi by lia. change (2 ^ 1) with 2. nia.
Qed.

Lemma uint_bits_spec l : wf_limbs l -> uint_bits l = bit_length (val l).
Proof. intros Hl. unfold uint_bits. rewrite bits_scan_spec by done. by rewrite firstn_all. Qed.

Lemma bit_length_le l : wf_limbs l -> 0 <= bit_length (val l) <= 64 * Z.of_nat (length l).
Proof.
  intros Hl. pose proof (val_bound _ Hl) as Hb. unfold bit_length, modulus in *. destruct (Z.eqb_spec (val l) 0); [lia|].
  pose proof (Z.log2_nonneg (val l)). assert (Z.log2 (val l) < 64 * Z.of_nat (length l)) by (apply Z.log2_lt_pow2; lia). lia.
Qed.

(** ** Division *)

Lemma div_u64_loop_spec l y :
  wf_limbs l -> 0 < y < U64 ->
  wf_limbs (div_u64_loop l y).1 /\ length (div_u64_loop l y).1 = length l /\
  val (div_u64_loop l y).1 = val l / y /\ (div_u64_loop l y).2 = val l mod y.
Proof.
  intros Hl Hy. induction Hl as [|d l Hd Hl IH]; [cbn; split_and!; [by constructor|done..]|].
  cbn [div_u64_loop]. destruct (div_u64_loop l y) as [q r]. cbn [fst snd] in *. destruct IH as (Hq & Hlq & Hvq & ->).
  cbv zeta. cbn [fst snd]. unfold in_u64 in Hd. pose proof (Z.mod_pos_bound (val l) y ltac:(lia)) as Hr.
  assert (Hn : Z.lor (Z.shiftl (val l mod y) 64) d = (val l mod y) * U64 + d).
  { change U64 with (2 ^ 64). rewrite <-Z.shiftl_mul_pow2 by lia. symmetry.
    rewrite Z.add_nocarry_lxor, Z.lxor_lor; [done|..]; apply Z.bits_inj'; intros n Hn;
      rewrite Z.land_spec, Z.shiftl_spec, Z.bits_0 by lia;
      (destruct (Z.ltb_spec n 64); [by rewrite (Z.testbit_neg_r (val l mod y)) by lia|]);
      rewrite (u64_high_bits d) by (unfold in_u64; lia); apply andb_false_r. }
  rewrite Hn. set (n := val l mod y * U64 + d).
  assert (Hnq : 0 <= n / y < U64) by (split; [apply Z.div_pos; lia|apply Z.div_lt_upper_bound; subst n; nia]).
  rewrite !(Z.mod_small _ U64) by (pose proof (Z.mod_pos_bound n y); lia).
  pose proof (Z.div_mod (val l) y ltac:(lia)) as Hdm. pose proof (Z.div_mod n y ltac:(lia)) as Hdn.
  pose proof (Z.mod_pos_bound n y ltac:(lia)) as Hnr.
  assert (Hv : val (d :: l) = y * (n / y + U64 * (val l / y)) + n mod y) by (cbn [val]; subst n; nia).
  split_and!; [by apply Forall_cons|cbn; lia| |].
  - cbn [val]. rewrite Hvq. apply (Z.div_unique _ _ _ (n mod y)); [lia|exact Hv].
  - apply (Z.mod_unique _ _ (n / y + U64 * (val l / y))); [lia|exact Hv].
Qed.

Lemma limb_lookup l i : (i < length l)%nat -> l !! i = Some (limb l i).
Proof.
  intros Hi. destruct (lookup_lt_is_Some_2 l i Hi) as [w Hw]. rewrite Hw. f_equal. symmetry.
  by apply nth_lookup_Some with (d := 0) in Hw.
Qed.

Lemma limb_insert l i x j : (i < length l)%nat -> limb (<[i := x]> l) j = if (j =? i)%nat then x else limb l j.
Proof.
  intros Hi. unfold limb. rewrite !nth_lookup. destruct (Nat.eqb_spec j i) as [->|Hne].
  - by rewrite list_lookup_insert_eq.
  - by rewrite list_lookup_insert_ne.
Qed.

Lemma set_bit_spec ret k :
  wf_limbs ret -> (0 <= k < 64 * Z.of_nat (length ret)) -> Z.testbit (val ret) k = false ->
  wf_limbs (set_bit ret k) /\ length (set_bit ret k) = length ret /\ val (set_bit ret k) = val ret + 2 ^ k.
Proof.
  intros Hw Hk Hbit. destruct (shift_amount (length ret) k Hk) as (w & h & Hkw & Hh & Hwn & Hw' & Hh').
  unfold set_bit. rewrite Hw', Hh'.
  assert (Hwf : wf_limbs (<[w := Z.lor (limb ret w) (shl64 1 h)]> ret)) by (apply Forall_insert; [done|auto with uint]).
  split_and!; [done|apply length_insert|].
  pose proof (val_bound _ Hw). pose proof (Z.pow_pos_nonneg 2 k ltac:(lia) ltac:(lia)).
  assert (Hlor : val ret + 2 ^ k = Z.lor (val ret) (2 ^ k)).
  { rewrite Z.add_nocarry_lxor, Z.lxor_lor; [done|..]; apply Z.bits_inj'; intros n Hn;
      rewrite Z.land_spec, Z.pow2_bits_eqb, Z.bits_0 by lia; (destruct (Z.eqb_spec k n); [subst n; by rewrite Hbit|apply andb_false_r]). }
  rewrite Hlor. apply val_eq_bits; [done|apply Z.lor_nonneg; lia|]. intros i j Hj.
  rewrite Z.lor_spec, val_testbit, Z.pow2_bits_eqb, limb_insert by (done || lia).
  destruct (Nat.eqb_spec i w) as [->|Hne].
  - rewrite Z.lor_spec, shl64_testbit by lia. f_equal. destruct (Z.ltb_spec j 64); [cbn [andb]|lia].
    change 1 with (2 ^ 0). destruct (Z.lt_ge_cases j h).
    + rewrite Z.testbit_neg_r by lia. symmetry. apply Z.eqb_neq. lia.
    + rewrite Z.pow2_bits_eqb by lia. apply eq_true_iff_eq. rewrite !Z.eqb_eq. lia.
  - destruct (Z.eqb_spec k (64 * Z.of_nat i + j)); [lia|]. by rewrite orb_false_r.
Qed.

Lemma uint_shr_1 l : wf_limbs l -> (0 < length l)%nat ->
  wf_limbs (uint_shr l 1) /\ length (uint_shr l 1) = length l /\ val (uint_shr l 1) = val l / 2.
Proof.
  intros Hl Hn. destruct (overflowing_shr_spec l 1 Hl Hn ltac:(lia)) as (? & ? & Hv & _). unfold uint_shr.
  rewrite Z.mod_small in Hv by (unfold uint_bits_const; lia). done.
Qed.

Lemma uint_sub_spec a b :
  wf_limbs a -> wf_limbs b -> length a = length b -> val b <= val a ->
  wf_limbs (uint_sub a b) /\ length (uint_sub a b) = length a /\ val (uint_sub a b) = val a - val b.
Proof.
  intros Ha Hb Hlen Hle. destruct (overflowing_sub_spec a b Ha Hb Hlen) as (? & ? & Hv & _). unfold uint_sub.
  pose proof (val_bound _ Ha). pose proof (val_bound _ Hb). rewrite Z.mod_small in Hv by lia. done.
Qed.

(** One round of the long division, for a divisor [D] and the round of weight [2^k]. *)
Lemma div_step (k : nat) D N sub shifted ret :
  wf_limbs sub -> wf_limbs shifted -> wf_limbs ret -> length shifted = length sub -> length ret = length sub ->
  0 < D -> N < modulus (length sub) -> (exists c, val ret = 2 ^ (Z.of_nat k + 1) * c) ->
  val shifted = D * 2 ^ Z.of_nat k -> val sub < D * 2 ^ (Z.of_nat k + 1) -> N = val ret * D + val sub ->
  let st := if uint_geb sub shifted then (uint_sub sub shifted, set_bit ret (Z.of_nat k)) else (sub, ret) in
  wf_limbs st.1 /\ wf_limbs st.2 /\ length st.1 = length sub /\ length st.2 = length sub /\
  (exists c, val st.2 = 2 ^ Z.of_nat k * c) /\ val st.1 < D * 2 ^ Z.of_nat k /\ N = val st.2 * D + val st.1.
Proof.
  intros Hs Hsh Hr Hlsh Hlr HD HN [c Hc] Hvsh Hlt HNe. cbv zeta. rewrite uint_geb_spec by done.
  pose proof (Z.pow_pos_nonneg 2 (Z.of_nat k) ltac:(lia) ltac:(lia)) as Hp.
  rewrite Z.add_1_r, Z.pow_succ_r in Hlt, Hc by lia. pose proof (val_bound _ Hs). pose proof (val_bound _ Hr).
  destruct (Z.leb_spec (val shifted) (val sub)) as [Hge|Hltn]; cbn [fst snd].
  2:{ split_and!; [done..| |lia|done]. exists (2 * c). lia. }
  destruct (uint_sub_spec sub shifted) as (Hw1 & Hl1 & Hv1); [done..|].
  assert (Hk : 0 <= Z.of_nat k < 64 * Z.of_nat (length ret)).
  { split; [lia|]. apply (Z.pow_lt_mono_r_iff 2); [lia..|]. fold (modulus (length ret)). rewrite Hlr. nia. }
  destruct (set_bit_spec ret (Z.of_nat k) Hr Hk) as (Hw2 & Hl2 & Hv2).
  { rewrite Hc. replace (2 * 2 ^ Z.of_nat k * c) with (2 * c * 2 ^ Z.of_nat k) by lia.
    rewrite Z.mul_pow2_bits, Z.sub_diag by lia. apply Z.testbit_even_0. }
  split_and!; [done..|lia|lia| |nia|nia]. exists (2 * c + 1). lia.
Qed.

Lemma div_loop_spec (k : nat) D N sub shifted ret :
  wf_limbs sub -> wf_limbs shifted -> wf_limbs ret -> length shifted = length sub -> length ret = length sub ->
  (0 < length sub)%nat -> 0 < D -> N < modulus (length sub) -> (exists c, val ret = 2 ^ (Z.of_nat k + 1) * c) ->
  val shifted = D * 2 ^ Z.of_nat k -> val sub < D * 2 ^ (Z.of_nat k + 1) -> N = val ret * D + val sub ->
  let r := div_loop k sub shifted ret in
  wf_limbs r.1 /\ wf_limbs r.2 /\ length r.1 = length sub /\ length r.2 = length sub /\ N = val r.1 * D + val r.2 /\ val r.2 < D.
Proof.
  cbv zeta. revert sub shifted ret. induction k as [|k IH];
    intros sub shifted ret Hs Hsh Hr Hlsh Hlr Hn HD HN Hc Hvsh Hlt HNe;
    destruct (div_step _ D N sub shifted ret Hs Hsh Hr Hlsh Hlr HD HN Hc Hvsh Hlt HNe) as (Hw1 & Hw2 & Hl1 & Hl2 & Hc' & Hlt' & HNe');
    cbn [div_loop]; destruct (if uint_geb sub shifted then _ else _) as [sub' ret']; cbn [fst snd] in *.
  - change (2 ^ Z.of_nat 0) with 1 in *. split_and!; try done. lia.
  - destruct (uint_shr_1 shifted Hsh) as (Hw3 & Hl3 & Hv3); [lia|].
    replace (Z.of_nat (S k)) with (Z.of_nat k + 1) in * by lia.
    destruct (IH sub' (uint_shr shifted 1) ret') as (? & ? & ? & ? & ? & ?); try done; try lia.
    + by rewrite Hl1.
    + rewrite Hv3, Hvsh, Z.add_1_r, Z.pow_succ_r by lia.
      replace (D * (2 * 2 ^ Z.of_nat k)) with (D * 2 ^ Z.of_nat k * 2) by lia. by rewrite Z.div_mul.
    + split_and!; try done; lia.
Qed.

Lemma div_rem_spec {E} a b :
  wf_limbs a -> wf_limbs b -> length a = length b -> val b <> 0 ->
  exists q r, @div_rem E a b = Ok (q, r) /\ wf_limbs q /\ wf_limbs r /\ length q = length a /\ length r = length a /\
    val q = val a / val b /\ val r = val a mod val b.
Proof.
  intros Ha Hb Hlen Hnz. unfold div_rem. rewrite !uint_bits_spec by done.
  pose proof (val_bound _ Ha) as Hva. pose proof (val_bound _ Hb) as Hvb.
  destruct (bit_length_bounds (val a)) as [Ha1 Ha2]; [lia|]. destruct (bit_length_bounds (val b)) as [Hb1 Hb2]; [lia|].
  pose proof (bit_length_le _ Ha). pose proof (bit_length_le _ Hb).
  assert (Hbl : 0 < bit_length (val b)) by (unfold bit_length; destruct (Z.eqb_spec (val b) 0); [done|]; pose proof (Z.log2_nonneg (val b)); lia).
  destruct (Z.eqb_spec (bit_length (val b)) 0); [lia|]. destruct (Z.ltb_spec (bit_length (val a)) (bit_length (val b))) as [Hlt|Hge].
  { assert (val a < val b).
    { apply (Z.lt_le_trans _ _ _ Ha1). apply (Z.le_trans _ (2 ^ (bit_length (val b) - 1))); [apply Z.pow_le_mono_r; lia|apply Hb2; lia]. }
    exists (uint_zero (length a)), a. rewrite val_zero, length_zero.
    rewrite (Z.div_small (val a)), (Z.mod_small (val a)) by lia. split_and!; done || apply wf_zero. }
  set (s := bit_length (val a) - bit_length (val b)) in *. assert (Hpos : (0 < length a)%nat) by lia.
  assert (Hs : 0 <= s < uint_bits_const (length b)) by (unfold uint_bits_const; lia).
  destruct (overflowing_shl_spec b s Hb) as (Hw & Hl & Hv & _); [lia..|]. rewrite (Z.mod_small s) in Hv by done.
  assert (Hfit : val b * 2 ^ s < modulus (length b)).
  { apply (Z.lt_le_trans _ (2 ^ bit_length (val b) * 2 ^ s)); [apply Z.mul_lt_mono_pos_r; [apply Z.pow_pos_nonneg; lia|lia]|].
    rewrite <-Z.pow_add_r by lia. unfold modulus. apply Z.pow_le_mono_r; lia. }
  rewrite Z.mod_small in Hv by (pose proof (Z.pow_pos_nonneg 2 s); nia).
  destruct (div_loop_spec (Z.to_nat s) (val b) (val a) a (uint_shl b s) (uint_zero (length a)))
    as (? & ? & ? & ? & Heq & Hrem); try done; try lia; try apply wf_zero; try apply length_zero; try (by rewrite val_zero).
  - unfold uint_shl. lia.
  - rewrite val_zero. exists 0. lia.
  - unfold uint_shl. rewrite Hv, Z2Nat.id by lia. done.
  - rewrite Z2Nat.id by lia. apply (Z.lt_le_trans _ _ _ Ha1).
    replace (bit_length (val a)) with ((bit_length (val b) - 1) + (s + 1)) by lia. rewrite Z.pow_add_r by lia.
    apply Z.mul_le_mono_nonneg_r; [apply Z.pow_nonneg; lia|apply Hb2; lia].
  - destruct (div_loop _ _ _ _) as [q r]. cbn [fst snd] in *. exists q, r.
    assert (0 <= val r) by by apply val_bound.
    split_and!; [done..|apply (Z.div_unique _ _ _ (val r)); lia|apply (Z.mod_unique _ _ (val q)); lia].
Qed.

(** ** Bytes *)

Definition wf_bytes (bs : list Z) : Prop := Forall (fun b => 0 <= b < 256) bs.

Lemma le_bytes_wf n w : wf_bytes (le_bytes n w).
Proof. revert w. induction n; intros w; cbn; constructor; [apply Z.mod_pos_bound; lia|apply IHn]. Qed.
Lemma length_le_bytes n w : length (le_bytes n w) = n.
Proof. revert w. induction n; intros w; cbn; congruence. Qed.
Lemma of_le_bytes_bound bs : wf_bytes bs -> 0 <= of_le_bytes bs < 256 ^ Z.of_nat (length bs).
Proof.
  induction 1 as [|b bs Hb Hbs IH]; [cbn; lia|]. cbn [of_le_bytes length].
  rewrite Nat2Z.inj_succ, Z.pow_succ_r by lia. lia.
Qed.
Lemma of_le_bytes_le n w : 0 <= w < 256 ^ Z.of_nat n -> of_le_bytes (le_bytes n w) = w.
Proof.
  revert w. induction n as [|n IH]; intros w Hw; [cbn in *; lia|]. cbn [le_bytes of_le_bytes].
  rewrite Nat2Z.inj_succ, Z.pow_succ_r in Hw by lia. rewrite IH; Z.to_euclidean_division_equations; lia.
Qed.
Lemma le_bytes_of bs : wf_bytes bs -> le_bytes (length bs) (of_le_bytes bs) = bs.
Proof.
  induction 1 as [|b bs Hb Hbs IH]; [done|]. cbn [length le_bytes of_le_bytes].
  rewrite Z.mul_comm, Z.mod_add, Z.div_add, Z.mod_small, (Z.div_small b), Z.add_0_l by lia. by rewrite IH.
Qed.

Lemma u64_le_roundtrip w : in_u64 w -> of_le_bytes (u64_to_le_bytes w) = w.
Proof. intros Hw. apply of_le_bytes_le. exact Hw. Qed.

Lemma chunks8_app bs rest n : length bs = 8%nat -> chunks8 (S n) (bs ++ rest) = bs :: chunks8 n rest.
Proof. intros Hl. cbn [chunks8]. by rewrite take_app_length', drop_app_length'. Qed.

Lemma chunks8_concat (f : Z -> list Z) l : (forall w, length (f w) = 8%nat) ->
  chunks8 (length l) (concat (List.map f l)) = List.map f l.
Proof. intros Hf. induction l as [|w l IH]; [done|]. cbn [length List.map concat]. rewrite chunks8_app by apply Hf. by rewrite IH. Qed.

Lemma from_to_le_bytes l : wf_limbs l -> from_le_bytes (length l) (to_le_bytes l) = l.
Proof.
  intros Hl. unfold from_le_bytes, to_le_bytes. rewrite chunks8_concat by (intros; apply length_le_bytes).
  rewrite List.map_map. induction Hl as [|w l Hw Hl IH]; [done|]. cbn. f_equal; [by apply u64_le_roundtrip|apply IH].
Qed.

Lemma from_to_be_bytes l : wf_limbs l -> from_be_bytes (length l) (to_be_bytes l) = l.
Proof.
  intros Hl. unfold from_be_bytes, to_be_bytes. rewrite <-length_rev.
  rewrite chunks8_concat by (intros; unfold u64_to_be_bytes; rewrite length_rev; apply length_le_bytes).
  rewrite List.map_map. rewrite <-(rev_involutive l) at 2. f_equal. apply Forall_rev in Hl.
  rewrite <-(List.map_id (rev l)) at 2. apply map_ext_in. intros w Hw. unfold u64_from_be_bytes, u64_to_be_bytes.
  rewrite rev_involutive. apply u64_le_roundtrip. rewrite Forall_forall in Hl. apply Hl. by apply list_elem_of_In.
Qed.
