(* ===== verification/UintProps.v ===== *)
(** * Fixed-width unsigned integers: properties

    The compact encoding of difficulty targets, which keeps the most significant bytes of a
    target, and the correctness theorems of the limb arithmetic and of that encoding. *)

From Stdlib Require Import ZArith Lia Bool.
From stdpp Require Import base numbers list.
From S2P Require Import Prelude Uint UintLemmas.

#[local] Open Scope Z_scope.

(** ** The compact encoding *)

Lemma lor_disjoint m s : 0 <= m < 2 ^ 24 -> 0 <= s -> Z.lor m (Z.shiftl s 24) = m + s * 2 ^ 24.
Proof.
  intros Hm Hs. rewrite <-Z.shiftl_mul_pow2 by lia. symmetry.
  assert (Z.land m (Z.shiftl s 24) = 0).
  { apply Z.bits_inj'. intros n Hn. rewrite Z.land_spec, Z.shiftl_spec, Z.bits_0 by lia.
    destruct (Z.ltb_spec n 24); [rewrite (Z.testbit_neg_r s) by lia; apply andb_false_r|].
    rewrite <-(Z.mod_small m (2 ^ 24)), Z.mod_pow2_bits_high by lia. done. }
  by rewrite Z.add_nocarry_lxor, Z.lxor_lor.
Qed.

Lemma compact_pack m s : 0 <= m < 2 ^ 24 -> 0 <= s < 256 -> Z.lor m (Z.shiftl s 24 mod U32) = m + s * 2 ^ 24.
Proof.
  intros Hm Hs. rewrite Z.mod_small; [apply lor_disjoint; lia|]. rewrite Z.shiftl_mul_pow2 by lia. lia.
Qed.

Lemma sign_bit m : 0 <= m < 2 ^ 24 -> negb (Z.land m 0x800000 =? 0) = (2 ^ 23 <=? m).
Proof.
  intros Hm. assert (Hland : Z.land m 0x800000 = if Z.testbit m 23 then 2 ^ 23 else 0).
  { apply Z.bits_inj'. intros n Hn. change 0x800000 with (2 ^ 23). rewrite Z.land_spec, Z.pow2_bits_eqb by lia.
    destruct (Z.eqb_spec 23 n) as [<-|Hne].
    - destruct (Z.testbit m 23); [by rewrite Z.pow2_bits_true|by rewrite Z.testbit_0_l].
    - rewrite andb_false_r. destruct (Z.testbit m 23); [by rewrite Z.pow2_bits_false|by rewrite Z.testbit_0_l]. }
  rewrite Hland. assert (Hb : Z.testbit m 23 = (2 ^ 23 <=? m)).
  { destruct (Z.leb_spec (2 ^ 23) m) as [Hge|Hlt].
    - apply Z.testbit_true; [lia|]. replace (m / 2 ^ 23) with 1; [done|]. apply (Z.div_unique _ _ _ (m - 2 ^ 23)); lia.
    - rewrite <-(Z.mod_small m (2 ^ 23)) by lia. apply Z.mod_pow2_bits_high. lia. }
  rewrite Hb. by destruct (2 ^ 23 <=? m).
Qed.

(** Decoding a mantissa and a size. *)
Lemma from_compact_spec m s :
  0 <= m < 2 ^ 23 -> 0 <= s <= 34 ->
  wf_limbs (from_compact_target_bits (m + s * 2 ^ 24)) /\ length (from_compact_target_bits (m + s * 2 ^ 24)) = 4%nat /\
  val (from_compact_target_bits (m + s * 2 ^ 24)) =
    if s <=? 3 then m / 2 ^ (8 * (3 - s)) else (m * 2 ^ (8 * (s - 3))) mod modulus 4.
Proof.
  intros Hm Hs. unfold from_compact_target_bits.
  assert (Z.shiftr (m + s * 2 ^ 24) 24 = s) as ->.
  { rewrite Z.shiftr_div_pow2, Z.div_add, Z.div_small by lia. lia. }
  assert (Z.land (m + s * 2 ^ 24) 0xFFFFFF = m) as ->.
  { change 0xFFFFFF with (Z.ones 24). rewrite Z.land_ones, Z.mod_add by lia. apply Z.mod_small. lia. }
  cbv zeta. assert (Hshl : forall x e, 0 <= x < 2 ^ 23 -> 0 <= e < 256 ->
    wf_limbs (uint_shl (uint_from_u64 4 x) e) /\ length (uint_shl (uint_from_u64 4 x) e) = 4%nat /\
    val (uint_shl (uint_from_u64 4 x) e) = (x * 2 ^ e) mod modulus 4).
  { intros x e Hx He. destruct (overflowing_shl_spec (uint_from_u64 4 x) e) as (Hw & Hl & Hv & _);
      [apply wf_from_u64; unfold in_u64; lia|rewrite length_from_u64; lia|lia|].
    rewrite val_from_u64, length_from_u64 in * by lia. rewrite (Z.mod_small e) in Hv by (unfold uint_bits_const; lia). done. }
  destruct (Z.leb_spec s 3).
  - rewrite Z.shiftr_div_pow2 by lia. pose proof (Z.pow_pos_nonneg 2 (8 * (3 - s)) ltac:(lia) ltac:(lia)).
    assert (Hd : 0 <= m / 2 ^ (8 * (3 - s)) <= m) by (split; [apply Z.div_pos; lia|apply Z.div_le_upper_bound; nia]).
    destruct (Z.ltb_spec 0x7FFFFF (m / 2 ^ (8 * (3 - s)))); [lia|].
    destruct (Hshl (m / 2 ^ (8 * (3 - s))) 0) as (? & ? & Hv); [lia..|]. split_and!; [done..|]. rewrite Hv, Z.mul_1_r.
    apply Z.mod_small. unfold modulus. lia.
  - destruct (Z.ltb_spec 0x7FFFFF m); [lia|]. destruct (Hshl m (8 * (s - 3))) as (? & ? & Hv); [lia..|]. done.
Qed.

(** The size field and the shift an encoded target is rounded down by. *)
Definition compact_size (v : Z) : Z := if v =? 0 then 0 else bit_length v / 8 + 1.
Definition compact_shift (v : Z) : Z := 8 * Z.max 0 (bit_length v / 8 - 2).
Definition compact_mantissa (v : Z) : Z :=
  if compact_size v <=? 3 then v * 2 ^ (8 * (3 - compact_size v)) else v / 2 ^ (8 * (compact_size v - 3)).

Lemma as_u64_spec l : wf_limbs l -> as_u64 l = val l mod U64.
Proof.
  unfold as_u64. destruct 1 as [|w l Hw Hl]; [done|]. cbn [limb nth val]. rewrite Z.mul_comm, Z.mod_add by lia.
  symmetry. by apply Z.mod_small.
Qed.

Lemma pow_split a b : 0 <= a -> 0 <= b -> 2 ^ (a + b) = 2 ^ a * 2 ^ b.
Proof. apply Z.pow_add_r. Qed.

(** The mantissa before the sign adjustment, for [size] bytes. *)
Lemma raw_mantissa l size :
  wf_limbs l -> length l = 4%nat -> 0 <= size <= 32 -> val l < 2 ^ (8 * size) ->
  (if size <=? 3 then shl64 (as_u64 l) (8 * (3 - size)) mod U32 else as_u64 (uint_shr l (8 * (size - 3))) mod U32) =
  (if size <=? 3 then val l * 2 ^ (8 * (3 - size)) else val l / 2 ^ (8 * (size - 3))) /\
  0 <= (if size <=? 3 then val l * 2 ^ (8 * (3 - size)) else val l / 2 ^ (8 * (size - 3))) < 2 ^ 24.
Proof.
  intros Hl Hlen Hsz Hv. pose proof (val_bound _ Hl). destruct (Z.leb_spec size 3).
  - assert (Hb : 0 <= val l * 2 ^ (8 * (3 - size)) < 2 ^ 24).
    { pose proof (Z.pow_pos_nonneg 2 (8 * (3 - size)) ltac:(lia) ltac:(lia)). split; [nia|].
      replace 24 with (8 * size + 8 * (3 - size)) by lia. rewrite pow_split by lia. nia. }
    assert (val l < 2 ^ 24) by (apply (Z.lt_le_trans _ _ _ Hv), Z.pow_le_mono_r; lia).
    split; [|done]. rewrite as_u64_spec, (Z.mod_small (val l)) by (done || lia).
    unfold shl64. rewrite Z.shiftl_mul_pow2, !Z.mod_small by (try apply Z.mod_pos_bound; rewrite ?Z.mod_small; lia). done.
  - destruct (overflowing_shr_spec l (8 * (size - 3)) Hl) as (Hw & _ & Hvs & _); [lia..|].
    rewrite (Z.mod_small (8 * (size - 3))) in Hvs by (unfold uint_bits_const; lia).
    pose proof (Z.pow_pos_nonneg 2 (8 * (size - 3)) ltac:(lia) ltac:(lia)).
    assert (Hb : 0 <= val l / 2 ^ (8 * (size - 3)) < 2 ^ 24).
    { split; [apply Z.div_pos; lia|]. apply Z.div_lt_upper_bound; [lia|].
      rewrite <-pow_split by lia. replace (8 * (size - 3) + 24) with (8 * size) by lia. done. }
    split; [|done]. unfold uint_shr. rewrite as_u64_spec by done. rewrite Hvs, !Z.mod_small by (rewrite ?Z.mod_small; lia). done.
Qed.

Lemma size_bound v size :
  0 < v -> size = (bit_length v + 7) / 8 -> 1 <= size /\ 2 ^ (8 * size - 8) <= v < 2 ^ (8 * size) /\
  compact_size v = if 2 ^ (8 * size - 1) <=? v then size + 1 else size.
Proof.
  intros Hv ->. destruct (bit_length_bounds v ltac:(lia)) as [Hhi Hlo]. specialize (Hlo Hv).
  assert (Hb : 0 < bit_length v) by (unfold bit_length; destruct (Z.eqb_spec v 0); [lia|]; pose proof (Z.log2_nonneg v); lia).
  set (b := bit_length v) in *. set (size := (b + 7) / 8).
  assert (Hsz : b <= 8 * size < b + 8) by (subst size; Z.to_euclidean_division_equations; lia).
  split_and!; [lia|apply (Z.le_trans _ (2 ^ (b - 1))); [apply Z.pow_le_mono_r; lia|done]|
    apply (Z.lt_le_trans _ (2 ^ b)); [done|apply Z.pow_le_mono_r; lia]|].
  unfold compact_size. fold b. destruct (Z.eqb_spec v 0); [lia|].
  destruct (Z.leb_spec (2 ^ (8 * size - 1)) v) as [Hge|Hlt].
  - assert (b = 8 * size); [|Z.to_euclidean_division_equations; lia].
    assert (8 * size - 1 < b); [|lia]. apply (Z.pow_lt_mono_r_iff 2); lia.
  - assert (b < 8 * size); [|Z.to_euclidean_division_equations; lia].
    assert (b - 1 < 8 * size - 1); [|lia]. apply (Z.pow_lt_mono_r_iff 2); lia.
Qed.

(** The sign adjustment is a move to one more byte. *)
Lemma mantissa_adjust v size m :
  0 < v -> 1 <= size -> 2 ^ (8 * size - 8) <= v < 2 ^ (8 * size) ->
  m = (if size <=? 3 then v * 2 ^ (8 * (3 - size)) else v / 2 ^ (8 * (size - 3))) ->
  compact_size v = (if 2 ^ (8 * size - 1) <=? v then size + 1 else size) ->
  (2 ^ 23 <=? m) = (2 ^ (8 * size - 1) <=? v) /\
  (if 2 ^ (8 * size - 1) <=? v then m / 2 ^ 8 else m) = compact_mantissa v.
Proof.
  intros Hv Hsz Hb -> Hcs. unfold compact_mantissa. rewrite Hcs.
  assert (Hsign : (2 ^ 23 <=? (if size <=? 3 then v * 2 ^ (8 * (3 - size)) else v / 2 ^ (8 * (size - 3)))) = (2 ^ (8 * size - 1) <=? v)).
  { apply eq_true_iff_eq. rewrite !Z.leb_le. destruct (Z.leb_spec size 3).
    - replace (2 ^ 23) with (2 ^ (8 * size - 1) * 2 ^ (8 * (3 - size))) by (rewrite <-pow_split by lia; f_equal; lia).
      symmetry. apply Z.mul_le_mono_pos_r. apply Z.pow_pos_nonneg; lia.
    - replace (2 ^ (8 * size - 1)) with (2 ^ (8 * (size - 3)) * 2 ^ 23) by (rewrite <-pow_split by lia; f_equal; lia).
      pose proof (Z.pow_pos_nonneg 2 (8 * (size - 3)) ltac:(lia) ltac:(lia)).
      split; intros H1; [|apply Z.div_le_lower_bound; lia]. eapply Z.le_trans; [|apply (Z.mul_div_le v (2 ^ (8 * (size - 3)))); lia].
      apply Z.mul_le_mono_nonneg_l; lia. }
  split; [exact Hsign|]. destruct (2 ^ (8 * size - 1) <=? v); [|done].
  destruct (Z.leb_spec size 3), (Z.leb_spec (size + 1) 3); try lia.
  - replace (8 * (3 - size)) with (8 * (3 - (size + 1)) + 8) by lia. rewrite pow_split by lia.
    rewrite Z.mul_assoc. by apply Z.div_mul.
  - assert (size = 3) as -> by lia. change (8 * (3 - 3)) with 0. by rewrite Z.mul_1_r.
  - replace (8 * (size + 1 - 3)) with (8 * (size - 3) + 8) by lia. rewrite pow_split by lia.
    apply Z.div_div; [apply Z.pow_nonzero; lia|lia].
Qed.

Lemma compact_target_bits_spec l :
  wf_limbs l -> length l = 4%nat ->
  compact_target_bits l = compact_mantissa (val l) + compact_size (val l) * 2 ^ 24 /\
  0 <= compact_mantissa (val l) < 2 ^ 23 /\ 0 <= compact_size (val l) <= 33 /\
  (0 < val l -> 2 ^ 15 <= compact_mantissa (val l)).
Proof.
  intros Hl Hlen. unfold compact_target_bits. rewrite uint_bits_spec by done. pose proof (val_bound _ Hl) as Hvb.
  pose proof (bit_length_le _ Hl) as Hbl. rewrite Hlen in Hbl, Hvb.
  destruct (Z.eq_dec (val l) 0) as [Hz|Hnz].
  { rewrite Hz. change (bit_length 0) with 0. cbn [Z.add]. change ((0 + 7) / 8) with 0. cbv zeta.
    assert (as_u64 l = 0) as -> by (rewrite as_u64_spec, Hz; done). vm_compute. intuition discriminate. }
  set (size := (bit_length (val l) + 7) / 8).
  destruct (size_bound (val l) size) as (Hs1 & Hsb & Hcs); [lia|done|].
  assert (Hs32 : size <= 32) by (subst size; Z.to_euclidean_division_equations; lia).
  destruct (raw_mantissa l size Hl Hlen) as [-> Hm]; [lia|lia|]. cbv zeta.
  set (m := if size <=? 3 then _ else _) in *. rewrite sign_bit by done.
  destruct (mantissa_adjust (val l) size m) as [Hsg Hma]; [lia|lia|lia|done|done|]. rewrite Hsg, Hcs, <-Hma. fold m in Hma.
  assert (Hlow : 2 ^ 15 <= if 2 ^ (8 * size - 1) <=? val l then m / 2 ^ 8 else m).
  { rewrite <-Hsg. destruct (Z.leb_spec (2 ^ 23) m); [apply Z.div_le_lower_bound; lia|]. subst m. destruct (Z.leb_spec size 3).
    - apply (Z.le_trans _ (2 ^ (8 * size - 8) * 2 ^ (8 * (3 - size)))); [rewrite <-pow_split by lia; apply Z.pow_le_mono_r; lia|].
      apply Z.mul_le_mono_nonneg_r; [apply Z.pow_nonneg; lia|lia].
    - apply Z.div_le_lower_bound; [apply Z.pow_pos_nonneg; lia|]. rewrite <-pow_split by lia.
      apply (Z.le_trans _ (2 ^ (8 * size - 8))); [apply Z.pow_le_mono_r; lia|lia]. }
  revert Hlow. rewrite <-Hsg. destruct (Z.leb_spec (2 ^ 23) m) as [Hge|Hlt]; intros Hlow.
  - assert (0 <= m / 2 ^ 8 < 2 ^ 23) by (split; [apply Z.div_pos; lia|apply Z.div_lt_upper_bound; lia]).
    rewrite Z.shiftr_div_pow2, compact_pack by lia. split_and!; lia.
  - rewrite compact_pack by lia. split_and!; lia.
Qed.

(** Decoding what was encoded drops the low [compact_shift] bits. *)
Lemma compact_roundtrip l :
  wf_limbs l -> length l = 4%nat ->
  val (from_compact_target_bits (compact_target_bits l)) =
    val l / 2 ^ compact_shift (val l) * 2 ^ compact_shift (val l).
Proof.
  intros Hl Hlen. destruct (compact_target_bits_spec l Hl Hlen) as (-> & Hm & Hs & _).
  destruct (from_compact_spec (compact_mantissa (val l)) (compact_size (val l))) as (_ & _ & ->); [done|lia|].
  pose proof (val_bound _ Hl) as Hvb. pose proof (bit_length_le _ Hl) as Hbl. rewrite Hlen in Hvb, Hbl.
  unfold compact_mantissa, compact_shift, compact_size in *. destruct (Z.eqb_spec (val l) 0) as [Hz|Hnz].
  { rewrite Hz. done. }
  set (b := bit_length (val l)) in *. destruct (Z.leb_spec (b / 8 + 1) 3).
  - rewrite Z.div_mul by (apply Z.pow_nonzero; lia). rewrite Z.max_l by lia. cbn. rewrite Z.div_1_r. lia.
  - rewrite Z.max_r by lia. replace (b / 8 + 1 - 3) with (b / 8 - 2) by lia. apply Z.mod_small.
    pose proof (Z.pow_pos_nonneg 2 (8 * (b / 8 - 2)) ltac:(lia) ltac:(lia)).
    pose proof (Z.mul_div_le (val l) (2 ^ (8 * (b / 8 - 2))) ltac:(lia)).
    assert (0 <= val l / 2 ^ (8 * (b / 8 - 2))) by (apply Z.div_pos; lia). lia.
Qed.

(** ** The theorems *)

(** Deciding well-formedness on concrete numbers. *)
Lemma wf_limbs_b l : forallb (fun w => (0 <=? w) && (w <? U64)) l = true -> wf_limbs l.
Proof.
  intros H. apply Forall_forall. intros w Hw. apply list_elem_of_In in Hw. rewrite forallb_forall in H.
  apply H in Hw. unfold in_u64. lia.
Qed.

Lemma saturating_spec a b :
  wf_limbs a -> wf_limbs b -> length a = length b ->
  val (saturating_add a b) = Z.min (val a + val b) (modulus (length a) - 1) /\
  val (saturating_sub a b) = Z.max (val a - val b) 0.
Proof.
  intros Ha Hb Hlen. pose proof (val_bound _ Ha). pose proof (val_bound _ Hb). rewrite <-Hlen in *.
  destruct (overflowing_add_spec a b Ha Hb Hlen) as (_ & _ & Hva & Hfa).
  destruct (overflowing_sub_spec a b Ha Hb Hlen) as (_ & _ & Hvs & Hfs).
  unfold saturating_add, saturating_sub.
  destruct (overflowing_add a b) as [sa fa], (overflowing_sub a b) as [ss fs]. cbn [fst snd] in *. subst fa fs. split.
  - destruct (Z.leb_spec (modulus (length a)) (val a + val b)); [rewrite val_max; lia|rewrite Hva, Z.mod_small; lia].
  - destruct (Z.ltb_spec (val a) (val b)); [rewrite val_zero; lia|rewrite Hvs, Z.mod_small; lia].
Qed.

(** Addition and subtraction on limbs are addition and subtraction modulo
    2^BITS, their flags tell exactly when the true result is out of range, and the
    saturating forms clamp it. *)
Theorem uint_add_sub_correct (a b : limbs) :
  wf_limbs a -> wf_limbs b -> length a = length b ->
  val (overflowing_add a b).1 = (val a + val b) mod modulus (length a) /\
  (overflowing_add a b).2 = (modulus (length a) <=? val a + val b) /\
  val (overflowing_sub a b).1 = (val a - val b) mod modulus (length a) /\
  (overflowing_sub a b).2 = (val a <? val b) /\
  val (saturating_add a b) = Z.min (val a + val b) (modulus (length a) - 1) /\
  val (saturating_sub a b) = Z.max (val a - val b) 0.
Proof.
  intros Ha Hb Hlen. destruct (overflowing_add_spec a b Ha Hb Hlen) as (_ & _ & ? & ?).
  destruct (overflowing_sub_spec a b Ha Hb Hlen) as (_ & _ & ? & ?). destruct (saturating_spec a b Ha Hb Hlen). done.
Qed.

(** Multiplication on limbs is multiplication modulo 2^BITS, by a word with
    the exact carry, and a set overflow flag means the product does not fit. *)
Theorem uint_mul_correct (a b : limbs) (y : Z) :
  wf_limbs a -> wf_limbs b -> length a = length b -> in_u64 y ->
  val (overflowing_mul a b).1 = (val a * val b) mod modulus (length a) /\
  ((overflowing_mul a b).2 = true -> modulus (length a) <= val a * val b) /\
  val (carrying_mul_u64 a y).1 = (val a * y) mod modulus (length a) /\
  (carrying_mul_u64 a y).2 = val a * y / modulus (length a).
Proof.
  intros Ha Hb Hlen Hy. destruct (overflowing_mul_spec a b Ha Hb Hlen) as (_ & _ & ? & ?).
  destruct (carrying_mul_u64_spec a y Ha Hy) as (_ & _ & ? & ?). done.
Qed.

(** The overflow flag of [overflowing_mul] can miss an overflow: the square
    of 2^192 in 256 bits is 0 with the flag clear, since the products of words
    whose indices add up to the number of words or more are never formed. *)
Theorem overflowing_mul_misses_overflow :
  wf_limbs [0; 0; 0; 1] /\ modulus 4 <= val [0; 0; 0; 1] * val [0; 0; 0; 1] /\
  overflowing_mul [0; 0; 0; 1] [0; 0; 0; 1] = ([0; 0; 0; 0], false).
Proof. split_and!; [apply wf_limbs_b; reflexivity|by vm_compute|by vm_compute]. Qed.


(** Shifting by less than the width multiplies or divides by a power of two,
    and by the width or more sets the flag and shifts by the amount modulo the width. *)
Theorem uint_shift_correct (a : limbs) (s : Z) :
  wf_limbs a -> (0 < length a)%nat -> 0 <= s ->
  let k := s mod uint_bits_const (length a) in
  val (overflowing_shl a s).1 = (val a * 2 ^ k) mod modulus (length a) /\
  val (overflowing_shr a s).1 = val a / 2 ^ k /\
  (overflowing_shl a s).2 = (uint_bits_const (length a) <=? s) /\ (overflowing_shr a s).2 = (uint_bits_const (length a) <=? s).
Proof.
  intros Ha Hn Hs. cbv zeta. destruct (overflowing_shl_spec a s Ha Hn Hs) as (_ & _ & ? & ?).
  destruct (overflowing_shr_spec a s Ha Hn Hs) as (_ & _ & ? & ?). done.
Qed.

(** ** Byte strings of variable length *)

Lemma drop_zeros_pad bs : exists k, bs = replicate k 0 ++ drop_zeros bs.
Proof.
  induction bs as [|b bs [k IH]]; [by exists 0%nat|]. cbn [drop_zeros].
  destruct b as [|p|p]; [exists (S k); cbn; by rewrite <-IH|by exists 0%nat..].
Qed.

Lemma length_to_be_bytes l : length (to_be_bytes l) = (8 * length l)%nat.
Proof.
  unfold to_be_bytes. rewrite <-(length_rev l). induction (rev l) as [|w l' IH]; [done|]. cbn [List.map concat].
  rewrite length_app, IH. unfold u64_to_be_bytes. rewrite length_rev, length_le_bytes. cbn. lia.
Qed.

Lemma be_bytes_var_roundtrip l : wf_limbs l -> from_be_bytes_var (length l) (to_be_bytes_var l) = Ok l.
Proof.
  intros Hl. unfold from_be_bytes_var, to_be_bytes_var. destruct (drop_zeros_pad (to_be_bytes l)) as [k Hk].
  pose proof (length_to_be_bytes l) as Hlen. rewrite Hk, length_app, length_replicate in Hlen.
  destruct (Nat.ltb_spec (8 * length l) (length (drop_zeros (to_be_bytes l)))); [lia|].
  replace (8 * length l - length (drop_zeros (to_be_bytes l)))%nat with k by lia. by rewrite <-Hk, from_to_be_bytes.
Qed.

(** The byte encodings round trip: little endian, big endian, and big endian
    without leading zeros. *)
Theorem uint_bytes_roundtrip (l : limbs) :
  wf_limbs l ->
  from_le_bytes (length l) (to_le_bytes l) = l /\ from_be_bytes (length l) (to_be_bytes l) = l /\
  from_be_bytes_var (length l) (to_be_bytes_var l) = Ok l.
Proof. intros Hl. split_and!; [by apply from_to_le_bytes|by apply from_to_be_bytes|by apply be_bytes_var_roundtrip]. Qed.

(** Encoding a 256-bit target in compact form and decoding it again rounds
    it down to its leading bytes: the low [compact_shift] bits are cleared, so the
    decoded target is at most the target and off by less than a part in 2^15. *)
Theorem compact_target_roundtrip (l : limbs) :
  wf_limbs l -> length l = 4%nat ->
  let t := val (from_compact_target_bits (compact_target_bits l)) in
  t = val l / 2 ^ compact_shift (val l) * 2 ^ compact_shift (val l) /\
  t <= val l /\ (val l - t) * 2 ^ 15 <= val l.
Proof.
  intros Hl Hlen. cbv zeta. rewrite compact_roundtrip by done. pose proof (val_bound _ Hl) as Hb.
  assert (Hs : 0 <= compact_shift (val l)) by (unfold compact_shift; lia).
  pose proof (Z.pow_pos_nonneg 2 (compact_shift (val l)) ltac:(lia) Hs) as Hp.
  pose proof (Z.div_mod (val l) (2 ^ compact_shift (val l)) ltac:(lia)) as Hdm.
  pose proof (Z.mod_pos_bound (val l) (2 ^ compact_shift (val l)) ltac:(lia)) as Hmb.
  split_and!; [done|lia|]. destruct (Z.eq_dec (compact_shift (val l)) 0) as [Hz|Hnz].
  { rewrite Hz in *. change (2 ^ 0) with 1 in *. lia. }
  apply (Z.le_trans _ (2 ^ compact_shift (val l) * 2 ^ 15)); [lia|]. rewrite <-Z.pow_add_r by lia.
  destruct (bit_length_bounds (val l) ltac:(lia)) as [_ Hlo].
  assert (Hb8 : compact_shift (val l) + 15 <= bit_length (val l) - 1)
    by (unfold compact_shift in *; Z.to_euclidean_division_equations; lia).
  eapply Z.le_trans; [apply Z.pow_le_mono_r; [lia|exact Hb8]|]. apply Hlo.
  destruct (Z.eq_dec (val l) 0) as [Hv|]; [rewrite Hv in Hnz; done|lia].
Qed.

(** ** Witnesses *)

Definition ex_a : limbs := [5; 7; 0; U64 - 1].
Definition ex_b : limbs := [U64 - 1; 3; 0; 2].
Lemma ex_a_wf : wf_limbs ex_a.
Proof. apply wf_limbs_b. reflexivity. Qed.
Lemma ex_b_wf : wf_limbs ex_b.
Proof. apply wf_limbs_b. reflexivity. Qed.

Lemma uint_add_sub_correct_witness :
  val (overflowing_add ex_a ex_b).1 = (val ex_a + val ex_b) mod modulus 4 /\ (overflowing_add ex_a ex_b).2 = true.
Proof.
  destruct (uint_add_sub_correct ex_a ex_b ex_a_wf ex_b_wf eq_refl) as (H & _). split; [exact H|vm_compute; reflexivity].
Defined.

Lemma uint_mul_correct_witness :
  val (overflowing_mul ex_a ex_b).1 = (val ex_a * val ex_b) mod modulus 4 /\
  (carrying_mul_u64 ex_a 9).2 = val ex_a * 9 / modulus 4.
Proof.
  destruct (uint_mul_correct ex_a ex_b 9 ex_a_wf ex_b_wf eq_refl) as (? & _ & _ & ?); [unfold in_u64; lia|]. split; assumption.
Defined.


Lemma uint_shift_correct_witness :
  val (overflowing_shl ex_a 77).1 = (val ex_a * 2 ^ 77) mod modulus 4 /\ val (overflowing_shr ex_a 77).1 = val ex_a / 2 ^ 77.
Proof. destruct (uint_shift_correct ex_a 77 ex_a_wf) as (? & ? & _); [cbn; lia|lia|]. split; assumption. Defined.

Lemma uint_bytes_roundtrip_witness :
  from_le_bytes 4 (to_le_bytes ex_b) = ex_b /\ from_be_bytes 4 (to_be_bytes ex_b) = ex_b /\
  from_be_bytes_var 4 (to_be_bytes_var ex_b) = Ok ex_b.
Proof. apply (uint_bytes_roundtrip ex_b ex_b_wf). Defined.

Lemma compact_target_roundtrip_witness :
  val (from_compact_target_bits (compact_target_bits ex_b)) = val ex_b / 2 ^ compact_shift (val ex_b) * 2 ^ compact_shift (val ex_b).
Proof. apply (compact_target_roundtrip ex_b ex_b_wf eq_refl). Defined.
