(* ===== verification/GhostdagStore.v ===== *)
(** * GHOSTDAG data and its stores

    Model of consensus/src/model/stores/ghostdag.rs (the data of a block, the
    reader interface, the memory store) and of the block order of
    consensus/src/processes/ghostdag/ordering.rs.  Blue work is the value of a
    [Uint192]: a [Z] below 2^192, with wrapping addition as in release builds. *)

From Stdlib Require Import ZArith Lia Bool.
From stdpp Require Import base gmap numbers list sorting.
From S2P Require Import Prelude ReachabilityStore.

#[local] Open Scope Z_scope.

Abbreviation BlueWorkType := Z.
Definition U192 : Z := 2 ^ 192.
Definition work_add (a b : BlueWorkType) : BlueWorkType := (a + b) mod U192.

(** [Sum for Uint192] *)
Definition work_sum (l : list BlueWorkType) : BlueWorkType :=
  match l with [] => 0 | x :: l' => foldl work_add x l' end.

(** ** Errors of the stores *)

Inductive StoreError :=
| KeyNotFound (key : N)
| KeyAlreadyExists
| HashAlreadyExists (h : N)
| StoreDataInconsistency.
Abbreviation sresult := (outcome StoreError).

(** ** ordering.rs *)

Record SortableBlock := mk_sortable {
  sb_hash : N;
  sb_blue_work : BlueWorkType
}.

(** [Ord for SortableBlock]: by blue work, then by hash. *)
Definition sortable_cmp (a b : SortableBlock) : comparison :=
  match sb_blue_work a ?= sb_blue_work b with
  | Eq => (sb_hash a ?= sb_hash b)%N
  | c => c
  end.
Definition sortable_le (a b : SortableBlock) : Prop := sortable_cmp a b <> Gt.
#[export] Instance sortable_le_dec a b : Decision (sortable_le a b).
Proof. unfold sortable_le. solve_decision. Defined.

(** [PartialEq for SortableBlock]: by hash only. *)
Definition sortable_eqb (a b : SortableBlock) : bool := (sb_hash a =? sb_hash b)%N.

(** ** GhostdagData *)

Record GhostdagData := mk_gd {
  gd_blue_score : Z;
  gd_blue_work : BlueWorkType;
  gd_selected_parent : N;
  gd_mergeset_blues : list N;
  gd_mergeset_reds : list N;
  gd_blues_anticone_sizes : gmap N Z
}.

Record CompactGhostdagData := mk_compact {
  cgd_blue_score : Z;
  cgd_blue_work : BlueWorkType;
  cgd_selected_parent : N
}.

Definition to_compact (d : GhostdagData) : CompactGhostdagData :=
  mk_compact (gd_blue_score d) (gd_blue_work d) (gd_selected_parent d).

(** [k] is a capacity hint; computing [k + 1] on [u16] is checked. *)
Definition new_with_selected_parent {E} (selected_parent : N) (k : Z) : outcome E GhostdagData :=
  let! _ := uadd U16 k 1 in
  Ok (mk_gd 0 0 selected_parent [selected_parent] [] {[ selected_parent := 0 ]}).

Definition mergeset_size (d : GhostdagData) : nat := (length (gd_mergeset_blues d) + length (gd_mergeset_reds d))%nat.

Definition unordered_mergeset_without_sp (d : GhostdagData) : list N :=
  drop 1 (gd_mergeset_blues d) ++ gd_mergeset_reds d.
Definition unordered_mergeset (d : GhostdagData) : list N := gd_mergeset_blues d ++ gd_mergeset_reds d.

(** [add_blue]: the sizes of the affected blues grow by one; the addition is on
    [u16]. *)
Definition add_blue {E} (d : GhostdagData) (block : N) (blue_anticone_size : Z) (sizes : gmap N Z) : outcome E GhostdagData :=
  let! updated := foldM_out (fun m p => let! s := uadd U16 p.2 1 in Ok (<[p.1 := s]> m))
                    (<[block := blue_anticone_size]> (gd_blues_anticone_sizes d)) (map_to_list sizes) in
  Ok (mk_gd (gd_blue_score d) (gd_blue_work d) (gd_selected_parent d) (gd_mergeset_blues d ++ [block])
       (gd_mergeset_reds d) updated).

Definition add_red (d : GhostdagData) (block : N) : GhostdagData :=
  mk_gd (gd_blue_score d) (gd_blue_work d) (gd_selected_parent d) (gd_mergeset_blues d)
    (gd_mergeset_reds d ++ [block]) (gd_blues_anticone_sizes d).

Definition finalize_score_and_work (d : GhostdagData) (blue_score : Z) (blue_work : BlueWorkType) : GhostdagData :=
  mk_gd blue_score blue_work (gd_selected_parent d) (gd_mergeset_blues d) (gd_mergeset_reds d) (gd_blues_anticone_sizes d).

(** ** The reader interface *)

Class GhostdagStoreReader (S : Type) := {
  get_blue_score : S -> N -> sresult Z;
  get_blue_work : S -> N -> sresult BlueWorkType;
  get_selected_parent : S -> N -> sresult N;
  get_mergeset_blues : S -> N -> sresult (list N);
  get_mergeset_reds : S -> N -> sresult (list N);
  get_blues_anticone_sizes : S -> N -> sresult (gmap N Z);
  get_data : S -> N -> sresult GhostdagData;
  get_compact_data : S -> N -> sresult CompactGhostdagData;
  gd_has : S -> N -> sresult bool
}.

(** What a store promises its clients: it reads like a map from hashes to data. *)
Class reads_map {S} `{GhostdagStoreReader S} (store : S) (m : gmap N GhostdagData) : Prop := {
  rm_score h : get_blue_score store h = match m !! h with Some d => Ok (gd_blue_score d) | None => Err (KeyNotFound h) end;
  rm_work h : get_blue_work store h = match m !! h with Some d => Ok (gd_blue_work d) | None => Err (KeyNotFound h) end;
  rm_parent h : get_selected_parent store h = match m !! h with Some d => Ok (gd_selected_parent d) | None => Err (KeyNotFound h) end;
  rm_blues h : get_mergeset_blues store h = match m !! h with Some d => Ok (gd_mergeset_blues d) | None => Err (KeyNotFound h) end;
  rm_reds h : get_mergeset_reds store h = match m !! h with Some d => Ok (gd_mergeset_reds d) | None => Err (KeyNotFound h) end;
  rm_sizes h : get_blues_anticone_sizes store h =
    match m !! h with Some d => Ok (gd_blues_anticone_sizes d) | None => Err (KeyNotFound h) end;
  rm_data h : get_data store h = match m !! h with Some d => Ok d | None => Err (KeyNotFound h) end;
  rm_compact h : get_compact_data store h = match m !! h with Some d => Ok (to_compact d) | None => Err (KeyNotFound h) end;
  rm_has h : gd_has store h = Ok (bool_decide (is_Some (m !! h)))
}.

(** ** The memory store: one map per field *)

Record MemoryGhostdagStore := mk_mem_gd {
  mg_blue_score : gmap N Z;
  mg_blue_work : gmap N BlueWorkType;
  mg_selected_parent : gmap N N;
  mg_mergeset_blues : gmap N (list N);
  mg_mergeset_reds : gmap N (list N);
  mg_blues_anticone_sizes : gmap N (gmap N Z)
}.

Definition mg_new : MemoryGhostdagStore := mk_mem_gd ∅ ∅ ∅ ∅ ∅ ∅.

Definition mg_get {A} (m : gmap N A) (h : N) : sresult A :=
  match m !! h with Some a => Ok a | None => Err (KeyNotFound h) end.

Definition mg_has (s : MemoryGhostdagStore) (h : N) : sresult bool := Ok (bool_decide (is_Some (mg_blue_score s !! h))).

(** [get_data] indexes the maps: a missing field is a panic. *)
Definition mg_get_data (s : MemoryGhostdagStore) (h : N) : sresult GhostdagData :=
  let! b := mg_has s h in
  if negb b then Err (KeyNotFound h)
  else
    let! score := unwrap (mg_blue_score s !! h) in
    let! work := unwrap (mg_blue_work s !! h) in
    let! parent := unwrap (mg_selected_parent s !! h) in
    let! blues := unwrap (mg_mergeset_blues s !! h) in
    let! reds := unwrap (mg_mergeset_reds s !! h) in
    let! sizes := unwrap (mg_blues_anticone_sizes s !! h) in
    Ok (mk_gd score work parent blues reds sizes).

Definition mg_insert (s : MemoryGhostdagStore) (h : N) (d : GhostdagData) : sresult MemoryGhostdagStore :=
  let! b := mg_has s h in
  if b : bool then Err (HashAlreadyExists h)
  else Ok (mk_mem_gd (<[h := gd_blue_score d]> (mg_blue_score s)) (<[h := gd_blue_work d]> (mg_blue_work s))
             (<[h := gd_selected_parent d]> (mg_selected_parent s)) (<[h := gd_mergeset_blues d]> (mg_mergeset_blues s))
             (<[h := gd_mergeset_reds d]> (mg_mergeset_reds s)) (<[h := gd_blues_anticone_sizes d]> (mg_blues_anticone_sizes s))).

Definition mg_delete (s : MemoryGhostdagStore) (h : N) : sresult MemoryGhostdagStore :=
  Ok (mk_mem_gd (delete h (mg_blue_score s)) (delete h (mg_blue_work s)) (delete h (mg_selected_parent s))
        (delete h (mg_mergeset_blues s)) (delete h (mg_mergeset_reds s)) (delete h (mg_blues_anticone_sizes s))).

#[export] Instance memory_ghostdag_store : GhostdagStoreReader MemoryGhostdagStore := {
  get_blue_score s := mg_get (mg_blue_score s);
  get_blue_work s := mg_get (mg_blue_work s);
  get_selected_parent s := mg_get (mg_selected_parent s);
  get_mergeset_blues s := mg_get (mg_mergeset_blues s);
  get_mergeset_reds s := mg_get (mg_mergeset_reds s);
  get_blues_anticone_sizes s := mg_get (mg_blues_anticone_sizes s);
  get_data := mg_get_data;
  get_compact_data s h := let! d := mg_get_data s h in Ok (to_compact d);
  gd_has := mg_has
}.

(** The six maps are the projections of one map. *)
Record mg_ok (s : MemoryGhostdagStore) (m : gmap N GhostdagData) : Prop := mk_mg_ok {
  mo_score : mg_blue_score s = gd_blue_score <$> m;
  mo_work : mg_blue_work s = gd_blue_work <$> m;
  mo_parent : mg_selected_parent s = gd_selected_parent <$> m;
  mo_blues : mg_mergeset_blues s = gd_mergeset_blues <$> m;
  mo_reds : mg_mergeset_reds s = gd_mergeset_reds <$> m;
  mo_sizes : mg_blues_anticone_sizes s = gd_blues_anticone_sizes <$> m
}.

Lemma mg_ok_new : mg_ok mg_new ∅.
Proof. split; cbn; by rewrite fmap_empty. Qed.

Lemma mg_get_fmap {A} (f : GhostdagData -> A) (m : gmap N GhostdagData) h :
  mg_get (f <$> m) h = match m !! h with Some d => Ok (f d) | None => Err (KeyNotFound h) end.
Proof. unfold mg_get. rewrite lookup_fmap. by destruct (m !! h). Qed.

#[export] Instance mg_reads s m : mg_ok s m -> reads_map s m.
Proof.
  intros [H1 H2 H3 H4 H5 H6].
  assert (Hd : forall h, mg_get_data s h = match m !! h with Some d => Ok d | None => Err (KeyNotFound h) end).
  { intros h. unfold mg_get_data, mg_has. rewrite H1, H2, H3, H4, H5, H6, !lookup_fmap. destruct (m !! h) as [[]|]; done. }
  split; intros h; cbn [get_blue_score get_blue_work get_selected_parent get_mergeset_blues get_mergeset_reds
    get_blues_anticone_sizes get_data get_compact_data gd_has memory_ghostdag_store].
  - rewrite H1. apply mg_get_fmap.
  - rewrite H2. apply mg_get_fmap.
  - rewrite H3. apply mg_get_fmap.
  - rewrite H4. apply mg_get_fmap.
  - rewrite H5. apply mg_get_fmap.
  - rewrite H6. apply mg_get_fmap.
  - apply Hd.
  - rewrite Hd. by destruct (m !! h).
  - unfold mg_has. rewrite H1, lookup_fmap. f_equal. apply bool_decide_ext. by rewrite fmap_is_Some.
Qed.

(** Inserting new data, and deleting. *)
Lemma mg_insert_spec s m h d : mg_ok s m -> m !! h = None -> exists s', mg_insert s h d = Ok s' /\ mg_ok s' (<[h := d]> m).
Proof.
  intros Hok Hh. unfold mg_insert, mg_has. destruct Hok as [H1 H2 H3 H4 H5 H6]. rewrite H1, lookup_fmap, Hh. cbn.
  eexists. split; [done|]. split; cbn; rewrite ?H1, ?H2, ?H3, ?H4, ?H5, ?H6; by rewrite fmap_insert.
Qed.

Lemma mg_delete_spec s m h : mg_ok s m -> exists s', mg_delete s h = Ok s' /\ mg_ok s' (delete h m).
Proof.
  intros Hok. destruct Hok as [H1 H2 H3 H4 H5 H6]. eexists. split; [done|].
  split; cbn; rewrite ?H1, ?H2, ?H3, ?H4, ?H5, ?H6; by rewrite fmap_delete.
Qed.
