(* ===== verification/Difficulty.v ===== *)
(** * Difficulty adjustment, work and past median time

    Model of consensus/src/processes/difficulty.rs and past_median_time.rs.  A
    window is the list of its blocks in the iteration order of the heap; the
    headers are an interface; [position_minmax] and [minmax] of the itertools crate
    are parameters. *)

From Stdlib Require Import ZArith Lia Bool.
From stdpp Require Import base gmap numbers list sorting.
From S2P Require Import Prelude Uint GhostdagStore.

#[local] Open Scope Z_scope.

Abbreviation panics := (outcome Empty_set).

(** ** Headers *)

Record CompactHeaderData := mk_header_data {
  hd_daa_score : Z;
  hd_timestamp : Z;
  hd_bits : Z;
  hd_blue_score : Z
}.

Class HeaderStoreReader (H : Type) := {
  hs_daa_score : H -> N -> sresult Z;
  hs_timestamp : H -> N -> sresult Z;
  hs_bits : H -> N -> sresult Z;
  hs_compact : H -> N -> sresult CompactHeaderData
}.

(** ** Work *)

Definition calc_work {E} (bits : Z) : outcome E limbs :=
  let target := from_compact_target_bits bits in
  let! q := uint_div (uint_not target) (uint_add_u64 target 1) in
  let res := uint_add_u64 q 1 in
  unwrap_res (uint256_to_192 res).

Definition MAX_WORK_LEVEL : Z := 128.

Definition level_work {E} (level max_block_level : Z) : outcome E limbs :=
  if level =? 0 then Ok (uint_from_u64 3 0)
  else
    let! sum := uadd U32 level 256 in
    let! exp := usub sum max_block_level in
    Ok (uint_shl (uint_from_u64 3 1) (Z.min exp MAX_WORK_LEVEL)).

(** ** Windows *)

Record DifficultyBlock := mk_db {
  db_timestamp : Z;
  db_bits : Z;
  db_sortable_block : SortableBlock
}.

(** [Ord for DifficultyBlock]: by timestamp, then by the sortable block. *)
Definition difficulty_block_cmp (a b : DifficultyBlock) : comparison :=
  match db_timestamp a ?= db_timestamp b with
  | Eq => sortable_cmp (db_sortable_block a) (db_sortable_block b)
  | c => c
  end.

(** [Vec::swap_remove]: the last element takes the place of the removed one. *)
Definition swap_remove {E A} (i : nat) (l : list A) : outcome E (list A) :=
  match last l with
  | Some x => if (i <? length l)%nat then Ok (take (length l - 1) (<[i := x]> l)) else Panic
  | None => Panic
  end.

Inductive DifficultyError :=
| UnderMinWindowSizeAllowed (size min : nat)
| InsufficientWindowData (size : nat)
| EmptyTimestampRange.

Record SampledDifficultyManager := mk_sdm {
  dm_genesis_hash : N;
  dm_genesis_bits : Z;
  dm_max_difficulty_target : limbs; (* Uint320 *)
  dm_difficulty_window_size : Z;
  dm_min_difficulty_window_size : Z;
  dm_difficulty_sample_rate : Z;
  dm_target_time_per_block : Z
}.

(** [new]: checks the window sizes and widens the maximal target. *)
Definition sdm_new {E} (genesis_hash : N) (genesis_bits : Z) (max_difficulty_target : limbs)
    (window_size min_window_size sample_rate target_time : Z) : outcome E SampledDifficultyManager :=
  let! _ := rassert (min_window_size <=? window_size) in
  Ok (mk_sdm genesis_hash genesis_bits (uint256_to_320 max_difficulty_target) window_size min_window_size sample_rate target_time).

Section Manager.
Context {H : Type} `{HeaderStoreReader H} (headers : H).
(** itertools: the positions of a minimal and of a maximal element, and the
    minimal and maximal value. *)
Context (position_minmax : list DifficultyBlock -> option (nat * nat)).
Context (minmax : list Z -> option (Z * Z)).
Context (self : SampledDifficultyManager).

Definition difficulty_full_window_size : panics Z := mul64 (dm_difficulty_window_size self) (dm_difficulty_sample_rate self).

Definition lowest_daa_blue_score (gd : GhostdagData) : panics Z :=
  let! w := difficulty_full_window_size in
  usub (Z.max (gd_blue_score gd) w) w.

Definition internal_calc_daa_score (gd : GhostdagData) (mergeset_non_daa : gset N) : panics Z :=
  let! sp_daa_score := unwrap_res (hs_daa_score headers (gd_selected_parent gd)) in
  let! n := usub (Z.of_nat (mergeset_size gd)) (Z.of_nat (size mergeset_non_daa)) in
  add64 sp_daa_score n.

Definition calc_daa_score_and_mergeset_non_daa_blocks {S} `{GhostdagStoreReader S} (gd : GhostdagData) (store : S) :
    panics (Z * gset N) :=
  let! lowest := lowest_daa_blue_score gd in
  let! non_daa := foldM_out (fun acc h =>
      let! score := unwrap_res (get_blue_score store h) in
      Ok (if score <? lowest then {[ h ]} ∪ acc else acc)) ∅ (unordered_mergeset gd) in
  let! score := internal_calc_daa_score gd non_daa in
  Ok (score, non_daa).

Definition get_difficulty_blocks (window : list SortableBlock) : panics (list DifficultyBlock) :=
  mapM_out (fun item =>
    let! data := unwrap_res (hs_compact headers (sb_hash item)) in
    Ok (mk_db (hd_timestamp data) (hd_bits data) item)) window.

Definition calculate_difficulty_bits (window : list SortableBlock) (gd : GhostdagData) : panics Z :=
  let! blocks := get_difficulty_blocks window in
  if Z.of_nat (length blocks) <? dm_min_difficulty_window_size self then
    let selected_parent := gd_selected_parent gd in
    if (selected_parent =? dm_genesis_hash self)%N then Ok (dm_genesis_bits self)
    else unwrap_res (hs_bits headers selected_parent)
  else
    let! ' (min_ts_index, max_ts_index) := unwrap (position_minmax blocks) in
    let! min_block := unwrap (blocks !! min_ts_index) in
    let! max_block := unwrap (blocks !! max_ts_index) in
    let min_ts := db_timestamp min_block in
    let max_ts := db_timestamp max_block in
    let! blocks := swap_remove min_ts_index blocks in
    let difficulty_blocks_len := Z.of_nat (length blocks) in
    let targets_sum := uint_sum 5 (List.map (fun b => uint256_to_320 (from_compact_target_bits (db_bits b))) blocks) in
    let! average_target := uint_div_u64 targets_sum difficulty_blocks_len in
    let! elapsed := usub max_ts min_ts in
    let measured_duration := Z.max elapsed 1 in
    let! rate := mul64 (dm_target_time_per_block self) (dm_difficulty_sample_rate self) in
    let! expected_duration := mul64 rate difficulty_blocks_len in
    let! new_target := uint_div_u64 (uint_mul_u64 average_target measured_duration) expected_duration in
    let! target := unwrap_res (uint320_to_256 (uint_min new_target (dm_max_difficulty_target self))) in
    Ok (compact_target_bits target).

Definition MIN_WINDOW_SIZE : nat := 1000.

(** Blue works are [Uint192]s here, as the subtraction and division are theirs. *)
Definition estimate_network_hashes_per_second (window : list SortableBlock) : outcome DifficultyError Z :=
  let window_size := length window in
  if (window_size <? MIN_WINDOW_SIZE)%nat then Err (UnderMinWindowSizeAllowed window_size MIN_WINDOW_SIZE)
  else
    let! blocks := unwrap_res (get_difficulty_blocks window) in
    let! ' (min_ts, max_ts) := unwrap (minmax (List.map db_timestamp blocks)) in
    if min_ts =? max_ts then Err EmptyTimestampRange
    else
      let! elapsed := usub max_ts min_ts in
      let window_duration := elapsed / 1000 in
      if window_duration =? 0 then Ok 0
      else
        let! ' (min_work, max_work) := unwrap (minmax (List.map (fun b => sb_blue_work (db_sortable_block b)) blocks)) in
        Ok ((((max_work - min_work) mod U192) / window_duration) mod U64).

(** ** Past median time *)

Definition AVERAGE_FRAME_SIZE : nat := 11.

Definition calc_past_median_time (window : list SortableBlock) (selected_parent : N) : panics Z :=
  if (length window =? 0)%nat then unwrap_res (hs_timestamp headers selected_parent)
  else
    let! timestamps := mapM_out (fun item => unwrap_res (hs_timestamp headers (sb_hash item))) window in
    let sorted := merge_sort Z.le timestamps in
    let avg_frame_size := Nat.min (length sorted) AVERAGE_FRAME_SIZE in
    let ending_index := ((length sorted + avg_frame_size + 1) / 2)%nat in
    let! frame := slice (ending_index - avg_frame_size) ending_index sorted in
    let! sum := sum64 frame in
    let! rounded := add64 sum (Z.of_nat avg_frame_size / 2) in
    Ok (rounded / Z.of_nat avg_frame_size).
End Manager.
