(* ===== verification/DifficultyProps.v ===== *)
(** * Difficulty adjustment, work and past median time: properties *)

From Stdlib Require Import ZArith Lia Bool.
From stdpp Require Import base gmap numbers list sorting.
From S2P Require Import Prelude Uint UintLemmas UintProps GhostdagStore Difficulty.

#[local] Open Scope Z_scope.

(** ** Work *)

Lemma wf_limbs_uint_not l : wf_limbs l -> wf_limbs (uint_not l) /\ length (uint_not l) = length l /\
  val (uint_not l) = modulus (length l) - 1 - val l.
Proof.
  unfold uint_not. induction 1 as [|w l Hw Hl (IH1 & IH2 & IH3)]; [cbn; split_and!; [by constructor|done..]|].
  cbn [List.map length val]. rewrite modulus_S. unfold in_u64 in *. split_and!; [constructor; [unfold in_u64; lia|done]|lia|lia].
Qed.

(** A decoded target is a 23-bit mantissa shifted within 256 bits. *)
Lemma from_compact_form bits :
  0 <= bits < U32 ->
  wf_limbs (from_compact_target_bits bits) /\ length (from_compact_target_bits bits) = 4%nat /\
  exists m e, 0 <= m < 2 ^ 23 /\ 0 <= e < 256 /\ val (from_compact_target_bits bits) = (m * 2 ^ e) mod modulus 4.
Proof.
  intros Hb. unfold from_compact_target_bits. assert (Hsh : 0 <= Z.shiftr bits 24) by (apply Z.shiftr_nonneg; lia).
  assert (Hland : 0 <= Z.land bits 0xFFFFFF) by (apply Z.land_nonneg; lia).
  assert (Hgen : forall mant expt, 0 <= mant -> 0 <= expt ->
    let l := if 0x7FFFFF <? mant then uint_zero 4 else uint_shl (uint_from_u64 4 mant) expt in
    wf_limbs l /\ length l = 4%nat /\
    exists m e, 0 <= m < 2 ^ 23 /\ 0 <= e < 256 /\ val l = (m * 2 ^ e) mod modulus 4).
  { intros mant expt Hm He. cbv zeta. destruct (Z.ltb_spec 0x7FFFFF mant).
    - split_and!; [apply wf_zero|apply length_zero|]. exists 0, 0. rewrite val_zero. done.
    - destruct (overflowing_shl_spec (uint_from_u64 4 mant) expt) as (Hw & Hl & Hv & _);
        [apply wf_from_u64; unfold in_u64; lia|rewrite length_from_u64; lia|lia|].
      rewrite length_from_u64 in Hl, Hv. rewrite val_from_u64 in Hv by lia. split_and!; [done..|].
      exists mant, (expt mod 256). pose proof (Z.mod_pos_bound expt 256). split_and!; try lia. exact Hv. }
  destruct (Z.leb_spec (Z.shiftr bits 24) 3); apply Hgen; try lia.
  rewrite Z.shiftr_div_pow2 by lia. apply Z.div_pos; [lia|apply Z.pow_pos_nonneg; lia].
Qed.

Lemma from_compact_not_max bits : 0 <= bits < U32 -> val (from_compact_target_bits bits) <> modulus 4 - 1.
Proof.
  intros Hb. destruct (from_compact_form bits Hb) as (_ & _ & m & e & Hm & He & ->). intros Heq.
  destruct (Z.eq_dec e 0) as [->|Hne].
  - rewrite Z.mul_1_r, Z.mod_small in Heq by (unfold modulus; lia). unfold modulus in Heq. lia.
  - assert (Hodd : Z.odd ((m * 2 ^ e) mod modulus 4) = false).
    { rewrite <-Z.bit0_odd. change (modulus 4) with (2 ^ 256). rewrite Z.mod_pow2_bits_low, Z.mul_pow2_bits by lia.
      apply Z.testbit_neg_r. lia. }
    rewrite Heq in Hodd. discriminate.
Qed.

(** Conversion to 192 bits succeeds exactly on values below 2^192. *)
Lemma uint256_to_192_spec l : wf_limbs l -> length l = 4%nat ->
  (val l < U192 -> exists r, uint256_to_192 l = Ok r /\ wf_limbs r /\ length r = 3%nat /\ val r = val l) /\
  (U192 <= val l -> uint256_to_192 l = Err mk_TryFromIntError).
Proof.
  intros Hl Hlen. assert (Hv : val l = val (take 3 l) + U192 * limb l 3).
  { rewrite (val_take_drop 3 l) by lia. f_equal. change (modulus 3) with U192. f_equal.
    destruct l as [|? [|? [|? [|? [|? ?]]]]]; try done. cbn. lia. }
  pose proof (val_bound _ (take_wf 3 _ Hl)) as Hb. rewrite length_take, Nat.min_l in Hb by lia. change (modulus 3) with U192 in Hb.
  pose proof (limb_wf l 3 Hl) as Hw. unfold in_u64 in Hw. unfold uint256_to_192.
  destruct (Z.eqb_spec (limb l 3) 0) as [Hz|Hnz]; cbn [negb].
  - rewrite Hz in Hv. split; [|lia]. intros _. exists (take 3 l).
    split_and!; [done|by apply take_wf|rewrite length_take; lia|lia].
  - split; [|done]. unfold U192 in *. nia.
Qed.

Lemma calc_work_spec {E} bits :
  0 <= bits < U32 ->
  let t := val (from_compact_target_bits bits) in
  (U64 <= t -> exists w, @calc_work E bits = Ok w /\ wf_limbs w /\ length w = 3%nat /\ val w = 2 ^ 256 / (t + 1)) /\
  (0 < t < U64 -> @calc_work E bits = Panic) /\
  (t = 0 -> exists w, @calc_work E bits = Ok w /\ val w = 0).
Proof.
  intros Hbits. cbv zeta. destruct (from_compact_form bits Hbits) as (Hw & Hlen & _).
  pose proof (from_compact_not_max bits Hbits) as Hnmax. unfold calc_work. cbv zeta.
  set (t := from_compact_target_bits bits) in *. pose proof (val_bound _ Hw) as Hb. rewrite Hlen in Hb.
  destruct (wf_limbs_uint_not t Hw) as (Hnw & Hnl & Hnv). rewrite Hlen in Hnl, Hnv.
  destruct (overflowing_add_u64_spec t 1 Hw) as (Haw & Hal & Hav & _); [lia|unfold in_u64; lia|]. rewrite Hlen in Hal, Hav.
  change (modulus 4) with (2 ^ 256) in *. rewrite (Z.mod_small (val t + 1)) in Hav by lia. unfold uint_div.
  destruct (@div_rem_spec E (uint_not t) (uint_add_u64 t 1)) as (q & r & -> & Hqw & _ & Hql & _ & Hqv & _);
    [done|done|unfold uint_add_u64; lia|unfold uint_add_u64; lia|]. cbn [obind fst].
  unfold uint_add_u64 in Hqv. rewrite Hnv, Hav in Hqv.
  assert (Hq1 : val q + 1 = 2 ^ 256 / (val t + 1)).
  { rewrite Hqv. replace (2 ^ 256) with (2 ^ 256 - 1 - val t + 1 * (val t + 1)) at 2 by lia. rewrite Z.div_add by lia. done. }
  destruct (overflowing_add_u64_spec q 1 Hqw) as (Hrw & Hrl & Hrv & _); [lia|unfold in_u64; lia|].
  rewrite Hql, Hnl in Hrl, Hrv. change (modulus 4) with (2 ^ 256) in Hrv. rewrite Hq1 in Hrv.
  destruct (uint256_to_192_spec (uint_add_u64 q 1) Hrw Hrl) as [Hfit Hno]. unfold uint_add_u64 in Hfit, Hno. rewrite Hrv in Hfit, Hno.
  unfold uint_add_u64. split_and!.
  - intros Ht. assert (Hlt : 2 ^ 256 / (val t + 1) < U192).
    { apply Z.div_lt_upper_bound; [lia|]. unfold U192. change (2 ^ 256) with (U64 * 2 ^ 192). nia. }
    assert (0 <= 2 ^ 256 / (val t + 1)) by (apply Z.div_pos; lia).
    rewrite Z.mod_small in Hfit by (unfold U192 in *; lia). destruct (Hfit Hlt) as (w & -> & ? & ? & ?). by exists w.
  - intros Ht. assert (U192 <= 2 ^ 256 / (val t + 1)).
    { apply Z.div_le_lower_bound; [lia|]. unfold U192. change (2 ^ 256) with (U64 * 2 ^ 192). nia. }
    assert (2 ^ 256 / (val t + 1) < 2 ^ 256) by (apply Z.div_lt; lia).
    rewrite Z.mod_small in Hno by (unfold U192 in *; lia). rewrite Hno by done. done.
  - intros Ht. rewrite Ht in Hfit. change ((2 ^ 256 / (0 + 1)) mod 2 ^ 256) with 0 in Hfit.
    destruct (Hfit eq_refl) as (w & -> & _ & _ & ?). by exists w.
Qed.

(** ** The average target *)

Lemma uint_sum_from n acc l :
  wf_limbs acc -> length acc = n -> Forall (fun x => wf_limbs x /\ length x = n) l ->
  val acc + zsum (List.map val l) < modulus n ->
  wf_limbs (foldl uint_add acc l) /\ length (foldl uint_add acc l) = n /\
  val (foldl uint_add acc l) = val acc + zsum (List.map val l).
Proof.
  intros Hacc Hlen Hl. revert acc Hacc Hlen. induction Hl as [|x l [Hx Hxl] Hl IH]; intros acc Hacc Hlen Hlt; cbn in *.
  { split_and!; [done..|lia]. }
  assert (Hnn : 0 <= zsum (List.map val l)).
  { apply zsum_nonneg, Forall_map. eapply Forall_impl; [exact Hl|]. intros y [Hy _]. by apply val_bound. }
  destruct (overflowing_add_spec acc x Hacc Hx) as (Hw & Hwl & Hv & _); [congruence|].
  pose proof (val_bound _ Hacc). pose proof (val_bound _ Hx).
  rewrite Z.mod_small in Hv by (rewrite Hlen; lia). destruct (IH (uint_add acc x)) as (? & ? & Hv'); [done|unfold uint_add; congruence|unfold uint_add; lia|].
  split_and!; [done..|]. rewrite Hv'. unfold uint_add. lia.
Qed.

Lemma uint_sum_spec n l :
  Forall (fun x => wf_limbs x /\ length x = n) l -> zsum (List.map val l) < modulus n ->
  wf_limbs (uint_sum n l) /\ length (uint_sum n l) = n /\ val (uint_sum n l) = zsum (List.map val l).
Proof.
  intros Hl Hlt. destruct Hl as [|x l [Hx Hxl] Hl]; cbn [uint_sum].
  - split_and!; [apply wf_zero|apply length_zero|apply val_zero].
  - apply uint_sum_from; done.
Qed.

(** [swap_remove] takes out one element. *)
Lemma swap_remove_spec {E A} i (l : list A) x :
  l !! i = Some x -> exists l', @swap_remove E A i l = Ok l' /\ l ≡ₚ x :: l'.
Proof.
  intros Hi. pose proof (lookup_lt_Some _ _ _ Hi) as Hlt. unfold swap_remove.
  destruct (last l) as [y|] eqn:Hlast; [|apply last_None in Hlast; by subst].
  apply last_Some in Hlast as [l0 ->]. rewrite length_app in *. cbn [length] in *.
  rewrite (proj2 (Nat.ltb_lt _ _)) by lia.
  eexists. split; [done|]. replace (length l0 + 1 - 1)%nat with (length l0) by lia.
  destruct (decide (i = length l0)) as [->|Hne].
  - rewrite list_lookup_middle in Hi by done. injection Hi as ->.
    rewrite insert_app_r_alt, Nat.sub_diag by done. cbn. rewrite take_app_length. symmetry. apply Permutation_cons_append.
  - rewrite lookup_app_l in Hi by lia. rewrite insert_app_l by lia. rewrite take_app_length' by (rewrite length_insert; done).
    pose proof (insert_take_drop l0 i y ltac:(lia)) as Hins. rewrite Hins.
    rewrite <-(take_drop_middle l0 i x Hi) at 1. rewrite <-app_assoc. cbn.
    etrans; [symmetry; apply Permutation_middle|]. apply perm_skip, Permutation_app_head. symmetry. apply Permutation_cons_append.
Qed.

Definition block_target (b : DifficultyBlock) : Z := val (from_compact_target_bits (db_bits b)).

Lemma uint256_to_320_spec l : wf_limbs l -> length l = 4%nat ->
  wf_limbs (uint256_to_320 l) /\ length (uint256_to_320 l) = 5%nat /\ val (uint256_to_320 l) = val l.
Proof.
  intros Hl Hlen. unfold uint256_to_320. split_and!.
  - apply Forall_app. split; [done|]. constructor; [unfold in_u64; lia|constructor].
  - rewrite length_app, Hlen. done.
  - rewrite val_app. cbn. lia.
Qed.

Lemma block_target_bound b : 0 <= db_bits b < U32 -> 0 <= block_target b < 2 ^ 256.
Proof.
  intros Hb. unfold block_target. destruct (from_compact_form _ Hb) as (Hw & Hl & _).
  pose proof (val_bound _ Hw) as Hv. by rewrite Hl in Hv.
Qed.

Lemma targets_sum_spec (blocks : list DifficultyBlock) :
  Forall (fun b => 0 <= db_bits b < U32) blocks -> Z.of_nat (length blocks) < U64 ->
  let l := List.map (fun b => uint256_to_320 (from_compact_target_bits (db_bits b))) blocks in
  wf_limbs (uint_sum 5 l) /\ length (uint_sum 5 l) = 5%nat /\ val (uint_sum 5 l) = zsum (List.map block_target blocks) /\
  0 <= zsum (List.map block_target blocks) <= Z.of_nat (length blocks) * (2 ^ 256 - 1).
Proof.
  intros Hb Hlen. cbv zeta.
  assert (Hbound : 0 <= zsum (List.map block_target blocks) <= Z.of_nat (length blocks) * (2 ^ 256 - 1)).
  { clear Hlen. induction Hb as [|b blocks Hb1 Hb IH]; [cbn; lia|]. pose proof (block_target_bound b Hb1).
    cbn [List.map zsum length]. lia. }
  assert (Hmap : List.map val (List.map (fun b => uint256_to_320 (from_compact_target_bits (db_bits b))) blocks)
    = List.map block_target blocks).
  { rewrite List.map_map. clear Hlen Hbound. induction Hb as [|b blocks Hb1 Hb IH]; [done|]. cbn. f_equal; [|done].
    destruct (from_compact_form _ Hb1) as (Hw & Hl & _). by apply uint256_to_320_spec. }
  rewrite <-Hmap at 1. assert (Hlt : zsum (List.map block_target blocks) < modulus 5).
  { change (modulus 5) with (U64 * 2 ^ 256). nia. }
  split_and!; try apply uint_sum_spec; try (by rewrite Hmap); try lia;
    (apply Forall_map; eapply Forall_impl; [exact Hb|]; intros b Hb1; destruct (from_compact_form _ Hb1) as (Hw & Hl & _);
     destruct (uint256_to_320_spec _ Hw Hl) as (? & ? & _); done).
Qed.

Lemma uint320_to_256_spec l : wf_limbs l -> length l = 5%nat -> val l < 2 ^ 256 ->
  exists r, uint320_to_256 l = Ok r /\ wf_limbs r /\ length r = 4%nat /\ val r = val l.
Proof.
  intros Hl Hlen Hlt. assert (Hv : val l = val (take 4 l) + 2 ^ 256 * limb l 4).
  { rewrite (val_take_drop 4 l) by lia. f_equal. change (modulus 4) with (2 ^ 256). f_equal.
    destruct l as [|? [|? [|? [|? [|? [|? ?]]]]]]; try done. cbn. lia. }
  pose proof (val_bound _ (take_wf 4 _ Hl)) as Hb. pose proof (limb_wf l 4 Hl) as Hw. unfold in_u64 in Hw.
  unfold uint320_to_256. destruct (Z.eqb_spec (limb l 4) 0) as [Hz|Hnz]; cbn [negb]; [|nia]. rewrite Hz in Hv.
  exists (take 4 l). split_and!; [done|by apply take_wf|rewrite length_take; lia|lia].
Qed.

Lemma uint_min_spec a b : wf_limbs a -> wf_limbs b -> length a = length b ->
  wf_limbs (uint_min a b) /\ length (uint_min a b) = length a /\ val (uint_min a b) = Z.min (val a) (val b).
Proof.
  intros Ha Hb Hlen. unfold uint_min. rewrite uint_cmp_spec by done.
  destruct (Z.compare_spec (val a) (val b)); split_and!; done || lia.
Qed.

Lemma uint_div_u64_spec {E} l y : wf_limbs l -> 0 < y < U64 ->
  exists q, @uint_div_u64 E l y = Ok q /\ wf_limbs q /\ length q = length l /\ val q = val l / y.
Proof.
  intros Hl Hy. destruct (div_u64_loop_spec l y Hl Hy) as (? & ? & ? & _). exists (div_u64_loop l y).1.
  unfold uint_div_u64, div_rem_u64. destruct (Z.eqb_spec y 0); [lia|]. done.
Qed.

Lemma uint_mul_u64_spec l y : wf_limbs l -> in_u64 y -> val l * y < modulus (length l) ->
  wf_limbs (uint_mul_u64 l y) /\ length (uint_mul_u64 l y) = length l /\ val (uint_mul_u64 l y) = val l * y.
Proof.
  intros Hl Hy Hlt. destruct (carrying_mul_u64_spec l y Hl Hy) as (Hw & Hlen & Hv & _). unfold uint_mul_u64, overflowing_mul_u64.
  destruct (carrying_mul_u64 l y) as [r c]. cbn [fst] in *. pose proof (val_bound _ Hl). unfold in_u64 in Hy.
  rewrite Z.mod_small in Hv by nia. done.
Qed.

(** ** The new difficulty *)

(** itertools' [position_minmax] on a list: the positions of a least and of a
    greatest element. *)
Definition minmax_at (blocks : list DifficultyBlock) (r : option (nat * nat)) (mn mx : DifficultyBlock) : Prop :=
  exists i j, r = Some (i, j) /\ blocks !! i = Some mn /\ blocks !! j = Some mx /\
    (forall b, b ∈ blocks -> difficulty_block_cmp mn b <> Gt) /\ (forall b, b ∈ blocks -> difficulty_block_cmp b mx <> Gt).

(** The mathematical target: the average over the blocks but the earliest,
    scaled by measured over expected duration, and capped. *)
Definition adjusted_target (blocks : list DifficultyBlock) (mn mx : DifficultyBlock) (expected max_target : Z) : Z :=
  Z.min ((zsum (List.map block_target blocks) - block_target mn) / (Z.of_nat (length blocks) - 1)
           * Z.max (db_timestamp mx - db_timestamp mn) 1 / expected) max_target.

Lemma cmp_timestamp a b : difficulty_block_cmp a b <> Gt -> db_timestamp a <= db_timestamp b.
Proof.
  unfold difficulty_block_cmp. destruct (Z.compare_spec (db_timestamp a) (db_timestamp b)); [lia|lia|done].
Qed.

Section DifficultyBits.
Context {H : Type} `{HeaderStoreReader H} (headers : H) (pm : list DifficultyBlock -> option (nat * nat)).
Context (self : SampledDifficultyManager) (window : list SortableBlock) (gd : GhostdagData).
Context (blocks : list DifficultyBlock) (mn mx : DifficultyBlock).
Hypothesis Hblocks : get_difficulty_blocks headers window = Ok blocks.
Hypothesis Hranges : Forall (fun b => 0 <= db_bits b < U32 /\ 0 <= db_timestamp b < U64) blocks.
Hypothesis Hsize : dm_min_difficulty_window_size self <= Z.of_nat (length blocks).
Hypothesis Hlen : 2 <= Z.of_nat (length blocks) < U64.
Hypothesis Hminmax : minmax_at blocks (pm blocks) mn mx.
Hypothesis Hmax : wf_limbs (dm_max_difficulty_target self) /\ length (dm_max_difficulty_target self) = 5%nat /\
  val (dm_max_difficulty_target self) < 2 ^ 256.
Let expected := dm_target_time_per_block self * dm_difficulty_sample_rate self * (Z.of_nat (length blocks) - 1).
Hypothesis Hrate : 0 < dm_target_time_per_block self /\ 0 < dm_difficulty_sample_rate self.
Hypothesis Hexp : expected < U64.

Lemma calculate_difficulty_bits_spec :
  exists T, calculate_difficulty_bits headers pm self window gd = Ok (compact_target_bits T) /\
    wf_limbs T /\ length T = 4%nat /\
    val T = adjusted_target blocks mn mx expected (val (dm_max_difficulty_target self)).
Proof using All.
  unfold calculate_difficulty_bits. rewrite Hblocks. cbn [obind].
  destruct (Z.ltb_spec (Z.of_nat (length blocks)) (dm_min_difficulty_window_size self)); [lia|].
  destruct Hminmax as (i & j & -> & Hi & Hj & Hleast & Hgreatest). cbn [unwrap obind]. rewrite Hi, Hj. cbn [unwrap obind]. cbv zeta.
  destruct (@swap_remove_spec Empty_set _ i blocks mn Hi) as (rest & -> & Hperm). cbn [obind].
  pose proof (Permutation_length Hperm) as Hpl. cbn [length] in Hpl.
  assert (Hbits : Forall (fun b => 0 <= db_bits b < U32) rest).
  { assert (Hall : Forall (fun b => 0 <= db_bits b < U32) (mn :: rest))
      by (rewrite <-Hperm; eapply Forall_impl; [exact Hranges|]; by intros b [? _]). by apply Forall_cons in Hall as [_ ?]. }
  destruct (targets_sum_spec rest Hbits) as (Hsw & Hsl & Hsv & Hsb); [lia|].
  destruct (@uint_div_u64_spec Empty_set _ (Z.of_nat (length rest)) Hsw) as (avg & -> & Haw & Hal & Hav); [lia|]. cbn [obind].
  assert (Hts : db_timestamp mn <= db_timestamp mx) by (apply cmp_timestamp, Hleast, (list_elem_of_lookup_2 _ _ _ Hj)).
  rewrite usub_le by done. cbn [obind].
  assert (Hn : Z.of_nat (length rest) = Z.of_nat (length blocks) - 1) by lia.
  assert (Htr : dm_target_time_per_block self * dm_difficulty_sample_rate self < U64) by (subst expected; nia).
  rewrite umul_lt by done. cbn [obind]. rewrite Hn. rewrite umul_lt by exact Hexp. cbn [obind]. fold expected.
  assert (Hdur : in_u64 (Z.max (db_timestamp mx - db_timestamp mn) 1)).
  { rewrite Forall_forall in Hranges. destruct (Hranges mn) as [_ ?]; [exact (list_elem_of_lookup_2 _ _ _ Hi)|].
    destruct (Hranges mx) as [_ ?]; [exact (list_elem_of_lookup_2 _ _ _ Hj)|]. unfold in_u64. lia. }
  assert (Hsum : zsum (List.map block_target rest) = zsum (List.map block_target blocks) - block_target mn).
  { rewrite (zsum_perm (List.map block_target blocks) (List.map block_target (mn :: rest))); [cbn; lia|]. by apply Permutation_map. }
  assert (Havb : 0 <= val avg < 2 ^ 256).
  { rewrite Hav, Hsv. split; [apply Z.div_pos; lia|]. apply Z.div_lt_upper_bound; [lia|]. nia. }
  destruct (uint_mul_u64_spec avg (Z.max (db_timestamp mx - db_timestamp mn) 1) Haw Hdur) as (Hmw & Hml & Hmv).
  { rewrite Hal, Hsl. change (modulus 5) with (U64 * 2 ^ 256). unfold in_u64 in Hdur. nia. }
  assert (He : 0 < expected) by (subst expected; nia).
  destruct (@uint_div_u64_spec Empty_set _ expected Hmw) as (nt & -> & Hnw & Hnl & Hnv); [lia|]. cbn [obind].
  destruct Hmax as (Hmxw & Hmxl & Hmxv).
  destruct (uint_min_spec nt (dm_max_difficulty_target self) Hnw Hmxw) as (Huw & Hul & Huv); [lia|].
  destruct (uint320_to_256_spec _ Huw) as (T & -> & HTw & HTl & HTv); [lia|lia|]. cbn [unwrap_res obind].
  exists T. split_and!; [done..|]. rewrite HTv, Huv. unfold adjusted_target. rewrite Hnv, Hmv, Hav, Hsv, Hsum, Hn. done.
Qed.
End DifficultyBits.

(** ** Past median time *)

Lemma merge_sort_Z_perm l1 l2 : l1 ≡ₚ l2 -> merge_sort Z.le l1 = merge_sort Z.le l2.
Proof.
  intros Hp. apply (StronglySorted_unique_strong Z.le).
  - intros x y _ _ ? ?. lia.
  - apply (StronglySorted_merge_sort Z.le).
  - apply (StronglySorted_merge_sort Z.le).
  - by rewrite !merge_sort_Permutation.
Qed.

Lemma zsum_bounds l lo hi :
  Forall (fun x => lo <= x <= hi) l -> Z.of_nat (length l) * lo <= zsum l <= Z.of_nat (length l) * hi.
Proof. induction 1; cbn [length zsum]; lia. Qed.

(** The central frame of a sorted list: its 11 middle elements, or all of them. *)
Definition central_frame (l : list Z) : list Z :=
  let a := Nat.min (length l) AVERAGE_FRAME_SIZE in take a (drop ((length l - a + 1) / 2) (merge_sort Z.le l)).

Lemma past_median_spec {H : Type} `{HeaderStoreReader H} (headers : H) window sp (ts : SortableBlock -> Z) :
  window <> [] -> (forall b, b ∈ window -> hs_timestamp headers (sb_hash b) = Ok (ts b) /\ 0 <= ts b <= 2 ^ 60) ->
  let frame := central_frame (List.map ts window) in
  let a := Z.of_nat (length frame) in
  calc_past_median_time headers window sp = Ok ((zsum frame + a / 2) / a) /\
  length frame = Nat.min (length window) AVERAGE_FRAME_SIZE /\ Forall (fun t => t ∈ List.map ts window) frame.
Proof.
  intros Hne Hts. cbv zeta. unfold calc_past_median_time. destruct window as [|b0 w0]; [done|]. set (window := b0 :: w0) in *.
  change (length window =? 0)%nat with false. cbv iota.
  rewrite (mapM_out_Ok _ ts) by (intros x Hx; destruct (Hts x Hx) as [-> _]; done). cbn [obind]. cbv zeta.
  set (l := List.map ts window) in *. assert (Hll : length l = length window) by apply length_map.
  assert (Hpos : (0 < length l)%nat) by (rewrite Hll; cbn; lia).
  pose proof (merge_sort_Permutation Z.le l) as Hperm. pose proof (Permutation_length Hperm) as Hsl. rewrite Hsl.
  set (a := Nat.min (length l) AVERAGE_FRAME_SIZE).
  assert (Ha : (0 < a <= length l /\ a <= 11)%nat) by (subst a; unfold AVERAGE_FRAME_SIZE; lia).
  assert (He : (((length l + a + 1) / 2) - a = (length l - a + 1) / 2)%nat).
  { replace (length l + a + 1)%nat with (length l - a + 1 + a * 2)%nat by lia. rewrite Nat.div_add by lia. lia. }
  assert (Hbound : ((length l + a + 1) / 2 < length l + 1)%nat) by (apply Nat.Div0.div_lt_upper_bound; lia).
  assert (Hge : (a <= (length l + a + 1) / 2)%nat) by (apply Nat.div_le_lower_bound; lia).
  assert (Hframe : central_frame l = take a (drop ((length l - a + 1) / 2) (merge_sort Z.le l))) by done.
  assert (Hflen : length (central_frame l) = a) by (rewrite Hframe, length_take, length_drop, Hsl; lia).
  assert (Hin : Forall (fun t => t ∈ l) (central_frame l)).
  { rewrite Hframe. apply Forall_take, Forall_drop, Forall_forall. intros t Ht. by rewrite Hperm in Ht. }
  unfold slice. rewrite Hsl, (proj2 (Nat.leb_le _ _)) by lia. rewrite (proj2 (Nat.leb_le _ _)) by lia. cbn [andb obind].
  replace ((length l + a + 1) / 2 - ((length l + a + 1) / 2 - a))%nat with a by lia. rewrite He, <-Hframe.
  assert (Hrange : Forall (fun t => 0 <= t <= 2 ^ 60) (central_frame l)).
  { eapply Forall_impl; [exact Hin|]. intros t Ht. cbv beta in Ht. apply list_elem_of_In, in_map_iff in Ht as (b & <- & Hb).
    apply Hts. by apply list_elem_of_In. }
  pose proof (zsum_bounds _ _ _ Hrange) as Hsum. rewrite Hflen in *.
  rewrite sum64_spec; [|eapply Forall_impl; [exact Hrange|]; cbv beta; lia|lia]. cbn [obind].
  assert (0 <= Z.of_nat a / 2 <= 11) by (split; [apply Z.div_pos; lia|apply Z.div_le_upper_bound; lia]).
  rewrite uadd_lt by lia. cbn [obind]. split_and!; [done|subst a; lia|done].
Qed.

Lemma average_bounds s a lo hi : 0 < a -> a * lo <= s <= a * hi -> lo <= (s + a / 2) / a <= hi.
Proof.
  intros Ha Hs. assert (Hh : 0 <= a / 2 < a) by (split; [apply Z.div_pos; lia|apply Z.div_lt; lia || lia]).
  split; [apply Z.div_le_lower_bound; lia|]. apply Z.lt_succ_r, Z.div_lt_upper_bound; lia.
Qed.

(** ** DAA score *)

Lemma non_daa_spec {E S} `{GhostdagStoreReader S} (store : S) (score : N -> Z) lowest l (acc : gset N) :
  (forall h, h ∈ l -> get_blue_score store h = Ok (score h)) ->
  @foldM_out E _ _ (fun acc h => let! s := unwrap_res (get_blue_score store h) in
      Ok (if s <? lowest then {[ h ]} ∪ acc else acc)) acc l =
    Ok (list_to_set (filter (fun h => score h < lowest) l) ∪ acc).
Proof.
  revert acc. induction l as [|h l IH]; intros acc Hs; cbn [foldM_out].
  { f_equal. cbn. by rewrite union_empty_l_L. }
  rewrite Hs by apply list_elem_of_here. cbn [unwrap_res obind].
  rewrite IH by (intros; apply Hs; by apply list_elem_of_further). rewrite filter_cons. f_equal.
  destruct (Z.ltb_spec (score h) lowest); [rewrite decide_True by done|rewrite decide_False by lia]; set_solver.
Qed.

(** ** Properties *)

(** The work of a block is the expected number of hashes to meet its target:
    [calc_work] is 2^256 / (target + 1) for every target of at least 64 bits.
    Smaller targets panic, except the zero target, whose work wraps to zero. *)
Theorem calc_work_correct (bits : Z) :
  0 <= bits < U32 ->
  let t := val (from_compact_target_bits bits) in
  (U64 <= t -> exists w, @calc_work Empty_set bits = Ok w /\ val w = 2 ^ 256 / (t + 1)) /\
  (0 < t < U64 -> @calc_work Empty_set bits = Panic) /\
  (t = 0 -> exists w, @calc_work Empty_set bits = Ok w /\ val w = 0).
Proof.
  intros Hb. cbv zeta. destruct (@calc_work_spec Empty_set bits Hb) as (H1 & H2 & H3). split_and!; [|done..].
  intros Ht. destruct (H1 Ht) as (w & ? & _ & _ & ?). eauto.
Qed.

(** C34: The difficulty adjustment computes, without overflow in its 320-bit
    arithmetic, the compact form of the average target of the window without its
    earliest block, scaled by measured over expected duration, capped at the maximum. *)
Theorem difficulty_bits_correct {H : Type} `{HeaderStoreReader H} (headers : H)
    (pm : list DifficultyBlock -> option (nat * nat)) (self : SampledDifficultyManager) (window : list SortableBlock)
    (gd : GhostdagData) (blocks : list DifficultyBlock) (mn mx : DifficultyBlock) :
  let expected := dm_target_time_per_block self * dm_difficulty_sample_rate self * (Z.of_nat (length blocks) - 1) in
  get_difficulty_blocks headers window = Ok blocks ->
  Forall (fun b => 0 <= db_bits b < U32 /\ 0 <= db_timestamp b < U64) blocks ->
  dm_min_difficulty_window_size self <= Z.of_nat (length blocks) -> 2 <= Z.of_nat (length blocks) < U64 ->
  minmax_at blocks (pm blocks) mn mx ->
  wf_limbs (dm_max_difficulty_target self) /\ length (dm_max_difficulty_target self) = 5%nat /\
    val (dm_max_difficulty_target self) < 2 ^ 256 ->
  0 < dm_target_time_per_block self /\ 0 < dm_difficulty_sample_rate self -> expected < U64 ->
  exists T, calculate_difficulty_bits headers pm self window gd = Ok (compact_target_bits T) /\
    wf_limbs T /\ length T = 4%nat /\
    val T = adjusted_target blocks mn mx expected (val (dm_max_difficulty_target self)).
Proof. cbv zeta. intros. by apply calculate_difficulty_bits_spec. Qed.

(** The past median time is the rounded average of the 11 central timestamps
    of the window, lies within the range of the window's timestamps, and does not
    depend on the order in which the heap yields its blocks. *)
Theorem past_median_time_correct {H : Type} `{HeaderStoreReader H} (headers : H) (window : list SortableBlock) (sp : N)
    (ts : SortableBlock -> Z) :
  window <> [] -> (forall b, b ∈ window -> hs_timestamp headers (sb_hash b) = Ok (ts b) /\ 0 <= ts b <= 2 ^ 60) ->
  exists t, calc_past_median_time headers window sp = Ok t /\
    (let frame := central_frame (List.map ts window) in
     t = (zsum frame + Z.of_nat (length frame) / 2) / Z.of_nat (length frame)) /\
    (forall lo hi, (forall b, b ∈ window -> lo <= ts b <= hi) -> lo <= t <= hi) /\
    (forall window', window' ≡ₚ window -> calc_past_median_time headers window' sp = Ok t).
Proof.
  intros Hne Hts. destruct (past_median_spec headers window sp ts Hne Hts) as (Hr & Hfl & Hin). eexists.
  split_and!; [exact Hr|done| |].
  - intros lo hi Hb. apply average_bounds; [|apply zsum_bounds].
    + rewrite Hfl. unfold AVERAGE_FRAME_SIZE. destruct window; [done|]. cbn [length]. lia.
    + eapply Forall_impl; [exact Hin|]. intros t Ht. cbv beta in Ht. apply list_elem_of_In, in_map_iff in Ht as (b & <- & Hb').
      apply Hb. by apply list_elem_of_In.
  - intros window' Hp. destruct (past_median_spec headers window' sp ts) as (-> & _ & _).
    + intros ->. apply Permutation_nil_l in Hp. by subst.
    + intros b Hb. apply Hts. by rewrite <-Hp.
    + assert (central_frame (List.map ts window') = central_frame (List.map ts window)) as ->; [|done].
      unfold central_frame. rewrite !length_map, (Permutation_length Hp).
      by rewrite (merge_sort_Z_perm (List.map ts window') (List.map ts window)) by by apply Permutation_map.
Qed.

(** The DAA score of a block is that of its selected parent plus the number of
    mergeset blocks within the DAA window; the others, those with a blue score
    below the window, are returned as the non-DAA set. *)
Theorem daa_score_correct {H S : Type} `{HeaderStoreReader H} `{GhostdagStoreReader S} (headers : H) (store : S)
    (self : SampledDifficultyManager) (gd : GhostdagData) (m : gmap N GhostdagData) (score : N -> Z) (sp_daa : Z) :
  let w := dm_difficulty_window_size self * dm_difficulty_sample_rate self in
  let lowest := Z.max 0 (gd_blue_score gd - w) in
  reads_map store m -> (forall h, h ∈ unordered_mergeset gd -> exists d, m !! h = Some d /\ gd_blue_score d = score h) ->
  NoDup (unordered_mergeset gd) -> hs_daa_score headers (gd_selected_parent gd) = Ok sp_daa -> w < U64 ->
  sp_daa + Z.of_nat (length (unordered_mergeset gd)) < U64 ->
  calc_daa_score_and_mergeset_non_daa_blocks headers self gd store =
    Ok (sp_daa + Z.of_nat (length (filter (fun h => lowest <= score h) (unordered_mergeset gd))),
        list_to_set (filter (fun h => score h < lowest) (unordered_mergeset gd))).
Proof.
  cbv zeta. intros Hreads Hscore Hnd Hsp Hw Hlt. unfold calc_daa_score_and_mergeset_non_daa_blocks, lowest_daa_blue_score, difficulty_full_window_size.
  rewrite umul_lt by done. cbn [obind]. rewrite usub_le by lia. cbn [obind].
  set (w := dm_difficulty_window_size self * dm_difficulty_sample_rate self) in *.
  replace (Z.max (gd_blue_score gd) w - w) with (Z.max 0 (gd_blue_score gd - w)) by lia. set (lowest := Z.max 0 (gd_blue_score gd - w)).
  rewrite (non_daa_spec store score).
  2:{ intros h Hh. destruct (Hscore h Hh) as (d & Hd & <-). by rewrite (rm_score (m := m)), Hd. }
  cbn [obind]. rewrite union_empty_r_L. unfold internal_calc_daa_score. rewrite Hsp. cbn [unwrap_res obind].
  rewrite size_list_to_set by by apply NoDup_filter.
  assert (Hsplit : (length (filter (fun h => (score h < lowest)%Z) (unordered_mergeset gd)) +
    length (filter (fun h => (lowest <= score h)%Z) (unordered_mergeset gd)) = length (unordered_mergeset gd))%nat).
  { clear. induction (unordered_mergeset gd) as [|h l IH]; [done|]. rewrite !filter_cons.
    destruct (Z.lt_ge_cases (score h) lowest); [rewrite decide_True, decide_False by lia|rewrite decide_False, decide_True by lia];
      cbn [length]; lia. }
  assert (Hms : mergeset_size gd = length (unordered_mergeset gd)) by (unfold mergeset_size, unordered_mergeset; by rewrite length_app).
  rewrite usub_le by lia. cbn [obind]. rewrite uadd_lt by lia. cbn [obind]. do 2 f_equal; [lia|]. by rewrite union_empty_r_L.
Qed.

(** ** Witnesses *)

#[local] Instance table_headers : HeaderStoreReader (gmap N CompactHeaderData) := {
  hs_daa_score t h := match t !! h with Some d => Ok (hd_daa_score d) | None => Err (KeyNotFound h) end;
  hs_timestamp t h := match t !! h with Some d => Ok (hd_timestamp d) | None => Err (KeyNotFound h) end;
  hs_bits t h := match t !! h with Some d => Ok (hd_bits d) | None => Err (KeyNotFound h) end;
  hs_compact t h := match t !! h with Some d => Ok d | None => Err (KeyNotFound h) end
}.

Definition ex_headers : gmap N CompactHeaderData :=
  {[ 1%N := mk_header_data 10 5000 0x1d00ffff 3; 2%N := mk_header_data 11 3000 0x1d00ffff 4; 3%N := mk_header_data 12 9000 0x1c7fffff 5 ]}.
Definition ex_window : list SortableBlock := [mk_sortable 1 100; mk_sortable 2 200; mk_sortable 3 300].
Definition ex_blocks : list DifficultyBlock :=
  [mk_db 5000 0x1d00ffff (mk_sortable 1 100); mk_db 3000 0x1d00ffff (mk_sortable 2 200); mk_db 9000 0x1c7fffff (mk_sortable 3 300)].
Definition ex_manager : SampledDifficultyManager := mk_sdm 99 0x1d00ffff (uint256_to_320 (replicate 4 (U64 - 1))) 3 2 4 1000.
Definition ex_gd : GhostdagData := mk_gd 9 0 3 [3%N; 2%N] [1%N] ∅.
Definition ex_minmax (l : list DifficultyBlock) : option (nat * nat) := match l with [] => None | _ => Some (1%nat, 2%nat) end.

Lemma calc_work_correct_witness :
  exists w, @calc_work Empty_set 0x1d00ffff = Ok w /\ val w = 2 ^ 256 / (val (from_compact_target_bits 0x1d00ffff) + 1).
Proof. apply (calc_work_correct 0x1d00ffff); [lia|]. vm_compute. discriminate. Defined.

Lemma difficulty_bits_correct_witness :
  exists T, calculate_difficulty_bits ex_headers ex_minmax ex_manager ex_window ex_gd = Ok (compact_target_bits T) /\
    wf_limbs T /\ length T = 4%nat /\
    val T = adjusted_target ex_blocks (mk_db 3000 0x1d00ffff (mk_sortable 2 200)) (mk_db 9000 0x1c7fffff (mk_sortable 3 300))
              (1000 * 4 * 2) (val (dm_max_difficulty_target ex_manager)).
Proof.
  apply (difficulty_bits_correct ex_headers ex_minmax ex_manager ex_window ex_gd ex_blocks
           (mk_db 3000 0x1d00ffff (mk_sortable 2 200)) (mk_db 9000 0x1c7fffff (mk_sortable 3 300))).
  - vm_compute. reflexivity.
  - repeat constructor; cbn; lia.
  - cbn. lia.
  - cbn. lia.
  - exists 1%nat, 2%nat. split_and!; [reflexivity..| |];
      (intros b Hb; unfold ex_blocks in Hb; rewrite !elem_of_cons in Hb; destruct Hb as [->|[->|[->|Hb]]]; [vm_compute; discriminate..|];
       by apply not_elem_of_nil in Hb).
  - split_and!; [apply wf_limbs_b; reflexivity|reflexivity|vm_compute; reflexivity].
  - cbn. lia.
  - cbn. lia.
Defined.

Lemma past_median_time_correct_witness :
  exists t, calc_past_median_time ex_headers ex_window 9%N = Ok t /\ 3000 <= t <= 9000.
Proof.
  set (ts := fun b : SortableBlock => match ex_headers !! sb_hash b with Some d => hd_timestamp d | None => 0 end).
  destruct (past_median_time_correct ex_headers ex_window 9%N ts) as (t & Ht & _ & Hb & _).
  - discriminate.
  - intros b Hb. unfold ex_window in Hb. rewrite !elem_of_cons in Hb.
    destruct Hb as [->|[->|[->|Hb]]]; [by vm_compute..|by apply not_elem_of_nil in Hb].
  - exists t. split; [exact Ht|]. apply Hb. intros b Hb'. unfold ex_window in Hb'. rewrite !elem_of_cons in Hb'.
    destruct Hb' as [->|[->|[->|Hb']]]; [by vm_compute..|by apply not_elem_of_nil in Hb'].
Defined.

Definition ex_gd_map : gmap N GhostdagData :=
  {[ 1%N := mk_gd 2 0 0 [] [] ∅; 2%N := mk_gd 6 0 0 [] [] ∅; 3%N := mk_gd 8 0 0 [] [] ∅ ]}.
Definition ex_gd_store : MemoryGhostdagStore :=
  mk_mem_gd (gd_blue_score <$> ex_gd_map) (gd_blue_work <$> ex_gd_map) (gd_selected_parent <$> ex_gd_map)
    (gd_mergeset_blues <$> ex_gd_map) (gd_mergeset_reds <$> ex_gd_map) (gd_blues_anticone_sizes <$> ex_gd_map).
Definition ex_manager2 : SampledDifficultyManager := mk_sdm 99 0x1d00ffff (uint_zero 5) 3 2 1 1000.

Lemma daa_score_correct_witness :
  calc_daa_score_and_mergeset_non_daa_blocks ex_headers ex_manager2 ex_gd ex_gd_store = Ok (14, {[ 1%N ]}).
Proof.
  set (score := fun h => match ex_gd_map !! h with Some d => gd_blue_score d | None => 0 end).
  rewrite (daa_score_correct ex_headers ex_gd_store ex_manager2 ex_gd ex_gd_map score 12).
  - by vm_compute.
  - apply mg_reads. by split.
  - intros h Hh. assert (h = 3 \/ h = 2 \/ h = 1)%N as [->|[->| ->]] by set_solver; eexists; by vm_compute.
  - apply (bool_decide_unpack _). by vm_compute.
  - by vm_compute.
  - by vm_compute.
  - by vm_compute.
Defined.
