(* ===== verification/Ghostdag.v ===== *)
(** * The GHOSTDAG protocol

    Model of consensus/src/processes/ghostdag: the mergeset of a new block, its
    consensus order, and the colouring of its blocks blue or red.  The manager reads
    the GHOSTDAG store, the relations, the headers and the reachability service
    through their interfaces; every [unwrap] of an error is a panic.  The walks over
    the DAG and over the selected chain carry fuel. *)

From Stdlib Require Import ZArith Lia Bool.
From stdpp Require Import base gmap numbers list sorting.
From S2P Require Import Prelude ReachabilityStore ReachabilityQueries Uint GhostdagStore Difficulty.

#[local] Open Scope Z_scope.

(** ** The reachability service *)

(** [ReachabilityService]: the ancestry query used here, errors unwrapped. *)
Class ReachabilityService (U : Type) := {
  service_is_dag_ancestor_of : U -> N -> N -> panics bool
}.

(** [impl ReachabilityService for T: ReachabilityStoreReader]. *)
#[export] Instance store_reachability_service {St} `{ReachabilityStore St} : ReachabilityService St := {
  service_is_dag_ancestor_of s this queried := unwrap_res (is_dag_ancestor_of s this queried)
}.

(** [is_dag_ancestor_of_any] and [is_any_dag_ancestor]. *)
Fixpoint is_dag_ancestor_of_any {U} `{ReachabilityService U} (u : U) (this : N) (queried : list N) : panics bool :=
  match queried with
  | [] => Ok false
  | h :: queried' => let! b := service_is_dag_ancestor_of u this h in
                     if b : bool then Ok true else is_dag_ancestor_of_any u this queried'
  end.
Fixpoint is_any_dag_ancestor {U} `{ReachabilityService U} (u : U) (l : list N) (queried : N) : panics bool :=
  match l with
  | [] => Ok false
  | h :: l' => let! b := service_is_dag_ancestor_of u h queried in
               if b : bool then Ok true else is_any_dag_ancestor u l' queried
  end.

(** ** The manager *)

Record GhostdagManager (S U H : Type) := mk_manager {
  gm_genesis_hash : N;
  gm_k : Z;
  gm_ghostdag_store : S;
  gm_relations_store : N -> sresult (list N);
  gm_headers_store : H;
  gm_reachability_service : U;
  gm_level_work : BlueWorkType
}.
Arguments gm_genesis_hash {S U H}.
Arguments gm_k {S U H}.
Arguments gm_ghostdag_store {S U H}.
Arguments gm_relations_store {S U H}.
Arguments gm_headers_store {S U H}.
Arguments gm_reachability_service {S U H}.
Arguments gm_level_work {S U H}.

Definition gm_new {S U H} (genesis : N) (k : Z) (store : S) (relations : N -> sresult (list N)) (headers : H) (reach : U) :
    GhostdagManager S U H := mk_manager S U H genesis k store relations headers reach 0.
Definition gm_with_level {S U H} (genesis : N) (k : Z) (store : S) (relations : N -> sresult (list N)) (headers : H) (reach : U)
    (level max_block_level : Z) : panics (GhostdagManager S U H) :=
  let! w := level_work level max_block_level in
  Ok (mk_manager S U H genesis k store relations headers reach (val w)).

Definition genesis_ghostdag_data : GhostdagData := mk_gd 0 0 hash_ORIGIN [] [] ∅.
Definition origin_ghostdag_data : GhostdagData := mk_gd 0 0 0 [] [] ∅.

Inductive ColoringState :=
| StateBlue
| StateRed
| StatePending.

Inductive ColoringOutput :=
| OutputBlue (blue_anticone_size : Z) (blues_anticone_sizes : gmap N Z)
| OutputRed.

(** A chain block: no hash stands for the new block. *)
Record ChainBlock := mk_chain_block {
  cb_hash : option N;
  cb_data : GhostdagData
}.

Section Mergeset.
Context (get_parents : N -> sresult (list N)) (anc : N -> N -> panics bool).

(** The loop over the parents of a block. *)
Definition visit_parent (selected_parent : N) (st : list N * gset N * gset N) (parent : N) : panics (list N * gset N * gset N) :=
  let '(queue, mergeset, past) := st in
  if bool_decide (parent ∈ mergeset) || bool_decide (parent ∈ past) then Ok st
  else
    let! b := anc parent selected_parent in
    if b : bool then Ok (queue, mergeset, {[ parent ]} ∪ past)
    else Ok (queue ++ [parent], {[ parent ]} ∪ mergeset, past).

Fixpoint mergeset_loop (fuel : nat) (selected_parent : N) (queue : list N) (mergeset past : gset N) : panics (gset N) :=
  match fuel with
  | O => OutOfFuel
  | S fuel' =>
      match queue with
      | [] => Ok mergeset
      | current :: queue =>
          let! current_parents := unwrap_res (get_parents current) in
          let! ' (queue, mergeset, past) := foldM_out (visit_parent selected_parent) (queue, mergeset, past) current_parents in
          mergeset_loop fuel' selected_parent queue mergeset past
      end
  end.

Definition unordered_mergeset_without_selected_parent (fuel : nat) (selected_parent : N) (parents : list N) : panics (gset N) :=
  let queue := filter (fun p => p <> selected_parent) parents in
  mergeset_loop fuel selected_parent queue (list_to_set queue) ∅.
End Mergeset.

Section Protocol.
Context {St U H : Type} `{GhostdagStoreReader St} `{ReachabilityService U} `{HeaderStoreReader H}.
Context (fuel : nat) (self : GhostdagManager St U H).
Let store := gm_ghostdag_store self.
Let anc := service_is_dag_ancestor_of (gm_reachability_service self).

Definition sortable_of (h : N) : panics SortableBlock :=
  let! w := unwrap_res (get_blue_work store h) in Ok (mk_sortable h w).

(** [sort_by_cached_key] *)
Definition sort_blocks (blocks : list N) : panics (list N) :=
  let! keyed := mapM_out sortable_of blocks in
  Ok (List.map sb_hash (merge_sort sortable_le keyed)).

(** [Iterator::max]: of several greatest elements the last. *)
Definition max_sortable (l : list SortableBlock) : option SortableBlock :=
  match l with
  | [] => None
  | x :: l' => Some (foldl (fun m y => match sortable_cmp m y with Gt => m | _ => y end) x l')
  end.

Definition find_selected_parent (parents : list N) : panics N :=
  let! keyed := mapM_out sortable_of parents in
  let! m := unwrap (max_sortable keyed) in
  Ok (sb_hash m).

Definition ordered_mergeset_without_selected_parent (selected_parent : N) (parents : list N) : panics (list N) :=
  let! mergeset := unordered_mergeset_without_selected_parent (gm_relations_store self) anc fuel selected_parent parents in
  sort_blocks (elements mergeset).

(** [blue_anticone_size]: walks the selected chain until it finds an entry. *)
Fixpoint blue_anticone_size_loop (fuel : nat) (block : N) (sizes : gmap N Z) (selected_parent : N) : panics Z :=
  match fuel with
  | O => OutOfFuel
  | S fuel' =>
      match sizes !! block with
      | Some size => Ok size
      | None =>
          if (selected_parent =? gm_genesis_hash self)%N || (selected_parent =? hash_ORIGIN)%N then Panic
          else
            let! sizes' := unwrap_res (get_blues_anticone_sizes store selected_parent) in
            let! parent' := unwrap_res (get_selected_parent store selected_parent) in
            blue_anticone_size_loop fuel' block sizes' parent'
      end
  end.
Definition blue_anticone_size (block : N) (context : GhostdagData) : panics Z :=
  blue_anticone_size_loop fuel block (gd_blues_anticone_sizes context) (gd_selected_parent context).

(** The loop over the blue peers of a chain block; the accumulators are the
    candidate's sizes map and its blue anticone size. *)
Fixpoint check_peers (new_block_data : GhostdagData) (blue_candidate : N) (k : Z) (peers : list N) (sizes : gmap N Z) (size : Z) :
    panics (ColoringState * gmap N Z * Z) :=
  match peers with
  | [] => Ok (StatePending, sizes, size)
  | peer :: peers' =>
      let! b := anc peer blue_candidate in
      if b : bool then check_peers new_block_data blue_candidate k peers' sizes size
      else
        let! peer_size := blue_anticone_size peer new_block_data in
        let sizes := <[peer := peer_size]> sizes in
        let! size := uadd U16 size 1 in
        if k <? size then Ok (StateRed, sizes, size)
        else if peer_size =? k then Ok (StateRed, sizes, size)
        else
          let! _ := rassert (peer_size <=? k) in
          check_peers new_block_data blue_candidate k peers' sizes size
  end.

Definition check_blue_candidate_with_chain_block (new_block_data : GhostdagData) (chain_block : ChainBlock) (blue_candidate : N)
    (sizes : gmap N Z) (size : Z) (k : Z) : panics (ColoringState * gmap N Z * Z) :=
  let! in_future := match cb_hash chain_block with Some hash => anc hash blue_candidate | None => Ok false end in
  if in_future : bool then Ok (StateBlue, sizes, size)
  else check_peers new_block_data blue_candidate k (gd_mergeset_blues (cb_data chain_block)) sizes size.

Fixpoint check_blue_candidate_loop (fuel : nat) (new_block_data : GhostdagData) (blue_candidate : N) (k : Z)
    (chain_block : ChainBlock) (sizes : gmap N Z) (size : Z) : panics ColoringOutput :=
  match fuel with
  | O => OutOfFuel
  | S fuel' =>
      let! ' (state, sizes, size) := check_blue_candidate_with_chain_block new_block_data chain_block blue_candidate sizes size k in
      match state with
      | StateBlue => Ok (OutputBlue size sizes)
      | StateRed => Ok OutputRed
      | StatePending =>
          let parent := gd_selected_parent (cb_data chain_block) in
          let! data := unwrap_res (get_data store parent) in
          check_blue_candidate_loop fuel' new_block_data blue_candidate k (mk_chain_block (Some parent) data) sizes size
      end
  end.

Definition check_blue_candidate (new_block_data : GhostdagData) (blue_candidate : N) (k : Z) : panics ColoringOutput :=
  let! k1 := uadd U16 k 1 in
  if Z.of_nat (length (gd_mergeset_blues new_block_data)) mod U16 =? k1 then Ok OutputRed
  else check_blue_candidate_loop fuel new_block_data blue_candidate k (mk_chain_block None new_block_data) ∅ 0.

Definition color_candidate (k : Z) (new_block_data : GhostdagData) (blue_candidate : N) : panics GhostdagData :=
  let! coloring := check_blue_candidate new_block_data blue_candidate k in
  match coloring with
  | OutputBlue size sizes => add_blue new_block_data blue_candidate size sizes
  | OutputRed => Ok (add_red new_block_data blue_candidate)
  end.

(** [calc_work(bits).max(level_work)] of a merged blue. *)
Definition blue_block_work (h : N) : panics BlueWorkType :=
  let! bits := unwrap_res (hs_bits (gm_headers_store self) h) in
  let! w := calc_work bits in
  Ok (Z.max (val w) (gm_level_work self)).

Definition ghostdag (parents : list N) : panics GhostdagData :=
  let! _ := rassert (negb (length parents =? 0)%nat) in
  let! selected_parent := find_selected_parent parents in
  if (selected_parent =? hash_ORIGIN)%N then new_with_selected_parent selected_parent 1
  else
    let k := gm_k self in
    let! new_block_data := new_with_selected_parent selected_parent k in
    let! ordered_mergeset := ordered_mergeset_without_selected_parent selected_parent parents in
    let! new_block_data := foldM_out (color_candidate k) new_block_data ordered_mergeset in
    let! sp_score := unwrap_res (get_blue_score store selected_parent) in
    let! blue_score := add64 sp_score (Z.of_nat (length (gd_mergeset_blues new_block_data))) in
    let! works := mapM_out blue_block_work (gd_mergeset_blues new_block_data) in
    let! sp_work := unwrap_res (get_blue_work store selected_parent) in
    Ok (finalize_score_and_work new_block_data blue_score (work_add sp_work (work_sum works))).
End Protocol.
