(* ===== verification/GhostdagColor.v ===== *)
(** * GHOSTDAG: the specification and the colouring of one candidate

    The blue set of a block, anticone sizes, k-clusters, and the greedy colouring that the
    protocol is meant to compute.  [check_blue_candidate] decides the two conditions for
    adding a candidate to the blue set, [blue_anticone_size] finds the anticone sizes it
    needs along the selected chain, and [add_blue] records the new ones. *)

From Stdlib Require Import ZArith Lia Bool.
From stdpp Require Import base gmap numbers list sorting.
From S2P Require Import Prelude ReachabilityStore ReachabilityQueries Uint GhostdagStore Difficulty Ghostdag.

#[local] Open Scope Z_scope.

(** ** The specification *)

Section Clusters.
Context (anc : N -> N -> bool) (k : Z).

Definition anticone (x y : N) : bool := negb (anc x y) && negb (anc y x).

(** The number of blocks of [l] in the anticone of [x]. *)
Definition anticone_size (l : list N) (x : N) : Z := Z.of_nat (length (filter (fun y => anticone x y = true) l)).

Definition k_cluster (l : list N) : Prop := forall x, x ∈ l -> anticone_size l x <= k.
Definition k_cluster_b (l : list N) : bool := forallb (fun x => anticone_size l x <=? k) l.

(** The greedy colouring of candidates over the blue set [base] of the selected
    parent: a candidate is blue when it leaves the blue set a k-cluster. *)
Definition greedy_step (base : list N) (st : list N * list N) (c : N) : list N * list N :=
  if k_cluster_b (c :: st.1 ++ base) then (st.1 ++ [c], st.2) else (st.1, st.2 ++ [c]).
Definition greedy (base : list N) (selected_parent : N) (candidates : list N) : list N * list N :=
  foldl (greedy_step base) ([selected_parent], []) candidates.

Lemma k_cluster_b_spec l : k_cluster_b l = true <-> k_cluster l.
Proof using.
  unfold k_cluster_b, k_cluster. rewrite forallb_forall. setoid_rewrite list_elem_of_In.
  split; intros Hl x Hx; specialize (Hl x Hx); lia.
Qed.

Lemma anticone_size_cons l c x : anticone_size (c :: l) x = anticone_size l x + Z.b2z (anticone x c).
Proof using.
  unfold anticone_size. rewrite filter_cons. destruct (anticone x c); [rewrite decide_True by done|rewrite decide_False by done];
    cbn [length Z.b2z]; lia.
Qed.

Lemma anticone_size_perm l l' x : l ≡ₚ l' -> anticone_size l x = anticone_size l' x.
Proof using. intros Hp. unfold anticone_size. by rewrite (Permutation_length (filter_Permutation _ _ _ Hp)). Qed.

Lemma k_cluster_perm l l' : l ≡ₚ l' -> k_cluster l <-> k_cluster l'.
Proof using.
  intros Hp. unfold k_cluster. split; intros Hl x Hx; [rewrite <-(anticone_size_perm l l' x Hp)|rewrite (anticone_size_perm l l' x Hp)];
    apply Hl; [by rewrite Hp|by rewrite <-Hp].
Qed.

Lemma anticone_sym x y : anticone x y = anticone y x.
Proof using. unfold anticone. apply andb_comm. Qed.

(** Adding a block to a k-cluster: the two conditions of the protocol. *)
Lemma k_cluster_cons l c :
  anc c c = true -> k_cluster l ->
  k_cluster (c :: l) <-> anticone_size l c <= k /\ forall x, x ∈ l -> anticone x c = true -> anticone_size l x < k.
Proof using.
  intros Hc Hl. assert (Hcc : anticone c c = false) by (unfold anticone; by rewrite Hc). unfold k_cluster. split.
  - intros Hk. split.
    + specialize (Hk c (list_elem_of_here _ _)). rewrite anticone_size_cons, Hcc in Hk. cbn in Hk. lia.
    + intros x Hx Hxc. specialize (Hk x (list_elem_of_further _ _ _ Hx)). rewrite anticone_size_cons, Hxc in Hk. cbn in Hk. lia.
  - intros [H1 H2] x Hx. rewrite anticone_size_cons. apply elem_of_cons in Hx as [->|Hx]; [rewrite Hcc; cbn; lia|].
    destruct (anticone x c) eqn:Hxc; cbn [Z.b2z]; [specialize (H2 x Hx Hxc); lia|specialize (Hl x Hx); lia].
Qed.
End Clusters.

Lemma anticone_size_ext anc anc' l x :
  (forall y, y ∈ l -> anc x y = anc' x y /\ anc y x = anc' y x) -> anticone_size anc l x = anticone_size anc' l x.
Proof.
  induction l as [|c l IH]; intros He; [done|]. rewrite !anticone_size_cons, IH by (intros; apply He; by apply list_elem_of_further).
  destruct (He c (list_elem_of_here _ _)) as [H1 H2]. unfold anticone. by rewrite H1, H2.
Qed.

Lemma k_cluster_ext anc anc' k l :
  (forall x y, x ∈ l -> y ∈ l -> anc x y = anc' x y) -> k_cluster anc k l -> k_cluster anc' k l.
Proof.
  intros He Hl x Hx. rewrite <-(anticone_size_ext anc anc' l x); [by apply Hl|]. intros y Hy. by rewrite !He.
Qed.

(** ** The blue set along the selected chain *)

(** [blue_list S D l]: [l] lists the blue blocks in the past of a block with data
    [D], from its mergeset blues down the selected chain. *)
Inductive blue_list (S : gmap N GhostdagData) : GhostdagData -> list N -> Prop :=
| bl_base D : gd_selected_parent D = hash_ORIGIN -> blue_list S D (gd_mergeset_blues D)
| bl_step D D' l :
    gd_selected_parent D <> hash_ORIGIN -> gd_mergeset_blues D <> [] ->
    S !! gd_selected_parent D = Some D' -> blue_list S D' l -> blue_list S D (gd_mergeset_blues D ++ l).

(** [size_at S D x z]: the first entry for [x] in the anticone size maps along the
    selected chain from [D], short of the genesis, is [z]. *)
Inductive size_at (genesis : N) (S : gmap N GhostdagData) : GhostdagData -> N -> Z -> Prop :=
| sa_here D x z : gd_blues_anticone_sizes D !! x = Some z -> size_at genesis S D x z
| sa_up D D' x z :
    gd_blues_anticone_sizes D !! x = None ->
    gd_selected_parent D <> genesis -> gd_selected_parent D <> hash_ORIGIN ->
    S !! gd_selected_parent D = Some D' -> size_at genesis S D' x z -> size_at genesis S D x z.

Lemma blue_list_unique S D l l' : blue_list S D l -> blue_list S D l' -> l = l'.
Proof. intros Hl. revert l'. induction Hl; intros l' Hl'; inversion Hl'; simplify_eq; try done. f_equal. auto. Qed.

(** ** Updating the sizes *)

Lemma add_sizes_spec {E} (l : list (N * Z)) (m : gmap N Z) :
  NoDup l.*1 -> Forall (fun p => p.2 + 1 < U16) l ->
  exists m', @foldM_out E _ _ (fun m p => let! s := uadd U16 p.2 1 in Ok (<[p.1 := s]> m)) m l = Ok m' /\
    (forall x z, (x, z) ∈ l -> m' !! x = Some (z + 1)) /\ (forall x, (x ∉ l.*1) -> m' !! x = m !! x).
Proof.
  revert m. induction l as [|[y z] l IH]; intros m Hnd Hlt; cbn [foldM_out fst snd].
  { exists m. split_and!; [done| |done]. intros x z Hx. by apply not_elem_of_nil in Hx. }
  apply Forall_cons in Hlt as [Hz Hlt]. cbn in Hz. rewrite fmap_cons in Hnd. apply NoDup_cons in Hnd as [Hy Hnd]. cbn in Hy.
  rewrite uadd_lt by done. cbn [obind]. destruct (IH (<[y := z + 1]> m) Hnd Hlt) as (m' & -> & Hin & Hout).
  exists m'. split_and!; [done| |].
  - intros x z' [[= -> ->]|Hx]%elem_of_cons; [|by apply Hin]. by rewrite Hout, lookup_insert_eq.
  - intros x Hx. rewrite fmap_cons in Hx. cbn in Hx. apply not_elem_of_cons in Hx as [Hne Hx].
    rewrite Hout by done. by rewrite lookup_insert_ne.
Qed.

(** The sizes map of a candidate: an entry for each listed peer. *)
Definition insert_sizes (sz : N -> Z) (m : gmap N Z) (l : list N) : gmap N Z := foldl (fun m p => <[p := sz p]> m) m l.

Lemma insert_sizes_lookup sz m l x :
  insert_sizes sz m l !! x = if decide (x ∈ l) then Some (sz x) else m !! x.
Proof.
  unfold insert_sizes. revert m. induction l as [|p l IH]; intros m; cbn [foldl].
  { by rewrite decide_False by apply not_elem_of_nil. }
  rewrite IH. destruct (decide (x ∈ l)) as [Hx|Hx]; [by rewrite decide_True by by apply list_elem_of_further|].
  destruct (decide (x = p)) as [->|Hne].
  - by rewrite lookup_insert_eq, decide_True by apply list_elem_of_here.
  - rewrite lookup_insert_ne by done. rewrite decide_False; [done|]. apply not_elem_of_cons. done.
Qed.

Lemma insert_sizes_app sz m l1 l2 : insert_sizes sz (insert_sizes sz m l1) l2 = insert_sizes sz m (l1 ++ l2).
Proof. unfold insert_sizes. by rewrite foldl_app. Qed.

Section Color.
Context {St U H : Type} `{GhostdagStoreReader St} `{ReachabilityService U} `{HeaderStoreReader H}.
Context (fuel : nat) (self : GhostdagManager St U H) (S : gmap N GhostdagData) (anc : N -> N -> bool).
Let known (h : N) : Prop := is_Some (S !! h).
Let k := gm_k self.
Hypothesis Hreads : reads_map (gm_ghostdag_store self) S.
Hypothesis Hanc : forall a b, known a -> known b -> service_is_dag_ancestor_of (gm_reachability_service self) a b = Ok (anc a b).
Hypothesis Hk : 0 <= k < U16 - 1.

(** ** Anticone sizes along the chain *)

Lemma size_lookup D l n x z :
  blue_list S D l -> size_at (gm_genesis_hash self) S D x z -> (length l < n)%nat ->
  blue_anticone_size_loop self n x (gd_blues_anticone_sizes D) (gd_selected_parent D) = Ok z.
Proof using Hreads.
  intros Hl. revert n. induction Hl as [D Hsp|D D' l Hsp Hb HD Hl IH]; intros n Hs Hn; (destruct n as [|n]; [lia|]);
    cbn [blue_anticone_size_loop]; inversion Hs as [? ? ? Hz|? D2 ? ? Hnone Hg Ho HD2 Hs2]; subst.
  - by rewrite Hz.
  - done.
  - by rewrite Hz.
  - rewrite Hnone. rewrite (proj2 (N.eqb_neq _ _) Hg), (proj2 (N.eqb_neq _ _) Ho). cbn [orb].
    rewrite (rm_sizes (m := S)), (rm_parent (m := S)), HD. cbn [unwrap_res obind].
    rewrite HD in HD2. injection HD2 as <-. apply IH; [done|]. rewrite length_app in Hn.
    destruct (gd_mergeset_blues D); [done|]. cbn in Hn. lia.
Qed.

(** ** One chain block *)

(** The peers of [l] outside the past of the candidate. *)
Definition outside (c : N) (l : list N) : list N := filter (fun p => anc p c = false) l.
(** No violation when a candidate with [size] blues in its anticone meets [l]. *)
Definition no_violation (sz : N -> Z) (c : N) (size : Z) (l : list N) : bool :=
  (size + Z.of_nat (length (outside c l)) <=? k) && forallb (fun p => negb (sz p =? k)) (outside c l).

Lemma outside_app c l1 l2 : outside c (l1 ++ l2) = outside c l1 ++ outside c l2.
Proof using. apply filter_app. Qed.

Lemma no_violation_app sz c size l1 l2 :
  no_violation sz c size (l1 ++ l2) =
    no_violation sz c size l1 && no_violation sz c (size + Z.of_nat (length (outside c l1))) l2.
Proof using.
  clear Hk. unfold no_violation. rewrite outside_app, length_app, forallb_app.
  apply eq_true_iff_eq. rewrite !andb_true_iff, !Z.leb_le. intuition lia.
Qed.

Lemma check_peers_spec D c peers sizes size sz :
  known c -> 0 <= size <= k ->
  (forall p, p ∈ peers -> known p /\ (anc p c = false -> blue_anticone_size fuel self p D = Ok (sz p) /\ sz p <= k)) ->
  (no_violation sz c size peers = true ->
     check_peers fuel self D c k peers sizes size =
       Ok (StatePending, insert_sizes sz sizes (outside c peers), size + Z.of_nat (length (outside c peers)))) /\
  (no_violation sz c size peers = false -> exists s z, check_peers fuel self D c k peers sizes size = Ok (StateRed, s, z)).
Proof using Hanc Hk.
  intros Hc. revert sizes size. induction peers as [|p peers IH]; intros sizes size Hsize Hp; cbn [check_peers].
  { unfold no_violation. cbn. rewrite Z.add_0_r, (proj2 (Z.leb_le size k)) by lia. done. }
  destruct (Hp p (list_elem_of_here _ _)) as [Hpk Hps].
  assert (Hp' : forall q, q ∈ peers -> known q /\ (anc q c = false -> blue_anticone_size fuel self q D = Ok (sz q) /\ sz q <= k))
    by (intros q Hq; apply Hp; by apply list_elem_of_further).
  rewrite (Hanc p c Hpk Hc). cbn [obind]. destruct (anc p c) eqn:Hpc.
  { assert (Hout : outside c (p :: peers) = outside c peers) by (unfold outside; rewrite filter_cons, decide_False by congruence; done).
    unfold no_violation. rewrite Hout. apply IH; done. }
  destruct (Hps eq_refl) as [-> Hszk]. cbn [obind]. cbv zeta.
  assert (Hout : outside c (p :: peers) = p :: outside c peers) by (unfold outside; rewrite filter_cons, decide_True by done; done).
  unfold no_violation. rewrite Hout. cbn [length forallb]. rewrite uadd_lt by lia. cbn [obind].
  destruct (Z.ltb_spec k (size + 1)) as [Hgt|Hle].
  { split; [intros Hnv; apply andb_true_iff in Hnv as [Hnv%Z.leb_le _]; lia|eauto]. }
  destruct (Z.eqb_spec (sz p) k) as [Heq|Hne]; cbn [negb andb].
  { split; [by rewrite andb_false_r|eauto]. }
  rewrite (proj2 (Z.leb_le (sz p) k) Hszk). cbn [rassert obind].
  specialize (IH (<[p := sz p]> sizes) (size + 1) ltac:(lia) Hp'). unfold no_violation in IH.
  replace (size + Z.of_nat (Datatypes.S (length (outside c peers)))) with (size + 1 + Z.of_nat (length (outside c peers))) by lia.
  exact IH.
Qed.

(** ** The walk along the chain *)

(** The blue list of a chain block lies in its past, and the past is closed. *)
Hypothesis Htrans : forall a b c, known a -> known b -> known c -> anc a b = true -> anc b c = true -> anc a c = true.
Hypothesis Horigin : known hash_ORIGIN.
Hypothesis Hroot : forall h, known h -> anc hash_ORIGIN h = true.
Hypothesis Hpast : forall h D l, S !! h = Some D -> h <> hash_ORIGIN -> blue_list S D l -> forall x, x ∈ l -> known x /\ anc x h = true.

Lemma outside_nil c l : (forall x, x ∈ l -> anc x c = true) -> outside c l = [].
Proof using.
  intros Hl. unfold outside. induction l as [|x l IH]; [done|]. rewrite filter_cons, decide_False.
  - apply IH. intros y Hy. apply Hl. by apply list_elem_of_further.
  - rewrite (Hl x (list_elem_of_here _ _)). done.
Qed.

Lemma check_loop_spec D c Di li n hash sizes size sz :
  blue_list S Di li -> known c -> 0 <= size <= k -> (length li + 2 <= n)%nat ->
  match hash with Some h => S !! h = Some Di /\ h <> hash_ORIGIN | None => True end ->
  (forall p, p ∈ li -> known p /\ (anc p c = false -> blue_anticone_size fuel self p D = Ok (sz p) /\ sz p <= k)) ->
  check_blue_candidate_loop fuel self n D c k (mk_chain_block hash Di) sizes size =
    Ok (if no_violation sz c size li
        then OutputBlue (size + Z.of_nat (length (outside c li))) (insert_sizes sz sizes (outside c li)) else OutputRed).
Proof using Hreads Hanc Hk Htrans Horigin Hroot Hpast.
  intros Hl Hc. revert n hash sizes size.
  induction Hl as [Di Hsp|Di D' l Hsp Hb HD Hl IH]; intros n hash sizes size Hsize Hn Hhash Hp;
    (destruct n as [|n]; [lia|]); cbn [check_blue_candidate_loop];
    unfold check_blue_candidate_with_chain_block; cbn [cb_hash cb_data].
  - assert (Hnext : (match hash with Some h => service_is_dag_ancestor_of (gm_reachability_service self) h c | None => Ok false end)
      = Ok (match hash with Some h => anc h c | None => false end)).
    { destruct hash as [h|]; [|done]. apply Hanc; [|done]. destruct Hhash as [Hh _]. by exists Di. }
    rewrite Hnext. cbn [obind]. destruct (match hash with Some h => anc h c | None => false end) eqn:Hf.
    + destruct hash as [h|]; [|done]. destruct Hhash as [Hh Hho].
      assert (Ho : outside c (gd_mergeset_blues Di) = []).
      { apply outside_nil. intros x Hx. destruct (Hpast h Di _ Hh Hho (bl_base _ _ Hsp) x Hx) as [? ?]. apply (Htrans x h c); try done. by exists Di. }
      unfold no_violation. rewrite Ho. cbn. rewrite Z.add_0_r, (proj2 (Z.leb_le size k)) by lia. done.
    + destruct (check_peers_spec D c (gd_mergeset_blues Di) sizes size sz Hc Hsize Hp) as [Hblue Hred].
      destruct (no_violation sz c size (gd_mergeset_blues Di)) eqn:Hnv.
      * rewrite (Hblue eq_refl). cbn [obind]. rewrite Hsp. destruct Horigin as [DO HDO].
        rewrite (rm_data (m := S)), HDO. cbn [unwrap_res obind]. destruct n as [|n]; [lia|].
        cbn [check_blue_candidate_loop]. unfold check_blue_candidate_with_chain_block. cbn [cb_hash].
        rewrite Hanc by (done || (by exists DO)). rewrite Hroot by done. done.
      * destruct (Hred eq_refl) as (s & z & ->). done.
  - assert (Hnext : (match hash with Some h => service_is_dag_ancestor_of (gm_reachability_service self) h c | None => Ok false end)
      = Ok (match hash with Some h => anc h c | None => false end)).
    { destruct hash as [h|]; [|done]. apply Hanc; [|done]. destruct Hhash as [Hh _]. by exists Di. }
    rewrite Hnext. cbn [obind]. destruct (match hash with Some h => anc h c | None => false end) eqn:Hf.
    + destruct hash as [h|]; [|done]. destruct Hhash as [Hh Hho].
      assert (Ho : outside c (gd_mergeset_blues Di ++ l) = []).
      { apply outside_nil. intros x Hx. destruct (Hpast h Di _ Hh Hho (bl_step _ _ _ _ Hsp Hb HD Hl) x Hx) as [? ?]. apply (Htrans x h c); try done. by exists Di. }
      unfold no_violation. rewrite Ho. cbn. rewrite Z.add_0_r, (proj2 (Z.leb_le size k)) by lia. done.
    + destruct (check_peers_spec D c (gd_mergeset_blues Di) sizes size sz Hc Hsize) as [Hblue Hred];
        [intros p Hpp; apply Hp; apply elem_of_app; by left|].
      rewrite no_violation_app, outside_app, length_app, <-insert_sizes_app.
      destruct (no_violation sz c size (gd_mergeset_blues Di)) eqn:Hnv; cbn [andb].
      * rewrite (Hblue eq_refl). cbn [obind]. rewrite (rm_data (m := S)), HD. cbn [unwrap_res obind].
        rewrite IH.
        -- replace (size + Z.of_nat (length (outside c (gd_mergeset_blues Di)) + length (outside c l)))
             with (size + Z.of_nat (length (outside c (gd_mergeset_blues Di))) + Z.of_nat (length (outside c l))) by lia. done.
        -- unfold no_violation in Hnv. apply andb_true_iff in Hnv as [Hnv%Z.leb_le _]. lia.
        -- rewrite length_app in Hn. destruct (gd_mergeset_blues Di); [done|]. cbn in Hn. lia.
        -- done.
        -- intros p Hpp. apply Hp. apply elem_of_app. by right.
      * destruct (Hred eq_refl) as (s & z & ->). done.
Qed.

(** ** Colouring one candidate *)

Context (sp : N) (D' : GhostdagData) (base : list N).
Hypothesis Hsp : S !! sp = Some D'.
Hypothesis Hspo : sp <> hash_ORIGIN.
Hypothesis Hbase : blue_list S D' base.

(** The data of the new block while its candidates are coloured. *)
Record coloring (D : GhostdagData) : Prop := mk_coloring {
  co_sp : gd_selected_parent D = sp;
  co_head : exists bs, gd_mergeset_blues D = sp :: bs /\ forall x, x ∈ bs -> anticone anc sp x = true;
  co_nodup : NoDup (gd_mergeset_blues D ++ base);
  co_known : forall x, x ∈ gd_mergeset_blues D ++ base -> known x;
  co_cluster : k_cluster anc k (gd_mergeset_blues D ++ base);
  co_sizes : forall x, x ∈ gd_mergeset_blues D ++ base ->
    size_at (gm_genesis_hash self) S D x (anticone_size anc (gd_mergeset_blues D ++ base) x)
}.

Lemma coloring_list D : coloring D -> blue_list S D (gd_mergeset_blues D ++ base).
Proof using Hsp Hspo Hbase.
  intros Hco. pose proof (co_sp _ Hco) as E. destruct (co_head _ Hco) as (bs & Hb & _).
  apply (bl_step S D D' base); rewrite ?E; [done|by rewrite Hb|done|done].
Qed.

(** The selected parent has the other blues of the mergeset in its anticone. *)
Lemma coloring_length D : coloring D -> Z.of_nat (length (gd_mergeset_blues D)) <= anticone_size anc (gd_mergeset_blues D ++ base) sp + 1.
Proof using.
  clear Hspo Hk. intros Hco. destruct (co_head _ Hco) as (bs & -> & Hbs). unfold anticone_size. cbn [app length]. rewrite filter_cons.
  rewrite filter_app. assert (Hf : filter (fun y => anticone anc sp y = true) bs = bs).
  { clear -Hbs. induction bs as [|b bs IH]; [done|]. rewrite filter_cons, decide_True by apply Hbs, list_elem_of_here.
    rewrite IH; [done|]. intros; apply Hbs; by apply list_elem_of_further. }
  destruct (decide _); cbn [length]; rewrite length_app, Hf; lia.
Qed.

Section Candidate.
Context (D : GhostdagData) (c : N).
Hypothesis Hco : coloring D.
Hypothesis Hc : known c.
Let L := gd_mergeset_blues D ++ base.
Hypothesis Hfresh : c ∉ L.
Hypothesis Hnotpast : forall x, x ∈ L -> anc c x = false.
Hypothesis Hspc : anc sp c = false.
Hypothesis Hrefl : anc c c = true.
Hypothesis Hfuel : (length L + 2 <= fuel)%nat.
Let sz := anticone_size anc L.

Lemma outside_anticone p : p ∈ outside c L <-> p ∈ L /\ anticone anc p c = true.
Proof using Hnotpast.
  unfold outside. rewrite list_elem_of_filter. unfold anticone. split.
  - intros [Hp HL]. by rewrite Hp, (Hnotpast p HL).
  - intros [HL Ha]. apply andb_true_iff in Ha as [Ha _]. by apply negb_true_iff in Ha.
Qed.

Lemma outside_length : Z.of_nat (length (outside c L)) = anticone_size anc L c.
Proof using Hnotpast.
  unfold anticone_size, outside. do 2 f_equal. clearbody L. clear Hfresh Hfuel sz. induction L as [|x l IH]; [done|].
  rewrite !filter_cons. assert (Hx : anc c x = false) by apply Hnotpast, list_elem_of_here.
  rewrite IH by (intros; apply Hnotpast; by apply list_elem_of_further). unfold anticone. rewrite Hx.
  destruct (anc x c); [rewrite !decide_False by done|rewrite !decide_True by done]; done.
Qed.

Lemma no_violation_cluster : no_violation sz c 0 L = k_cluster_b anc k (c :: L).
Proof using Hco Hnotpast Hrefl.
  clear Hspo Hfuel. apply eq_true_iff_eq. rewrite k_cluster_b_spec, (k_cluster_cons anc k L c Hrefl (co_cluster _ Hco)).
  unfold no_violation. rewrite andb_true_iff, Z.leb_le, Z.add_0_l, outside_length, forallb_forall.
  split; intros [H1' H2']; (split; [done|]).
  - intros x Hx Hxc. assert (Hin : x ∈ outside c L) by by apply outside_anticone.
    apply list_elem_of_In, H2' in Hin. apply negb_true_iff, Z.eqb_neq in Hin. pose proof (co_cluster _ Hco x Hx) as Hcl. fold L in Hcl.
    change (sz x) with (anticone_size anc L x) in Hin. lia.
  - intros x Hx%list_elem_of_In. apply outside_anticone in Hx as [Hx Hxc]. apply negb_true_iff, Z.eqb_neq.
    specialize (H2' x Hx Hxc). change (sz x) with (anticone_size anc L x). lia.
Qed.

Lemma check_candidate :
  check_blue_candidate fuel self D c k =
    Ok (if k_cluster_b anc k (c :: L) then OutputBlue (anticone_size anc L c) (insert_sizes sz ∅ (outside c L)) else OutputRed).
Proof using All.
  unfold check_blue_candidate. rewrite uadd_lt by lia. cbn [obind]. pose proof (coloring_length D Hco) as Hlen. fold L in Hlen.
  assert (HspL : sp ∈ L) by (destruct (co_head _ Hco) as (bs & Hb & _); subst L; rewrite Hb; apply list_elem_of_here).
  pose proof (co_cluster _ Hco sp HspL) as Hcl. fold L in Hcl. rewrite Z.mod_small by lia.
  destruct (Z.eqb_spec (Z.of_nat (length (gd_mergeset_blues D))) (k + 1)) as [Heq|Hne].
  - destruct (k_cluster_b anc k (c :: L)) eqn:Hkc; [|done]. exfalso.
    apply k_cluster_b_spec, (k_cluster_cons anc k L c Hrefl (co_cluster _ Hco)) in Hkc as [_ Hkc].
    specialize (Hkc sp HspL).
    assert (Hac : anticone anc sp c = true) by (unfold anticone; by rewrite Hspc, (Hnotpast sp HspL)). specialize (Hkc Hac). lia.
  - rewrite (check_loop_spec D c D L fuel None ∅ 0 sz); [| | | | | |].
    + rewrite no_violation_cluster, Z.add_0_l, outside_length. done.
    + by apply coloring_list.
    + done.
    + lia.
    + done.
    + done.
    + intros p Hp. split; [by apply (co_known _ Hco)|]. intros _. split; [|by apply (co_cluster _ Hco)].
      apply (size_lookup D L); [by apply coloring_list|by apply (co_sizes _ Hco)|lia].
Qed.

Lemma self_anticone : anticone anc c c = false.
Proof using Hrefl. unfold anticone. by rewrite Hrefl. Qed.

(** [add_blue] with the output of the check: the sizes of the peers outside the
    past of the candidate grow by one, and the candidate gets its own. *)
Lemma add_blue_spec :
  k_cluster anc k (c :: L) ->
  exists m, @add_blue Empty_set D c (anticone_size anc L c) (insert_sizes sz ∅ (outside c L)) =
    Ok (mk_gd (gd_blue_score D) (gd_blue_work D) (gd_selected_parent D) (gd_mergeset_blues D ++ [c]) (gd_mergeset_reds D) m) /\
    m !! c = Some (anticone_size anc (c :: L) c) /\
    (forall x, x ∈ outside c L -> m !! x = Some (anticone_size anc (c :: L) x)) /\
    (forall x, x <> c -> (x ∉ outside c L) -> m !! x = gd_blues_anticone_sizes D !! x).
Proof using Hk Hco Hnotpast Hrefl Hfresh.
  clear Hspo Hfuel. intros Hcl. unfold add_blue. set (M := insert_sizes sz ∅ (outside c L)).
  assert (HM : forall x z, M !! x = Some z <-> x ∈ outside c L /\ z = sz x).
  { intros x z. unfold M. rewrite insert_sizes_lookup. destruct (decide (x ∈ outside c L)); [|rewrite lookup_empty]; split;
      try (intros [? ->]; done); [by intros [= <-]|done]. }
  assert (Hcout : c ∉ outside c L) by (rewrite outside_anticone; by intros [? _]).
  destruct (@add_sizes_spec Empty_set (map_to_list M) (<[c := anticone_size anc L c]> (gd_blues_anticone_sizes D))) as (m & -> & Hin & Hout).
  { apply NoDup_fst_map_to_list. }
  { apply Forall_forall. intros [x z] Hx%elem_of_map_to_list. apply HM in Hx as [Hx ->]. cbn [snd].
    apply outside_anticone in Hx as [Hx Hxc]. pose proof (Hcl x (list_elem_of_further _ _ _ Hx)) as Hxk.
    rewrite anticone_size_cons, Hxc in Hxk. cbn in Hxk. change (sz x) with (anticone_size anc L x). lia. }
  assert (Hkeys : forall x, x ∈ (map_to_list M).*1 <-> x ∈ outside c L).
  { intros x. rewrite list_elem_of_fmap. split.
    - intros ([y z] & -> & Hy%elem_of_map_to_list). by apply HM in Hy as [? _].
    - intros Hx. exists (x, sz x). split; [done|]. apply elem_of_map_to_list, HM. done. }
  cbn [obind]. exists m. split_and!; [done| | |].
  - rewrite Hout by by rewrite Hkeys. rewrite lookup_insert_eq, anticone_size_cons, self_anticone. cbn. f_equal. lia.
  - intros x Hx. rewrite (Hin x (sz x)) by by apply elem_of_map_to_list, HM.
    apply outside_anticone in Hx as [_ Hxc]. by rewrite anticone_size_cons, Hxc.
  - intros x Hxc Hx. rewrite Hout by by rewrite Hkeys. by rewrite lookup_insert_ne.
Qed.

Lemma snoc_perm : (gd_mergeset_blues D ++ [c]) ++ base ≡ₚ c :: L.
Proof using. rewrite <-app_assoc. cbn. symmetry. apply Permutation_middle. Qed.

Lemma color_step :
  exists D1, color_candidate fuel self k D c = Ok D1 /\ coloring D1 /\
    (gd_mergeset_blues D1, gd_mergeset_reds D1) = greedy_step anc k base (gd_mergeset_blues D, gd_mergeset_reds D) c.
Proof using All.
  unfold color_candidate. rewrite check_candidate. cbn [obind]. unfold greedy_step. cbn [fst snd]. fold L.
  destruct (k_cluster_b anc k (c :: L)) eqn:Hkc.
  2:{ eexists. split_and!; [done| |done]. destruct Hco as [? ? ? ? ? Hs]. split; cbn; try done.
      intros x Hx. specialize (Hs x Hx). inversion Hs; subst; [by apply sa_here|by eapply sa_up]. }
  apply k_cluster_b_spec in Hkc. destruct (add_blue_spec Hkc) as (m & -> & Hmc & Hmo & Hmk).
  eexists. split_and!; [done| |done]. pose proof snoc_perm as Hperm. split; cbn [gd_selected_parent gd_mergeset_blues gd_blues_anticone_sizes].
  - apply Hco.
  - destruct (co_head _ Hco) as (bs & Hb & Hbs). exists (bs ++ [c]). rewrite Hb. split; [done|].
    intros x [Hx| ->%list_elem_of_singleton]%elem_of_app; [by apply Hbs|]. unfold anticone. rewrite Hspc, Hnotpast; [done|].
    subst L. rewrite Hb. apply list_elem_of_here.
  - rewrite Hperm. apply NoDup_cons. split; [done|apply Hco].
  - intros x Hx. rewrite Hperm in Hx. apply elem_of_cons in Hx as [->|Hx]; [done|by apply (co_known _ Hco)].
  - by apply (k_cluster_perm anc k _ _ Hperm).
  - intros x Hx. rewrite Hperm in Hx. rewrite (anticone_size_perm anc _ _ x Hperm).
    apply elem_of_cons in Hx as [->|Hx]; [by apply sa_here|].
    destruct (decide (x ∈ outside c L)) as [Ho|Ho]; [apply sa_here; cbn; by apply Hmo|].
    assert (Hxa : anticone anc x c = false).
    { destruct (anticone anc x c) eqn:Hxa; [|done]. destruct Ho. by apply outside_anticone. }
    rewrite anticone_size_cons, Hxa, Z.add_0_r. assert (Hxc : x <> c) by (intros ->; done).
    pose proof (co_sizes _ Hco x Hx) as Hs. fold L in Hs. pose proof (Hmk x Hxc Ho) as Hmx.
    inversion Hs as [? ? ? Hz|? D2 ? ? Hnone Hg Ho2 HD2 Hs2]; subst.
    + apply sa_here. cbn. by rewrite Hmx.
    + eapply sa_up; cbn; [by rewrite Hmx|done|done|done|done].
Qed.
End Candidate.

(** ** Colouring the mergeset *)

(** A candidate is new, outside the past of every blue so far, and not in the
    future of the selected parent. *)
Definition candidate_ok (D : GhostdagData) (c : N) : Prop :=
  known c /\ (c ∉ gd_mergeset_blues D ++ base) /\ (forall x, x ∈ gd_mergeset_blues D ++ base -> anc c x = false) /\
  anc sp c = false /\ anc c c = true.

Lemma color_fold cands D :
  coloring D -> NoDup cands -> StronglySorted (fun x c => anc c x = false) cands ->
  (forall c, c ∈ cands -> candidate_ok D c) -> (length (gd_mergeset_blues D ++ base) + length cands + 2 <= fuel)%nat ->
  exists D1, foldM_out (color_candidate fuel self k) D cands = Ok D1 /\ coloring D1 /\
    (gd_mergeset_blues D1, gd_mergeset_reds D1) = foldl (greedy_step anc k base) (gd_mergeset_blues D, gd_mergeset_reds D) cands.
Proof using All.
  revert D. induction cands as [|c cands IH]; intros D Hco Hnd Hss Hok Hf; cbn [foldM_out foldl]; [by exists D|].
  apply NoDup_cons in Hnd as [Hc Hnd]. apply StronglySorted_inv in Hss as [Hss Hall]. rewrite Forall_forall in Hall.
  destruct (Hok c (list_elem_of_here _ _)) as (Hck & Hcf & Hcp & Hcs & Hcr). cbn [length] in Hf.
  destruct (color_step D c) as (D1 & -> & Hco1 & Hg); try done; [lia|]. cbn [obind].
  assert (Hblues : gd_mergeset_blues D1 = gd_mergeset_blues D \/ gd_mergeset_blues D1 = gd_mergeset_blues D ++ [c]).
  { unfold greedy_step in Hg. cbn [fst snd] in Hg. destruct (k_cluster_b _ _ _); injection Hg; auto. }
  destruct (IH D1) as (D2 & -> & Hco2 & Hg2); [done..| | |].
  - intros c' Hc'. destruct (Hok c' (list_elem_of_further _ _ _ Hc')) as (? & Hf' & Hp' & ? & ?).
    split_and!; try done; destruct Hblues as [-> | ->]; try done; rewrite <-app_assoc; cbn.
    + intros [Hin|[->|Hin]%elem_of_cons]%elem_of_app; [|done|]; apply Hf', elem_of_app; auto.
    + intros x [Hin|[->|Hin]%elem_of_cons]%elem_of_app; [apply Hp', elem_of_app; auto|by apply Hall|apply Hp', elem_of_app; auto].
  - destruct Hblues as [-> | ->]; [lia|]. rewrite !length_app in *. cbn [length]. lia.
  - exists D2. split_and!; [done..|]. by rewrite Hg2, Hg.
Qed.
End Color.
