(* ===== verification/GhostdagMergeset.v ===== *)
(** * GHOSTDAG: mergeset, order and selected parent

    The breadth-first walk collects exactly the mergeset; sorting puts it in
    consensus order; the selected parent is the greatest parent in that order. *)

From Stdlib Require Import ZArith Lia Bool.
From stdpp Require Import base gmap numbers list sorting.
From S2P Require Import Prelude ReachabilityStore ReachabilityQueries ReachabilityDag Uint GhostdagStore Difficulty Ghostdag.

#[local] Open Scope Z_scope.

(** ** The order of blocks *)

Lemma sortable_le_iff a b : sortable_le a b <->
  sb_blue_work a < sb_blue_work b \/ (sb_blue_work a = sb_blue_work b /\ (sb_hash a <= sb_hash b)%N).
Proof.
  unfold sortable_le, sortable_cmp. destruct (Z.compare_spec (sb_blue_work a) (sb_blue_work b)) as [He|Hl|Hg].
  - rewrite He. destruct (N.compare_spec (sb_hash a) (sb_hash b)); split; intros; try done; try lia.
  - split; intros; [auto|done].
  - split; [done|lia].
Qed.

#[export] Instance sortable_le_trans : Transitive sortable_le.
Proof. intros a b c. rewrite !sortable_le_iff. lia. Qed.
#[export] Instance sortable_le_total : Total sortable_le.
Proof. intros a b. rewrite !sortable_le_iff. lia. Qed.
#[export] Instance sortable_le_refl : Reflexive sortable_le.
Proof. intros a. rewrite sortable_le_iff. lia. Qed.

Lemma max_sortable_fold x l :
  let m := foldl (fun m y => match sortable_cmp m y with Gt => m | _ => y end) x l in
  (m ∈ x :: l) /\ forall y, y ∈ x :: l -> sortable_le y m.
Proof.
  cbv zeta. revert x. induction l as [|y l IH]; intros x; cbn [foldl].
  { split; [apply list_elem_of_here|]. intros y ->%list_elem_of_singleton. done. }
  set (z := match sortable_cmp x y with Gt => x | _ => y end). destruct (IH z) as [Hin Hmax].
  assert (Hz : (z = x \/ z = y) /\ sortable_le x z /\ sortable_le y z).
  { assert (Htot : sortable_cmp x y = Gt -> sortable_le y x).
    { intros Hg. destruct (total sortable_le x y) as [Hle|]; [|done]. by destruct Hle. }
    subst z. unfold sortable_le at 1. destruct (sortable_cmp x y) eqn:Hc; (split_and!; [auto| |]); try done; try apply Htot; try done;
      try (by rewrite Hc); try reflexivity. fold (sortable_le x x). reflexivity. }
  destruct Hz as (Hz & Hxz & Hyz). split.
  - apply elem_of_cons in Hin as [->|Hin]; [destruct Hz as [-> | ->]; set_solver|set_solver].
  - pose proof (Hmax z (list_elem_of_here _ _)) as Hzm. intros w Hw. rewrite !elem_of_cons in Hw.
    destruct Hw as [->|[->|Hw]]; [by transitivity z|by transitivity z|]. apply Hmax. by apply list_elem_of_further.
Qed.

(** ** The walk *)

Section Walk.
Context (G : dag) (anc : N -> N -> panics bool) (get_parents : N -> sresult (list N)) (sp : N) (ps : list N).
Hypothesis Hclosed : forall h qs q, G !! h = Some qs -> q ∈ qs -> is_Some (G !! q).
Hypothesis Hget : forall h qs, G !! h = Some qs -> get_parents h = Ok qs.
Hypothesis Hanc : forall a, is_Some (G !! a) -> exists b, anc a sp = Ok b /\ (b = true <-> dag_anc G a sp).

Lemma dag_anc_trans a b c : dag_anc G a b -> dag_anc G b c -> dag_anc G a c.
Proof using. intros Hab Hbc. induction Hbc as [|b p c qs Hc Hp Hbp IH]; [done|]. econstructor; [done..|]. by apply IH. Qed.

(** The state of the walk: queued blocks are collected, collected blocks are in
    the mergeset, passed ones in the past of the selected parent, and the parents of
    every block already dequeued are accounted for. *)
Record walk_ok (queue : list N) (M P : gset N) : Prop := mk_walk_ok {
  wk_queue : forall x, x ∈ queue -> x ∈ M;
  wk_mergeset : forall x, x ∈ M -> mergeset_of G sp ps x;
  wk_past : forall x, x ∈ P -> dag_anc G x sp;
  wk_parents : forall p, p ∈ ps -> p <> sp -> p ∈ M;
  wk_closed : forall x qs q, x ∈ M -> (x ∉ queue) -> G !! x = Some qs -> q ∈ qs -> q ∈ M \/ dag_anc G q sp
}.

(** Visiting the parents [qs] of a dequeued block: the state afterwards accounts
    for them, and the queue grows as the mergeset does. *)
Lemma visit_parents_spec qs queue (M P : gset N) :
  (forall q, q ∈ qs -> is_Some (G !! q) /\ exists p, p ∈ ps /\ dag_anc G q p) ->
  (forall x, x ∈ M -> mergeset_of G sp ps x) -> (forall x, x ∈ P -> dag_anc G x sp) ->
  exists q' M' P', foldM_out (visit_parent anc sp) (queue, M, P) qs = Ok (queue ++ q', M', P') /\
    (forall x, x ∈ M' <-> x ∈ M \/ x ∈ q') /\ (forall x, x ∈ q' -> x ∉ M) /\ NoDup q' /\
    (forall x, x ∈ M' -> mergeset_of G sp ps x) /\ (forall x, x ∈ P' -> dag_anc G x sp) /\
    (forall q, q ∈ qs -> q ∈ M' \/ dag_anc G q sp).
Proof using Hanc.
  clear Hget Hclosed get_parents. revert queue M P. induction qs as [|q qs IH]; intros queue M P Hqs HM HP; cbn [foldM_out].
  { exists [], M, P. rewrite app_nil_r. split_and!; try done; [set_solver..|apply NoDup_nil_2|set_solver]. }
  destruct (Hqs q (list_elem_of_here _ _)) as [Hq Hqp].
  assert (Hqs' : forall q, q ∈ qs -> is_Some (G !! q) /\ exists p, p ∈ ps /\ dag_anc G q p)
    by (intros q' Hq'; apply Hqs; by apply list_elem_of_further).
  assert (Hstep : (q ∈ M \/ dag_anc G q sp) /\ visit_parent anc sp (queue, M, P) q = Ok (queue, M, P) \/
    (exists P1, dag_anc G q sp /\ visit_parent anc sp (queue, M, P) q = Ok (queue, M, P1) /\ forall x, x ∈ P1 -> dag_anc G x sp) \/
    (q ∉ M) /\ mergeset_of G sp ps q /\ visit_parent anc sp (queue, M, P) q = Ok (queue ++ [q], {[ q ]} ∪ M, P)).
  { unfold visit_parent. destruct (bool_decide_reflect (q ∈ M)) as [Hm|Hm]; cbn [orb]; [by left; auto|].
    destruct (bool_decide_reflect (q ∈ P)) as [Hp|Hp]; [left; auto|]. destruct (Hanc q Hq) as (b & -> & Hb). cbn [obind].
    destruct b; [right; left|right; right].
    - exists ({[ q ]} ∪ P). split_and!; [by apply Hb|done|]. intros x [->%elem_of_singleton|Hx]%elem_of_union; [by apply Hb|auto].
    - split_and!; [done| |done]. split; [done|]. intros Hd. apply Hb in Hd. done. }
  destruct Hstep as [[Hacc ->]|[(P1 & Hd & -> & HP1)|(Hm & Hms & ->)]]; cbn [obind].
  - destruct (IH queue M P Hqs' HM HP) as (q' & M' & P' & -> & HM' & Hnew & Hnd & HMs & HPs & Hacc').
    exists q', M', P'. split_and!; try done. intros x [->|Hx]%elem_of_cons; [|by apply Hacc'].
    destruct Hacc; [left; apply HM'; auto|auto].
  - destruct (IH queue M P1 Hqs' HM HP1) as (q' & M' & P' & -> & HM' & Hnew & Hnd & HMs & HPs & Hacc').
    exists q', M', P'. split_and!; try done. intros x [->|Hx]%elem_of_cons; [by right|by apply Hacc'].
  - destruct (IH (queue ++ [q]) ({[ q ]} ∪ M) P Hqs') as (q' & M' & P' & -> & HM' & Hnew & Hnd & HMs & HPs & Hacc').
    { intros x [->%elem_of_singleton|Hx]%elem_of_union; auto. } { done. }
    exists (q :: q'), M', P'. rewrite <-app_assoc. split_and!; try done.
    + intros x. rewrite HM', elem_of_cons. set_solver.
    + intros x [->|Hx]%elem_of_cons; [done|]. specialize (Hnew x Hx). set_solver.
    + apply NoDup_cons. split; [|done]. intros Hq'. specialize (Hnew q Hq'). set_solver.
    + intros x [->|Hx]%elem_of_cons; [|by apply Hacc']. left. apply HM'. set_solver.
Qed.

Lemma mergeset_in_dag x : mergeset_of G sp ps x -> is_Some (G !! x).
Proof using. intros [(p & _ & Hx) _]. by eapply dag_anc_in_l. Qed.

Lemma mergeset_loop_spec fuel queue M P :
  walk_ok queue M P -> (length queue + (size (dom G) - size M) < fuel)%nat ->
  exists M', mergeset_loop get_parents anc fuel sp queue M P = Ok M' /\ forall x, x ∈ M' <-> mergeset_of G sp ps x.
Proof using All.
  revert queue M P. induction fuel as [|fuel IH]; intros queue M P Hw Hf; [lia|]. cbn [mergeset_loop].
  destruct queue as [|cur queue].
  { exists M. split; [done|]. intros x. split; [apply Hw|]. intros [(p & Hp & Hx) Hns].
    assert (Hreach : forall b, dag_anc G x b -> b ∈ M -> x ∈ M).
    { intros b Hb. induction Hb as [|x q b qs Hq Hin Hxq IHb]; [done|]. intros HbM.
      destruct (wk_closed _ _ _ Hw b qs q HbM) as [?|?]; [apply not_elem_of_nil|done|done|by apply IHb|].
      destruct Hns. by eapply dag_anc_trans. }
    apply (Hreach p Hx), (wk_parents _ _ _ Hw p Hp). intros ->. done. }
  assert (Hcur : cur ∈ M) by apply (wk_queue _ _ _ Hw), list_elem_of_here.
  pose proof (wk_mergeset _ _ _ Hw cur Hcur) as Hms. destruct (mergeset_in_dag cur Hms) as [qs Hqs].
  rewrite (Hget cur qs Hqs). cbn [unwrap_res obind].
  destruct (visit_parents_spec qs queue M P) as (q' & M' & P' & -> & HM' & Hnew & Hnd & HMs & HPs & Hacc).
  { intros q Hq. split; [by eapply Hclosed|]. destruct Hms as [(p & Hp & Hcp) _]. exists p. split; [done|].
    eapply dag_anc_trans; [|done]. econstructor; [done..|]. constructor. by eapply Hclosed. }
  { apply Hw. } { apply Hw. }
  cbn [obind]. apply IH.
  - split; [|done|done| |].
    + intros x [Hx|Hx]%elem_of_app; apply HM'; [left; apply (wk_queue _ _ _ Hw); by apply list_elem_of_further|auto].
    + intros p Hp Hne. apply HM'. left. by apply (wk_parents _ _ _ Hw).
    + intros x ys y Hx Hxq Hys Hy. destruct (decide (x = cur)) as [->|Hne].
      * rewrite Hqs in Hys. injection Hys as <-. by apply Hacc.
      * apply HM' in Hx as [Hx|Hx]; [|destruct Hxq; apply elem_of_app; auto].
        destruct (wk_closed _ _ _ Hw x ys y Hx) as [?|?]; [|done|done|left; apply HM'; auto|auto].
        intros [->|Hin]%elem_of_cons; [done|]. apply Hxq, elem_of_app. auto.
  - assert (HMeq : M' = M ∪ list_to_set q').
    { apply set_eq. intros x. rewrite HM', elem_of_union, elem_of_list_to_set. done. }
    assert (Hsz : size M' = (size M + length q')%nat).
    { rewrite HMeq, size_union, size_list_to_set; [done|done|]. intros x Hx1 Hx2%elem_of_list_to_set. by apply (Hnew x). }
    assert (Hle : (size M' <= size (dom G))%nat).
    { apply subseteq_size. intros x Hx. apply elem_of_dom, mergeset_in_dag. by apply HMs. }
    rewrite length_app. cbn [length] in Hf. lia.
Qed.

(** For parents no one of which is in the past of another, the walk returns the
    mergeset of the new block. *)
Hypothesis Hps : forall p, p ∈ ps -> is_Some (G !! p).
Hypothesis Hanti : forall p, p ∈ ps -> dag_anc G p sp -> p = sp.

Lemma unordered_mergeset_spec fuel :
  (length ps + size (dom G) < fuel)%nat ->
  exists M, unordered_mergeset_without_selected_parent get_parents anc fuel sp ps = Ok M /\ forall x, x ∈ M <-> mergeset_of G sp ps x.
Proof using All.
  intros Hf. apply mergeset_loop_spec.
  - split.
    + intros x Hx. by apply elem_of_list_to_set.
    + intros x Hx%elem_of_list_to_set. apply list_elem_of_filter in Hx as [Hne Hx]. split.
      * exists x. split; [done|]. constructor. by apply Hps.
      * intros Hd. by apply Hne, Hanti.
    + intros x Hx. by apply not_elem_of_empty in Hx.
    + intros p Hp Hne. apply elem_of_list_to_set, list_elem_of_filter. done.
    + intros x qs q Hx Hnx. apply elem_of_list_to_set in Hx. done.
  - pose proof (length_filter (fun p => p <> sp) ps). lia.
Qed.
End Walk.
