(* ===== verification/GhostdagBlocks.v ===== *)
(** * GHOSTDAG: adding a block

    The invariant that ties the GHOSTDAG store to the DAG, and its preservation when
    the data the protocol computes for a new block is added. *)

From Stdlib Require Import ZArith Lia Bool.
From stdpp Require Import base gmap numbers list sorting.
From S2P Require Import Prelude ReachabilityStore ReachabilityQueries ReachabilityDag Uint GhostdagStore Difficulty Ghostdag GhostdagColor GhostdagMergeset.

#[local] Open Scope Z_scope.

(** A boolean test of ancestry in a DAG. *)
Definition decides (G : dag) (anc : N -> N -> bool) : Prop :=
  forall a b, is_Some (G !! a) -> is_Some (G !! b) -> anc a b = true <-> dag_anc G a b.

(** Blocks that count: the origin carries neither score nor work. *)
Definition counted (l : list N) : list N := filter (fun x => x <> hash_ORIGIN) l.

Section Invariant.
Context (genesis : N) (k : Z) (w : N -> Z).

(** The data [D] of block [b] describes its blue past [l]: a k-cluster in the
    strict past of [b], with the right anticone sizes, score and work. *)
Record block_ok (anc : N -> N -> bool) (S : gmap N GhostdagData) (b : N) (D : GhostdagData) (l : list N) : Prop := mk_block_ok {
  bk_list : blue_list S D l;
  bk_nodup : NoDup l;
  bk_past : forall x, x ∈ l -> is_Some (S !! x) /\ anc x b = true /\ x <> b;
  bk_cluster : k_cluster anc k l;
  bk_sizes : forall x, x ∈ l -> size_at genesis S D x (anticone_size anc l x);
  bk_score : gd_blue_score D = Z.of_nat (length (counted l));
  bk_work : gd_blue_work D = zsum (List.map w (counted l))
}.

Record ghostdag_ok (G : dag) (anc : N -> N -> bool) (S : gmap N GhostdagData) : Prop := mk_ghostdag_ok {
  go_dom : forall h, is_Some (G !! h) <-> is_Some (S !! h);
  go_closed : forall h qs q, G !! h = Some qs -> q ∈ qs -> is_Some (G !! q);
  go_anc : decides G anc;
  go_origin : G !! hash_ORIGIN = Some [];
  go_root : forall h, is_Some (G !! h) -> dag_anc G hash_ORIGIN h;
  go_genesis : forall D, S !! genesis = Some D -> gd_selected_parent D = hash_ORIGIN /\ gd_mergeset_blues D = [];
  go_increasing : forall b qs p D Dp, G !! b = Some qs -> p ∈ qs -> p <> hash_ORIGIN ->
    S !! b = Some D -> S !! p = Some Dp -> gd_blue_work Dp < gd_blue_work D;
  go_blocks : forall b D, S !! b = Some D -> b <> hash_ORIGIN -> exists l, block_ok anc S b D l
}.
End Invariant.

Section Facts.
Context (genesis : N) (k : Z) (w : N -> Z) (G : dag) (anc : N -> N -> bool) (S : gmap N GhostdagData).
Hypothesis Hok : ghostdag_ok genesis k w G anc S.

Lemma anc_iff a b : is_Some (S !! a) -> is_Some (S !! b) -> anc a b = true <-> dag_anc G a b.
Proof using Hok. intros Ha Hb. apply (go_anc _ _ _ _ _ _ Hok); by apply (go_dom _ _ _ _ _ _ Hok). Qed.

Lemma anc_false a b : is_Some (S !! a) -> is_Some (S !! b) -> ~ dag_anc G a b -> anc a b = false.
Proof using Hok. intros Ha Hb Hn. destruct (anc a b) eqn:He; [|done]. by apply anc_iff in He. Qed.

Lemma dag_known_l a b : dag_anc G a b -> is_Some (S !! a).
Proof using Hok. intros Hd. apply (go_dom _ _ _ _ _ _ Hok). by eapply dag_anc_in_l. Qed.
Lemma dag_known_r a b : dag_anc G a b -> is_Some (S !! b).
Proof using Hok. intros Hd. apply (go_dom _ _ _ _ _ _ Hok). by eapply dag_anc_in_r. Qed.

(** Only the origin is in the past of the origin. *)
Lemma origin_past a : dag_anc G a hash_ORIGIN -> a = hash_ORIGIN.
Proof using Hok.
  intros Hd. inversion Hd as [|? p ? qs Hq Hp _]; subst; [done|]. rewrite (go_origin _ _ _ _ _ _ Hok) in Hq.
  injection Hq as <-. by apply not_elem_of_nil in Hp.
Qed.

(** Blue work grows from a block to its strict descendants. *)
Lemma work_increasing a b Da Db :
  dag_anc G a b -> a <> b -> a <> hash_ORIGIN -> S !! a = Some Da -> S !! b = Some Db -> gd_blue_work Da < gd_blue_work Db.
Proof using Hok.
  intros Hd. revert Db. induction Hd as [|a p b qs Hb Hp Hap IH]; intros Db Hne Ho Ha HDb; [done|].
  assert (Hpo : p <> hash_ORIGIN) by (intros ->; by apply Ho, origin_past).
  destruct (dag_known_r _ _ Hap) as [Dp HDp].
  assert (gd_blue_work Dp < gd_blue_work Db) by (eapply (go_increasing _ _ _ _ _ _ Hok); eauto).
  destruct (decide (a = p)) as [->|Hap']; [congruence|]. specialize (IH Dp Hap' Ho Ha HDp). lia.
Qed.

(** The blue list of a stored block. *)
Lemma stored_list h D l : S !! h = Some D -> h <> hash_ORIGIN -> blue_list S D l -> block_ok genesis k w anc S h D l.
Proof using Hok.
  intros HD Hh Hl. destruct (go_blocks _ _ _ _ _ _ Hok h D HD Hh) as (l' & Hb).
  by rewrite (blue_list_unique S D l l' Hl (bk_list _ _ _ _ _ _ _ _ Hb)).
Qed.
End Facts.

(** ** Sorting and selection over a store *)

Section Order.
Context {St U H : Type} `{GhostdagStoreReader St} `{ReachabilityService U} `{HeaderStoreReader H}.
Context (self : GhostdagManager St U H) (S : gmap N GhostdagData).
Hypothesis Hreads : reads_map (gm_ghostdag_store self) S.

Definition work_of (h : N) : Z := match S !! h with Some D => gd_blue_work D | None => 0 end.
Definition key_of (h : N) : SortableBlock := mk_sortable h (work_of h).

Lemma sortable_of_spec h : is_Some (S !! h) -> sortable_of self h = Ok (key_of h).
Proof using Hreads.
  intros [D HD]. unfold sortable_of, key_of, work_of. rewrite (rm_work (m := S)), HD. done.
Qed.

Lemma sort_blocks_spec blocks :
  (forall h, h ∈ blocks -> is_Some (S !! h)) ->
  exists l, sort_blocks self blocks = Ok l /\ l ≡ₚ blocks /\ StronglySorted (fun x y => sortable_le (key_of x) (key_of y)) l.
Proof using Hreads.
  intros Hb. unfold sort_blocks. rewrite (mapM_out_Ok _ key_of) by (intros x Hx; by apply sortable_of_spec, Hb). cbn [obind].
  set (sorted := merge_sort sortable_le (List.map key_of blocks)). eexists. split; [done|].
  pose proof (merge_sort_Permutation sortable_le (List.map key_of blocks)) as Hp. fold sorted in Hp. split.
  - rewrite Hp, List.map_map. cbn. by rewrite List.map_id.
  - assert (Hk : Forall (fun z => z = key_of (sb_hash z)) sorted).
    { rewrite Hp. apply Forall_forall. intros z Hz%list_elem_of_In. apply in_map_iff in Hz as (h & <- & _). done. }
    pose proof (StronglySorted_merge_sort sortable_le (List.map key_of blocks)) as Hs. fold sorted in Hs.
    clear Hp. induction Hs as [|z l Hs IH Hz]; [constructor|]. apply Forall_cons in Hk as [Hkz Hk]. cbn [List.map].
    constructor; [by apply IH|]. apply Forall_map, Forall_forall. intros y Hy.
    rewrite Forall_forall in Hz, Hk. rewrite <-Hkz, <-(Hk y Hy). by apply Hz.
Qed.

Lemma find_selected_parent_spec ps :
  ps <> [] -> (forall p, p ∈ ps -> is_Some (S !! p)) ->
  exists sp, find_selected_parent self ps = Ok sp /\ (sp ∈ ps) /\ forall p, p ∈ ps -> sortable_le (key_of p) (key_of sp).
Proof using Hreads.
  intros Hne Hps. unfold find_selected_parent. rewrite (mapM_out_Ok _ key_of) by (intros x Hx; by apply sortable_of_spec, Hps).
  cbn [obind]. destruct ps as [|p ps]; [done|]. cbn [List.map max_sortable unwrap obind].
  destruct (max_sortable_fold (key_of p) (List.map key_of ps)) as [Hin Hmax]. set (m := foldl _ _ _) in *.
  assert (Hm : exists sp, m = key_of sp /\ sp ∈ p :: ps).
  { apply list_elem_of_In in Hin. change (key_of p :: List.map key_of ps) with (List.map key_of (p :: ps)) in Hin.
    apply in_map_iff in Hin as (sp & <- & Hsp). exists sp. split; [done|]. by apply list_elem_of_In. }
  destruct Hm as (sp & -> & Hsp). exists sp. split_and!; [done..|]. intros q Hq. apply Hmax.
  apply list_elem_of_In. change (key_of p :: List.map key_of ps) with (List.map key_of (p :: ps)). apply in_map. by apply list_elem_of_In.
Qed.
End Order.

(** ** The data of a new block *)

(** What the computed data says of a block with parents [ps] that is yet to be
    added: as [block_ok], with the past of the parents for the past of the block. *)
Record new_block_ok (genesis : N) (k : Z) (w : N -> Z) (G : dag) (anc : N -> N -> bool) (S : gmap N GhostdagData)
    (ps : list N) (D : GhostdagData) (l : list N) : Prop := mk_new_block_ok {
  nb_list : blue_list S D l;
  nb_nodup : NoDup l;
  nb_past : forall x, x ∈ l -> exists p, p ∈ ps /\ dag_anc G x p;
  nb_cluster : k_cluster anc k l;
  nb_sizes : forall x, x ∈ l -> size_at genesis S D x (anticone_size anc l x);
  nb_score : gd_blue_score D = Z.of_nat (length (counted l));
  nb_work : gd_blue_work D = zsum (List.map w (counted l))
}.

Lemma StronglySorted_weaken {A} (R R' : A -> A -> Prop) l :
  NoDup l -> (forall x y, x ∈ l -> y ∈ l -> x <> y -> R x y -> R' x y) -> StronglySorted R l -> StronglySorted R' l.
Proof.
  intros Hnd HR Hs. induction Hs as [|x l Hs IH Hx]; [constructor|]. apply NoDup_cons in Hnd as [Hxl Hnd]. constructor.
  - apply IH; [done|]. intros y z Hy Hz. apply HR; by apply list_elem_of_further.
  - rewrite Forall_forall in Hx |- *. intros y Hy. apply HR; [apply list_elem_of_here|by apply list_elem_of_further|by intros ->|by apply Hx].
Qed.

Lemma work_sum_from acc l :
  0 <= acc -> Forall (fun x => 0 <= x) l -> acc + zsum l < U192 -> foldl work_add acc l = acc + zsum l.
Proof.
  intros Ha Hl. revert acc Ha. induction Hl as [|x l Hx Hl IH]; intros acc Ha Hlt; cbn [foldl zsum] in *; [lia|].
  pose proof (zsum_nonneg l Hl). unfold work_add at 2. rewrite Z.mod_small by lia. rewrite IH by lia. lia.
Qed.

Lemma work_sum_spec l : Forall (fun x => 0 <= x) l -> zsum l < U192 -> work_sum l = zsum l.
Proof. intros Hl Hlt. destruct Hl as [|x l Hx Hl]; [done|]. cbn [work_sum zsum] in *. by apply work_sum_from. Qed.

Section NewBlock.
Context {St U H : Type} `{GhostdagStoreReader St} `{ReachabilityService U} `{HeaderStoreReader H}.
Context (fuel : nat) (self : GhostdagManager St U H) (G : dag) (anc : N -> N -> bool) (S : gmap N GhostdagData) (w : N -> Z) (ps : list N).
Let k := gm_k self.
Let genesis := gm_genesis_hash self.
Hypothesis Hok : ghostdag_ok genesis k w G anc S.
Hypothesis Hreads : reads_map (gm_ghostdag_store self) S.
Hypothesis Hget : forall h qs, G !! h = Some qs -> gm_relations_store self h = Ok qs.
Hypothesis Hanc : forall a b, is_Some (S !! a) -> is_Some (S !! b) ->
  service_is_dag_ancestor_of (gm_reachability_service self) a b = Ok (anc a b).
Hypothesis Hwork : forall h, is_Some (S !! h) -> h <> hash_ORIGIN -> blue_block_work self h = Ok (w h) /\ 0 < w h <= 2 ^ 128.
Hypothesis Hk : 0 <= k < U16 - 1.
Hypothesis Hsize : Z.of_nat (size (dom G)) < U64.
Hypothesis Hfuel : (length ps + 2 * size (dom G) + 4 <= fuel)%nat.
Hypothesis Hps : forall p, p ∈ ps -> is_Some (S !! p).
Hypothesis Hanti : forall p q, p ∈ ps -> q ∈ ps -> dag_anc G p q -> p = q.

Lemma known_refl h : is_Some (S !! h) -> anc h h = true.
Proof using Hok. intros Hh. apply (anc_iff _ _ _ _ _ _ Hok h h Hh Hh). constructor. by apply (go_dom _ _ _ _ _ _ Hok). Qed.

Lemma known_origin : is_Some (S !! hash_ORIGIN).
Proof using Hok. apply (go_dom _ _ _ _ _ _ Hok). rewrite (go_origin _ _ _ _ _ _ Hok). eauto. Qed.

Lemma anc_trans_known a b c : is_Some (S !! a) -> is_Some (S !! b) -> is_Some (S !! c) ->
  anc a b = true -> anc b c = true -> anc a c = true.
Proof using Hok.
  intros Ha Hb Hc Hab Hbc. apply (anc_iff _ _ _ _ _ _ Hok) in Hab, Hbc; [|done..].
  apply (anc_iff _ _ _ _ _ _ Hok); [done..|]. by eapply dag_anc_trans.
Qed.

Lemma list_in_dag l : NoDup l -> (forall x, x ∈ l -> is_Some (S !! x)) -> (length l <= size (dom G))%nat.
Proof using Hok.
  intros Hnd Hl. rewrite <-(size_list_to_set (C := gset N)) by done. apply subseteq_size. intros x Hx%elem_of_list_to_set.
  apply elem_of_dom, (go_dom _ _ _ _ _ _ Hok). by apply Hl.
Qed.

Section Selected.
Context (sp : N) (D' : GhostdagData) (base : list N).
Hypothesis Hsp : sp ∈ ps.
Hypothesis Hspo : sp <> hash_ORIGIN.
Hypothesis HD' : S !! sp = Some D'.
Hypothesis Hb : block_ok genesis k w anc S sp D' base.

Lemma base_past x : x ∈ base -> is_Some (S !! x) /\ dag_anc G x sp /\ x <> sp.
Proof using All.
  intros Hx. destruct (bk_past _ _ _ _ _ _ _ _ Hb x Hx) as (Hk' & Ha & Hne). split_and!; [done| |done].
  apply (anc_iff _ _ _ _ _ _ Hok); [done|eauto|done].
Qed.

Definition initial_data : GhostdagData := mk_gd 0 0 sp [sp] [] {[ sp := 0 ]}.

Lemma initial_size x : x ∈ sp :: base ->
  anticone_size anc (sp :: base) x = if decide (x = sp) then 0 else anticone_size anc base x.
Proof using All.
  intros Hx. rewrite anticone_size_cons. assert (Hsps : is_Some (S !! sp)) by eauto.
  assert (Hz : forall y, y ∈ base -> anticone anc sp y = false).
  { intros y Hy. destruct (base_past y Hy) as (Hyk & Hyd & _). apply (anc_iff _ _ _ _ _ _ Hok) in Hyd; [|done..].
    unfold anticone. rewrite Hyd. apply andb_false_r. }
  case_decide as Hxs.
  - subst x. assert (anticone anc sp sp = false) as -> by (unfold anticone; by rewrite (known_refl sp Hsps)).
    cbn [Z.b2z]. rewrite Z.add_0_r. unfold anticone_size.
    assert (Hf : filter (fun y => anticone anc sp y = true) base = []).
    { clear -Hz. induction base as [|y l IH]; [done|]. rewrite filter_cons, decide_False.
      - apply IH. intros; apply Hz; by apply list_elem_of_further.
      - rewrite Hz by apply list_elem_of_here. done. }
    by rewrite Hf.
  - apply elem_of_cons in Hx as [->|Hx]; [done|]. rewrite anticone_sym, (Hz x Hx). cbn. lia.
Qed.

Lemma initial_coloring : coloring self S anc sp base initial_data.
Proof using All.
  split; cbn [gd_selected_parent gd_mergeset_blues gd_blues_anticone_sizes initial_data].
  - done.
  - exists []. split; [done|]. intros x Hx. by apply not_elem_of_nil in Hx.
  - apply NoDup_cons. split; [|apply Hb]. intros Hx. by destruct (base_past sp Hx) as (_ & _ & ?).
  - intros x [->|Hx]%elem_of_cons; [eauto|]. by destruct (base_past x Hx).
  - intros x Hx. cbn [app] in *. rewrite initial_size by done. case_decide; [lia|]. apply elem_of_cons in Hx as [?|Hx]; [done|].
    by apply (bk_cluster _ _ _ _ _ _ _ _ Hb).
  - intros x Hx. cbn [app] in *. rewrite initial_size by done. case_decide as Hxs; [subst x; apply sa_here; cbn; by rewrite lookup_singleton_eq|].
    apply elem_of_cons in Hx as [?|Hx]; [done|]. apply (sa_up _ _ _ D').
    + cbn. by rewrite lookup_singleton_ne by done.
    + cbn. intros Hg. assert (Hg' : S !! genesis = Some D') by (unfold genesis; rewrite <-Hg; done).
      destruct (go_genesis _ _ _ _ _ _ Hok D' Hg') as [Hgo Hgb]. pose proof (bk_list _ _ _ _ _ _ _ _ Hb) as Hl.
      rewrite (blue_list_unique _ _ _ _ Hl (bl_base _ _ Hgo)), Hgb in Hx. by apply not_elem_of_nil in Hx.
    + done.
    + done.
    + by apply (bk_sizes _ _ _ _ _ _ _ _ Hb).
Qed.

(** The candidates in consensus order, each fit to be coloured after the ones before. *)
Lemma candidates_spec :
  exists cands, ordered_mergeset_without_selected_parent fuel self sp ps = Ok cands /\ NoDup cands /\
    (forall x, x ∈ cands <-> mergeset_of G sp ps x) /\
    StronglySorted (fun x y => sortable_le (key_of S x) (key_of S y)) cands /\
    StronglySorted (fun x c => anc c x = false) cands /\ (forall c, c ∈ cands -> candidate_ok S anc sp base initial_data c).
Proof using All.
  assert (Hsps : is_Some (S !! sp)) by eauto.
  destruct (unordered_mergeset_spec G (service_is_dag_ancestor_of (gm_reachability_service self)) (gm_relations_store self) sp ps)
    with (fuel := fuel) as (M & HM & HMs); try done.
  { apply (go_closed _ _ _ _ _ _ Hok). }
  { intros a Ha. apply (go_dom _ _ _ _ _ _ Hok) in Ha. exists (anc a sp). split; [by apply Hanc|]. by apply (anc_iff _ _ _ _ _ _ Hok). }
  { intros p Hp. by apply (go_dom _ _ _ _ _ _ Hok), Hps. }
  { intros p Hp Hd. by apply Hanti. }
  { lia. }
  assert (Hkn : forall x, mergeset_of G sp ps x -> is_Some (S !! x)) by (intros x [(p & _ & Hx) _]; by eapply dag_known_l).
  unfold ordered_mergeset_without_selected_parent. rewrite HM. cbn [obind].
  destruct (sort_blocks_spec self S Hreads (elements M)) as (cands & -> & Hperm & Hsort).
  { intros h Hh. apply Hkn, HMs. by apply elem_of_elements. }
  assert (Hin : forall x, x ∈ cands <-> mergeset_of G sp ps x) by (intros x; rewrite Hperm, elem_of_elements; apply HMs).
  assert (Hnd : NoDup cands) by (rewrite Hperm; apply NoDup_elements).
  assert (Hnotsp : forall c x, c ∈ cands -> dag_anc G x sp -> is_Some (S !! x) -> anc c x = false).
  { intros c x Hc Hx Hxk. apply Hin in Hc as Hms. apply (anc_false _ _ _ _ _ _ Hok); [by apply Hkn|done|].
    intros Hcx. apply Hms. by eapply dag_anc_trans. }
  exists cands. split_and!; try done.
  - apply (StronglySorted_weaken (fun x y => sortable_le (key_of S x) (key_of S y))); [done| |done].
    intros x c Hx Hc Hne Hle. apply Hin in Hx as Hxm. apply Hin in Hc as Hcm.
    destruct (Hkn x Hxm) as [Dx HDx], (Hkn c Hcm) as [Dc HDc]. apply (anc_false _ _ _ _ _ _ Hok); [eauto..|]. intros Hcx.
    assert (c <> hash_ORIGIN) by (intros ->; apply Hcm, (go_root _ _ _ _ _ _ Hok); by apply (go_dom _ _ _ _ _ _ Hok)).
    pose proof (work_increasing _ _ _ _ _ _ Hok c x Dc Dx Hcx ltac:(congruence) ltac:(done) HDc HDx).
    apply sortable_le_iff in Hle. unfold key_of, work_of in Hle. cbn in Hle. rewrite HDx, HDc in Hle. lia.
  - intros c Hc. apply Hin in Hc as Hms. destruct (Hkn c Hms) as [Dc HDc]. assert (Hck : is_Some (S !! c)) by eauto.
    assert (Hall : forall x, x ∈ [sp] ++ base -> is_Some (S !! x) /\ dag_anc G x sp).
    { cbn. intros x [->|Hx]%elem_of_cons; [split; [done|constructor; by apply (go_dom _ _ _ _ _ _ Hok)]|].
      by destruct (base_past x Hx) as (? & ? & _). }
    split_and!; [done| | | |by apply known_refl].
    + intros Hx. cbn [initial_data gd_mergeset_blues] in Hx. by apply Hms, Hall.
    + intros x Hx. cbn [initial_data gd_mergeset_blues] in Hx. apply Hnotsp; [done|by apply Hall|by apply Hall].
    + apply (anc_false _ _ _ _ _ _ Hok); [done..|]. intros Hspc. destruct Hms as [(p & Hp & Hcp) Hns].
      assert (sp = p) as -> by (apply Hanti; [done..|by eapply dag_anc_trans]). done.
Qed.

Lemma counted_app l1 l2 : counted (l1 ++ l2) = counted l1 ++ counted l2.
Proof using. apply filter_app. Qed.

(** No blue of the mergeset is the origin, which is in the past of every block. *)
Lemma blues_counted D : coloring self S anc sp base D -> counted (gd_mergeset_blues D) = gd_mergeset_blues D.
Proof using All.
  intros Hco. assert (Hno : forall x, x ∈ gd_mergeset_blues D -> x <> hash_ORIGIN).
  { destruct (co_head _ _ _ _ _ _ Hco) as (bs & -> & Hbs). intros x [->|Hx]%elem_of_cons; [done|]. intros ->.
    specialize (Hbs _ Hx). unfold anticone in Hbs. apply andb_true_iff in Hbs as [_ Hbs]. apply negb_true_iff in Hbs.
    assert (is_Some (S !! sp)) by eauto. assert (anc hash_ORIGIN sp = true); [|congruence].
    apply (anc_iff _ _ _ _ _ _ Hok); [apply known_origin|done|]. apply (go_root _ _ _ _ _ _ Hok). by apply (go_dom _ _ _ _ _ _ Hok). }
  unfold counted. induction (gd_mergeset_blues D) as [|x l IH]; [done|]. rewrite filter_cons, decide_True by apply Hno, list_elem_of_here.
  rewrite IH; [done|]. intros; apply Hno; by apply list_elem_of_further.
Qed.

(** Sums of works stay within 192 bits. *)
Lemma works_bound l : NoDup l -> (forall x, x ∈ l -> is_Some (S !! x) /\ x <> hash_ORIGIN) ->
  Forall (fun x => 0 <= x) (List.map w l) /\ zsum (List.map w l) < U192.
Proof using All.
  intros Hnd Hl. pose proof (list_in_dag l Hnd (fun x Hx => proj1 (Hl x Hx))) as Hlen.
  assert (Hall : Forall (fun x => 0 < x <= 2 ^ 128) (List.map w l)).
  { apply Forall_map, Forall_forall. intros x Hx. destruct (Hl x Hx). by apply Hwork. }
  split; [eapply Forall_impl; [exact Hall|]; cbv beta; lia|].
  assert (Hz : zsum (List.map w l) <= Z.of_nat (length l) * 2 ^ 128).
  { clear -Hall. induction l as [|x l IH]; [cbn; lia|]. cbn [List.map zsum length] in *. apply Forall_cons in Hall as [? Hall].
    specialize (IH Hall). lia. }
  unfold U192. change (2 ^ 192) with (U64 * 2 ^ 128). nia.
Qed.

(** The fields set last do not matter for colouring. *)
Lemma finalize_sizes D score work x z :
  size_at genesis S D x z -> size_at genesis S (finalize_score_and_work D score work) x z.
Proof using. inversion 1; subst; [by apply sa_here|by eapply sa_up]. Qed.

Lemma finalize_list D score work l : blue_list S D l -> blue_list S (finalize_score_and_work D score work) l.
Proof using.
  inversion 1; subst.
  - by apply (bl_base S (finalize_score_and_work D score work)).
  - by eapply (bl_step S (finalize_score_and_work D score work)).
Qed.

(** Blues of the colouring are the selected parent and candidates. *)
Lemma greedy_blues cands x :
  (x ∈ (greedy anc k base sp cands).1) -> x = sp \/ x ∈ cands.
Proof using.
  unfold greedy. intros Hx.
  assert (Hgen : forall st, x ∈ (foldl (greedy_step anc k base) st cands).1 -> x ∈ st.1 \/ x ∈ cands).
  { clear Hx. induction cands as [|c cands IH]; intros st; cbn [foldl]; [auto|]. intros [Hs|Hc]%IH; [|right; by apply list_elem_of_further].
    unfold greedy_step in Hs. destruct (k_cluster_b _ _ _); cbn in Hs; [|auto].
    apply elem_of_app in Hs as [?| ->%list_elem_of_singleton]; [auto|right; apply list_elem_of_here]. }
  apply Hgen in Hx as [->%list_elem_of_singleton|?]; auto.
Qed.

Lemma blues_past D cands x :
  coloring self S anc sp base D -> (gd_mergeset_blues D, gd_mergeset_reds D) = greedy anc k base sp cands ->
  (forall x, x ∈ cands <-> mergeset_of G sp ps x) -> x ∈ gd_mergeset_blues D ++ base -> exists p, p ∈ ps /\ dag_anc G x p.
Proof using All.
  intros Hco Hg Hc [Hx|Hx]%elem_of_app.
  - assert (Hx' : x ∈ (greedy anc k base sp cands).1) by (rewrite <-Hg; done).
    apply greedy_blues in Hx' as [->|Hx']; [|apply Hc in Hx' as [? _]; done].
    exists sp. split; [done|]. constructor. apply (go_dom _ _ _ _ _ _ Hok). eauto.
  - exists sp. split; [done|]. by apply base_past.
Qed.

Lemma ghostdag_selected :
  find_selected_parent self ps = Ok sp ->
  exists D cands, ghostdag fuel self ps = Ok D /\ gd_selected_parent D = sp /\
    (forall x, x ∈ cands <-> mergeset_of G sp ps x) /\ NoDup cands /\
    StronglySorted (fun x y => sortable_le (key_of S x) (key_of S y)) cands /\
    (gd_mergeset_blues D, gd_mergeset_reds D) = greedy anc k base sp cands /\
    new_block_ok genesis k w G anc S ps D (gd_mergeset_blues D ++ base).
Proof using All.
  intros Hfind. unfold ghostdag. assert (Hne : (length ps =? 0)%nat = false) by (destruct ps; [by apply not_elem_of_nil in Hsp|done]).
  rewrite Hne. cbn [negb rassert obind]. rewrite Hfind. cbn [obind]. rewrite (proj2 (N.eqb_neq _ _) Hspo). cbv zeta.
  unfold new_with_selected_parent. change (gm_k self) with k. rewrite uadd_lt by lia. cbn [obind]. fold initial_data.
  destruct candidates_spec as (cands & -> & Hnd & Hin & Hsort & Htopo & Hcok). cbn [obind].
  assert (Hnd1 : NoDup (sp :: base)) by apply (co_nodup _ _ _ _ _ _ initial_coloring).
  assert (Hlen1 : (length (sp :: base) <= size (dom G))%nat) by (apply list_in_dag; [done|apply (co_known _ _ _ _ _ _ initial_coloring)]).
  assert (Hlen2 : (length cands <= size (dom G))%nat).
  { apply list_in_dag; [done|]. intros x Hx. apply Hcok, Hx. }
  destruct (color_fold fuel self S anc Hreads Hanc Hk) with (sp := sp) (D' := D') (base := base) (cands := cands) (D := initial_data)
    as (D1 & HD1 & Hco & Hg); try done.
  { apply anc_trans_known. }
  { apply known_origin. }
  { intros h Hh. apply (anc_iff _ _ _ _ _ _ Hok); [apply known_origin|done|]. by apply (go_root _ _ _ _ _ _ Hok), (go_dom _ _ _ _ _ _ Hok). }
  { intros h Dh l HDh Hho Hl x Hx. pose proof (stored_list _ _ _ _ _ _ Hok h Dh l HDh Hho Hl) as Hbl.
    by destruct (bk_past _ _ _ _ _ _ _ _ Hbl x Hx) as (? & ? & _). }
  { apply Hb. } { apply initial_coloring. } { cbn [initial_data gd_mergeset_blues app] in *. lia. }
  change (gm_k self) with k in HD1. rewrite HD1. cbn [obind].
  assert (HL : (length (gd_mergeset_blues D1 ++ base) <= size (dom G))%nat)
    by (apply list_in_dag; [apply (co_nodup _ _ _ _ _ _ Hco)|apply (co_known _ _ _ _ _ _ Hco)]).
  pose proof (blues_counted D1 Hco) as Hbc.
  rewrite (rm_score (m := S)), HD'. cbn [unwrap_res obind]. rewrite (bk_score _ _ _ _ _ _ _ _ Hb).
  assert (Hcl : (length (counted base) <= length base)%nat) by apply length_filter.
  rewrite length_app in HL. rewrite uadd_lt by lia. cbn [obind].
  assert (Hbk : forall x, x ∈ gd_mergeset_blues D1 -> is_Some (S !! x) /\ x <> hash_ORIGIN).
  { intros x Hx. split; [apply (co_known _ _ _ _ _ _ Hco), elem_of_app; auto|]. rewrite <-Hbc in Hx. by apply list_elem_of_filter in Hx as [? _]. }
  rewrite (mapM_out_Ok _ w) by (intros x Hx; destruct (Hbk x Hx); by apply Hwork). cbn [obind].
  rewrite (rm_work (m := S)), HD'. cbn [unwrap_res obind].
  assert (Hndc : NoDup (counted (gd_mergeset_blues D1 ++ base))) by (apply NoDup_filter, Hco).
  destruct (works_bound (counted (gd_mergeset_blues D1 ++ base)) Hndc) as [Hpos Hlt].
  { intros x Hx. apply list_elem_of_filter in Hx as [Hxo Hx]. split; [by apply (co_known _ _ _ _ _ _ Hco)|done]. }
  rewrite counted_app, Hbc, List.map_app in Hpos, Hlt. apply Forall_app in Hpos as [Hpos1 Hpos2]. rewrite zsum_app in Hlt.
  pose proof (zsum_nonneg _ Hpos1). pose proof (zsum_nonneg _ Hpos2).
  assert (Hwk : work_add (gd_blue_work D') (work_sum (List.map w (gd_mergeset_blues D1))) =
    zsum (List.map w (counted (gd_mergeset_blues D1 ++ base)))).
  { rewrite work_sum_spec by (done || lia). unfold work_add. rewrite (bk_work _ _ _ _ _ _ _ _ Hb).
    rewrite counted_app, Hbc, List.map_app, zsum_app, Z.mod_small by lia. lia. }
  eexists _, cands. split_and!; [done| |done|done|done| |].
  - apply Hco.
  - cbn. rewrite Hg. done.
  - split; cbn [gd_blue_score gd_blue_work gd_mergeset_blues finalize_score_and_work].
    + apply finalize_list. by apply (coloring_list self S anc sp D' base HD' Hspo (bk_list _ _ _ _ _ _ _ _ Hb)).
    + apply Hco.
    + intros x Hx. apply (blues_past D1 cands x Hco); [by rewrite Hg|done|done].
    + apply Hco.
    + intros x Hx. apply finalize_sizes. by apply (co_sizes _ _ _ _ _ _ Hco).
    + rewrite counted_app, Hbc, length_app. lia.
    + done.
Qed.
End Selected.

(** A block on top of the origin: parents that are the origin. *)
Lemma ghostdag_on_origin :
  find_selected_parent self ps = Ok hash_ORIGIN -> hash_ORIGIN ∈ ps ->
  let D := mk_gd 0 0 hash_ORIGIN [hash_ORIGIN] [] {[ hash_ORIGIN := 0 ]} in
  ghostdag fuel self ps = Ok D /\ (forall p, p ∈ ps -> p = hash_ORIGIN) /\ new_block_ok genesis k w G anc S ps D [hash_ORIGIN].
Proof using All.
  intros Hfind Hin. cbv zeta.
  assert (Hr : forall h, is_Some (S !! h) -> dag_anc G hash_ORIGIN h) by (intros h Hh; by apply (go_root _ _ _ _ _ _ Hok), (go_dom _ _ _ _ _ _ Hok)).
  split_and!.
  - unfold ghostdag. destruct ps; [by apply not_elem_of_nil in Hin|]. cbn [length Nat.eqb negb rassert obind].
    rewrite Hfind. cbn [obind]. rewrite N.eqb_refl. reflexivity.
  - intros p Hp. symmetry. apply Hanti; [done..|]. by apply Hr, Hps.
  - assert (Ha : anticone anc hash_ORIGIN hash_ORIGIN = false) by (unfold anticone; by rewrite (known_refl _ known_origin)).
    assert (Hz : anticone_size anc [hash_ORIGIN] hash_ORIGIN = 0) by (rewrite anticone_size_cons, Ha; done).
    split; cbn [gd_blue_score gd_blue_work].
    + by apply (bl_base S (mk_gd 0 0 hash_ORIGIN [hash_ORIGIN] [] {[ hash_ORIGIN := 0 ]})).
    + apply NoDup_singleton.
    + intros x ->%list_elem_of_singleton. exists hash_ORIGIN. split; [done|]. apply Hr, known_origin.
    + intros x ->%list_elem_of_singleton. rewrite Hz. lia.
    + intros x ->%list_elem_of_singleton. rewrite Hz. by apply sa_here.
    + done.
    + done.
Qed.
End NewBlock.

(** ** Extending the store *)

Section Extend.
Context (genesis : N) (k : Z) (w : N -> Z) (G : dag) (anc anc' : N -> N -> bool) (S : gmap N GhostdagData).
Context (n : N) (ps : list N) (D : GhostdagData) (l : list N).
Hypothesis Hok : ghostdag_ok genesis k w G anc S.
Hypothesis Hnew : G !! n = None.
Hypothesis Hng : n <> genesis.
Hypothesis Hps0 : ps <> [].
Hypothesis Hps : forall p, p ∈ ps -> is_Some (S !! p).
Hypothesis Hanc' : decides (<[n := ps]> G) anc'.
Hypothesis HD : new_block_ok genesis k w G anc S ps D l.
Hypothesis Hinc : forall p Dp, p ∈ ps -> p <> hash_ORIGIN -> S !! p = Some Dp -> gd_blue_work Dp < gd_blue_work D.

Lemma not_stored : S !! n = None.
Proof using Hok Hnew. apply eq_None_not_Some. rewrite <-(go_dom _ _ _ _ _ _ Hok), Hnew. by intros [? ?]. Qed.

Lemma stored_insert h D0 : S !! h = Some D0 -> <[n := D]> S !! h = Some D0.
Proof using Hok Hnew. intros Hh. rewrite lookup_insert_ne; [done|]. intros Hn. by rewrite <-Hn, not_stored in Hh. Qed.

Lemma blue_list_insert D0 l0 : blue_list S D0 l0 -> blue_list (<[n := D]> S) D0 l0.
Proof using Hok Hnew. induction 1; [by apply bl_base|]. eapply bl_step; [done|done|by apply stored_insert|done]. Qed.

Lemma size_at_insert D0 x z : size_at genesis S D0 x z -> size_at genesis (<[n := D]> S) D0 x z.
Proof using Hok Hnew. induction 1; [by apply sa_here|]. eapply sa_up; [done..|by apply stored_insert|done]. Qed.

Lemma anc_agree a b : is_Some (S !! a) -> is_Some (S !! b) -> anc a b = anc' a b.
Proof using Hok Hnew Hps Hanc'.
  intros Ha Hb. apply eq_true_iff_eq. rewrite (anc_iff _ _ _ _ _ _ Hok) by done.
  apply (go_dom _ _ _ _ _ _ Hok) in Ha, Hb.
  assert (Hbn : b <> n) by (intros ->; rewrite Hnew in Hb; by destruct Hb).
  rewrite (Hanc' a b).
  - rewrite dag_insert_iff; [|apply (go_closed _ _ _ _ _ _ Hok)|done|intros p Hp; by apply (go_dom _ _ _ _ _ _ Hok), Hps].
    split; [auto|]. intros [?|[? _]]; done.
  - apply lookup_insert_is_Some'. auto.
  - apply lookup_insert_is_Some'. auto.
Qed.

Lemma anticone_size_agree l0 x : (forall y, y ∈ l0 -> is_Some (S !! y)) -> is_Some (S !! x) ->
  anticone_size anc l0 x = anticone_size anc' l0 x.
Proof using Hok Hnew Hps Hanc'. intros Hl Hx. apply anticone_size_ext. intros y Hy. rewrite !anc_agree by (done || by apply Hl). done. Qed.

Lemma new_known x : x ∈ l -> is_Some (S !! x).
Proof using Hok HD. intros Hx. destruct (nb_past _ _ _ _ _ _ _ _ _ HD x Hx) as (p & _ & Hd). by eapply dag_known_l. Qed.

Lemma dag_insert_new x p : p ∈ ps -> dag_anc G x p -> dag_anc (<[n := ps]> G) x n.
Proof using Hok Hnew Hps.
  intros Hp Hd. apply dag_insert_iff; [apply (go_closed _ _ _ _ _ _ Hok)|done|intros q Hq; by apply (go_dom _ _ _ _ _ _ Hok), Hps|].
  right. eauto.
Qed.

Lemma extend_new_block : block_ok genesis k w anc' (<[n := D]> S) n D l.
Proof using All.
  pose proof new_known as Hkn. split.
  - by apply blue_list_insert, HD.
  - apply HD.
  - intros x Hx. destruct (nb_past _ _ _ _ _ _ _ _ _ HD x Hx) as (p & Hp & Hd). destruct (Hkn x Hx) as [Dx HDx].
    assert (Hxn : x <> n) by (intros ->; by rewrite not_stored in HDx).
    split_and!; [exists Dx; by apply stored_insert| |done]. apply (Hanc' x n).
    + apply lookup_insert_is_Some'. right. apply (go_dom _ _ _ _ _ _ Hok). eauto.
    + rewrite lookup_insert_eq. eauto.
    + by apply (dag_insert_new x p).
  - apply (k_cluster_ext anc); [|apply HD]. intros x y Hx Hy. by apply anc_agree; apply Hkn.
  - intros x Hx. rewrite <-anticone_size_agree by auto. by apply size_at_insert, HD.
  - apply HD.
  - apply HD.
Qed.

Lemma extend_old_block b D0 : S !! b = Some D0 -> b <> hash_ORIGIN -> exists l0, block_ok genesis k w anc' (<[n := D]> S) b D0 l0.
Proof using All.
  intros Hb Hbo. destruct (go_blocks _ _ _ _ _ _ Hok b D0 Hb Hbo) as (l0 & [B1 B2 B3 B4 B5 B6 B7]). exists l0.
  assert (Hkn : forall x, x ∈ l0 -> is_Some (S !! x)) by (intros x Hx; by apply B3). split; try done.
  - by apply blue_list_insert.
  - intros x Hx. destruct (B3 x Hx) as ([Dx HDx] & Ha & Hne). split_and!; [exists Dx; by apply stored_insert| |done].
    rewrite <-anc_agree by eauto. done.
  - apply (k_cluster_ext anc); [|done]. intros x y Hx Hy. by apply anc_agree; apply Hkn.
  - intros x Hx. rewrite <-anticone_size_agree by auto. by apply size_at_insert, B5.
Qed.

Lemma extend_ok : ghostdag_ok genesis k w (<[n := ps]> G) anc' (<[n := D]> S).
Proof using All.
  pose proof not_stored as HSn.
  assert (Hno : n <> hash_ORIGIN) by (intros ->; rewrite (go_origin _ _ _ _ _ _ Hok) in Hnew; done).
  assert (Hcl : forall h qs q, <[n := ps]> G !! h = Some qs -> q ∈ qs -> is_Some (G !! q)).
  { intros h qs q. rewrite lookup_insert. case_decide as Hhn.
    - intros [= <-] Hq. by apply (go_dom _ _ _ _ _ _ Hok), Hps.
    - apply (go_closed _ _ _ _ _ _ Hok). }
  split.
  - intros h. rewrite !lookup_insert_is_Some'. by rewrite (go_dom _ _ _ _ _ _ Hok).
  - intros h qs q Hh Hq. apply lookup_insert_is_Some'. right. by eapply Hcl.
  - done.
  - rewrite lookup_insert_ne by done. apply (go_origin _ _ _ _ _ _ Hok).
  - intros h [<-|Hh]%lookup_insert_is_Some'.
    + assert (exists p, p ∈ ps) as [p Hp] by (clear -Hps0; destruct ps as [|p ?]; [done|]; exists p; apply list_elem_of_here).
      apply (dag_insert_new _ p Hp), (go_root _ _ _ _ _ _ Hok), (go_dom _ _ _ _ _ _ Hok), Hps, Hp.
    + by apply dag_insert_old, (go_root _ _ _ _ _ _ Hok).
  - intros Dg Hg. rewrite lookup_insert_ne in Hg by done. by apply (go_genesis _ _ _ _ _ _ Hok).
  - intros b qs p Db Dp Hb Hp Hpo HDb HDp.
    assert (Hpn : p <> n) by (intros ->; destruct (Hcl _ _ _ Hb Hp) as [? ?]; congruence).
    rewrite lookup_insert_ne in HDp by done. destruct (decide (b = n)) as [->|Hbn].
    + rewrite lookup_insert_eq in Hb. rewrite lookup_insert_eq in HDb. injection Hb as <-. injection HDb as <-. by apply (Hinc p).
    + rewrite lookup_insert_ne in Hb by done. rewrite lookup_insert_ne in HDb by done. by eapply (go_increasing _ _ _ _ _ _ Hok).
  - intros b Db HDb Hbo. destruct (decide (b = n)) as [->|Hbn].
    + rewrite lookup_insert_eq in HDb. injection HDb as <-. exists l. apply extend_new_block.
    + rewrite lookup_insert_ne in HDb by done. by apply extend_old_block.
Qed.
End Extend.
