(* ===== verification/GhostdagProps.v ===== *)
(** * GHOSTDAG: properties

    The protocol against its specification: it colours the mergeset as the greedy
    k-cluster rule does, keeps the store's invariant, and hands reachability exactly
    the mergeset. *)

From Stdlib Require Import ZArith Lia Bool.
From stdpp Require Import base gmap numbers list sorting.
From S2P Require Import Prelude Interval ReachabilityStore ReachabilityQueries ReachabilityTree ReachabilityCount ReachabilityBlocks ReachabilityDag ReachabilityProps Uint GhostdagStore Difficulty Ghostdag GhostdagColor GhostdagMergeset GhostdagBlocks.

#[local] Open Scope Z_scope.

(** What the manager's stores and services provide: the GHOSTDAG data [S], the
    relations of the DAG [G], the ancestry test [anc] and the work [w] of a block. *)
Record serves {St U H : Type} `{GhostdagStoreReader St} `{ReachabilityService U} `{HeaderStoreReader H}
    (self : GhostdagManager St U H) (G : dag) (anc : N -> N -> bool) (S : gmap N GhostdagData) (w : N -> Z) : Prop := mk_serves {
  sv_reads : reads_map (gm_ghostdag_store self) S;
  sv_relations : forall h qs, G !! h = Some qs -> gm_relations_store self h = Ok qs;
  sv_reach : forall a b, is_Some (S !! a) -> is_Some (S !! b) ->
    service_is_dag_ancestor_of (gm_reachability_service self) a b = Ok (anc a b);
  sv_work : forall h, is_Some (S !! h) -> h <> hash_ORIGIN -> blue_block_work self h = Ok (w h) /\ 0 < w h <= 2 ^ 128;
  sv_k : 0 <= gm_k self < U16 - 1
}.

(** Parents of a new block: known, and none in the past of another. *)
Record parents_ok (G : dag) (ps : list N) : Prop := mk_parents_ok {
  pa_some : ps <> [];
  pa_known : forall p, p ∈ ps -> is_Some (G !! p);
  pa_antichain : forall p q, p ∈ ps -> q ∈ ps -> dag_anc G p q -> p = q
}.

(** The greedy colouring partitions the selected parent and the candidates. *)
Lemma greedy_partition anc k base sp cands :
  (greedy anc k base sp cands).1 ++ (greedy anc k base sp cands).2 ≡ₚ sp :: cands.
Proof.
  unfold greedy. assert (Hgen : forall st, (foldl (greedy_step anc k base) st cands).1 ++ (foldl (greedy_step anc k base) st cands).2
    ≡ₚ st.1 ++ st.2 ++ cands).
  { induction cands as [|c cands IH]; intros st; cbn [foldl]; [by rewrite app_nil_r|]. rewrite IH. unfold greedy_step.
    destruct (k_cluster_b _ _ _); cbn [fst snd]; rewrite <-!app_assoc; cbn [app].
    - apply Permutation_app_head, Permutation_middle.
    - done. }
  by rewrite Hgen.
Qed.

Lemma greedy_head anc k base sp cands : exists bs, (greedy anc k base sp cands).1 = sp :: bs.
Proof.
  unfold greedy. assert (Hgen : forall st, (exists bs, st.1 = sp :: bs) -> exists bs, (foldl (greedy_step anc k base) st cands).1 = sp :: bs).
  { induction cands as [|c cands IH]; intros st Hst; cbn [foldl]; [done|]. apply IH. unfold greedy_step.
    destruct Hst as [bs Hst], (k_cluster_b _ _ _); cbn [fst]; rewrite Hst; eauto. }
  apply Hgen. by exists [].
Qed.

Section Run.
Context {St U H : Type} `{GhostdagStoreReader St} `{ReachabilityService U} `{HeaderStoreReader H}.
Context (fuel : nat) (self : GhostdagManager St U H) (G : dag) (anc : N -> N -> bool) (S : gmap N GhostdagData) (w : N -> Z) (ps : list N).
Let k := gm_k self.
Let genesis := gm_genesis_hash self.
Hypothesis Hok : ghostdag_ok genesis k w G anc S.
Hypothesis Hserve : serves self G anc S w.
Hypothesis Hps : parents_ok G ps.
Hypothesis Hsize : Z.of_nat (size (dom G)) < U64.
Hypothesis Hfuel : (length ps + 2 * size (dom G) + 4 <= fuel)%nat.

(** Everything the protocol establishes for a new block. *)
Lemma ghostdag_spec :
  exists D l, ghostdag fuel self ps = Ok D /\
    let sp := gd_selected_parent D in
    (sp ∈ ps) /\ (forall p, p ∈ ps -> sortable_le (key_of S p) (key_of S sp)) /\
    new_block_ok genesis k w G anc S ps D l /\
    (NoDup (unordered_mergeset_without_sp D) /\ forall x, x ∈ unordered_mergeset_without_sp D <-> mergeset_of G sp ps x) /\
    (forall p Dp, p ∈ ps -> p <> hash_ORIGIN -> S !! p = Some Dp -> gd_blue_work Dp < gd_blue_work D) /\
    (sp <> hash_ORIGIN -> exists D' base cands, S !! sp = Some D' /\ blue_list S D' base /\
       (forall x, x ∈ cands <-> mergeset_of G sp ps x) /\ NoDup cands /\
       StronglySorted (fun x y => sortable_le (key_of S x) (key_of S y)) cands /\
       (gd_mergeset_blues D, gd_mergeset_reds D) = greedy anc k base sp cands /\ l = gd_mergeset_blues D ++ base).
Proof using All.
  destruct Hserve as [Hr Hrel Hreach Hw Hk]. destruct Hps as [Hne Hkn Hanti].
  assert (HknS : forall p, p ∈ ps -> is_Some (S !! p)) by (intros p Hp; by apply (go_dom _ _ _ _ _ _ Hok), Hkn).
  destruct (find_selected_parent_spec self S Hr ps Hne HknS) as (sp & Hfind & Hin & Hmax).
  destruct (decide (sp = hash_ORIGIN)) as [->|Hspo].
  - destruct (ghostdag_on_origin fuel self G anc S w ps Hok Hr Hrel Hreach Hw Hk Hsize Hfuel HknS Hanti Hfind Hin) as (HD & Hall & Hnb).
    eexists _, _. split; [exact HD|]. cbv zeta. cbn [gd_selected_parent].
    split_and!; [done|done|exact Hnb|apply NoDup_nil_2| |intros p Dp Hp Hpo; by apply Hall in Hp|done].
    intros x. split; [intros Hx; by apply not_elem_of_nil in Hx|]. intros [(p & Hp & Hx) Hn]. apply Hall in Hp as ->. done.
  - destruct (HknS sp Hin) as [D' HD']. destruct (go_blocks _ _ _ _ _ _ Hok sp D' HD' Hspo) as (base & Hb).
    destruct (ghostdag_selected fuel self G anc S w ps Hok Hr Hrel Hreach Hw Hk Hsize Hfuel HknS Hanti sp D' base Hin Hspo HD' Hb Hfind)
      as (D & cands & HD & Hsp & Hc & Hnd & Hsort & Hg & Hnb).
    exists D, (gd_mergeset_blues D ++ base). split; [done|]. cbv zeta. rewrite Hsp.
    destruct (greedy_head anc k base sp cands) as [bs Hbs]. pose proof (greedy_partition anc k base sp cands) as Hpart.
    pose proof (f_equal fst Hg) as Hblues. pose proof (f_equal snd Hg) as Hreds. cbn [fst snd] in Hblues, Hreds.
    change (gm_k self) with k in Hblues, Hreds, Hg.
    assert (Hperm : unordered_mergeset_without_sp D ≡ₚ cands).
    { rewrite <-Hblues, <-Hreds in Hpart. rewrite <-Hblues in Hbs. unfold unordered_mergeset_without_sp. rewrite Hbs in Hpart |- *.
      cbn [app drop] in *. by apply Permutation_cons_inv in Hpart. }
    split_and!; [done|done|done|by rewrite Hperm|intros x; by rewrite Hperm| |intros _; exists D', base, cands; split_and!; try done; apply Hb].
    intros p Dp Hp Hpo HDp. rewrite (nb_work _ _ _ _ _ _ _ _ _ Hnb).
    assert (Hple : gd_blue_work Dp <= gd_blue_work D').
    { specialize (Hmax p Hp). apply sortable_le_iff in Hmax. unfold key_of, work_of in Hmax. cbn in Hmax. rewrite HDp, HD' in Hmax. lia. }
    assert (Hcnt : counted (gd_mergeset_blues D ++ base) = sp :: counted (bs ++ base)).
    { rewrite Hblues, Hbs. cbn [app]. unfold counted. rewrite filter_cons, decide_True by done. done. }
    rewrite Hcnt. cbn [List.map zsum]. destruct (Hw sp) as [_ Hwsp]; [eauto|done|].
    unfold counted. rewrite filter_app, List.map_app, zsum_app. fold (counted base). rewrite <-(bk_work _ _ _ _ _ _ _ _ Hb).
    assert (0 <= zsum (List.map w (filter (fun x => x <> hash_ORIGIN) bs))); [|lia].
    apply zsum_nonneg, Forall_map, Forall_forall. intros x Hx. apply list_elem_of_filter in Hx as [Hxo Hx].
    destruct (Hw x) as [_ ?]; [|done|lia]. destruct (nb_past _ _ _ _ _ _ _ _ _ Hnb x) as (q & _ & Hd).
    { rewrite Hblues, Hbs. cbn. right. apply elem_of_app. auto. }
    by eapply dag_known_l.
Qed.
End Run.

(** The stores after start-up: the origin and the genesis on top of it. *)
Definition genesis_dag (genesis : N) : dag := {[ hash_ORIGIN := []; genesis := [hash_ORIGIN] ]}.
Definition genesis_store (genesis : N) : gmap N GhostdagData :=
  {[ hash_ORIGIN := origin_ghostdag_data; genesis := genesis_ghostdag_data ]}.

Lemma genesis_dag_lookup g h qs : genesis_dag g !! h = Some qs -> (h = hash_ORIGIN /\ qs = []) \/ (h = g /\ h <> hash_ORIGIN /\ qs = [hash_ORIGIN]).
Proof.
  unfold genesis_dag. rewrite lookup_insert. case_decide as Ho; [intros [= <-]; by left|].
  rewrite lookup_singleton_Some. intros [<- <-]. right. by split_and!.
Qed.

Lemma genesis_store_ok genesis k w anc :
  genesis <> hash_ORIGIN -> decides (genesis_dag genesis) anc -> ghostdag_ok genesis k w (genesis_dag genesis) anc (genesis_store genesis).
Proof.
  intros Hg Hanc. unfold genesis_store.
  assert (Hs : forall h D, ({[ hash_ORIGIN := origin_ghostdag_data; genesis := genesis_ghostdag_data ]} : gmap N GhostdagData) !! h = Some D ->
    (h = hash_ORIGIN /\ D = origin_ghostdag_data) \/ (h = genesis /\ D = genesis_ghostdag_data)).
  { intros h D. rewrite lookup_insert. case_decide; [intros [= <-]; left; by split|]. rewrite lookup_singleton_Some. intros [<- <-]. by right. }
  assert (Hor : is_Some (genesis_dag genesis !! hash_ORIGIN)) by (unfold genesis_dag; rewrite lookup_insert_eq; eauto).
  assert (Hge : genesis_dag genesis !! genesis = Some [hash_ORIGIN])
    by (unfold genesis_dag; rewrite lookup_insert_ne by done; by rewrite lookup_singleton_eq).
  split.
  - intros h. unfold genesis_dag. by rewrite !lookup_insert_is_Some', !lookup_singleton_is_Some.
  - intros h qs q Hh Hq. apply genesis_dag_lookup in Hh as [[-> ->]|(-> & _ & ->)]; [by apply not_elem_of_nil in Hq|].
    by apply list_elem_of_singleton in Hq as ->.
  - done.
  - unfold genesis_dag. by rewrite lookup_insert_eq.
  - intros h [qs Hh]. apply genesis_dag_lookup in Hh as [[-> _]|(-> & _ & _)]; [by constructor|].
    eapply dag_up; [done|apply list_elem_of_here|by constructor].
  - intros D HD. apply Hs in HD as [[-> _]|[_ ->]]; [done|]. done.
  - intros b qs p D Dp Hb Hp Hpo. apply genesis_dag_lookup in Hb as [[-> ->]|(-> & _ & ->)]; [by apply not_elem_of_nil in Hp|].
    by apply list_elem_of_singleton in Hp as ->.
  - intros b D HD Hb. apply Hs in HD as [[-> _]|[-> ->]]; [done|]. exists []. split; try done.
    + by apply (bl_base _ genesis_ghostdag_data).
    + apply NoDup_nil_2.
    + intros x Hx. by apply not_elem_of_nil in Hx.
    + intros x Hx. by apply not_elem_of_nil in Hx.
    + intros x Hx. by apply not_elem_of_nil in Hx.
Qed.

(** Ancestry queries on an indexed reachability store. *)
Lemma query_decides (r : MemoryReachabilityStore) root G : dag_ok (m_map r) root G -> decides G (query r).
Proof. intros Hd a b Ha Hb. apply (query_dag r root G a b Hd); by apply (do_dom _ _ _ Hd). Qed.

Lemma query_service (r : MemoryReachabilityStore) root G a b :
  dag_ok (m_map r) root G -> is_Some (G !! a) -> is_Some (G !! b) -> service_is_dag_ancestor_of r a b = Ok (query r a b).
Proof.
  intros Hd Ha%(do_dom _ _ _ Hd) Hb%(do_dom _ _ _ Hd). cbn. unfold query.
  destruct (is_dag_ancestor_spec r root a b) as (b' & -> & _); [apply Hd|apply (do_sorted _ _ _ Hd)|done|done|]. done.
Qed.

(** ** Properties *)

(** C9: The protocol is the greedy k-cluster colouring: the selected parent is the
    greatest parent by blue work and hash; the mergeset, in consensus order, is
    coloured as by the rule that makes a block blue exactly when the blue set with it
    is still a k-cluster.  It neither panics nor runs out of fuel. *)
Theorem ghostdag_colors_greedily {St U H : Type} `{GhostdagStoreReader St} `{ReachabilityService U} `{HeaderStoreReader H}
    (fuel : nat) (self : GhostdagManager St U H) (G : dag) (anc : N -> N -> bool) (S : gmap N GhostdagData) (w : N -> Z) (ps : list N) :
  ghostdag_ok (gm_genesis_hash self) (gm_k self) w G anc S -> serves self G anc S w -> parents_ok G ps ->
  Z.of_nat (size (dom G)) < U64 -> (length ps + 2 * size (dom G) + 4 <= fuel)%nat ->
  exists D, ghostdag fuel self ps = Ok D /\
    let sp := gd_selected_parent D in
    (sp ∈ ps) /\ (forall p, p ∈ ps -> sortable_le (key_of S p) (key_of S sp)) /\
    (sp <> hash_ORIGIN -> exists D' base cands, S !! sp = Some D' /\ blue_list S D' base /\
       (forall x, x ∈ cands <-> mergeset_of G sp ps x) /\ NoDup cands /\
       StronglySorted (fun x y => sortable_le (key_of S x) (key_of S y)) cands /\
       (gd_mergeset_blues D, gd_mergeset_reds D) = greedy anc (gm_k self) base sp cands).
Proof.
  intros Hok Hs Hp Hsz Hf. destruct (ghostdag_spec fuel self G anc S w ps Hok Hs Hp Hsz Hf) as (D & l & HD & Hin & Hmax & _ & _ & _ & Hg).
  exists D. split; [done|]. cbv zeta. split_and!; [done..|]. intros Ho. destruct (Hg Ho) as (D' & base & cands & ? & ? & ? & ? & ? & ? & _).
  by exists D', base, cands.
Qed.

(** C38: The data computed for a new block keeps the invariant of the store: the
    blue past of every block is a k-cluster, the recorded anticone sizes are the true
    ones, blue score counts the blue past, blue work sums its work and grows along
    the DAG. *)
Theorem ghostdag_keeps_invariant {St U H : Type} `{GhostdagStoreReader St} `{ReachabilityService U} `{HeaderStoreReader H}
    (fuel : nat) (self : GhostdagManager St U H) (G : dag) (anc anc' : N -> N -> bool) (S : gmap N GhostdagData) (w : N -> Z)
    (ps : list N) (n : N) :
  ghostdag_ok (gm_genesis_hash self) (gm_k self) w G anc S -> serves self G anc S w -> parents_ok G ps ->
  Z.of_nat (size (dom G)) < U64 -> (length ps + 2 * size (dom G) + 4 <= fuel)%nat ->
  G !! n = None -> n <> gm_genesis_hash self -> decides (<[n := ps]> G) anc' ->
  exists D, ghostdag fuel self ps = Ok D /\
    ghostdag_ok (gm_genesis_hash self) (gm_k self) w (<[n := ps]> G) anc' (<[n := D]> S).
Proof.
  intros Hok Hs Hp Hsz Hf Hn Hg Hanc'.
  destruct (ghostdag_spec fuel self G anc S w ps Hok Hs Hp Hsz Hf) as (D & l & HD & _ & _ & Hnb & _ & Hinc & _).
  exists D. split; [done|]. apply (extend_ok _ _ _ G anc anc' S n ps D l); try done; [apply Hp|].
  intros p Hpp. apply (go_dom _ _ _ _ _ _ Hok). by apply (pa_known _ _ Hp).
Qed.


(** The mergeset walk returns exactly the blocks in the past of the parents
    that are not in the past of the selected parent, and ends within the fuel. *)
Theorem mergeset_walk_correct (G : dag) (anc : N -> N -> panics bool) (get_parents : N -> sresult (list N)) (sp : N) (ps : list N) (fuel : nat) :
  (forall h qs q, G !! h = Some qs -> q ∈ qs -> is_Some (G !! q)) ->
  (forall h qs, G !! h = Some qs -> get_parents h = Ok qs) ->
  (forall a, is_Some (G !! a) -> exists b, anc a sp = Ok b /\ (b = true <-> dag_anc G a sp)) ->
  (forall p, p ∈ ps -> is_Some (G !! p)) -> (forall p, p ∈ ps -> dag_anc G p sp -> p = sp) ->
  (length ps + size (dom G) < fuel)%nat ->
  exists M, unordered_mergeset_without_selected_parent get_parents anc fuel sp ps = Ok M /\ forall x, x ∈ M <-> mergeset_of G sp ps x.
Proof. intros. by apply unordered_mergeset_spec. Qed.

(** ** Witnesses

    Genesis 1 with children 2 and 3, indexed and coloured by running the code;
    block 4 merges both. *)

#[local] Instance constant_headers : HeaderStoreReader unit := {
  hs_daa_score _ _ := Ok 0;
  hs_timestamp _ _ := Ok 0;
  hs_bits _ _ := Ok 0x1d00ffff;
  hs_compact _ _ := Ok (mk_header_data 0 0 0x1d00ffff 0)
}.

Definition exw : Z := 4295032833.
Definition relations_of (G : dag) (h : N) : sresult (list N) := match G !! h with Some qs => Ok qs | None => Err (KeyNotFound h) end.
Definition store_of (S : gmap N GhostdagData) : MemoryGhostdagStore :=
  mk_mem_gd (gd_blue_score <$> S) (gd_blue_work <$> S) (gd_selected_parent <$> S) (gd_mergeset_blues <$> S) (gd_mergeset_reds <$> S)
    (gd_blues_anticone_sizes <$> S).
Definition ex_manager_of (G : dag) (S : gmap N GhostdagData) (r : MemoryReachabilityStore) :
    GhostdagManager MemoryGhostdagStore MemoryReachabilityStore unit :=
  gm_new 1%N 1 (store_of S) (relations_of G) tt r.

Lemma ex_serves G S r w :
  dag_ok (m_map r) hash_ORIGIN G -> (forall h, is_Some (G !! h) <-> is_Some (S !! h)) -> (forall h, w h = exw) ->
  serves (ex_manager_of G S r) G (query r) S w.
Proof.
  intros Hd Hdom Hw. split.
  - apply mg_reads. by split.
  - intros h qs Hh. cbn. unfold relations_of. by rewrite Hh.
  - intros a b Ha Hb. cbn [ex_manager_of gm_new gm_reachability_service]. eapply query_service; [done|by apply Hdom..].
  - intros h _ _. rewrite Hw. split; [by vm_compute|by vm_compute].
  - by vm_compute.
Qed.

Definition gr0 : MemoryReachabilityStore := outcome_or (reachability_init mem_new) mem_new.
Definition gr1 := ex_add gr0 1%N hash_ORIGIN [].
Definition gr2 := ex_add gr1 2%N 1%N [].
Definition gr3 := ex_add gr2 3%N 1%N [].
Definition gG1 : dag := <[1%N := [hash_ORIGIN]]> {[ hash_ORIGIN := [] ]}.
Definition gG2 := <[2%N := [1%N]]> gG1.
Definition gG3 := <[3%N := [1%N]]> gG2.

Lemma gr1_dag : dag_ok (m_map gr1) hash_ORIGIN gG1.
Proof.
  apply (add_block_step gr0 gr1 hash_ORIGIN hash_ORIGIN 1%N hash_ORIGIN [hash_ORIGIN] []); [|by_vm..].
  apply (dag_ok_init hash_ORIGIN interval_maximal); [by vm_compute|by vm_compute|by vm_compute].
Qed.
Lemma gr2_dag : dag_ok (m_map gr2) hash_ORIGIN gG2.
Proof. apply (add_block_step gr1 gr2 hash_ORIGIN hash_ORIGIN 2%N 1%N [1%N] []); [apply gr1_dag|by_vm..]. Qed.
Lemma gr3_dag : dag_ok (m_map gr3) hash_ORIGIN gG3.
Proof. apply (add_block_step gr2 gr3 hash_ORIGIN hash_ORIGIN 3%N 1%N [1%N] []); [apply gr2_dag|by_vm..]. Qed.

Definition gS1 : gmap N GhostdagData := genesis_store 1%N.
Definition ex_data G S r ps : GhostdagData := outcome_or (ghostdag 50 (ex_manager_of G S r) ps) origin_ghostdag_data.
Definition gS2 := <[2%N := ex_data gG1 gS1 gr1 [1%N]]> gS1.
Definition gS3 := <[3%N := ex_data gG2 gS2 gr2 [1%N]]> gS2.

(** Antichains and membership, by computation. *)
Definition parents_check (G : dag) (r : MemoryReachabilityStore) (ps : list N) : bool :=
  negb (bool_decide (ps = [])) && forallb (fun p => bool_decide (is_Some (G !! p))) ps &&
  forallb (fun p => forallb (fun q => negb (query r p q) || (p =? q)%N) ps) ps.

Lemma parents_check_sound G r ps : dag_ok (m_map r) hash_ORIGIN G -> parents_check G r ps = true -> parents_ok G ps.
Proof.
  intros Hd. unfold parents_check. rewrite !andb_true_iff, negb_true_iff, bool_decide_eq_false, !forallb_forall.
  setoid_rewrite forallb_forall. intros [[Hne Hkn] Hanti].
  assert (Hkn' : forall p, p ∈ ps -> is_Some (G !! p)) by (intros p Hp%list_elem_of_In; specialize (Hkn p Hp); by apply bool_decide_eq_true in Hkn).
  split; [done..|]. intros p q Hp Hq Hpq. specialize (Hanti p (proj1 (list_elem_of_In _ _) Hp) q (proj1 (list_elem_of_In _ _) Hq)).
  apply (query_decides r hash_ORIGIN G Hd p q) in Hpq; [|by apply Hkn'..]. rewrite Hpq in Hanti. cbn in Hanti. by apply N.eqb_eq.
Qed.

(** One block added to the example stores. *)
Lemma ex_step G S r r' n ps w :
  dag_ok (m_map r) hash_ORIGIN G -> dag_ok (m_map r') hash_ORIGIN (<[n := ps]> G) -> (forall h, w h = exw) ->
  ghostdag_ok 1%N 1 w G (query r) S -> parents_check G r ps = true ->
  (length ps + 2 * size (dom G) + 4 <=? 50)%nat && negb (bool_decide (is_Some (G !! n))) && negb (n =? 1)%N = true ->
  ghostdag_ok 1%N 1 w (<[n := ps]> G) (query r') (<[n := ex_data G S r ps]> S).
Proof.
  intros Hd Hd' Hw Hok Hp. rewrite !andb_true_iff, Nat.leb_le, !negb_true_iff, bool_decide_eq_false, N.eqb_neq. intros [[Hf Hn] Hn1].
  assert (Hs : serves (ex_manager_of G S r) G (query r) S w) by (apply ex_serves; [done|apply (go_dom _ _ _ _ _ _ Hok)|done]).
  assert (Hpo : parents_ok G ps) by by eapply parents_check_sound.
  destruct (ghostdag_spec 50 (ex_manager_of G S r) G (query r) S w ps Hok Hs Hpo) as (D & l & HD & _ & _ & Hnb & _ & Hinc & _); [lia|lia|].
  assert (ex_data G S r ps = D) as -> by (unfold ex_data; by rewrite HD).
  apply (extend_ok 1%N 1 w G (query r) (query r') S n ps D l); try done.
  - by apply eq_None_not_Some.
  - apply Hpo.
  - intros p Hpp. apply (go_dom _ _ _ _ _ _ Hok). by apply (pa_known _ _ Hpo).
  - by eapply query_decides.
Qed.

Definition exw_of : N -> Z := fun _ => exw.

Lemma gS1_ok : ghostdag_ok 1%N 1 exw_of gG1 (query gr1) gS1.
Proof.
  assert (Heq : gG1 = genesis_dag 1%N) by (unfold gG1, genesis_dag; apply insert_insert_ne; by vm_compute).
  rewrite Heq. apply genesis_store_ok; [by vm_compute|]. rewrite <-Heq. eapply query_decides, gr1_dag.
Qed.
Lemma gS2_ok : ghostdag_ok 1%N 1 exw_of gG2 (query gr2) gS2.
Proof. apply (ex_step gG1 gS1 gr1 gr2 2%N [1%N]); [apply gr1_dag|apply gr2_dag|done|apply gS1_ok|by vm_compute|by vm_compute]. Qed.
Lemma gS3_ok : ghostdag_ok 1%N 1 exw_of gG3 (query gr3) gS3.
Proof. apply (ex_step gG2 gS2 gr2 gr3 3%N [1%N]); [apply gr2_dag|apply gr3_dag|done|apply gS2_ok|by vm_compute|by vm_compute]. Qed.
Lemma g3_serves : serves (ex_manager_of gG3 gS3 gr3) gG3 (query gr3) gS3 exw_of.
Proof. apply ex_serves; [apply gr3_dag|apply (go_dom _ _ _ _ _ _ gS3_ok)|done]. Qed.
Lemma g3_parents : parents_ok gG3 [2%N; 3%N].
Proof. apply (parents_check_sound gG3 gr3 _ gr3_dag). by vm_compute. Qed.

Lemma g3_heights p d : p ∈ [2%N; 3%N] -> m_map gr3 !! p = Some d -> chain_anc (m_map gr3) hash_ORIGIN p /\ d_height d + 1 < U64.
Proof.
  intros Hp Hd. assert (d = data_at gr3 p) as -> by (unfold data_at; by rewrite Hd). clear Hd.
  rewrite !elem_of_cons in Hp. destruct Hp as [->|[->|Hp]]; [| |by apply not_elem_of_nil in Hp];
    (split; [apply (chain_by_query gr3 hash_ORIGIN); [apply gr3_dag|vm_compute; reflexivity]|vm_compute; reflexivity]).
Qed.

Lemma ghostdag_colors_greedily_witness :
  exists D, ghostdag 50 (ex_manager_of gG3 gS3 gr3) [2%N; 3%N] = Ok D /\ gd_selected_parent D ∈ [2%N; 3%N].
Proof.
  destruct (ghostdag_colors_greedily 50 (ex_manager_of gG3 gS3 gr3) gG3 (query gr3) gS3 exw_of [2%N; 3%N] gS3_ok g3_serves g3_parents)
    as (D & HD & Hin & _); [by vm_compute|by apply (Nat.leb_le _ 50); vm_compute|]. exists D. split; [exact HD|exact Hin].
Defined.


Definition gr4 := ex_add gr3 4%N 3%N [2%N].
Definition gG4 := <[4%N := [2%N; 3%N]]> gG3.
Lemma gr4_dag : dag_ok (m_map gr4) hash_ORIGIN gG4.
Proof. apply (add_block_step gr3 gr4 hash_ORIGIN hash_ORIGIN 4%N 3%N [2%N; 3%N] [2%N]); [apply gr3_dag|by_vm..]. Qed.

Lemma ghostdag_keeps_invariant_witness :
  exists D, ghostdag 50 (ex_manager_of gG3 gS3 gr3) [2%N; 3%N] = Ok D /\
    ghostdag_ok 1%N 1 exw_of gG4 (query gr4) (<[4%N := D]> gS3).
Proof.
  apply (ghostdag_keeps_invariant 50 (ex_manager_of gG3 gS3 gr3) gG3 (query gr3) (query gr4) gS3 exw_of [2%N; 3%N] 4%N gS3_ok g3_serves g3_parents).
  - by vm_compute.
  - by apply (Nat.leb_le _ 50); vm_compute.
  - by vm_compute.
  - by vm_compute.
  - apply (query_decides gr4 hash_ORIGIN gG4 gr4_dag).
Defined.

Lemma g3_closed h qs q : gG3 !! h = Some qs -> q ∈ qs -> is_Some (gG3 !! q).
Proof. intros Hh Hq. apply (do_closed _ _ _ gr3_dag h qs q Hh Hq). Qed.

Lemma mergeset_walk_correct_witness :
  exists M, unordered_mergeset_without_selected_parent (relations_of gG3) (fun a b => Ok (query gr3 a b)) 20 3%N [2%N; 3%N] = Ok M /\
    forall x, x ∈ M <-> mergeset_of gG3 3%N [2%N; 3%N] x.
Proof.
  apply (mergeset_walk_correct gG3 (fun a b => Ok (query gr3 a b)) (relations_of gG3) 3%N [2%N; 3%N] 20).
  - exact g3_closed.
  - intros h qs Hh. unfold relations_of. by rewrite Hh.
  - intros a Ha. exists (query gr3 a 3%N). split; [done|]. apply (query_decides gr3 hash_ORIGIN gG3 gr3_dag); [done|by eexists; vm_compute].
  - apply g3_parents.
  - intros p Hp. apply g3_parents; [done|]. right. by apply list_elem_of_singleton.
  - by apply (Nat.ltb_lt _ 20); vm_compute.
Defined.
