(* ===== verification/Header.v ===== *)
(** * Block headers

    Model of consensus/core/src/header.rs and of the run-length iterators of
    utils/src/iter.rs: the run-length encoded parents by level, their validation and
    expansion, and the header record.  [dedup_with_count] of the itertools crate is an
    argument, with its documented behaviour as the class [DedupSpec]. *)

From Stdlib Require Import ZArith Lia Bool.
From stdpp Require Import base gmap list numbers sorting.
From S2P Require Import Prelude BinarySearch.

#[local] Open Scope Z_scope.

(** ** Run-length encoding (utils/src/iter.rs) *)

(** Neighbouring runs hold different values. *)
Fixpoint alternating {K A} (l : list (K * A)) : Prop :=
  match l with
  | x :: ((y :: _) as l') => x.2 <> y.2 /\ alternating l'
  | _ => True
  end.

Definition unroll {A} (l : list (nat * A)) : list A := concat (List.map (fun r => replicate r.1 r.2) l).

Class DedupSpec {A} (dedup_with_count : list A -> list (nat * A)) : Prop := {
  dedup_unroll : forall l, unroll (dedup_with_count l) = l;
  dedup_positive : forall l, Forall (fun r => (0 < r.1)%nat) (dedup_with_count l);
  dedup_alternating : forall l, alternating (dedup_with_count l)
}.

Section Rle.
Context {A : Type}.

(** The closure of [rle_cumulative]: counts become running totals. *)
Fixpoint cumulate (cumulative : Z) (l : list (nat * A)) : list (Z * A) :=
  match l with
  | [] => []
  | (count, value) :: l' => (cumulative + Z.of_nat count, value) :: cumulate (cumulative + Z.of_nat count) l'
  end.

Definition rle_cumulative (dedup_with_count : list A -> list (nat * A)) (l : list A) : list (Z * A) :=
  cumulate 0 (dedup_with_count l).

(** [expand_rle], run to its end: panics unless the totals strictly increase. *)
Fixpoint expand_rle {E} (prev : Z) (l : list (Z * A)) : outcome E (list A) :=
  match l with
  | [] => Ok []
  | (cum, item) :: l' =>
      if prev <? cum then
        let! rest := expand_rle cum l' in Ok (replicate (Z.to_nat (cum - prev)) item ++ rest)
      else Panic
  end.
End Rle.

(** ** [CompressedParents] *)

Abbreviation CompressedParents := (list (Z * list N)).

Inductive CompressedParentsError :=
| LevelsExceeded
| LevelsNotStrictlyIncreasing
| NotFullyCompressed.

Definition expanded_len (p : CompressedParents) : Z :=
  match last p with Some (cum, _) => cum | None => 0 end.

Definition parents_is_empty (p : CompressedParents) : bool := bool_decide (p = []).

Definition parents_get {E} (p : CompressedParents) (index : Z) : outcome E (option (list N)) :=
  if expanded_len p <=? index then Ok None
  else if index =? 0 then let! r := unwrap (p !! 0%nat) in Ok (Some r.2)
  else
    let! i := partition_point (fun r : Z * list N => let! c := usub r.1 1 in Ok (c <? index)) p in
    let! r := unwrap (p !! i) in Ok (Some r.2).

Definition expanded_iter {E} (p : CompressedParents) : outcome E (list (list N)) := expand_rle 0 p.

(** [u8::checked_add(1)] with its [expect]. *)
Definition next_level {E} (count : Z) : outcome E Z := if count + 1 <? U8 then Ok (count + 1) else Panic.

Definition parents_push {E} (p : CompressedParents) (parents_at_level : list N) : outcome E CompressedParents :=
  match last p with
  | Some (count, last_parents) =>
      if bool_decide (last_parents = parents_at_level) then
        let! c := next_level count in Ok (take (length p - 1) p ++ [(c, last_parents)])
      else
        let! next_cum := next_level count in Ok (p ++ [(next_cum, parents_at_level)])
  | None => Ok [(1, parents_at_level)]
  end.

(** [TryFrom<Vec<Vec<Hash>>>] *)
Definition try_from_levels (dedup_with_count : list (list N) -> list (nat * list N)) (parents : list (list N)) :
    outcome CompressedParentsError CompressedParents :=
  if U8 - 1 <? Z.of_nat (length parents) then Err LevelsExceeded
  else Ok (List.map (fun r : Z * list N => (r.1 mod U8, r.2)) (rle_cumulative dedup_with_count parents)).

(** [TryFrom<Vec<(u8, Vec<Hash>)>>]: the loop over neighbouring runs. *)
Fixpoint check_runs (runs : CompressedParents) : outcome CompressedParentsError unit :=
  match runs with
  | (last_cumulative_level, last_parents) :: (((cumulative_level, parents) :: _) as runs') =>
      if cumulative_level <=? last_cumulative_level then Err LevelsNotStrictlyIncreasing
      else if bool_decide (last_parents = parents) then Err NotFullyCompressed
      else check_runs runs'
  | _ => Ok tt
  end.

Definition try_from_runs (runs : CompressedParents) : outcome CompressedParentsError CompressedParents :=
  let! _ := check_runs runs in Ok runs.

(** [From<CompressedParents> for Vec<Vec<Hash>>] *)
Definition into_levels {E} (p : CompressedParents) : outcome E (list (list N)) := expand_rle 0 p.

Definition set_direct_parents {E} (dedup_with_count : list (list N) -> list (nat * list N)) (p : CompressedParents)
    (direct_parents : list N) : outcome E CompressedParents :=
  match p with
  | [] => Ok [(1, direct_parents)]
  | _ =>
      let! parents := into_levels p in
      let! _ := unwrap (parents !! 0%nat) in
      unwrap_res (try_from_levels dedup_with_count (<[0%nat := direct_parents]> parents))
  end.

(** ** [Header] *)

Record Header := mk_header {
  h_hash : N;
  h_version : Z;
  h_parents_by_level : CompressedParents;
  h_hash_merkle_root : N;
  h_accepted_id_merkle_root : N;
  h_utxo_commitment : N;
  h_timestamp : Z;
  h_bits : Z;
  h_nonce : Z;
  h_daa_score : Z;
  h_blue_work : Z;
  h_blue_score : Z;
  h_pruning_point : N
}.

Definition direct_parents {E} (h : Header) : outcome E (list N) :=
  let! parents := parents_get (h_parents_by_level h) 0 in
  match parents with Some ps => Ok ps | None => Ok [] end.

(** ** Canonical encodings *)

(** Totals strictly increase from [prev] and fit a byte; neighbours differ. *)
Fixpoint runs_from (prev : Z) (p : CompressedParents) : Prop :=
  match p with
  | [] => True
  | (cum, _) :: p' => prev < cum < U8 /\ runs_from cum p'
  end.

Definition canonical (p : CompressedParents) : Prop := runs_from 0 p /\ alternating p.

(** The runs of an encoding with their lengths. *)
Fixpoint run_lengths (prev : Z) (p : CompressedParents) : list (nat * list N) :=
  match p with
  | [] => []
  | (cum, v) :: p' => (Z.to_nat (cum - prev), v) :: run_lengths cum p'
  end.

Definition levels_of (p : CompressedParents) : list (list N) := unroll (run_lengths 0 p).

Lemma expand_runs {E} prev p : runs_from prev p -> @expand_rle _ E prev p = Ok (unroll (run_lengths prev p)).
Proof.
  revert prev. induction p as [|[cum v] p IH]; intros prev; cbn; [done|]. intros [Hc Hp].
  destruct (Z.ltb_spec prev cum); [|lia]. by rewrite IH.
Qed.

Lemma run_lengths_cumulate prev p : runs_from prev p -> cumulate prev (run_lengths prev p) = p.
Proof.
  revert prev. induction p as [|[cum v] p IH]; intros prev; cbn; [done|]. intros [Hc Hp].
  rewrite Z2Nat.id by lia. replace (prev + (cum - prev)) with cum by lia. by rewrite IH.
Qed.

Lemma cumulate_run_lengths prev l : run_lengths prev (cumulate prev l) = l.
Proof.
  revert prev. induction l as [|[c v] l IH]; intros prev; cbn; [done|].
  replace (Z.to_nat (prev + Z.of_nat c - prev)) with c by lia. by rewrite IH.
Qed.

Lemma cumulate_runs prev l :
  0 <= prev -> Forall (fun r => (0 < r.1)%nat) l -> prev + Z.of_nat (length (unroll l)) < U8 -> runs_from prev (cumulate prev l).
Proof.
  intros H0 Hpos. revert prev H0. induction Hpos as [|[c v] l Hc Hl IH]; intros prev H0 Hlt; cbn in *; [done|].
  rewrite length_app, length_replicate in Hlt. split; [lia|]. apply IH; [lia|]. unfold unroll in *. lia.
Qed.

Lemma alternating_cumulate prev (l : list (nat * list N)) : alternating l -> alternating (cumulate prev l).
Proof.
  revert prev. induction l as [|[c v] l IH]; intros prev; [done|]. cbn [cumulate].
  destruct l as [|[c' v'] l']; [done|]. intros [Hne Ha]. cbn [cumulate]. split; [done|]. by apply (IH (prev + Z.of_nat c)).
Qed.

Lemma alternating_run_lengths prev p : alternating p -> alternating (run_lengths prev p).
Proof.
  revert prev. induction p as [|[c v] p IH]; intros prev; [done|]. cbn [run_lengths].
  destruct p as [|[c' v'] p']; [done|]. intros [Hne Ha]. cbn [run_lengths]. split; [done|]. by apply (IH c).
Qed.

Lemma run_lengths_positive prev p : runs_from prev p -> Forall (fun r => (0 < r.1)%nat) (run_lengths prev p).
Proof.
  revert prev. induction p as [|[cum v] p IH]; intros prev; cbn; [constructor|]. intros [Hc Hp]. constructor; [cbn; lia|by apply IH].
Qed.

(** A list has at most one run-length encoding. *)
Lemma unroll_head {A} (l : list (nat * A)) c v : unroll ((S c, v) :: l) = v :: unroll ((c, v) :: l).
Proof. done. Qed.

Lemma unroll_not_head {A} (l : list (nat * A)) (v : A) c l' :
  Forall (fun r => (0 < r.1)%nat) l -> alternating ((c, v) :: l) -> unroll l <> v :: l'.
Proof.
  intros Hpos Ha. destruct l as [|[[|c'] v'] l]; [done|by apply Forall_cons in Hpos as [? _]; cbn in *; lia|].
  destruct Ha as [Hne _]. cbn in Hne. rewrite unroll_head. intros [=]. congruence.
Qed.

Lemma unroll_inj {A} (l1 l2 : list (nat * A)) :
  Forall (fun r => (0 < r.1)%nat) l1 -> Forall (fun r => (0 < r.1)%nat) l2 -> alternating l1 -> alternating l2 ->
  unroll l1 = unroll l2 -> l1 = l2.
Proof.
  intros Hp1. revert l2. induction Hp1 as [|[c1 v1] l1 Hc1 Hl1 IH]; intros l2 Hp2 Ha1 Ha2 Heq.
  - destruct Hp2 as [|[[|c2] v2] l2 Hc2 _]; [done|cbn in Hc2; lia|]. by rewrite unroll_head in Heq.
  - destruct Hp2 as [|[c2 v2] l2 Hc2 Hl2]; [destruct c1; [cbn in Hc1; lia|by rewrite unroll_head in Heq]|].
    assert (Hv : v1 = v2) by (destruct c1, c2; cbn in Hc1, Hc2; try lia; rewrite !unroll_head in Heq; congruence). subst v2.
    assert (Hc : c1 = c2 /\ unroll l1 = unroll l2).
    { clear IH Hc1 Hc2. revert c2 Heq Ha2. induction c1 as [|c1 IHc]; intros c2 Heq Ha2.
      - destruct c2; [done|]. change (unroll ((0%nat, v1) :: l1)) with (unroll l1) in Heq. rewrite unroll_head in Heq.
        by apply unroll_not_head with (c := 0%nat) in Heq.
      - destruct c2 as [|c2].
        + change (unroll ((0%nat, v1) :: l2)) with (unroll l2) in Heq. rewrite unroll_head in Heq. symmetry in Heq.
          by apply unroll_not_head with (c := 0%nat) in Heq.
        + rewrite !unroll_head in Heq. injection Heq as Heq. destruct (IHc Ha1 c2 Heq Ha2). split; [lia|done]. }
    destruct Hc as [-> Hu]. f_equal. apply IH; [done| | |done]; [by destruct l1; [|destruct Ha1]|by destruct l2; [|destruct Ha2]].
Qed.

(** ** The operations on canonical encodings *)

Lemma runs_from_lookup prev p i cum v : runs_from prev p -> p !! i = Some (cum, v) -> prev < cum < U8.
Proof.
  revert prev i. induction p as [|[c w] p IH]; intros prev [|i]; cbn; [done|done|by intros [? _] [= <- <-]|].
  intros [Hc Hp] Hi. specialize (IH c i Hp Hi). lia.
Qed.

Lemma runs_from_increasing prev p i j x y : runs_from prev p -> p !! i = Some x -> p !! j = Some y -> (i < j)%nat -> x.1 < y.1.
Proof.
  revert prev i j. induction p as [|[c w] p IH]; intros prev [|i] [|j]; cbn; try done; try lia.
  - intros [Hc Hp] [= <-] Hj _. destruct y as [cy vy]. by apply (runs_from_lookup c p j cy vy Hp) in Hj as [? _].
  - intros [Hc Hp] Hi Hj Hij. apply (IH c i j Hp Hi Hj). lia.
Qed.

(** The last total. *)
Definition end_of (prev : Z) (p : CompressedParents) : Z := match last p with Some r => r.1 | None => prev end.

Lemma end_of_cons prev c w p : end_of prev ((c, w) :: p) = end_of c p.
Proof. unfold end_of. rewrite last_cons. by destruct (last p). Qed.

Lemma length_levels prev p : runs_from prev p -> prev + Z.of_nat (length (unroll (run_lengths prev p))) = end_of prev p.
Proof.
  revert prev. induction p as [|[c w] p IH]; intros prev; cbn [run_lengths]; [cbn; lia|]. intros [Hc Hp].
  rewrite end_of_cons, <-(IH c Hp). unfold unroll. cbn [List.map concat fst snd]. rewrite length_app, length_replicate. lia.
Qed.

Lemma expanded_len_spec p : canonical p -> expanded_len p = Z.of_nat (length (levels_of p)).
Proof.
  intros [Hp _]. pose proof (length_levels 0 p Hp) as Hl. unfold levels_of, expanded_len. unfold end_of in Hl. destruct (last p) as [[c v]|]; cbn in *; lia.
Qed.

Lemma expanded_len_byte p : canonical p -> expanded_len p < U8.
Proof.
  intros [Hp _]. unfold expanded_len. destruct (last p) as [[c v]|] eqn:Hl; [|lia].
  rewrite last_lookup in Hl. by apply (runs_from_lookup 0 p _ c v Hp) in Hl as [_ ?].
Qed.

Lemma lookup_level prev p i cum v index :
  runs_from prev p -> p !! i = Some (cum, v) -> prev <= index < cum -> (forall j x, (j < i)%nat -> p !! j = Some x -> x.1 <= index) ->
  unroll (run_lengths prev p) !! Z.to_nat (index - prev) = Some v.
Proof.
  revert prev i. induction p as [|[c w] p IH]; intros prev [|i]; cbn [run_lengths runs_from]; [done|done| |].
  - intros [Hc Hp] [= -> ->] Hi _. unfold unroll. cbn [List.map concat fst snd].
    rewrite lookup_app_l by (rewrite length_replicate; lia). apply lookup_replicate. split; [done|lia].
  - intros [Hc Hp] Hi Hidx Hlow. pose proof (Hlow 0%nat (c, w) ltac:(lia) eq_refl) as Hcw. cbn in Hcw.
    unfold unroll. cbn [List.map concat fst snd]. rewrite lookup_app_r by (rewrite length_replicate; lia). rewrite length_replicate.
    replace (Z.to_nat (index - prev) - Z.to_nat (c - prev))%nat with (Z.to_nat (index - c)) by lia.
    apply (IH c i Hp Hi); [lia|]. intros j x Hj Hx. apply (Hlow (S j)); [lia|done].
Qed.

Lemma parents_get_spec {E} p index : canonical p -> 0 <= index -> @parents_get E p index = Ok (levels_of p !! Z.to_nat index).
Proof.
  intros Hcan H0. pose proof Hcan as [Hp _]. unfold parents_get. destruct (Z.leb_spec (expanded_len p) index) as [Hle|Hlt].
  { f_equal. symmetry. apply lookup_ge_None. rewrite expanded_len_spec in Hle by done. lia. }
  assert (Hne : exists r p', p = r :: p') by (destruct p; [by cbn in Hlt; lia|eauto]). destruct Hne as ([c0 v0] & p' & Hpe).
  destruct (Z.eqb_spec index 0) as [->|Hn0].
  { rewrite Hpe. cbn. f_equal. symmetry. unfold levels_of.
    apply (lookup_level 0 ((c0, v0) :: p') 0 c0 v0 0); [by rewrite <-Hpe|done| |intros; lia].
    rewrite Hpe in Hp. destruct Hp as [? _]. lia. }
  destruct (partition_point_spec (fun r : Z * list N => let! c := @usub E r.1 1 in Ok (c <? index)) (fun r => r.1 - 1 <? index) p)
    as (i & -> & Hlen & Hlo & Hhi).
  - apply Forall_forall. intros [c v] Hr. apply list_elem_of_lookup in Hr as [j Hj].
    apply (runs_from_lookup 0 p j c v Hp) in Hj as [? _]. cbn. by rewrite usub_le by lia.
  - intros i j x y Hi Hj Hij Hy. pose proof (runs_from_increasing 0 p i j x y Hp Hi Hj Hij). lia.
  - cbn [obind]. assert (Hi : (i < length p)%nat).
    { destruct (decide (i = length p)) as [Heq|]; [|lia]. exfalso. unfold expanded_len in Hlt.
      destruct (last p) as [[c v]|] eqn:Hl; [|lia]. rewrite last_lookup in Hl. apply Hlo in Hl; [cbn in Hl; lia|].
      rewrite Hpe in *. cbn [length] in *. lia. }
    destruct (lookup_lt_is_Some_2 p i Hi) as [[c v] Hc]. rewrite Hc. cbn [unwrap obind snd]. f_equal. symmetry.
    rewrite <-(Z.sub_0_r index). apply (lookup_level 0 p i c v index Hp Hc).
    + apply (Hhi i (c, v)) in Hc; [|lia]. cbn in Hc. lia.
    + intros j x Hj Hx. apply Hlo in Hx; [|done]. cbn in Hx. lia.
Qed.

Lemma mod_runs prev p : 0 <= prev -> runs_from prev p -> List.map (fun r : Z * list N => (r.1 mod U8, r.2)) p = p.
Proof.
  revert prev. induction p as [|[c v] p IH]; intros prev H0; cbn; [done|]. intros [Hc Hp].
  rewrite Z.mod_small by lia. f_equal. apply (IH c); [lia|done].
Qed.

Section Dedup.
Context (dedup_with_count : list (list N) -> list (nat * list N)) `{!DedupSpec dedup_with_count}.

Lemma rle_levels levels : Z.of_nat (length levels) < U8 ->
  canonical (rle_cumulative dedup_with_count levels) /\ levels_of (rle_cumulative dedup_with_count levels) = levels.
Proof.
  intros Hlen. unfold rle_cumulative, levels_of. rewrite cumulate_run_lengths, dedup_unroll. split; [|done]. split.
  - apply cumulate_runs; [lia|apply dedup_positive|]. rewrite dedup_unroll. lia.
  - apply alternating_cumulate, dedup_alternating.
Qed.

Lemma try_from_levels_spec levels : Z.of_nat (length levels) < U8 ->
  exists p, try_from_levels dedup_with_count levels = Ok p /\ canonical p /\ levels_of p = levels.
Proof.
  intros Hlen. destruct (rle_levels levels Hlen) as [Hc Hl]. unfold try_from_levels. destruct (Z.ltb_spec (U8 - 1) (Z.of_nat (length levels))); [lia|].
  eexists. split; [done|]. rewrite (mod_runs 0) by (done || apply Hc). done.
Qed.

(** An encoding is determined by the levels it stands for. *)
Lemma canonical_unique p q : canonical p -> canonical q -> levels_of p = levels_of q -> p = q.
Proof.
  intros [Hp Hap] [Hq Haq] Heq. rewrite <-(run_lengths_cumulate 0 p Hp), <-(run_lengths_cumulate 0 q Hq). f_equal.
  apply unroll_inj; [by apply run_lengths_positive..| | |done]; by apply alternating_run_lengths.
Qed.

Lemma try_from_levels_of p : canonical p -> try_from_levels dedup_with_count (levels_of p) = Ok p.
Proof.
  intros Hc. destruct (try_from_levels_spec (levels_of p)) as (q & -> & Hq & Hl).
  { rewrite <-expanded_len_spec by done. by apply expanded_len_byte. }
  f_equal. by apply canonical_unique.
Qed.
End Dedup.

Lemma runs_from_snoc prev p c v : runs_from prev (p ++ [(c, v)]) <-> runs_from prev p /\ end_of prev p < c < U8.
Proof.
  revert prev. induction p as [|[d w] p IH]; intros prev; cbn [runs_from app]; [cbn; intuition lia|].
  rewrite end_of_cons, IH. tauto.
Qed.

Lemma alternating_snoc {K A} (p : list (K * A)) c v :
  alternating (p ++ [(c, v)]) <-> alternating p /\ (forall r, last p = Some r -> r.2 <> v).
Proof.
  induction p as [|x p IH]; [done|]. destruct p as [|y p].
  - cbn. split; [intros [? _]; split; [done|]; by intros r [= <-]|]. intros [_ Hl]. split; [by apply Hl|done].
  - cbn [app alternating] in *. change (last (x :: y :: p)) with (last (y :: p)). rewrite IH. tauto.
Qed.

Lemma run_lengths_snoc prev p c v :
  unroll (run_lengths prev (p ++ [(c, v)])) = unroll (run_lengths prev p) ++ replicate (Z.to_nat (c - end_of prev p)) v.
Proof.
  revert prev. induction p as [|[d w] p IH]; intros prev; cbn [app run_lengths].
  - unfold unroll. cbn. by rewrite app_nil_r.
  - rewrite end_of_cons. unfold unroll in *. cbn [List.map concat fst snd]. by rewrite <-app_assoc, IH.
Qed.

Lemma parents_push_spec {E} p level : canonical p -> expanded_len p + 1 < U8 ->
  exists p', @parents_push E p level = Ok p' /\ canonical p' /\ levels_of p' = levels_of p ++ [level].
Proof.
  intros [Hp Ha] Hlen. unfold parents_push, expanded_len in *. destruct (last p) as [[c w]|] eqn:Hl.
  - unfold next_level. destruct (Z.ltb_spec (c + 1) U8); [cbn [obind]|lia]. apply last_Some in Hl as [q ->].
    rewrite length_app. cbn [length]. rewrite Nat.add_sub, take_app_length.
    rewrite runs_from_snoc in Hp. destruct Hp as [Hq Hc].
    case_bool_decide as Hw; (eexists; split; [done|]); unfold canonical, levels_of.
    + subst w. rewrite runs_from_snoc, !run_lengths_snoc. apply alternating_snoc in Ha as Ha'. rewrite alternating_snoc.
      split; [split; [split; [done|lia]|done]|]. rewrite <-app_assoc. f_equal.
      replace (Z.to_nat (c + 1 - end_of 0 q)) with (Z.to_nat (c - end_of 0 q) + 1)%nat by lia. by rewrite replicate_add.
    + rewrite !runs_from_snoc, alternating_snoc, (run_lengths_snoc 0 (q ++ [(c, w)])).
      unfold end_of at 2 3. rewrite last_snoc. cbn [fst snd]. replace (c + 1 - c) with 1 by lia.
      split; [split; [split; [done|lia]|]|done]. split; [done|]. intros r [= <-]. done.
  - apply last_None in Hl as ->. eexists. split; [done|]. by split; [split; [cbn; lia|done]|].
Qed.

Lemma check_runs_cons c v d w p :
  check_runs ((c, v) :: (d, w) :: p) =
  if d <=? c then Err LevelsNotStrictlyIncreasing else if bool_decide (v = w) then Err NotFullyCompressed else check_runs ((d, w) :: p).
Proof. done. Qed.

(** The validation of received runs accepts exactly the canonical encodings, provided
    the first total is not zero. *)
Lemma check_runs_spec c v p : Forall (fun r : Z * list N => r.1 < U8) p ->
  check_runs ((c, v) :: p) = Ok tt <-> runs_from c p /\ alternating ((c, v) :: p).
Proof.
  intros Hb. revert c v. induction Hb as [|[d w] p Hd Hp IH]; intros c v; [done|]. rewrite check_runs_cons. cbn [runs_from].
  destruct (Z.leb_spec d c); [split; [done|lia]|]. case_bool_decide as Hw.
  - split; [done|]. intros [_ [Hne _]]. done.
  - rewrite IH. cbn [alternating snd fst] in *. intuition lia.
Qed.

Lemma check_runs_no_panic p : check_runs p <> Panic /\ check_runs p <> OutOfFuel.
Proof.
  induction p as [|[c v] [|[d w] p] IH]; [done|done|]. rewrite check_runs_cons. destruct (d <=? c); [done|]. by case_bool_decide.
Qed.

Lemma try_from_runs_canonical p : Forall (fun r : Z * list N => r.1 < U8) p -> (forall c v, head p = Some (c, v) -> 0 < c) ->
  try_from_runs p = Ok p <-> canonical p.
Proof.
  intros Hb Hpos. unfold try_from_runs. destruct p as [|[c v] p]; [by cbn|]. apply Forall_cons in Hb as [Hc Hb].
  specialize (Hpos c v eq_refl). cbn in Hc. unfold canonical. cbn [runs_from].
  pose proof (check_runs_spec c v p Hb) as Hs. destruct (check_runs ((c, v) :: p)) as [[]|e| |] eqn:Hck; cbn [obind].
  - split; [|done]. intros _. destruct Hs as [Hs _]. destruct (Hs eq_refl). intuition lia.
  - split; [done|]. intros [[_ ?] ?]. by destruct Hs as [_ Hs]; discriminate Hs.
  - by destruct (check_runs_no_panic ((c, v) :: p)) as [? _].
  - by destruct (check_runs_no_panic ((c, v) :: p)) as [_ ?].
Qed.

Lemma into_levels_spec {E} p : canonical p -> @into_levels E p = Ok (levels_of p).
Proof. intros [Hp _]. by apply expand_runs. Qed.
