(* ===== verification/Hashing.v ===== *)
(** * Hashing of transactions, headers and signatures

    Model of consensus/core/src/hashing (the byte encodings written into the hashers,
    transaction hash and id, header hash, signature hash with its reused values),
    consensus/core/src/merkle.rs and crypto/merkle/src/lib.rs.  The domain-separated
    hash functions (keyed BLAKE2b and SHA-256 of external crates) are one argument
    [H]; a hash is a number below 2^256 whose big-endian bytes are the 32 bytes of the
    Rust value, so that its order is the order of the bytes. *)

From Stdlib Require Import ZArith Lia Bool.
From stdpp Require Import base gmap list numbers sorting.
From S2P Require Import Prelude Tx Uint Header.

#[local] Open Scope Z_scope.

(** ** Domains (crypto/hashes/src/hashers.rs) *)

Inductive HashDomain :=
| TransactionHash
| TransactionID
| TransactionSigningHash
| BlockHash
| ProofOfWorkHash
| MerkleBranchHash
| MuHashElementHash
| MuHashFinalizeHash
| PersonalMessageSigningHash
| TransactionSigningHashECDSA.

(** [Hash::as_bytes] and [ZERO_HASH] *)
Definition hash_as_bytes (h : N) : bytes := rev (le_bytes 32 (Z.of_N h)).
Definition ZERO_HASH : N := 0%N.

(** ** [HasherExtensions] *)

Definition write_len (n : nat) : bytes := le_bytes 8 (Z.of_nat n).
Definition write_bool (b : bool) : bytes := if b then [1] else [0].
Definition write_u8 (x : Z) : bytes := le_bytes 1 x.
Definition write_u16 (x : Z) : bytes := le_bytes 2 x.
Definition write_u32 (x : Z) : bytes := le_bytes 4 x.
Definition write_u64 (x : Z) : bytes := le_bytes 8 x.
Definition write_var_bytes (bs : bytes) : bytes := write_len (length bs) ++ bs.
Definition write_var_array (arr : list bytes) : bytes := write_len (length arr) ++ concat arr.

(** [write_blue_work]: the big-endian bytes of the 192-bit work without leading zeros. *)
Definition write_blue_work (work : Z) : bytes := write_var_bytes (drop_zeros (rev (le_bytes 24 work))).

(** ** Transactions (hashing/tx.rs) *)

Record TxEncodingFlags := mk_flags {
  exclude_signature_script : bool;
  exclude_mass_commit : bool
}.
Definition flags_FULL : TxEncodingFlags := mk_flags false false.

Definition write_outpoint (o : TransactionOutpoint) : bytes := hash_as_bytes o.1 ++ write_u32 (Z.of_N o.2).

Definition write_input (flags : TxEncodingFlags) (i : TransactionInput) : bytes :=
  write_outpoint (in_previous_outpoint i) ++
  (if exclude_signature_script flags then write_var_bytes []
   else write_var_bytes (in_signature_script i) ++ [in_sig_op_count i]) ++
  write_u64 (in_sequence i).

Definition write_output (o : TransactionOutput) : bytes :=
  write_u64 (out_value o) ++ write_u16 (spk_version (out_script_public_key o)) ++
  write_var_bytes (spk_script (out_script_public_key o)).

Definition write_transaction (flags : TxEncodingFlags) (tx : Transaction) : bytes :=
  write_u16 (tx_version tx) ++ write_len (length (tx_inputs tx)) ++ concat (List.map (write_input flags) (tx_inputs tx)) ++
  write_len (length (tx_outputs tx)) ++ concat (List.map write_output (tx_outputs tx)) ++
  write_u64 (tx_lock_time tx) ++ tx_subnetwork_id tx ++ write_u64 (tx_gas tx) ++ write_var_bytes (tx_payload tx) ++
  (if exclude_mass_commit flags then [] else if 0 <? tx_mass tx then write_u64 (tx_mass tx) else []).

(** ** Headers (hashing/header.rs) *)

(** Panics when the runs of the parents do not increase, as the iterator does. *)
Definition header_preimage {E} (h : Header) (nonce timestamp : Z) : outcome E bytes :=
  let! levels := expanded_iter (h_parents_by_level h) in
  Ok (write_u16 (h_version h) ++ le_bytes 8 (expanded_len (h_parents_by_level h)) ++
      concat (List.map (fun level => write_var_array (List.map hash_as_bytes level)) levels) ++
      hash_as_bytes (h_hash_merkle_root h) ++ hash_as_bytes (h_accepted_id_merkle_root h) ++ hash_as_bytes (h_utxo_commitment h) ++
      write_u64 timestamp ++ write_u32 (h_bits h) ++ write_u64 nonce ++ write_u64 (h_daa_score h) ++ write_u64 (h_blue_score h) ++
      write_blue_work (h_blue_work h) ++ hash_as_bytes (h_pruning_point h)).

(** ** Signature hash types (sighash_type.rs) *)

Definition SIG_HASH_ALL : Z := 1.
Definition SIG_HASH_NONE : Z := 2.
Definition SIG_HASH_SINGLE : Z := 4.
Definition SIG_HASH_ANY_ONE_CAN_PAY : Z := 128.
Definition SIG_HASH_MASK : Z := 7.
Definition ALLOWED_SIG_HASH_TYPES_VALUES : list Z :=
  [SIG_HASH_ALL; SIG_HASH_NONE; SIG_HASH_SINGLE; Z.lor SIG_HASH_ALL SIG_HASH_ANY_ONE_CAN_PAY;
   Z.lor SIG_HASH_NONE SIG_HASH_ANY_ONE_CAN_PAY; Z.lor SIG_HASH_SINGLE SIG_HASH_ANY_ONE_CAN_PAY].

Definition is_sighash_all (t : Z) : bool := Z.land t SIG_HASH_MASK =? SIG_HASH_ALL.
Definition is_sighash_none (t : Z) : bool := Z.land t SIG_HASH_MASK =? SIG_HASH_NONE.
Definition is_sighash_single (t : Z) : bool := Z.land t SIG_HASH_MASK =? SIG_HASH_SINGLE.
Definition is_sighash_anyone_can_pay (t : Z) : bool := Z.land t SIG_HASH_ANY_ONE_CAN_PAY =? SIG_HASH_ANY_ONE_CAN_PAY.
Definition sig_hash_type_from_u8 (val : Z) : option Z :=
  if bool_decide (val ∈ ALLOWED_SIG_HASH_TYPES_VALUES) then Some val else None.

(** ** Signature hash (sighash.rs) *)

(** [SigHashReusedValuesUnsync]: hashes shared by all inputs of a transaction. *)
Record SigHashReusedValues := mk_reused {
  ru_previous_outputs_hash : option N;
  ru_sequences_hash : option N;
  ru_sig_op_counts_hash : option N;
  ru_outputs_hash : option N;
  ru_payload_hash : option N
}.
Definition reused_new : SigHashReusedValues := mk_reused None None None None None.

(** [cell.get().unwrap_or_else(|| { let hash = set(); cell.set(Some(hash)); hash })] *)
Definition get_or_set (cell : option N) (set : N) : N * option N :=
  match cell with Some h => (h, cell) | None => (set, Some set) end.

Definition hash_outpoint (o : TransactionOutpoint) : bytes := hash_as_bytes o.1 ++ write_u32 (Z.of_N o.2).
Definition hash_script_public_key (spk : ScriptPublicKey) : bytes := write_u16 (spk_version spk) ++ write_var_bytes (spk_script spk).
Definition hash_output (o : TransactionOutput) : bytes := write_u64 (out_value o) ++ hash_script_public_key (out_script_public_key o).

(** What the closures of the shared hashes write. *)
Definition previous_outputs_preimage (tx : Transaction) : bytes :=
  concat (List.map (fun i => hash_as_bytes (in_previous_outpoint i).1 ++ write_u32 (Z.of_N (in_previous_outpoint i).2)) (tx_inputs tx)).
Definition sequences_preimage (tx : Transaction) : bytes := concat (List.map (fun i => write_u64 (in_sequence i)) (tx_inputs tx)).
Definition sig_op_counts_preimage (tx : Transaction) : bytes := concat (List.map (fun i => write_u8 (in_sig_op_count i)) (tx_inputs tx)).
Definition outputs_preimage (tx : Transaction) : bytes := concat (List.map hash_output (tx_outputs tx)).

Section WithHash.
Variable H : HashDomain -> bytes -> N.

Definition tx_hash (tx : Transaction) : N := H TransactionHash (write_transaction flags_FULL tx).
Definition hash_pre_crescendo (tx : Transaction) : N := H TransactionHash (write_transaction (mk_flags false true) tx).

Definition id_flags (tx : Transaction) : TxEncodingFlags := if is_coinbase tx then flags_FULL else mk_flags true true.
Definition compute_id (tx : Transaction) : N := H TransactionID (write_transaction (id_flags tx) tx).

(** [Transaction::finalize] *)
Definition finalize (tx : Transaction) : Transaction :=
  mk_tx (tx_version tx) (tx_inputs tx) (tx_outputs tx) (tx_lock_time tx) (tx_subnetwork_id tx) (tx_gas tx) (tx_payload tx) (tx_mass tx)
    (compute_id tx).

Definition hash_override_nonce_time {E} (h : Header) (nonce timestamp : Z) : outcome E N :=
  let! pre := header_preimage h nonce timestamp in Ok (H BlockHash pre).
Definition header_hash {E} (h : Header) : outcome E N := hash_override_nonce_time h (h_nonce h) (h_timestamp h).

Definition header_finalize {E} (h : Header) : outcome E Header :=
  let! hash := header_hash h in
  Ok (mk_header hash (h_version h) (h_parents_by_level h) (h_hash_merkle_root h) (h_accepted_id_merkle_root h) (h_utxo_commitment h)
        (h_timestamp h) (h_bits h) (h_nonce h) (h_daa_score h) (h_blue_work h) (h_blue_score h) (h_pruning_point h)).

Definition previous_outputs_hash (tx : Transaction) (t : Z) (r : SigHashReusedValues) : N * SigHashReusedValues :=
  if is_sighash_anyone_can_pay t then (ZERO_HASH, r)
  else
    let '(h, c) := get_or_set (ru_previous_outputs_hash r) (H TransactionSigningHash (previous_outputs_preimage tx)) in
    (h, mk_reused c (ru_sequences_hash r) (ru_sig_op_counts_hash r) (ru_outputs_hash r) (ru_payload_hash r)).

Definition sequences_hash (tx : Transaction) (t : Z) (r : SigHashReusedValues) : N * SigHashReusedValues :=
  if is_sighash_single t || is_sighash_anyone_can_pay t || is_sighash_none t then (ZERO_HASH, r)
  else
    let '(h, c) := get_or_set (ru_sequences_hash r) (H TransactionSigningHash (sequences_preimage tx)) in
    (h, mk_reused (ru_previous_outputs_hash r) c (ru_sig_op_counts_hash r) (ru_outputs_hash r) (ru_payload_hash r)).

Definition sig_op_counts_hash (tx : Transaction) (t : Z) (r : SigHashReusedValues) : N * SigHashReusedValues :=
  if is_sighash_anyone_can_pay t then (ZERO_HASH, r)
  else
    let '(h, c) := get_or_set (ru_sig_op_counts_hash r) (H TransactionSigningHash (sig_op_counts_preimage tx)) in
    (h, mk_reused (ru_previous_outputs_hash r) (ru_sequences_hash r) c (ru_outputs_hash r) (ru_payload_hash r)).

Definition payload_hash (tx : Transaction) (r : SigHashReusedValues) : N * SigHashReusedValues :=
  if is_native (tx_subnetwork_id tx) && bool_decide (tx_payload tx = []) then (ZERO_HASH, r)
  else
    let '(h, c) := get_or_set (ru_payload_hash r) (H TransactionSigningHash (write_var_bytes (tx_payload tx))) in
    (h, mk_reused (ru_previous_outputs_hash r) (ru_sequences_hash r) (ru_sig_op_counts_hash r) (ru_outputs_hash r) c).

Definition outputs_hash (tx : Transaction) (t : Z) (input_index : nat) (r : SigHashReusedValues) : N * SigHashReusedValues :=
  if is_sighash_none t then (ZERO_HASH, r)
  else if is_sighash_single t then
    match tx_outputs tx !! input_index with
    | None => (ZERO_HASH, r)
    | Some o => (H TransactionSigningHash (hash_output o), r)
    end
  else
    let '(h, c) := get_or_set (ru_outputs_hash r) (H TransactionSigningHash (outputs_preimage tx)) in
    (h, mk_reused (ru_previous_outputs_hash r) (ru_sequences_hash r) (ru_sig_op_counts_hash r) c (ru_payload_hash r)).

(** What is hashed for an input, once the shared hashes are known. *)
Definition signature_preimage (tx : Transaction) (i : TransactionInput) (e : UtxoEntry) (t : Z) (prev seqs sig_ops outs payload : N) : bytes :=
  write_u16 (tx_version tx) ++ hash_as_bytes prev ++ hash_as_bytes seqs ++ hash_as_bytes sig_ops ++
  hash_outpoint (in_previous_outpoint i) ++ hash_script_public_key (ue_script_public_key e) ++
  write_u64 (ue_amount e) ++ write_u64 (in_sequence i) ++ write_u8 (in_sig_op_count i) ++ hash_as_bytes outs ++
  write_u64 (tx_lock_time tx) ++ tx_subnetwork_id tx ++ write_u64 (tx_gas tx) ++ hash_as_bytes payload ++ write_u8 t.

(** [populated_input] indexes the inputs and the entries: a panic out of range. *)
Definition populated_input {E} (v : VerifiableTransaction) (index : nat) : outcome E (TransactionInput * UtxoEntry) :=
  let! i := unwrap (tx_inputs (v_tx v) !! index) in let! e := unwrap (v_entries v !! index) in Ok (i, e).

Definition calc_schnorr_signature_hash {E} (v : VerifiableTransaction) (input_index : nat) (t : Z) (r : SigHashReusedValues) :
    outcome E (N * SigHashReusedValues) :=
  let! ' (i, e) := populated_input v input_index in
  let tx := v_tx v in
  let '(prev, r) := previous_outputs_hash tx t r in
  let '(seqs, r) := sequences_hash tx t r in
  let '(sig_ops, r) := sig_op_counts_hash tx t r in
  let '(outs, r) := outputs_hash tx t input_index r in
  let '(payload, r) := payload_hash tx r in
  Ok (H TransactionSigningHash (signature_preimage tx i e t prev seqs sig_ops outs payload), r).

Definition calc_ecdsa_signature_hash {E} (v : VerifiableTransaction) (input_index : nat) (t : Z) (r : SigHashReusedValues) :
    outcome E (N * SigHashReusedValues) :=
  let! ' (hash, r) := calc_schnorr_signature_hash v input_index t r in
  Ok (H TransactionSigningHashECDSA (hash_as_bytes hash), r).

(** ** Merkle trees (crypto/merkle/src/lib.rs, consensus/core/src/merkle.rs) *)

Definition merkle_hash (left right : N) : N := H MerkleBranchHash (hash_as_bytes left ++ hash_as_bytes right).

(** [usize::next_power_of_two] *)
Definition next_power_of_two (n : nat) : nat := Z.to_nat (2 ^ Z.log2_up (Z.of_nat n)).

(** The loop over [(0..vec_len - 1).step_by(2)]: [n] steps from index [i]. *)
Fixpoint merkle_loop {E} (n i offset : nat) (merkles : list (option N)) : outcome E (list (option N)) :=
  match n with
  | O => Ok merkles
  | S n' =>
      let! left := unwrap (merkles !! i) in
      let! merkles' :=
        match left with
        | None => let! _ := unwrap (merkles !! offset) in Ok (<[offset := None]> merkles)
        | Some l =>
            let! right := unwrap (merkles !! (i + 1)%nat) in
            let! _ := unwrap (merkles !! offset) in
            Ok (<[offset := Some (merkle_hash l (default ZERO_HASH right))]> merkles)
        end in
      merkle_loop n' (i + 2) (offset + 1) merkles'
  end.

Definition calc_merkle_root {E} (hashes : list N) : outcome E N :=
  match hashes with
  | [] => Ok ZERO_HASH
  | _ =>
      let next_pot := next_power_of_two (length hashes) in
      let vec_len := (2 * next_pot - 1)%nat in
      let merkles := List.map Some hashes ++ replicate (vec_len - length hashes) None in
      let! merkles := merkle_loop (next_pot - 1) 0 next_pot merkles in
      let! l := unwrap (last merkles) in unwrap l
  end.

Definition calc_hash_merkle_root {E} (txs : list Transaction) : outcome E N := calc_merkle_root (List.map tx_hash txs).
Definition calc_hash_merkle_root_pre_crescendo {E} (txs : list Transaction) : outcome E N :=
  calc_merkle_root (List.map hash_pre_crescendo txs).
Definition calc_accepted_id_merkle_root_pre_crescendo {E} (accepted_tx_ids : list N) : outcome E N :=
  calc_merkle_root (merge_sort N.le accepted_tx_ids).
End WithHash.
