(* ===== verification/HashingProps.v ===== *)
(** * What hashes commit to: properties

    Encodings that are self-delimiting determine what they encode; equal transaction
    ids, signature hashes and Merkle roots come from equal data, or exhibit a collision
    of the hash function. *)

From Stdlib Require Import ZArith Lia Bool.
From stdpp Require Import base gmap list numbers sorting.
From S2P Require Import Prelude BinarySearch Tx Uint UintLemmas Header Hashing.

#[local] Open Scope Z_scope.

(** ** Self-delimiting encodings *)

Definition self_delimiting {A} (P : A -> Prop) (enc : A -> bytes) : Prop :=
  forall a b r s, P a -> P b -> enc a ++ r = enc b ++ s -> a = b /\ r = s.

Lemma sd_fixed {A} (P : A -> Prop) (enc : A -> bytes) n :
  (forall a, P a -> length (enc a) = n) -> (forall a b, P a -> P b -> enc a = enc b -> a = b) -> self_delimiting P enc.
Proof.
  intros Hlen Hinj a b r s Ha Hb Heq. apply app_inj_1 in Heq as [He ->]; [|by rewrite !Hlen]. split; [by apply Hinj|done].
Qed.

Lemma le_bytes_inj n a b : 0 <= a < 256 ^ Z.of_nat n -> 0 <= b < 256 ^ Z.of_nat n -> le_bytes n a = le_bytes n b -> a = b.
Proof. intros Ha Hb Heq. rewrite <-(of_le_bytes_le n a), <-(of_le_bytes_le n b) by done. by rewrite Heq. Qed.

Lemma sd_le n : self_delimiting (fun x => 0 <= x < 256 ^ Z.of_nat n) (le_bytes n).
Proof. apply (sd_fixed _ _ n); [intros; apply length_le_bytes|]. intros a b Ha Hb. by apply le_bytes_inj. Qed.

Definition is_hash (h : N) : Prop := (h < 2 ^ 256)%N.

Lemma hash_as_bytes_inj a b : is_hash a -> is_hash b -> hash_as_bytes a = hash_as_bytes b -> a = b.
Proof.
  unfold is_hash, hash_as_bytes. intros Ha Hb Heq. apply (f_equal (@rev Z)) in Heq. rewrite !rev_involutive in Heq.
  apply le_bytes_inj in Heq; change (256 ^ Z.of_nat 32) with (Z.of_N (2 ^ 256)); lia.
Qed.

Lemma length_hash_as_bytes h : length (hash_as_bytes h) = 32%nat.
Proof. unfold hash_as_bytes. by rewrite length_rev, length_le_bytes. Qed.

Lemma sd_hash : self_delimiting is_hash hash_as_bytes.
Proof. apply (sd_fixed _ _ 32); [intros; apply length_hash_as_bytes|apply hash_as_bytes_inj]. Qed.

(** Lists longer than memory do not occur. *)
Definition sized {A} (l : list A) : Prop := Z.of_nat (length l) < U64.

Lemma sd_len {A} (l1 l2 : list A) r s : sized l1 -> sized l2 ->
  write_len (length l1) ++ r = write_len (length l2) ++ s -> length l1 = length l2 /\ r = s.
Proof.
  unfold sized. intros H1 H2 Heq. apply (sd_le 8) in Heq as [Hl ->]; [|change (256 ^ Z.of_nat 8) with U64; lia..]. split; [lia|done].
Qed.

Lemma sd_var_bytes : self_delimiting sized write_var_bytes.
Proof.
  intros a b r s Ha Hb. unfold write_var_bytes. rewrite <-!app_assoc. intros [Hl Heq]%sd_len; [|done..]. by apply app_inj_1 in Heq.
Qed.

(** Elements one after the other, as many as on the other side. *)
Lemma sd_concat {A} (P : A -> Prop) (enc : A -> bytes) : self_delimiting P enc ->
  forall l1 l2 r s, Forall P l1 -> Forall P l2 -> length l1 = length l2 ->
  concat (List.map enc l1) ++ r = concat (List.map enc l2) ++ s -> l1 = l2 /\ r = s.
Proof.
  intros Hsd l1. induction l1 as [|a l1 IH]; intros [|b l2] r s H1 H2 Hlen; try done. cbn [List.map concat].
  apply Forall_cons in H1 as [Ha H1]. apply Forall_cons in H2 as [Hb H2]. rewrite <-!app_assoc.
  intros [-> Heq]%Hsd; [|done..]. apply IH in Heq as [-> ->]; [done..|]. by injection Hlen.
Qed.

(** Elements one after the other to the end. *)
Lemma sd_concat_end {A} (P : A -> Prop) (enc : A -> bytes) : self_delimiting P enc -> (forall a, enc a <> []) ->
  forall l1 l2, Forall P l1 -> Forall P l2 -> concat (List.map enc l1) = concat (List.map enc l2) -> l1 = l2.
Proof.
  intros Hsd Hne l1. induction l1 as [|a l1 IH]; intros [|b l2] H1 H2; cbn [List.map concat]; [done| | |].
  - intros Heq. symmetry in Heq. apply app_eq_nil in Heq as [Heq _]. by apply Hne in Heq.
  - intros Heq. apply app_eq_nil in Heq as [Heq _]. by apply Hne in Heq.
  - apply Forall_cons in H1 as [Ha H1]. apply Forall_cons in H2 as [Hb H2]. intros [-> Heq]%Hsd; [|done..].
    by rewrite (IH l2 H1 H2 Heq).
Qed.

(** Elements one after the other after their number. *)
Lemma sd_counted {A} (P : A -> Prop) (enc : A -> bytes) : self_delimiting P enc ->
  forall l1 l2 r s, Forall P l1 -> Forall P l2 -> sized l1 -> sized l2 ->
  write_len (length l1) ++ concat (List.map enc l1) ++ r = write_len (length l2) ++ concat (List.map enc l2) ++ s -> l1 = l2 /\ r = s.
Proof.
  intros Hsd l1 l2 r s H1 H2 Hs1 Hs2 [Hl Heq]%sd_len; [|done..]. by apply (sd_concat P enc Hsd) in Heq.
Qed.

(** ** Well-formed transactions: fields at their widths *)

Definition outpoint_wf (o : TransactionOutpoint) : Prop := is_hash o.1 /\ (o.2 < 2 ^ 32)%N.
Record input_wf (i : TransactionInput) : Prop := mk_input_wf {
  iw_outpoint : outpoint_wf (in_previous_outpoint i);
  iw_script : sized (in_signature_script i);
  iw_sequence : in_u64 (in_sequence i);
  iw_sig_op_count : 0 <= in_sig_op_count i < U8
}.
Record spk_wf (s : ScriptPublicKey) : Prop := mk_spk_wf {
  sw_version : 0 <= spk_version s < U16;
  sw_script : sized (spk_script s)
}.
Record output_wf (o : TransactionOutput) : Prop := mk_output_wf {
  ow_value : in_u64 (out_value o);
  ow_spk : spk_wf (out_script_public_key o)
}.
Record tx_wf (tx : Transaction) : Prop := mk_tx_wf {
  tw_version : 0 <= tx_version tx < U16;
  tw_inputs : Forall input_wf (tx_inputs tx) /\ sized (tx_inputs tx);
  tw_outputs : Forall output_wf (tx_outputs tx) /\ sized (tx_outputs tx);
  tw_lock_time : in_u64 (tx_lock_time tx);
  tw_subnetwork : length (tx_subnetwork_id tx) = SUBNETWORK_ID_SIZE;
  tw_gas : in_u64 (tx_gas tx);
  tw_payload : sized (tx_payload tx);
  tw_mass : in_u64 (tx_mass tx)
}.

Lemma sd_u16 : self_delimiting (fun x => 0 <= x < U16) write_u16. Proof. exact (sd_le 2). Qed.
Lemma sd_u64 : self_delimiting in_u64 write_u64. Proof. exact (sd_le 8). Qed.
Lemma sd_u32 : self_delimiting (fun x => 0 <= x < U32) write_u32. Proof. exact (sd_le 4). Qed.
Lemma sd_u8 : self_delimiting (fun x => 0 <= x < U8) write_u8. Proof. exact (sd_le 1). Qed.

Lemma sd_outpoint : self_delimiting outpoint_wf write_outpoint.
Proof.
  intros [h1 i1] [h2 i2] r s [Hh1 Hi1] [Hh2 Hi2]. unfold write_outpoint. cbn [fst snd] in *. rewrite <-!app_assoc.
  intros [-> Heq]%sd_hash; [|done..]. apply sd_u32 in Heq as [Hi ->]; [|lia..]. split; [|done]. f_equal. lia.
Qed.

Lemma sd_spk : self_delimiting spk_wf hash_script_public_key.
Proof.
  intros [v1 s1] [v2 s2] r s [Hv1 Hs1] [Hv2 Hs2]. unfold hash_script_public_key. cbn [spk_version spk_script] in *. rewrite <-!app_assoc.
  intros [-> Heq]%sd_u16; [|done..]. by apply sd_var_bytes in Heq as [-> ->].
Qed.

Lemma sd_output : self_delimiting output_wf hash_output.
Proof.
  intros [v1 s1] [v2 s2] r s [Hv1 Hs1] [Hv2 Hs2]. unfold hash_output. cbn [out_value out_script_public_key] in *. rewrite <-!app_assoc.
  intros [-> Heq]%sd_u64; [|done..]. by apply sd_spk in Heq as [-> ->].
Qed.

Lemma write_output_eq o : write_output o = hash_output o.
Proof. done. Qed.

(** An input without the fields the flags leave out. *)
Definition strip_input (i : TransactionInput) : TransactionInput := mk_input (in_previous_outpoint i) [] (in_sequence i) 0.

Lemma sd_input_full : self_delimiting input_wf (write_input flags_FULL).
Proof.
  intros [o1 s1 q1 c1] [o2 s2 q2 c2] r s [Ho1 Hs1 Hq1 Hc1] [Ho2 Hs2 Hq2 Hc2]. unfold write_input. cbn [in_previous_outpoint in_signature_script in_sequence in_sig_op_count exclude_signature_script flags_FULL] in *. rewrite <-!app_assoc.
  intros [-> Heq]%sd_outpoint; [|done..]. apply sd_var_bytes in Heq as [-> Heq]; [|done..]. apply (app_inj_1 [c1] [c2]) in Heq as [[= ->] Heq]; [|done].
  by apply sd_u64 in Heq as [-> ->].
Qed.

Lemma sd_input_stripped m : self_delimiting (fun i => input_wf i /\ strip_input i = i) (write_input (mk_flags true m)).
Proof.
  intros [o1 s1 q1 c1] [o2 s2 q2 c2] r s [[Ho1 Hs1 Hq1 Hc1] [= <- <-]] [[Ho2 Hs2 Hq2 Hc2] [= <- <-]]. unfold write_input. cbn [in_previous_outpoint in_signature_script in_sequence in_sig_op_count exclude_signature_script flags_FULL] in *.
  rewrite <-!app_assoc. intros [-> Heq]%sd_outpoint; [|done..]. apply sd_var_bytes in Heq as [_ Heq]; [|by vm_compute..].
  by apply sd_u64 in Heq as [-> ->].
Qed.

(** The part of a transaction its id covers: no signature scripts, signature operation
    counts or mass, and not the cached id. *)
Definition unsigned_part (tx : Transaction) : Transaction :=
  mk_tx (tx_version tx) (List.map strip_input (tx_inputs tx)) (tx_outputs tx) (tx_lock_time tx) (tx_subnetwork_id tx) (tx_gas tx)
    (tx_payload tx) 0 0.
(** Everything but the cached id. *)
Definition content (tx : Transaction) : Transaction :=
  mk_tx (tx_version tx) (tx_inputs tx) (tx_outputs tx) (tx_lock_time tx) (tx_subnetwork_id tx) (tx_gas tx) (tx_payload tx) (tx_mass tx) 0.

(** Two different messages among [ms] with the same hash.  The messages are named, since
    some collision always exists for a hash function of bounded size. *)
Definition collision (H : HashDomain -> bytes -> N) (d : HashDomain) (ms : list bytes) : Prop :=
  exists m1 m2, (m1 ∈ ms) /\ (m2 ∈ ms) /\ m1 <> m2 /\ H d m1 = H d m2.

Lemma equal_or_collision H d ms m1 m2 : m1 ∈ ms -> m2 ∈ ms -> H d m1 = H d m2 -> m1 = m2 \/ collision H d ms.
Proof. intros H1 H2 Heq. destruct (decide (m1 = m2)); [by left|right]. by exists m1, m2. Qed.

Lemma collision_mono H d ms ms' : ms ⊆ ms' -> collision H d ms -> collision H d ms'.
Proof. intros Hs (m1 & m2 & H1 & H2 & Hne & Heq). exists m1, m2. split_and!; auto. Qed.

Lemma mass_commit_inj m1 m2 : in_u64 m1 -> in_u64 m2 ->
  (if 0 <? m1 then write_u64 m1 else []) = (if 0 <? m2 then write_u64 m2 else []) -> m1 = m2.
Proof.
  unfold in_u64. intros H1 H2. destruct (Z.ltb_spec 0 m1), (Z.ltb_spec 0 m2); try done; [|lia].
  intros Heq. apply (le_bytes_inj 8) in Heq; [done|exact H1|exact H2].
Qed.

Lemma write_transaction_inj flags (P : TransactionInput -> Prop) tx1 tx2 :
  self_delimiting P (write_input flags) -> tx_wf tx1 -> tx_wf tx2 -> Forall P (tx_inputs tx1) -> Forall P (tx_inputs tx2) ->
  write_transaction flags tx1 = write_transaction flags tx2 ->
  tx_version tx1 = tx_version tx2 /\ tx_inputs tx1 = tx_inputs tx2 /\ tx_outputs tx1 = tx_outputs tx2 /\
  tx_lock_time tx1 = tx_lock_time tx2 /\ tx_subnetwork_id tx1 = tx_subnetwork_id tx2 /\ tx_gas tx1 = tx_gas tx2 /\
  tx_payload tx1 = tx_payload tx2 /\ (exclude_mass_commit flags = false -> tx_mass tx1 = tx_mass tx2).
Proof.
  intros Hsd [Hv1 Hi1 Ho1 Hl1 Hs1 Hg1 Hp1 Hm1] [Hv2 Hi2 Ho2 Hl2 Hs2 Hg2 Hp2 Hm2] HP1 HP2. unfold write_transaction.
  intros [Hv Heq]%sd_u16; [|done..]. apply (sd_counted P _ Hsd) in Heq as [Hi Heq]; [|done|done|apply Hi1|apply Hi2].
  apply (sd_counted output_wf write_output sd_output) in Heq as [Ho Heq]; [|apply Ho1|apply Ho2|apply Ho1|apply Ho2].
  apply sd_u64 in Heq as [Hl Heq]; [|done..]. apply app_inj_1 in Heq as [Hs Heq]; [|congruence].
  apply sd_u64 in Heq as [Hg Heq]; [|done..]. apply sd_var_bytes in Heq as [Hp Heq]; [|done..].
  split_and!; [done..|]. intros Hx. rewrite Hx in Heq. by apply mass_commit_inj in Heq.
Qed.

Lemma write_input_strip m i : write_input (mk_flags true m) i = write_input (mk_flags true m) (strip_input i).
Proof. done. Qed.

Lemma strip_input_wf i : input_wf i -> input_wf (strip_input i).
Proof. intros [Ho Hs Hq Hc]. by split. Qed.

Lemma unsigned_part_wf tx : tx_wf tx -> tx_wf (unsigned_part tx).
Proof.
  intros [Hv [Hi Hn] Ho Hl Hs Hg Hp Hm]. split; try done. cbn. split.
  - apply Forall_map. eapply Forall_impl; [exact Hi|]. apply strip_input_wf.
  - unfold sized in *. by rewrite List.length_map.
Qed.

Lemma write_transaction_unsigned tx : write_transaction (mk_flags true true) tx = write_transaction (mk_flags true true) (unsigned_part tx).
Proof.
  unfold write_transaction. cbn [unsigned_part tx_version tx_inputs tx_outputs tx_lock_time tx_subnetwork_id tx_gas tx_payload exclude_mass_commit].
  by rewrite List.length_map, List.map_map.
Qed.

Lemma full_encoding_inj tx1 tx2 : tx_wf tx1 -> tx_wf tx2 -> write_transaction flags_FULL tx1 = write_transaction flags_FULL tx2 ->
  content tx1 = content tx2.
Proof.
  intros H1 H2 Heq. apply (write_transaction_inj _ input_wf) in Heq as (? & ? & ? & ? & ? & ? & ? & Hm);
    [|apply sd_input_full|done|done|apply H1|apply H2]. unfold content. specialize (Hm eq_refl). congruence.
Qed.

Lemma unsigned_encoding_inj tx1 tx2 : tx_wf tx1 -> tx_wf tx2 ->
  write_transaction (mk_flags true true) tx1 = write_transaction (mk_flags true true) tx2 -> unsigned_part tx1 = unsigned_part tx2.
Proof.
  intros H1 H2. rewrite (write_transaction_unsigned tx1), (write_transaction_unsigned tx2). intros Heq.
  assert (Hst : forall tx, tx_wf tx -> Forall (fun i => input_wf i /\ strip_input i = i) (tx_inputs (unsigned_part tx))).
  { intros tx [_ [Hi _] _ _ _ _ _ _]. apply Forall_map. eapply Forall_impl; [exact Hi|]. intros i Hw. split; [by apply strip_input_wf|done]. }
  apply (write_transaction_inj _ _ _ _ (sd_input_stripped true)) in Heq as (? & ? & ? & ? & ? & ? & ? & _);
    [|by apply unsigned_part_wf|by apply unsigned_part_wf|by apply Hst|by apply Hst]. cbn in *. unfold unsigned_part. congruence.
Qed.

(** ** Signature hashes *)

Section Sighash.
Variable H : HashDomain -> bytes -> N.

(** A cell holds nothing or the hash of its preimage. *)
Definition cell_ok (cell : option N) (preimage : bytes) : Prop :=
  forall h, cell = Some h -> h = H TransactionSigningHash preimage.

Record reused_ok (tx : Transaction) (r : SigHashReusedValues) : Prop := mk_reused_ok {
  ro_previous : cell_ok (ru_previous_outputs_hash r) (previous_outputs_preimage tx);
  ro_sequences : cell_ok (ru_sequences_hash r) (sequences_preimage tx);
  ro_sig_ops : cell_ok (ru_sig_op_counts_hash r) (sig_op_counts_preimage tx);
  ro_outputs : cell_ok (ru_outputs_hash r) (outputs_preimage tx);
  ro_payload : cell_ok (ru_payload_hash r) (write_var_bytes (tx_payload tx))
}.

Lemma reused_new_ok tx : reused_ok tx reused_new.
Proof. by split. Qed.

Lemma get_or_set_ok cell pre : cell_ok cell pre ->
  get_or_set cell (H TransactionSigningHash pre) = (H TransactionSigningHash pre, Some (H TransactionSigningHash pre)).
Proof. intros Hc. destruct cell as [h|]; [|done]. cbn. by rewrite (Hc h eq_refl). Qed.

Lemma cell_ok_set pre : cell_ok (Some (H TransactionSigningHash pre)) pre.
Proof. by intros h [= <-]. Qed.

(** A shared hash, from any consistent state: the same value, a consistent state. *)
Definition transparent (tx : Transaction) (f : SigHashReusedValues -> N * SigHashReusedValues) : Prop :=
  forall r, reused_ok tx r -> (f r).1 = (f reused_new).1 /\ reused_ok tx (f r).2.

Ltac transparent_auto :=
  intros r Hr; pose proof Hr as [Hp Hs Hg Ho Hl];
  repeat (case_match; [done|]); rewrite !get_or_set_ok by done; split; [done|]; split; cbn; try done; apply cell_ok_set.

Lemma previous_outputs_transparent tx t : transparent tx (previous_outputs_hash H tx t).
Proof. unfold previous_outputs_hash. transparent_auto. Qed.
Lemma sequences_transparent tx t : transparent tx (sequences_hash H tx t).
Proof. unfold sequences_hash. transparent_auto. Qed.
Lemma sig_op_counts_transparent tx t : transparent tx (sig_op_counts_hash H tx t).
Proof. unfold sig_op_counts_hash. transparent_auto. Qed.
Lemma payload_transparent tx : transparent tx (payload_hash H tx).
Proof. unfold payload_hash. transparent_auto. Qed.
Lemma outputs_transparent tx t i : transparent tx (outputs_hash H tx t i).
Proof.
  unfold outputs_hash. intros r Hr. destruct (is_sighash_none t); [done|]. destruct (is_sighash_single t); [by case_match|].
  revert r Hr. transparent_auto.
Qed.

Lemma schnorr_hash_transparent {E} v i t r : reused_ok (v_tx v) r ->
  exists r', reused_ok (v_tx v) r' /\
    @calc_schnorr_signature_hash H E v i t r = (let! res := calc_schnorr_signature_hash H v i t reused_new in Ok (res.1, r')).
Proof.
  intros Hr. unfold calc_schnorr_signature_hash. destruct (populated_input v i) as [[inp e]| | |]; cbn [obind]; [|by exists r..].
  set (tx := v_tx v) in *.
  destruct (previous_outputs_transparent tx t r Hr) as [Hp Hr1]. destruct (previous_outputs_transparent tx t _ (reused_new_ok tx)) as [_ Hn1].
  destruct (previous_outputs_hash H tx t r) as [p r1], (previous_outputs_hash H tx t reused_new) as [p' n1]. cbn in Hp, Hr1, Hn1. subst p'.
  destruct (sequences_transparent tx t r1 Hr1) as [Hs Hr2]. destruct (sequences_transparent tx t n1 Hn1) as [Hs' Hn2].
  destruct (sequences_hash H tx t r1) as [s r2], (sequences_hash H tx t n1) as [s' n2]. cbn in Hs, Hr2, Hs', Hn2. rewrite <-Hs in Hs'. subst s'.
  destruct (sig_op_counts_transparent tx t r2 Hr2) as [Hg Hr3]. destruct (sig_op_counts_transparent tx t n2 Hn2) as [Hg' Hn3].
  destruct (sig_op_counts_hash H tx t r2) as [g r3], (sig_op_counts_hash H tx t n2) as [g' n3]. cbn in Hg, Hr3, Hg', Hn3. rewrite <-Hg in Hg'. subst g'.
  destruct (outputs_transparent tx t i r3 Hr3) as [Ho Hr4]. destruct (outputs_transparent tx t i n3 Hn3) as [Ho' Hn4].
  destruct (outputs_hash H tx t i r3) as [o r4], (outputs_hash H tx t i n3) as [o' n4]. cbn in Ho, Hr4, Ho', Hn4. rewrite <-Ho in Ho'. subst o'.
  destruct (payload_transparent tx r4 Hr4) as [Hl Hr5]. destruct (payload_transparent tx n4 Hn4) as [Hl' _].
  destruct (payload_hash H tx r4) as [l r5], (payload_hash H tx n4) as [l' n5]. cbn in Hl, Hr5, Hl'. rewrite <-Hl in Hl'. subst l'.
  by exists r5.
Qed.

(** The signature hashes of several queries, with the shared hashes kept between them. *)
Fixpoint run_queries {E} (v : VerifiableTransaction) (qs : list (nat * Z)) (r : SigHashReusedValues) : outcome E (list N) :=
  match qs with
  | [] => Ok []
  | (i, t) :: qs' =>
      let! ' (h, r') := calc_schnorr_signature_hash H v i t r in
      let! hs := run_queries v qs' r' in Ok (h :: hs)
  end.

Lemma run_queries_spec {E} v qs r : reused_ok (v_tx v) r ->
  @run_queries E v qs r = mapM_out (fun q => let! res := calc_schnorr_signature_hash H v q.1 q.2 reused_new in Ok res.1) qs.
Proof.
  revert r. induction qs as [|[i t] qs IH]; intros r Hr; cbn [run_queries mapM_out fst snd]; [done|].
  destruct (schnorr_hash_transparent (E := E) v i t r Hr) as (r' & Hr' & ->).
  destruct (calc_schnorr_signature_hash H v i t reused_new) as [[h n]| | |]; cbn [obind fst]; [|done..]. by rewrite (IH r' Hr').
Qed.

(** ** What [SIG_HASH_ALL] signs *)

(** A transaction without its signature scripts, mass and cached id. *)
Definition erase_script (i : TransactionInput) : TransactionInput := mk_input (in_previous_outpoint i) [] (in_sequence i) (in_sig_op_count i).
Definition signed_part (tx : Transaction) : Transaction :=
  mk_tx (tx_version tx) (List.map erase_script (tx_inputs tx)) (tx_outputs tx) (tx_lock_time tx) (tx_subnetwork_id tx) (tx_gas tx)
    (tx_payload tx) 0 0.

Record entry_wf (e : UtxoEntry) : Prop := mk_entry_wf {
  ew_amount : in_u64 (ue_amount e);
  ew_spk : spk_wf (ue_script_public_key e)
}.

Hypothesis Hout : forall d m, is_hash (H d m).

Lemma zero_is_hash : is_hash ZERO_HASH.
Proof. done. Qed.

Lemma sd_preimage tx1 tx2 i1 i2 e1 e2 t1 t2 p1 p2 s1 s2 g1 g2 o1 o2 l1 l2 :
  tx_wf tx1 -> tx_wf tx2 -> input_wf i1 -> input_wf i2 -> entry_wf e1 -> entry_wf e2 -> 0 <= t1 < U8 -> 0 <= t2 < U8 ->
  Forall is_hash [p1; p2; s1; s2; g1; g2; o1; o2; l1; l2] ->
  signature_preimage tx1 i1 e1 t1 p1 s1 g1 o1 l1 = signature_preimage tx2 i2 e2 t2 p2 s2 g2 o2 l2 ->
  (tx_version tx1 = tx_version tx2 /\ tx_lock_time tx1 = tx_lock_time tx2 /\ tx_subnetwork_id tx1 = tx_subnetwork_id tx2 /\ tx_gas tx1 = tx_gas tx2) /\
  in_previous_outpoint i1 = in_previous_outpoint i2 /\ ue_amount e1 = ue_amount e2 /\ ue_script_public_key e1 = ue_script_public_key e2 /\
  t1 = t2 /\ p1 = p2 /\ s1 = s2 /\ g1 = g2 /\ o1 = o2 /\ l1 = l2.
Proof using.
  intros [Hv1 _ _ Hl1 Hs1 Hg1 _ _] [Hv2 _ _ Hl2 Hs2 Hg2 _ _] [Ho1 _ Hq1 Hc1] [Ho2 _ Hq2 Hc2] [Ha1 Hk1] [Ha2 Hk2] Ht1 Ht2.
  rewrite !Forall_cons. intros (? & ? & ? & ? & ? & ? & ? & ? & ? & ? & _). unfold signature_preimage.
  intros [? Heq]%sd_u16; [|done..]. apply sd_hash in Heq as [? Heq]; [|done..]. apply sd_hash in Heq as [? Heq]; [|done..].
  apply sd_hash in Heq as [? Heq]; [|done..]. apply (sd_outpoint (in_previous_outpoint i1)) in Heq as [? Heq]; [|done..].
  apply sd_spk in Heq as [? Heq]; [|done..]. apply sd_u64 in Heq as [? Heq]; [|done..]. apply sd_u64 in Heq as [? Heq]; [|done..].
  apply sd_u8 in Heq as [? Heq]; [|done..]. apply sd_hash in Heq as [? Heq]; [|done..]. apply sd_u64 in Heq as [? Heq]; [|done..].
  apply app_inj_1 in Heq as [? Heq]; [|congruence]. apply sd_u64 in Heq as [? Heq]; [|done..]. apply sd_hash in Heq as [? Heq]; [|done..].
  rewrite <-(app_nil_r (write_u8 t1)), <-(app_nil_r (write_u8 t2)) in Heq. apply sd_u8 in Heq as [? _]; [|done..]. split_and!; done.
Qed.

Lemma erased_inputs_eq l1 l2 :
  List.map in_previous_outpoint l1 = List.map in_previous_outpoint l2 -> List.map in_sequence l1 = List.map in_sequence l2 ->
  List.map in_sig_op_count l1 = List.map in_sig_op_count l2 -> List.map erase_script l1 = List.map erase_script l2.
Proof using.
  revert l2. induction l1 as [|[o s q c] l1 IH]; intros [|[o2 s2 q2 c2] l2]; try done. cbn. intros [= -> Ho] [= -> Hq] [= -> Hc].
  by rewrite (IH l2).
Qed.

(** An encoding of the inputs one by one determines them. *)
Lemma inputs_encoding_inj {A} (P : A -> Prop) (enc : A -> bytes) (f : TransactionInput -> A) l1 l2 :
  self_delimiting P enc -> (forall a, enc a <> []) -> Forall (fun i => P (f i)) l1 -> Forall (fun i => P (f i)) l2 ->
  concat (List.map (fun i => enc (f i)) l1) = concat (List.map (fun i => enc (f i)) l2) -> List.map f l1 = List.map f l2.
Proof using.
  intros Hsd Hne H1 H2. rewrite <-(List.map_map f enc l1), <-(List.map_map f enc l2).
  apply (sd_concat_end P enc); [done|done|by apply Forall_map..].
Qed.

Lemma inputs_project {P : TransactionInput -> Prop} tx : (forall i, input_wf i -> P i) -> tx_wf tx -> Forall P (tx_inputs tx).
Proof using. intros HP [_ [Hi _] _ _ _ _ _ _]. by eapply Forall_impl. Qed.

Lemma previous_outputs_inj tx1 tx2 : tx_wf tx1 -> tx_wf tx2 -> previous_outputs_preimage tx1 = previous_outputs_preimage tx2 ->
  List.map in_previous_outpoint (tx_inputs tx1) = List.map in_previous_outpoint (tx_inputs tx2).
Proof using.
  intros H1 H2. apply (inputs_encoding_inj outpoint_wf write_outpoint in_previous_outpoint); [apply sd_outpoint| | |].
  - intros a Heq. apply (f_equal length) in Heq. unfold write_outpoint in Heq. by rewrite length_app, length_hash_as_bytes in Heq.
  - apply inputs_project; [apply iw_outpoint|done].
  - apply inputs_project; [apply iw_outpoint|done].
Qed.

Lemma sequences_inj tx1 tx2 : tx_wf tx1 -> tx_wf tx2 -> sequences_preimage tx1 = sequences_preimage tx2 ->
  List.map in_sequence (tx_inputs tx1) = List.map in_sequence (tx_inputs tx2).
Proof using.
  intros H1 H2. apply (inputs_encoding_inj in_u64 write_u64 in_sequence); [apply sd_u64|done| |];
    (apply inputs_project; [apply iw_sequence|done]).
Qed.

Lemma sig_op_counts_inj tx1 tx2 : tx_wf tx1 -> tx_wf tx2 -> sig_op_counts_preimage tx1 = sig_op_counts_preimage tx2 ->
  List.map in_sig_op_count (tx_inputs tx1) = List.map in_sig_op_count (tx_inputs tx2).
Proof using.
  intros H1 H2. apply (inputs_encoding_inj (fun x => 0 <= x < U8) write_u8 in_sig_op_count); [apply sd_u8|done| |];
    (apply inputs_project; [apply iw_sig_op_count|done]).
Qed.

Lemma outputs_inj tx1 tx2 : tx_wf tx1 -> tx_wf tx2 -> outputs_preimage tx1 = outputs_preimage tx2 -> tx_outputs tx1 = tx_outputs tx2.
Proof using.
  intros [_ _ [H1 _] _ _ _ _ _] [_ _ [H2 _] _ _ _ _ _]. by apply (sd_concat_end output_wf hash_output sd_output).
Qed.

(** The messages hashed for the signature of an input: the one signed, then those of
    the shared hashes. *)
Definition schnorr_messages (v : VerifiableTransaction) (i : nat) (t : Z) : list bytes :=
  let tx := v_tx v in
  match tx_inputs tx !! i, v_entries v !! i with
  | Some inp, Some e =>
      [signature_preimage tx inp e t (previous_outputs_hash H tx t reused_new).1 (sequences_hash H tx t reused_new).1
         (sig_op_counts_hash H tx t reused_new).1 (outputs_hash H tx t i reused_new).1 (payload_hash H tx reused_new).1;
       previous_outputs_preimage tx; sequences_preimage tx; sig_op_counts_preimage tx; outputs_preimage tx; write_var_bytes (tx_payload tx)]
  | _, _ => []
  end.

(** A payload whose hash is zero: it could pass for an absent one. *)
Definition zero_payload (tx : Transaction) : Prop := H TransactionSigningHash (write_var_bytes (tx_payload tx)) = ZERO_HASH.

Lemma payload_inj ms tx1 tx2 : tx_wf tx1 -> tx_wf tx2 -> tx_subnetwork_id tx1 = tx_subnetwork_id tx2 ->
  write_var_bytes (tx_payload tx1) ∈ ms -> write_var_bytes (tx_payload tx2) ∈ ms ->
  (payload_hash H tx1 reused_new).1 = (payload_hash H tx2 reused_new).1 ->
  tx_payload tx1 = tx_payload tx2 \/ collision H TransactionSigningHash ms \/ zero_payload tx1 \/ zero_payload tx2.
Proof using.
  intros [_ _ _ _ _ _ H1 _] [_ _ _ _ _ _ H2 _] Hs Hm1 Hm2. unfold payload_hash, zero_payload. rewrite Hs. cbn [ru_payload_hash reused_new get_or_set fst].
  assert (Hinj : H TransactionSigningHash (write_var_bytes (tx_payload tx1)) = H TransactionSigningHash (write_var_bytes (tx_payload tx2)) ->
    tx_payload tx1 = tx_payload tx2 \/ collision H TransactionSigningHash ms).
  { intros [Heq|?]%(equal_or_collision _ _ ms); [left|by right|done|done].
    rewrite <-(app_nil_r (write_var_bytes (tx_payload tx1))), <-(app_nil_r (write_var_bytes (tx_payload tx2))) in Heq.
    by apply sd_var_bytes in Heq as [? _]. }
  destruct (is_native (tx_subnetwork_id tx2)); cbn [andb fst]; [|tauto].
  do 2 case_bool_decide; cbn [fst]; [intros _; left; congruence|intros Heq; do 3 right; done|intros Heq; do 2 right; by left|tauto].
Qed.

(** The hash of an input, with the shared hashes named. *)
Lemma schnorr_hash_shape {E} v i t inp e :
  tx_inputs (v_tx v) !! i = Some inp -> v_entries v !! i = Some e ->
  exists p s g o r, Forall is_hash [p; s; g; o; (payload_hash H (v_tx v) reused_new).1] /\
    @calc_schnorr_signature_hash H E v i t reused_new =
      Ok (H TransactionSigningHash (signature_preimage (v_tx v) inp e t p s g o (payload_hash H (v_tx v) reused_new).1), r) /\
    (signature_preimage (v_tx v) inp e t p s g o (payload_hash H (v_tx v) reused_new).1 ∈ schnorr_messages v i t) /\
    (t = SIG_HASH_ALL -> p = H TransactionSigningHash (previous_outputs_preimage (v_tx v)) /\
       s = H TransactionSigningHash (sequences_preimage (v_tx v)) /\ g = H TransactionSigningHash (sig_op_counts_preimage (v_tx v)) /\
       o = H TransactionSigningHash (outputs_preimage (v_tx v))).
Proof using Hout.
  intros Hi He. unfold calc_schnorr_signature_hash, populated_input, schnorr_messages. rewrite Hi, He. cbn [unwrap obind]. set (tx := v_tx v).
  unfold previous_outputs_hash, sequences_hash, sig_op_counts_hash, outputs_hash, payload_hash.
  destruct (is_sighash_anyone_can_pay t) eqn:Ea, (is_sighash_single t) eqn:Es, (is_sighash_none t) eqn:En,
    (is_native (tx_subnetwork_id tx) && bool_decide (tx_payload tx = [])) eqn:El; cbn [orb];
    cbn [get_or_set ru_previous_outputs_hash ru_sequences_hash ru_sig_op_counts_hash ru_outputs_hash ru_payload_hash reused_new fst];
    try (destruct (tx_outputs tx !! i)); (eexists _, _, _, _, _; split_and!;
      [|reflexivity|by left|intros ->; by vm_compute in Ea, Es, En]); repeat apply Forall_cons_2; try apply Forall_nil_2; try apply Hout; done.
Qed.

(** The messages of the shared hashes are among those hashed. *)
Lemma shared_messages v i t inp e m : tx_inputs (v_tx v) !! i = Some inp -> v_entries v !! i = Some e ->
  m ∈ [previous_outputs_preimage (v_tx v); sequences_preimage (v_tx v); sig_op_counts_preimage (v_tx v); outputs_preimage (v_tx v);
       write_var_bytes (tx_payload (v_tx v))] -> m ∈ schnorr_messages v i t.
Proof using. intros Hi He Hm. unfold schnorr_messages. rewrite Hi, He. by right. Qed.

Lemma sighash_all_binds {E} v1 v2 i1 i2 t2 inp1 inp2 e1 e2 h r1 r2 :
  tx_wf (v_tx v1) -> tx_wf (v_tx v2) -> entry_wf e1 -> entry_wf e2 -> 0 <= t2 < U8 ->
  tx_inputs (v_tx v1) !! i1 = Some inp1 -> tx_inputs (v_tx v2) !! i2 = Some inp2 ->
  v_entries v1 !! i1 = Some e1 -> v_entries v2 !! i2 = Some e2 ->
  @calc_schnorr_signature_hash H E v1 i1 SIG_HASH_ALL reused_new = Ok (h, r1) -> @calc_schnorr_signature_hash H E v2 i2 t2 reused_new = Ok (h, r2) ->
  (t2 = SIG_HASH_ALL /\ signed_part (v_tx v1) = signed_part (v_tx v2) /\ in_previous_outpoint inp1 = in_previous_outpoint inp2 /\
   ue_amount e1 = ue_amount e2 /\ ue_script_public_key e1 = ue_script_public_key e2) \/
  collision H TransactionSigningHash (schnorr_messages v1 i1 SIG_HASH_ALL ++ schnorr_messages v2 i2 t2) \/
  zero_payload (v_tx v1) \/ zero_payload (v_tx v2).
Proof using Hout.
  intros Hw1 Hw2 He1 He2 Ht2 Hi1 Hi2 Hn1 Hn2.
  destruct (schnorr_hash_shape (E := E) v1 i1 SIG_HASH_ALL inp1 e1 Hi1 Hn1) as (p1 & s1 & g1 & o1 & r1' & Hh1 & -> & Hm1 & Hall1).
  destruct (schnorr_hash_shape (E := E) v2 i2 t2 inp2 e2 Hi2 Hn2) as (p2 & s2 & g2 & o2 & r2' & Hh2 & -> & Hm2 & Hall2).
  set (ms := schnorr_messages v1 i1 SIG_HASH_ALL ++ schnorr_messages v2 i2 t2).
  assert (Hms1 : forall m, m ∈ schnorr_messages v1 i1 SIG_HASH_ALL -> m ∈ ms) by (intros; apply elem_of_app; by left).
  assert (Hms2 : forall m, m ∈ schnorr_messages v2 i2 t2 -> m ∈ ms) by (intros; apply elem_of_app; by right).
  intros [= <- _] [= Heq _]. symmetry in Heq. apply (equal_or_collision _ _ ms) in Heq as [Heq|Hc]; [|by auto..].
  assert (Hwf : forall tx i inp, tx_wf tx -> tx_inputs tx !! i = Some inp -> input_wf inp).
  { intros tx i inp [_ [Hf _] _ _ _ _ _ _] Hx. rewrite Forall_lookup in Hf. by eapply Hf. }
  pose proof (Hwf _ _ _ Hw1 Hi1) as Hx1. pose proof (Hwf _ _ _ Hw2 Hi2) as Hx2.
  remember (payload_hash H (v_tx v1) reused_new).1 as l1 eqn:Hl1. remember (payload_hash H (v_tx v2) reused_new).1 as l2 eqn:Hl2.
  assert (Hh : Forall is_hash [p1; p2; s1; s2; g1; g2; o1; o2; l1; l2])
    by (rewrite !Forall_cons in *; tauto).
  apply sd_preimage in Heq as ((? & ? & Hs & ?) & ? & ? & ? & <- & -> & -> & -> & -> & Hl);
    [|exact Hw1|exact Hw2|exact Hx1|exact Hx2|exact He1|exact He2|by vm_compute|exact Ht2|exact Hh].
  destruct (Hall1 eq_refl) as (-> & -> & -> & ->). destruct (Hall2 eq_refl) as (Hp & Hq & Hg & Ho).
  pose proof (fun m Hm => Hms1 m (shared_messages v1 i1 SIG_HASH_ALL inp1 e1 m Hi1 Hn1 Hm)) as Hsh1.
  pose proof (fun m Hm => Hms2 m (shared_messages v2 i2 SIG_HASH_ALL inp2 e2 m Hi2 Hn2 Hm)) as Hsh2.
  apply (equal_or_collision _ _ ms) in Hp as [Hp|?]; [|by auto|apply Hsh1; set_solver|apply Hsh2; set_solver].
  apply (equal_or_collision _ _ ms) in Hq as [Hq|?]; [|by auto|apply Hsh1; set_solver|apply Hsh2; set_solver].
  apply (equal_or_collision _ _ ms) in Hg as [Hg|?]; [|by auto|apply Hsh1; set_solver|apply Hsh2; set_solver].
  apply (equal_or_collision _ _ ms) in Ho as [Ho|?]; [|by auto|apply Hsh1; set_solver|apply Hsh2; set_solver].
  rewrite Hl1, Hl2 in Hl. apply (payload_inj ms) in Hl as [Hl|?]; [|by auto|done|done|done|apply Hsh1; set_solver|apply Hsh2; set_solver]. left.
  apply previous_outputs_inj in Hp; [|done..]. apply sequences_inj in Hq; [|done..]. apply sig_op_counts_inj in Hg; [|done..].
  apply outputs_inj in Ho; [|done..]. split_and!; try done. unfold signed_part. f_equal; try done. by apply erased_inputs_eq.
Qed.
End Sighash.

(** ** Properties *)

(** Transaction ids and hashes commit: two well-formed transactions with the same
    id agree on everything but signature scripts, signature operation counts and mass
    (on everything, for coinbase transactions), and with the same hash on everything,
    unless their encodings are two different messages with the same hash. *)
Theorem tx_id_commits (H : HashDomain -> bytes -> N) (tx1 tx2 : Transaction) :
  tx_wf tx1 -> tx_wf tx2 -> is_coinbase tx1 = is_coinbase tx2 ->
  (compute_id H tx1 = compute_id H tx2 ->
     (unsigned_part tx1 = unsigned_part tx2 /\ (is_coinbase tx1 = true -> content tx1 = content tx2)) \/
     collision H TransactionID [write_transaction (id_flags tx1) tx1; write_transaction (id_flags tx2) tx2]) /\
  (tx_hash H tx1 = tx_hash H tx2 ->
     content tx1 = content tx2 \/ collision H TransactionHash [write_transaction flags_FULL tx1; write_transaction flags_FULL tx2]).
Proof.
  intros H1 H2 Hcb. split.
  - unfold compute_id. intros [Heq|?]%(equal_or_collision _ _ [write_transaction (id_flags tx1) tx1; write_transaction (id_flags tx2) tx2]);
      [left|by right|set_solver|set_solver]. unfold id_flags in Heq. rewrite <-Hcb in Heq. destruct (is_coinbase tx1) eqn:Hb.
    + apply full_encoding_inj in Heq; [|done..]. split; [|done]. unfold content in Heq. unfold unsigned_part. congruence.
    + split; [by apply unsigned_encoding_inj|done].
  - unfold tx_hash. intros [Heq|?]%(equal_or_collision _ _ [write_transaction flags_FULL tx1; write_transaction flags_FULL tx2]);
      [left; by apply full_encoding_inj|by right|set_solver|set_solver].
Qed.

(** C13: A signature hash for SIG_HASH_ALL commits to the hash type, to every input's
    outpoint, sequence and signature operation count, to all outputs and other fields
    of the transaction, and to the amount and script of the entry spent, unless two of
    the messages hashed on the way collide or a payload hashes to zero. *)
Theorem sighash_all_commits (H : HashDomain -> bytes -> N) (v1 v2 : VerifiableTransaction) (i1 i2 : nat) (t2 : Z)
    (inp1 inp2 : TransactionInput) (e1 e2 : UtxoEntry) (h : N) (r1 r2 : SigHashReusedValues) :
  (forall d m, is_hash (H d m)) ->
  tx_wf (v_tx v1) -> tx_wf (v_tx v2) -> entry_wf e1 -> entry_wf e2 -> 0 <= t2 < U8 ->
  tx_inputs (v_tx v1) !! i1 = Some inp1 -> tx_inputs (v_tx v2) !! i2 = Some inp2 ->
  v_entries v1 !! i1 = Some e1 -> v_entries v2 !! i2 = Some e2 ->
  @calc_schnorr_signature_hash H unit v1 i1 SIG_HASH_ALL reused_new = Ok (h, r1) ->
  @calc_schnorr_signature_hash H unit v2 i2 t2 reused_new = Ok (h, r2) ->
  (t2 = SIG_HASH_ALL /\ signed_part (v_tx v1) = signed_part (v_tx v2) /\ in_previous_outpoint inp1 = in_previous_outpoint inp2 /\
   ue_amount e1 = ue_amount e2 /\ ue_script_public_key e1 = ue_script_public_key e2) \/
  collision H TransactionSigningHash (schnorr_messages H v1 i1 SIG_HASH_ALL ++ schnorr_messages H v2 i2 t2) \/
  zero_payload H (v_tx v1) \/ zero_payload H (v_tx v2).
Proof. intros Hout. by apply sighash_all_binds. Qed.

(** Reusing the shared hashes between the inputs of a transaction changes no
    signature hash: a run over any queries with the shared state gives what separate
    computations give. *)
Theorem sighash_reuse_transparent (H : HashDomain -> bytes -> N) (v : VerifiableTransaction) (qs : list (nat * Z)) :
  @run_queries H unit v qs reused_new =
  mapM_out (fun q => let! res := calc_schnorr_signature_hash H v q.1 q.2 reused_new in Ok res.1) qs.
Proof. apply run_queries_spec, reused_new_ok. Qed.

(** ** Witnesses *)

(** A concrete hash: the bytes as a number, reduced to 256 bits. *)
Definition toy_hash (d : HashDomain) (m : bytes) : N := (Z.to_N (of_le_bytes m) mod 2 ^ 256)%N.
Lemma toy_is_hash d m : is_hash (toy_hash d m).
Proof. apply N.mod_lt. done. Qed.

Definition hx_input (s : bytes) : TransactionInput := mk_input (7%N, 1%N) s 5 1.
Definition hx_tx (s : bytes) : Transaction :=
  mk_tx 0 [hx_input s] [mk_output 100 (mk_spk 0 [1; 2])] 9 SUBNETWORK_ID_NATIVE 0 [] 3 0.
Definition hx_vtx (s : bytes) : VerifiableTransaction := mk_vtx (hx_tx s) [mk_utxo 150 (mk_spk 0 [3]) 0 false].

Lemma hx_tx_wf s : sized s -> tx_wf (hx_tx s).
Proof.
  intros Hs. split; cbn [hx_tx tx_version tx_inputs tx_outputs tx_lock_time tx_subnetwork_id tx_gas tx_payload tx_mass]; try (by vm_compute).
  - split; [|by vm_compute]. apply Forall_singleton. by split.
  - split; [|by vm_compute]. apply Forall_singleton. by split.
Qed.

Lemma hx_entry_wf : entry_wf (mk_utxo 150 (mk_spk 0 [3]) 0 false).
Proof. by split. Qed.
Lemma hx_type_byte : 0 <= SIG_HASH_ALL < U8.
Proof. by vm_compute. Qed.

Lemma tx_id_commits_witness :
  compute_id toy_hash (hx_tx [1]) = compute_id toy_hash (hx_tx [2; 3]) /\
  (unsigned_part (hx_tx [1]) = unsigned_part (hx_tx [2; 3]) \/
   collision toy_hash TransactionID [write_transaction (id_flags (hx_tx [1])) (hx_tx [1]); write_transaction (id_flags (hx_tx [2; 3])) (hx_tx [2; 3])]).
Proof.
  assert (Hid : compute_id toy_hash (hx_tx [1]) = compute_id toy_hash (hx_tx [2; 3])) by (vm_compute; reflexivity).
  split; [exact Hid|]. destruct (tx_id_commits toy_hash (hx_tx [1]) (hx_tx [2; 3])) as [Hc _];
    [apply hx_tx_wf; reflexivity|apply hx_tx_wf; reflexivity|reflexivity|].
  destruct (Hc Hid) as [[Hu _]|Hx]; [left; exact Hu|right; exact Hx].
Defined.

Lemma sighash_all_commits_witness :
  (SIG_HASH_ALL = SIG_HASH_ALL /\ signed_part (hx_tx [1]) = signed_part (hx_tx [2; 3]) /\ (7%N, 1%N) = (7%N, 1%N) /\ 150 = 150 /\
   mk_spk 0 [3] = mk_spk 0 [3]) \/
  collision toy_hash TransactionSigningHash
    (schnorr_messages toy_hash (hx_vtx [1]) 0 SIG_HASH_ALL ++ schnorr_messages toy_hash (hx_vtx [2; 3]) 0 SIG_HASH_ALL) \/
  zero_payload toy_hash (hx_tx [1]) \/ zero_payload toy_hash (hx_tx [2; 3]).
Proof.
  destruct (@calc_schnorr_signature_hash toy_hash unit (hx_vtx [1]) 0 SIG_HASH_ALL reused_new) as [[h r]| | |] eqn:Hr;
    [|exfalso; by vm_compute in Hr..].
  apply (sighash_all_commits toy_hash (hx_vtx [1]) (hx_vtx [2; 3]) 0 0 SIG_HASH_ALL (hx_input [1]) (hx_input [2; 3])
           (mk_utxo 150 (mk_spk 0 [3]) 0 false) (mk_utxo 150 (mk_spk 0 [3]) 0 false) h r r).
  - exact toy_is_hash.
  - apply hx_tx_wf. reflexivity.
  - apply hx_tx_wf. reflexivity.
  - exact hx_entry_wf.
  - exact hx_entry_wf.
  - exact hx_type_byte.
  - reflexivity.
  - reflexivity.
  - reflexivity.
  - reflexivity.
  - exact Hr.
  - rewrite <-Hr. vm_compute. reflexivity.
Defined.
