(* ===== verification/MerkleProps.v ===== *)
(** * Merkle roots: properties

    The array algorithm of crypto/merkle computes the root obtained by pairing
    neighbours until one hash is left, and the root determines the leaves. *)

From Stdlib Require Import ZArith Lia Bool.
From stdpp Require Import base gmap list numbers sorting.
From S2P Require Import Prelude BinarySearch Tx Uint UintLemmas Header Hashing HashingProps.

#[local] Open Scope Z_scope.

Section Merkle.
Variable H : HashDomain -> bytes -> N.

(** Pairs of neighbours, the last one with the zero hash when it is alone. *)
Fixpoint merkle_pairs (l : list N) : list N :=
  match l with
  | [] => []
  | [a] => [merkle_hash H a ZERO_HASH]
  | a :: b :: l' => merkle_hash H a b :: merkle_pairs l'
  end.

(** Pairing [d] times. *)
Fixpoint merkle_levels (d : nat) (l : list N) : list N :=
  match d with O => l | S d' => merkle_levels d' (merkle_pairs l) end.

Definition merkle_ref (l : list N) : N :=
  default ZERO_HASH (head (merkle_levels (Z.to_nat (Z.log2_up (Z.of_nat (length l)))) l)).

(** The same on the array's slots. *)
Fixpoint pair_up (l : list (option N)) : list (option N) :=
  match l with
  | x :: y :: l' => (match x with Some a => Some (merkle_hash H a (default ZERO_HASH y)) | None => None end) :: pair_up l'
  | _ => []
  end.

Lemma list_pair_ind {A} (P : list A -> Prop) : P [] -> (forall a, P [a]) -> (forall a b l, P l -> P (a :: b :: l)) -> forall l, P l.
Proof.
  intros H0 H1 H2 l. assert (P l /\ forall a, P (a :: l)) as [? _]; [|done].
  induction l as [|b l [IH IH']]; [split; [done|apply H1]|]. split; [apply IH'|]. intros a. by apply H2.
Qed.

Lemma pair_up_None n : pair_up (replicate (2 * n) None) = replicate n None.
Proof. induction n as [|n IH]; [done|]. replace (2 * S n)%nat with (S (S (2 * n))) by lia. cbn [replicate pair_up]. by rewrite IH. Qed.

Lemma length_merkle_pairs l : length (merkle_pairs l) = ((length l + 1) / 2)%nat.
Proof.
  induction l as [|a|a b l IH] using list_pair_ind; [done|done|]. cbn [merkle_pairs length]. rewrite IH.
  replace (S (S (length l)) + 1)%nat with (1 * 2 + (length l + 1))%nat by lia. rewrite Nat.div_add_l by lia. lia.
Qed.

Lemma pair_up_padded l m : (length l <= 2 * m)%nat ->
  pair_up (List.map Some l ++ replicate (2 * m - length l) None) = List.map Some (merkle_pairs l) ++ replicate (m - length (merkle_pairs l)) None.
Proof.
  revert m. induction l as [|a|a b l IH] using list_pair_ind; intros m Hl.
  - cbn [List.map app merkle_pairs length]. rewrite !Nat.sub_0_r. apply pair_up_None.
  - destruct m as [|m]; [cbn in Hl; lia|]. cbn [List.map app merkle_pairs length].
    replace (2 * S m - 1)%nat with (S (2 * m)) by lia. cbn [replicate pair_up]. rewrite pair_up_None.
    replace (S m - 1)%nat with m by lia. done.
  - destruct m as [|m]; [cbn in Hl; lia|]. cbn [List.map app merkle_pairs length pair_up] in *.
    replace (2 * S m - S (S (length l)))%nat with (2 * m - length l)%nat by lia. rewrite IH by lia. done.
Qed.

Lemma length_pair_up l m : length l = (2 * m)%nat -> length (pair_up l) = m.
Proof.
  revert l. induction m as [|m IH]; intros [|x [|y l]] Hl; cbn in *; try lia. rewrite IH; lia.
Qed.

(** What the loop does with the slots [x] and [y] at its read position. *)
Definition join (x y : option N) : option N :=
  match x with Some a => Some (merkle_hash H a (default ZERO_HASH y)) | None => None end.

Lemma merkle_step {E} n i offset l x y : l !! i = Some x -> l !! (i + 1)%nat = Some y -> (offset < length l)%nat ->
  @merkle_loop H E (S n) i offset l = merkle_loop H n (i + 2) (offset + 1) (<[offset := join x y]> l).
Proof.
  intros Hx Hy [z Hz]%lookup_lt_is_Some. cbn [merkle_loop]. rewrite Hx. cbn [unwrap obind].
  destruct x as [a|]; [rewrite Hy; cbn [unwrap obind]|]; rewrite Hz; done.
Qed.

(** One level of the loop: the slots after the level receive its pairs.  [dn] is the
    part of the level already read and [out] its pairs. *)
Lemma merkle_level_from {E} n m pre level rest m' dn level' out slots :
  length level = (2 * m)%nat -> length level' = (2 * m')%nat -> length slots = m' ->
  level = dn ++ level' -> pair_up level = out ++ pair_up level' -> length dn = (2 * length out)%nat ->
  @merkle_loop H E (m' + n) (length pre + length dn) (length pre + length level + length out) (pre ++ level ++ out ++ slots ++ rest) =
  merkle_loop H n (length pre + length level) (length pre + length level + m) (pre ++ level ++ pair_up level ++ rest).
Proof.
  intros Hl. revert dn level' out slots. induction m' as [|m' IH]; intros dn level' out slots Hl' Hs Hlev Hout Hd.
  - destruct level'; [|cbn in Hl'; lia]. destruct slots; [|cbn in Hs; lia]. cbn [plus]. rewrite app_nil_r in *. subst dn.
    rewrite Hout. cbn [app]. f_equal; lia.
  - destruct level' as [|x [|y level']]; [cbn in Hl'; lia|cbn in Hl'; lia|]. destruct slots as [|z slots]; [cbn in Hs; lia|].
    cbn [plus]. rewrite (merkle_step _ _ _ _ x y).
    + rewrite insert_app_r_alt by lia. rewrite insert_app_r_alt by lia. rewrite insert_app_r_alt by lia.
      replace (length pre + length level + length out - length pre - length level - length out)%nat with 0%nat by lia. cbn [app].
      specialize (IH (dn ++ [x; y]) level' (out ++ [join x y]) slots). rewrite !length_app, <-!app_assoc in IH. cbn [length app] in *.
      rewrite <-IH; [f_equal; lia|lia|lia|done|by rewrite Hout|lia].
    + rewrite lookup_app_r, Hlev, <-!app_assoc by lia. rewrite lookup_app_r by lia.
      by replace (length pre + length dn - length pre - length dn)%nat with 0%nat by lia.
    + rewrite lookup_app_r, Hlev, <-!app_assoc by lia. rewrite lookup_app_r by lia.
      by replace (length pre + length dn + 1 - length pre - length dn)%nat with 1%nat by lia.
    + rewrite !length_app. cbn. lia.
Qed.

Lemma merkle_level {E} n m pre level slots rest :
  length level = (2 * m)%nat -> length slots = m ->
  @merkle_loop H E (m + n) (length pre) (length pre + length level) (pre ++ level ++ slots ++ rest) =
  merkle_loop H n (length pre + length level) (length pre + length level + m) (pre ++ level ++ pair_up level ++ rest).
Proof.
  intros Hl Hs. pose proof (merkle_level_from (E := E) n m pre level rest m [] level [] slots Hl Hl Hs eq_refl eq_refl eq_refl) as Hg.
  cbn [length app] in Hg. by rewrite !Nat.add_0_r in Hg.
Qed.

(** A level of [n] slots with the hashes [l] in front. *)
Definition padded (n : nat) (l : list N) : list (option N) := List.map Some l ++ replicate (n - length l) None.

Lemma length_padded n l : (length l <= n)%nat -> length (padded n l) = n.
Proof. intros Hl. unfold padded. rewrite length_app, List.length_map, length_replicate. lia. Qed.

Lemma length_pairs_le l m : (length l <= 2 * m)%nat -> (length (merkle_pairs l) <= m)%nat.
Proof. intros Hl. rewrite length_merkle_pairs. apply Nat.lt_succ_r, Nat.Div0.div_lt_upper_bound. lia. Qed.

Lemma merkle_pairs_nonempty l : l <> [] -> merkle_pairs l <> [].
Proof. by destruct l as [|a [|b l]]. Qed.

Lemma merkle_loop_spec {E} d pre l slots : l <> [] -> (length l <= 2 ^ d)%nat -> length slots = (2 ^ d - 1)%nat ->
  exists merkles r, @merkle_loop H E (2 ^ d - 1) (length pre) (length pre + 2 ^ d) (pre ++ padded (2 ^ d) l ++ slots) = Ok merkles /\
    last merkles = Some (Some r) /\ merkle_levels d l = [r].
Proof.
  revert pre l slots. induction d as [|d IH]; intros pre l slots Hne Hl Hs.
  - destruct slots; [|cbn in Hs; lia]. destruct l as [|a [|b l]]; [done| |cbn in Hl; lia]. exists (pre ++ [Some a]), a. cbn.
    split_and!; [done|by rewrite last_snoc|done].
  - assert (Hp : (2 ^ S d)%nat = (2 * 2 ^ d)%nat) by (cbn; lia). assert (0 < 2 ^ d)%nat by (apply Nat.neq_0_lt_0, Nat.pow_nonzero; lia).
    rewrite Hp in *. rewrite <-(take_drop (2 ^ d) slots). replace (2 * 2 ^ d - 1)%nat with (2 ^ d + (2 ^ d - 1))%nat by lia.
    pose proof (merkle_level (E := E) (2 ^ d - 1) (2 ^ d) pre (padded (2 * 2 ^ d) l) (take (2 ^ d) slots) (drop (2 ^ d) slots)) as Hstep.
    rewrite length_padded in Hstep by done. rewrite Hstep; [|done|rewrite length_take; lia]. unfold padded at 2. rewrite pair_up_padded by done.
    specialize (IH (pre ++ padded (2 * 2 ^ d) l) (merkle_pairs l) (drop (2 ^ d) slots)).
    rewrite length_app, length_padded, <-app_assoc in IH by done. apply IH; [by apply merkle_pairs_nonempty|by apply length_pairs_le|].
    rewrite length_drop. lia.
Qed.

Lemma next_power_of_two_spec n : (0 < n)%nat ->
  next_power_of_two n = (2 ^ Z.to_nat (Z.log2_up (Z.of_nat n)))%nat /\ (n <= 2 ^ Z.to_nat (Z.log2_up (Z.of_nat n)))%nat.
Proof.
  intros Hn. unfold next_power_of_two. pose proof (Z.log2_up_nonneg (Z.of_nat n)) as H0.
  assert (Hz : Z.of_nat (2 ^ Z.to_nat (Z.log2_up (Z.of_nat n))) = 2 ^ Z.log2_up (Z.of_nat n)) by (rewrite Nat2Z.inj_pow, Z2Nat.id by done; done).
  split; [lia|]. destruct (decide (n = 1)%nat) as [->|]; [cbn; lia|]. pose proof (Z.log2_up_spec (Z.of_nat n) ltac:(lia)). lia.
Qed.

Lemma calc_merkle_root_spec {E} l : @calc_merkle_root H E l = Ok (merkle_ref l).
Proof.
  destruct l as [|a l'] eqn:Hl; [done|]. unfold calc_merkle_root. rewrite <-Hl. assert (Hlen : (0 < length l)%nat) by (subst; cbn; lia).
  destruct (next_power_of_two_spec (length l) Hlen) as [-> Hle]. set (d := Z.to_nat (Z.log2_up (Z.of_nat (length l)))) in *.
  assert (0 < 2 ^ d)%nat by (apply Nat.neq_0_lt_0, Nat.pow_nonzero; lia).
  destruct (merkle_loop_spec (E := E) d [] l (replicate (2 ^ d - 1) None)) as (ms & r & Hr & Hlast & Hlev);
    [by rewrite Hl|done|by rewrite length_replicate|].
  cbn [length app plus] in Hr. unfold padded in Hr. rewrite <-app_assoc, <-replicate_add in Hr.
  replace (2 ^ d - length l + (2 ^ d - 1))%nat with (2 * 2 ^ d - 1 - length l)%nat in Hr by lia. rewrite Hr. cbn [obind]. rewrite Hlast.
  cbn [unwrap obind]. unfold merkle_ref. fold d. by rewrite Hlev.
Qed.

(** ** Binding *)

Hypothesis Hout : forall d m, is_hash (H d m).

(** The messages hashed when pairing once, and when pairing [d] times. *)
Definition branch_message (a b : N) : bytes := hash_as_bytes a ++ hash_as_bytes b.
Fixpoint pair_messages (l : list N) : list bytes :=
  match l with
  | [] => []
  | [a] => [branch_message a ZERO_HASH]
  | a :: b :: l' => branch_message a b :: pair_messages l'
  end.
Fixpoint level_messages (d : nat) (l : list N) : list bytes :=
  match d with O => [] | S d' => pair_messages l ++ level_messages d' (merkle_pairs l) end.
Definition merkle_messages (l : list N) : list bytes := level_messages (Z.to_nat (Z.log2_up (Z.of_nat (length l)))) l.

Lemma merkle_hash_inj ms a b c d : Forall is_hash [a; b; c; d] -> branch_message a b ∈ ms -> branch_message c d ∈ ms ->
  merkle_hash H a b = merkle_hash H c d -> (a = c /\ b = d) \/ collision H MerkleBranchHash ms.
Proof using.
  unfold merkle_hash. rewrite !Forall_cons. intros (Ha & Hb & Hc & Hd & _) H1 H2 [Heq|?]%(equal_or_collision _ _ ms); [left|by right|done|done].
  apply sd_hash in Heq as [-> Heq]; [|done..]. by apply hash_as_bytes_inj in Heq as ->.
Qed.

Lemma merkle_pairs_hashes l : Forall is_hash (merkle_pairs l).
Proof using Hout. induction l using list_pair_ind; cbn; repeat constructor; try apply Hout. done. Qed.

Lemma merkle_pairs_inj ms l1 l2 : Forall is_hash l1 -> Forall is_hash l2 -> length l1 = length l2 ->
  pair_messages l1 ⊆ ms -> pair_messages l2 ⊆ ms -> merkle_pairs l1 = merkle_pairs l2 -> l1 = l2 \/ collision H MerkleBranchHash ms.
Proof using Hout.
  revert l2. induction l1 as [|a|a b l1 IH] using list_pair_ind; intros l2 H1 H2 Hlen Hm1 Hm2; destruct l2 as [|c [|d l2]]; try done; try (by left).
  - cbn in *. intros [= Heq]. rewrite !Forall_cons in *. apply (merkle_hash_inj ms) in Heq as [[-> _]|?];
      [by left|by right|rewrite !Forall_cons; pose proof zero_is_hash; tauto|set_solver|set_solver].
  - cbn [merkle_pairs pair_messages] in *. rewrite !Forall_cons in *. destruct H1 as (Ha & Hb & H1), H2 as (Hc & Hd & H2). intros [= Heq Hrest].
    apply (merkle_hash_inj ms) in Heq as [[-> ->]|?]; [|by right|by rewrite !Forall_cons|set_solver|set_solver].
    apply IH in Hrest as [->|?]; [by left|by right|done|done|by injection Hlen|set_solver|set_solver].
Qed.

Lemma merkle_levels_inj ms d l1 l2 : Forall is_hash l1 -> Forall is_hash l2 -> length l1 = length l2 ->
  level_messages d l1 ⊆ ms -> level_messages d l2 ⊆ ms -> merkle_levels d l1 = merkle_levels d l2 -> l1 = l2 \/ collision H MerkleBranchHash ms.
Proof using Hout.
  revert l1 l2. induction d as [|d IH]; intros l1 l2 H1 H2 Hlen; cbn [merkle_levels level_messages]; [by left|]. intros Hm1 Hm2.
  intros [Heq|?]%IH; [apply (merkle_pairs_inj ms) in Heq; [done..|set_solver|set_solver]|by right|apply merkle_pairs_hashes..|
    by rewrite !length_merkle_pairs, Hlen|set_solver|set_solver].
Qed.

Lemma merkle_ref_inj l1 l2 : Forall is_hash l1 -> Forall is_hash l2 -> length l1 = length l2 -> merkle_ref l1 = merkle_ref l2 ->
  l1 = l2 \/ collision H MerkleBranchHash (merkle_messages l1 ++ merkle_messages l2).
Proof using Hout.
  intros H1 H2 Hlen. destruct (decide (l1 = [])) as [->|Hne]; [destruct l2; [by left|done]|].
  assert (Hs : forall l, l <> [] -> exists r, merkle_levels (Z.to_nat (Z.log2_up (Z.of_nat (length l)))) l = [r]).
  { intros l Hl. assert (Hpos : (0 < length l)%nat) by (destruct l; [done|cbn; lia]). destruct (next_power_of_two_spec (length l) Hpos) as [_ Hle].
    destruct (merkle_loop_spec (E := unit) _ [] l (replicate (2 ^ Z.to_nat (Z.log2_up (Z.of_nat (length l))) - 1) None) Hl Hle) as (ms & r & _ & _ & Hr);
      [by rewrite length_replicate|by exists r]. }
  destruct (Hs l1 Hne) as [r1 Hr1]. destruct (Hs l2) as [r2 Hr2]; [by destruct l1, l2|].
  unfold merkle_ref, merkle_messages. rewrite Hr1, Hr2. cbn [head default]. intros Heq. cbn in Heq. subst r2. rewrite <-Hr2, <-Hlen in Hr1.
  rewrite <-Hlen. eapply merkle_levels_inj in Hr1; [done..|set_solver|set_solver].
Qed.
End Merkle.

(** ** Property *)

(** C15: The Merkle root of any list is computed without a panic and is the root of the
    tree that pairs neighbours (an odd one with the zero hash); two lists of the same
    length with the same root are equal, unless two of the branches hashed collide. *)
Theorem merkle_root_commits (H : HashDomain -> bytes -> N) (l1 l2 : list N) :
  (forall d m, is_hash (H d m)) -> Forall is_hash l1 -> Forall is_hash l2 -> length l1 = length l2 ->
  @calc_merkle_root H unit l1 = Ok (merkle_ref H l1) /\
  (@calc_merkle_root H unit l1 = @calc_merkle_root H unit l2 -> l1 = l2 \/ collision H MerkleBranchHash (merkle_messages H l1 ++ merkle_messages H l2)).
Proof.
  intros Hout H1 H2 Hlen. rewrite !calc_merkle_root_spec. split; [done|]. intros [= Heq]. by apply merkle_ref_inj in Heq.
Qed.

Lemma merkle_root_commits_witness :
  @calc_merkle_root toy_hash unit [5%N; 6%N; 7%N] = Ok (merkle_ref toy_hash [5%N; 6%N; 7%N]) /\
  (@calc_merkle_root toy_hash unit [5%N; 6%N; 7%N] = @calc_merkle_root toy_hash unit [5%N; 6%N; 8%N] ->
   [5%N; 6%N; 7%N] = [5%N; 6%N; 8%N] \/
     collision toy_hash MerkleBranchHash (merkle_messages toy_hash [5%N; 6%N; 7%N] ++ merkle_messages toy_hash [5%N; 6%N; 8%N])).
Proof.
  apply (merkle_root_commits toy_hash [5%N; 6%N; 7%N] [5%N; 6%N; 8%N]).
  - exact toy_is_hash.
  - repeat (apply Forall_cons_2; [reflexivity|]). apply Forall_nil_2.
  - repeat (apply Forall_cons_2; [reflexivity|]). apply Forall_nil_2.
  - reflexivity.
Defined.
