(* ===== verification/HeaderProps.v ===== *)
(** * Header parents: properties

    The run-length encoded parents are an exact representation of the parents by level
    for every encoding built or validated with a positive first level; the validation
    of received runs lets a zero first level pass, on which hashing panics. *)

From Stdlib Require Import ZArith Lia Bool.
From stdpp Require Import base gmap list numbers sorting.
From S2P Require Import Prelude BinarySearch Tx Uint UintLemmas Header Hashing.

#[local] Open Scope Z_scope.

(** C40: Parents by level and their run-length encoding: at most 255 levels encode to a
    canonical encoding that expands to them, reads them level by level and grows by a
    pushed level; received runs with a positive first total are accepted exactly when
    they are the encoding of what they expand to. *)
Theorem compressed_parents_roundtrip (dedup_with_count : list (list N) -> list (nat * list N)) (levels : list (list N))
    (level : list N) (runs : CompressedParents) :
  DedupSpec dedup_with_count -> Z.of_nat (length levels) + 1 < U8 ->
  Forall (fun r : Z * list N => r.1 < U8) runs -> (forall c v, head runs = Some (c, v) -> 0 < c) ->
  (exists p, try_from_levels dedup_with_count levels = Ok p /\ @into_levels unit p = Ok levels /\
     expanded_len p = Z.of_nat (length levels) /\ (forall i, 0 <= i -> @parents_get unit p i = Ok (levels !! Z.to_nat i)) /\
     exists p', @parents_push unit p level = Ok p' /\ try_from_levels dedup_with_count (levels ++ [level]) = Ok p') /\
  (try_from_runs runs = Ok runs <->
     exists ls, @into_levels unit runs = Ok ls /\ try_from_levels dedup_with_count ls = Ok runs).
Proof.
  intros Hd Hlen Hb Hpos. split.
  - destruct (try_from_levels_spec dedup_with_count levels) as (p & Hp & Hc & Hl); [lia|].
    exists p. rewrite into_levels_spec, expanded_len_spec by done. split_and!; [done|by rewrite Hl|by rewrite Hl| |].
    + intros i Hi. by rewrite parents_get_spec, Hl.
    + destruct (parents_push_spec (E := unit) p level Hc) as (p' & Hp' & Hc' & Hl'); [rewrite expanded_len_spec, Hl by done; lia|].
      exists p'. split; [done|]. rewrite <-Hl, <-Hl'. by apply try_from_levels_of.
  - rewrite try_from_runs_canonical by done. split.
    + intros Hc. exists (levels_of runs). split; [by apply into_levels_spec|by apply try_from_levels_of].
    + intros (ls & _ & Hls). destruct (decide (Z.of_nat (length ls) < U8)) as [Hlt|Hge].
      * destruct (try_from_levels_spec dedup_with_count ls Hlt) as (q & Hq & Hc & _). congruence.
      * unfold try_from_levels in Hls. destruct (Z.ltb_spec (U8 - 1) (Z.of_nat (length ls))); [done|lia].
Qed.

(** Runs received from a peer whose first total is zero pass the validation, but
    the header that holds them cannot be hashed: the iterator over the levels panics,
    and so do the direct parents when a second run follows. *)
Theorem zero_first_level_panics (H : HashDomain -> bytes -> N) (ps qs : list N) (hdr : Header) :
  ps <> qs ->
  let runs := [(0, ps); (2, qs)] in
  try_from_runs runs = Ok runs /\ @into_levels unit runs = Panic /\ @parents_get unit runs 1 = Panic /\
  (h_parents_by_level hdr = runs -> @header_hash H unit hdr = Panic).
Proof.
  intros Hne. cbv zeta. unfold try_from_runs. rewrite check_runs_cons. cbn [Z.leb Z.compare]. rewrite bool_decide_eq_false_2 by done.
  split_and!; [done|done|done|]. intros Hr. unfold header_hash, hash_override_nonce_time, header_preimage. by rewrite Hr.
Qed.

(** ** Witnesses *)

(** Deduplication by recursion. *)
Fixpoint dedup_ex (l : list (list N)) : list (nat * list N) :=
  match l with
  | [] => []
  | a :: l' =>
      match dedup_ex l' with
      | (c, b) :: r => if bool_decide (a = b) then (S c, b) :: r else (1%nat, a) :: (c, b) :: r
      | [] => [(1%nat, a)]
      end
  end.

#[export] Instance dedup_ex_spec : DedupSpec dedup_ex.
Proof.
  assert (Hall : forall l, unroll (dedup_ex l) = l /\ Forall (fun r => (0 < r.1)%nat) (dedup_ex l) /\ alternating (dedup_ex l)).
  { induction l as [|a l (Hu & Hp & Ha)]; [done|]. cbn [dedup_ex]. destruct (dedup_ex l) as [|[c b] r] eqn:Hd.
    - cbn in Hu. subst l. by split_and!; [|constructor; [cbn; lia|]|].
    - apply Forall_cons in Hp as [Hc Hp]. cbn in Hc. case_bool_decide as Hab.
      + subst b. split_and!; [by rewrite unroll_head, Hu|constructor; [cbn; lia|done]|]. by destruct r.
      + split_and!; [by rewrite <-Hu|constructor; [cbn; lia|by constructor]|by split]. }
  split; intros l; apply Hall.
Qed.

Lemma compressed_parents_roundtrip_witness :
  (exists p, try_from_levels dedup_ex [[1%N]; [1%N]; [2%N; 3%N]] = Ok p /\ @into_levels unit p = Ok [[1%N]; [1%N]; [2%N; 3%N]]) /\
  (try_from_runs [(2, [1%N]); (3, [4%N])] = Ok [(2, [1%N]); (3, [4%N])] <->
     exists ls, @into_levels unit [(2, [1%N]); (3, [4%N])] = Ok ls /\ try_from_levels dedup_ex ls = Ok [(2, [1%N]); (3, [4%N])]).
Proof.
  destruct (compressed_parents_roundtrip dedup_ex [[1%N]; [1%N]; [2%N; 3%N]] [4%N] [(2, [1%N]); (3, [4%N])] dedup_ex_spec)
    as [(p & Hp & Hl & _) Hr].
  - reflexivity.
  - repeat (apply Forall_cons_2; [reflexivity|]). apply Forall_nil_2.
  - intros c v [= <- _]. reflexivity.
  - split; [exists p; split; [exact Hp|exact Hl]|exact Hr].
Defined.

Lemma zero_first_level_panics_witness :
  try_from_runs [(0, [1%N]); (2, [2%N])] = Ok [(0, [1%N]); (2, [2%N])] /\
  @header_hash (fun _ _ => 0%N) unit (mk_header 0 0 [(0, [1%N]); (2, [2%N])] 0 0 0 0 0 0 0 0 0 0) = Panic.
Proof.
  destruct (zero_first_level_panics (fun _ _ => 0%N) [1%N] [2%N] (mk_header 0 0 [(0, [1%N]); (2, [2%N])] 0 0 0 0 0 0 0 0 0 0))
    as (Ht & _ & _ & Hh); [discriminate|]. split; [exact Ht|apply Hh; reflexivity].
Defined.
