(* ===== verification/Address.v ===== *)
(** * Addresses

    Model of crypto/addresses/src/lib.rs and bech32.rs: address prefixes and versions, the
    conversion between 8-bit and 5-bit groups, the checksum, and the string form of an
    address in both directions.  Strings are their bytes.  The prefixes that exist in test
    builds only are left out, so [is_test] is false. *)

From Stdlib Require Import ZArith Lia Bool String Ascii.
From stdpp Require Import base numbers list.
From S2P Require Import Prelude Tx Uint.

#[local] Open Scope Z_scope.

Definition str (s : string) : bytes := List.map (fun a => Z.of_N (N_of_ascii a)) (list_ascii_of_string s).

(** ** Types *)

Inductive AddressError :=
| InvalidPrefix (prefix : bytes)
| MissingPrefix
| InvalidVersion (v : Z)
| InvalidVersionString (v : bytes)
| DecodingError (c : Z)
| BadChecksumSize
| BadChecksum
| BadPayload
| InvalidAddress
| InvalidAddressArray.

Inductive Prefix := Mainnet | Testnet | Simnet | Devnet | StealthMainnet | StealthTestnet.
#[export] Instance prefix_eq_dec : EqDecision Prefix.
Proof. solve_decision. Defined.

Definition prefix_as_str (p : Prefix) : bytes :=
  match p with
  | Mainnet => str "kaspa"
  | Testnet => str "kaspatest"
  | Simnet => str "kaspasim"
  | Devnet => str "kaspadev"
  | StealthMainnet => str "qs"
  | StealthTestnet => str "qstest"
  end.
Definition is_stealth (p : Prefix) : bool := match p with StealthMainnet | StealthTestnet => true | _ => false end.
Definition to_stealth (p : Prefix) : option Prefix :=
  match p with Mainnet => Some StealthMainnet | Testnet | Simnet | Devnet => Some StealthTestnet | _ => None end.
Definition to_regular (p : Prefix) : option Prefix :=
  match p with StealthMainnet => Some Mainnet | StealthTestnet => Some Testnet | _ => None end.

Definition prefix_try_from (prefix : bytes) : outcome AddressError Prefix :=
  if bool_decide (prefix = str "kaspa") then Ok Mainnet
  else if bool_decide (prefix = str "kaspatest") then Ok Testnet
  else if bool_decide (prefix = str "kaspasim") then Ok Simnet
  else if bool_decide (prefix = str "kaspadev") then Ok Devnet
  else if bool_decide (prefix = str "qaspa") then Ok Mainnet
  else if bool_decide (prefix = str "qaspatest") then Ok Testnet
  else if bool_decide (prefix = str "qaspasim") then Ok Simnet
  else if bool_decide (prefix = str "qaspadev") then Ok Devnet
  else if bool_decide (prefix = str "qs") then Ok StealthMainnet
  else if bool_decide (prefix = str "qstest") then Ok StealthTestnet
  else Err (InvalidPrefix prefix).

Inductive Version := PubKey | PubKeyECDSA | PubKeyMLDSA | ScriptHash | Stealth.
#[export] Instance version_eq_dec : EqDecision Version.
Proof. solve_decision. Defined.

(** [version as u8], and back. *)
Definition version_byte (v : Version) : Z :=
  match v with PubKey => 0 | PubKeyECDSA => 1 | PubKeyMLDSA => 2 | ScriptHash => 8 | Stealth => 16 end.
Definition version_try_from (value : Z) : outcome AddressError Version :=
  if value =? 0 then Ok PubKey
  else if value =? 1 then Ok PubKeyECDSA
  else if value =? 2 then Ok PubKeyMLDSA
  else if value =? 8 then Ok ScriptHash
  else if value =? 16 then Ok Stealth
  else Err (InvalidVersion value).
Definition public_key_len (v : Version) : Z :=
  match v with PubKey => 32 | PubKeyECDSA => 33 | PubKeyMLDSA => 1312 | ScriptHash => 32 | Stealth => 64 end.

Record Address := mk_address {
  a_prefix : Prefix;
  a_version : Version;
  a_payload : bytes
}.

(** ** Checksum *)

Definition polymod_step (c d : Z) : Z :=
  let c0 := Z.shiftr c 35 in
  let c := Z.lxor (Z.shiftl (Z.land c 0x07ffffffff) 5) d in
  let c := if negb (Z.land c0 0x01 =? 0) then Z.lxor c 0x98f2bc8e61 else c in
  let c := if negb (Z.land c0 0x02 =? 0) then Z.lxor c 0x79b76d99e2 else c in
  let c := if negb (Z.land c0 0x04 =? 0) then Z.lxor c 0xf33e5fb3c4 else c in
  let c := if negb (Z.land c0 0x08 =? 0) then Z.lxor c 0xae2eabe2a8 else c in
  if negb (Z.land c0 0x10 =? 0) then Z.lxor c 0x1e4f43e470 else c.
Definition polymod (values : bytes) : Z := Z.lxor (fold_left polymod_step values 1) 1.
Definition checksum (payload prefix : bytes) : Z := polymod (prefix ++ [0] ++ payload ++ replicate 8 0).

(** ** Groups of bits *)

(** [v[i] = x]: panics out of range. *)
Definition set_index {E A} (i : nat) (x : A) (v : list A) : outcome E (list A) :=
  if (i <? length v)%nat then Ok (<[i := x]> v) else Panic.

(** The state of the two conversion loops. *)
Record Conv := mk_conv {
  cv_out : bytes;
  cv_idx : nat;
  cv_buff : Z;
  cv_bits : Z
}.

(** [while bits >= width]: the group of the upper bits is written and removed.  Each
    iteration lowers [bits], so [bits] iterations are enough. *)
Fixpoint conv_drain {E} (fuel : nat) (width : Z) (st : Conv) : outcome E Conv :=
  if cv_bits st <? width then Ok st
  else
    match fuel with
    | O => OutOfFuel
    | S fuel' =>
        let bits := cv_bits st - width in
        let! out := set_index (cv_idx st) (Z.shiftr (cv_buff st) bits mod U8) (cv_out st) in
        conv_drain fuel' width (mk_conv out (S (cv_idx st)) (Z.land (cv_buff st) (Z.shiftl 1 bits - 1)) bits)
    end.
Definition conv_feed {E} (in_width out_width : Z) (st : Conv) (c : Z) : outcome E Conv :=
  let bits := cv_bits st + in_width in
  conv_drain (Z.to_nat bits) out_width
    (mk_conv (cv_out st) (cv_idx st) (Z.lor (Z.shiftl (cv_buff st) in_width mod U16) c) bits).

Definition conv8to5 {E} (payload : bytes) : outcome E bytes :=
  let padding := if (length payload mod 5 =? 0)%nat then 0%nat else 1%nat in
  let! st := foldM_out (conv_feed 8 5) (mk_conv (replicate (length payload * 8 / 5 + padding) 0) 0 0 0) payload in
  if 0 <? cv_bits st then set_index (cv_idx st) (Z.shiftl (cv_buff st) (5 - cv_bits st) mod U8) (cv_out st) else Ok (cv_out st).
Definition conv5to8 {E} (payload : bytes) : outcome E bytes :=
  let! st := foldM_out (conv_feed 5 8) (mk_conv (replicate (length payload * 5 / 8) 0) 0 0 0) payload in
  Ok (cv_out st).

(** ** The string form *)

Definition CHARSET : bytes := str "qpzry9x8gf2tvdw0s3jn54khce6mua7l".
Definition REV_CHARSET : bytes := [
  100; 100; 100; 100; 100; 100; 100; 100; 100; 100; 100; 100; 100; 100; 100; 100; 100; 100; 100; 100; 100; 100; 100;
  100; 100; 100; 100; 100; 100; 100; 100; 100; 100; 100; 100; 100; 100; 100; 100; 100; 100; 100; 100; 100; 100; 100;
  100; 100; 15; 100; 10; 17; 21; 20; 26; 30; 7; 5; 100; 100; 100; 100; 100; 100; 100; 100; 100; 100; 100; 100; 100;
  100; 100; 100; 100; 100; 100; 100; 100; 100; 100; 100; 100; 100; 100; 100; 100; 100; 100; 100; 100; 100; 100; 100;
  100; 100; 100; 29; 100; 24; 13; 25; 9; 8; 23; 100; 18; 22; 31; 27; 19; 100; 1; 0; 3; 16; 11; 28; 12; 14; 6; 4; 2
].

Definition fivebit_prefix (p : Prefix) : bytes := List.map (fun c => Z.land c 0x1f) (prefix_as_str p).
(** [CHARSET[c]]. *)
Definition charset_at {E} (c : Z) : outcome E Z := unwrap (CHARSET !! Z.to_nat c).
(** The five low bytes of a [u64], in big-endian order, and back. *)
Definition checksum_bytes (c : Z) : bytes := drop 3 (u64_to_be_bytes c).

Definition encode_payload {E} (a : Address) : outcome E bytes :=
  let! fivebit_payload := conv8to5 (version_byte (a_version a) :: a_payload a) in
  let check := checksum fivebit_payload (fivebit_prefix (a_prefix a)) in
  let! check_u5 := conv8to5 (checksum_bytes check) in
  mapM_out charset_at (fivebit_payload ++ check_u5).

(** A letter as a 5-bit group; 100 marks the characters outside the set. *)
Definition rev_charset_at (b : Z) : outcome AddressError Z :=
  let i := default 100 (REV_CHARSET !! Z.to_nat b) in
  if i =? 100 then Err (DecodingError b) else Ok i.

Definition decode_payload (prefix : Prefix) (address : bytes) : outcome AddressError Address :=
  let! address_u5 := mapM_out rev_charset_at address in
  if (length address_u5 <? 8)%nat then Err BadPayload
  else
    let split := (length address_u5 - 8)%nat in
    let payload_u5 := take split address_u5 in
    let! check := conv5to8 (drop split address_u5) in
    if negb (length check =? 5)%nat then Err BadChecksumSize
    else if negb (checksum payload_u5 (fivebit_prefix prefix) =? u64_from_be_bytes ([0; 0; 0] ++ check)) then Err BadChecksum
    else
      let! payload_u8 := conv5to8 payload_u5 in
      match payload_u8 with
      | [] => Err BadPayload
      | byte :: payload =>
          let! version := version_try_from byte in
          if negb (Bool.eqb (is_stealth prefix) (bool_decide (version = Stealth))) then Err BadPayload
          else
            let! canonical_u5 := conv8to5 (byte :: payload) in
            if negb (bool_decide (canonical_u5 = payload_u5)) then Err BadPayload
            else if negb (Z.of_nat (length payload) =? public_key_len version) then Err BadPayload
            else Ok (mk_address prefix version payload)
      end.

Definition address_to_string {E} (a : Address) : outcome E bytes :=
  let! p := encode_payload a in Ok (prefix_as_str (a_prefix a) ++ str ":" ++ p).

Definition qaspa_prefix (p : Prefix) : bytes :=
  match p with
  | Mainnet => str "qaspa"
  | Testnet => str "qaspatest"
  | Simnet => str "qaspasim"
  | Devnet => str "qaspadev"
  | StealthMainnet => str "qs"
  | StealthTestnet => str "qstest"
  end.
Definition to_string_qaspa {E} (a : Address) : outcome E bytes :=
  let! p := encode_payload a in Ok (qaspa_prefix (a_prefix a) ++ str ":" ++ p).

(** [split_once]: around the first occurrence. *)
Fixpoint split_once (sep : Z) (s : bytes) : option (bytes * bytes) :=
  match s with
  | [] => None
  | c :: s' => if c =? sep then Some ([], s') else (fun '(a, b) => (c :: a, b)) <$> split_once sep s'
  end.

Definition address_try_from (value : bytes) : outcome AddressError Address :=
  match split_once 58 value with
  | Some (prefix, payload) => let! p := prefix_try_from prefix in decode_payload p payload
  | None => Err MissingPrefix
  end.
