(* ===== verification/AddressProps.v ===== *)
(** * Addresses: properties

    The conversion loops of crypto/addresses/src/bech32.rs cut the stream of the bits of
    their input into groups: the bytes written and the bits pending spell the bits read.
    Printing and parsing of addresses are inverse to each other, no other string is
    accepted than the canonical one and its alias, and a mistyped character is always
    noticed. *)

From Stdlib Require Import ZArith Lia Bool String Btauto.
From stdpp Require Import base numbers list.
From S2P Require Import Prelude Tx Uint UintLemmas Address.

#[local] Open Scope Z_scope.

(** ** Numbers as lists of bits, most significant first *)

Fixpoint bits_of (w : nat) (x : Z) : list bool :=
  match w with O => [] | S w' => Z.testbit x (Z.of_nat w') :: bits_of w' x end.
Fixpoint of_bits (l : list bool) : Z :=
  match l with [] => 0 | b :: l' => Z.b2z b * 2 ^ Z.of_nat (length l') + of_bits l' end.

Lemma length_bits_of w x : length (bits_of w x) = w.
Proof. induction w; cbn; congruence. Qed.

Lemma of_bits_bound l : 0 <= of_bits l < 2 ^ Z.of_nat (length l).
Proof.
  induction l as [|b l IH]; cbn [of_bits length]; [cbn; lia|]. rewrite Nat2Z.inj_succ, Z.pow_succ_r by lia. destruct b; cbn [Z.b2z]; lia.
Qed.

Lemma of_bits_app a b : of_bits (a ++ b) = of_bits a * 2 ^ Z.of_nat (length b) + of_bits b.
Proof.
  induction a as [|x a IH]; cbn [of_bits app]; [lia|]. rewrite IH, length_app, Nat2Z.inj_add, Z.pow_add_r by lia. lia.
Qed.

Lemma of_bits_of w x : of_bits (bits_of w x) = x mod 2 ^ Z.of_nat w.
Proof.
  induction w as [|w IH]; cbn [bits_of of_bits]; [by rewrite Z.mod_1_r|].
  rewrite IH, length_bits_of, Nat2Z.inj_succ, Z.pow_succ_r, (Z.mul_comm 2), Z.rem_mul_r by lia.
  rewrite <-Z.testbit_spec' by lia. lia.
Qed.

Lemma of_bits_of_small w x : 0 <= x < 2 ^ Z.of_nat w -> of_bits (bits_of w x) = x.
Proof. intros Hx. rewrite of_bits_of. by apply Z.mod_small. Qed.

Lemma bits_of_mod w x y : x mod 2 ^ Z.of_nat w = y mod 2 ^ Z.of_nat w -> bits_of w x = bits_of w y.
Proof.
  intros Heq. assert (Hb : forall v, (v <= w)%nat -> bits_of v x = bits_of v y); [|by apply Hb].
  induction v as [|v IH]; intros Hv; [done|]. cbn. rewrite IH by lia. f_equal.
  rewrite <-(Z.mod_pow2_bits_low x (Z.of_nat w)), <-(Z.mod_pow2_bits_low y (Z.of_nat w)) by lia. by rewrite Heq.
Qed.

Lemma bits_of_of l : bits_of (length l) (of_bits l) = l.
Proof.
  induction l as [|b l IH]; [done|]. cbn [length bits_of of_bits]. pose proof (of_bits_bound l) as Hl. f_equal.
  - apply Z.b2z_inj. rewrite Z.testbit_spec' by lia. rewrite Z.div_add_l, Z.div_small, Z.add_0_r by lia. destruct b; done.
  - etrans; [|exact IH]. apply bits_of_mod. rewrite Z.add_comm, Z.mod_add by lia. done.
Qed.

Lemma of_bits_inj a b : length a = length b -> of_bits a = of_bits b -> a = b.
Proof. intros Hl Heq. rewrite <-(bits_of_of a), <-(bits_of_of b), Hl, Heq. done. Qed.

Lemma of_bits_zeros n : of_bits (replicate n false) = 0.
Proof. induction n as [|n IH]; [done|]. cbn [replicate of_bits]. rewrite IH. done. Qed.

Lemma lor_low a n c : 0 <= n -> 0 <= c < 2 ^ n -> Z.lor (a * 2 ^ n) c = a * 2 ^ n + c.
Proof.
  intros Hn Hc. assert (Hland : Z.land (a * 2 ^ n) c = 0).
  { rewrite <-Z.shiftl_mul_pow2, <-(Z.mod_small c (2 ^ n)) by done. apply Z.bits_inj'. intros k Hk. rewrite Z.land_spec, Z.shiftl_spec, Z.bits_0 by done.
    destruct (Z.ltb_spec k n); [by rewrite Z.testbit_neg_r by lia|]. by rewrite Z.mod_pow2_bits_high, andb_false_r by lia. }
  by rewrite Z.add_nocarry_lxor, Z.lxor_lor.
Qed.

(** ** Streams of groups *)

Definition stream (w : nat) (l : bytes) : list bool := concat (List.map (bits_of w) l).
Definition groups (w : nat) (l : bytes) : Prop := Forall (fun x => 0 <= x < 2 ^ Z.of_nat w) l.

Lemma stream_app w a b : stream w (a ++ b) = stream w a ++ stream w b.
Proof. unfold stream. by rewrite List.map_app, concat_app. Qed.
Lemma length_stream w l : length (stream w l) = (w * length l)%nat.
Proof. induction l as [|x l IH]; cbn; [lia|]. rewrite length_app, length_bits_of. unfold stream in IH. lia. Qed.

(** The groups that spell a stream, up to less than one group, are unique. *)
Lemma stream_inj w a b p q : groups w a -> groups w b -> (length p < w)%nat -> (length q < w)%nat ->
  stream w a ++ p = stream w b ++ q -> a = b /\ p = q.
Proof.
  intros Ha. revert b. induction Ha as [|x a Hx Ha IH]; intros b Hb Hp Hq Heq.
  - destruct Hb as [|y b _ _]; [done|]. exfalso. apply (f_equal length) in Heq. cbn in Heq. rewrite !length_app, length_bits_of in Heq. lia.
  - destruct Hb as [|y b Hy Hb].
    { exfalso. apply (f_equal length) in Heq. cbn in Heq. rewrite !length_app, length_bits_of in Heq. lia. }
    cbn in Heq. rewrite <-!app_assoc in Heq. apply app_inj_1 in Heq as [Hbits Heq]; [|by rewrite !length_bits_of].
    apply IH in Heq as [-> ->]; [|done..]. split; [|done]. f_equal. rewrite <-(of_bits_of_small w x), <-(of_bits_of_small w y) by done. by rewrite Hbits.
Qed.

(** ** The loops *)

Section Loops.
Variable size : nat.

(** The state with the groups [e] written and the bits [p] pending. *)
Definition conv_state (e : bytes) (p : list bool) : Conv :=
  mk_conv (e ++ replicate (size - length e) 0) (length e) (of_bits p) (Z.of_nat (length p)).

Lemma set_index_next {E} (e : bytes) x : (length e < size)%nat ->
  @set_index E Z (length e) x (e ++ replicate (size - length e) 0) = Ok ((e ++ [x]) ++ replicate (size - length (e ++ [x])) 0).
Proof.
  intros He. unfold set_index. rewrite length_app, length_replicate. destruct (Nat.ltb_spec (length e) (length e + (size - length e))); [|lia].
  f_equal. rewrite insert_app_r_alt, Nat.sub_diag by lia. rewrite length_app. cbn [length].
  replace (size - length e)%nat with (S (size - (length e + 1))) by lia. cbn. by rewrite <-app_assoc.
Qed.

Lemma drain_spec {E} fuel w e p : (0 < w <= 8)%nat -> (length p <= fuel)%nat -> (length e + length p / w <= size)%nat -> groups w e ->
  exists e' p', @conv_drain E fuel (Z.of_nat w) (conv_state e p) = Ok (conv_state e' p') /\
    stream w e' ++ p' = stream w e ++ p /\ (length p' < w)%nat /\ groups w e'.
Proof.
  intros Hw. revert e p. induction fuel as [|fuel IH]; intros e p Hf Hs He; cbn [conv_drain conv_state cv_bits].
  - destruct p; [|cbn in Hf; lia]. exists e, []. destruct (Z.ltb_spec (Z.of_nat (length (@nil bool))) (Z.of_nat w)); [|cbn in *; lia].
    split_and!; try done. cbn. lia.
  - destruct (Z.ltb_spec (Z.of_nat (length p)) (Z.of_nat w)) as [Hlt|Hge].
    + exists e, p. split_and!; try done. lia.
    + assert (Hq : (length p / w >= 1)%nat) by (apply Nat.div_le_lower_bound; lia).
      assert (Hsplit : p = take w p ++ drop w p) by (by rewrite take_drop). pose proof (of_bits_app (take w p) (drop w p)) as Happ.
      rewrite <-Hsplit in Happ. pose proof (of_bits_bound (take w p)) as Hb1. pose proof (of_bits_bound (drop w p)) as Hb2.
      rewrite length_take, Nat.min_l in Hb1 by lia.
      replace (Z.of_nat (length p) - Z.of_nat w) with (Z.of_nat (length (drop w p))) by (rewrite length_drop; lia).
      change (cv_idx (conv_state e p)) with (length e). change (cv_buff (conv_state e p)) with (of_bits p).
      change (cv_out (conv_state e p)) with (e ++ replicate (size - length e) 0). rewrite Z.shiftr_div_pow2 by lia.
      assert (Hd : of_bits p / 2 ^ Z.of_nat (length (drop w p)) = of_bits (take w p)) by (rewrite Happ, Z.div_add_l, Z.div_small by lia; lia).
      rewrite Hd. assert (H256 : 2 ^ Z.of_nat w <= U8) by (apply (Z.pow_le_mono_r 2 (Z.of_nat w) 8); lia).
      rewrite Z.mod_small by lia. rewrite set_index_next by lia. cbn [obind].
      rewrite Z.shiftl_1_l, Z.sub_1_r, <-Z.ones_equiv, Z.land_ones by lia.
      assert (Hm : of_bits p mod 2 ^ Z.of_nat (length (drop w p)) = of_bits (drop w p)) by (rewrite Happ, Z.add_comm, Z.mod_add, Z.mod_small by lia; done).
      rewrite Hm. destruct (IH (e ++ [of_bits (take w p)]) (drop w p)) as (e' & p' & Hrun & Hst & Hp' & He').
      * rewrite length_drop. lia.
      * rewrite length_app, length_drop. cbn [length]. replace (length p) with ((length p - w) + 1 * w)%nat in Hs, Hq by lia.
        rewrite Nat.div_add in Hs by lia. lia.
      * apply Forall_app. split; [done|]. apply Forall_singleton. lia.
      * exists e', p'. split_and!; try done.
        -- unfold conv_state in Hrun at 1. rewrite length_app in Hrun. cbn [length] in Hrun. rewrite length_app. cbn [length]. 
           by replace (S (length e)) with (length e + 1)%nat by lia.
        -- rewrite Hst, stream_app, <-app_assoc. f_equal. rewrite Hsplit at 3. f_equal. unfold stream. cbn. rewrite app_nil_r.
           replace w with (length (take w p)) at 1 by (rewrite length_take; lia). apply bits_of_of.
Qed.

Lemma feed_spec {E} win wout e p c : (0 < win <= 8)%nat -> (0 < wout <= 8)%nat -> (length p < wout)%nat -> groups wout e -> 0 <= c < 2 ^ Z.of_nat win ->
  (length e + (length p + win) / wout <= size)%nat ->
  exists e' p', @conv_feed E (Z.of_nat win) (Z.of_nat wout) (conv_state e p) c = Ok (conv_state e' p') /\
    stream wout e' ++ p' = stream wout e ++ p ++ bits_of win c /\ (length p' < wout)%nat /\ groups wout e'.
Proof.
  intros Hwin Hwout Hp He Hc Hs. unfold conv_feed. cbn [cv_bits cv_buff cv_out cv_idx conv_state].
  pose proof (of_bits_bound p) as Hb. rewrite Z.shiftl_mul_pow2 by lia.
  assert (Hpow : 2 ^ Z.of_nat (length p) * 2 ^ Z.of_nat win <= U16).
  { rewrite <-Z.pow_add_r by lia. apply (Z.pow_le_mono_r 2 _ 16); lia. }
  rewrite Z.mod_small by nia. rewrite lor_low by lia.
  rewrite <-(of_bits_of_small win c) by done. replace (Z.of_nat win) with (Z.of_nat (length (bits_of win c))) by (by rewrite length_bits_of).
  rewrite <-of_bits_app, <-Nat2Z.inj_add, <-length_app, Nat2Z.id. rewrite !of_bits_of_small by done.
  apply drain_spec; [done|done| |done]. rewrite length_app, length_bits_of. done.
Qed.

Lemma conv_fold_from {E} win wout l e p : (0 < win <= 8)%nat -> (0 < wout <= 8)%nat -> groups win l -> groups wout e -> (length p < wout)%nat ->
  ((wout * length e + length p + win * length l) / wout <= size)%nat ->
  exists e' p', foldM_out (@conv_feed E (Z.of_nat win) (Z.of_nat wout)) (conv_state e p) l = Ok (conv_state e' p') /\
    stream wout e' ++ p' = stream wout e ++ p ++ stream win l /\ (length p' < wout)%nat /\ groups wout e'.
Proof.
  intros Hwin Hwout Hl. revert e p. induction Hl as [|c l Hc Hl IH]; intros e p He Hp Hs; cbn [foldM_out].
  - exists e, p. split_and!; try done. unfold stream at 3. cbn. by rewrite app_nil_r.
  - destruct (feed_spec (E := E) win wout e p c) as (e1 & p1 & Hrun & Hst & Hp1 & He1); try done.
    { etrans; [|exact Hs]. rewrite (Nat.mul_comm wout), <-!Nat.add_assoc, Nat.div_add_l by lia. apply Nat.add_le_mono_l, Nat.Div0.div_le_mono. cbn [length]. lia. }
    rewrite Hrun. cbn [obind]. destruct (IH e1 p1) as (e2 & p2 & Hrun2 & Hst2 & Hp2 & He2); try done.
    { apply (f_equal length) in Hst. rewrite !length_app, !length_stream, length_bits_of in Hst. etrans; [|exact Hs].
      apply Nat.Div0.div_le_mono. cbn [length]. lia. }
    exists e2, p2. split_and!; try done. rewrite Hst2, app_assoc, Hst, <-!app_assoc. done.
Qed.
End Loops.

Lemma conv_fold {E} win wout size l : (0 < win <= 8)%nat -> (0 < wout <= 8)%nat -> groups win l -> (win * length l / wout <= size)%nat ->
  exists e p, foldM_out (@conv_feed E (Z.of_nat win) (Z.of_nat wout)) (mk_conv (replicate size 0) 0 0 0) l = Ok (conv_state size e p) /\
    stream wout e ++ p = stream win l /\ (length p < wout)%nat /\ groups wout e.
Proof.
  intros Hwin Hwout Hl Hs. pose proof (conv_fold_from (E := E) size win wout l [] [] Hwin Hwout Hl) as Hf.
  unfold conv_state in Hf at 1. cbn [length app of_bits] in Hf. rewrite Nat.sub_0_r in Hf. apply Hf; [by apply Forall_nil_2|lia|].
  rewrite Nat.mul_0_r. done.
Qed.

(** ** The conversions *)

(** 8 to 5: the groups spell the bytes followed by less than five zero bits. *)
Lemma conv8to5_spec {E} l : groups 8 l ->
  exists m k, @conv8to5 E l = Ok m /\ groups 5 m /\ stream 5 m = stream 8 l ++ replicate k false /\ (k < 5)%nat.
Proof.
  intros Hl. unfold conv8to5.
  set (size := (length l * 8 / 5 + (if (length l mod 5 =? 0)%nat then 0 else 1))%nat).
  destruct (conv_fold (E := E) 8 5 size l) as (e & p & Hrun & Hst & Hp & He); [lia|lia|done|unfold size; rewrite Nat.mul_comm; lia|].
  change (Z.of_nat 8) with 8 in Hrun. change (Z.of_nat 5) with 5 in Hrun. rewrite Hrun. cbn [obind conv_state cv_bits cv_idx cv_buff cv_out].
  assert (Hlen : (8 * length l = 5 * length e + length p)%nat).
  { apply (f_equal length) in Hst. rewrite length_app, !length_stream in Hst. lia. }
  assert (Hmod : (length l mod 5 = 0)%nat <-> length p = 0%nat) by (pose proof (Nat.div_mod_eq (length l) 5); pose proof (Nat.mod_upper_bound (length l) 5); lia).
  assert (Hdiv : (length l * 8 / 5 = length e)%nat) by (symmetry; apply Nat.div_unique with (length p); lia).
  destruct (Z.ltb_spec 0 (Z.of_nat (length p))) as [Hpos|Hzero].
  - assert (Hsize : size = S (length e)) by (unfold size; rewrite Hdiv; destruct (Nat.eqb_spec (length l mod 5) 0); lia).
    rewrite set_index_next by lia. exists (e ++ [of_bits (p ++ replicate (5 - length p) false)]), (5 - length p)%nat.
    assert (Hlast : of_bits (p ++ replicate (5 - length p) false) = Z.shiftl (of_bits p) (5 - Z.of_nat (length p)) mod U8).
    { rewrite of_bits_app, of_bits_zeros, length_replicate, Z.shiftl_mul_pow2, Z.add_0_r by lia. rewrite Nat2Z.inj_sub by lia. change (Z.of_nat 5) with 5.
      pose proof (of_bits_bound p). rewrite Z.mod_small; [done|]. assert (H8 : 2 ^ Z.of_nat (length p) * 2 ^ (5 - Z.of_nat (length p)) = 32).
      { rewrite <-Z.pow_add_r by lia. by replace (Z.of_nat (length p) + (5 - Z.of_nat (length p))) with 5 by lia. } nia. }
    split_and!.
    + rewrite length_app, Hsize, Hlast. cbn [length]. replace (S (length e) - (length e + 1))%nat with 0%nat by lia. cbn. by rewrite app_nil_r.
    + apply Forall_app. split; [done|]. apply Forall_singleton. pose proof (of_bits_bound (p ++ replicate (5 - length p) false)) as Hb.
      rewrite length_app, length_replicate in Hb. by replace (length p + (5 - length p))%nat with 5%nat in Hb by lia.
    + rewrite stream_app. unfold stream at 2. cbn [List.map concat]. rewrite app_nil_r.
      rewrite <-Hst, <-app_assoc. f_equal. replace 5%nat with (length (p ++ replicate (5 - length p) false)) at 1 by (rewrite length_app, length_replicate; lia).
      apply bits_of_of.
    + lia.
  - assert (length p = 0%nat) by lia. destruct p; [|done]. rewrite app_nil_r in Hst.
    assert (Hsize : size = length e) by (unfold size; rewrite Hdiv; destruct (Nat.eqb_spec (length l mod 5) 0); cbn in *; lia).
    exists e, 0%nat. rewrite Hsize, Nat.sub_diag. cbn [replicate]. rewrite !app_nil_r. split_and!; [done|done|done|lia].
Qed.

(** 5 to 8: the bytes spell the groups up to less than eight bits. *)
Lemma conv5to8_spec {E} m : groups 5 m ->
  exists l p, @conv5to8 E m = Ok l /\ groups 8 l /\ stream 8 l ++ p = stream 5 m /\ (length p < 8)%nat.
Proof.
  intros Hm. unfold conv5to8.
  destruct (conv_fold (E := E) 5 8 (length m * 5 / 8) m) as (e & p & Hrun & Hst & Hp & He); [lia|lia|done|rewrite Nat.mul_comm; lia|].
  change (Z.of_nat 8) with 8 in Hrun. change (Z.of_nat 5) with 5 in Hrun. rewrite Hrun. cbn [obind conv_state cv_out].
  assert (Hlen : (5 * length m = 8 * length e + length p)%nat).
  { apply (f_equal length) in Hst. rewrite length_app, !length_stream in Hst. lia. }
  assert (Hdiv : (length m * 5 / 8 = length e)%nat) by (symmetry; apply Nat.div_unique with (length p); lia).
  exists e, p. rewrite Hdiv, Nat.sub_diag. cbn [replicate]. rewrite app_nil_r. done.
Qed.

(** Bytes come back from their groups. *)
Lemma conv5to8_of_conv8to5 {E F} l m : groups 8 l -> @conv8to5 E l = Ok m -> @conv5to8 F m = Ok l /\ groups 5 m.
Proof.
  intros Hl Hm. destruct (conv8to5_spec (E := E) l Hl) as (m' & k & Hm' & Hg & Hst & Hk). rewrite Hm in Hm'. injection Hm' as <-.
  destruct (conv5to8_spec (E := F) m Hg) as (l' & p & Hl' & Hg' & Hst' & Hp). rewrite Hst in Hst'.
  apply stream_inj in Hst' as [-> _]; [done|done|done|done|rewrite length_replicate; lia].
Qed.

(** Eight groups and five bytes spell the same 40 bits. *)
Lemma conv8to5_of_conv5to8 {E F} m l : groups 5 m -> length m = 8%nat -> @conv5to8 F m = Ok l -> @conv8to5 E l = Ok m /\ groups 8 l /\ length l = 5%nat.
Proof.
  intros Hm Hlen Hl. destruct (conv5to8_spec (E := F) m Hm) as (l' & p & Hl' & Hg & Hst & Hp). rewrite Hl in Hl'. injection Hl' as <-.
  pose proof (f_equal length Hst) as Hlen'. rewrite length_app, !length_stream, Hlen in Hlen'.
  assert (length l = 5 /\ length p = 0)%nat as [Hl5 Hp0] by lia. destruct p; [|done]. rewrite app_nil_r in Hst.
  destruct (conv8to5_spec (E := E) l Hg) as (m' & k & Hm' & Hg' & Hst' & Hk). split_and!; [|done|done]. rewrite Hm'. f_equal.
  rewrite Hst in Hst'. pose proof (f_equal length Hst') as Hk'. rewrite length_app, !length_stream, length_replicate, Hlen in Hk'.
  assert (k = 0)%nat as -> by lia. cbn in Hst'. rewrite app_nil_r in Hst'.
  rewrite <-(app_nil_r (stream 5 m')), <-(app_nil_r (stream 5 m)) in Hst'. apply stream_inj in Hst' as [-> _]; [done|done|done|cbn; lia..].
Qed.

(** ** The checksum *)

Lemma lxor_bound n a b : 0 <= n -> 0 <= a < 2 ^ n -> 0 <= b < 2 ^ n -> 0 <= Z.lxor a b < 2 ^ n.
Proof.
  intros Hn Ha Hb. assert (H0 : 0 <= Z.lxor a b) by (rewrite Z.lxor_nonneg; lia). split; [done|].
  rewrite <-(Z.mod_small a (2 ^ n)), <-(Z.mod_small b (2 ^ n)) by done.
  assert (Hm : Z.lxor (a mod 2 ^ n) (b mod 2 ^ n) = Z.lxor a b mod 2 ^ n).
  { apply Z.bits_inj'. intros k Hk. destruct (Z.ltb_spec k n).
    - by rewrite Z.lxor_spec, !Z.mod_pow2_bits_low, Z.lxor_spec by done.
    - by rewrite Z.lxor_spec, !Z.mod_pow2_bits_high by lia. }
  rewrite Hm. apply Z.mod_pos_bound. lia.
Qed.

Lemma lxor_cancel a b c : Z.lxor a c = Z.lxor b c -> a = b.
Proof. intros Heq. by rewrite <-(Z.lxor_0_r a), <-(Z.lxor_0_r b), <-(Z.lxor_nilpotent c), <-!Z.lxor_assoc, Heq. Qed.

(** What a step adds for the five bits shifted out. *)
Definition feedback (c0 : Z) : Z :=
  let g (bit k : Z) := if negb (Z.land c0 bit =? 0) then k else 0 in
  Z.lxor (Z.lxor (Z.lxor (Z.lxor (g 0x01 0x98f2bc8e61) (g 0x02 0x79b76d99e2)) (g 0x04 0xf33e5fb3c4)) (g 0x08 0xae2eabe2a8)) (g 0x10 0x1e4f43e470).

Lemma polymod_step_eq c d : polymod_step c d = Z.lxor (Z.lxor (Z.shiftl (Z.land c 0x07ffffffff) 5) (feedback (Z.shiftr c 35))) d.
Proof.
  assert (Hif : forall (b : bool) x k, (if b then Z.lxor x k else x) = Z.lxor x (if b then k else 0)) by (intros []; intros; by rewrite ?Z.lxor_0_r).
  unfold polymod_step, feedback. rewrite !Hif. apply Z.bits_inj'. intros k _. rewrite !Z.lxor_spec. btauto.
Qed.

Definition feedback_ok (c0 : nat) : bool :=
  (feedback (Z.of_nat c0) mod 32 =? Z.of_nat c0) && (0 <=? feedback (Z.of_nat c0)) && (feedback (Z.of_nat c0) <? 2 ^ 40).
Lemma feedback_spec c0 : 0 <= c0 < 32 -> feedback c0 mod 32 = c0 /\ 0 <= feedback c0 < 2 ^ 40.
Proof.
  intros Hc. assert (Hall : forallb feedback_ok (seq 0 32) = true) by (vm_compute; reflexivity).
  rewrite forallb_forall in Hall. specialize (Hall (Z.to_nat c0)). unfold feedback_ok in Hall. rewrite Z2Nat.id in Hall by lia.
  apply andb_prop in Hall as [[H1 H2]%andb_prop H3]; [|apply in_seq; lia]. lia.
Qed.

Lemma shifted_bound c : 0 <= c < 2 ^ 40 -> 0 <= Z.shiftl (Z.land c 0x07ffffffff) 5 < 2 ^ 40 /\ Z.land c 0x07ffffffff = c mod 2 ^ 35 /\
  0 <= Z.shiftr c 35 < 32.
Proof.
  intros Hc. change 0x07ffffffff with (Z.ones 35). rewrite Z.land_ones, Z.shiftl_mul_pow2, Z.shiftr_div_pow2 by lia.
  pose proof (Z.mod_pos_bound c (2 ^ 35) ltac:(lia)). split_and!; try lia. apply Z.div_pos; lia.
  apply Z.div_lt_upper_bound; lia.
Qed.

Lemma polymod_step_bound c d : 0 <= c < 2 ^ 40 -> 0 <= d < 32 -> 0 <= polymod_step c d < 2 ^ 40.
Proof.
  intros Hc Hd. destruct (shifted_bound c Hc) as (H1 & _ & H3). destruct (feedback_spec _ H3) as [_ H4]. rewrite polymod_step_eq.
  apply lxor_bound; [lia| |lia]. by apply lxor_bound.
Qed.

Lemma polymod_step_inj c c' d : 0 <= c < 2 ^ 40 -> 0 <= c' < 2 ^ 40 -> polymod_step c d = polymod_step c' d -> c = c'.
Proof.
  intros Hc Hc'. rewrite !polymod_step_eq. intros Heq%lxor_cancel.
  destruct (shifted_bound c Hc) as (_ & Hl & H3), (shifted_bound c' Hc') as (_ & Hl' & H3').
  destruct (feedback_spec _ H3) as [Hf _], (feedback_spec _ H3') as [Hf' _].
  assert (Hlow : forall x y, Z.lxor (Z.shiftl x 5) y mod 32 = y mod 32).
  { intros x y. change 32 with (2 ^ 5). apply Z.bits_inj'. intros k Hk. destruct (Z.ltb_spec k 5).
    - rewrite !Z.mod_pow2_bits_low, Z.lxor_spec, Z.shiftl_spec, Z.testbit_neg_r by lia. by destruct (Z.testbit y k).
    - by rewrite !Z.mod_pow2_bits_high by lia. }
  pose proof (f_equal (fun z => z mod 32) Heq) as Hmod. cbn beta in Hmod. rewrite !Hlow, Hf, Hf' in Hmod. rewrite Hmod in Heq.
  apply lxor_cancel in Heq. rewrite !Z.shiftl_mul_pow2 in Heq by lia. rewrite !Z.shiftr_div_pow2 in Hmod by lia.
  rewrite (Z.div_mod c (2 ^ 35)), (Z.div_mod c' (2 ^ 35)), Hmod by lia. lia.
Qed.

Lemma polymod_fold_bound l c : groups 5 l -> 0 <= c < 2 ^ 40 -> 0 <= fold_left polymod_step l c < 2 ^ 40.
Proof. intros Hl. revert c. induction Hl; intros c Hc; cbn; [done|]. apply IHHl. by apply polymod_step_bound. Qed.

Lemma polymod_fold_inj l c c' : groups 5 l -> 0 <= c < 2 ^ 40 -> 0 <= c' < 2 ^ 40 ->
  fold_left polymod_step l c = fold_left polymod_step l c' -> c = c'.
Proof.
  intros Hl. revert c c'. induction Hl as [|d l Hd Hl IH]; intros c c' Hc Hc'; cbn; [done|].
  intros Heq%IH; [|by apply polymod_step_bound..]. by apply polymod_step_inj in Heq.
Qed.

Lemma fivebit_prefix_groups p : groups 5 (fivebit_prefix p).
Proof. destruct p; repeat (apply Forall_cons_2; [done|]); apply Forall_nil_2. Qed.

Lemma checksum_bound u p : groups 5 u -> 0 <= checksum u (fivebit_prefix p) < 2 ^ 40.
Proof.
  intros Hu. apply lxor_bound; [lia| |lia]. apply polymod_fold_bound; [|lia].
  repeat apply Forall_app_2; [apply fivebit_prefix_groups|by apply Forall_singleton|done|by repeat (apply Forall_cons_2; [done|])].
Qed.

(** One different group changes the checksum. *)
Lemma checksum_inj p a x y b : groups 5 (a ++ x :: b) -> groups 5 (a ++ y :: b) ->
  checksum (a ++ x :: b) (fivebit_prefix p) = checksum (a ++ y :: b) (fivebit_prefix p) -> x = y.
Proof.
  unfold groups. rewrite !Forall_app, !Forall_cons. intros (Ha & Hx & Hb) (_ & Hy & _) Heq%lxor_cancel. revert Heq.
  rewrite <-!app_assoc, !(app_assoc (fivebit_prefix p)), !fold_left_app. cbn [fold_left].
  set (c := fold_left polymod_step a _). intros Heq.
  assert (Hc : 0 <= c < 2 ^ 40).
  { apply polymod_fold_bound; [done|]. apply polymod_step_bound; [|lia]. apply polymod_fold_bound; [apply fivebit_prefix_groups|lia]. }
  apply polymod_fold_inj in Heq; [|repeat (apply Forall_cons_2; [done|]); apply Forall_nil_2|apply polymod_fold_bound..];
    [|done|by apply polymod_step_bound|done|by apply polymod_step_bound].
  apply polymod_fold_inj in Heq; [|done|by apply polymod_step_bound..]. rewrite !polymod_step_eq, !(Z.lxor_comm _ x), !(Z.lxor_comm _ y) in Heq.
  by apply lxor_cancel in Heq.
Qed.

(** ** The checksum as bytes *)

Lemma of_le_bytes_zeros l n : of_le_bytes (l ++ replicate n 0) = of_le_bytes l.
Proof. induction l as [|x l IH]; cbn; [induction n as [|n IH]; cbn; lia|]. by rewrite IH. Qed.

Lemma wf_bytes_groups l : wf_bytes l <-> groups 8 l.
Proof. done. Qed.

Lemma checksum_bytes_eq c : checksum_bytes c = rev (le_bytes 5 c).
Proof. reflexivity. Qed.

Lemma checksum_bytes_groups c : groups 8 (checksum_bytes c) /\ length (checksum_bytes c) = 5%nat.
Proof.
  rewrite checksum_bytes_eq, length_rev, length_le_bytes. split; [|done]. apply Forall_rev, le_bytes_wf.
Qed.

Lemma from_checksum_bytes c : 0 <= c < 2 ^ 40 -> u64_from_be_bytes ([0; 0; 0] ++ checksum_bytes c) = c.
Proof.
  intros Hc. unfold u64_from_be_bytes. rewrite checksum_bytes_eq, rev_app_distr, rev_involutive. change (rev [0; 0; 0]) with (replicate 3 0).
  rewrite of_le_bytes_zeros. by apply of_le_bytes_le.
Qed.

Lemma to_checksum_bytes b : groups 8 b -> length b = 5%nat -> checksum_bytes (u64_from_be_bytes ([0; 0; 0] ++ b)) = b.
Proof.
  intros Hb Hlen. unfold u64_from_be_bytes. rewrite rev_app_distr. change (rev [0; 0; 0]) with (replicate 3 0).
  rewrite of_le_bytes_zeros, checksum_bytes_eq. replace 5%nat with (length (rev b)) by (by rewrite length_rev).
  rewrite le_bytes_of by (by apply Forall_rev). apply rev_involutive.
Qed.

(** ** Letters *)

Definition letter_ok (n : nat) : bool :=
  match @charset_at AddressError (Z.of_nat n) with
  | Ok ch => match rev_charset_at ch with Ok i => i =? Z.of_nat n | _ => false end
  | _ => false
  end.
Definition rev_letter_ok (n : nat) : bool :=
  match rev_charset_at (Z.of_nat n) with
  | Ok i => (0 <=? i) && (i <? 32) && match @charset_at AddressError i with Ok ch => ch =? Z.of_nat n | _ => false end
  | _ => true
  end.

Lemma charset_at_generic {E F} c ch : @charset_at E c = Ok ch -> @charset_at F c = Ok ch.
Proof. unfold charset_at. destruct (CHARSET !! _); cbn [unwrap]; intros [=]; subst; done. Qed.

Lemma letter_of {E} c : 0 <= c < 32 -> exists ch, @charset_at E c = Ok ch /\ rev_charset_at ch = Ok c.
Proof.
  intros Hc. assert (Hall : forallb letter_ok (seq 0 32) = true) by (vm_compute; reflexivity).
  rewrite forallb_forall in Hall. specialize (Hall (Z.to_nat c) ltac:(apply in_seq; lia)). unfold letter_ok in Hall. rewrite Z2Nat.id in Hall by lia.
  destruct (@charset_at AddressError c) as [ch| | |] eqn:Hch; try discriminate.
  exists ch. split; [by eapply charset_at_generic|]. destruct (rev_charset_at ch) as [i| | |]; try discriminate.
  f_equal. by apply Z.eqb_eq.
Qed.

Lemma rev_letter_of {E} ch c : rev_charset_at ch = Ok c -> 0 <= c < 32 /\ @charset_at E c = Ok ch.
Proof.
  intros Hr. assert (Hall : forallb rev_letter_ok (seq 0 123) = true) by (vm_compute; reflexivity).
  rewrite forallb_forall in Hall. assert (Hch : 0 <= ch).
  { destruct (Z.leb_spec 0 ch); [done|]. unfold rev_charset_at in Hr. rewrite Z2Nat.nonpos in Hr by lia. discriminate. }
  destruct (decide (Z.to_nat ch < 123)%nat) as [Hlt|].
  - specialize (Hall (Z.to_nat ch)). unfold rev_letter_ok in Hall. rewrite Z2Nat.id, Hr in Hall by done.
    apply andb_prop in Hall as [[H1 H2]%andb_prop H3]; [|apply in_seq; lia]. split; [lia|].
    destruct (@charset_at AddressError c) as [ch'| | |] eqn:Hch'; try discriminate. apply Z.eqb_eq in H3 as ->. by eapply charset_at_generic.
  - unfold rev_charset_at in Hr. rewrite lookup_ge_None_2 in Hr; [discriminate|]. change (length REV_CHARSET) with 123%nat. lia.
Qed.

Lemma letters_of {E} u : groups 5 u -> exists s, mapM_out (@charset_at E) u = Ok s /\ mapM_out rev_charset_at s = Ok u.
Proof.
  induction 1 as [|c u Hc Hu (s & IH1 & IH2)]; [by exists []|]. destruct (letter_of (E := E) c Hc) as (ch & H1 & H2).
  exists (ch :: s). cbn. by rewrite H1, IH1, H2, IH2.
Qed.

Lemma rev_letters_of {E} s u : mapM_out rev_charset_at s = Ok u -> groups 5 u /\ mapM_out (@charset_at E) u = Ok s.
Proof.
  revert u. induction s as [|ch s IH]; intros u; cbn; [intros [= <-]; split; [apply Forall_nil_2|done]|].
  intros (c & Hc & (us & Hus & [= <-])%bind_Ok)%bind_Ok. apply IH in Hus as [Hg Hm]. apply (rev_letter_of (E := E)) in Hc as [Hr Hl].
  split; [by apply Forall_cons_2|]. cbn. by rewrite Hl, Hm.
Qed.

(** ** Payloads *)

(** The conversion does not depend on the error type it runs in. *)
Lemma conv8to5_det {E F} l u : groups 8 l -> @conv8to5 E l = Ok u -> @conv8to5 F l = Ok u.
Proof.
  intros Hl Hu. destruct (conv8to5_spec (E := E) l Hl) as (u1 & k1 & Hu1 & Hg1 & Hst1 & Hk1). rewrite Hu in Hu1. injection Hu1 as <-.
  destruct (conv8to5_spec (E := F) l Hl) as (u2 & k2 & -> & Hg2 & Hst2 & Hk2). f_equal.
  pose proof (f_equal length Hst1) as L1. pose proof (f_equal length Hst2) as L2. rewrite length_app, !length_stream, length_replicate in L1, L2.
  assert (k1 = k2) as -> by lia. rewrite <-Hst1 in Hst2. rewrite <-(app_nil_r (stream 5 u2)), <-(app_nil_r (stream 5 u)) in Hst2.
  by apply stream_inj in Hst2 as [-> _]; [|done|done|cbn; lia|cbn; lia].
Qed.

#[local] Opaque conv8to5 conv5to8 checksum checksum_bytes rev_charset_at charset_at.

Record valid_address (a : Address) : Prop := {
  va_prefix : is_stealth (a_prefix a) = bool_decide (a_version a = Stealth);
  va_payload : groups 8 (a_payload a);
  va_length : Z.of_nat (length (a_payload a)) = public_key_len (a_version a)
}.

Lemma version_roundtrip v : version_try_from (version_byte v) = Ok v /\ 0 <= version_byte v < 2 ^ 8.
Proof. by destruct v. Qed.
Lemma version_try_from_inv b v : version_try_from b = Ok v -> version_byte v = b.
Proof.
  unfold version_try_from. repeat (match goal with |- context [?a =? ?b] => destruct (Z.eqb_spec a b) end; [intros [= <-]; by subst|]). done.
Qed.

(** The groups of an address and of its checksum, as letters. *)
Lemma encode_payload_spec {E} a : valid_address a ->
  exists u c s, @conv8to5 E (version_byte (a_version a) :: a_payload a) = Ok u /\ groups 5 u /\
    @conv8to5 E (checksum_bytes (checksum u (fivebit_prefix (a_prefix a)))) = Ok c /\ groups 5 c /\ length c = 8%nat /\
    encode_payload a = @Ok E bytes s /\ mapM_out rev_charset_at s = Ok (u ++ c).
Proof.
  intros [_ Hp _]. unfold encode_payload. destruct (conv8to5_spec (E := E) (version_byte (a_version a) :: a_payload a)) as (u & k & Hu & Hg & _).
  { apply Forall_cons_2; [apply version_roundtrip|done]. }
  rewrite Hu. cbn [obind]. destruct (checksum_bytes_groups (checksum u (fivebit_prefix (a_prefix a)))) as [Hb Hlen].
  destruct (conv8to5_spec (E := E) _ Hb) as (c & j & Hc & Hgc & Hst & Hj). rewrite Hc. cbn [obind].
  destruct (letters_of (E := E) (u ++ c)) as (s & H1 & H2); [by apply Forall_app_2|]. exists u, c, s.
  assert (Hcl : length c = 8%nat) by (apply (f_equal length) in Hst; rewrite length_app, !length_stream, length_replicate, Hlen in Hst; lia).
  exact (conj eq_refl (conj Hg (conj Hc (conj Hgc (conj Hcl (conj H1 H2)))))).
Qed.

Lemma decode_encode {E} a s : valid_address a -> @encode_payload E a = Ok s -> decode_payload (a_prefix a) s = Ok a.
Proof.
  intros Ha Hs. destruct (encode_payload_spec (E := E) a Ha) as (u & c & s' & Hu & Hg & Hc & Hgc & Hlen & Hs' & Hr). rewrite Hs in Hs'. injection Hs' as <-.
  unfold decode_payload. rewrite Hr. cbn [obind]. rewrite length_app, Hlen. destruct (Nat.ltb_spec (length u + 8) 8); [lia|].
  replace (length u + 8 - 8)%nat with (length u) by lia. rewrite take_app_length, drop_app_length.
  destruct Ha as [Hpre Hpay Hl]. pose proof (checksum_bound u (a_prefix a) Hg) as Hcb.
  destruct (checksum_bytes_groups (checksum u (fivebit_prefix (a_prefix a)))) as [Hb Hblen].
  destruct (conv5to8_of_conv8to5 (F := AddressError) _ _ Hb Hc) as [-> _]. cbn [obind]. rewrite Hblen, from_checksum_bytes, Z.eqb_refl by done. cbn [Nat.eqb negb].
  destruct (version_roundtrip (a_version a)) as [Hv1 Hv2].
  assert (Hbs : groups 8 (version_byte (a_version a) :: a_payload a)) by (by apply Forall_cons_2).
  destruct (conv5to8_of_conv8to5 (F := AddressError) _ _ Hbs Hu) as [-> _]. cbn [obind]. rewrite Hv1. cbn [obind]. rewrite Hpre, eqb_reflx. cbn [negb].
  rewrite (conv8to5_det (F := AddressError) _ _ Hbs Hu). cbn [obind]. rewrite bool_decide_eq_true_2 by done. cbn [negb]. rewrite Hl, Z.eqb_refl. cbn [negb]. by destruct a.
Qed.

Lemma encode_decode {E} p s a : decode_payload p s = Ok a -> a_prefix a = p /\ valid_address a /\ @encode_payload E a = Ok s.
Proof.
  unfold decode_payload. intros (u & Hu & Hrun)%bind_Ok. apply (rev_letters_of (E := E)) in Hu as [Hg Hs].
  destruct (Nat.ltb_spec (length u) 8) as [|Hlen]; [done|]. set (split := (length u - 8)%nat) in *.
  assert (Hsplit : take split u ++ drop split u = u) by apply take_drop. assert (Hdl : length (drop split u) = 8%nat) by (rewrite length_drop; lia).
  assert (Hg2 : groups 5 (take split u) /\ groups 5 (drop split u)) by (apply Forall_app; by rewrite Hsplit). destruct Hg2 as [Hgt Hgd].
  apply bind_Ok in Hrun as (check & Hcheck & Hrun). destruct (conv8to5_of_conv5to8 (E := E) _ _ Hgd Hdl Hcheck) as (Hback & Hgc & Hc5).
  rewrite Hc5 in Hrun. cbn [Nat.eqb negb] in Hrun. destruct (Z.eqb_spec (checksum (take split u) (fivebit_prefix p)) (u64_from_be_bytes ([0; 0; 0] ++ check))) as [Hck|]; [|done].
  cbn [negb] in Hrun. apply bind_Ok in Hrun as (payload_u8 & Hp8 & Hrun). destruct payload_u8 as [|byte payload]; [done|].
  apply bind_Ok in Hrun as (v & Hv & Hrun). destruct (Bool.eqb (is_stealth p) (bool_decide (v = Stealth))) eqn:Hst; [|done]. cbn [negb] in Hrun.
  apply bind_Ok in Hrun as (canon & Hcanon & Hrun). case_bool_decide as Hcu; [|done]. cbn [negb] in Hrun.
  destruct (Z.eqb_spec (Z.of_nat (length payload)) (public_key_len v)) as [Hpl|]; [|done]. cbn [negb] in Hrun. injection Hrun as <-.
  destruct (conv5to8_spec (E := AddressError) _ Hgt) as (l & q & Hl & Hgl & _). rewrite Hp8 in Hl. injection Hl as <-.
  cbn [a_prefix]. split_and!; [done|split; cbn; [by apply eqb_prop|by apply Forall_cons in Hgl as [_ ?]|done]|].
  unfold encode_payload. cbn [a_version a_payload a_prefix]. rewrite (version_try_from_inv _ _ Hv).
  rewrite Hcu in Hcanon. rewrite (conv8to5_det (F := E) _ _ Hgl Hcanon). cbn [obind]. rewrite Hck, to_checksum_bytes, Hback by done. cbn [obind]. by rewrite Hsplit.
Qed.

(** ** Strings *)

Lemma split_once_inv sep s a b : split_once sep s = Some (a, b) -> s = a ++ [sep] ++ b.
Proof.
  revert a. induction s as [|c s IH]; intros a; cbn; [done|]. destruct (Z.eqb_spec c sep) as [->|].
  - by intros [= <- <-].
  - destruct (split_once sep s) as [[a' b']|]; [|done]. intros [= <- <-]. by rewrite (IH a').
Qed.

Lemma prefix_strings p s : split_once 58 (prefix_as_str p ++ str ":" ++ s) = Some (prefix_as_str p, s) /\
  split_once 58 (qaspa_prefix p ++ str ":" ++ s) = Some (qaspa_prefix p, s) /\
  prefix_try_from (prefix_as_str p) = Ok p /\ prefix_try_from (qaspa_prefix p) = Ok p.
Proof. destruct p; split_and!; reflexivity. Qed.

Lemma prefix_try_from_inv x p : prefix_try_from x = Ok p -> x = prefix_as_str p \/ x = qaspa_prefix p.
Proof. unfold prefix_try_from. repeat (case_bool_decide; [intros [= <-]; subst; by (left + right)|]). done. Qed.

Lemma address_strings_total {E} a : valid_address a -> exists s, @encode_payload E a = Ok s.
Proof. intros Ha. destruct (encode_payload_spec (E := E) a Ha) as (_ & _ & s & _ & _ & _ & _ & _ & Hs & _). by exists s. Qed.

Lemma address_strings_spec a v : address_try_from v = Ok a <->
  valid_address a /\ (@address_to_string unit a = Ok v \/ @to_string_qaspa unit a = Ok v).
Proof.
  unfold address_to_string, to_string_qaspa, address_try_from. split.
  - destruct (split_once 58 v) as [[x s]|] eqn:Hsp; [|done]. apply split_once_inv in Hsp as ->.
    intros (p & Hp & (Hpre & Ha & He)%(encode_decode (E := unit)))%bind_Ok. split; [done|]. rewrite He, Hpre. cbn [obind].
    by apply prefix_try_from_inv in Hp as [-> | ->]; [left|right].
  - intros [Ha Hv]. destruct (address_strings_total (E := unit) a Ha) as [s Hs]. rewrite Hs in Hv. cbn [obind] in Hv.
    destruct (prefix_strings (a_prefix a) s) as (H1 & H2 & H3 & H4).
    destruct Hv as [<-%Ok_inj|<-%Ok_inj]; [rewrite H1, H3|rewrite H2, H4]; cbn [obind]; by eapply decode_encode.
Qed.

(** ** Mistyped characters *)

(** A string that decodes: its groups, the last eight of which are the checksum. *)
Lemma decode_groups p s a : decode_payload p s = Ok a ->
  exists u c, mapM_out rev_charset_at s = Ok (u ++ c) /\ groups 5 u /\ groups 5 c /\ length c = 8%nat /\
    @conv8to5 unit (checksum_bytes (checksum u (fivebit_prefix p))) = Ok c.
Proof.
  intros Hd. destruct (encode_decode (E := unit) p s a Hd) as (<- & Ha & He).
  destruct (encode_payload_spec (E := unit) a Ha) as (u & c & s' & _ & Hg & Hc & Hgc & Hlen & Hs' & Hr). rewrite He in Hs'. injection Hs' as <-.
  exists u, c. split_and!; assumption.
Qed.

Lemma mapM_out_lookup {E A B} (f : A -> outcome E B) l r i x : mapM_out f l = Ok r -> l !! i = Some x -> exists y, r !! i = Some y /\ f x = Ok y.
Proof.
  revert r i. induction l as [|a l IH]; intros r i; [done|]. cbn. intros (b & Hb & (bs & Hbs & [= <-])%bind_Ok)%bind_Ok.
  destruct i as [|i]; cbn; [intros [= ->]; by exists b|]. by apply IH.
Qed.

Lemma mapM_out_insert {E A B} (f : A -> outcome E B) l r r' i y : mapM_out f l = Ok r -> mapM_out f (<[i:=y]> l) = Ok r' ->
  (i < length l)%nat -> exists b, f y = Ok b /\ r' = <[i:=b]> r.
Proof.
  revert r r' i. induction l as [|a l IH]; intros r r' i; cbn; [lia|]. intros (b & Hb & (bs & Hbs & [= <-])%bind_Ok)%bind_Ok.
  destruct i as [|i]; cbn.
  - intros (c & Hc & (cs & Hcs & [= <-])%bind_Ok)%bind_Ok _. rewrite Hbs in Hcs. injection Hcs as <-. by exists c.
  - intros (c & Hc & (cs & Hcs & [= <-])%bind_Ok)%bind_Ok Hlt. rewrite Hb in Hc. injection Hc as <-.
    destruct (IH bs cs i) as (d & Hd & ->); [done|done|lia|]. by exists d.
Qed.

Lemma mapM_out_length {E A B} (f : A -> outcome E B) l r : mapM_out f l = Ok r -> length r = length l.
Proof.
  revert r. induction l as [|a l IH]; intros r; cbn; [by intros [= <-]|]. intros (b & _ & (bs & Hbs & [= <-])%bind_Ok)%bind_Ok.
  cbn. by rewrite (IH bs).
Qed.

Lemma mistyped_spec p s a i x y : decode_payload p s = Ok a -> s !! i = Some x -> y <> x -> forall b, decode_payload p (<[i:=y]> s) <> Ok b.
Proof.
  intros Hd Hx Hne b Hd'. destruct (decode_groups p s a Hd) as (u & c & Hm & Hu & Hc & Hcl & Hck).
  destruct (decode_groups p _ b Hd') as (u' & c' & Hm' & Hu' & Hc' & Hcl' & Hck'). pose proof (lookup_lt_Some _ _ _ Hx) as Hlt.
  destruct (mapM_out_lookup _ _ _ _ _ Hm Hx) as (gx & Hgx & Hfx). destruct (mapM_out_insert _ _ _ _ _ _ Hm Hm' Hlt) as (gy & Hfy & Heq).
  assert (Hgne : gy <> gx).
  { intros ->. apply (rev_letter_of (E := unit)) in Hfx as [_ Hfx], Hfy as [_ Hfy]. congruence. }
  pose proof (f_equal length Heq) as Hlen. rewrite length_insert, !length_app in Hlen. assert (Hul : length u' = length u) by lia.
  destruct (decide (i < length u)%nat) as [Hi|Hi].
  - rewrite insert_app_l in Heq by done. apply app_inj_1 in Heq as [-> ->]; [|by rewrite length_insert].
    rewrite lookup_app_l in Hgx by done. destruct (checksum_bytes_groups (checksum u (fivebit_prefix p))) as [Hb1 _].
    destruct (checksum_bytes_groups (checksum (<[i:=gy]> u) (fivebit_prefix p))) as [Hb2 _].
    destruct (conv5to8_of_conv8to5 (F := unit) _ _ Hb1 Hck) as [H1 _]. destruct (conv5to8_of_conv8to5 (F := unit) _ _ Hb2 Hck') as [H2 _].
    rewrite H1 in H2. apply Ok_inj in H2. pose proof (from_checksum_bytes _ (checksum_bound u p Hu)) as Hb.
    rewrite H2, from_checksum_bytes in Hb by (by apply checksum_bound). symmetry in Hb.
    apply Hgne. symmetry. apply (checksum_inj p (take i u) gx gy (drop (S i) u)); rewrite ?(take_drop_middle u i gx Hgx), <-?(insert_take_drop u i gy Hi);
      [exact Hu|exact Hu'|exact Hb].
  - rewrite insert_app_r_alt in Heq by lia. apply app_inj_1 in Heq as [-> ->]; [|done]. rewrite Hck in Hck'. apply Ok_inj in Hck'.
    rewrite lookup_app_r in Hgx by lia. apply (f_equal (lookup (i - length u)%nat)) in Hck'. rewrite Hgx, list_lookup_insert_eq in Hck'; [congruence|].
    by apply lookup_lt_Some in Hgx.
Qed.

(** ** Properties *)


(** The checksum notices every mistyped character: when a payload string decodes, the
    string with any one character replaced does not decode under the same prefix. *)
Theorem mistyped_address_rejected (p : Prefix) (s : bytes) (a b : Address) (i : nat) (x y : Z) :
  decode_payload p s = Ok a -> s !! i = Some x -> y <> x -> decode_payload p (<[i:=y]> s) <> Ok b.
Proof. intros Hd Hx Hy. by eapply mistyped_spec. Qed.

(** ** Witnesses *)

Definition ax_address : Address := mk_address Mainnet PubKey (replicate 32 7).
Definition ax_string : bytes := Eval vm_compute in
  match @encode_payload unit ax_address with Ok s => s | _ => [] end.
Lemma ax_valid : valid_address ax_address.
Proof. split; [reflexivity| |reflexivity]. apply Forall_replicate. done. Qed.
Lemma ax_decodes : decode_payload Mainnet ax_string = Ok ax_address.
Proof. vm_compute. reflexivity. Qed.


Lemma mistyped_address_rejected_witness : decode_payload Mainnet (<[3%nat := 112]> ax_string) <> Ok ax_address.
Proof. apply (mistyped_address_rejected Mainnet ax_string ax_address ax_address 3 (nth 3 ax_string 0)); [exact ax_decodes|reflexivity|vm_compute; discriminate]. Defined.
