(* ===== verification/ScriptData.v ===== *)
(** * Script errors, numbers and the data stack

    Model of crypto/txscript/errors/src/lib.rs and crypto/txscript/src/data_stack.rs:
    the errors of the script engine (without their message strings), the encoding of
    numbers and booleans as stack elements, and the operations on the stack.  A stack
    is the [Vec] of the code: its top is the end of the list. *)

From Stdlib Require Import ZArith Lia Bool.
From stdpp Require Import base numbers list.
From S2P Require Import Prelude Tx.

#[local] Open Scope Z_scope.

(** ** Errors *)

Inductive SerializationError := NumberTooLong (n : Z).

Inductive TxScriptError :=
| MalformedPushSize (got : bytes)
| MalformedPush (needed got : Z)
| InvalidInputIndex (i : Z) (len : Z)
| StackSizeExceeded (n m : Z)
| InvalidOpcode (code : Z)
| OpcodeReserved (code : Z)
| OpcodeDisabled (code : Z)
| EmptyStack
| CleanStack (n : Z)
| EvalFalse
| EarlyReturn
| VerifyError
| InvalidState
| InvalidSignature
| SigcacheSignatureInvalid
| TooManyOperations (n : Z)
| NotATransactionInput
| ElementTooBig (n m : Z)
| NotMinimalData
| InvalidSource
| UnsatisfiedLockTime
| NumberTooBig
| NullFail
| InvalidSignatureCount
| InvalidPubKeyCount
| InvalidSigHashType (t : Z)
| PubKeyFormat
| SigLength (n : Z)
| InvalidPublicKeyLen (n : Z)
| NoScripts
| SignatureScriptNotPushOnly
| ErrUnbalancedConditional
| InvalidStackOperation (needed got : Z)
| ScriptSize (n m : Z)
| InvalidOutputIndex (i : Z) (len : Z)
| Serialization (e : SerializationError)
| ExceededSigOpLimit (n : Z).

Abbreviation sres := (outcome TxScriptError).

(** [Vec::len] as an integer, and [vec.pop()]. *)
Definition zlen {A} (l : list A) : Z := Z.of_nat (length l).
Definition vec_pop {A} (l : list A) : option (A * list A) :=
  match rev l with [] => None | a :: r => Some (a, rev r) end.

(** ** Signed 64-bit integers *)

Abbreviation I64 := 9223372036854775808.
Abbreviation I32 := 2147483648.
Definition in_i64 (z : Z) : Prop := - I64 <= z < I64.
Definition is_i64 (z : Z) : bool := (- I64 <=? z) && (z <? I64).
Definition is_i32 (z : Z) : bool := (- I32 <=? z) && (z <? I32).
(** [+] and [*], which panic on overflow, and [<<], which drops the upper bits. *)
Definition i64_add {E} (a b : Z) : outcome E Z := if is_i64 (a + b) then Ok (a + b) else Panic.
Definition i64_mul {E} (a b : Z) : outcome E Z := if is_i64 (a * b) then Ok (a * b) else Panic.
Definition i64_shl (a s : Z) : Z := (Z.shiftl a s + I64) mod U64 - I64.

(** ** Numbers on the stack *)

Definition check_minimal_data_encoding (v : bytes) : sres unit :=
  match vec_pop v with
  | None => Ok tt
  | Some (msb, v') =>
      if Z.land msb 0x7f =? 0 then
        match vec_pop v' with
        | None => Err NotMinimalData
        | Some (b, _) => if Z.land b 0x80 =? 0 then Err NotMinimalData else Ok tt
        end
      else Ok tt
  end.

(** The bytes of a magnitude, least significant first; a zero byte follows when the last
    one has its upper bit set.  Ten steps reach the end of any [u64]. *)
Fixpoint number_bytes (fuel : nat) (positive : Z) (last_saturated : bool) : bytes :=
  match fuel with
  | O => []
  | S fuel' =>
      if positive =? 0 then if last_saturated then 0 :: number_bytes fuel' positive false else []
      else
        let value := Z.land positive 0xff in
        value :: number_bytes fuel' (Z.shiftr positive 8) (negb (Z.land value 0x80 =? 0))
  end.

Definition serialize_i64 {E} (from : Z) : outcome E bytes :=
  let number_vec := number_bytes 10 (Z.abs from) false in
  if Z.sgn from =? -1 then
    match vec_pop number_vec with
    | Some (num, rest) => Ok (rest ++ [Z.lor num 0x80])
    | None => Panic
    end
  else Ok number_vec.

Definition deserialize_i64 (v : bytes) : sres Z :=
  if 8 <? zlen v then Err NotMinimalData
  else
    match vec_pop v with
    | None => Ok 0
    | Some (msb, rest) =>
        let! _ := check_minimal_data_encoding v in
        let sign := 1 - 2 * Z.shiftr msb 7 in
        let first_byte := Z.land msb 0x7f in
        let! magnitude := foldM_out (fun accum item => i64_add (i64_shl accum 8) item) first_byte (rev rest) in
        i64_mul magnitude sign
    end.

(** [OpcodeData<SizedEncodeInt<LEN>>]. *)
Definition sized_deserialize (len : Z) (v : bytes) : sres Z := if len <? zlen v then Err NumberTooBig else deserialize_i64 v.
Definition sized_serialize (len : Z) (from : Z) : outcome SerializationError bytes :=
  let! bs := serialize_i64 from in
  if len <? zlen bs then Err (NumberTooLong from) else Ok bs.

(** [OpcodeData<i64>], [OpcodeData<i32>] and [OpcodeData<bool>]. *)
Definition i64_deserialize (v : bytes) : sres Z := sized_deserialize 8 v.
Definition i64_serialize (from : Z) : outcome SerializationError bytes := sized_serialize 8 from.
Definition i32_deserialize (v : bytes) : sres Z :=
  let! n := sized_deserialize 4 v in
  if is_i32 n then Ok n else Panic.
Definition bool_deserialize (v : bytes) : sres bool :=
  match vec_pop v with
  | None => Ok false
  | Some (msb, rest) => Ok (negb (Z.land msb 0x7f =? 0) || existsb (fun b => negb (b =? 0)) rest)
  end.
Definition bool_serialize (from : bool) : bytes := if from then [1] else [].

(** ** The stack *)

Abbreviation Stack := (list bytes).

(** [split_off(len - size)]: what is kept and what is taken. *)
Definition split_off {A} (size : nat) (s : list A) : list A * list A := (take (length s - size) s, drop (length s - size) s).

Definition pop_raw (size : nat) (s : Stack) : sres (list bytes * Stack) :=
  if (length s <? size)%nat then Err (InvalidStackOperation (Z.of_nat size) (zlen s))
  else let '(kept, items) := split_off size s in Ok (items, kept).
Definition peek_raw (size : nat) (s : Stack) : sres (list bytes) :=
  if (length s <? size)%nat then Err (InvalidStackOperation (Z.of_nat size) (zlen s)) else Ok (split_off size s).2.
Definition pop_items {T} (deserialize : bytes -> sres T) (size : nat) (s : Stack) : sres (list T * Stack) :=
  if (length s <? size)%nat then Err (InvalidStackOperation (Z.of_nat size) (zlen s))
  else
    let '(kept, items) := split_off size s in
    let! ts := mapM_out deserialize items in Ok (ts, kept).

(** [let [x] = ...pop_items()?], [let [x, y] = ...] and [let [x, y, z] = ...]: the
    conversion to an array panics when the number of items differs. *)
Definition arr1 {T E} (l : list T) : outcome E T := match l with [a] => Ok a | _ => Panic end.
Definition arr2 {T E} (l : list T) : outcome E (T * T) := match l with [a; b] => Ok (a, b) | _ => Panic end.
Definition arr3 {T E} (l : list T) : outcome E (T * T * T) := match l with [a; b; c] => Ok (a, b, c) | _ => Panic end.

Definition push_i64 (n : Z) (s : Stack) : sres Stack :=
  let! v := map_err Serialization (i64_serialize n) in Ok (s ++ [v]).
Definition push_bool (b : bool) (s : Stack) : Stack := s ++ [bool_serialize b].

Definition drop_items (size : nat) (s : Stack) : sres Stack :=
  if (size <=? length s)%nat then Ok (take (length s - size) s) else Err (InvalidStackOperation (Z.of_nat size) (zlen s)).
Definition dup_items (size : nat) (s : Stack) : sres Stack :=
  if (size <=? length s)%nat then Ok (s ++ drop (length s - size) s) else Err (InvalidStackOperation (Z.of_nat size) (zlen s)).
Definition over_items (size : nat) (s : Stack) : sres Stack :=
  if (2 * size <=? length s)%nat then Ok (s ++ take size (drop (length s - 2 * size) s))
  else Err (InvalidStackOperation (2 * Z.of_nat size) (zlen s)).
(** [drain(i..i + size)] and [extend]: the drained items go to the top. *)
Definition drain_to_top (i size : nat) (s : Stack) : Stack := take i s ++ drop (i + size) s ++ take size (drop i s).
Definition rot_items (size : nat) (s : Stack) : sres Stack :=
  if (3 * size <=? length s)%nat then Ok (drain_to_top (length s - 3 * size) size s)
  else Err (InvalidStackOperation (3 * Z.of_nat size) (zlen s)).
Definition swap_items (size : nat) (s : Stack) : sres Stack :=
  if (2 * size <=? length s)%nat then Ok (drain_to_top (length s - 2 * size) size s)
  else Err (InvalidStackOperation (2 * Z.of_nat size) (zlen s)).
