(* ===== verification/ScriptOps.v ===== *)
(** * Opcodes: names, parsing and metadata

    Model of crypto/txscript/src/opcodes/mod.rs and macros.rs: the opcode table, the
    parser of scripts, and the metadata of an opcode that the engine consults.  The
    macro of the source makes one type per code; here a code is read as an [OpName], with
    the data pushes, the small integers and the undefined codes as families. *)

From Stdlib Require Import ZArith Lia Bool.
From stdpp Require Import base numbers list.
From S2P Require Import Prelude Tx Uint ScriptData.

#[local] Open Scope Z_scope.

(** ** Limits (crypto/txscript/src/lib.rs) *)

Definition MAX_SCRIPT_PUBLIC_KEY_VERSION : Z := 16.
Definition STEALTH_SCRIPT_VERSION : Z := 16.
Definition STEALTH_OUTPUT_SIZE : Z := 66.
Definition MAX_STACK_SIZE : Z := 244.
Definition MAX_SCRIPTS_SIZE : Z := 10000.
Definition MAX_SCRIPT_ELEMENT_SIZE : Z := 2500.
Definition MAX_OPS_PER_SCRIPT : Z := 201.
Definition MAX_TX_IN_SEQUENCE_NUM : Z := U64 - 1.
Definition SEQUENCE_LOCK_TIME_DISABLED : Z := 2 ^ 63.
Definition SEQUENCE_LOCK_TIME_MASK : Z := 0xffffffff.
Definition LOCK_TIME_THRESHOLD : Z := 500000000000.
Definition MAX_PUB_KEYS_PER_MUTLTISIG : Z := 20.
Definition NO_COST_OPCODE : Z := 0x60.

(** ** Names *)

Inductive OpName :=
| OpFalse | OpData (n : Z) | OpSmall (n : Z) | OpUnknown (code : Z)
| OpPushData1 | OpPushData2 | OpPushData4 | Op1Negate | OpReserved | OpNop | OpVer | OpIf | OpNotIf | OpVerIf
| OpVerNotIf | OpElse | OpEndIf | OpVerify | OpReturn | OpToAltStack | OpFromAltStack | Op2Drop | Op2Dup | Op3Dup
| Op2Over | Op2Rot | Op2Swap | OpIfDup | OpDepth | OpDrop | OpDup | OpNip | OpOver | OpPick | OpRoll | OpRot | OpSwap
| OpTuck | OpCat | OpSubStr | OpLeft | OpRight | OpSize | OpInvert | OpAnd | OpOr | OpXor | OpEqual | OpEqualVerify
| OpReserved1 | OpReserved2 | Op1Add | Op1Sub | Op2Mul | Op2Div | OpNegate | OpAbs | OpNot | Op0NotEqual | OpAdd
| OpSub | OpMul | OpDiv | OpMod | OpLShift | OpRShift | OpBoolAnd | OpBoolOr | OpNumEqual | OpNumEqualVerify
| OpNumNotEqual | OpLessThan | OpGreaterThan | OpLessThanOrEqual | OpGreaterThanOrEqual | OpMin | OpMax | OpWithin
| OpUnknown166 | OpCheckSigMLDSA | OpSHA256 | OpCheckMultiSigECDSA | OpBlake2b | OpCheckSigECDSA | OpCheckSig
| OpCheckSigVerify | OpCheckMultiSig | OpCheckMultiSigVerify | OpCheckLockTimeVerify | OpCheckSequenceVerify
| OpTxVersion | OpTxInputCount | OpTxOutputCount | OpTxLockTime | OpTxSubnetId | OpTxGas | OpTxPayload | OpTxInputIndex
| OpOutpointTxId | OpOutpointIndex | OpTxInputScriptSig | OpTxInputSeq | OpTxInputAmount | OpTxInputSpk
| OpTxInputBlockDaaScore | OpTxInputIsCoinbase | OpTxOutputAmount | OpTxOutputSpk.

(** The codes 0x4c to 0xc3, in order. *)
Definition op_table : list OpName := [
  OpPushData1; OpPushData2; OpPushData4; Op1Negate; OpReserved; OpSmall 1; OpSmall 2; OpSmall 3; OpSmall 4; OpSmall 5;
  OpSmall 6; OpSmall 7; OpSmall 8; OpSmall 9; OpSmall 10; OpSmall 11; OpSmall 12; OpSmall 13; OpSmall 14; OpSmall 15;
  OpSmall 16; OpNop; OpVer; OpIf; OpNotIf; OpVerIf; OpVerNotIf; OpElse; OpEndIf; OpVerify; OpReturn; OpToAltStack;
  OpFromAltStack; Op2Drop; Op2Dup; Op3Dup; Op2Over; Op2Rot; Op2Swap; OpIfDup; OpDepth; OpDrop; OpDup; OpNip; OpOver;
  OpPick; OpRoll; OpRot; OpSwap; OpTuck; OpCat; OpSubStr; OpLeft; OpRight; OpSize; OpInvert; OpAnd; OpOr; OpXor;
  OpEqual; OpEqualVerify; OpReserved1; OpReserved2; Op1Add; Op1Sub; Op2Mul; Op2Div; OpNegate; OpAbs; OpNot;
  Op0NotEqual; OpAdd; OpSub; OpMul; OpDiv; OpMod; OpLShift; OpRShift; OpBoolAnd; OpBoolOr; OpNumEqual;
  OpNumEqualVerify; OpNumNotEqual; OpLessThan; OpGreaterThan; OpLessThanOrEqual; OpGreaterThanOrEqual; OpMin; OpMax;
  OpWithin; OpUnknown166; OpCheckSigMLDSA; OpSHA256; OpCheckMultiSigECDSA; OpBlake2b; OpCheckSigECDSA; OpCheckSig;
  OpCheckSigVerify; OpCheckMultiSig; OpCheckMultiSigVerify; OpCheckLockTimeVerify; OpCheckSequenceVerify; OpTxVersion;
  OpTxInputCount; OpTxOutputCount; OpTxLockTime; OpTxSubnetId; OpTxGas; OpTxPayload; OpTxInputIndex; OpOutpointTxId;
  OpOutpointIndex; OpTxInputScriptSig; OpTxInputSeq; OpTxInputAmount; OpTxInputSpk; OpTxInputBlockDaaScore;
  OpTxInputIsCoinbase; OpTxOutputAmount; OpTxOutputSpk
].

Definition op_of_code (code : Z) : OpName :=
  if code =? 0 then OpFalse
  else if code <=? 0x4b then OpData code
  else match op_table !! Z.to_nat (code - 0x4c) with Some o => o | None => OpUnknown code end.

(** ** Parsing *)

Record OpCode := mk_opcode {
  op_value : Z;
  op_data : bytes
}.
Definition op_name (op : OpCode) : OpName := op_of_code (op_value op).
Definition op_len (op : OpCode) : Z := zlen (op_data op).

(** Opcodes of fixed length [length + 1], and opcodes whose data is preceded by its
    length in [width] bytes.  A failed read has consumed the rest of the script. *)
Definition deserialize_fixed (code : Z) (length : nat) (it : bytes) : sres OpCode * bytes :=
  let data := take length it in
  if zlen data =? Z.of_nat length then (Ok (mk_opcode code data), drop length it)
  else (Err (MalformedPush (Z.of_nat length) (zlen data)), []).
Definition deserialize_var (code : Z) (width : nat) (it : bytes) : sres OpCode * bytes :=
  let size := take width it in
  if zlen size =? Z.of_nat width then
    let length := Z.to_nat (of_le_bytes size) in
    let it := drop width it in
    let data := take length it in
    if zlen data =? Z.of_nat length then (Ok (mk_opcode code data), drop length it)
    else (Err (MalformedPush (Z.of_nat length) (zlen data)), [])
  else (Err (MalformedPushSize size), []).

Definition deserialize_next_opcode (it : bytes) : option (sres OpCode * bytes) :=
  match it with
  | [] => None
  | code :: it =>
      Some (match op_of_code code with
            | OpData n => deserialize_fixed code (Z.to_nat n) it
            | OpPushData1 => deserialize_var code 1 it
            | OpPushData2 => deserialize_var code 2 it
            | OpPushData4 => deserialize_var code 4 it
            | _ => deserialize_fixed code 0 it
            end)
  end.

(** The whole script, each opcode or the error that ends it.  Every opcode takes a byte,
    so the length of the script is enough fuel. *)
Fixpoint parse_loop (fuel : nat) (it : bytes) : list (sres OpCode) :=
  match fuel with
  | O => []
  | S fuel' =>
      match deserialize_next_opcode it with
      | None => []
      | Some (op, it') => op :: parse_loop fuel' it'
      end
  end.
Definition parse_script (script : bytes) : list (sres OpCode) := parse_loop (length script) script.

(** [OpcodeSerialization::serialize]. *)
Definition op_serialize (op : OpCode) : bytes :=
  match op_name op with
  | OpPushData1 => op_value op :: le_bytes 1 (op_len op) ++ op_data op
  | OpPushData2 => op_value op :: le_bytes 2 (op_len op) ++ op_data op
  | OpPushData4 => op_value op :: le_bytes 4 (op_len op) ++ op_data op
  | _ => op_value op :: op_data op
  end.

(** ** Metadata *)

Definition is_disabled (op : OpCode) : bool :=
  match op_name op with
  | OpCat | OpSubStr | OpLeft | OpRight | OpInvert | OpAnd | OpOr | OpXor | Op2Mul | Op2Div | OpMul | OpDiv | OpMod | OpLShift | OpRShift => true
  | _ => false
  end.
Definition always_illegal (op : OpCode) : bool := match op_name op with OpVerIf | OpVerNotIf => true | _ => false end.
Definition is_push_opcode (op : OpCode) : bool := op_value op <=? NO_COST_OPCODE.
Definition is_conditional (op : OpCode) : bool := (0x63 <=? op_value op) && (op_value op <=? 0x68).

Definition OP_SMALL_INT_MIN_VAL : Z := 1.
Definition OP_SMALL_INT_MAX_VAL : Z := 16.
Definition OP_DATA_MIN_VAL : Z := 0x01.
Definition OP_DATA_MAX_VAL : Z := 0x4b.
Definition OP_1_NEGATE_VAL : Z := 0x81.

(** The codes that other definitions name. *)
Definition codes_OpFalse : Z := 0x00.
Definition codes_Op1Negate : Z := 0x4f.
Definition codes_OpTrue : Z := 0x51.
Definition codes_Op16 : Z := 0x60.
Definition codes_OpPushData1 : Z := 0x4c.
Definition codes_OpPushData2 : Z := 0x4d.
Definition codes_OpPushData4 : Z := 0x4e.
Definition codes_OpData32 : Z := 0x20.
Definition codes_OpData33 : Z := 0x21.
Definition codes_OpEqual : Z := 0x87.
Definition codes_OpBlake2b : Z := 0xaa.
Definition codes_OpCheckSig : Z := 0xac.
Definition codes_OpCheckSigECDSA : Z := 0xab.
Definition codes_OpCheckSigMLDSA : Z := 0xa7.
Definition codes_OpCheckMultiSig : Z := 0xae.
Definition codes_OpCheckMultiSigECDSA : Z := 0xa9.

Definition check_minimal_data_push (op : OpCode) : sres unit :=
  let data_len := op_len op in
  let opcode := op_value op in
  let first := nth 0 (op_data op) 0 in
  if data_len =? 0 then
    if negb (opcode =? codes_OpFalse) then Err NotMinimalData else Ok tt
  else if (data_len =? 1) && (OP_SMALL_INT_MIN_VAL <=? first) && (first <=? OP_SMALL_INT_MAX_VAL) then
    if negb (opcode =? codes_OpTrue + first - 1) then Err NotMinimalData else Ok tt
  else if (data_len =? 1) && (first =? OP_1_NEGATE_VAL) then
    if negb (opcode =? codes_Op1Negate) then Err NotMinimalData else Ok tt
  else if data_len <=? OP_DATA_MAX_VAL then
    if negb (opcode =? data_len) then Err NotMinimalData else Ok tt
  else if data_len <=? U8 - 1 then
    if negb (opcode =? codes_OpPushData1) then Err NotMinimalData else Ok tt
  else if (data_len <? U16 - 1) && negb (opcode =? codes_OpPushData2) then Err NotMinimalData
  else Ok tt.

Definition to_small_int {E} (op : OpCode) : outcome E Z :=
  let value := op_value op in
  if value =? codes_OpFalse then Ok 0
  else
    let! _ := rassert ((codes_OpTrue <=? value) && (value <? codes_Op16)) in
    Ok (value - (codes_OpTrue - 1)).
