(* ===== verification/ScriptEngine.v ===== *)
(** * The script engine

    Model of crypto/txscript/src/lib.rs (the engine), opcodes/mod.rs (the execution of
    every opcode), runtime_sig_op_counter.rs and caches.rs.  The engine is a record that
    every step takes and returns; an error ends the run.  Signature schemes and the two
    unkeyed hash functions are external and gathered in the class [Crypto].  The shared
    signature cache is part of the state: what was inserted before an error is not kept
    in the error value, which changes no result since entries are never wrong. *)

From Stdlib Require Import ZArith Lia Bool.
From stdpp Require Import base numbers list.
From S2P Require Import Prelude Tx Uint Header Hashing ScriptData ScriptOps.

#[local] Open Scope Z_scope.

(** ** External cryptography *)

(** The parsers of keys and signatures ([from_slice], [from_compact], [from_bytes]) say
    whether the bytes are valid, the verifiers take the parsed bytes and the digest. *)
Class Crypto := {
  hash_fn : HashDomain -> bytes -> N;
  sha256 : bytes -> bytes;
  blake2b_256 : bytes -> bytes;
  xonly_key_valid : bytes -> bool;
  schnorr_signature_valid : bytes -> bool;
  schnorr_verify : bytes -> bytes -> N -> bool;
  ecdsa_key_valid : bytes -> bool;
  ecdsa_signature_valid : bytes -> bool;
  ecdsa_verify : bytes -> bytes -> N -> bool;
  mldsa_verify : bytes -> bytes -> N -> bool
}.

(** ** The signature cache (caches.rs)

    An [IndexMap] of bounded size: its entries in order.  The index evicted when it is
    full is random in the code and an argument here. *)

Inductive SigKind := Schnorr | Ecdsa.
Record SigCacheKey := mk_key {
  ck_kind : SigKind;
  ck_signature : bytes;
  ck_pub_key : bytes;
  ck_message : N
}.
#[export] Instance sig_kind_eq_dec : EqDecision SigKind.
Proof. solve_decision. Defined.
#[export] Instance sig_cache_key_eq_dec : EqDecision SigCacheKey.
Proof. solve_decision. Defined.

Record Cache := mk_cache {
  c_map : list (SigCacheKey * bool);
  c_size : nat
}.
Definition cache_new (size : nat) : Cache := mk_cache [] size.
Definition cache_clear (c : Cache) : Cache := mk_cache [] (c_size c).
Fixpoint entries_get (key : SigCacheKey) (l : list (SigCacheKey * bool)) : option bool :=
  match l with
  | [] => None
  | (k, v) :: l' => if decide (k = key) then Some v else entries_get key l'
  end.
Definition cache_get (c : Cache) (key : SigCacheKey) : option bool := entries_get key (c_map c).
(** [IndexMap::insert]: replaces the value of a present key, appends otherwise. *)
Fixpoint entries_insert (key : SigCacheKey) (data : bool) (l : list (SigCacheKey * bool)) : list (SigCacheKey * bool) :=
  match l with
  | [] => [(key, data)]
  | (k, v) :: l' => if decide (k = key) then (k, data) :: l' else (k, v) :: entries_insert key data l'
  end.
(** [swap_remove_index]: the last entry takes the place of the removed one. *)
Definition swap_remove_index {A} (i : nat) (l : list A) : list A :=
  match vec_pop l with
  | None => l
  | Some (z, l') => if (i =? length l')%nat then l' else <[i := z]> l'
  end.
Definition cache_insert (random : nat) (c : Cache) (key : SigCacheKey) (data : bool) : Cache :=
  if (c_size c =? 0)%nat then c
  else
    let map := if (length (c_map c) =? c_size c)%nat then swap_remove_index (random mod c_size c) (c_map c) else c_map c in
    mk_cache (entries_insert key data map) (c_size c).

(** ** The runtime signature operation counter *)

Record RuntimeSigOpCounter := mk_counter {
  sig_op_limit : Z;
  sig_op_remaining : Z
}.
Definition counter_new (limit : Z) : RuntimeSigOpCounter := mk_counter limit limit.
Definition consume_sig_op (c : RuntimeSigOpCounter) : sres RuntimeSigOpCounter :=
  if sig_op_remaining c =? 0 then Err (ExceededSigOpLimit (sig_op_limit c))
  else Ok (mk_counter (sig_op_limit c) (sig_op_remaining c - 1)).
Definition counter_used {E} (c : RuntimeSigOpCounter) : outcome E Z := usub (sig_op_limit c) (sig_op_remaining c).

(** ** The engine *)

Inductive OpCond := CondFalse | CondTrue | CondSkip.
#[export] Instance op_cond_eq_dec : EqDecision OpCond.
Proof. solve_decision. Defined.
Definition negate (c : OpCond) : OpCond :=
  match c with CondTrue => CondFalse | CondFalse => CondTrue | CondSkip => CondSkip end.

Inductive ScriptSource :=
| TxInput (tx : VerifiableTransaction) (input : TransactionInput) (idx : nat) (utxo_entry : UtxoEntry) (is_p2sh : bool)
| StandAloneScripts (scripts : list bytes).

Record Engine := mk_engine {
  dstack : Stack;
  astack : Stack;
  cond_stack : list OpCond;
  num_ops : Z;
  counter : RuntimeSigOpCounter;
  sig_cache : Cache;
  reused_values : SigHashReusedValues;
  evictions : list nat
}.

Definition set_dstack (s : Stack) (vm : Engine) : Engine :=
  mk_engine s (astack vm) (cond_stack vm) (num_ops vm) (counter vm) (sig_cache vm) (reused_values vm) (evictions vm).
Definition set_astack (s : Stack) (vm : Engine) : Engine :=
  mk_engine (dstack vm) s (cond_stack vm) (num_ops vm) (counter vm) (sig_cache vm) (reused_values vm) (evictions vm).
Definition set_cond_stack (s : list OpCond) (vm : Engine) : Engine :=
  mk_engine (dstack vm) (astack vm) s (num_ops vm) (counter vm) (sig_cache vm) (reused_values vm) (evictions vm).
Definition set_num_ops (n : Z) (vm : Engine) : Engine :=
  mk_engine (dstack vm) (astack vm) (cond_stack vm) n (counter vm) (sig_cache vm) (reused_values vm) (evictions vm).
Definition set_counter (c : RuntimeSigOpCounter) (vm : Engine) : Engine :=
  mk_engine (dstack vm) (astack vm) (cond_stack vm) (num_ops vm) c (sig_cache vm) (reused_values vm) (evictions vm).
Definition set_reused (r : SigHashReusedValues) (vm : Engine) : Engine :=
  mk_engine (dstack vm) (astack vm) (cond_stack vm) (num_ops vm) (counter vm) (sig_cache vm) r (evictions vm).
(** An insertion into the cache uses up one random index. *)
Definition insert_in_cache (key : SigCacheKey) (data : bool) (vm : Engine) : Engine :=
  mk_engine (dstack vm) (astack vm) (cond_stack vm) (num_ops vm) (counter vm)
    (cache_insert (default 0%nat (head (evictions vm))) (sig_cache vm) key data) (reused_values vm) (tail (evictions vm)).

Definition is_executing (vm : Engine) : bool :=
  match last (cond_stack vm) with None => true | Some c => bool_decide (c = CondTrue) end.

(** [self.num_ops += n] on an [i32]. *)
Definition add_num_ops (n : Z) (vm : Engine) : sres Engine :=
  if is_i32 (num_ops vm + n) then
    if MAX_OPS_PER_SCRIPT <? num_ops vm + n then Err (TooManyOperations MAX_OPS_PER_SCRIPT) else Ok (set_num_ops (num_ops vm + n) vm)
  else Panic.

(** [ScriptPublicKey::to_bytes]: the version in big-endian order, then the script. *)
Definition spk_to_bytes (spk : ScriptPublicKey) : bytes := rev (le_bytes 2 (spk_version spk)) ++ spk_script spk.

Section Engine.
Context `{Crypto}.
Variable source : ScriptSource.

Definition check_pub_key_encoding (pub_key : bytes) : sres unit := if zlen pub_key =? 32 then Ok tt else Err PubKeyFormat.
Definition check_pub_key_encoding_ecdsa (pub_key : bytes) : sres unit := if zlen pub_key =? 33 then Ok tt else Err PubKeyFormat.

(** The cached result of a verification, or a fresh one that is then inserted. *)
Definition cached_verify (key : SigCacheKey) (verified : bool) (vm : Engine) : bool * Engine :=
  match cache_get (sig_cache vm) key with
  | Some valid => (valid, vm)
  | None => (verified, insert_in_cache key verified vm)
  end.

Definition check_schnorr_signature (hash_type : Z) (key sig : bytes) (vm : Engine) : sres (bool * Engine) :=
  let! c := consume_sig_op (counter vm) in
  let vm := set_counter c vm in
  match source with
  | TxInput tx _ idx _ _ =>
      if negb (zlen sig =? 64) then Err (SigLength (zlen sig))
      else
        let! _ := check_pub_key_encoding key in
        if negb (xonly_key_valid key) then Err InvalidSignature
        else if negb (schnorr_signature_valid sig) then Err InvalidSignature
        else
          let! ' (msg, r) := calc_schnorr_signature_hash hash_fn tx idx hash_type (reused_values vm) in
          Ok (cached_verify (mk_key Schnorr sig key msg) (schnorr_verify key sig msg) (set_reused r vm))
  | StandAloneScripts _ => Err NotATransactionInput
  end.

Definition check_ecdsa_signature (hash_type : Z) (key sig : bytes) (vm : Engine) : sres (bool * Engine) :=
  let! c := consume_sig_op (counter vm) in
  let vm := set_counter c vm in
  match source with
  | TxInput tx _ idx _ _ =>
      if negb (zlen sig =? 64) then Err (SigLength (zlen sig))
      else
        let! _ := check_pub_key_encoding_ecdsa key in
        if negb (ecdsa_key_valid key) then Err InvalidSignature
        else if negb (ecdsa_signature_valid sig) then Err InvalidSignature
        else
          let! ' (msg, r) := calc_ecdsa_signature_hash hash_fn tx idx hash_type (reused_values vm) in
          Ok (cached_verify (mk_key Ecdsa sig key msg) (ecdsa_verify key sig msg) (set_reused r vm))
  | StandAloneScripts _ => Err NotATransactionInput
  end.

(** The ML-DSA parsers check the lengths only, which are checked before. *)
Definition check_mldsa_signature (hash_type : Z) (key sig : bytes) (vm : Engine) : sres (bool * Engine) :=
  let! c := consume_sig_op (counter vm) in
  let vm := set_counter c vm in
  match source with
  | TxInput tx _ idx _ _ =>
      if negb (zlen sig =? 2420) then Err (SigLength (zlen sig))
      else if negb (zlen key =? 1312) then Err (InvalidPublicKeyLen (zlen key))
      else
        let! ' (msg, r) := calc_schnorr_signature_hash hash_fn tx idx hash_type (reused_values vm) in
        Ok (mldsa_verify key sig msg, set_reused r vm)
  | StandAloneScripts _ => Err NotATransactionInput
  end.

(** [SigHashType::from_u8] with the engine's error. *)
Definition hash_type_of (typ : Z) : sres Z :=
  match sig_hash_type_from_u8 typ with Some t => Ok t | None => Err (InvalidSigHashType typ) end.

(** The shared body of OpCheckSig, OpCheckSigECDSA and OpCheckSigMLDSA. *)
Definition op_check_sig (check : Z -> bytes -> bytes -> Engine -> sres (bool * Engine)) (vm : Engine) : sres Engine :=
  let! ' (items, s) := pop_raw 2 (dstack vm) in
  let! ' (sig, key) := arr2 items in
  let vm := set_dstack s vm in
  match vec_pop sig with
  | Some (typ, sig) =>
      let! hash_type := hash_type_of typ in
      let! ' (valid, vm) := check hash_type key sig vm in
      Ok (set_dstack (push_bool valid (dstack vm)) vm)
  | None => Ok (set_dstack (push_bool false (dstack vm)) vm)
  end.

(** ** Multisig *)

(** The inner loop: the keys left after the one that accepts the signature, or [None]
    when fewer keys than signatures remain.  [needed] is [num_sigs - sig_idx]. *)
Fixpoint multisig_keys (check : bytes -> Engine -> sres (bool * Engine)) (needed : nat) (pub_keys : list bytes) (vm : Engine) :
    sres (option (list bytes) * Engine) :=
  if (length pub_keys <? needed)%nat then Ok (None, vm)
  else
    match pub_keys with
    | [] => Panic
    | pub_key :: pub_keys' =>
        let! ' (valid, vm) := check pub_key vm in
        if valid : bool then Ok (Some pub_keys', vm) else multisig_keys check needed pub_keys' vm
    end.

(** The outer loop: whether it failed. *)
Fixpoint multisig_loop (check : Z -> bytes -> bytes -> Engine -> sres (bool * Engine)) (signatures pub_keys : list bytes) (vm : Engine) :
    sres (bool * Engine) :=
  match signatures with
  | [] => Ok (false, vm)
  | signature :: signatures' =>
      match vec_pop signature with
      | None => Ok (true, vm)
      | Some (typ, sig) =>
          let! hash_type := hash_type_of typ in
          let! ' (rest, vm) := multisig_keys (fun key => check hash_type key sig) (length signatures) pub_keys vm in
          match rest with
          | None => Ok (true, vm)
          | Some pub_keys' => multisig_loop check signatures' pub_keys' vm
          end
      end
  end.

Definition op_check_multisig_schnorr_or_ecdsa (ecdsa : bool) (vm : Engine) : sres Engine :=
  let! ' (ns, s) := pop_items i32_deserialize 1 (dstack vm) in
  let! num_keys := arr1 ns in
  let vm := set_dstack s vm in
  if num_keys <? 0 then Err InvalidPubKeyCount
  else if MAX_PUB_KEYS_PER_MUTLTISIG <? num_keys then Err InvalidPubKeyCount
  else
    let num_keys_usize := Z.to_nat num_keys in
    let! vm := add_num_ops num_keys vm in
    if (length (dstack vm) <? num_keys_usize)%nat then Err (InvalidStackOperation num_keys (zlen (dstack vm)))
    else
      let '(s, pub_keys) := split_off num_keys_usize (dstack vm) in
      let! ' (ns, s) := pop_items i32_deserialize 1 s in
      let! num_sigs := arr1 ns in
      let vm := set_dstack s vm in
      if num_sigs <? 0 then Err InvalidSignatureCount
      else if num_keys <? num_sigs then Err InvalidSignatureCount
      else if (length (dstack vm) <? Z.to_nat num_sigs)%nat then Err (InvalidStackOperation num_sigs (zlen (dstack vm)))
      else
        let '(s, signatures) := split_off (Z.to_nat num_sigs) (dstack vm) in
        let vm := set_dstack s vm in
        let! ' (failed, vm) := multisig_loop (if ecdsa then check_ecdsa_signature else check_schnorr_signature) signatures pub_keys vm in
        if failed && existsb (fun sig => negb (bool_decide (sig = []))) signatures then Err NullFail
        else Ok (set_dstack (push_bool (negb failed) (dstack vm)) vm).

(** ** Opcodes *)

(** A stack transformation, and the numeric opcodes: pop one, two or three numbers and
    push the result. *)
Definition on_dstack (f : Stack -> sres Stack) (vm : Engine) : sres Engine :=
  let! s := f (dstack vm) in Ok (set_dstack s vm).
Definition checked (n : Z) : sres Z := if is_i64 n then Ok n else Err NumberTooBig.
Definition b2z (b : bool) : Z := if b then 1 else 0.
Definition unary_op (f : Z -> sres Z) : Engine -> sres Engine := on_dstack (fun s =>
  let! ' (ns, s) := pop_items i64_deserialize 1 s in
  let! value := arr1 ns in
  let! r := f value in push_i64 r s).
Definition binary_op (f : Z -> Z -> sres Z) : Engine -> sres Engine := on_dstack (fun s =>
  let! ' (ns, s) := pop_items i64_deserialize 2 s in
  let! ' (a, b) := arr2 ns in
  let! r := f a b in push_i64 r s).
Definition ternary_op (f : Z -> Z -> Z -> sres Z) : Engine -> sres Engine := on_dstack (fun s =>
  let! ' (ns, s) := pop_items i64_deserialize 3 s in
  let! ' (a, b, c) := arr3 ns in
  let! r := f a b c in push_i64 r s).
(** Pop one boolean and fail unless it is true. *)
Definition op_verify : Engine -> sres Engine := on_dstack (fun s =>
  let! ' (bs, s) := pop_items bool_deserialize 1 s in
  let! result := arr1 bs in
  if result : bool then Ok s else Err VerifyError).
Definition hash_op (f : bytes -> bytes) : Engine -> sres Engine := on_dstack (fun s =>
  let! ' (items, s) := pop_raw 1 s in
  let! last := arr1 items in Ok (s ++ [f last])).

Definition op_if (on_one on_empty : OpCond) (vm : Engine) : sres Engine :=
  if is_executing vm then
    match vec_pop (dstack vm) with
    | None => Err EmptyStack
    | Some (cond_buf, s) =>
        if 1 <? zlen cond_buf then Err InvalidState
        else
          let! cond :=
            match vec_pop cond_buf with
            | Some (stack_cond, _) => if stack_cond =? 1 then Ok on_one else Err InvalidState
            | None => Ok on_empty
            end in
          Ok (set_cond_stack (cond_stack vm ++ [cond]) (set_dstack s vm))
    end
  else Ok (set_cond_stack (cond_stack vm ++ [CondSkip]) vm).
Definition op_else (vm : Engine) : sres Engine :=
  match vec_pop (cond_stack vm) with
  | Some (cond, cs) => Ok (set_cond_stack (cs ++ [negate cond]) vm)
  | None => Err InvalidState
  end.
Definition op_end_if (vm : Engine) : sres Engine :=
  match vec_pop (cond_stack vm) with
  | Some (_, cs) => Ok (set_cond_stack cs vm)
  | None => Err InvalidState
  end.

Definition op_to_alt_stack (vm : Engine) : sres Engine :=
  let! ' (items, s) := pop_raw 1 (dstack vm) in
  let! item := arr1 items in
  Ok (set_astack (astack vm ++ [item]) (set_dstack s vm)).
Definition op_from_alt_stack (vm : Engine) : sres Engine :=
  match vec_pop (astack vm) with
  | Some (item, s) => Ok (set_dstack (dstack vm ++ [item]) (set_astack s vm))
  | None => Err EmptyStack
  end.

Definition op_if_dup : Engine -> sres Engine := on_dstack (fun s =>
  let! items := peek_raw 1 s in
  let! result := arr1 items in
  let! b := bool_deserialize result in
  Ok (if b : bool then s ++ [result] else s)).
Definition op_nip : Engine -> sres Engine := on_dstack (fun s =>
  if (2 <=? length s)%nat then Ok (take (length s - 2) s ++ drop (length s - 1) s) else Err (InvalidStackOperation 2 (zlen s))).
Definition op_tuck : Engine -> sres Engine := on_dstack (fun s =>
  if (2 <=? length s)%nat then
    let! item := unwrap (last s) in Ok (take (length s - 2) s ++ [item] ++ drop (length s - 2) s)
  else Err (InvalidStackOperation 2 (zlen s))).
(** The item picked or rolled: the index from the top, then the item at it. *)
Definition located (s : Stack) : sres (nat * bytes * Stack) :=
  let! ' (ns, s) := pop_items i32_deserialize 1 s in
  let! loc := arr1 ns in
  if (loc <? 0) || (zlen s <=? loc) then Err InvalidState
  else
    let i := (length s - Z.to_nat loc - 1)%nat in
    let! item := unwrap (s !! i) in Ok (i, item, s).
Definition op_pick : Engine -> sres Engine := on_dstack (fun s =>
  let! ' (_, item, s) := located s in Ok (s ++ [item])).
Definition op_roll : Engine -> sres Engine := on_dstack (fun s =>
  let! ' (i, item, s) := located s in Ok (take i s ++ drop (S i) s ++ [item])).
Definition op_size : Engine -> sres Engine := on_dstack (fun s =>
  match last s with
  | Some item => if is_i64 (zlen item) then push_i64 (zlen item) s else Err NumberTooBig
  | None => Err (InvalidStackOperation 1 0)
  end).
(** OpEqual and OpEqualVerify. *)
Definition op_equal : Engine -> sres Engine := on_dstack (fun s =>
  if (2 <=? length s)%nat then
    let '(s, two) := split_off 2 s in
    let! ' (a, b) := arr2 two in
    Ok (if bool_decide (a = b) then s ++ [[1]] else s ++ [[]])
  else Err (InvalidStackOperation 2 (zlen s))).
Definition op_equal_verify : Engine -> sres Engine := on_dstack (fun s =>
  if (2 <=? length s)%nat then
    let '(s, two) := split_off 2 s in
    let! ' (a, b) := arr2 two in
    if bool_decide (a = b) then Ok s else Err VerifyError
  else Err (InvalidStackOperation 2 (zlen s))).
Definition op_num_equal_verify : Engine -> sres Engine := on_dstack (fun s =>
  let! ' (ns, s) := pop_items i64_deserialize 2 s in
  let! ' (a, b) := arr2 ns in
  if a =? b then Ok s else Err VerifyError).

(** A stack element of at most eight bytes, padded to a [u64]. *)
Definition pop_lock_time (s : Stack) : sres (Z * Stack) :=
  let! ' (items, s) := pop_raw 1 s in
  let! item := arr1 items in
  if 8 <? zlen item then Err NumberTooBig else Ok (of_le_bytes (item ++ replicate (8 - length item) 0), s).

Definition op_check_lock_time_verify (vm : Engine) : sres Engine :=
  match source with
  | TxInput tx input _ _ _ =>
      let! ' (stack_lock_time, s) := pop_lock_time (dstack vm) in
      let lock_time := tx_lock_time (v_tx tx) in
      if negb (((lock_time <? LOCK_TIME_THRESHOLD) && (stack_lock_time <? LOCK_TIME_THRESHOLD)) ||
               ((LOCK_TIME_THRESHOLD <=? lock_time) && (LOCK_TIME_THRESHOLD <=? stack_lock_time)))
      then Err UnsatisfiedLockTime
      else if lock_time <? stack_lock_time then Err UnsatisfiedLockTime
      else if in_sequence input =? MAX_TX_IN_SEQUENCE_NUM then Err UnsatisfiedLockTime
      else Ok (set_dstack s vm)
  | StandAloneScripts _ => Err InvalidSource
  end.
Definition op_check_sequence_verify (vm : Engine) : sres Engine :=
  match source with
  | TxInput tx input _ _ _ =>
      let! ' (stack_sequence, s) := pop_lock_time (dstack vm) in
      let vm := set_dstack s vm in
      if negb (Z.land stack_sequence SEQUENCE_LOCK_TIME_DISABLED =? 0) then Ok vm
      else if negb (Z.land (in_sequence input) SEQUENCE_LOCK_TIME_DISABLED =? 0) then Err UnsatisfiedLockTime
      else if Z.land (in_sequence input) SEQUENCE_LOCK_TIME_MASK <? Z.land stack_sequence SEQUENCE_LOCK_TIME_MASK then Err UnsatisfiedLockTime
      else Ok vm
  | StandAloneScripts _ => Err InvalidSource
  end.

(** ** Introspection *)

Definition push_number (n : Z) : Engine -> sres Engine := on_dstack (push_i64 n).
(** A query on the transaction that pushes a number. *)
Definition op_tx_number (f : VerifiableTransaction -> nat -> Z) (vm : Engine) : sres Engine :=
  match source with
  | TxInput tx _ idx _ _ => push_number (f tx idx) vm
  | StandAloneScripts _ => Err InvalidSource
  end.
(** [usize::try_from(idx).ok().and_then(|idx| ...get(idx))]. *)
Definition get_at {A} (l : list A) (idx : Z) : option A := if idx <? 0 then None else l !! Z.to_nat idx.
(** A query on the input or output whose index is popped. *)
Definition op_tx_indexed {A} (items : VerifiableTransaction -> list A) (err : Z -> Z -> TxScriptError) (k : A -> Stack -> sres Stack) (vm : Engine) :
    sres Engine :=
  match source with
  | TxInput tx _ _ _ _ =>
      on_dstack (fun s =>
        let! ' (ns, s) := pop_items i32_deserialize 1 s in
        let! idx := arr1 ns in
        match get_at (items tx) idx with
        | None => Err (err idx (zlen (tx_inputs (v_tx tx))))
        | Some item => k item s
        end) vm
  | StandAloneScripts _ => Err InvalidSource
  end.
(** An amount, a [u64], pushed as an [i64]. *)
Definition push_amount (amount : Z) (s : Stack) : sres Stack := if amount <? I64 then push_i64 amount s else Err NumberTooBig.
Definition push_spk (spk : ScriptPublicKey) (s : Stack) : sres Stack := Ok (s ++ [spk_to_bytes spk]).

(** ** Execution of an opcode *)

Definition op_execute (op : OpCode) : Engine -> sres Engine :=
  match op_name op with
  | OpFalse => on_dstack (fun s => Ok (s ++ [[]]))
  | OpData _ | OpPushData1 | OpPushData2 | OpPushData4 => on_dstack (fun s => Ok (s ++ [op_data op]))
  | Op1Negate => push_number (-1)
  | OpSmall n => push_number n
  | OpNop => fun vm => Ok vm
  | OpIf => op_if CondTrue CondFalse
  | OpNotIf => op_if CondFalse CondTrue
  | OpElse => op_else
  | OpEndIf => op_end_if
  | OpVerify => op_verify
  | OpReturn => fun _ => Err EarlyReturn
  | OpToAltStack => op_to_alt_stack
  | OpFromAltStack => op_from_alt_stack
  | Op2Drop => on_dstack (drop_items 2)
  | Op2Dup => on_dstack (dup_items 2)
  | Op3Dup => on_dstack (dup_items 3)
  | Op2Over => on_dstack (over_items 2)
  | Op2Rot => on_dstack (rot_items 2)
  | Op2Swap => on_dstack (swap_items 2)
  | OpIfDup => op_if_dup
  | OpDepth => on_dstack (fun s => push_i64 (zlen s) s)
  | OpDrop => on_dstack (drop_items 1)
  | OpDup => on_dstack (dup_items 1)
  | OpNip => op_nip
  | OpOver => on_dstack (over_items 1)
  | OpPick => op_pick
  | OpRoll => op_roll
  | OpRot => on_dstack (rot_items 1)
  | OpSwap => on_dstack (swap_items 1)
  | OpTuck => op_tuck
  | OpSize => op_size
  | OpEqual => op_equal
  | OpEqualVerify => op_equal_verify
  | Op1Add => unary_op (fun a => checked (a + 1))
  | Op1Sub => unary_op (fun a => checked (a - 1))
  | OpNegate => unary_op (fun a => checked (- a))
  | OpAbs => unary_op (fun a => checked (Z.abs a))
  | OpNot => unary_op (fun a => Ok (b2z (a =? 0)))
  | Op0NotEqual => unary_op (fun a => Ok (b2z (negb (a =? 0))))
  | OpAdd => binary_op (fun a b => checked (a + b))
  | OpSub => binary_op (fun a b => checked (a - b))
  | OpBoolAnd => binary_op (fun a b => Ok (b2z (negb (a =? 0) && negb (b =? 0))))
  | OpBoolOr => binary_op (fun a b => Ok (b2z (negb (a =? 0) || negb (b =? 0))))
  | OpNumEqual => binary_op (fun a b => Ok (b2z (a =? b)))
  | OpNumEqualVerify => op_num_equal_verify
  | OpNumNotEqual => binary_op (fun a b => Ok (b2z (negb (a =? b))))
  | OpLessThan => binary_op (fun a b => Ok (b2z (a <? b)))
  | OpGreaterThan => binary_op (fun a b => Ok (b2z (b <? a)))
  | OpLessThanOrEqual => binary_op (fun a b => Ok (b2z (a <=? b)))
  | OpGreaterThanOrEqual => binary_op (fun a b => Ok (b2z (b <=? a)))
  | OpMin => binary_op (fun a b => Ok (Z.min a b))
  | OpMax => binary_op (fun a b => Ok (Z.max a b))
  | OpWithin => ternary_op (fun x l u => Ok (b2z ((l <=? x) && (x <? u))))
  | OpCheckSigMLDSA => op_check_sig check_mldsa_signature
  | OpSHA256 => hash_op sha256
  | OpCheckMultiSigECDSA => op_check_multisig_schnorr_or_ecdsa true
  | OpBlake2b => hash_op blake2b_256
  | OpCheckSigECDSA => op_check_sig check_ecdsa_signature
  | OpCheckSig => op_check_sig check_schnorr_signature
  | OpCheckSigVerify => fun vm => let! vm := op_check_sig check_schnorr_signature vm in op_verify vm
  | OpCheckMultiSig => op_check_multisig_schnorr_or_ecdsa false
  | OpCheckMultiSigVerify => fun vm => let! vm := op_check_multisig_schnorr_or_ecdsa false vm in op_verify vm
  | OpCheckLockTimeVerify => op_check_lock_time_verify
  | OpCheckSequenceVerify => op_check_sequence_verify
  | OpTxInputCount => op_tx_number (fun tx _ => zlen (tx_inputs (v_tx tx)))
  | OpTxOutputCount => op_tx_number (fun tx _ => zlen (tx_outputs (v_tx tx)))
  | OpTxInputIndex => op_tx_number (fun _ idx => Z.of_nat idx)
  | OpTxInputAmount => op_tx_indexed v_entries InvalidInputIndex (fun e => push_amount (ue_amount e))
  | OpTxInputSpk => op_tx_indexed v_entries InvalidInputIndex (fun e => push_spk (ue_script_public_key e))
  | OpTxOutputAmount => op_tx_indexed (fun v => tx_outputs (v_tx v)) InvalidOutputIndex (fun o => push_amount (out_value o))
  | OpTxOutputSpk => op_tx_indexed (fun v => tx_outputs (v_tx v)) InvalidOutputIndex (fun o => push_spk (out_script_public_key o))
  | OpCat | OpSubStr | OpLeft | OpRight | OpInvert | OpAnd | OpOr | OpXor | Op2Mul | Op2Div | OpMul | OpDiv | OpMod | OpLShift | OpRShift =>
      fun _ => Err (OpcodeDisabled (op_value op))
  | OpReserved | OpVer | OpVerIf | OpVerNotIf | OpReserved1 | OpReserved2 | OpTxVersion | OpTxLockTime | OpTxSubnetId | OpTxGas | OpTxPayload
  | OpOutpointTxId | OpOutpointIndex | OpTxInputScriptSig | OpTxInputSeq | OpTxInputBlockDaaScore | OpTxInputIsCoinbase =>
      fun _ => Err (OpcodeReserved (op_value op))
  | OpUnknown166 | OpUnknown _ => fun _ => Err (InvalidOpcode (op_value op))
  end.

Definition execute_opcode (op : OpCode) (vm : Engine) : sres Engine :=
  let! vm :=
    if negb (is_push_opcode op) then add_num_ops 1 vm
    else if MAX_SCRIPT_ELEMENT_SIZE <? op_len op then Err (ElementTooBig (op_len op) MAX_SCRIPT_ELEMENT_SIZE)
    else Ok vm in
  if is_executing vm || is_conditional op then
    let! _ := if (0 <? op_value op) && (op_value op <=? 0x4e) then check_minimal_data_push op else Ok tt in
    op_execute op vm
  else Ok vm.

(** ** Scripts *)

(** The closure of [try_for_each] in [execute_script]. *)
Definition execute_parsed (verify_only_push : bool) (vm : Engine) (parsed : sres OpCode) : sres Engine :=
  let! op := parsed in
  if is_disabled op then Err (OpcodeDisabled (op_value op))
  else if always_illegal op then Err (OpcodeReserved (op_value op))
  else if verify_only_push && negb (is_push_opcode op) then Err SignatureScriptNotPushOnly
  else
    let! vm := execute_opcode op vm in
    let combined_size := zlen (astack vm) + zlen (dstack vm) in
    if MAX_STACK_SIZE <? combined_size then Err (StackSizeExceeded combined_size MAX_STACK_SIZE) else Ok vm.

Definition execute_script (script : bytes) (verify_only_push : bool) (vm : Engine) : sres Engine :=
  let! vm := foldM_out (execute_parsed verify_only_push) vm (parse_script script) in
  if negb (bool_decide (cond_stack vm = [])) then Err ErrUnbalancedConditional
  else Ok (set_num_ops 0 (set_astack [] vm)).

Definition check_error_condition (final_script : bool) (vm : Engine) : sres Engine :=
  if final_script && (1 <? zlen (dstack vm)) then Err (CleanStack (zlen (dstack vm) - 1))
  else if final_script && bool_decide (dstack vm = []) then Err EmptyStack
  else
    let! ' (bs, s) := pop_items bool_deserialize 1 (dstack vm) in
    let! v := arr1 bs in
    if v : bool then Ok (set_dstack s vm) else Err EvalFalse.

(** ** Stealth spends *)

Definition execute_stealth_spend (tx : VerifiableTransaction) (input_idx : nat) (input : TransactionInput) (utxo_entry : UtxoEntry) (vm : Engine) :
    sres Engine :=
  let script := spk_script (ue_script_public_key utxo_entry) in
  if negb (zlen script =? STEALTH_OUTPUT_SIZE) then Err PubKeyFormat
  else
    let! r_bytes := slice 0 33 script in
    if negb (ecdsa_key_valid r_bytes) then Err PubKeyFormat
    else
      let! pubkey := slice 34 66 script in
      if negb (xonly_key_valid pubkey) then Err PubKeyFormat
      else
        let sig_script := in_signature_script input in
        if zlen sig_script <? 65 then Err (SigLength (zlen sig_script))
        else if MAX_SCRIPT_ELEMENT_SIZE <? zlen sig_script then Err (ElementTooBig (zlen sig_script) MAX_SCRIPT_ELEMENT_SIZE)
        else
          let sig_offset := (length sig_script - 65)%nat in
          let! sig := slice sig_offset (sig_offset + 64) sig_script in
          let! hash_type_byte := unwrap (sig_script !! (sig_offset + 64)%nat) in
          let! hash_type := hash_type_of hash_type_byte in
          if negb (schnorr_signature_valid sig) then Err InvalidSignature
          else
            let! ' (msg, r) := calc_schnorr_signature_hash hash_fn tx input_idx hash_type (reused_values vm) in
            let! c := consume_sig_op (counter vm) in
            let '(valid, vm) := cached_verify (mk_key Schnorr sig pubkey msg) (schnorr_verify pubkey sig msg) (set_counter c (set_reused r vm)) in
            if valid : bool then Ok vm else Err EvalFalse.

(** ** The run *)

(** The non-empty scripts in order, and the stack saved before the second one of a
    pay-to-script-hash spend. *)
Definition run_script (is_p2sh : bool) (st : Engine * option Stack) (indexed : nat * bytes) : sres (Engine * option Stack) :=
  let '(vm, saved) := st in
  let '(idx, s) := indexed in
  let verify_only_push := (idx =? 0)%nat && match source with TxInput _ _ _ _ _ => true | _ => false end in
  let saved := if is_p2sh && (idx =? 1)%nat then Some (dstack vm) else saved in
  let! vm := execute_script s verify_only_push vm in Ok (vm, saved).

Definition run_scripts (scripts : list bytes) (is_p2sh : bool) (vm : Engine) : sres Engine :=
  if bool_decide (scripts = []) then Err NoScripts
  else if forallb (fun e => bool_decide (e = [])) scripts then Err EvalFalse
  else
    match List.find (fun e => MAX_SCRIPTS_SIZE <? zlen e) scripts with
    | Some s => Err (ScriptSize (zlen s) MAX_SCRIPTS_SIZE)
    | None =>
        let! ' (vm, saved_stack) :=
          foldM_out (run_script is_p2sh) (vm, None)
            (List.filter (fun indexed => negb (bool_decide (indexed.2 = []))) (zip (seq 0 (length scripts)) scripts)) in
        let! vm :=
          if is_p2sh then
            let! vm := check_error_condition false vm in
            match saved_stack with
            | None => Err EmptyStack
            | Some saved =>
                match vec_pop saved with
                | None => Err EmptyStack
                | Some (script, s) => execute_script script false (set_dstack s vm)
                end
            end
          else Ok vm in
        check_error_condition true vm
    end.

Definition execute (vm : Engine) : sres Engine :=
  match source with
  | TxInput tx input idx utxo_entry is_p2sh =>
      let version := spk_version (ue_script_public_key utxo_entry) in
      if version =? STEALTH_SCRIPT_VERSION then execute_stealth_spend tx idx input utxo_entry vm
      else if MAX_SCRIPT_PUBLIC_KEY_VERSION <? version then Ok vm
      else run_scripts [in_signature_script input; spk_script (ue_script_public_key utxo_entry)] is_p2sh vm
  | StandAloneScripts scripts => run_scripts scripts false vm
  end.
End Engine.

(** ** Construction and entry points *)

Definition is_pay_to_script_hash (s : bytes) : bool :=
  (zlen s =? 35) && (nth 0 s 0 =? codes_OpBlake2b) && (nth 1 s 0 =? codes_OpData32) && (nth 34 s 0 =? codes_OpEqual).

Definition fresh_engine (limit : Z) (cache : Cache) (reused : SigHashReusedValues) (evictions : list nat) : Engine :=
  mk_engine [] [] [] 0 (counter_new limit) cache reused evictions.
(** The sources and engines of [from_transaction_input] and [from_script]. *)
Definition from_transaction_input (tx : VerifiableTransaction) (input : TransactionInput) (input_idx : nat) (utxo_entry : UtxoEntry)
    (reused : SigHashReusedValues) (cache : Cache) (evictions : list nat) : sres (ScriptSource * Engine) :=
  let is_p2sh := is_pay_to_script_hash (spk_script (ue_script_public_key utxo_entry)) in
  let! _ := rassert (Z.of_nat input_idx <? zlen (tx_inputs (v_tx tx))) in
  Ok (TxInput tx input input_idx utxo_entry is_p2sh, fresh_engine (in_sig_op_count input) cache reused evictions).
Definition from_script (script : bytes) (reused : SigHashReusedValues) (cache : Cache) (evictions : list nat) : ScriptSource * Engine :=
  (StandAloneScripts [script], fresh_engine (U8 - 1) cache reused evictions).

(** [vm.used_sig_ops()]. *)
Definition used_sig_ops {E} (vm : Engine) : outcome E Z := counter_used (counter vm).

Definition get_sig_op_count `{Crypto} (tx : VerifiableTransaction) (input_idx : nat) : sres Z :=
  match v_entries tx !! input_idx with
  | None => Err (InvalidInputIndex (Z.of_nat input_idx) (zlen (tx_inputs (v_tx tx))))
  | Some utxo =>
      if spk_version (ue_script_public_key utxo) =? STEALTH_SCRIPT_VERSION then Ok 1
      else
        let! input := unwrap (tx_inputs (v_tx tx) !! input_idx) in
        let! ' (source, vm) := from_transaction_input tx input input_idx utxo reused_new (cache_new 0) [] in
        let! vm := execute source vm in
        used_sig_ops vm
  end.

(** ** Static counting *)

(** The loop of [get_sig_op_count_by_opcodes]: [prev] is the opcode before the current
    one.  A parse error ends the count. *)
Fixpoint count_sig_ops {E} (prev : option OpCode) (opcodes : list (sres OpCode)) (num_sigs : Z) : outcome E Z :=
  match opcodes with
  | Ok op :: opcodes' =>
      match op_name op with
      | OpCheckSig | OpCheckSigVerify | OpCheckSigECDSA | OpCheckSigMLDSA =>
          let! n := add64 num_sigs 1 in count_sig_ops (Some op) opcodes' n
      | OpCheckMultiSig | OpCheckMultiSigVerify | OpCheckMultiSigECDSA =>
          match prev with
          | None => let! n := add64 num_sigs MAX_PUB_KEYS_PER_MUTLTISIG in count_sig_ops (Some op) opcodes' n
          | Some p =>
              if (codes_OpTrue <=? op_value p) && (op_value p <=? codes_Op16) then
                let! k := to_small_int p in
                let! n := add64 num_sigs k in count_sig_ops (Some op) opcodes' n
              else let! n := add64 num_sigs MAX_PUB_KEYS_PER_MUTLTISIG in count_sig_ops (Some op) opcodes' n
          end
      | _ => count_sig_ops (Some op) opcodes' num_sigs
      end
  | _ => Ok num_sigs
  end.
Definition get_sig_op_count_by_opcodes {E} (opcodes : list (sres OpCode)) : outcome E Z := count_sig_ops None opcodes 0.

Definition get_sig_op_count_upper_bound {E} (signature_script : bytes) (prev_script_public_key : ScriptPublicKey) : outcome E Z :=
  if spk_version prev_script_public_key =? STEALTH_SCRIPT_VERSION then Ok 1
  else
    let is_p2sh := is_pay_to_script_hash (spk_script prev_script_public_key) in
    if negb is_p2sh then get_sig_op_count_by_opcodes (parse_script (spk_script prev_script_public_key))
    else
      let ops := parse_script signature_script in
      if existsb (fun op => match op with Ok op => negb (is_push_opcode op) | _ => true end) ops then Ok 0
      else
        match last ops with
        | Some (Ok op) => get_sig_op_count_by_opcodes (parse_script (op_data op))
        | _ => Ok 0
        end.

Definition is_unspendable (script : bytes) : bool :=
  let ops := parse_script script in
  existsb (fun op => match op with Ok _ => false | _ => true end) ops ||
  match ops with Ok op :: _ => match op_name op with OpReturn => true | _ => false end | _ => false end.
