(* ===== verification/ScriptStandard.v ===== *)
(** * Building and recognising scripts

    Model of crypto/txscript/src/script_builder.rs, script_class.rs, standard.rs and
    standard/multisig.rs, and of the on-chain form of stealth outputs in
    crypto/stealth/src/keys.rs.  A builder is the script built so far; its operations fail
    without changing it. *)

From Stdlib Require Import ZArith Lia Bool.
From stdpp Require Import base numbers list.
From S2P Require Import Prelude Tx Uint Address ScriptData ScriptOps ScriptEngine.

#[local] Open Scope Z_scope.

(** ** The builder *)

Inductive ScriptBuilderError :=
| OpCodeRejected (opcode : Z)
| OpCodesRejected (n : Z)
| DataRejected (n : Z)
| ElementExceedsMaxSize (n : Z)
| IntegerRejected (n : Z)
| BuilderSerialization (e : SerializationError).
Abbreviation bres := (outcome ScriptBuilderError).

Definition add_op (opcode : Z) (script : bytes) : bres bytes :=
  if MAX_SCRIPTS_SIZE <=? zlen script then Err (OpCodeRejected opcode) else Ok (script ++ [opcode]).
Definition add_ops (opcodes : bytes) (script : bytes) : bres bytes :=
  if MAX_SCRIPTS_SIZE <? zlen script + zlen opcodes then Err (OpCodesRejected (zlen opcodes)) else Ok (script ++ opcodes).

Definition canonical_data_size (data : bytes) : Z :=
  let data_len := zlen data in
  let first := nth 0 data 0 in
  if (data_len =? 0) || ((data_len =? 1) && ((first <=? OP_SMALL_INT_MAX_VAL) || (first =? OP_1_NEGATE_VAL))) then 1
  else
    data_len + (if data_len <=? OP_DATA_MAX_VAL then 1
                else if data_len <=? U8 - 1 then 2
                else if data_len <=? U16 - 1 then 3
                else 5).

Definition add_raw_data (data : bytes) (script : bytes) : bytes :=
  let data_len := zlen data in
  let first := nth 0 data 0 in
  if data_len =? 0 then script ++ [codes_OpFalse]
  else if (data_len =? 1) && (OP_SMALL_INT_MIN_VAL <=? first) && (first <=? OP_SMALL_INT_MAX_VAL) then script ++ [(codes_OpTrue - 1) + first]
  else if (data_len =? 1) && (first =? OP_1_NEGATE_VAL) then script ++ [codes_Op1Negate]
  else
    script ++
    (if data_len <=? OP_DATA_MAX_VAL then [(OP_DATA_MIN_VAL - 1) + data_len]
     else if data_len <=? U8 - 1 then [codes_OpPushData1; data_len]
     else if data_len <=? U16 - 1 then codes_OpPushData2 :: le_bytes 2 data_len
     else codes_OpPushData4 :: le_bytes 4 data_len) ++ data.

Definition add_data (data : bytes) (script : bytes) : bres bytes :=
  let data_size := canonical_data_size data in
  if MAX_SCRIPTS_SIZE <? zlen script + data_size then Err (DataRejected data_size)
  else if MAX_SCRIPT_ELEMENT_SIZE <? zlen data then Err (ElementExceedsMaxSize (zlen data))
  else Ok (add_raw_data data script).

Definition add_i64 (val : Z) (script : bytes) : bres bytes :=
  if MAX_SCRIPTS_SIZE <? zlen script + 1 then Err (IntegerRejected val)
  else if val =? 0 then Ok (script ++ [codes_OpFalse])
  else if (val =? -1) || ((1 <=? val) && (val <=? 16)) then Ok (script ++ [((codes_OpTrue - 1) + val) mod U8])
  else
    let! bs := map_err BuilderSerialization (i64_serialize val) in
    add_data bs script.

(** The little-endian bytes without the upper zero bytes. *)
Fixpoint trim_zeros (bs : bytes) : bytes :=
  match bs with
  | [] => []
  | b :: bs' => match trim_zeros bs' with [] => if b =? 0 then [] else [b] | t => b :: t end
  end.
Definition add_u64 (val : Z) (script : bytes) : bres bytes := add_data (trim_zeros (u64_to_le_bytes val)) script.
Definition add_lock_time (lock_time : Z) (script : bytes) : bres bytes := add_u64 lock_time script.
Definition add_sequence (sequence : Z) (script : bytes) : bres bytes := add_u64 sequence script.

(** ** Script classes *)

Inductive ScriptClass := ClassNonStandard | ClassPubKey | ClassPubKeyECDSA | ClassPubKeyMLDSA | ClassScriptHash | ClassStealth.

Definition is_pay_to_pubkey (s : bytes) : bool := (zlen s =? 34) && (nth 0 s 0 =? codes_OpData32) && (nth 33 s 0 =? codes_OpCheckSig).
Definition is_pay_to_pubkey_ecdsa (s : bytes) : bool :=
  (zlen s =? 35) && (nth 0 s 0 =? codes_OpData33) && (nth 34 s 0 =? codes_OpCheckSigECDSA).
Definition is_pay_to_pubkey_mldsa (s : bytes) : bool :=
  (zlen s =? 1316) && (nth 0 s 0 =? codes_OpPushData2) && (nth 1 s 0 =? 0x20) && (nth 2 s 0 =? 0x05) && (nth 1315 s 0 =? codes_OpCheckSigMLDSA).
Definition is_pay_to_stealth (s : bytes) : bool := zlen s =? STEALTH_OUTPUT_SIZE.

Definition class_from_script (spk : ScriptPublicKey) : ScriptClass :=
  let script := spk_script spk in
  if spk_version spk =? 0 then
    if is_pay_to_pubkey script then ClassPubKey
    else if is_pay_to_pubkey_ecdsa script then ClassPubKeyECDSA
    else if is_pay_to_pubkey_mldsa script then ClassPubKeyMLDSA
    else if is_pay_to_script_hash script then ClassScriptHash
    else ClassNonStandard
  else if spk_version spk =? STEALTH_SCRIPT_VERSION then if is_pay_to_stealth script then ClassStealth else ClassNonStandard
  else ClassNonStandard.
Definition class_version (c : ScriptClass) : Z := match c with ClassStealth => STEALTH_SCRIPT_VERSION | _ => 0 end.
Definition class_of_version (v : Version) : ScriptClass :=
  match v with
  | PubKey => ClassPubKey
  | PubKeyECDSA => ClassPubKeyECDSA
  | PubKeyMLDSA => ClassPubKeyMLDSA
  | ScriptHash => ClassScriptHash
  | Stealth => ClassStealth
  end.

(** ** Standard scripts *)

Definition pay_to_pub_key (payload : bytes) : sres bytes :=
  if negb (zlen payload =? 32) then Err (InvalidPublicKeyLen (zlen payload)) else Ok ([codes_OpData32] ++ payload ++ [codes_OpCheckSig]).
Definition pay_to_pub_key_ecdsa (payload : bytes) : sres bytes :=
  if negb (zlen payload =? 33) then Err (InvalidPublicKeyLen (zlen payload)) else Ok ([codes_OpData33] ++ payload ++ [codes_OpCheckSigECDSA]).
Definition pay_to_pub_key_mldsa (payload : bytes) : sres bytes :=
  if negb (zlen payload =? 1312) then Err (InvalidPublicKeyLen (zlen payload))
  else Ok ([codes_OpPushData2; 0x20; 0x05] ++ payload ++ [codes_OpCheckSigMLDSA]).
Definition pay_to_script_hash (script_hash : bytes) : sres bytes :=
  if negb (zlen script_hash =? 32) then Err (InvalidPublicKeyLen (zlen script_hash))
  else Ok ([codes_OpBlake2b; codes_OpData32] ++ script_hash ++ [codes_OpEqual]).

Definition pay_to_address_script (address : Address) : sres ScriptPublicKey :=
  let! script :=
    match a_version address with
    | PubKey => pay_to_pub_key (a_payload address)
    | PubKeyECDSA => pay_to_pub_key_ecdsa (a_payload address)
    | PubKeyMLDSA => pay_to_pub_key_mldsa (a_payload address)
    | ScriptHash => pay_to_script_hash (a_payload address)
    | Stealth => Err PubKeyFormat
    end in
  Ok (mk_spk (class_version (class_of_version (a_version address))) script).

Definition extract_script_pub_key_address (spk : ScriptPublicKey) (prefix : Prefix) : sres Address :=
  if is_stealth prefix then Err PubKeyFormat
  else
    let class := class_from_script spk in
    if class_version class <? spk_version spk then Err PubKeyFormat
    else
      let script := spk_script spk in
      match class with
      | ClassNonStandard => Err PubKeyFormat
      | ClassPubKey => let! p := slice 1 33 script in Ok (mk_address prefix PubKey p)
      | ClassPubKeyECDSA => let! p := slice 1 34 script in Ok (mk_address prefix PubKeyECDSA p)
      | ClassPubKeyMLDSA => let! p := slice 3 1315 script in Ok (mk_address prefix PubKeyMLDSA p)
      | ClassScriptHash => let! p := slice 2 34 script in Ok (mk_address prefix ScriptHash p)
      | ClassStealth => Err PubKeyFormat
      end.

Definition pay_to_script_hash_script `{Crypto} (redeem_script : bytes) : ScriptPublicKey :=
  mk_spk (class_version ClassScriptHash) ([codes_OpBlake2b; codes_OpData32] ++ blake2b_256 redeem_script ++ [codes_OpEqual]).
Definition pay_to_script_hash_signature_script (redeem_script signature : bytes) : bres bytes :=
  let! redeem_script_as_data := add_data redeem_script [] in Ok (signature ++ redeem_script_as_data).

(** ** Stealth outputs *)

(** [EphemeralOutput]: the serialized keys and the view tag. *)
Record EphemeralOutput := mk_ephemeral {
  eo_ephemeral_pubkey : bytes;
  eo_view_tag : Z;
  eo_destination_pubkey : bytes
}.
Definition ephemeral_to_bytes (o : EphemeralOutput) : bytes := eo_ephemeral_pubkey o ++ [eo_view_tag o] ++ eo_destination_pubkey o.
Definition ephemeral_from_slice `{Crypto} (bs : bytes) : sres EphemeralOutput :=
  if negb (zlen bs =? 66) then Err PubKeyFormat
  else
    let! r := slice 0 33 bs in
    if negb (ecdsa_key_valid r) then Err PubKeyFormat
    else
      let! tag := unwrap (bs !! 33%nat) in
      let! dest := slice 34 66 bs in
      if negb (xonly_key_valid dest) then Err PubKeyFormat else Ok (mk_ephemeral r tag dest).
Definition pay_to_stealth (o : EphemeralOutput) : ScriptPublicKey := mk_spk STEALTH_SCRIPT_VERSION (ephemeral_to_bytes o).
Definition extract_stealth_output `{Crypto} (spk : ScriptPublicKey) : sres EphemeralOutput :=
  if negb (spk_version spk =? STEALTH_SCRIPT_VERSION) then Err PubKeyFormat
  else if negb (zlen (spk_script spk) =? STEALTH_OUTPUT_SIZE) then Err PubKeyFormat
  else ephemeral_from_slice (spk_script spk).

(** ** Multisig *)

Inductive MultisigCreateError :=
| ErrTooManyRequiredSigs
| MultisigBuilderError (e : ScriptBuilderError)
| EmptyKeys.

(** Both redeem script functions; [check_op] is the opcode that ends the script.  The
    upper bound of [size_hint] is that of a list. *)
Definition multisig_script (check_op : Z) (pub_keys : list bytes) (required : Z) : outcome MultisigCreateError bytes :=
  if zlen pub_keys <? required then Err ErrTooManyRequiredSigs
  else
    let! script := map_err MultisigBuilderError (add_i64 required []) in
    let! script := map_err MultisigBuilderError (foldM_out (fun s k => add_data k s) script pub_keys) in
    let count := zlen pub_keys in
    if count <? required then Err ErrTooManyRequiredSigs
    else if count =? 0 then Err EmptyKeys
    else
      let! script := map_err MultisigBuilderError (add_i64 count script) in
      map_err MultisigBuilderError (add_op check_op script).
Definition multisig_redeem_script : list bytes -> Z -> outcome MultisigCreateError bytes := multisig_script codes_OpCheckMultiSig.
Definition multisig_redeem_script_ecdsa : list bytes -> Z -> outcome MultisigCreateError bytes := multisig_script codes_OpCheckMultiSigECDSA.
