(* ===== verification/ScriptNumbers.v ===== *)
(** * Script numbers: lemmas

    The encoding of integers as stack elements (crypto/txscript/src/data_stack.rs): the
    minimal encodings are in bijection with the integers of eight bytes, and decoding
    never overflows. *)

From Stdlib Require Import ZArith Lia Bool.
From stdpp Require Import base numbers list.
From S2P Require Import Prelude Tx Uint UintLemmas ScriptData.

#[local] Open Scope Z_scope.

(** ** Vectors *)

Lemma vec_pop_snoc {A} (l : list A) a : vec_pop (l ++ [a]) = Some (a, l).
Proof. unfold vec_pop. rewrite rev_app_distr. cbn. by rewrite rev_involutive. Qed.
Lemma vec_pop_None {A} (l : list A) : vec_pop l = None -> l = [].
Proof. unfold vec_pop. destruct (rev l) eqn:Hr; [|done]. intros _. apply (f_equal (@rev A)) in Hr. by rewrite rev_involutive in Hr. Qed.
Lemma vec_pop_Some {A} (l l' : list A) a : vec_pop l = Some (a, l') -> l = l' ++ [a].
Proof.
  unfold vec_pop. destruct (rev l) as [|b r] eqn:Hr; [done|]. intros [= -> <-]. apply (f_equal (@rev A)) in Hr.
  by rewrite rev_involutive in Hr.
Qed.
Lemma zlen_app {A} (a b : list A) : zlen (a ++ b) = zlen a + zlen b.
Proof. unfold zlen. rewrite length_app. lia. Qed.

(** ** Bytes *)

Lemma byte_low7 x : Z.land x 0x7f = x mod 128.
Proof. change 0x7f with (Z.ones 7). by rewrite Z.land_ones. Qed.
Lemma byte_all x : Z.land x 0xff = x mod 256.
Proof. change 0xff with (Z.ones 8). by rewrite Z.land_ones. Qed.
Lemma byte_top x : 0 <= x < 256 -> (Z.land x 0x80 =? 0) = (x <? 128).
Proof.
  intros Hx. assert (Hall : forallb (fun n => Bool.eqb (Z.land (Z.of_nat n) 0x80 =? 0) (Z.of_nat n <? 128)) (seq 0 256) = true) by (vm_compute; reflexivity).
  rewrite forallb_forall in Hall. specialize (Hall (Z.to_nat x) ltac:(apply in_seq; lia)). rewrite Z2Nat.id in Hall by lia. by apply eqb_prop.
Qed.
Lemma byte_set_top x : 0 <= x < 128 -> Z.lor x 0x80 = x + 128.
Proof.
  intros Hx. assert (Hall : forallb (fun n => Z.lor (Z.of_nat n) 0x80 =? Z.of_nat n + 128) (seq 0 128) = true) by (vm_compute; reflexivity).
  rewrite forallb_forall in Hall. specialize (Hall (Z.to_nat x) ltac:(apply in_seq; lia)). rewrite Z2Nat.id in Hall by lia. by apply Z.eqb_eq.
Qed.

Lemma of_le_bytes_snoc l b : of_le_bytes (l ++ [b]) = of_le_bytes l + b * 256 ^ zlen l.
Proof.
  unfold zlen. induction l as [|x l IH]; [cbn; lia|]. cbn [app of_le_bytes length]. rewrite IH, Nat2Z.inj_succ, Z.pow_succ_r by lia. lia.
Qed.

(** ** Magnitudes *)

(** A magnitude in its minimal encoding: the sign bit is free, and the last byte is there
    for its value or because the byte before uses the sign bit. *)
Definition minimal (v : bytes) : Prop :=
  exists v' hi, v = v' ++ [hi] /\ wf_bytes v' /\ 0 <= hi < 128 /\ (0 < hi \/ exists w b, v' = w ++ [b] /\ 128 <= b).

Lemma minimal_wf v : minimal v -> wf_bytes v.
Proof. intros (v' & hi & -> & Hw & Hh & _). apply Forall_app_2; [done|]. apply Forall_singleton. lia. Qed.

Lemma minimal_cons r v : 0 <= r < 256 -> minimal v -> minimal (r :: v).
Proof.
  intros Hr (v' & hi & -> & Hw & Hh & Hm). exists (r :: v'), hi. split; [done|]. split; [by apply Forall_cons_2|]. split; [done|].
  destruct Hm as [|(w & b & -> & Hb)]; [by left|]. right. by exists (r :: w), b.
Qed.

Lemma number_bytes_zero fuel : number_bytes fuel 0 false = [].
Proof. by destruct fuel. Qed.

Lemma number_bytes_spec k fuel m sat : 0 < m < 256 ^ Z.of_nat k -> (k + 1 <= fuel)%nat ->
  minimal (number_bytes fuel m sat) /\ of_le_bytes (number_bytes fuel m sat) = m.
Proof.
  revert fuel m sat. induction k as [|k IH]; intros fuel m sat Hm Hf; [cbn in Hm; lia|].
  destruct fuel as [|[|fuel]]; [lia|lia|]. set (f := S fuel) in *. cbn [number_bytes]. destruct (Z.eqb_spec m 0) as [|_]; [lia|].
  rewrite byte_all, Z.shiftr_div_pow2 by lia. change (2 ^ 8) with 256. pose proof (Z.mod_pos_bound m 256 ltac:(lia)) as Hr.
  pose proof (Z.div_mod m 256 ltac:(lia)) as Hdm. rewrite byte_top by done. cbn [of_le_bytes].
  destruct (decide (m / 256 = 0)) as [Hz|Hz].
  - rewrite Hz. assert (Heq : m mod 256 = m) by lia. rewrite Heq. unfold f. cbn [number_bytes]. rewrite Z.eqb_refl.
    destruct (Z.ltb_spec m 128); cbn [negb].
    + split; [|cbn; lia]. exists [], m. split; [done|]. split; [by apply Forall_nil_2|]. split; [lia|]. left. lia.
    + rewrite number_bytes_zero. split; [|cbn; lia]. exists [m], 0. split; [done|]. split; [apply Forall_singleton; lia|]. split; [lia|].
      right. by exists [], m.
  - assert (Hq : 0 < m / 256 < 256 ^ Z.of_nat k).
    { split; [pose proof (Z.div_pos m 256 ltac:(lia) ltac:(lia)); lia|]. apply Z.div_lt_upper_bound; [lia|]. rewrite Nat2Z.inj_succ, Z.pow_succ_r in Hm by lia. lia. }
    destruct (IH f (m / 256) (negb (m mod 256 <? 128)) Hq ltac:(lia)) as [Hmin Hval]. split; [by apply minimal_cons|]. rewrite Hval. lia.
Qed.

(** The length of a minimal encoding is determined by the magnitude. *)
Lemma minimal_bounds v : minimal v -> 0 < of_le_bytes v < 128 * 256 ^ (zlen v - 1) /\ (2 <= zlen v -> 128 * 256 ^ (zlen v - 2) <= of_le_bytes v).
Proof.
  intros (v' & hi & -> & Hw & Hh & Hm). rewrite of_le_bytes_snoc, zlen_app. replace (zlen v' + zlen [hi] - 1) with (zlen v') by (change (zlen [hi]) with 1; lia).
  replace (zlen v' + zlen [hi] - 2) with (zlen v' - 1) by (change (zlen [hi]) with 1; lia). pose proof (of_le_bytes_bound v' Hw) as Hb. unfold zlen in *.
  set (n := Z.of_nat (length v')) in *. assert (Hp : 0 < 256 ^ n) by (apply Z.pow_pos_nonneg; lia).
  destruct Hm as [Hpos|(w & b & -> & Hb8)].
  - split; [nia|]. intros Hn. assert (H1 : 256 ^ n = 256 * 256 ^ (n - 1)) by (rewrite <-Z.pow_succ_r by (cbn in *; lia); f_equal; lia). nia.
  - assert (Hn : n = Z.of_nat (length w) + 1) by (unfold n; rewrite length_app; cbn; lia). rewrite of_le_bytes_snoc in *. unfold zlen in *.
    apply Forall_app in Hw as [Hw _]. pose proof (of_le_bytes_bound w Hw). replace (n - 1) with (Z.of_nat (length w)) by lia.
    assert (H1 : 256 ^ n = 256 * 256 ^ Z.of_nat (length w)) by (rewrite Hn, Z.pow_add_r by lia; lia).
    assert (0 < 256 ^ Z.of_nat (length w)) by (apply Z.pow_pos_nonneg; lia). split; [nia|]. intros _. nia.
Qed.

Lemma minimal_length v1 v2 : minimal v1 -> minimal v2 -> of_le_bytes v1 = of_le_bytes v2 -> zlen v1 <= zlen v2.
Proof.
  intros H1 H2 Heq. destruct (minimal_bounds v1 H1) as [_ Hlow]. destruct (minimal_bounds v2 H2) as [Hup _].
  destruct (Z.leb_spec (zlen v1) (zlen v2)) as [|Hlt]; [done|exfalso].
  assert (Hpos : 1 <= zlen v2) by (destruct H2 as (v' & hi & -> & _); rewrite zlen_app; unfold zlen; cbn; lia).
  specialize (Hlow ltac:(lia)). assert (256 ^ (zlen v2 - 1) <= 256 ^ (zlen v1 - 2)) by (apply Z.pow_le_mono_r; lia). lia.
Qed.

Lemma minimal_inj v1 v2 : minimal v1 -> minimal v2 -> of_le_bytes v1 = of_le_bytes v2 -> v1 = v2.
Proof.
  intros H1 H2 Heq. pose proof (minimal_length v1 v2 H1 H2 Heq). pose proof (minimal_length v2 v1 H2 H1 (eq_sym Heq)).
  rewrite <-(le_bytes_of v1), <-(le_bytes_of v2), Heq by (by apply minimal_wf). f_equal. unfold zlen in *. lia.
Qed.

Lemma minimal_of m : 0 < m < U64 -> minimal (number_bytes 10 m false) /\ of_le_bytes (number_bytes 10 m false) = m.
Proof. intros Hm. apply (number_bytes_spec 8); [exact Hm|lia]. Qed.

(** ** Decoding *)

(** A signed number from its magnitude: the sign goes to the last byte. *)
Definition with_sign (neg : bool) (v : bytes) : bytes :=
  match vec_pop v with Some (hi, v') => v' ++ [if neg then hi + 128 else hi] | None => [] end.

Lemma with_sign_snoc neg v hi : with_sign neg (v ++ [hi]) = v ++ [if neg : bool then hi + 128 else hi].
Proof. unfold with_sign. by rewrite vec_pop_snoc. Qed.

Lemma check_minimal_spec v' msb : wf_bytes (v' ++ [msb]) ->
  check_minimal_data_encoding (v' ++ [msb]) = Ok tt <-> (0 < msb mod 128 \/ exists w b, v' = w ++ [b] /\ 128 <= b).
Proof.
  intros [Hv Hm]%Forall_app. rewrite Forall_singleton in Hm. unfold check_minimal_data_encoding. rewrite vec_pop_snoc, byte_low7.
  pose proof (Z.mod_pos_bound msb 128 ltac:(lia)). destruct (Z.eqb_spec (msb mod 128) 0) as [Hz|]; [|split; [intros _; left; lia|done]].
  destruct (vec_pop v') as [[b w]|] eqn:Hp.
  - apply vec_pop_Some in Hp as ->. apply Forall_app in Hv as [_ Hb]. rewrite Forall_singleton in Hb. rewrite byte_top by lia.
    destruct (Z.ltb_spec b 128); split; try done; [intros [|(w' & b' & Heq & ?)]; [lia|]; apply app_inj_2 in Heq as [_ [= <-]]; [lia|done]|].
    intros _. right. by exists w, b.
  - apply vec_pop_None in Hp as ->. split; [done|]. intros [|(w & b & Hw & _)]; [lia|]. by destruct w.
Qed.

Lemma fold_magnitude {E} rest acc : wf_bytes rest -> 0 <= acc -> (acc + 1) * 256 ^ zlen rest <= I64 ->
  foldM_out (fun accum item => @i64_add E (i64_shl accum 8) item) acc (rev rest) = Ok (acc * 256 ^ zlen rest + of_le_bytes rest).
Proof.
  revert acc. induction rest as [|b rest IH] using rev_ind; intros acc Hw Ha Hb.
  - cbn. f_equal. unfold zlen. cbn. lia.
  - apply Forall_app in Hw as [Hw Hbb]. rewrite Forall_singleton in Hbb. rewrite rev_app_distr. cbn [rev app foldM_out].
    rewrite zlen_app in *. change (zlen [b]) with 1 in *. rewrite Z.pow_add_r in Hb by (unfold zlen; lia). change (256 ^ 1) with 256 in Hb.
    assert (Hpow : 1 <= 256 ^ zlen rest) by (change 1 with (256 ^ 0); apply Z.pow_le_mono_r; unfold zlen; lia).
    assert (Hshl : i64_shl acc 8 = acc * 256).
    { unfold i64_shl. rewrite Z.shiftl_mul_pow2 by lia. change (2 ^ 8) with 256. rewrite Z.mod_small; [lia|]. nia. }
    unfold i64_add, is_i64. rewrite Hshl. assert (Hr : (- I64 <=? acc * 256 + b) && (acc * 256 + b <? I64) = true) by (apply andb_true_intro; split; [lia|nia]).
    rewrite Hr. cbn [obind]. rewrite IH; [|done|lia|nia]. f_equal. rewrite of_le_bytes_snoc, Z.pow_add_r by (unfold zlen; lia). change (256 ^ 1) with 256. lia.
Qed.

(** Decoding a non-empty element of at most eight bytes: the magnitude with its sign, or a
    rejection of an encoding that is not minimal. *)
Lemma deserialize_i64_snoc v' msb : wf_bytes (v' ++ [msb]) -> zlen (v' ++ [msb]) <= 8 ->
  let m := of_le_bytes (v' ++ [msb mod 128]) in
  (minimal (v' ++ [msb mod 128]) /\ deserialize_i64 (v' ++ [msb]) = Ok (if 128 <=? msb then - m else m)) \/
  (~ minimal (v' ++ [msb mod 128]) /\ deserialize_i64 (v' ++ [msb]) = Err NotMinimalData).
Proof.
  intros Hw Hl m. pose proof (check_minimal_spec v' msb Hw) as Hcm. apply Forall_app in Hw as [Hv Hm]. rewrite Forall_singleton in Hm.
  pose proof (Z.mod_pos_bound msb 128 ltac:(lia)) as Hmod.
  assert (Hmin : minimal (v' ++ [msb mod 128]) <-> check_minimal_data_encoding (v' ++ [msb]) = Ok tt).
  { rewrite Hcm. split.
    - intros (w & hi & Heq & _ & _ & Ho). by apply app_inj_2 in Heq as [-> [= ->]].
    - intros Ho. by exists v', (msb mod 128). }
  unfold deserialize_i64. destruct (Z.ltb_spec 8 (zlen (v' ++ [msb]))); [lia|]. rewrite vec_pop_snoc.
  destruct (check_minimal_data_encoding (v' ++ [msb])) as [[]|e| |] eqn:Hc.
  - left. split; [by apply Hmin|]. cbn [obind]. rewrite byte_low7. rewrite zlen_app in Hl. change (zlen [msb]) with 1 in Hl.
    assert (Hpow : 256 ^ zlen v' <= 256 ^ 7) by (apply Z.pow_le_mono_r; lia).
    assert (Hpos : 0 < 256 ^ zlen v') by (apply Z.pow_pos_nonneg; unfold zlen; lia).
    rewrite fold_magnitude; [|done|lia|change I64 with (128 * 256 ^ 7); nia]. cbn [obind].
    replace (msb mod 128 * 256 ^ zlen v' + of_le_bytes v') with m by (unfold m; rewrite of_le_bytes_snoc; lia).
    assert (Hb : 0 < m < I64).
    { assert (Hc' : minimal (v' ++ [msb mod 128])) by (by apply Hmin). pose proof (proj1 (minimal_bounds _ Hc')) as Hb. rewrite zlen_app in Hb. change (zlen [msb mod 128]) with 1 in Hb.
      fold m in Hb. replace (zlen v' + 1 - 1) with (zlen v') in Hb by lia. change I64 with (128 * 256 ^ 7). nia. }
    rewrite Z.shiftr_div_pow2 by lia. change (2 ^ 7) with 128. unfold i64_mul, is_i64.
    destruct (Z.leb_spec 128 msb).
    + assert (msb / 128 = 1) as -> by (symmetry; apply Z.div_unique with (msb - 128); lia).
      assert (Hr : (- I64 <=? m * (1 - 2 * 1)) && (m * (1 - 2 * 1) <? I64) = true) by (apply andb_true_intro; lia). rewrite Hr. f_equal. lia.
    + rewrite Z.div_small by lia. assert (Hr : (- I64 <=? m * (1 - 2 * 0)) && (m * (1 - 2 * 0) <? I64) = true) by (apply andb_true_intro; lia).
      rewrite Hr. f_equal. lia.
  - right. split; [intros Hx%Hmin; done|]. cbn. f_equal. revert Hc. unfold check_minimal_data_encoding. rewrite vec_pop_snoc.
    destruct (_ =? 0); [|done]. destruct (vec_pop v') as [[b w]|]; [destruct (_ =? 0)|]; congruence.
  - exfalso. revert Hc. unfold check_minimal_data_encoding. rewrite vec_pop_snoc. destruct (_ =? 0); [|done].
    destruct (vec_pop v') as [[b w]|]; [destruct (_ =? 0)|]; congruence.
  - exfalso. revert Hc. unfold check_minimal_data_encoding. rewrite vec_pop_snoc. destruct (_ =? 0); [|done].
    destruct (vec_pop v') as [[b w]|]; [destruct (_ =? 0)|]; congruence.
Qed.

(** ** Encoding *)

Lemma serialize_i64_spec {E} n : - I64 <= n < I64 -> n <> 0 ->
  exists v, minimal v /\ of_le_bytes v = Z.abs n /\ @serialize_i64 E n = Ok (with_sign (n <? 0) v).
Proof.
  intros Hn H0. destruct (minimal_of (Z.abs n)) as [Hmin Hval]; [lia|]. exists (number_bytes 10 (Z.abs n) false). split; [done|]. split; [done|].
  unfold serialize_i64. destruct Hmin as (v' & hi & -> & _ & Hh & _). rewrite vec_pop_snoc, with_sign_snoc.
  destruct (Z.ltb_spec n 0).
  - rewrite Z.sgn_neg, byte_set_top by lia. done.
  - by rewrite Z.sgn_pos by lia.
Qed.

Lemma minimal_zlen v : minimal v -> (zlen v <= 8 <-> of_le_bytes v < I64).
Proof.
  intros Hmin. destruct (minimal_bounds v Hmin) as [Hup Hlow]. change I64 with (128 * 256 ^ 7). split; intros Hx.
  - assert (256 ^ (zlen v - 1) <= 256 ^ 7) by (apply Z.pow_le_mono_r; lia). lia.
  - destruct (Z.leb_spec (zlen v) 8); [done|exfalso]. specialize (Hlow ltac:(lia)).
    assert (256 ^ 7 <= 256 ^ (zlen v - 2)) by (apply Z.pow_le_mono_r; lia). lia.
Qed.

Lemma zlen_with_sign neg v : minimal v -> zlen (with_sign neg v) = zlen v.
Proof. intros (v' & hi & -> & _). rewrite with_sign_snoc, !zlen_app. by destruct neg. Qed.

Lemma with_sign_wf neg v : minimal v -> wf_bytes (with_sign neg v).
Proof. intros (v' & hi & -> & Hw & Hh & _). rewrite with_sign_snoc. apply Forall_app_2; [done|]. apply Forall_singleton. destruct neg; lia. Qed.

(** Decoding undoes the sign. *)
Lemma deserialize_with_sign neg v : minimal v -> zlen v <= 8 ->
  deserialize_i64 (with_sign neg v) = Ok (if neg : bool then - of_le_bytes v else of_le_bytes v).
Proof.
  intros Hmin Hl. pose proof (with_sign_wf neg v Hmin) as Hw. rewrite <-(zlen_with_sign neg v Hmin) in Hl. revert Hw Hl.
  destruct Hmin as (v' & hi & -> & Hv & Hh & Ho). rewrite with_sign_snoc. intros Hw Hl.
  assert (Hmod : (if neg then hi + 128 else hi) mod 128 = hi) by (destruct neg; [rewrite <-(Z.mul_1_l 128) at 1; rewrite Z.mod_add by lia|]; by apply Z.mod_small).
  destruct (deserialize_i64_snoc v' _ Hw Hl) as [[_ ->]|[Hno _]]; rewrite Hmod in *.
  - f_equal. destruct neg; [destruct (Z.leb_spec 128 (hi + 128))|destruct (Z.leb_spec 128 hi)]; done || lia.
  - exfalso. apply Hno. by exists v', hi.
Qed.

Lemma i64_serialize_Ok n : - I64 < n < I64 ->
  exists bs, i64_serialize n = Ok bs /\ i64_deserialize bs = Ok n /\ wf_bytes bs /\ zlen bs <= 8.
Proof.
  intros Hn. unfold i64_serialize, sized_serialize, i64_deserialize, sized_deserialize. destruct (decide (n = 0)) as [->|H0].
  { exists []. split_and!; [done|done|by apply Forall_nil_2|done]. }
  destruct (serialize_i64_spec (E := SerializationError) n ltac:(lia) H0) as (v & Hmin & Hval & ->). cbn [obind].
  assert (Hl : zlen v <= 8) by (apply minimal_zlen; [done|lia]). exists (with_sign (n <? 0) v). rewrite zlen_with_sign by done.
  destruct (Z.ltb_spec 8 (zlen v)); [lia|]. split_and!; [done| |by apply with_sign_wf|done]. rewrite deserialize_with_sign by done.
  f_equal. destruct (Z.ltb_spec n 0); lia.
Qed.

Lemma i64_serialize_min : i64_serialize (- I64) = Err (NumberTooLong (- I64)).
Proof. vm_compute. reflexivity. Qed.

(** Decoding with a limit of [len] bytes: a number whose encoding is the element, or an
    error. *)
Lemma sized_deserialize_spec len bs : wf_bytes bs -> 1 <= len <= 8 ->
  (exists n, sized_deserialize len bs = Ok n /\ Z.abs n < 128 * 256 ^ (len - 1) /\ i64_serialize n = Ok bs) \/
  (exists e, sized_deserialize len bs = Err e).
Proof.
  intros Hw Hlen. unfold sized_deserialize. destruct (Z.ltb_spec len (zlen bs)) as [|Hl]; [right; by eexists|].
  destruct (vec_pop bs) as [[msb v']|] eqn:Hp.
  - apply vec_pop_Some in Hp as ->. destruct (deserialize_i64_snoc v' msb Hw ltac:(lia)) as [[Hmin ->]|[_ ->]]; [left|right; by eexists].
    set (v := v' ++ [msb mod 128]) in *. assert (Hvl : zlen v = zlen (v' ++ [msb])) by (unfold v; by rewrite !zlen_app).
    pose proof (minimal_bounds v Hmin) as [Hb _]. pose proof Hw as [_ Hmsb]%Forall_app. rewrite Forall_singleton in Hmsb.
    assert (Hpow : 256 ^ (zlen v - 1) <= 256 ^ (len - 1)) by (apply Z.pow_le_mono_r; lia).
    assert (Hsign : with_sign (128 <=? msb) v = v' ++ [msb]).
    { unfold v. rewrite with_sign_snoc. do 2 f_equal. destruct (Z.leb_spec 128 msb); [|apply Z.mod_small; lia].
      pose proof (Z.div_mod msb 128 ltac:(lia)). assert (msb / 128 = 1) by (symmetry; apply Z.div_unique with (msb - 128); lia). lia. }
    eexists. split; [done|]. split; [destruct (128 <=? msb); lia|].
    assert (Hbig : of_le_bytes v < I64) by (apply minimal_zlen; [done|lia]).
    set (n := if 128 <=? msb then - of_le_bytes v else of_le_bytes v) in *.
    destruct (serialize_i64_spec (E := SerializationError) n) as (u & Hu & Huv & Hs); [unfold n; destruct (128 <=? msb); lia|unfold n; destruct (128 <=? msb); lia|].
    assert (u = v) as -> by (apply minimal_inj; [done|done|]; rewrite Huv; unfold n; destruct (128 <=? msb); lia).
    unfold i64_serialize, sized_serialize. rewrite Hs. cbn [obind].
    assert (Hneg : (n <? 0) = (128 <=? msb)) by (unfold n; destruct (Z.leb_spec 128 msb); [apply Z.ltb_lt|apply Z.ltb_ge]; lia).
    rewrite Hneg, Hsign. destruct (Z.ltb_spec 8 (zlen (v' ++ [msb]))); [lia|done].
  - apply vec_pop_None in Hp as ->. left. exists 0. split_and!; [done|cbn; nia|done].
Qed.

Lemma i64_deserialize_spec bs : wf_bytes bs ->
  (exists n, i64_deserialize bs = Ok n /\ - I64 < n < I64 /\ i64_serialize n = Ok bs) \/ (exists e, i64_deserialize bs = Err e).
Proof.
  intros Hw. destruct (sized_deserialize_spec 8 bs Hw) as [(n & H1 & H2 & H3)|[e He]]; [lia| |right; by exists e].
  left. exists n. split; [done|]. change (128 * 256 ^ (8 - 1)) with I64 in H2. split; [lia|done].
Qed.

Lemma i32_deserialize_spec bs : wf_bytes bs ->
  (exists n, i32_deserialize bs = Ok n /\ - I32 < n < I32 /\ i64_serialize n = Ok bs) \/ (exists e, i32_deserialize bs = Err e).
Proof.
  intros Hw. unfold i32_deserialize. destruct (sized_deserialize_spec 4 bs Hw) as [(n & -> & H2 & H3)|[e ->]]; [lia| |right; by exists e].
  left. exists n. cbn [obind]. change (128 * 256 ^ (4 - 1)) with I32 in H2. unfold is_i32.
  assert (Hr : (- I32 <=? n) && (n <? I32) = true) by (apply andb_true_intro; lia). rewrite Hr. split_and!; try done; lia.
Qed.

Lemma bool_roundtrip b : bool_deserialize (bool_serialize b) = Ok b.
Proof. by destruct b. Qed.
Lemma bool_deserialize_Ok bs : exists b, bool_deserialize bs = Ok b.
Proof. unfold bool_deserialize. destruct (vec_pop bs) as [[]|]; by eexists. Qed.
