(* ===== verification/ScriptSafety.v ===== *)
(** * The script engine: safety lemmas

    Every opcode keeps the engine well formed, cannot panic, and consumes no more
    signature operations than its cost. *)

From Stdlib Require Import ZArith Lia Bool.
From stdpp Require Import base numbers list.
From S2P Require Import Prelude Tx Uint UintLemmas Header Hashing ScriptData ScriptOps ScriptEngine ScriptNumbers.

#[local] Open Scope Z_scope.

Abbreviation wf_stack := (Forall wf_bytes).

(** ** Numbers *)

Lemma number_bytes_wf fuel m sat : wf_bytes (number_bytes fuel m sat).
Proof.
  revert m sat. induction fuel as [|fuel IH]; intros m sat; cbn [number_bytes]; [apply Forall_nil_2|].
  destruct (m =? 0); [destruct sat; [apply Forall_cons_2; [lia|apply IH]|apply Forall_nil_2]|]. apply Forall_cons_2; [|apply IH].
  rewrite byte_all. apply Z.mod_pos_bound. lia.
Qed.

Lemma lor_top x : 0 <= x < 256 -> 0 <= Z.lor x 0x80 < 256.
Proof.
  intros Hx. destruct (Z.ltb_spec x 128); [rewrite byte_set_top; lia|].
  assert (Hall : forallb (fun n => (0 <=? Z.lor (Z.of_nat n) 0x80) && (Z.lor (Z.of_nat n) 0x80 <? 256)) (seq 0 256) = true) by (vm_compute; reflexivity).
  rewrite forallb_forall in Hall. specialize (Hall (Z.to_nat x) ltac:(apply in_seq; lia)). rewrite Z2Nat.id in Hall by lia. lia.
Qed.

Lemma serialize_i64_safe {E} n : safe wf_bytes (@serialize_i64 E n).
Proof.
  unfold serialize_i64. pose proof (number_bytes_wf 10 (Z.abs n) false) as Hw. destruct (Z.eqb_spec (Z.sgn n) (-1)) as [Hs|]; [|done].
  destruct (vec_pop _) as [[num rest]|] eqn:Hp; cbn.
  - apply vec_pop_Some in Hp. rewrite Hp in Hw. apply Forall_app in Hw as [Hr Hn]. rewrite Forall_singleton in Hn.
    apply Forall_app_2; [done|]. apply Forall_singleton. by apply lor_top.
  - apply vec_pop_None in Hp. cbn [number_bytes] in Hp. destruct (Z.eqb_spec (Z.abs n) 0); [|done]. lia.
Qed.

Lemma push_i64_safe n s : wf_stack s -> safe wf_stack (push_i64 n s).
Proof.
  intros Hs. unfold push_i64, i64_serialize, sized_serialize. pose proof (serialize_i64_safe (E := SerializationError) n) as Hn.
  destruct (serialize_i64 n); cbn in *; try done. destruct (_ <? _); cbn; [done|]. apply Forall_app_2; [done|]. by apply Forall_singleton.
Qed.

Lemma i64_deserialize_safe b : wf_bytes b -> safe (fun _ => True) (i64_deserialize b).
Proof. intros [(n & -> & _)|[e ->]]%i64_deserialize_spec; done. Qed.
Lemma i32_deserialize_safe b : wf_bytes b -> safe (fun n => i32_deserialize b = Ok n) (i32_deserialize b).
Proof. intros [(n & -> & _)|[e ->]]%i32_deserialize_spec; done. Qed.
Lemma bool_deserialize_safe b : safe (fun _ => True) (bool_deserialize b).
Proof. by destruct (bool_deserialize_Ok b) as [x ->]. Qed.

Lemma bool_serialize_wf b : wf_bytes (bool_serialize b).
Proof. destruct b; [apply Forall_singleton; lia|apply Forall_nil_2]. Qed.

(** ** The stack *)

Lemma push_wf s b : wf_stack s -> wf_bytes b -> wf_stack (s ++ [b]).
Proof. intros Hs Hb. apply Forall_app_2; [done|]. by apply Forall_singleton. Qed.
Lemma vec_pop_wf s b s' : wf_stack s -> vec_pop s = Some (b, s') -> wf_bytes b /\ wf_stack s'.
Proof. intros Hs ->%vec_pop_Some. apply Forall_app in Hs as [Hs Hb]. by rewrite Forall_singleton in Hb. Qed.
Lemma split_off_eq {A} size (s : list A) : (split_off size s).1 ++ (split_off size s).2 = s.
Proof. apply take_drop. Qed.

Lemma push_bool_wf s b : wf_stack s -> wf_stack (push_bool b s).
Proof. intros Hs. apply push_wf; [done|apply bool_serialize_wf]. Qed.

Create HintDb stack discriminated.
#[export] Hint Resolve push_wf push_bool_wf bool_serialize_wf : stack.

Lemma split_off_spec {A} (P : A -> Prop) size s kept items : (size <= length s)%nat -> split_off size s = (kept, items) -> Forall P s ->
  Forall P kept /\ Forall P items /\ length items = size.
Proof.
  intros Hl [= <- <-] Hs. split; [by apply Forall_take|]. split; [by apply Forall_drop|]. rewrite length_drop. lia.
Qed.

Lemma pop_raw_safe size s : wf_stack s -> safe (fun r => length r.1 = size /\ wf_stack r.1 /\ wf_stack r.2) (pop_raw size s).
Proof.
  intros Hs. unfold pop_raw. destruct (Nat.ltb_spec (length s) size); [done|]. destruct (split_off size s) as [kept items] eqn:Hsp.
  apply (split_off_spec wf_bytes) in Hsp as (? & ? & ?); done.
Qed.

Lemma pop_items_safe {T} (P : T -> Prop) (deser : bytes -> sres T) size s : wf_stack s -> (forall b, wf_bytes b -> safe P (deser b)) ->
  safe (fun r => length r.1 = size /\ Forall P r.1 /\ wf_stack r.2) (pop_items deser size s).
Proof.
  intros Hs Hd. unfold pop_items. destruct (Nat.ltb_spec (length s) size); [done|]. destruct (split_off size s) as [kept items] eqn:Hsp.
  apply (split_off_spec wf_bytes) in Hsp as (Hk & Hi & Hl); [|done..]. eapply safe_bind.
  - apply (safe_mapM P). intros b Hb. apply Hd. rewrite Forall_forall in Hi. by apply Hi.
  - cbn. intros ts [Ht HP]. split_and!; [congruence|done|done].
Qed.

Lemma arr1_safe {T E} (P : T -> Prop) l : length l = 1%nat -> Forall P l -> safe P (@arr1 T E l).
Proof. destruct l as [|a [|b l]]; try done. intros _ H. by rewrite Forall_singleton in H. Qed.
Lemma arr2_safe {T E} (P : T -> Prop) l : length l = 2%nat -> Forall P l -> safe (fun r => P r.1 /\ P r.2) (@arr2 T E l).
Proof. destruct l as [|a [|b [|c l]]]; try done. intros _ H. rewrite !Forall_cons in H. cbn. tauto. Qed.
Lemma arr3_safe {T E} (P : T -> Prop) l : length l = 3%nat -> Forall P l -> safe (fun _ => True) (@arr3 T E l).
Proof. by destruct l as [|a [|b [|c [|d l]]]]. Qed.

Lemma drop_items_safe size s : wf_stack s -> safe wf_stack (drop_items size s).
Proof. intros Hs. unfold drop_items. destruct (_ <=? _)%nat; [|done]. by apply Forall_take. Qed.
Lemma dup_items_safe size s : wf_stack s -> safe wf_stack (dup_items size s).
Proof. intros Hs. unfold dup_items. destruct (_ <=? _)%nat; [|done]. apply Forall_app_2; [done|]. by apply Forall_drop. Qed.
Lemma over_items_safe size s : wf_stack s -> safe wf_stack (over_items size s).
Proof. intros Hs. unfold over_items. destruct (_ <=? _)%nat; [|done]. apply Forall_app_2; [done|]. by apply Forall_take, Forall_drop. Qed.
Lemma drain_wf i size s : wf_stack s -> wf_stack (drain_to_top i size s).
Proof. intros Hs. repeat apply Forall_app_2; [by apply Forall_take|by apply Forall_drop|by apply Forall_take, Forall_drop]. Qed.
Lemma rot_items_safe size s : wf_stack s -> safe wf_stack (rot_items size s).
Proof. intros Hs. unfold rot_items. destruct (_ <=? _)%nat; [|done]. by apply drain_wf. Qed.
Lemma swap_items_safe size s : wf_stack s -> safe wf_stack (swap_items size s).
Proof. intros Hs. unfold swap_items. destruct (_ <=? _)%nat; [|done]. by apply drain_wf. Qed.
#[export] Hint Resolve push_i64_safe drop_items_safe dup_items_safe over_items_safe rot_items_safe swap_items_safe : stack.

(** ** The engine *)

Record engine_wf (vm : Engine) : Prop := {
  ew_dstack : wf_stack (dstack vm);
  ew_astack : wf_stack (astack vm);
  ew_num_ops : 0 <= num_ops vm <= MAX_OPS_PER_SCRIPT;
  ew_remaining : 0 <= sig_op_remaining (counter vm) <= sig_op_limit (counter vm)
}.

(** Signature operations used between two states. *)
Definition spent (vm vm' : Engine) : Z := sig_op_remaining (counter vm) - sig_op_remaining (counter vm').

(** A step that keeps the conditions and uses at most [cost] signature operations. *)
Definition step_ok (cost : Z) (vm vm' : Engine) : Prop :=
  engine_wf vm' /\ sig_op_limit (counter vm') = sig_op_limit (counter vm) /\ 0 <= spent vm vm' <= cost.

Lemma step_ok_weaken c c' vm vm' : c <= c' -> step_ok c vm vm' -> step_ok c' vm vm'.
Proof. intros Hc (? & ? & ?). split_and!; [done|done|lia|lia]. Qed.

Lemma step_ok_trans c c' vm1 vm2 vm3 : step_ok c vm1 vm2 -> step_ok c' vm2 vm3 -> step_ok (c + c') vm1 vm3.
Proof. unfold step_ok, spent. intros (? & ? & ?) (? & ? & ?). split_and!; [done|congruence|lia|lia]. Qed.

Lemma set_dstack_wf s vm : engine_wf vm -> wf_stack s -> engine_wf (set_dstack s vm).
Proof. intros [] Hs. by split. Qed.
Lemma set_dstack_ok s vm : engine_wf vm -> wf_stack s -> step_ok 0 vm (set_dstack s vm).
Proof. intros Hvm Hs. split; [by apply set_dstack_wf|]. unfold spent. cbn. split; [done|lia]. Qed.

Lemma on_dstack_ok f vm : (forall s, wf_stack s -> safe wf_stack (f s)) -> engine_wf vm -> safe (step_ok 0 vm) (on_dstack f vm).
Proof.
  intros Hf Hvm. unfold on_dstack. eapply safe_bind; [apply Hf, Hvm|]. intros s Hs. by apply set_dstack_ok.
Qed.

(** What the external hash functions and the transaction provide: bytes. *)
Class CryptoSpec `{Crypto} : Prop := {
  sha256_wf bs : wf_bytes (sha256 bs);
  blake2b_wf bs : wf_bytes (blake2b_256 bs) /\ length (blake2b_256 bs) = 32%nat
}.

Record source_wf (source : ScriptSource) : Prop := {
  sw_input tx input idx e p : source = TxInput tx input idx e p ->
    (idx < length (tx_inputs (v_tx tx)))%nat /\ (idx < length (v_entries tx))%nat /\
    Forall (fun e => wf_bytes (spk_script (ue_script_public_key e))) (v_entries tx) /\
    Forall (fun o => wf_bytes (spk_script (out_script_public_key o))) (tx_outputs (v_tx tx)) /\
    wf_bytes (in_signature_script input) /\ wf_bytes (spk_script (ue_script_public_key e)) /\
    p = is_pay_to_script_hash (spk_script (ue_script_public_key e));
  sw_scripts scripts : source = StandAloneScripts scripts -> wf_stack scripts
}.

Section Safety.
Context `{CS : CryptoSpec}.
Variable source : ScriptSource.
Hypothesis Hsource : source_wf source.

(** ** Signatures *)

Lemma calc_hash_safe {E} tx idx t r : (idx < length (tx_inputs (v_tx tx)))%nat -> (idx < length (v_entries tx))%nat ->
  safe (fun _ => True) (@calc_schnorr_signature_hash hash_fn E tx idx t r) /\ safe (fun _ => True) (@calc_ecdsa_signature_hash hash_fn E tx idx t r).
Proof using.
  intros [i Hi]%lookup_lt_is_Some [en He]%lookup_lt_is_Some.
  assert (Hc : exists res, @calc_schnorr_signature_hash hash_fn E tx idx t r = Ok res).
  { unfold calc_schnorr_signature_hash, populated_input. rewrite Hi, He. cbn [unwrap obind].
    destruct (previous_outputs_hash _ _ _ _), (sequences_hash _ _ _ _), (sig_op_counts_hash _ _ _ _), (outputs_hash _ _ _ _ _), (payload_hash _ _ _).
    by eexists. }
  destruct Hc as [[h r'] Hc]. unfold calc_ecdsa_signature_hash. by rewrite Hc.
Qed.

Lemma consume_ok vm : engine_wf vm -> safe (fun c => step_ok 1 vm (set_counter c vm)) (consume_sig_op (counter vm)).
Proof using.
  intros Hvm. unfold consume_sig_op. destruct (Z.eqb_spec (sig_op_remaining (counter vm)) 0); [done|]. cbn. pose proof Hvm as [Hd Ha Hn Hr].
  split; [split; cbn; [done|done|done|lia]|]. unfold spent. cbn. split; [done|lia].
Qed.

(** The checks touch neither stack nor conditions. *)
Definition check_post (vm : Engine) (r : bool * Engine) : Prop :=
  step_ok 1 vm r.2 /\ dstack r.2 = dstack vm /\ astack r.2 = astack vm /\ cond_stack r.2 = cond_stack vm.

Lemma cached_verify_ok key b vm0 vm : check_post vm0 (b, vm) -> check_post vm0 (cached_verify key b vm).
Proof using.
  unfold cached_verify. destruct (cache_get _ _) as [v|]; intros ((Hw & Hl & Hs) & Hd & Ha & Hc); (split; [split|]); try done.
  destruct Hw. by split.
Qed.

Definition checks_ok (check : Z -> bytes -> bytes -> Engine -> sres (bool * Engine)) : Prop :=
  forall t key sig vm, engine_wf vm -> safe (check_post vm) (check t key sig vm).

Lemma set_reused_post vm c r b : step_ok 1 vm (set_counter c vm) -> check_post vm (b, set_reused r (set_counter c vm)).
Proof using. intros ([] & ? & ?). split; [|done]. split; [by split|]. done. Qed.

Lemma check_schnorr_ok : checks_ok (check_schnorr_signature source).
Proof using Hsource.
  intros t key sig vm Hvm. unfold check_schnorr_signature. eapply safe_bind; [by apply consume_ok|]. intros c Hc.
  destruct source as [tx input idx e p|]; [|done]. destruct (negb _); [done|]. unfold check_pub_key_encoding.
  destruct (_ =? _); [|done]. cbn [obind]. destruct (negb _); [done|]. destruct (negb _); [done|].
  destruct (sw_input _ Hsource _ _ _ _ _ eq_refl) as (Hi & He & _).
  eapply safe_bind; [by apply (calc_hash_safe (E := TxScriptError))|]. intros [msg r] _. cbn. apply cached_verify_ok. by apply set_reused_post.
Qed.

Lemma check_ecdsa_ok : checks_ok (check_ecdsa_signature source).
Proof using Hsource.
  intros t key sig vm Hvm. unfold check_ecdsa_signature. eapply safe_bind; [by apply consume_ok|]. intros c Hc.
  destruct source as [tx input idx e p|]; [|done]. destruct (negb _); [done|]. unfold check_pub_key_encoding_ecdsa.
  destruct (_ =? _); [|done]. cbn [obind]. destruct (negb _); [done|]. destruct (negb _); [done|].
  destruct (sw_input _ Hsource _ _ _ _ _ eq_refl) as (Hi & He & _).
  eapply safe_bind; [by apply (calc_hash_safe (E := TxScriptError))|]. intros [msg r] _. cbn. apply cached_verify_ok. by apply set_reused_post.
Qed.

Lemma check_mldsa_ok : checks_ok (check_mldsa_signature source).
Proof using Hsource.
  intros t key sig vm Hvm. unfold check_mldsa_signature. eapply safe_bind; [by apply consume_ok|]. intros c Hc.
  destruct source as [tx input idx e p|]; [|done]. destruct (negb _); [done|]. destruct (negb _); [done|].
  destruct (sw_input _ Hsource _ _ _ _ _ eq_refl) as (Hi & He & _).
  eapply safe_bind; [by apply (calc_hash_safe (E := TxScriptError))|]. intros [msg r] _. cbn. by apply set_reused_post.
Qed.

Lemma hash_type_of_safe t : safe (fun _ => True) (hash_type_of t).
Proof using. unfold hash_type_of. by destruct (sig_hash_type_from_u8 t). Qed.

Lemma op_check_sig_ok check vm : checks_ok check -> engine_wf vm -> safe (step_ok 1 vm) (op_check_sig check vm).
Proof using.
  intros Hck Hvm. unfold op_check_sig. eapply safe_bind; [apply pop_raw_safe, Hvm|]. intros [items s] (Hl & Hi & Hs).
  eapply safe_bind; [by apply (arr2_safe wf_bytes)|]. intros [sig key] [Hsig Hkey]. cbn in Hs.
  pose proof (set_dstack_ok s vm Hvm Hs) as H0. pose proof (proj1 H0) as Hwf.
  destruct (vec_pop sig) as [[typ sig']|]; cbn [obind].
  - eapply safe_bind; [apply hash_type_of_safe|]. intros t _. eapply safe_bind; [by apply Hck|].
    intros [valid vm'] (Hst & Hd & _). cbn in *. rewrite Hd. change 1 with (0 + 1 + 0).
    eapply step_ok_trans; [eapply step_ok_trans; [exact H0|exact Hst]|]. apply set_dstack_ok; [apply Hst|by apply push_bool_wf].
  - cbn [safe]. apply (step_ok_weaken (0 + 0)); [lia|]. eapply step_ok_trans; [exact H0|]. apply set_dstack_ok; [done|by apply push_bool_wf].
Qed.

(** ** Multisig *)

Lemma multisig_keys_ok check needed keys vm : (forall k vm, engine_wf vm -> safe (check_post vm) (check k vm)) -> (0 < needed)%nat -> engine_wf vm ->
  safe (fun r => (match r.1 with Some ks => step_ok (zlen keys - zlen ks) vm r.2 /\ (needed <= S (length ks))%nat | None => step_ok (zlen keys) vm r.2 end) /\
    dstack r.2 = dstack vm) (multisig_keys check needed keys vm).
Proof using.
  intros Hck Hn. revert vm. induction keys as [|k keys IH]; intros vm Hvm; cbn [multisig_keys].
  - destruct (Nat.ltb_spec (length (@nil bytes)) needed); [|cbn in *; lia]. cbn. split; [|done]. apply (step_ok_weaken 0); [done|].
    split; [done|]. unfold spent. split; [done|lia].
  - destruct (Nat.ltb_spec (length (k :: keys)) needed).
    { cbn. split; [|done]. apply (step_ok_weaken 0); [unfold zlen; lia|]. split; [done|]. unfold spent. split; [done|lia]. }
    eapply safe_bind; [by apply Hck|]. intros [valid vm'] (Hst & Hd & _). cbn in Hst, Hd.
    assert (Hz : zlen (k :: keys) = 1 + zlen keys) by (unfold zlen; cbn; lia). destruct valid.
    + cbn. split; [|done]. split; [|cbn in *; lia]. eapply step_ok_weaken; [|exact Hst]. lia.
    + eapply safe_weaken; [apply IH; apply Hst|]. intros [rest vm''] [Hr Hd']. cbn in *. split; [|congruence].
      destruct rest as [ks|]; [destruct Hr as [Hr ?]; split; [|done]; replace (zlen (k :: keys) - zlen ks) with (1 + (zlen keys - zlen ks)) by lia|rewrite Hz];
        by eapply step_ok_trans.
Qed.

Lemma multisig_loop_ok check sigs keys vm : checks_ok check -> engine_wf vm ->
  safe (fun r => step_ok (zlen keys) vm r.2 /\ dstack r.2 = dstack vm) (multisig_loop check sigs keys vm).
Proof using.
  intros Hck. revert keys vm. induction sigs as [|sig sigs IH]; intros keys vm Hvm; cbn [multisig_loop].
  - cbn. split; [|done]. apply (step_ok_weaken 0); [unfold zlen; lia|]. split; [done|]. unfold spent. split; [done|lia].
  - destruct (vec_pop sig) as [[typ sg]|].
    + eapply safe_bind; [apply hash_type_of_safe|]. intros t _. eapply safe_bind; [apply (multisig_keys_ok (fun key => check t key sg)); [by intros; apply Hck|cbn; lia|done]|].
      intros [[ks|] vm'] [Hr Hd]; cbn in Hr, Hd; [|done]. destruct Hr as [Hr _]. eapply safe_weaken; [apply IH, Hr|].
      intros [failed vm''] [Hr' Hd']. cbn in *. split; [|congruence]. replace (zlen keys) with (zlen keys - zlen ks + zlen ks) by lia. by eapply step_ok_trans.
    + cbn. split; [|done]. apply (step_ok_weaken 0); [unfold zlen; lia|]. split; [done|]. unfold spent. split; [done|lia].
Qed.

(** The number of keys a multisig would use: the number on top of the stack. *)
Definition top_number (s : Stack) : Z :=
  match last s with
  | Some b => match i32_deserialize b with Ok n => n | _ => 0 end
  | None => 0
  end.

Lemma pop_top s : wf_stack s ->
  safe (fun r => exists n, r.1 = [n] /\ n = top_number s /\ wf_stack r.2) (pop_items i32_deserialize 1 s).
Proof using.
  intros Hs. unfold pop_items, split_off. destruct (Nat.ltb_spec (length s) 1) as [|Hl]; [done|].
  destruct s as [|b s' _] using rev_ind; [cbn in Hl; lia|]. rewrite length_app. cbn [length]. replace (length s' + 1 - 1)%nat with (length s') by lia.
  rewrite take_app_length, drop_app_length. apply Forall_app in Hs as [Hs Hb]. rewrite Forall_singleton in Hb. cbn [mapM_out]. unfold top_number. rewrite last_snoc.
  destruct (i32_deserialize_spec b Hb) as [(n & Hn & _)|[e He]]; [rewrite Hn|by rewrite He]. cbn. by exists n.
Qed.

Lemma add_num_ops_ok n vm : 0 <= n <= MAX_PUB_KEYS_PER_MUTLTISIG -> engine_wf vm -> safe (fun vm' => step_ok 0 vm vm' /\ vm' = set_num_ops (num_ops vm + n) vm) (add_num_ops n vm).
Proof using.
  unfold MAX_PUB_KEYS_PER_MUTLTISIG. intros Hn Hvm. pose proof Hvm as [Hd Ha Ho Hr]. unfold add_num_ops, is_i32, MAX_OPS_PER_SCRIPT in *.
  assert (Hi : (- I32 <=? num_ops vm + n) && (num_ops vm + n <? I32) = true) by (apply andb_true_intro; lia). rewrite Hi.
  destruct (Z.ltb_spec 201 (num_ops vm + n)); [done|]. cbn. split; [|done]. split; [split; cbn; [done|done|unfold MAX_OPS_PER_SCRIPT; lia|done]|].
  unfold spent. cbn. split; [done|lia].
Qed.

Lemma op_check_multisig_ok ecdsa vm : engine_wf vm -> 
  safe (step_ok (Z.min (top_number (dstack vm)) MAX_PUB_KEYS_PER_MUTLTISIG) vm) (op_check_multisig_schnorr_or_ecdsa source ecdsa vm).
Proof using Hsource.
  intros Hvm. unfold op_check_multisig_schnorr_or_ecdsa. eapply safe_bind; [apply pop_top, Hvm|]. intros [ns s] (n & Hns & Hn & Hs). cbn in Hns, Hs. subst ns. cbn [arr1 obind].
  rewrite <-Hn. destruct (Z.ltb_spec n 0) as [|Hn0]; [done|]. destruct (Z.ltb_spec MAX_PUB_KEYS_PER_MUTLTISIG n) as [|Hn20]; [done|].
  rewrite Z.min_l by done. pose proof (set_dstack_ok s vm Hvm Hs) as H1. eapply safe_bind; [apply add_num_ops_ok; [lia|apply H1]|]. intros vm2 [H2 Hvm2].
  assert (Hd2 : dstack vm2 = s) by (by rewrite Hvm2). rewrite Hd2. destruct (Nat.ltb_spec (length s) (Z.to_nat n)) as [|Hl]; [done|].
  destruct (split_off (Z.to_nat n) s) as [s3 keys] eqn:Hsp. apply (split_off_spec wf_bytes) in Hsp as (Hs3 & Hk & Hkl); [|done..].
  eapply safe_bind; [by apply pop_top|]. intros [ns s4] (m & Hns & _ & Hs4). cbn in Hns, Hs4. subst ns. cbn [arr1 obind].
  destruct (m <? 0); [done|]. destruct (n <? m); [done|]. cbn [set_dstack dstack].
  destruct (Nat.ltb_spec (length s4) (Z.to_nat m)) as [|Hl4]; [done|]. destruct (split_off (Z.to_nat m) s4) as [s5 sigs] eqn:Hsp.
  apply (split_off_spec wf_bytes) in Hsp as (Hs5 & Hsg & _); [|done..]. pose proof (set_dstack_ok s5 vm2 (proj1 H2) Hs5) as H3.
  eapply safe_bind; [apply (multisig_loop_ok (if ecdsa then check_ecdsa_signature source else check_schnorr_signature source));
    [destruct ecdsa; [apply check_ecdsa_ok|apply check_schnorr_ok]|apply H3]|].
  intros [failed vm6] [H6 Hd6]. cbn in H6, Hd6. destruct (failed && _); [done|]. cbn [safe]. rewrite Hd6.
  assert (Hz : zlen keys = n) by (unfold zlen; lia). rewrite Hz in H6.
  replace n with (0 + 0 + 0 + n + 0) by lia. eapply step_ok_trans; [|apply set_dstack_ok; [apply H6|by apply push_bool_wf]].
  eapply step_ok_trans; [|exact H6]. eapply step_ok_trans; [|exact H3]. eapply step_ok_trans; [exact H1|exact H2].
Qed.
(** ** Opcodes *)

Lemma unary_op_ok f vm : (forall a, safe (fun _ => True) (f a)) -> engine_wf vm -> safe (step_ok 0 vm) (unary_op f vm).
Proof using.
  intros Hf. apply on_dstack_ok. intros s Hs. eapply safe_bind; [apply (pop_items_safe (fun _ => True)); [done|apply i64_deserialize_safe]|].
  intros [ns s'] (Hl & Hn & Hs'). eapply safe_bind; [by apply (arr1_safe (fun _ => True))|]. intros a _. eapply safe_bind; [apply Hf|]. intros r _. by apply push_i64_safe.
Qed.
Lemma binary_op_ok f vm : (forall a b, safe (fun _ => True) (f a b)) -> engine_wf vm -> safe (step_ok 0 vm) (binary_op f vm).
Proof using.
  intros Hf. apply on_dstack_ok. intros s Hs. eapply safe_bind; [apply (pop_items_safe (fun _ => True)); [done|apply i64_deserialize_safe]|].
  intros [ns s'] (Hl & Hn & Hs'). eapply safe_bind; [by apply (arr2_safe (fun _ => True))|]. intros [a b] _. eapply safe_bind; [apply Hf|]. intros r _. by apply push_i64_safe.
Qed.
Lemma ternary_op_ok f vm : (forall a b c, safe (fun _ => True) (f a b c)) -> engine_wf vm -> safe (step_ok 0 vm) (ternary_op f vm).
Proof using.
  intros Hf. apply on_dstack_ok. intros s Hs. eapply safe_bind; [apply (pop_items_safe (fun _ => True)); [done|apply i64_deserialize_safe]|].
  intros [ns s'] (Hl & Hn & Hs'). eapply safe_bind; [by apply (arr3_safe (fun _ => True))|]. intros [[a b] c] _. eapply safe_bind; [apply Hf|]. intros r _. by apply push_i64_safe.
Qed.
Lemma checked_safe n : safe (fun _ => True) (checked n).
Proof using. unfold checked. by destruct (is_i64 n). Qed.

Lemma op_verify_ok vm : engine_wf vm -> safe (step_ok 0 vm) (op_verify vm).
Proof using.
  apply on_dstack_ok. intros s Hs. eapply safe_bind; [apply (pop_items_safe (fun _ => True)); [done|by intros; apply bool_deserialize_safe]|].
  intros [bs s'] (Hl & Hb & Hs'). eapply safe_bind; [by apply (arr1_safe (fun _ => True))|]. intros [] _; done.
Qed.
Lemma hash_op_ok f vm : (forall b, wf_bytes (f b)) -> engine_wf vm -> safe (step_ok 0 vm) (hash_op f vm).
Proof using.
  intros Hf. apply on_dstack_ok. intros s Hs. eapply safe_bind; [by apply pop_raw_safe|]. intros [items s'] (Hl & Hi & Hs').
  eapply safe_bind; [by apply (arr1_safe wf_bytes)|]. intros b Hb. cbn. auto with stack.
Qed.

Lemma set_cond_ok cs vm : engine_wf vm -> step_ok 0 vm (set_cond_stack cs vm).
Proof using. intros []. split; [by split|]. unfold spent. cbn. split; [done|lia]. Qed.
Lemma step_ok_refl vm : engine_wf vm -> step_ok 0 vm vm.
Proof using. intros Hvm. split; [done|]. unfold spent. split; [done|lia]. Qed.

Lemma op_if_ok a b vm : engine_wf vm -> safe (step_ok 0 vm) (op_if a b vm).
Proof using.
  intros Hvm. unfold op_if. destruct (is_executing vm); [|by apply set_cond_ok]. destruct (vec_pop (dstack vm)) as [[buf s]|] eqn:Hp; [|done].
  apply vec_pop_wf in Hp as [_ Hs]; [|apply Hvm]. destruct (1 <? zlen buf); [done|].
  eapply (safe_bind (fun _ => True)); [destruct (vec_pop buf) as [[c ?]|]; [by destruct (c =? 1)|done]|]. intros cond _. cbn.
  change 0 with (0 + 0). eapply step_ok_trans; [by apply set_dstack_ok|]. apply set_cond_ok. by apply set_dstack_wf.
Qed.
Lemma op_else_ok vm : engine_wf vm -> safe (step_ok 0 vm) (op_else vm).
Proof using. intros Hvm. unfold op_else. destruct (vec_pop _) as [[]|]; [|done]. by apply set_cond_ok. Qed.
Lemma op_end_if_ok vm : engine_wf vm -> safe (step_ok 0 vm) (op_end_if vm).
Proof using. intros Hvm. unfold op_end_if. destruct (vec_pop _) as [[]|]; [|done]. by apply set_cond_ok. Qed.

Lemma op_to_alt_ok vm : engine_wf vm -> safe (step_ok 0 vm) (op_to_alt_stack vm).
Proof using.
  intros Hvm. unfold op_to_alt_stack. eapply safe_bind; [apply pop_raw_safe, Hvm|]. intros [items s] (Hl & Hi & Hs).
  eapply safe_bind; [by apply (arr1_safe wf_bytes)|]. intros item Hit. cbn. destruct Hvm as [Hd Ha Hn Hr]. split; [split; cbn; [done|by apply push_wf|done|done]|].
  unfold spent. cbn. split; [done|lia].
Qed.
Lemma op_from_alt_ok vm : engine_wf vm -> safe (step_ok 0 vm) (op_from_alt_stack vm).
Proof using.
  intros Hvm. unfold op_from_alt_stack. destruct (vec_pop (astack vm)) as [[item s]|] eqn:Hp; [|done]. apply vec_pop_wf in Hp as [Hi Hs]; [|apply Hvm].
  destruct Hvm as [Hd Ha Hn Hr]. cbn. split; [split; cbn; [by apply push_wf|done|done|done]|]. unfold spent. cbn. split; [done|lia].
Qed.

Lemma last_wf s b : wf_stack s -> last s = Some b -> wf_bytes b.
Proof using. intros Hs Hl. apply last_Some in Hl as [s' ->]. apply Forall_app in Hs as [_ Hb]. by rewrite Forall_singleton in Hb. Qed.

Lemma op_if_dup_ok vm : engine_wf vm -> safe (step_ok 0 vm) (op_if_dup vm).
Proof using.
  apply on_dstack_ok. intros s Hs. unfold peek_raw. destruct (Nat.ltb_spec (length s) 1); [done|]. cbn [obind]. eapply safe_bind.
  - apply (arr1_safe wf_bytes); [cbn; rewrite length_drop; lia|by apply Forall_drop].
  - intros r Hr. eapply safe_bind; [apply bool_deserialize_safe|]. intros [] _; cbn; auto with stack.
Qed.
Lemma op_nip_ok vm : engine_wf vm -> safe (step_ok 0 vm) (op_nip vm).
Proof using.
  apply on_dstack_ok. intros s Hs. destruct (2 <=? length s)%nat; [|done]. cbn. apply Forall_app_2; [by apply Forall_take|by apply Forall_drop].
Qed.
Lemma op_tuck_ok vm : engine_wf vm -> safe (step_ok 0 vm) (op_tuck vm).
Proof using.
  apply on_dstack_ok. intros s Hs. destruct (Nat.leb_spec 2 (length s)); [|done]. destruct (last s) as [b|] eqn:Hl.
  - cbn. apply Forall_app_2; [by apply Forall_take|]. apply Forall_cons_2; [by eapply last_wf|by apply Forall_drop].
  - apply last_None in Hl. subst. cbn in *. lia.
Qed.
Lemma located_safe s : wf_stack s -> safe (fun r => wf_bytes r.1.2 /\ wf_stack r.2) (located s).
Proof using.
  intros Hs. unfold located. eapply safe_bind; [by apply pop_top|]. intros [ns s'] (n & Hn & _ & Hs'). cbn in Hn, Hs'. subst ns. cbn [arr1 obind].
  destruct (Z.ltb_spec n 0); [done|]. destruct (Z.leb_spec (zlen s') n); [done|]. cbn [orb]. unfold zlen in *.
  destruct (lookup_lt_is_Some_2 s' (length s' - Z.to_nat n - 1)) as [item Hi]; [lia|]. rewrite Hi. cbn. split; [|done].
  rewrite Forall_lookup in Hs'. by eapply Hs'.
Qed.
Lemma op_pick_ok vm : engine_wf vm -> safe (step_ok 0 vm) (op_pick vm).
Proof using.
  apply on_dstack_ok. intros s Hs. eapply safe_bind; [by apply located_safe|]. intros [[i item] s'] [Hi Hs']. cbn in *. auto with stack.
Qed.
Lemma op_roll_ok vm : engine_wf vm -> safe (step_ok 0 vm) (op_roll vm).
Proof using.
  apply on_dstack_ok. intros s Hs. eapply safe_bind; [by apply located_safe|]. intros [[i item] s'] [Hi Hs']. cbn in *.
  repeat apply Forall_app_2; [by apply Forall_take|by apply Forall_drop|by apply Forall_singleton].
Qed.
Lemma op_size_ok vm : engine_wf vm -> safe (step_ok 0 vm) (op_size vm).
Proof using. apply on_dstack_ok. intros s Hs. destruct (last s); [|done]. destruct (is_i64 _); [|done]. by apply push_i64_safe. Qed.
Lemma op_equal_ok vm : engine_wf vm -> safe (step_ok 0 vm) (op_equal vm) /\ safe (step_ok 0 vm) (op_equal_verify vm).
Proof using.
  intros Hvm. split; (apply on_dstack_ok; [|done]); intros s Hs; (destruct (Nat.leb_spec 2 (length s)); [|done]);
    destruct (split_off 2 s) as [s' two] eqn:Hsp; (apply (split_off_spec wf_bytes) in Hsp as (Hs' & Ht & Hl); [|done..]);
    (eapply safe_bind; [by apply (arr2_safe wf_bytes)|]); intros [a b] _; case_bool_decide; cbn; try done.
  - apply push_wf; [done|]. apply Forall_singleton. lia.
  - apply push_wf; [done|]. apply Forall_nil_2.
Qed.
Lemma op_num_equal_verify_ok vm : engine_wf vm -> safe (step_ok 0 vm) (op_num_equal_verify vm).
Proof using.
  apply on_dstack_ok. intros s Hs. eapply safe_bind; [apply (pop_items_safe (fun _ => True)); [done|apply i64_deserialize_safe]|].
  intros [ns s'] (Hl & Hn & Hs'). eapply safe_bind; [by apply (arr2_safe (fun _ => True))|]. intros [a b] _. by destruct (a =? b).
Qed.

Lemma pop_lock_time_safe s : wf_stack s -> safe (fun r => wf_stack r.2) (pop_lock_time s).
Proof using.
  intros Hs. unfold pop_lock_time. eapply safe_bind; [by apply pop_raw_safe|]. intros [items s'] (Hl & Hi & Hs').
  eapply safe_bind; [by apply (arr1_safe wf_bytes)|]. intros item _. by destruct (8 <? zlen item).
Qed.
Lemma op_cltv_ok vm : engine_wf vm -> safe (step_ok 0 vm) (op_check_lock_time_verify source vm).
Proof using Hsource.
  intros Hvm. unfold op_check_lock_time_verify. destruct source; [|done]. eapply safe_bind; [apply pop_lock_time_safe, Hvm|]. intros [t s] Hs.
  repeat match goal with |- context [if ?b then _ else _] => destruct b; [done|] end. by apply set_dstack_ok.
Qed.
Lemma op_csv_ok vm : engine_wf vm -> safe (step_ok 0 vm) (op_check_sequence_verify source vm).
Proof using Hsource.
  intros Hvm. unfold op_check_sequence_verify. destruct source; [|done]. eapply safe_bind; [apply pop_lock_time_safe, Hvm|]. intros [t s] Hs.
  destruct (negb _); [by apply set_dstack_ok|]. repeat match goal with |- context [if ?b then _ else _] => destruct b; [done|] end. by apply set_dstack_ok.
Qed.

Lemma push_number_ok n vm : engine_wf vm -> safe (step_ok 0 vm) (push_number n vm).
Proof using. apply on_dstack_ok. auto with stack. Qed.
Lemma op_tx_number_ok f vm : engine_wf vm -> safe (step_ok 0 vm) (op_tx_number source f vm).
Proof using Hsource. intros Hvm. unfold op_tx_number. destruct source; [by apply push_number_ok|done]. Qed.
Lemma op_tx_indexed_ok {A} (P : A -> Prop) items err k vm :
  (forall tx input idx e p, source = TxInput tx input idx e p -> Forall P (items tx)) ->
  (forall a s, P a -> wf_stack s -> safe wf_stack (k a s)) -> engine_wf vm -> safe (step_ok 0 vm) (op_tx_indexed source items err k vm).
Proof using Hsource.
  intros HP Hk Hvm. unfold op_tx_indexed. destruct source as [tx input idx e p|]; [|done]. apply on_dstack_ok; [|done]. intros s Hs.
  eapply safe_bind; [by apply pop_top|]. intros [ns s'] (n & Hn & _ & Hs'). cbn in Hn, Hs'. subst ns. cbn [arr1 obind].
  destruct (get_at (items tx) n) as [a|] eqn:Ha; [|done]. apply Hk; [|done]. unfold get_at in Ha. destruct (n <? 0); [done|].
  specialize (HP _ _ _ _ _ eq_refl). rewrite Forall_lookup in HP. by eapply HP.
Qed.
Lemma push_amount_safe n s : wf_stack s -> safe wf_stack (push_amount n s).
Proof using. intros Hs. unfold push_amount. destruct (n <? I64); [by apply push_i64_safe|done]. Qed.
Lemma spk_to_bytes_wf spk : wf_bytes (spk_script spk) -> wf_bytes (spk_to_bytes spk).
Proof using. intros Hw. apply Forall_app_2; [apply Forall_rev, le_bytes_wf|done]. Qed.

(** The signature operations an opcode may use on a stack. *)
Definition op_cost (op : OpCode) (s : Stack) : Z :=
  match op_name op with
  | OpCheckSig | OpCheckSigVerify | OpCheckSigECDSA | OpCheckSigMLDSA => 1
  | OpCheckMultiSig | OpCheckMultiSigVerify | OpCheckMultiSigECDSA => Z.min (top_number s) MAX_PUB_KEYS_PER_MUTLTISIG
  | _ => 0
  end.

#[local] Hint Resolve on_dstack_ok unary_op_ok binary_op_ok ternary_op_ok checked_safe op_verify_ok hash_op_ok op_if_ok op_else_ok op_end_if_ok
  op_to_alt_ok op_from_alt_ok op_if_dup_ok op_nip_ok op_tuck_ok op_pick_ok op_roll_ok op_size_ok op_num_equal_verify_ok op_cltv_ok op_csv_ok
  push_number_ok op_tx_number_ok step_ok_refl check_schnorr_ok check_ecdsa_ok check_mldsa_ok op_check_sig_ok op_check_multisig_ok
  sha256_wf push_amount_safe : stack.

Lemma op_execute_ok op vm : wf_bytes (op_data op) -> engine_wf vm -> safe (step_ok (op_cost op (dstack vm)) vm) (op_execute source op vm).
Proof using Hsource CS.
  intros Hd Hvm. unfold op_execute, op_cost. destruct (op_name op); try done; try (auto with stack; fail).
  all: try (apply unary_op_ok || apply binary_op_ok || apply ternary_op_ok; [done|done]).
  all: try (apply op_equal_ok; done).
  all: try (apply on_dstack_ok; [intros s Hs; by (apply push_wf || apply push_i64_safe)|done]).
  - apply on_dstack_ok; [|done]. intros s Hs. apply push_wf; [done|apply Forall_nil_2].
  - by apply step_ok_refl.
  - apply hash_op_ok; [apply blake2b_wf|done].
  - replace 1 with (1 + 0) by lia. eapply safe_bind; [apply op_check_sig_ok; [apply check_schnorr_ok|done]|]. intros vm' H1.
    eapply safe_weaken; [apply op_verify_ok, H1|]. intros vm'' H2. by eapply step_ok_trans.
  - rewrite <-(Z.add_0_r (Z.min _ _)). eapply safe_bind; [by apply op_check_multisig_ok|]. intros vm' H1.
    eapply safe_weaken; [apply op_verify_ok, H1|]. intros vm'' H2. by eapply step_ok_trans.
  - apply (op_tx_indexed_ok (fun _ => True)); [|auto with stack|done]. intros. by apply Forall_true.
  - apply (op_tx_indexed_ok (fun e => wf_bytes (spk_script (ue_script_public_key e)))); [|intros e s He Hs; apply push_wf; [done|by apply spk_to_bytes_wf]|done].
    intros. by eapply sw_input.
  - apply (op_tx_indexed_ok (fun _ => True)); [|auto with stack|done]. intros. by apply Forall_true.
  - apply (op_tx_indexed_ok (fun o => wf_bytes (spk_script (out_script_public_key o)))); [|intros e s He Hs; apply push_wf; [done|by apply spk_to_bytes_wf]|done].
    intros. by eapply sw_input.
Qed.
End Safety.
