(* ===== verification/ScriptCount.v ===== *)
(** * Running scripts: safety and the static count of signature operations

    Whole scripts keep the engine well formed, and a successful run uses no more
    signature operations than the static count allows. *)

From Stdlib Require Import ZArith Lia Bool.
From stdpp Require Import base numbers list.
From S2P Require Import Prelude Tx Uint UintLemmas Header Hashing ScriptData ScriptOps ScriptEngine ScriptNumbers ScriptSafety.

#[local] Open Scope Z_scope.

(** ** Parsing *)

Definition parsed_wf (r : sres OpCode) : Prop := safe (fun op => wf_bytes (op_data op)) r.

Lemma deserialize_next_wf it op it' : wf_bytes it -> deserialize_next_opcode it = Some (op, it') -> parsed_wf op /\ wf_bytes it' /\ (length it' < length it)%nat.
Proof.
  intros Hw. destruct it as [|code it]; [done|]. apply Forall_cons in Hw as [_ Hw]. cbn [deserialize_next_opcode].
  assert (Hfix : forall n op it', deserialize_fixed code n it = (op, it') -> parsed_wf op /\ wf_bytes it' /\ (length it' < length (code :: it))%nat).
  { intros n o i. unfold deserialize_fixed. destruct (_ =? _); intros [= <- <-]; cbn.
    - split; [by apply Forall_take|]. split; [by apply Forall_drop|]. rewrite length_drop. lia.
    - split; [done|]. split; [apply Forall_nil_2|lia]. }
  assert (Hvar : forall n op it', deserialize_var code n it = (op, it') -> parsed_wf op /\ wf_bytes it' /\ (length it' < length (code :: it))%nat).
  { intros n o i. unfold deserialize_var. destruct (_ =? _); [destruct (_ =? _)|]; intros [= <- <-]; cbn.
    - split; [by apply Forall_take, Forall_drop|]. split; [by apply Forall_drop, Forall_drop|]. rewrite !length_drop. lia.
    - split; [done|]. split; [apply Forall_nil_2|lia].
    - split; [done|]. split; [apply Forall_nil_2|lia]. }
  intros [= Heq]. destruct (op_of_code code); eauto.
Qed.

Lemma parse_loop_wf fuel it : wf_bytes it -> Forall parsed_wf (parse_loop fuel it).
Proof.
  revert it. induction fuel as [|fuel IH]; intros it Hw; cbn [parse_loop]; [apply Forall_nil_2|].
  destruct (deserialize_next_opcode it) as [[op it']|] eqn:Hd; [|apply Forall_nil_2]. apply deserialize_next_wf in Hd as (Hop & Hit & _); [|done].
  apply Forall_cons_2; [done|by apply IH].
Qed.
Lemma parse_script_wf script : wf_bytes script -> Forall parsed_wf (parse_script script).
Proof. apply parse_loop_wf. Qed.

(** More fuel than the length changes nothing. *)
Lemma parse_loop_fuel fuel it : (length it <= fuel)%nat -> parse_loop fuel it = parse_script it.
Proof.
  unfold parse_script. revert it. assert (Hgen : forall f1 f2 it, (length it <= f1)%nat -> (length it <= f2)%nat -> parse_loop f1 it = parse_loop f2 it).
  { induction f1 as [|f1 IH]; intros [|f2] it H1 H2; cbn [parse_loop]; [done|destruct it; [done|cbn in H1, H2; lia]..|].
    destruct (deserialize_next_opcode it) as [[op it']|] eqn:Hd; [|done]. f_equal.
    assert (Hlt : (length it' < length it)%nat); [|apply IH; lia].
    clear -Hd. destruct it as [|c it]; [done|]. cbn [deserialize_next_opcode] in Hd. injection Hd as Hd. cbn [length].
    assert (Hf : forall n, (length (deserialize_fixed c n it).2 <= length it)%nat) by
      (intros n; unfold deserialize_fixed; destruct (_ =? _); cbn; rewrite ?length_drop; lia).
    assert (Hv : forall n, (length (deserialize_var c n it).2 <= length it)%nat) by
      (intros n; unfold deserialize_var; destruct (_ =? _); [destruct (_ =? _)|]; cbn; rewrite ?length_drop; lia).
    apply (f_equal snd) in Hd. cbn in Hd. subst it'. destruct (op_of_code c); apply Nat.lt_succ_r; auto. }
  intros it Hl. apply Hgen; lia.
Qed.

Lemma parse_script_cons c it : parse_script (c :: it) =
  match deserialize_next_opcode (c :: it) with Some (op, it') => op :: parse_script it' | None => [] end.
Proof.
  unfold parse_script at 1. cbn [length parse_loop]. destruct (deserialize_next_opcode (c :: it)) as [[op it']|] eqn:Hd; [|done].
  f_equal. apply parse_loop_fuel. cbn [deserialize_next_opcode] in Hd. injection Hd as Hd.
  assert (Hf : forall n, (length (deserialize_fixed c n it).2 <= length it)%nat) by
    (intros n; unfold deserialize_fixed; destruct (_ =? _); cbn; rewrite ?length_drop; lia).
  assert (Hv : forall n, (length (deserialize_var c n it).2 <= length it)%nat) by
    (intros n; unfold deserialize_var; destruct (_ =? _); [destruct (_ =? _)|]; cbn; rewrite ?length_drop; lia).
  apply (f_equal snd) in Hd. cbn in Hd. subst it'. destruct (op_of_code c); auto.
Qed.

(** ** One opcode *)

Lemma conditional_free op s : is_conditional op = true -> op_cost op s = 0.
Proof.
  unfold is_conditional, op_cost, op_name. intros [H1 H2]%andb_prop. apply Z.leb_le in H1, H2.
  assert (Hc : op_value op = 0x63 \/ op_value op = 0x64 \/ op_value op = 0x65 \/ op_value op = 0x66 \/ op_value op = 0x67 \/ op_value op = 0x68) by lia.
  by repeat (destruct Hc as [-> | Hc] || rewrite Hc).
Qed.

Lemma op_cost_push op s : is_push_opcode op = true -> op_cost op s = 0.
Proof.
  unfold is_push_opcode, NO_COST_OPCODE, op_cost, op_name, op_of_code. intros Hle%Z.leb_le. destruct (Z.eqb_spec (op_value op) 0); [done|].
  destruct (Z.leb_spec (op_value op) 0x4b); [done|].
  assert (Hall : forallb (fun n => match op_table !! n with Some (OpPushData1 | OpPushData2 | OpPushData4 | Op1Negate | OpReserved | OpSmall _) => true | _ => false end) (seq 0 21) = true)
    by (vm_compute; reflexivity).
  rewrite forallb_forall in Hall. specialize (Hall (Z.to_nat (op_value op - 0x4c)) ltac:(apply in_seq; lia)).
  destruct (op_table !! _) as [[]|]; done.
Qed.

Lemma check_minimal_safe op : safe (fun _ => True) (check_minimal_data_push op).
Proof. unfold check_minimal_data_push. by repeat match goal with |- context [if ?b then _ else _] => destruct b end. Qed.

Lemma add_num_ops_inv n vm vm' : add_num_ops n vm = Ok vm' -> vm' = set_num_ops (num_ops vm + n) vm.
Proof. unfold add_num_ops. destruct (is_i32 _); [|done]. destruct (_ <? _); [done|]. by intros [= <-]. Qed.

Section Run.
Context `{CS : CryptoSpec}.
Variable source : ScriptSource.
Hypothesis Hsource : source_wf source.

(** The cost of an opcode: nothing when it is skipped. *)
Definition run_cost (op : OpCode) (vm : Engine) : Z := if is_executing vm then op_cost op (dstack vm) else 0.

Lemma count_op_ok op vm : engine_wf vm ->
  safe (fun vm' => step_ok 0 vm vm' /\ dstack vm' = dstack vm /\ cond_stack vm' = cond_stack vm)
    (if negb (is_push_opcode op) then add_num_ops 1 vm
     else if MAX_SCRIPT_ELEMENT_SIZE <? op_len op then Err (ElementTooBig (op_len op) MAX_SCRIPT_ELEMENT_SIZE) else Ok vm).
Proof using.
  intros Hvm. destruct (negb _).
  - eapply safe_weaken; [apply add_num_ops_ok; [done|done]|]. by intros vm' [? ->].
  - destruct (_ <? _); [done|]. split; [by apply step_ok_refl|done].
Qed.

Lemma execute_opcode_ok op vm : wf_bytes (op_data op) -> engine_wf vm -> safe (step_ok (run_cost op vm) vm) (execute_opcode source op vm).
Proof using Hsource CS.
  intros Hd Hvm. unfold execute_opcode. eapply safe_bind; [by apply count_op_ok|]. intros vm1 (H1 & Hd1 & Hc1).
  assert (Hex : is_executing vm1 = is_executing vm) by (unfold is_executing; by rewrite Hc1). unfold run_cost. rewrite Hex.
  destruct (is_executing vm) eqn:He; [|destruct (is_conditional op) eqn:Hc]; cbn [orb]; [| |done].
  - eapply safe_bind; [destruct (_ && _); [apply check_minimal_safe|done]|]. intros _ _.
    eapply safe_weaken; [apply op_execute_ok; [done|done|apply H1]|]. intros vm2 H2. rewrite Hd1 in H2. by apply (step_ok_trans 0 _ vm vm1 vm2).
  - eapply safe_bind; [destruct (_ && _); [apply check_minimal_safe|done]|]. intros _ _.
    eapply safe_weaken; [apply op_execute_ok; [done|done|apply H1]|]. intros vm2 H2. rewrite conditional_free in H2 by done. by apply (step_ok_trans 0 0 vm vm1 vm2).
Qed.

Lemma execute_parsed_ok vop vm op : wf_bytes (op_data op) -> engine_wf vm -> safe (step_ok (run_cost op vm) vm) (execute_parsed source vop vm (Ok op)).
Proof using Hsource CS.
  intros Hd Hvm. unfold execute_parsed. cbn [obind]. repeat match goal with |- context [if ?b then Err _ else _] => destruct b; [done|] end.
  eapply safe_bind; [by apply execute_opcode_ok|]. intros vm' H'. by destruct (_ <? _).
Qed.

Lemma execute_script_safe script vop vm : wf_bytes script -> engine_wf vm ->
  safe (fun vm' => engine_wf vm' /\ sig_op_limit (counter vm') = sig_op_limit (counter vm)) (execute_script source script vop vm).
Proof using Hsource CS.
  intros Hw Hvm. unfold execute_script. eapply safe_bind.
  - apply (safe_foldM (fun vm' => engine_wf vm' /\ sig_op_limit (counter vm') = sig_op_limit (counter vm))); [done|].
    intros vm1 r [Hw1 Hl1] Hr. pose proof (parse_script_wf script Hw) as Hp. rewrite Forall_forall in Hp. specialize (Hp _ Hr).
    destruct r as [op|e| |]; [|done|done|done]. eapply safe_weaken; [by apply execute_parsed_ok|]. intros vm2 (? & ? & _). split; [done|congruence].
  - intros vm1 [[Hd Ha Hn Hr] Hl]. destruct (negb _); [done|]. cbn. split; [split; cbn; [done|apply Forall_nil_2|unfold MAX_OPS_PER_SCRIPT; lia|done]|done].
Qed.

Lemma check_error_safe final vm : engine_wf vm ->
  safe (fun vm' => engine_wf vm' /\ counter vm' = counter vm) (check_error_condition final vm).
Proof using.
  intros Hvm. unfold check_error_condition. destruct (final && _); [done|]. destruct (final && _); [done|].
  eapply safe_bind; [apply (pop_items_safe (fun _ => True)); [apply Hvm|by intros; apply bool_deserialize_safe]|]. intros [bs s] (Hl & _ & Hs).
  eapply safe_bind; [by apply (arr1_safe (fun _ => True)); [|apply Forall_true]|]. intros [] _; [|done]. cbn. split; [by apply set_dstack_wf|done].
Qed.

(** ** The whole run *)

Lemma execute_stealth_safe tx input idx e p vm : source = TxInput tx input idx e p -> engine_wf vm ->
  safe (step_ok 1 vm) (execute_stealth_spend tx idx input e vm).
Proof using Hsource.
  intros Hs Hvm. destruct (sw_input _ Hsource _ _ _ _ _ Hs) as (Hi & Hent & _). unfold execute_stealth_spend. set (script := spk_script _).
  destruct (Z.eqb_spec (zlen script) STEALTH_OUTPUT_SIZE) as [Hl|]; [|done]. cbn [negb]. unfold STEALTH_OUTPUT_SIZE, zlen in Hl.
  assert (Hsl : forall i j, (i <= j <= 66)%nat -> exists r, @slice TxScriptError Z i j script = Ok r).
  { intros i j Hij. unfold slice. destruct (Nat.leb_spec i j); [|lia]. destruct (Nat.leb_spec j (length script)); [|lia]. by eexists. }
  destruct (Hsl 0%nat 33%nat) as [r ->]; [lia|]. cbn [obind]. destruct (negb _); [done|]. destruct (Hsl 34%nat 66%nat) as [pk ->]; [lia|].
  cbn [obind]. destruct (negb _); [done|]. set (ss := in_signature_script input). unfold zlen. destruct (Z.ltb_spec (Z.of_nat (length ss)) 65); [done|].
  destruct (_ <? _); [done|]. unfold slice. destruct (Nat.leb_spec (length ss - 65) (length ss - 65 + 64)); [|lia].
  destruct (Nat.leb_spec (length ss - 65 + 64) (length ss)); [|lia]. cbn [andb obind].
  destruct (lookup_lt_is_Some_2 ss (length ss - 65 + 64)) as [b ->]; [lia|]. cbn [unwrap obind]. eapply safe_bind; [apply hash_type_of_safe|]. intros t _.
  destruct (negb _); [done|]. eapply safe_bind; [by apply (calc_hash_safe (E := TxScriptError))|]. intros [msg r'] _.
  eapply safe_bind; [by apply consume_ok|]. intros c Hc.
  match goal with |- safe _ (let '(_, _) := cached_verify ?k ?b ?v in _) => pose proof (cached_verify_ok k b vm v) as Hcv; destruct (cached_verify k b v) as [valid vm'] end.
  destruct valid; [|done]. cbn. apply Hcv. destruct Hc as ([] & ? & ?). split; [|done]. split; [by split|]. done.
Qed.

Lemma run_scripts_safe scripts is_p2sh vm : wf_stack scripts -> engine_wf vm ->
  safe (fun vm' => engine_wf vm' /\ sig_op_limit (counter vm') = sig_op_limit (counter vm)) (run_scripts source scripts is_p2sh vm).
Proof using Hsource CS.
  intros Hw Hvm. unfold run_scripts. case_bool_decide; [done|]. destruct (forallb _ _); [done|]. destruct (List.find _ _); [done|].
  eapply safe_bind.
  - apply (safe_foldM (fun st => (engine_wf st.1 /\ sig_op_limit (counter st.1) = sig_op_limit (counter vm)) /\
      match st.2 with Some s => wf_stack s | None => True end)); [done|].
    intros [vm1 saved] [i s] [[Hw1 Hl1] Hs1] Hin. cbn [run_script].
    assert (Hs : wf_bytes s).
    { apply list_elem_of_In, filter_In in Hin as [Hin%list_elem_of_In _]. apply elem_of_zip_r in Hin. rewrite Forall_forall in Hw. by apply Hw. }
    eapply safe_bind; [by apply execute_script_safe|]. intros vm2 [Hw2 Hl2]. cbn. split; [split; [done|cbn in *; congruence]|].
    destruct (is_p2sh && _); [apply Hw1|done].
  - intros [vm1 saved] [[Hw1 Hl1] Hs1]. cbn in Hw1, Hl1, Hs1. eapply (safe_bind (fun vm' => engine_wf vm' /\ sig_op_limit (counter vm') = sig_op_limit (counter vm))).
    + destruct is_p2sh; [|done]. eapply safe_bind; [by apply check_error_safe|]. intros vm2 [Hw2 Hc2]. destruct saved as [saved|]; [|done].
      destruct (vec_pop saved) as [[script s]|] eqn:Hp; [|done]. apply vec_pop_wf in Hp as [Hscr Hs]; [|done].
      eapply safe_weaken; [apply execute_script_safe; [done|by apply set_dstack_wf]|]. intros vm3 [? Hl3]. split; [done|]. cbn in Hl3. congruence.
    + intros vm2 [Hw2 Hl2]. eapply safe_weaken; [by apply check_error_safe|]. intros vm3 [? ->]. done.
Qed.

End Run.

Lemma execute_safe `{CS : CryptoSpec} source vm : source_wf source -> engine_wf vm ->
  safe (fun vm' => engine_wf vm' /\ sig_op_limit (counter vm') = sig_op_limit (counter vm)) (execute source vm).
Proof.
  intros Hsource Hvm. unfold execute. destruct source as [tx input idx e p|scripts].
  - destruct (_ =? _); [eapply safe_weaken; [by eapply execute_stealth_safe|]; by intros ? (? & ? & _)|]. destruct (_ <? _); [done|].
    destruct (sw_input _ Hsource _ _ _ _ _ eq_refl) as (_ & _ & _ & _ & H1 & H2 & _). apply run_scripts_safe; [done| |done].
    by repeat apply Forall_cons_2; [| |apply Forall_nil_2].
  - apply run_scripts_safe; [done| |done]. by apply (sw_scripts _ Hsource).
Qed.

(** ** Small integers *)

Definition small_ok (n : nat) : bool :=
  match op_of_code (Z.of_nat n + 0x50) with
  | OpSmall m =>
      (m =? Z.of_nat n) &&
      match i64_serialize m with Ok v => bool_decide (v = [m]) | _ => false end &&
      match i32_deserialize [m] with Ok k => k =? m | _ => false end
  | _ => false
  end.

Lemma small_op v : codes_OpTrue <= v <= codes_Op16 ->
  op_of_code v = OpSmall (v - 0x50) /\ i64_serialize (v - 0x50) = Ok [v - 0x50] /\ i32_deserialize [v - 0x50] = Ok (v - 0x50).
Proof.
  unfold codes_OpTrue, codes_Op16. intros Hv. assert (Hall : forallb small_ok (seq 1 16) = true) by (vm_compute; reflexivity).
  rewrite forallb_forall in Hall. specialize (Hall (Z.to_nat (v - 0x50)) ltac:(apply in_seq; lia)). unfold small_ok in Hall.
  rewrite Z2Nat.id in Hall by lia. replace (v - 0x50 + 0x50) with v in Hall by lia. destruct (op_of_code v); try discriminate.
  match type of Hall with context [?m =? v - 80] => destruct (Z.eqb_spec m (v - 80)) as [Hm|] end; [rewrite Hm in *|discriminate]. cbn [andb] in Hall.
  destruct (i64_serialize (v - 0x50)) as [w| | |]; try discriminate. case_bool_decide; [subst w|discriminate]. cbn [andb] in Hall.
  destruct (i32_deserialize [v - 0x50]) as [k| | |]; try discriminate. apply Z.eqb_eq in Hall as ->. done.
Qed.

(** After a small integer was executed, it is the number on top of the stack. *)
Definition prev_ok (prev : option OpCode) (vm : Engine) : Prop :=
  match prev with
  | Some p => is_executing vm = true -> codes_OpTrue <= op_value p <= codes_Op16 -> top_number (dstack vm) = op_value p - 0x50
  | None => True
  end.

Section Count.
Context `{CS : CryptoSpec}.
Variable source : ScriptSource.
Hypothesis Hsource : source_wf source.

Lemma small_push_runs op vm vm' : codes_OpTrue <= op_value op <= codes_Op16 -> execute_opcode source op vm = Ok vm' ->
  vm' = if is_executing vm then set_dstack (dstack vm ++ [[op_value op - 0x50]]) vm else vm.
Proof using.
  intros Hv. destruct (small_op _ Hv) as (Hname & Hser & _). unfold codes_OpTrue, codes_Op16 in Hv. unfold execute_opcode.
  assert (Hp : is_push_opcode op = true) by (unfold is_push_opcode, NO_COST_OPCODE; lia). rewrite Hp. cbn [negb].
  destruct (_ <? op_len op); [done|]. cbn [obind]. assert (Hc : is_conditional op = false) by (unfold is_conditional; lia). rewrite Hc, orb_false_r.
  destruct (is_executing vm); [|by intros [= <-]]. assert (Hr : (0 <? op_value op) && (op_value op <=? 0x4e) = false) by lia. rewrite Hr. cbn [obind].
  unfold op_execute, op_name. rewrite Hname. unfold push_number, on_dstack, push_i64. rewrite Hser. cbn. by intros [= <-].
Qed.

Lemma execute_parsed_prev vop op vm vm' : execute_parsed source vop vm (Ok op) = Ok vm' -> prev_ok (Some op) vm'.
Proof using.
  unfold execute_parsed. cbn [obind]. repeat match goal with |- context [if ?b then Err _ else _] => destruct b; [done|] end.
  intros (vm1 & Hrun & H1)%bind_Ok. destruct (_ <? _); [done|]. injection H1 as ->. intros Hex Hv. destruct (small_op _ Hv) as (_ & _ & Hde).
  apply small_push_runs in Hrun; [|done]. subst vm'. destruct (is_executing vm) eqn:He; [|congruence].
  cbn. unfold top_number. by rewrite last_snoc, Hde.
Qed.

Lemma to_small_int_Ok {E} p k : @to_small_int E p = Ok k -> codes_OpTrue <= op_value p -> k = op_value p - 0x50.
Proof using.
  unfold to_small_int, codes_OpFalse, codes_OpTrue, codes_Op16. destruct (Z.eqb_spec (op_value p) 0); [lia|]. intros Hk _. inv_outcome. lia.
Qed.

(** An opcode that counts [c] and the rest of the count. *)
Lemma count_step {E} prev op ops n0 n vm : prev_ok prev vm -> @count_sig_ops E prev (Ok op :: ops) n0 = Ok n ->
  exists n1, n0 + Z.max 0 (run_cost op vm) <= n1 /\ @count_sig_ops E (Some op) ops n1 = Ok n.
Proof using.
  intros Hprev. cbn [count_sig_ops]. unfold run_cost, op_cost, MAX_PUB_KEYS_PER_MUTLTISIG.
  assert (Hmulti : match prev with
    | None => let! n1 := add64 n0 20 in @count_sig_ops E (Some op) ops n1
    | Some p => if (codes_OpTrue <=? op_value p) && (op_value p <=? codes_Op16) then
                  let! k := to_small_int p in let! n1 := add64 n0 k in count_sig_ops (Some op) ops n1
                else let! n1 := add64 n0 20 in count_sig_ops (Some op) ops n1
    end = Ok n -> exists n1, n0 + Z.max 0 (if is_executing vm then Z.min (top_number (dstack vm)) 20 else 0) <= n1 /\ @count_sig_ops E (Some op) ops n1 = Ok n).
  { destruct prev as [p|].
    - destruct (Z.leb_spec codes_OpTrue (op_value p)); [destruct (Z.leb_spec (op_value p) codes_Op16)|]; cbn [andb]; intros Hrun.
      + apply bind_Ok in Hrun as (k & Hk & Hrun). apply to_small_int_Ok in Hk; [|done]. inv_outcome. eexists. split; [|done]. cbn in Hprev.
        unfold codes_OpTrue in *. destruct (is_executing vm); [rewrite Hprev by done|]; lia.
      + inv_outcome. eexists. split; [|done]. destruct (is_executing vm); lia.
      + inv_outcome. eexists. split; [|done]. destruct (is_executing vm); lia.
    - intros Hrun. inv_outcome. eexists. split; [|done]. destruct (is_executing vm); lia. }
  destruct (op_name op); try exact Hmulti; intros Hrun;
    try (exists n0; split; [destruct (is_executing vm); lia|exact Hrun]);
    inv_outcome; eexists; (split; [|eassumption]); destruct (is_executing vm); lia.
Qed.

Lemma count_sig_ops_mono {E} prev ops n0 n : @count_sig_ops E prev ops n0 = Ok n -> n0 <= n.
Proof using.
  revert prev n0. induction ops as [|r ops IH]; intros prev n0 Hc; [by injection Hc as ->|]. destruct r as [op| | |]; try (by injection Hc as ->).
  destruct (count_step (E := E) prev op ops n0 n (set_cond_stack [CondFalse] (fresh_engine 0 (cache_new 0) reused_new []))) as (n1 & Hle & Hc1).
  - destruct prev; [by intros [=]|done].
  - done.
  - apply IH in Hc1. lia.
Qed.

Lemma fold_count {E} vop ops prev vm vm' n0 n : Forall parsed_wf ops -> engine_wf vm -> prev_ok prev vm ->
  foldM_out (execute_parsed source vop) vm ops = Ok vm' -> @count_sig_ops E prev ops n0 = Ok n -> step_ok (n - n0) vm vm'.
Proof using Hsource CS.
  intros Hops. revert prev vm n0. induction Hops as [|r ops Hr Hops IH]; intros prev vm n0 Hvm Hprev Hrun Hc.
  - cbn in Hrun, Hc. injection Hrun as <-. injection Hc as <-. apply (step_ok_weaken 0); [lia|]. by apply step_ok_refl.
  - cbn [foldM_out] in Hrun. apply bind_Ok in Hrun as (vm1 & H1 & Hrun). destruct r as [op|e| |]; try done.
    pose proof (execute_parsed_ok source Hsource vop vm op Hr Hvm) as Hok. rewrite H1 in Hok. cbn in Hok.
    destruct (count_step prev op ops n0 n vm Hprev Hc) as (n1 & Hle & Hc1). specialize (IH _ vm1 n1 (proj1 Hok) (execute_parsed_prev _ _ _ _ H1) Hrun Hc1).
    replace (n - n0) with ((n1 - n0) + (n - n1)) by lia. eapply step_ok_trans; [|exact IH]. eapply step_ok_weaken; [|exact Hok]. lia.
Qed.

Lemma execute_script_count {E} script vop vm vm' n : wf_bytes script -> engine_wf vm -> execute_script source script vop vm = Ok vm' ->
  @get_sig_op_count_by_opcodes E (parse_script script) = Ok n -> step_ok n vm vm' /\ cond_stack vm' = [].
Proof using Hsource CS.
  intros Hw Hvm. unfold execute_script. intros (vm1 & Hrun & H1)%bind_Ok Hc. case_bool_decide as Hcond; [|done]. injection H1 as <-.
  eapply (fold_count _ _ None) in Hrun; [|by apply parse_script_wf|done|exact I|exact Hc]. rewrite Z.sub_0_r in Hrun. destruct Hrun as ([Hd Ha Hn Hr] & Hl & Hs).
  split; [|done]. split; [split; cbn; [done|apply Forall_nil_2|unfold MAX_OPS_PER_SCRIPT; lia|done]|]. done.
Qed.

(** ** Push-only scripts *)

Lemma push_only_fold ops vm vm' : Forall parsed_wf ops -> engine_wf vm -> foldM_out (execute_parsed source true) vm ops = Ok vm' ->
  step_ok 0 vm vm' /\ Forall (fun r => exists op, r = Ok op /\ is_push_opcode op = true) ops.
Proof using Hsource CS.
  intros Hops. revert vm. induction Hops as [|r ops Hr Hops IH]; intros vm Hvm Hrun.
  - cbn in Hrun. injection Hrun as <-. split; [by apply step_ok_refl|apply Forall_nil_2].
  - cbn [foldM_out] in Hrun. apply bind_Ok in Hrun as (vm1 & H1 & Hrun). destruct r as [op|e| |]; try done.
    pose proof (execute_parsed_ok source Hsource true vm op Hr Hvm) as Hok. rewrite H1 in Hok. cbn in Hok.
    assert (Hp : is_push_opcode op = true).
    { unfold execute_parsed in H1. cbn [obind] in H1. destruct (is_disabled op); [done|]. destruct (always_illegal op); [done|].
      destruct (is_push_opcode op); done. }
    destruct (IH vm1 (proj1 Hok) Hrun) as [IH1 IH2]. split; [|apply Forall_cons_2; [by exists op|done]].
    eapply (step_ok_trans 0 0); [|exact IH1]. unfold run_cost in Hok. rewrite op_cost_push in Hok by done. by destruct (is_executing vm).
Qed.
(** ** What a push-only script leaves on the stack *)

(** A parsed opcode has data only if it is a data push. *)
Definition parsed_shape (r : sres OpCode) : Prop :=
  match r with
  | Ok op => match op_name op with OpData _ | OpPushData1 | OpPushData2 | OpPushData4 => True | _ => op_data op = [] end
  | _ => True
  end.

Lemma parse_loop_shape fuel it : Forall parsed_shape (parse_loop fuel it).
Proof using.
  revert it. induction fuel as [|fuel IH]; intros it; cbn [parse_loop]; [apply Forall_nil_2|].
  destruct (deserialize_next_opcode it) as [[op it']|] eqn:Hd; [|apply Forall_nil_2]. apply Forall_cons_2; [|apply IH].
  destruct it as [|code it]; [done|]. cbn [deserialize_next_opcode] in Hd. injection Hd as Hd. unfold deserialize_fixed, deserialize_var in Hd.
  unfold parsed_shape. destruct op as [op| | |]; try done. unfold op_name.
  destruct (op_of_code code) eqn:Hn; repeat match type of Hd with context [if ?b then _ else _] => destruct b end;
    try discriminate; injection Hd as <- _; cbn [op_value op_data]; rewrite Hn; done.
Qed.

(** The opcodes a push-only script may hold, and what each of them pushes. *)
Lemma push_effect op vm vm' : is_push_opcode op = true -> parsed_shape (Ok op) -> cond_stack vm = [] ->
  execute_parsed source true vm (Ok op) = Ok vm' ->
  cond_stack vm' = [] /\ exists v, dstack vm' = dstack vm ++ [v] /\ (v = op_data op \/ (op_data op = [] /\ (v = [0x81] \/ exists n, v = [n] /\ 1 <= n <= 16))).
Proof using.
  intros Hp Hsh Hcond Hrun. unfold execute_parsed in Hrun. cbn [obind] in Hrun.
  repeat match type of Hrun with context [if ?b then Err _ else _] => destruct b; [done|] end.
  apply bind_Ok in Hrun as (vm1 & Hrun & H1). destruct (_ <? _); [done|]. injection H1 as ->. unfold execute_opcode in Hrun. rewrite Hp in Hrun. cbn [negb] in Hrun.
  destruct (_ <? op_len op); [done|]. cbn [obind] in Hrun.
  assert (Hex : is_executing vm = true) by (unfold is_executing; by rewrite Hcond). rewrite Hex in Hrun. cbn [orb] in Hrun.
  apply bind_Ok in Hrun as ([] & _ & Hrun). unfold parsed_shape in Hsh. unfold is_push_opcode, NO_COST_OPCODE in Hp. apply Z.leb_le in Hp.
  destruct (Z.leb_spec codes_OpTrue (op_value op)) as [Ht|Ht].
  - destruct (small_op (op_value op)) as (Hn & Hser & _); [unfold codes_OpTrue, codes_Op16 in *; lia|]. unfold op_execute, op_name in *. rewrite Hn in *.
    unfold push_number, on_dstack, push_i64 in Hrun. rewrite Hser in Hrun. cbn in Hrun. injection Hrun as <-. cbn. split; [done|]. eexists. split; [done|]. right.
    split; [done|]. right. eexists. split; [done|]. unfold codes_OpTrue in Ht. lia.
  - unfold codes_OpTrue in Ht. unfold op_execute, op_name, op_of_code in *. destruct (Z.eqb_spec (op_value op) 0).
    { cbn in Hrun. injection Hrun as <-. cbn. split; [done|]. eexists. split; [done|]. left. done. }
    destruct (Z.leb_spec (op_value op) 0x4b). { cbn in Hrun. injection Hrun as <-. cbn. split; [done|]. eexists. split; [done|]. by left. }
    assert (Hc : op_value op = 0x4c \/ op_value op = 0x4d \/ op_value op = 0x4e \/ op_value op = 0x4f \/ op_value op = 0x50) by lia.
    destruct Hc as [Hc|[Hc|[Hc|[Hc|Hc]]]]; rewrite Hc in Hrun, Hsh; cbn in Hrun, Hsh; try done; injection Hrun as <-; cbn; (split; [done|]); eexists; (split; [done|]);
      [by left..|]. right. split; [done|]. by left.
Qed.

Lemma push_only_top ops vm vm' : Forall (fun r => exists op, r = Ok op /\ is_push_opcode op = true) ops -> Forall parsed_shape ops -> cond_stack vm = [] -> ops <> [] ->
  foldM_out (execute_parsed source true) vm ops = Ok vm' ->
  exists op s v, last ops = Some (Ok op) /\ dstack vm' = s ++ [v] /\ (v = op_data op \/ (op_data op = [] /\ (v = [0x81] \/ exists n, v = [n] /\ 1 <= n <= 16))).
Proof using.
  intros Hp Hsh. revert vm. induction ops as [|r ops IH]; intros vm Hcond Hne Hrun; [done|].
  apply Forall_cons in Hp as [(op & -> & Hp) Hps], Hsh as [Hsh Hshs]. cbn [foldM_out] in Hrun. apply bind_Ok in Hrun as (vm1 & H1 & Hrun).
  destruct (push_effect op vm vm1) as (Hc1 & v & Hd & Hv); try done. destruct ops as [|r2 ops].
  - cbn in Hrun. injection Hrun as <-. exists op, (dstack vm), v. done.
  - destruct (IH Hps Hshs vm1 Hc1) as (op' & s & v' & Hl & ?); [done|done|]. exists op', s, v'. done.
Qed.
End Count.

(** A script of one byte that a small integer leaves cannot run. *)
Lemma tiny_script_fails `{Crypto} source vm v : v = [0x81] \/ (exists n, v = [n] /\ 1 <= n <= 16) -> forall vm', execute_script source v false vm <> Ok vm'.
Proof.
  intros [->|(n & -> & Hn)] vm' Hrun; unfold execute_script in Hrun; rewrite parse_script_cons in Hrun.
  - by vm_compute in Hrun.
  - cbn [deserialize_next_opcode] in Hrun. unfold op_of_code in Hrun. destruct (Z.eqb_spec n 0); [lia|]. destruct (Z.leb_spec n 0x4b); [|lia].
    unfold deserialize_fixed in Hrun. rewrite take_nil in Hrun. destruct (Z.eqb_spec (zlen (@nil Z)) (Z.of_nat (Z.to_nat n))); [unfold zlen in *; cbn in *; lia|].
    cbn in Hrun. done.
Qed.

(** ** Pay-to-script-hash *)

Lemma p2sh_shape s : is_pay_to_script_hash s = true -> exists h, s = [codes_OpBlake2b; codes_OpData32] ++ h ++ [codes_OpEqual] /\ length h = 32%nat.
Proof.
  unfold is_pay_to_script_hash. intros [[[Hl H0]%andb_prop H1]%andb_prop H2]%andb_prop. apply Z.eqb_eq in Hl, H0, H1, H2. unfold zlen in Hl.
  destruct s as [|a [|b t]]; try done. cbn in H0, H1. subst a b. exists (take 32 t). cbn [length] in Hl.
  assert (Ht : t = take 32 t ++ drop 32 t) by (by rewrite take_drop). assert (Hd : length (drop 32 t) = 1%nat) by (rewrite length_drop; lia).
  destruct (drop 32 t) as [|c [|]] eqn:Hdr; try done. split; [|rewrite length_take; lia]. cbn. rewrite Ht at 1. do 3 f_equal.
  change (nth 34 (codes_OpBlake2b :: codes_OpData32 :: t) 0) with (nth 32 t 0) in H2. rewrite Ht, app_nth2 in H2 by (rewrite length_take; lia).
  rewrite length_take, Nat.min_l in H2 by lia. cbn in H2. by subst.
Qed.

Lemma p2sh_parse h : length h = 32%nat -> parse_script ([codes_OpBlake2b; codes_OpData32] ++ h ++ [codes_OpEqual]) =
  [Ok (mk_opcode codes_OpBlake2b []); Ok (mk_opcode codes_OpData32 h); Ok (mk_opcode codes_OpEqual [])].
Proof.
  intros Hl. cbn [app]. rewrite parse_script_cons. cbn [deserialize_next_opcode]. change (op_of_code codes_OpBlake2b) with OpBlake2b. cbn beta iota.
  unfold deserialize_fixed at 1. rewrite take_0, drop_0. change (zlen [] =? Z.of_nat 0) with true. cbn beta iota. f_equal.
  rewrite parse_script_cons. cbn [deserialize_next_opcode]. change (op_of_code codes_OpData32) with (OpData 32). cbn beta iota.
  unfold deserialize_fixed. change (Z.to_nat 32) with 32%nat. rewrite <-Hl, take_app_length, drop_app_length. unfold zlen. rewrite Z.eqb_refl. by rewrite parse_script_cons.
Qed.

(** ** The bound *)

Section Bound.
Context `{CS : CryptoSpec}.
Variables (tx : VerifiableTransaction) (input : TransactionInput) (idx : nat) (e : UtxoEntry) (p : bool).
Let source := TxInput tx input idx e p.
Hypothesis Hsource : source_wf source.

(** One of the two scripts: run, or skipped when empty. *)
Definition ran (s : bytes) (vop : bool) (vm vm' : Engine) : Prop := (s = [] /\ vm' = vm) \/ (s <> [] /\ execute_script source s vop vm = Ok vm').

Lemma two_scripts sig spk vm vm' saved :
  foldM_out (run_script source p) (vm, None)
    (List.filter (fun indexed => negb (bool_decide (indexed.2 = []))) (zip (seq 0 (length [sig; spk])) [sig; spk])) = Ok (vm', saved) ->
  exists vm1, ran sig true vm vm1 /\ ran spk false vm1 vm' /\ (spk <> [] -> saved = if p then Some (dstack vm1) else None).
Proof using.
  cbn [length seq zip zip_with List.filter snd]. intros Hrun. unfold ran.
  assert (H2 : forall vm1, foldM_out (run_script source p) (vm1, None) (if negb (bool_decide (spk = [])) then [(1%nat, spk)] else []) = Ok (vm', saved) ->
    ((spk = [] /\ vm' = vm1) \/ (spk <> [] /\ execute_script source spk false vm1 = Ok vm')) /\ (spk <> [] -> saved = if p then Some (dstack vm1) else None)).
  { clear Hrun. intros vm1. destruct (bool_decide_reflect (spk = [])) as [Hs|Hs]; cbn [negb foldM_out].
    - intros Hr. injection Hr as <- <-. split; [by left|done].
    - cbn [run_script]. cbn [Nat.eqb andb]. intros ([v2 s2] & (v3 & H3 & H4)%bind_Ok & H5)%bind_Ok. injection H4 as <- <-. injection H5 as <- <-.
      split; [by right|]. intros _. rewrite andb_true_r. done. }
  destruct (bool_decide_reflect (sig = [])) as [Hs|Hs]; cbn [negb] in Hrun.
  - exists vm. destruct (H2 vm Hrun). split; [by left|done].
  - cbn [foldM_out run_script Nat.eqb andb] in Hrun. apply bind_Ok in Hrun as ([v1 s1] & (v3 & H3 & H4)%bind_Ok & Hrun). rewrite andb_false_r in H4. injection H4 as <- <-.
    exists v3. destruct (H2 v3 Hrun). split; [by right|done].
Qed.

(** The signature script uses no signature operation; what it leaves on top is the data of
    its last push, or a script that cannot run. *)
Lemma sig_script_ran vm vm1 : wf_bytes (in_signature_script input) -> engine_wf vm -> cond_stack vm = [] -> ran (in_signature_script input) true vm vm1 ->
  step_ok 0 vm vm1 /\ (in_signature_script input <> [] ->
    Forall (fun r => exists op, r = Ok op /\ is_push_opcode op = true) (parse_script (in_signature_script input)) /\
    exists op s v, last (parse_script (in_signature_script input)) = Some (Ok op) /\ dstack vm1 = s ++ [v] /\
      (v = op_data op \/ (v = [0x81] \/ exists n, v = [n] /\ 1 <= n <= 16))).
Proof using Hsource CS.
  intros Hw Hvm Hcond [[-> ->]|[Hne Hrun]]; [split; [by apply step_ok_refl|done]|]. unfold execute_script in Hrun.
  apply bind_Ok in Hrun as (vm' & Hrun & H1). case_bool_decide; [|done]. injection H1 as <-. pose proof (parse_script_wf _ Hw) as Hp.
  destruct (push_only_fold source Hsource _ _ _ Hp Hvm Hrun) as [([Hd Ha Hn Hr] & Hl & Hs) Hops].
  split; [split; [split; cbn; [done|apply Forall_nil_2|unfold MAX_OPS_PER_SCRIPT; lia|done]|done]|]. intros _. split; [done|].
  assert (Hne' : parse_script (in_signature_script input) <> []).
  { destruct (in_signature_script input); [done|]. rewrite parse_script_cons. cbn [deserialize_next_opcode].
    match goal with |- match ?x with _ => _ end <> [] => destruct x end. done. }
  destruct (push_only_top source _ vm vm' Hops (parse_loop_shape _ _) Hcond Hne' Hrun) as (op & s & v & ? & ? & Hv).
  exists op, s, v. split; [done|]. split; [done|]. destruct Hv as [|[_ ?]]; [by left|by right].
Qed.

Lemma spk_ran {E} s vm vm' n : wf_bytes s -> engine_wf vm -> ran s false vm vm' -> @get_sig_op_count_by_opcodes E (parse_script s) = Ok n -> step_ok n vm vm'.
Proof using Hsource CS.
  intros Hw Hvm [[-> ->]|[Hne Hrun]] Hc; [injection Hc as <-; by apply step_ok_refl|]. by eapply execute_script_count in Hrun as [? _].
Qed.

Lemma check_error_step final vm vm' : engine_wf vm -> check_error_condition final vm = Ok vm' -> step_ok 0 vm vm'.
Proof using.
  intros Hvm Hrun. pose proof (check_error_safe final vm Hvm) as Hs. rewrite Hrun in Hs. destruct Hs as [Hw Hc]. split; [done|].
  unfold spent. rewrite Hc. split; [done|lia].
Qed.

#[local] Abbreviation sig := (in_signature_script input).
#[local] Abbreviation spk := (spk_script (ue_script_public_key e)).

Lemma run_scripts_count {E} vm vm' n :
  spk_version (ue_script_public_key e) <> STEALTH_SCRIPT_VERSION -> engine_wf vm -> dstack vm = [] -> cond_stack vm = [] ->
  run_scripts source [sig; spk] p vm = Ok vm' -> @get_sig_op_count_upper_bound E sig (ue_script_public_key e) = Ok n -> step_ok n vm vm'.
Proof using Hsource CS.
  intros Hver Hvm Hd Hcond. destruct (sw_input _ Hsource _ _ _ _ _ eq_refl) as (_ & _ & _ & _ & Hws & Hwk & Hp).
  unfold run_scripts, get_sig_op_count_upper_bound. apply Z.eqb_neq in Hver. rewrite Hver. case_bool_decide; [done|]. destruct (forallb _ _); [done|].
  destruct (List.find _ _); [done|]. intros ([vm2 saved] & (vm1 & Hsig & Hspk & Hsaved)%two_scripts & Hrest)%bind_Ok.
  destruct (sig_script_ran _ _ Hws Hvm Hcond Hsig) as [H1 Htop]. rewrite <-Hp. destruct (Bool.bool_dec p true) as [Hpv|Hpv%not_true_iff_false]; rewrite Hpv in Hrest, Hsaved |- *; cbn [negb].
  - rewrite Hpv in Hp. symmetry in Hp. apply p2sh_shape in Hp as (h & Hspk_eq & Hlen). assert (Hk : spk <> []) by (by rewrite Hspk_eq). specialize (Hsaved Hk). subst saved.
    assert (H2 : step_ok 0 vm1 vm2).
    { eapply (spk_ran (E := E)); [exact Hwk|apply H1|exact Hspk|]. rewrite Hspk_eq, p2sh_parse by done. reflexivity. }
    apply bind_Ok in Hrest as (vm3 & (vm4 & H4 & Hredeem)%bind_Ok & Hlast). apply check_error_step in H4; [|apply H2].
    destruct (vec_pop (dstack vm1)) as [[v s]|] eqn:Hpop; [|done]. destruct (vec_pop_wf _ _ _ (ew_dstack _ (proj1 H1)) Hpop) as [Hwv Hws'].
    destruct (decide (sig = [])) as [Hnil|Hne].
    { destruct Hsig as [[_ ->]|[? _]]; [|done]. rewrite Hd in Hpop. done. }
    destruct (Htop Hne) as (Hpush & op & s1 & v1 & Hl & Hd1 & Hv). rewrite Hd1, vec_pop_snoc in Hpop. injection Hpop as <- <-.
    destruct (existsb _ _) eqn:Hex.
    { apply existsb_exists in Hex as (r & Hin%list_elem_of_In & Hr). rewrite Forall_forall in Hpush. destruct (Hpush r Hin) as (op' & -> & Hop). by rewrite Hop in Hr. }
    rewrite Hl. intros Hn. destruct Hv as [->|Htiny]; [|by apply (tiny_script_fails _ _ _ Htiny) in Hredeem].
    eapply execute_script_count in Hredeem as [H3 _]; [|done|done|apply set_dstack_wf; [apply H4|done]|exact Hn].
    apply check_error_step in Hlast; [|apply H3]. pose proof (set_dstack_ok s1 vm4 (proj1 H4) Hws') as H5.
    replace n with (0 + (0 + (0 + (0 + (n + 0))))) by lia. repeat (eapply step_ok_trans; [eassumption|]). done.
  - intros Hn. cbn [obind] in Hrest. apply (spk_ran _ _ _ _ Hwk (proj1 H1) Hspk) in Hn. apply check_error_step in Hrest; [|apply Hn].
    replace n with (0 + (n + 0)) by lia. repeat (eapply step_ok_trans; [eassumption|]). done.
Qed.

Lemma execute_count {E} vm vm' n : engine_wf vm -> dstack vm = [] -> cond_stack vm = [] ->
  execute source vm = Ok vm' -> @get_sig_op_count_upper_bound E sig (ue_script_public_key e) = Ok n -> step_ok n vm vm'.
Proof using Hsource CS.
  intros Hvm Hd Hcond. unfold execute, source. destruct (Z.eqb_spec (spk_version (ue_script_public_key e)) STEALTH_SCRIPT_VERSION) as [Hv|Hv].
  - intros Hrun. unfold get_sig_op_count_upper_bound. rewrite Hv. cbn. intros [= <-].
    pose proof (execute_stealth_safe source Hsource tx input idx e p vm eq_refl Hvm) as Hs. by rewrite Hrun in Hs.
  - destruct (_ <? _); [|by apply run_scripts_count]. intros [= <-] Hn. eapply step_ok_weaken; [|by apply step_ok_refl].
    unfold get_sig_op_count_upper_bound in Hn. apply Z.eqb_neq in Hv. rewrite Hv in Hn. destruct (negb _).
    + by apply count_sig_ops_mono in Hn.
    + destruct (existsb _ _); [by injection Hn as <-|]. destruct (last _) as [[op| | |]|]; try (by injection Hn as <-). by apply count_sig_ops_mono in Hn.
Qed.
End Bound.
