(* ===== verification/ScriptBuild.v ===== *)
(** * Built scripts run as intended

    Lemmas on the script builder: a piece it appends parses to one opcode, and that opcode
    leaves the intended element on the stack. *)

From Stdlib Require Import ZArith Lia Bool.
From stdpp Require Import base numbers list.
From S2P Require Import Prelude Tx Uint UintLemmas ScriptData ScriptOps ScriptEngine ScriptStandard ScriptNumbers ScriptCount.

#[local] Open Scope Z_scope.

(** [bs] is one opcode that pushes [d]. *)
Definition pushes (bs d : bytes) : Prop :=
  exists op, (forall rest, parse_script (bs ++ rest) = Ok op :: parse_script rest) /\
    forall (C : Crypto) source vop vm, is_executing vm = true -> zlen (astack vm) + zlen (dstack vm) + 1 <= MAX_STACK_SIZE ->
      execute_parsed source vop vm (Ok op) = Ok (set_dstack (dstack vm ++ [d]) vm).

(** ** Parsing a piece *)

Lemma parse_fixed c n d rest : (forall it, deserialize_next_opcode (c :: it) = Some (deserialize_fixed c n it)) -> length d = n ->
  parse_script ((c :: d) ++ rest) = Ok (mk_opcode c d) :: parse_script rest.
Proof.
  intros Hc <-. cbn [app]. rewrite parse_script_cons, Hc. unfold deserialize_fixed. rewrite take_app_length, drop_app_length. unfold zlen. by rewrite Z.eqb_refl.
Qed.

Lemma parse_var c w d rest : (forall it, deserialize_next_opcode (c :: it) = Some (deserialize_var c w it)) -> zlen d < 256 ^ Z.of_nat w ->
  parse_script ((c :: le_bytes w (zlen d) ++ d) ++ rest) = Ok (mk_opcode c d) :: parse_script rest.
Proof.
  intros Hc Hd. cbn [app]. rewrite parse_script_cons, Hc. unfold deserialize_var. rewrite <-app_assoc, take_app_length', drop_app_length' by (by rewrite length_le_bytes).
  replace (zlen (le_bytes w (zlen d)) =? Z.of_nat w) with true by (unfold zlen at 1; by rewrite length_le_bytes, Z.eqb_refl).
  rewrite of_le_bytes_le by (unfold zlen in *; lia). unfold zlen. rewrite !Nat2Z.id, take_app_length, drop_app_length, Z.eqb_refl. done.
Qed.

(** ** Running a push *)

Lemma data_push_runs `{Crypto} source vop vm c d : 1 <= c <= 0x4e -> zlen d <= MAX_SCRIPT_ELEMENT_SIZE -> check_minimal_data_push (mk_opcode c d) = Ok tt ->
  is_executing vm = true -> zlen (astack vm) + zlen (dstack vm) + 1 <= MAX_STACK_SIZE ->
  execute_parsed source vop vm (Ok (mk_opcode c d)) = Ok (set_dstack (dstack vm ++ [d]) vm).
Proof.
  intros Hc Hd Hmin Hex Hs. unfold execute_parsed. cbn [obind].
  assert (Hn : op_name (mk_opcode c d) = OpData c \/ op_name (mk_opcode c d) = OpPushData1 \/ op_name (mk_opcode c d) = OpPushData2 \/ op_name (mk_opcode c d) = OpPushData4).
  { unfold op_name, op_of_code. cbn [op_value]. destruct (Z.eqb_spec c 0); [lia|]. destruct (Z.leb_spec c 0x4b); [by left|].
    assert (Hcc : c = 0x4c \/ c = 0x4d \/ c = 0x4e) by lia. destruct Hcc as [->|[->| ->]]; cbn; auto. }
  assert (Hdis : is_disabled (mk_opcode c d) = false /\ always_illegal (mk_opcode c d) = false).
  { unfold is_disabled, always_illegal. destruct Hn as [->|[->|[->| ->]]]; done. }
  destruct Hdis as [-> ->]. assert (Hp : is_push_opcode (mk_opcode c d) = true) by (unfold is_push_opcode, NO_COST_OPCODE; cbn; lia).
  unfold execute_opcode. rewrite Hp. cbn [negb]. rewrite andb_false_r. unfold op_len. cbn [op_data]. destruct (Z.ltb_spec MAX_SCRIPT_ELEMENT_SIZE (zlen d)); [lia|].
  cbn [obind]. rewrite Hex. cbn [orb op_value]. destruct (Z.ltb_spec 0 c); [|lia]. destruct (Z.leb_spec c 0x4e); [|lia]. cbn [andb]. rewrite Hmin. cbn [obind].
  assert (Hrun : op_execute source (mk_opcode c d) vm = Ok (set_dstack (dstack vm ++ [d]) vm)).
  { unfold op_execute. destruct Hn as [->|[->|[->| ->]]]; done. }
  rewrite Hrun. cbn [obind dstack astack set_dstack]. rewrite zlen_app. change (zlen [d]) with 1. destruct (Z.ltb_spec MAX_STACK_SIZE (zlen (astack vm) + (zlen (dstack vm) + 1))); [lia|done].
Qed.

Lemma plain_push_runs `{Crypto} source vop vm c v : c = 0 \/ 0x4f = c \/ codes_OpTrue <= c <= codes_Op16 ->
  (forall vm, op_execute source (mk_opcode c []) vm = Ok (set_dstack (dstack vm ++ [v]) vm)) ->
  is_executing vm = true -> zlen (astack vm) + zlen (dstack vm) + 1 <= MAX_STACK_SIZE ->
  execute_parsed source vop vm (Ok (mk_opcode c [])) = Ok (set_dstack (dstack vm ++ [v]) vm).
Proof.
  intros Hc Hrun Hex Hs. unfold execute_parsed. cbn [obind].
  assert (Hdis : is_disabled (mk_opcode c []) = false /\ always_illegal (mk_opcode c []) = false).
  { unfold is_disabled, always_illegal, op_name. cbn [op_value]. destruct Hc as [->|[<-|Hc]]; [done|done|]. by destruct (small_op c Hc) as (-> & _). }
  destruct Hdis as [-> ->]. unfold codes_OpTrue, codes_Op16 in Hc.
  assert (Hp : is_push_opcode (mk_opcode c []) = true) by (unfold is_push_opcode, NO_COST_OPCODE; cbn; lia).
  unfold execute_opcode. rewrite Hp. cbn [negb]. rewrite andb_false_r. change (MAX_SCRIPT_ELEMENT_SIZE <? op_len (mk_opcode c [])) with false.
  cbn [obind]. rewrite Hex. cbn [orb op_value]. assert (Hr : (0 <? c) && (c <=? 0x4e) = false) by lia. rewrite Hr. cbn [obind]. rewrite Hrun.
  cbn [obind dstack astack set_dstack]. rewrite zlen_app. change (zlen [v]) with 1. destruct (Z.ltb_spec MAX_STACK_SIZE (zlen (astack vm) + (zlen (dstack vm) + 1))); [lia|done].
Qed.

Lemma small_pushes n : 1 <= n <= 16 -> pushes [0x50 + n] [n].
Proof.
  intros Hn. destruct (small_op (0x50 + n)) as (Hname & Hser & _); [unfold codes_OpTrue, codes_Op16; lia|]. replace (0x50 + n - 0x50) with n in * by lia.
  exists (mk_opcode (0x50 + n) []). split.
  - intros rest. apply (parse_fixed _ 0); [|done]. intros it. cbn [deserialize_next_opcode]. by rewrite Hname.
  - intros C source vop vm. apply plain_push_runs; [right; right; unfold codes_OpTrue, codes_Op16; lia|]. intros vm'. unfold op_execute, op_name. cbn [op_value]. rewrite Hname.
    unfold push_number, on_dstack, push_i64. by rewrite Hser.
Qed.

Lemma false_pushes : pushes [codes_OpFalse] [].
Proof.
  exists (mk_opcode codes_OpFalse []). split.
  - intros rest. by apply (parse_fixed _ 0).
  - intros C source vop vm. apply plain_push_runs; [by left|]. done.
Qed.

Lemma negate_pushes : pushes [codes_Op1Negate] [OP_1_NEGATE_VAL].
Proof.
  exists (mk_opcode codes_Op1Negate []). split.
  - intros rest. by apply (parse_fixed _ 0).
  - intros C source vop vm. apply plain_push_runs; [by right; left|]. done.
Qed.

(** ** The builder *)

Lemma add_raw_data_app d s : add_raw_data d s = s ++ add_raw_data d [].
Proof. unfold add_raw_data. repeat case_match; done. Qed.

Lemma add_raw_data_pushes d : wf_bytes d -> zlen d <= MAX_SCRIPT_ELEMENT_SIZE -> pushes (add_raw_data d []) d.
Proof.
  intros Hw Hd. unfold add_raw_data. cbn [app]. destruct (Z.eqb_spec (zlen d) 0) as [H0|H0].
  { destruct d; [apply false_pushes|unfold zlen in H0; cbn in H0; lia]. }
  assert (Hone : zlen d = 1 -> exists b, d = [b]) by (unfold zlen; destruct d as [|b [|]]; cbn; [lia|by exists b|lia]).
  assert (Hpos : 0 <= zlen d) by (unfold zlen; lia).
  destruct ((zlen d =? 1) && (OP_SMALL_INT_MIN_VAL <=? nth 0 d 0) && (nth 0 d 0 <=? OP_SMALL_INT_MAX_VAL)) eqn:Hsmall.
  { apply andb_prop in Hsmall as [[H1%Z.eqb_eq Hl]%andb_prop Hu]. destruct (Hone H1) as [b ->]. cbn in *. unfold codes_OpTrue. apply (small_pushes b).
    unfold OP_SMALL_INT_MIN_VAL, OP_SMALL_INT_MAX_VAL in *. lia. }
  destruct ((zlen d =? 1) && (nth 0 d 0 =? OP_1_NEGATE_VAL)) eqn:Hneg.
  { apply andb_prop in Hneg as [H1%Z.eqb_eq Hl%Z.eqb_eq]. destruct (Hone H1) as [b ->]. cbn in Hl. subst b. apply negate_pushes. }
  assert (Hmin : forall c, (if zlen d <=? OP_DATA_MAX_VAL then c = zlen d else if zlen d <=? U8 - 1 then c = codes_OpPushData1 else c = codes_OpPushData2) ->
    check_minimal_data_push (mk_opcode c d) = Ok tt).
  { intros c Hc. unfold check_minimal_data_push, op_len. cbn [op_data op_value]. destruct (Z.eqb_spec (zlen d) 0); [done|]. rewrite Hsmall, Hneg.
    destruct (zlen d <=? OP_DATA_MAX_VAL); [subst c; by rewrite Z.eqb_refl|]. destruct (zlen d <=? U8 - 1); subst c; [done|]. cbn. by rewrite andb_false_r. }
  unfold MAX_SCRIPT_ELEMENT_SIZE in Hd. destruct (Z.leb_spec (zlen d) OP_DATA_MAX_VAL) as [Hs|Hs].
  - unfold OP_DATA_MAX_VAL in Hs. change (OP_DATA_MIN_VAL - 1) with 0. rewrite Z.add_0_l. exists (mk_opcode (zlen d) d). split.
    + intros rest. apply (parse_fixed _ (Z.to_nat (zlen d))); [|unfold zlen; lia]. intros it. cbn [deserialize_next_opcode]. unfold op_of_code.
      destruct (Z.eqb_spec (zlen d) 0); [done|]. destruct (Z.leb_spec (zlen d) 0x4b); [done|lia].
    + intros C source vop vm Hex Hst. apply data_push_runs; try done; [lia|]. by apply Hmin.
  - destruct (Z.leb_spec (zlen d) (U8 - 1)) as [Hs1|Hs1].
    + exists (mk_opcode codes_OpPushData1 d). split.
      * intros rest. change ([codes_OpPushData1; zlen d] ++ d) with (codes_OpPushData1 :: [zlen d] ++ d).
        replace [zlen d] with (le_bytes 1 (zlen d)) by (cbn; rewrite Z.mod_small by lia; done).
        apply (parse_var _ 1); [done|]. change (256 ^ Z.of_nat 1) with 256. lia.
      * intros C source vop vm Hex Hst. apply data_push_runs; try done. by apply Hmin.
    + destruct (Z.leb_spec (zlen d) (U16 - 1)) as [Hs2|]; [|lia]. exists (mk_opcode codes_OpPushData2 d). split.
      * intros rest. change ((codes_OpPushData2 :: le_bytes 2 (zlen d)) ++ d) with (codes_OpPushData2 :: le_bytes 2 (zlen d) ++ d).
        apply (parse_var _ 2); [done|]. change (256 ^ Z.of_nat 2) with 65536. lia.
      * intros C source vop vm Hex Hst. apply data_push_runs; try done. by apply Hmin.
Qed.

Lemma add_data_pushes d s s' : wf_bytes d -> add_data d s = Ok s' -> exists bs, s' = s ++ bs /\ pushes bs d.
Proof.
  intros Hw. unfold add_data. destruct (_ <? _); [done|]. destruct (Z.ltb_spec MAX_SCRIPT_ELEMENT_SIZE (zlen d)); [done|]. intros [= <-].
  exists (add_raw_data d []). split; [apply add_raw_data_app|]. by apply add_raw_data_pushes.
Qed.

Lemma add_i64_pushes n s s' : - I64 < n < I64 -> add_i64 n s = Ok s' -> exists bs v, s' = s ++ bs /\ i64_serialize n = Ok v /\ pushes bs v.
Proof.
  intros Hn. unfold add_i64. destruct (_ <? _); [done|]. destruct (Z.eqb_spec n 0) as [->|H0].
  { intros [= <-]. exists [codes_OpFalse], []. split; [done|]. split; [done|apply false_pushes]. }
  destruct (Z.eqb_spec n (-1)) as [->|H1]; cbn [orb].
  { intros [= <-]. exists [codes_Op1Negate], [OP_1_NEGATE_VAL]. split; [done|]. split; [done|apply negate_pushes]. }
  destruct (Z.leb_spec 1 n); [destruct (Z.leb_spec n 16)|]; cbn [andb].
  { intros [= <-]. exists [0x50 + n], [n]. unfold codes_OpTrue. rewrite Z.mod_small by lia. split; [done|]. split; [|by apply small_pushes].
    destruct (small_op (0x50 + n)) as (_ & Hser & _); [unfold codes_OpTrue, codes_Op16; lia|]. by replace (0x50 + n - 0x50) with n in Hser by lia. }
  all: destruct (i64_serialize_Ok n Hn) as (v & Hv & _ & Hw & _); rewrite Hv; cbn [map_err obind]; intros (bs & -> & Hp)%add_data_pushes; [|done]; by exists bs, v.
Qed.

(** ** Several pushes *)

Lemma run_pushes `{Crypto} source vop bss ds rest vm : Forall2 pushes bss ds -> is_executing vm = true ->
  zlen (astack vm) + zlen (dstack vm) + zlen ds <= MAX_STACK_SIZE ->
  foldM_out (execute_parsed source vop) vm (parse_script (concat bss ++ rest)) =
  foldM_out (execute_parsed source vop) (set_dstack (dstack vm ++ ds) vm) (parse_script rest).
Proof.
  intros Hp. revert vm. induction Hp as [|bs d bss ds (op & Hparse & Hrun) Hp IH]; intros vm Hex Hs.
  - cbn [concat app]. rewrite app_nil_r. by destruct vm.
  - cbn [concat]. rewrite <-app_assoc, Hparse. cbn [foldM_out]. unfold zlen in *. cbn [length] in Hs. rewrite Hrun by (try done; lia). cbn [obind].
    rewrite IH; [|done|cbn; rewrite length_app; cbn; lia]. cbn [dstack set_dstack]. by rewrite <-app_assoc.
Qed.

Lemma build_pushes ds s s' : Forall wf_bytes ds -> foldM_out (fun s d => add_data d s) s ds = Ok s' -> exists bss, s' = s ++ concat bss /\ Forall2 pushes bss ds.
Proof.
  intros Hw. revert s. induction Hw as [|d ds Hd Hw IH]; intros s Hrun.
  - injection Hrun as <-. exists []. by rewrite app_nil_r.
  - cbn [foldM_out] in Hrun. apply bind_Ok in Hrun as (s1 & (bs & -> & Hp)%add_data_pushes & Hrun); [|done]. apply IH in Hrun as (bss & -> & Hps).
    exists (bs :: bss). cbn [concat]. rewrite app_assoc. split; [done|by apply Forall2_cons].
Qed.

Lemma is_executing_nil vm : cond_stack vm = [] -> is_executing vm = true.
Proof. unfold is_executing. by intros ->. Qed.

(** A script of pushes leaves their elements. *)
Lemma run_push_script `{Crypto} source vop bss ds vm : Forall2 pushes bss ds -> cond_stack vm = [] -> astack vm = [] -> num_ops vm = 0 ->
  zlen (dstack vm) + zlen ds <= MAX_STACK_SIZE ->
  execute_script source (concat bss) vop vm = Ok (set_dstack (dstack vm ++ ds) vm).
Proof.
  intros Hp Hc Ha Hn Hs. unfold execute_script. rewrite <-(app_nil_r (concat bss)), (run_pushes source vop bss ds [] vm Hp); [|by apply is_executing_nil|rewrite Ha; unfold zlen in *; cbn; lia].
  cbn [foldM_out parse_script parse_loop length obind cond_stack set_dstack]. rewrite Hc. case_bool_decide; [|done]. cbn [negb]. destruct vm. cbn in *. by subst.
Qed.
