(* ===== verification/ScriptVerify.v ===== *)
(** * Signature checks decide validity

    The signature cache and the reused sighash values never change a result: with a sound
    cache, a check returns the verdict of the signature scheme on the transaction's
    signature hash.  The multisig loop finds a matching in key order iff there is one. *)

From Stdlib Require Import ZArith Lia Bool.
From stdpp Require Import base numbers list.
From S2P Require Import Prelude Tx Uint UintLemmas Header Hashing HashingProps ScriptData ScriptOps ScriptEngine ScriptNumbers ScriptSafety.

#[local] Open Scope Z_scope.

(** ** The cache *)

Section Cache.
Context `{Crypto}.

Definition truth (k : SigCacheKey) : bool :=
  match ck_kind k with
  | Schnorr => schnorr_verify (ck_pub_key k) (ck_signature k) (ck_message k)
  | Ecdsa => ecdsa_verify (ck_pub_key k) (ck_signature k) (ck_message k)
  end.
(** Every entry of the cache is the verdict of its scheme. *)
Definition cache_sound (c : Cache) : Prop := Forall (fun kv => kv.2 = truth kv.1) (c_map c).

Lemma cache_get_sound c k v : cache_sound c -> cache_get c k = Some v -> v = truth k.
Proof.
  unfold cache_sound, cache_get. induction (c_map c) as [|[k' v'] l IH]; [done|]. intros [Hv Hl]%Forall_cons. cbn [entries_get fst snd] in *.
  destruct (decide (k' = k)) as [->|]; [by intros [= <-]|by apply IH].
Qed.

Lemma entries_insert_sound k l : Forall (fun kv => kv.2 = truth kv.1) l -> Forall (fun kv => kv.2 = truth kv.1) (entries_insert k (truth k) l).
Proof.
  induction 1 as [|[k' v'] l Hv Hl IH]; cbn [entries_insert]; [by apply Forall_singleton|]. destruct (decide (k' = k)) as [->|]; by apply Forall_cons_2.
Qed.

Lemma swap_remove_Forall {A} (P : A -> Prop) i l : Forall P l -> Forall P (swap_remove_index i l).
Proof.
  intros Hl. unfold swap_remove_index. destruct (vec_pop l) as [[z l']|] eqn:Hp; [|done]. apply vec_pop_Some in Hp as ->. apply Forall_app in Hl as [Hl Hz].
  rewrite Forall_singleton in Hz. destruct (_ =? _)%nat; [done|]. by apply Forall_insert.
Qed.

Lemma cache_insert_sound r c k : cache_sound c -> cache_sound (cache_insert r c k (truth k)).
Proof.
  intros Hc. unfold cache_insert. destruct (_ =? _)%nat; [done|]. apply entries_insert_sound. destruct (_ =? _)%nat; [by apply swap_remove_Forall|done].
Qed.
End Cache.

(** ** The checks *)

Section Verify.
Context `{Crypto}.
Variables (tx : VerifiableTransaction) (input : TransactionInput) (idx : nat) (e : UtxoEntry) (p : bool).
Let source := TxInput tx input idx e p.
Hypothesis Hidx : (idx < length (tx_inputs (v_tx tx)))%nat /\ (idx < length (v_entries tx))%nat.

(** What the engine shares with other runs is consistent. *)
Definition shared_ok (vm : Engine) : Prop := cache_sound (sig_cache vm) /\ reused_ok hash_fn (v_tx tx) (reused_values vm).

(** The messages signed, computed from scratch. *)
Definition schnorr_message (t : Z) : N :=
  match @calc_schnorr_signature_hash hash_fn TxScriptError tx idx t reused_new with Ok (h, _) => h | _ => 0%N end.
Definition ecdsa_message (t : Z) : N :=
  match @calc_ecdsa_signature_hash hash_fn TxScriptError tx idx t reused_new with Ok (h, _) => h | _ => 0%N end.

Lemma messages t r : reused_ok hash_fn (v_tx tx) r -> exists r', reused_ok hash_fn (v_tx tx) r' /\
  @calc_schnorr_signature_hash hash_fn TxScriptError tx idx t r = Ok (schnorr_message t, r') /\
  @calc_ecdsa_signature_hash hash_fn TxScriptError tx idx t r = Ok (ecdsa_message t, r').
Proof using Hidx.
  intros Hr. destruct (schnorr_hash_transparent hash_fn (E := TxScriptError) tx idx t r Hr) as (r' & Hr' & Heq). exists r'. split; [done|].
  destruct (calc_hash_safe (E := TxScriptError) tx idx t reused_new (proj1 Hidx) (proj2 Hidx)) as [Hs _].
  unfold ecdsa_message, calc_ecdsa_signature_hash, schnorr_message. rewrite Heq.
  destruct Hidx as [[i Hi]%lookup_lt_is_Some [en He]%lookup_lt_is_Some].
  assert (Hok : exists h n, @calc_schnorr_signature_hash hash_fn TxScriptError tx idx t reused_new = Ok (h, n)).
  { unfold calc_schnorr_signature_hash, populated_input. rewrite Hi, He. cbn [unwrap obind].
    destruct (previous_outputs_hash _ _ _ _), (sequences_hash _ _ _ _), (sig_op_counts_hash _ _ _ _), (outputs_hash _ _ _ _ _), (payload_hash _ _ _). by eexists _, _. }
  destruct Hok as (h & n & ->). cbn. done.
Qed.

(** A check that returned [b]: one operation spent, stacks and shared state kept. *)
Definition checked_as (b : bool) (vm : Engine) (r : sres (bool * Engine)) : Prop :=
  exists vm', r = Ok (b, vm') /\ shared_ok vm' /\ dstack vm' = dstack vm /\ astack vm' = astack vm /\ cond_stack vm' = cond_stack vm /\
    num_ops vm' = num_ops vm /\ sig_op_remaining (counter vm') = sig_op_remaining (counter vm) - 1.

Lemma cached_verify_spec k vm : shared_ok vm -> exists vm', cached_verify k (truth k) vm = (truth k, vm') /\ shared_ok vm' /\ dstack vm' = dstack vm /\
  astack vm' = astack vm /\ cond_stack vm' = cond_stack vm /\ num_ops vm' = num_ops vm /\ counter vm' = counter vm.
Proof using.
  intros [Hc Hr]. unfold cached_verify. destruct (cache_get (sig_cache vm) k) as [v|] eqn:Hg.
  - apply cache_get_sound in Hg as ->; [|done]. by exists vm.
  - eexists. split; [done|]. cbn. split; [|done]. split; [by apply cache_insert_sound|done].
Qed.

(** Keys and signatures a check accepts as well-formed. *)
Inductive Scheme := SchnorrScheme | EcdsaScheme | MldsaScheme.
Definition sig_len (k : Scheme) : Z := match k with MldsaScheme => 2420 | _ => 64 end.
Definition key_len (k : Scheme) : Z := match k with SchnorrScheme => 32 | EcdsaScheme => 33 | MldsaScheme => 1312 end.
Definition key_ok (k : Scheme) (key : bytes) : Prop :=
  zlen key = key_len k /\ match k with SchnorrScheme => xonly_key_valid key = true | EcdsaScheme => ecdsa_key_valid key = true | MldsaScheme => True end.
Definition sig_ok (k : Scheme) (sig : bytes) : Prop :=
  zlen sig = sig_len k /\
  match k with SchnorrScheme => schnorr_signature_valid sig = true | EcdsaScheme => ecdsa_signature_valid sig = true | MldsaScheme => True end.
Definition check_of (k : Scheme) : Z -> bytes -> bytes -> Engine -> sres (bool * Engine) :=
  match k with SchnorrScheme => check_schnorr_signature source | EcdsaScheme => check_ecdsa_signature source | MldsaScheme => check_mldsa_signature source end.
(** The verdict of the scheme on the transaction. *)
Definition valid_signature (k : Scheme) (t : Z) (key sig : bytes) : bool :=
  match k with
  | SchnorrScheme => schnorr_verify key sig (schnorr_message t)
  | EcdsaScheme => ecdsa_verify key sig (ecdsa_message t)
  | MldsaScheme => mldsa_verify key sig (schnorr_message t)
  end.

Lemma check_of_spec k t key sig vm : key_ok k key -> sig_ok k sig -> shared_ok vm -> 0 < sig_op_remaining (counter vm) ->
  checked_as (valid_signature k t key sig) vm (check_of k t key sig vm).
Proof using Hidx.
  intros [Hkl Hkv] [Hsl Hsv] [Hc Hr] Hrem. destruct (messages t _ Hr) as (r' & Hr' & Hm1 & Hm2). unfold checked_as, valid_signature.
  assert (Hcons : consume_sig_op (counter vm) = Ok (mk_counter (sig_op_limit (counter vm)) (sig_op_remaining (counter vm) - 1))).
  { unfold consume_sig_op. destruct (Z.eqb_spec (sig_op_remaining (counter vm)) 0); [lia|done]. }
  set (vm1 := set_reused r' (set_counter (mk_counter (sig_op_limit (counter vm)) (sig_op_remaining (counter vm) - 1)) vm)).
  assert (H1 : shared_ok vm1) by done.
  destruct k; cbn [check_of key_len sig_len] in *; [unfold check_schnorr_signature|unfold check_ecdsa_signature|unfold check_mldsa_signature];
    unfold source; rewrite Hcons; cbn [obind]; rewrite Hsl; cbn [Z.eqb Pos.eqb negb];
    unfold check_pub_key_encoding, check_pub_key_encoding_ecdsa; rewrite Hkl; cbn [Z.eqb Pos.eqb negb obind]; rewrite ?Hkv, ?Hsv; cbn [negb].
  - change (reused_values (set_counter _ vm)) with (reused_values vm). rewrite Hm1. cbn [obind].
    destruct (cached_verify_spec (mk_key Schnorr sig key (schnorr_message t)) vm1 H1) as (vm2 & Heq & Hsh & Hd & Ha & Hcs & Hn & Hct). exists vm2. fold vm1.
    change (schnorr_verify key sig (schnorr_message t)) with (truth (mk_key Schnorr sig key (schnorr_message t))). rewrite Heq, Hct. done.
  - change (reused_values (set_counter _ vm)) with (reused_values vm). rewrite Hm2. cbn [obind].
    destruct (cached_verify_spec (mk_key Ecdsa sig key (ecdsa_message t)) vm1 H1) as (vm2 & Heq & Hsh & Hd & Ha & Hcs & Hn & Hct). exists vm2. fold vm1.
    change (ecdsa_verify key sig (ecdsa_message t)) with (truth (mk_key Ecdsa sig key (ecdsa_message t))). rewrite Heq, Hct. done.
  - change (reused_values (set_counter _ vm)) with (reused_values vm). rewrite Hm1. cbn [obind]. by exists vm1.
Qed.

(** ** Multisig *)

(** A signature as it lies on the stack, its hash type last. *)
Definition signs (k : Scheme) (item key : bytes) : bool :=
  match vec_pop item with
  | Some (typ, sig) => match sig_hash_type_from_u8 typ with Some t => valid_signature k t key sig | None => false end
  | None => false
  end.
Definition item_ok (k : Scheme) (item : bytes) : Prop := exists typ sig t, item = sig ++ [typ] /\ sig_hash_type_from_u8 typ = Some t /\ sig_ok k sig.

(** The signatures are valid for keys taken in order. *)
Definition matching (k : Scheme) (items keys : list bytes) : Prop :=
  exists ks, sublist ks keys /\ Forall2 (fun item key => signs k item key = true) items ks.

Lemma matching_nil k keys : matching k [] keys.
Proof using. exists []. split; [apply sublist_nil_l|by apply Forall2_nil]. Qed.

Lemma matching_short k items keys : (length keys < length items)%nat -> ~ matching k items keys.
Proof using. clear Hidx. intros Hl (ks & Hs & Hf). apply sublist_length in Hs. apply Forall2_length in Hf. lia. Qed.

Lemma matching_accept k item items key keys : signs k item key = true -> matching k (item :: items) (key :: keys) <-> matching k items keys.
Proof using.
  intros Ha. split.
  - intros (ks & Hs & Hf). apply Forall2_cons_inv_l in Hf as (k1 & ks' & H1 & Hf & ->). exists ks'. split; [|done].
    apply sublist_cons_r in Hs as [Hs|(ks1 & [= <- <-] & Hs)]; [|done]. etrans; [|exact Hs]. by apply sublist_cons.
  - intros (ks & Hs & Hf). exists (key :: ks). split; [by apply sublist_skip|by apply Forall2_cons].
Qed.

Lemma matching_reject k item items key keys : signs k item key = false -> matching k (item :: items) (key :: keys) <-> matching k (item :: items) keys.
Proof using.
  intros Ha. split.
  - intros (ks & Hs & Hf). exists ks. split; [|done]. apply Forall2_cons_inv_l in Hf as (k1 & ks' & H1 & Hf & ->).
    apply sublist_cons_r in Hs as [Hs|(ks1 & [= <- <-] & Hs)]; [done|congruence].
  - intros (ks & Hs & Hf). exists ks. split; [by apply sublist_cons|done].
Qed.

(** What a run of checks keeps, with [n] operations spent at most. *)
Definition checks_kept (n : nat) (vm vm' : Engine) : Prop :=
  shared_ok vm' /\ dstack vm' = dstack vm /\ astack vm' = astack vm /\ cond_stack vm' = cond_stack vm /\ num_ops vm' = num_ops vm /\
  sig_op_remaining (counter vm) - Z.of_nat n <= sig_op_remaining (counter vm').

Lemma multisig_keys_spec k typ sig t items keys vm :
  sig_hash_type_from_u8 typ = Some t -> sig_ok k sig -> Forall (key_ok k) keys -> shared_ok vm -> Z.of_nat (length keys) <= sig_op_remaining (counter vm) ->
  exists rest vm', multisig_keys (fun key => check_of k t key sig) (S (length items)) keys vm = Ok (rest, vm') /\
    match rest with
    | None => ~ matching k ((sig ++ [typ]) :: items) keys /\ checks_kept (length keys) vm vm'
    | Some ks => (matching k ((sig ++ [typ]) :: items) keys <-> matching k items ks) /\ (length ks <= length keys)%nat /\ Forall (key_ok k) ks /\
        checks_kept (length keys - length ks) vm vm'
    end.
Proof using Hidx.
  intros Ht Hsig Hkeys. revert vm. induction Hkeys as [|key keys Hkey Hkeys IH]; intros vm Hsh Hrem; cbn [multisig_keys].
  { exists None, vm. split; [done|]. split; [apply matching_short; cbn; lia|]. repeat split; try done; try apply Hsh; lia. }
  destruct (Nat.ltb_spec (length (key :: keys)) (S (length items))).
  { exists None, vm. split; [done|]. split; [apply matching_short; cbn in *; lia|]. repeat split; try done; try apply Hsh; lia. }
  cbn [length] in Hrem. destruct (check_of_spec k t key sig vm Hkey Hsig Hsh) as (vm1 & -> & Hsh1 & Hd & Ha & Hc & Hn & Hr); [lia|]. cbn [obind].
  assert (Hsign : signs k (sig ++ [typ]) key = valid_signature k t key sig) by (unfold signs; by rewrite vec_pop_snoc, Ht).
  destruct (valid_signature k t key sig).
  - exists (Some keys), vm1. split; [done|]. split; [by apply matching_accept|]. split; [cbn; lia|]. split; [done|]. repeat split; try done; try apply Hsh1. cbn [length]. lia.
  - destruct (IH vm1 Hsh1) as (rest & vm2 & Heq & Hrest); [lia|]. exists rest, vm2. split; [done|]. unfold checks_kept in *. destruct rest as [ks|].
    + destruct Hrest as (Hm & Hl & Hk & Hs2 & Hd2 & Ha2 & Hc2 & Hn2 & Hr2). rewrite (matching_reject k _ items key keys Hsign). split; [done|]. split; [cbn; lia|]. split; [done|].
      split; [done|]. split_and!; try congruence. cbn [length]. lia.
    + destruct Hrest as (Hm & Hs2 & Hd2 & Ha2 & Hc2 & Hn2 & Hr2). rewrite (matching_reject k _ items key keys Hsign). split; [done|].
      split; [done|]. split_and!; try congruence. cbn [length]. lia.
Qed.

Lemma multisig_loop_spec k items keys vm : Forall (item_ok k) items -> Forall (key_ok k) keys -> shared_ok vm ->
  Z.of_nat (length keys) <= sig_op_remaining (counter vm) ->
  exists failed vm', multisig_loop (check_of k) items keys vm = Ok (failed, vm') /\ (failed = false <-> matching k items keys) /\ checks_kept (length keys) vm vm'.
Proof using Hidx.
  intros Hitems. revert keys vm. induction Hitems as [|item items (typ & sig & t & -> & Ht & Hsig) Hitems IH]; intros keys vm Hkeys Hsh Hrem; cbn [multisig_loop].
  { exists false, vm. split; [done|]. split; [split; [intros _; apply matching_nil|done]|]. repeat split; try done; try apply Hsh; lia. }
  rewrite vec_pop_snoc. unfold hash_type_of. rewrite Ht. cbn [obind length].
  destruct (multisig_keys_spec k typ sig t items keys vm Ht Hsig Hkeys Hsh Hrem) as (rest & vm1 & -> & Hrest). cbn [obind]. destruct rest as [ks|].
  - destruct Hrest as (Hm & Hl & Hk & Hs2 & Hd2 & Ha2 & Hc2 & Hn2 & Hr2). destruct (IH ks vm1 Hk Hs2) as (failed & vm2 & -> & Hf & Hs3 & Hd3 & Ha3 & Hc3 & Hn3 & Hr3); [lia|].
    exists failed, vm2. split; [done|]. rewrite Hm. split; [done|]. split; [done|]. split_and!; try congruence. lia.
  - destruct Hrest as (Hm & Hkept). exists true, vm1. split; [done|]. split; [|done]. split; [done|]. intros Hc. by destruct Hm.
Qed.
End Verify.
