(* ===== verification/ScriptSpend.v ===== *)
(** * Spending standard outputs

    Runs of the whole engine on the standard outputs: an output paid to a public key is
    spent exactly by a valid signature, a pay-to-script-hash multisig output exactly by
    signatures that match its keys in order. *)

From Stdlib Require Import ZArith Lia Bool.
From stdpp Require Import base numbers list.
From S2P Require Import Prelude Tx Uint UintLemmas Header Hashing HashingProps Address ScriptData ScriptOps ScriptEngine ScriptStandard ScriptNumbers ScriptSafety ScriptCount ScriptBuild ScriptVerify.

#[local] Open Scope Z_scope.

(** ** Stack *)

Lemma split_off_app {A} (s t : list A) n : n = length t -> split_off n (s ++ t) = (s, t).
Proof.
  intros ->. unfold split_off. rewrite length_app. replace (length s + length t - length t)%nat with (length s) by lia. by rewrite take_app_length, drop_app_length.
Qed.

Lemma pop_raw_app s t n : n = length t -> pop_raw n (s ++ t) = Ok (t, s).
Proof.
  intros Hn. unfold pop_raw. destruct (Nat.ltb_spec (length (s ++ t)) n); [rewrite length_app in *; lia|]. by rewrite (split_off_app s t n Hn).
Qed.

Lemma pop_item_snoc {T} (f : bytes -> sres T) s a x : f a = Ok x -> pop_items f 1 (s ++ [a]) = Ok ([x], s).
Proof.
  intros Hx. unfold pop_items. destruct (Nat.ltb_spec (length (s ++ [a])) 1); [rewrite length_app in *; cbn in *; lia|].
  rewrite (split_off_app s [a]) by done. cbn [mapM_out]. by rewrite Hx.
Qed.

Definition count_ok (n : nat) : bool :=
  match i64_serialize (Z.of_nat n) with Ok v => match i32_deserialize v with Ok m => m =? Z.of_nat n | _ => false end | _ => false end.
Lemma count_serialized n v : 0 <= n <= MAX_PUB_KEYS_PER_MUTLTISIG -> i64_serialize n = Ok v -> i32_deserialize v = Ok n.
Proof.
  unfold MAX_PUB_KEYS_PER_MUTLTISIG. intros Hn Hv. assert (Hall : forallb count_ok (seq 0 21) = true) by (vm_compute; reflexivity).
  rewrite forallb_forall in Hall. specialize (Hall (Z.to_nat n) ltac:(apply in_seq; lia)). unfold count_ok in Hall. rewrite Z2Nat.id, Hv in Hall by lia.
  destruct (i32_deserialize v); try discriminate. by apply Z.eqb_eq in Hall as ->.
Qed.

(** ** Opcodes that are not pushes *)

Lemma operation_runs `{Crypto} source vm c : NO_COST_OPCODE < c -> is_disabled (mk_opcode c []) = false -> always_illegal (mk_opcode c []) = false ->
  is_executing vm = true -> 0 <= num_ops vm < MAX_OPS_PER_SCRIPT ->
  execute_parsed source false vm (Ok (mk_opcode c [])) =
  (let! vm := op_execute source (mk_opcode c []) (set_num_ops (num_ops vm + 1) vm) in
   if MAX_STACK_SIZE <? zlen (astack vm) + zlen (dstack vm) then Err (StackSizeExceeded (zlen (astack vm) + zlen (dstack vm)) MAX_STACK_SIZE) else Ok vm).
Proof.
  intros Hc Hdis Hill Hex Hn. unfold execute_parsed. cbn [obind]. rewrite Hdis, Hill. cbn [andb]. unfold execute_opcode, is_push_opcode. cbn [op_value].
  destruct (Z.leb_spec c NO_COST_OPCODE); [lia|]. cbn [negb]. unfold add_num_ops, MAX_OPS_PER_SCRIPT, NO_COST_OPCODE in *.
  assert (Hi : is_i32 (num_ops vm + 1) = true) by (unfold is_i32; lia). rewrite Hi.
  destruct (Z.ltb_spec 201 (num_ops vm + 1)); [lia|]. cbn [andb obind]. change (is_executing (set_num_ops (num_ops vm + 1) vm)) with (is_executing vm). rewrite Hex. cbn [orb].
  destruct (Z.leb_spec c 78); [lia|]. rewrite andb_false_r. done.
Qed.

(** ** The last check *)

Lemma final_check vm b : dstack vm = [bool_serialize b] -> check_error_condition true vm = if b then Ok (set_dstack [] vm) else Err EvalFalse.
Proof. intros Hd. unfold check_error_condition. rewrite Hd. by destruct b. Qed.

(** ** Two scripts *)

Section Spend.
Context `{Crypto}.
Variables (tx : VerifiableTransaction) (input : TransactionInput) (idx : nat) (e : UtxoEntry).
Hypothesis Hidx : (idx < length (tx_inputs (v_tx tx)))%nat /\ (idx < length (v_entries tx))%nat.

Lemma run_two p sig spk vm : let source := TxInput tx input idx e p in
  sig <> [] -> spk <> [] -> zlen sig <= MAX_SCRIPTS_SIZE -> zlen spk <= MAX_SCRIPTS_SIZE ->
  run_scripts source [sig; spk] p vm =
  (let! vm1 := execute_script source sig true vm in
   let! vm2 := execute_script source spk false vm1 in
   let! vm3 := if p then
       let! vm := check_error_condition false vm2 in
       match vec_pop (dstack vm1) with None => Err EmptyStack | Some (script, s) => execute_script source script false (set_dstack s vm) end
     else Ok vm2 in
   check_error_condition true vm3).
Proof using.
  clear Hidx. intros source Hs Hk Hls Hlk. unfold run_scripts. case_bool_decide; [done|]. cbn [forallb List.find length seq zip zip_with List.filter snd].
  destruct (bool_decide_reflect (sig = [])); [done|]. destruct (bool_decide_reflect (spk = [])); [done|]. cbn [andb negb].
  destruct (Z.ltb_spec MAX_SCRIPTS_SIZE (zlen sig)); [lia|]. destruct (Z.ltb_spec MAX_SCRIPTS_SIZE (zlen spk)); [lia|].
  cbn [foldM_out run_script Nat.eqb andb]. rewrite andb_false_r. change (match source with TxInput _ _ _ _ _ => true | _ => false end) with true.
  destruct (execute_script source sig true vm) as [vm1| | |]; cbn [obind]; try done. cbn [run_script Nat.eqb andb]. rewrite andb_true_r.
  destruct (execute_script source spk false vm1) as [vm2| | |]; cbn [obind]; try done. destruct (p); done.
Qed.

(** ** Signature opcodes *)

Definition op_of_scheme (k : Scheme) : Z :=
  match k with SchnorrScheme => codes_OpCheckSig | EcdsaScheme => codes_OpCheckSigECDSA | MldsaScheme => codes_OpCheckSigMLDSA end.

Lemma op_check_sig_spec p k s item key vm : dstack vm = s ++ [item; key] -> item_ok k item -> key_ok k key -> shared_ok tx vm -> 0 < sig_op_remaining (counter vm) ->
  exists vm', op_check_sig (check_of tx input idx e p k) vm = Ok vm' /\ dstack vm' = s ++ [bool_serialize (signs tx idx k item key)] /\
    shared_ok tx vm' /\ astack vm' = astack vm /\ cond_stack vm' = cond_stack vm /\ num_ops vm' = num_ops vm.
Proof using Hidx.
  intros Hd (typ & sig & t & -> & Ht & Hsig) Hkey Hsh Hrem. unfold op_check_sig. rewrite Hd, pop_raw_app by done. cbn [obind arr2]. rewrite vec_pop_snoc.
  unfold hash_type_of, signs. rewrite vec_pop_snoc, Ht. cbn [obind].
  destruct (check_of_spec tx input idx e p Hidx k t key sig (set_dstack s vm) Hkey Hsig Hsh Hrem) as (vm' & -> & Hsh' & Hd' & Ha & Hc & Hn & _). cbn [obind].
  eexists. split; [done|]. cbn. rewrite Hd'. done.
Qed.

(** The signature script of a spend and the script that pays to a key. *)
Lemma pubkey_run k sig item key vm : let source := TxInput tx input idx e false in
  pushes sig item -> sig <> [] -> zlen sig <= MAX_SCRIPTS_SIZE -> item_ok k item -> key_ok k key -> wf_bytes key ->
  dstack vm = [] -> astack vm = [] -> cond_stack vm = [] -> num_ops vm = 0 -> shared_ok tx vm -> 0 < sig_op_remaining (counter vm) ->
  exists vm', run_scripts source [sig; add_raw_data key [] ++ [op_of_scheme k]] false vm = (if signs tx idx k item key then Ok vm' else Err EvalFalse) /\ shared_ok tx vm'.
Proof using Hidx.
  intros source Hp Hne Hls Hitem Hkey Hwk Hd Ha Hc Hn Hsh Hrem. assert (Hkl : zlen key <= 1312) by (destruct Hkey as [-> _]; by destruct k).
  pose proof (add_raw_data_pushes key Hwk ltac:(unfold MAX_SCRIPT_ELEMENT_SIZE; lia)) as Hpk.
  pose proof (run_two false sig (add_raw_data key [] ++ [op_of_scheme k]) vm) as Hrun. cbv zeta in Hrun. fold source in Hrun.
  rewrite Hrun; clear Hrun; [|done|by destruct (add_raw_data key [])|done|].
  2:{ rewrite zlen_app. unfold add_raw_data, MAX_SCRIPTS_SIZE in *. assert (0 <= zlen key) by (unfold zlen; lia). change (zlen [op_of_scheme k]) with 1. cbn [app].
      repeat case_match; rewrite ?zlen_app; unfold zlen in *; cbn [length]; rewrite ?length_le_bytes; lia. }
  pose proof (run_push_script source true [sig] [item] vm ltac:(by repeat constructor) Hc Ha Hn) as Hsig. cbn [concat] in Hsig. rewrite app_nil_r in Hsig.
  rewrite Hsig by (rewrite Hd; done). cbn [obind]. rewrite Hd. cbn [app]. unfold execute_script.
  pose proof (run_pushes source false [add_raw_data key []] [key] [op_of_scheme k] (set_dstack [item] vm) ltac:(by repeat constructor)) as Hkeys.
  cbn [concat] in Hkeys. rewrite app_nil_r in Hkeys. rewrite Hkeys; [|by apply is_executing_nil|cbn; rewrite Ha; done]. clear Hkeys Hsig.
  set (vm1 := set_dstack (dstack (set_dstack [item] vm) ++ [key]) (set_dstack [item] vm)).
  destruct (op_check_sig_spec false k [] item key (set_num_ops (num_ops vm1 + 1) vm1)) as (vm2 & Hrun & Hd2 & Hsh2 & Ha2 & Hc2 & Hn2); try done.
  assert (Hparse : parse_script [op_of_scheme k] = [Ok (mk_opcode (op_of_scheme k) [])]) by (by destruct k). rewrite Hparse. cbn [foldM_out].
  rewrite operation_runs; [|by destruct k|by destruct k|by destruct k|by apply is_executing_nil|cbn; rewrite Hn; done].
  assert (Hexe : op_execute source (mk_opcode (op_of_scheme k) []) = op_check_sig (check_of tx input idx e false k)) by (by destruct k).
  rewrite Hexe, Hrun. cbn [obind]. rewrite Ha2, Hd2. cbn [app astack set_num_ops set_dstack vm1]. rewrite Ha. cbn [obind]. change (MAX_STACK_SIZE <? _) with false. cbn [obind].
  rewrite Hc2. cbn [cond_stack set_num_ops set_dstack vm1]. rewrite Hc. case_bool_decide; [|done]. cbn [negb obind].
  rewrite (final_check _ (signs tx idx k item key)) by done. eexists. split; [done|done].
Qed.

(** ** Multisig *)

Definition multisig_scheme (ecdsa : bool) : Scheme := if ecdsa then EcdsaScheme else SchnorrScheme.
Definition multisig_op (ecdsa : bool) : Z := if ecdsa then codes_OpCheckMultiSigECDSA else codes_OpCheckMultiSig.

Lemma item_ok_nonempty k item : item_ok k item -> item <> [].
Proof using. intros (typ & sig & t & -> & _) Hnil. by destruct sig. Qed.

Lemma op_check_multisig_spec p ecdsa s items keys vn vk vm : let k := multisig_scheme ecdsa in
  dstack vm = s ++ items ++ [vn] ++ keys ++ [vk] -> i64_serialize (zlen items) = Ok vn -> i64_serialize (zlen keys) = Ok vk ->
  zlen items <= zlen keys <= MAX_PUB_KEYS_PER_MUTLTISIG -> 0 <= num_ops vm <= 1 ->
  Forall (item_ok k) items -> Forall (key_ok k) keys -> shared_ok tx vm -> zlen keys <= sig_op_remaining (counter vm) ->
  exists vm', (matching tx idx k items keys -> op_check_multisig_schnorr_or_ecdsa (TxInput tx input idx e p) ecdsa vm = Ok vm') /\
    (~ matching tx idx k items keys -> op_check_multisig_schnorr_or_ecdsa (TxInput tx input idx e p) ecdsa vm = Err NullFail) /\
    dstack vm' = s ++ [[1]] /\ shared_ok tx vm' /\ astack vm' = astack vm /\ cond_stack vm' = cond_stack vm.
Proof using Hidx.
  intros k Hd Hvn Hvk Hlen Hops Hitems Hkeys Hsh Hrem. unfold op_check_multisig_schnorr_or_ecdsa.
  assert (Hpos : 0 <= zlen items /\ 0 <= zlen keys) by (unfold zlen; lia). pose proof Hlen as Hlen'. unfold MAX_PUB_KEYS_PER_MUTLTISIG in Hlen'.
  rewrite Hd, !app_assoc. rewrite (pop_item_snoc i32_deserialize _ vk (zlen keys)) by (apply count_serialized; [lia|done]). cbn [obind arr1].
  destruct (Z.ltb_spec (zlen keys) 0); [lia|]. destruct (Z.ltb_spec MAX_PUB_KEYS_PER_MUTLTISIG (zlen keys)); [lia|].
  unfold add_num_ops. cbn [num_ops set_dstack]. assert (Hi : is_i32 (num_ops vm + zlen keys) = true) by (unfold is_i32; lia). rewrite Hi.
  unfold MAX_OPS_PER_SCRIPT. destruct (Z.ltb_spec 201 (num_ops vm + zlen keys)); [lia|]. cbn [obind dstack set_num_ops set_dstack].
  assert (Hnk : Z.to_nat (zlen keys) = length keys) by (unfold zlen; lia). rewrite Hnk.
  destruct (Nat.ltb_spec (length (((s ++ items) ++ [vn]) ++ keys)) (length keys)) as [Hlt|_]; [rewrite length_app in Hlt; lia|].
  rewrite split_off_app by done. rewrite (pop_item_snoc i32_deserialize _ vn (zlen items)) by (apply count_serialized; [lia|done]). cbn [obind arr1 dstack set_dstack].
  destruct (Z.ltb_spec (zlen items) 0); [lia|]. destruct (Z.ltb_spec (zlen keys) (zlen items)); [lia|].
  assert (Hni : Z.to_nat (zlen items) = length items) by (unfold zlen; lia). rewrite Hni.
  destruct (Nat.ltb_spec (length (s ++ items)) (length items)) as [Hlt|_]; [rewrite length_app in Hlt; lia|]. rewrite split_off_app by done.
  assert (Hcheck : (if ecdsa then check_ecdsa_signature (TxInput tx input idx e p) else check_schnorr_signature (TxInput tx input idx e p)) = check_of tx input idx e p k) by (by destruct ecdsa).
  rewrite Hcheck. match goal with |- context [multisig_loop _ items keys ?v] => set (vm1 := v) end.
  destruct (multisig_loop_spec tx input idx e p Hidx k items keys vm1 Hitems Hkeys Hsh Hrem) as (failed & vm2 & -> & Hf & Hsh2 & Hd2 & Ha2 & Hc2 & _). cbn [obind].
  exists (set_dstack (push_bool true (dstack vm2)) vm2). split; [|split; [|cbn; rewrite Hd2; done]].
  - intros ->%Hf. done.
  - intros Hm. destruct failed; [|by destruct Hm; apply Hf]. cbn [andb]. destruct items as [|item items]; [by destruct Hm; apply matching_nil|].
    apply Forall_cons in Hitems as [Hitem%item_ok_nonempty _]. cbn [existsb]. by case_bool_decide.
Qed.

(** The redeem script that the builder makes. *)
Lemma multisig_script_pushes op keys required redeem : Forall wf_bytes keys -> 0 <= required -> zlen keys < I64 -> multisig_script op keys required = Ok redeem ->
  exists bss vn vk, redeem = concat bss ++ [op] /\ Forall2 pushes bss ([vn] ++ keys ++ [vk]) /\
    i64_serialize required = Ok vn /\ i64_serialize (zlen keys) = Ok vk /\ required <= zlen keys.
Proof using.
  clear Hidx. intros Hw Hr Hl. assert (0 <= zlen keys) by (unfold zlen; lia). unfold multisig_script.
  destruct (Z.ltb_spec (zlen keys) required); [done|]. intros Hrun. apply bind_Ok in Hrun as (s1 & Hb1 & Hrun). apply bind_Ok in Hrun as (s2 & Hb2 & Hrun).
  destruct (_ =? 0); [done|]. apply bind_Ok in Hrun as (s3 & Hb3 & Hrun).
  assert (Hme : forall {E E' A} (f : E -> E') (m : outcome E A) a, map_err f m = Ok a -> m = Ok a) by (intros E E' A f m a; destruct m; cbn; congruence).
  apply Hme in Hb1, Hb2, Hb3, Hrun. apply add_i64_pushes in Hb1 as (b1 & vn & -> & Hvn & Hp1); [|lia]. apply build_pushes in Hb2 as (bss & -> & Hp2); [|done].
  apply add_i64_pushes in Hb3 as (b3 & vk & -> & Hvk & Hp3); [|lia]. unfold add_op in Hrun. destruct (_ <=? _); [done|]. injection Hrun as <-.
  exists ([b1] ++ bss ++ [b3]), vn, vk. split; [|split_and!; try done].
  - rewrite !concat_app. cbn [concat]. by rewrite !app_nil_r, <-!app_assoc.
  - apply Forall2_app; [by repeat constructor|]. apply Forall2_app; [done|by repeat constructor].
Qed.

(** ** Pay-to-script-hash *)

Lemma p2sh_runs p s script vm : let source := TxInput tx input idx e p in
  length (blake2b_256 script) = 32%nat -> dstack vm = s ++ [script] -> zlen s < 200 -> astack vm = [] -> cond_stack vm = [] -> num_ops vm = 0 ->
  execute_script source ([codes_OpBlake2b; codes_OpData32] ++ blake2b_256 script ++ [codes_OpEqual]) false vm = Ok (set_dstack (s ++ [[1]]) vm).
Proof using.
  clear Hidx. intros source Hl Hd Hs Ha Hc Hn. unfold execute_script. rewrite p2sh_parse by done. cbn [foldM_out].
  rewrite operation_runs; [|done|done|done|by apply is_executing_nil|rewrite Hn; done].
  change (op_execute source (mk_opcode codes_OpBlake2b [])) with (hash_op blake2b_256). unfold hash_op, on_dstack. cbn [dstack set_num_ops].
  rewrite Hd, pop_raw_app by done. cbn [obind arr1 dstack astack set_dstack set_num_ops]. rewrite Ha, !zlen_app. change (zlen (@nil bytes)) with 0. change (zlen [blake2b_256 script]) with 1.
  unfold MAX_STACK_SIZE at 1. destruct (Z.ltb_spec 244 (0 + (zlen s + 1))); [lia|]. cbn [obind].
  assert (Hz : zlen (blake2b_256 script) = 32) by (unfold zlen; lia).
  rewrite data_push_runs; [|done|rewrite Hz; done| |by apply is_executing_nil|cbn [dstack astack set_dstack set_num_ops]; rewrite Ha, zlen_app; unfold zlen, MAX_STACK_SIZE in *; cbn; lia].
  2:{ unfold check_minimal_data_push, op_len. cbn [op_data op_value]. by rewrite Hz. }
  cbn [obind]. rewrite operation_runs; [|done|done|done|by apply is_executing_nil|cbn; rewrite Hn; done].
  change (op_execute source (mk_opcode codes_OpEqual [])) with op_equal. unfold op_equal, on_dstack. cbn [dstack set_num_ops set_dstack]. rewrite <-app_assoc. cbn [app].
  destruct (Nat.leb_spec 2 (length (s ++ [blake2b_256 script; blake2b_256 script]))) as [_|Hx]; [|rewrite length_app in Hx; cbn in Hx; lia].
  rewrite split_off_app by done. cbn [obind arr2]. case_bool_decide; [|done]. cbn [obind dstack astack set_dstack set_num_ops]. rewrite Ha, zlen_app.
  change (zlen (@nil bytes)) with 0. change (zlen [[1]]) with 1. unfold MAX_STACK_SIZE. destruct (Z.ltb_spec 244 (0 + (zlen s + 1))); [lia|].
  cbn [obind cond_stack set_dstack set_num_ops]. rewrite Hc. case_bool_decide; [|done]. cbn [negb]. destruct vm. cbn in *. by subst.
Qed.

(** The redeem script on the signatures. *)
Lemma redeem_runs ecdsa items keys redeem vm : let k := multisig_scheme ecdsa in let source := TxInput tx input idx e true in
  multisig_script (multisig_op ecdsa) keys (zlen items) = Ok redeem -> Forall wf_bytes keys -> zlen keys <= MAX_PUB_KEYS_PER_MUTLTISIG ->
  Forall (item_ok k) items -> Forall (key_ok k) keys -> shared_ok tx vm -> zlen keys <= sig_op_remaining (counter vm) ->
  dstack vm = items -> astack vm = [] -> cond_stack vm = [] -> num_ops vm = 0 ->
  exists vm', (matching tx idx k items keys -> execute_script source redeem false vm = Ok vm') /\
    (~ matching tx idx k items keys -> execute_script source redeem false vm = Err NullFail) /\ dstack vm' = [[1]] /\ shared_ok tx vm'.
Proof using Hidx.
  intros k source Hbuild Hw Hlk Hitems Hkeys Hsh Hrem Hd Ha Hc Hn. unfold MAX_PUB_KEYS_PER_MUTLTISIG in Hlk.
  assert (Hpos : 0 <= zlen items /\ 0 <= zlen keys) by (unfold zlen; lia).
  apply multisig_script_pushes in Hbuild as (bss & vn & vk & -> & Hp & Hvn & Hvk & Hle); [|done|lia|lia].
  unfold execute_script. assert (Hroom : zlen (astack vm) + zlen (dstack vm) + zlen ([vn] ++ keys ++ [vk]) <= MAX_STACK_SIZE).
  { rewrite Ha, Hd, !zlen_app. change (zlen (@nil bytes)) with 0. change (zlen [vn]) with 1. change (zlen [vk]) with 1. unfold MAX_STACK_SIZE. lia. }
  rewrite (run_pushes source false bss ([vn] ++ keys ++ [vk]) [multisig_op ecdsa] vm Hp (is_executing_nil vm Hc) Hroom).
  set (vm1 := set_dstack (dstack vm ++ [vn] ++ keys ++ [vk]) vm).
  assert (Hparse : parse_script [multisig_op ecdsa] = [Ok (mk_opcode (multisig_op ecdsa) [])]) by (by destruct ecdsa). rewrite Hparse. cbn [foldM_out].
  rewrite operation_runs; [|by destruct ecdsa|by destruct ecdsa|by destruct ecdsa|by apply is_executing_nil|cbn; rewrite Hn; done].
  assert (Hexe : op_execute source (mk_opcode (multisig_op ecdsa) []) = op_check_multisig_schnorr_or_ecdsa source ecdsa) by (by destruct ecdsa). rewrite Hexe.
  destruct (op_check_multisig_spec true ecdsa [] items keys vn vk (set_num_ops (num_ops vm1 + 1) vm1)) as (vm2 & Hok & Hbad & Hd2 & Hsh2 & Ha2 & Hc2); try done.
  { cbn. by rewrite Hd. } { cbn. rewrite Hn. lia. }
  exists (set_num_ops 0 (set_astack [] vm2)). split; [|split; [|done]].
  - intros Hm. unfold source. rewrite (Hok Hm). cbn [obind]. rewrite Ha2, Hd2. cbn [astack vm1 set_dstack set_num_ops app]. rewrite Ha. change (MAX_STACK_SIZE <? _) with false.
    cbn [obind]. rewrite Hc2. cbn [cond_stack vm1 set_dstack set_num_ops]. rewrite Hc. by case_bool_decide.
  - intros Hm. unfold source. by rewrite (Hbad Hm).
Qed.

(** A spend of a pay-to-script-hash multisig output. *)
Lemma multisig_run ecdsa items keys redeem sigs sig vm : let k := multisig_scheme ecdsa in let source := TxInput tx input idx e true in
  multisig_script (multisig_op ecdsa) keys (zlen items) = Ok redeem -> wf_bytes redeem -> length (blake2b_256 redeem) = 32%nat ->
  foldM_out (fun s d => add_data d s) [] items = Ok sigs -> pay_to_script_hash_signature_script redeem sigs = Ok sig -> zlen sig <= MAX_SCRIPTS_SIZE ->
  Forall wf_bytes items -> Forall wf_bytes keys -> zlen keys <= MAX_PUB_KEYS_PER_MUTLTISIG ->
  Forall (item_ok k) items -> Forall (key_ok k) keys -> shared_ok tx vm -> zlen keys <= sig_op_remaining (counter vm) ->
  dstack vm = [] -> astack vm = [] -> cond_stack vm = [] -> num_ops vm = 0 ->
  exists vm', (matching tx idx k items keys -> run_scripts source [sig; spk_script (pay_to_script_hash_script redeem)] true vm = Ok vm') /\
    (~ matching tx idx k items keys -> run_scripts source [sig; spk_script (pay_to_script_hash_script redeem)] true vm = Err NullFail) /\ shared_ok tx vm'.
Proof using Hidx.
  intros k source Hbuild Hwr Hlen Hsigs Hsig Hsize Hwi Hwk Hlk Hitems Hkeys Hsh Hrem Hd Ha Hc Hn.
  apply build_pushes in Hsigs as (bss & -> & Hps); [|done]. cbn [app] in Hsig. unfold pay_to_script_hash_signature_script in Hsig.
  apply bind_Ok in Hsig as (rs & (br & -> & Hpr)%add_data_pushes & [= <-]); [|done]. cbn [app] in *.
  assert (Hle : zlen items <= 20).
  { apply multisig_script_pushes in Hbuild as (? & ? & ? & _ & _ & _ & _ & ?); [|done|unfold zlen; lia|unfold MAX_PUB_KEYS_PER_MUTLTISIG in *; lia]. unfold MAX_PUB_KEYS_PER_MUTLTISIG in *. lia. }
  pose proof (run_push_script source true (bss ++ [br]) (items ++ [redeem]) vm ltac:(apply Forall2_app; [done|by repeat constructor]) Hc Ha Hn) as Hsig.
  rewrite concat_app in Hsig. cbn [concat] in Hsig. rewrite app_nil_r in Hsig. rewrite Hd in Hsig. cbn [app] in Hsig.
  pose proof (run_two true (concat bss ++ br) (spk_script (pay_to_script_hash_script redeem)) vm) as Hrun. cbv zeta in Hrun. fold source in Hrun.
  assert (Hne : concat bss ++ br <> []).
  { destruct Hpr as (op & Hparse & _). intros [_ ->]%app_eq_nil. specialize (Hparse []). done. }
  rewrite Hrun; clear Hrun; [|done|done|done|unfold pay_to_script_hash_script; cbn [spk_script]; rewrite !zlen_app; unfold zlen; rewrite Hlen; done].
  rewrite Hsig by (rewrite zlen_app; change (zlen [redeem]) with 1; change (zlen (@nil bytes)) with 0; unfold MAX_STACK_SIZE; lia).
  cbn [obind]. unfold pay_to_script_hash_script. cbn [spk_script].
  pose proof (p2sh_runs true items redeem (set_dstack (items ++ [redeem]) vm) Hlen) as Hk. cbv zeta in Hk. fold source in Hk. rewrite Hk; try done; [|lia].
  cbn [obind]. unfold check_error_condition at 1 3. cbn [andb dstack set_dstack]. rewrite (pop_item_snoc bool_deserialize items [1] true) by done. cbn [obind arr1].
  rewrite vec_pop_snoc.
  match goal with |- context [execute_script source redeem false ?v] => destruct (redeem_runs ecdsa items keys redeem v) as (vm3 & Hok & Hbad & Hd3 & Hsh3); try done end.
  exists (set_dstack [] vm3). fold source in Hok, Hbad. split; [|split; [|done]].
  - intros Hm. rewrite (Hok Hm). cbn [obind]. by rewrite (final_check _ true).
  - intros Hm. by rewrite (Hbad Hm).
Qed.
End Spend.
