(* ===== verification/ScriptProps.v ===== *)
(** * Properties of scripts

    The theorems about the script engine, the script builder and the standard scripts,
    with their instances on concrete transactions. *)

From Stdlib Require Import ZArith Lia Bool.
From stdpp Require Import base numbers list.
From S2P Require Import Prelude Tx Uint UintLemmas Header Hashing HashingProps Address ScriptData ScriptOps ScriptEngine ScriptStandard ScriptNumbers ScriptSafety ScriptCount ScriptBuild ScriptVerify ScriptSpend.

#[local] Open Scope Z_scope.

(** The scripts of a transaction and of the outputs it spends are byte strings. *)
Record tx_bytes (tx : VerifiableTransaction) : Prop := mk_tx_bytes {
  tb_inputs : Forall (fun i => wf_bytes (in_signature_script i) /\ 0 <= in_sig_op_count i < U8) (tx_inputs (v_tx tx));
  tb_entries : Forall (fun e => wf_bytes (spk_script (ue_script_public_key e))) (v_entries tx);
  tb_outputs : Forall (fun o => wf_bytes (spk_script (out_script_public_key o))) (tx_outputs (v_tx tx))
}.

(** Input [idx] of the transaction with the output it spends. *)
Record spends (tx : VerifiableTransaction) (idx : nat) (input : TransactionInput) (e : UtxoEntry) : Prop := mk_spends {
  sp_input : tx_inputs (v_tx tx) !! idx = Some input;
  sp_entry : v_entries tx !! idx = Some e
}.

Definition spend_source (tx : VerifiableTransaction) (idx : nat) (input : TransactionInput) (e : UtxoEntry) : ScriptSource :=
  TxInput tx input idx e (is_pay_to_script_hash (spk_script (ue_script_public_key e))).

Lemma spends_idx tx idx input e : spends tx idx input e -> (idx < length (tx_inputs (v_tx tx)))%nat /\ (idx < length (v_entries tx))%nat.
Proof. intros [Hi He]. split; by eapply lookup_lt_Some. Qed.

Lemma spend_source_wf tx idx input e : tx_bytes tx -> spends tx idx input e -> source_wf (spend_source tx idx input e).
Proof.
  intros [Hi He Ho] Hs. destruct (spends_idx _ _ _ _ Hs). destruct Hs as [Hli Hle]. split; [|done]. intros tx' input' idx' e' p [= <- <- <- <- <-].
  rewrite Forall_lookup in Hi. split_and!; try done; [by apply (Hi idx)|]. rewrite Forall_lookup in He. by apply (He idx).
Qed.

Lemma from_input_spec tx idx input e r c ev : spends tx idx input e ->
  from_transaction_input tx input idx e r c ev = Ok (spend_source tx idx input e, fresh_engine (in_sig_op_count input) c r ev).
Proof.
  intros [Hl _]%spends_idx. unfold from_transaction_input, zlen. destruct (Z.ltb_spec (Z.of_nat idx) (Z.of_nat (length (tx_inputs (v_tx tx))))); [done|lia].
Qed.

Lemma fresh_engine_wf n c r ev : 0 <= n -> engine_wf (fresh_engine n c r ev).
Proof. intros Hn. split; cbn; [apply Forall_nil_2|apply Forall_nil_2|done|lia]. Qed.

Lemma used_of_spent {E} n c r ev vm' cost : step_ok cost (fresh_engine n c r ev) vm' -> exists used, @used_sig_ops E vm' = Ok used /\ 0 <= used <= cost.
Proof.
  intros ([_ _ _ Hr] & Hl & Hs). unfold spent in Hs. cbn in Hl, Hs. exists (sig_op_limit (counter vm') - sig_op_remaining (counter vm')). split; [|lia].
  unfold used_sig_ops, counter_used. apply usub_le. lia.
Qed.

(** C21: Running the scripts of a transaction input never panics, whatever the bytes of the
    scripts: the run succeeds or returns one of the engine's errors.  A successful run has
    used at most as many signature operations as the input commits to. *)
Theorem script_engine_never_panics `{CS : CryptoSpec} tx idx input e r c ev : tx_bytes tx -> spends tx idx input e ->
  exists source vm, from_transaction_input tx input idx e r c ev = Ok (source, vm) /\
    ((exists vm' used, execute source vm = Ok vm' /\ used_sig_ops (E := TxScriptError) vm' = Ok used /\ 0 <= used <= in_sig_op_count input) \/
     (exists error, execute source vm = Err error)).
Proof.
  intros Htx Hs. exists (spend_source tx idx input e), (fresh_engine (in_sig_op_count input) c r ev). split; [by apply from_input_spec|].
  assert (Hn : 0 <= in_sig_op_count input) by (destruct Htx as [Hi _ _]; rewrite Forall_lookup in Hi; destruct (Hi idx input (sp_input _ _ _ _ Hs)); lia).
  pose proof (execute_safe _ _ (spend_source_wf _ _ _ _ Htx Hs) (fresh_engine_wf _ c r ev Hn)) as Hsafe.
  destruct (execute _ _) as [vm'|error| |]; [left|right; by exists error|done|done]. destruct Hsafe as [[_ _ _ Hr] Hl]. cbn in Hl.
  exists vm', (sig_op_limit (counter vm') - sig_op_remaining (counter vm')). split; [done|]. split; [|lia]. unfold used_sig_ops, counter_used. apply usub_le. lia.
Qed.

(** C35: The static count bounds every run: when the scripts of an input run successfully,
    the signature operations used are at most the upper bound computed from the signature
    script and the spent output alone, also through pay-to-script-hash. *)
Theorem sig_ops_within_static_count `{CS : CryptoSpec} tx idx input e r c ev vm' n : tx_bytes tx -> spends tx idx input e ->
  execute (spend_source tx idx input e) (fresh_engine (in_sig_op_count input) c r ev) = Ok vm' ->
  get_sig_op_count_upper_bound (E := TxScriptError) (in_signature_script input) (ue_script_public_key e) = Ok n ->
  exists used, used_sig_ops (E := TxScriptError) vm' = Ok used /\ 0 <= used <= n.
Proof.
  intros Htx Hs Hrun Hn. assert (H0 : 0 <= in_sig_op_count input).
  { destruct Htx as [Hi _ _]. rewrite Forall_lookup in Hi. destruct (Hi idx input (sp_input _ _ _ _ Hs)). lia. }
  eapply used_of_spent, execute_count; [by apply (spend_source_wf tx idx input e)|by apply fresh_engine_wf|done|done|exact Hrun|exact Hn].
Qed.

(** ** Standard outputs *)

Definition scheme_of_version (v : Version) : option Scheme :=
  match v with PubKey => Some SchnorrScheme | PubKeyECDSA => Some EcdsaScheme | PubKeyMLDSA => Some MldsaScheme | _ => None end.

Lemma pay_to_key_script prefix v k key spk : scheme_of_version v = Some k -> pay_to_address_script (mk_address prefix v key) = Ok spk ->
  spk = mk_spk 0 (add_raw_data key [] ++ [op_of_scheme k]).
Proof.
  intros Hk. unfold pay_to_address_script. cbn [a_version a_payload].
  destruct v; cbn in Hk; try discriminate; injection Hk as <-; unfold pay_to_pub_key, pay_to_pub_key_ecdsa, pay_to_pub_key_mldsa;
    match goal with |- context [zlen key =? ?n] => destruct (Z.eqb_spec (zlen key) n) as [Hl|] end; cbn [negb obind]; try done; intros [= <-];
    unfold add_raw_data; rewrite Hl; cbn -[le_bytes]; done.
Qed.

(** C26: An output paid to a public-key address (Schnorr, ECDSA or ML-DSA) is spent by a
    signature script that pushes a well-formed signature exactly when that signature is
    valid for the key and the signature hash of the transaction: otherwise the run ends in
    EvalFalse.  Neither a sound signature cache nor reused hashes change the result. *)
Theorem pubkey_output_spent_by_signature `{Crypto} tx idx input e prefix v k key item r c ev :
  spends tx idx input e -> scheme_of_version v = Some k -> pay_to_address_script (mk_address prefix v key) = Ok (ue_script_public_key e) ->
  key_ok k key -> wf_bytes key -> item_ok k item -> wf_bytes item -> add_data item [] = Ok (in_signature_script input) ->
  1 <= in_sig_op_count input -> cache_sound c -> reused_ok hash_fn (v_tx tx) r ->
  exists vm', execute (spend_source tx idx input e) (fresh_engine (in_sig_op_count input) c r ev) =
    if signs tx idx k item key then Ok vm' else Err EvalFalse.
Proof.
  intros Hs Hk Hspk Hkey Hwk Hitem Hwi Hsig Hn Hc Hr. apply (pay_to_key_script _ _ k) in Hspk; [|done].
  assert (Hsize : zlen (in_signature_script input) <= MAX_SCRIPTS_SIZE).
  { unfold add_data in Hsig. destruct (_ <? _); [done|]. destruct (Z.ltb_spec MAX_SCRIPT_ELEMENT_SIZE (zlen item)); [done|]. injection Hsig as <-.
    unfold add_raw_data, MAX_SCRIPTS_SIZE, MAX_SCRIPT_ELEMENT_SIZE in *. cbn [app]. repeat case_match; rewrite ?zlen_app; unfold zlen in *; cbn [length]; rewrite ?length_le_bytes; lia. }
  apply add_data_pushes in Hsig as (bs & Hbs & Hp); [|done]. cbn [app] in Hbs. rewrite Hbs in Hsize.
  assert (Hne : bs <> []) by (destruct Hp as (op & Hparse & _); intros ->; by specialize (Hparse [])).
  destruct (pubkey_run tx input idx e (spends_idx _ _ _ _ Hs) k bs item key (fresh_engine (in_sig_op_count input) c r ev)) as (vm' & Hrun & _); try done.
  { cbn. lia. }
  exists vm'. unfold execute, spend_source. rewrite Hspk. cbn [ue_script_public_key spk_version spk_script]. change (0 =? STEALTH_SCRIPT_VERSION) with false.
  change (MAX_SCRIPT_PUBLIC_KEY_VERSION <? 0) with false. cbn iota.
  assert (Hp2sh : is_pay_to_script_hash (add_raw_data key [] ++ [op_of_scheme k]) = false).
  { destruct Hkey as [Hl _]. unfold is_pay_to_script_hash, add_raw_data. rewrite Hl. destruct k; cbn -[zlen le_bytes nth]; cbn [nth]; unfold codes_OpBlake2b, codes_OpPushData2;
      cbn [Z.eqb Pos.eqb]; by rewrite andb_false_r. }
  rewrite Hp2sh, Hbs. exact Hrun.
Qed.

(** C8: A pay-to-script-hash multisig output, made from the redeem script of the wallet's
    builder and spent by the signature script of the standard helper, accepts well-formed
    signatures exactly when they are valid for keys taken in the order of the redeem
    script; otherwise the run ends in NullFail. *)
Theorem multisig_output_spent_by_matching `{CS : CryptoSpec} tx idx input e ecdsa items keys redeem sigs r c ev :
  spends tx idx input e -> (if ecdsa : bool then multisig_redeem_script_ecdsa else multisig_redeem_script) keys (zlen items) = Ok redeem ->
  ue_script_public_key e = pay_to_script_hash_script redeem -> foldM_out (fun s d => add_data d s) [] items = Ok sigs ->
  pay_to_script_hash_signature_script redeem sigs = Ok (in_signature_script input) -> zlen (in_signature_script input) <= MAX_SCRIPTS_SIZE ->
  wf_bytes redeem -> Forall wf_bytes items -> Forall wf_bytes keys -> zlen keys <= MAX_PUB_KEYS_PER_MUTLTISIG ->
  Forall (item_ok (multisig_scheme ecdsa)) items -> Forall (key_ok (multisig_scheme ecdsa)) keys ->
  zlen keys <= in_sig_op_count input -> cache_sound c -> reused_ok hash_fn (v_tx tx) r ->
  exists vm', let result := execute (spend_source tx idx input e) (fresh_engine (in_sig_op_count input) c r ev) in
    (matching tx idx (multisig_scheme ecdsa) items keys -> result = Ok vm') /\ (~ matching tx idx (multisig_scheme ecdsa) items keys -> result = Err NullFail).
Proof.
  intros Hs Hbuild Hspk Hsigs Hsig Hsize Hwr Hwi Hwk Hlk Hitems Hkeys Hn Hc Hr. pose proof (blake2b_wf redeem) as [_ Hlen].
  assert (Hb : multisig_script (multisig_op ecdsa) keys (zlen items) = Ok redeem) by (by destruct ecdsa).
  destruct (multisig_run tx input idx e (spends_idx _ _ _ _ Hs) ecdsa items keys redeem sigs _ (fresh_engine (in_sig_op_count input) c r ev) Hb Hwr Hlen Hsigs Hsig)
    as (vm' & Hok & Hbad & _); try done.
  exists vm'. cbv zeta. unfold execute, spend_source. rewrite Hspk.
  assert (Hp : is_pay_to_script_hash (spk_script (pay_to_script_hash_script redeem)) = true).
  { unfold is_pay_to_script_hash, pay_to_script_hash_script. cbn [spk_script app]. unfold zlen. cbn [length nth].
    rewrite length_app, Hlen, app_nth2, Hlen by lia. done. }
  rewrite Hp. done.
Qed.

(** ** Numbers and pushes *)

(** Script numbers are encoded one to one: every 64-bit number but the least is encoded
    in at most eight bytes and decoded back, and a byte string that decodes to a number is
    the encoding of that number, so no other element stands for it. *)
Theorem script_numbers_round_trip :
  (forall n, - I64 < n < I64 -> exists bs, i64_serialize n = Ok bs /\ i64_deserialize bs = Ok n /\ zlen bs <= 8) /\
  (forall bs n, wf_bytes bs -> i64_deserialize bs = Ok n -> i64_serialize n = Ok bs /\ - I64 < n < I64).
Proof.
  split.
  - intros n Hn. destruct (i64_serialize_Ok n Hn) as (bs & ? & ? & _ & ?). by exists bs.
  - intros bs n Hw Hd. destruct (i64_deserialize_spec bs Hw) as [(m & Hm & Hb & Hs)|[err He]]; [|congruence]. rewrite Hd in Hm. by injection Hm as <-.
Qed.

(** The elements added to a script by the builder are the elements it leaves on the
    stack: a script built by adding data runs as a signature script, passes the minimal
    push rules, and pushes exactly the data in order. *)
Theorem built_pushes_run `{Crypto} source ds script vm : Forall wf_bytes ds -> foldM_out (fun s d => add_data d s) [] ds = Ok script ->
  cond_stack vm = [] -> astack vm = [] -> num_ops vm = 0 -> zlen (dstack vm) + zlen ds <= MAX_STACK_SIZE ->
  execute_script source script true vm = Ok (set_dstack (dstack vm ++ ds) vm).
Proof. intros Hw (bss & -> & Hp)%build_pushes Hc Ha Hn Hs; [|done]. by apply run_push_script. Qed.

(** ** Addresses *)

(** The parts of a standard script: opcodes, payload, one last opcode. *)
Lemma slice_inner {E} (xs ys zs : bytes) i j : length xs = i -> (i + length ys)%nat = j -> @slice E Z i j (xs ++ ys ++ zs) = Ok ys.
Proof.
  intros <- <-. unfold slice. rewrite !length_app. destruct (Nat.leb_spec (length xs) (length xs + length ys)); [|lia].
  destruct (Nat.leb_spec (length xs + length ys) (length xs + (length ys + length zs))); [|lia]. cbn [andb].
  rewrite drop_app_length, Nat.add_comm, Nat.add_sub. by rewrite take_app_length.
Qed.
Lemma nth_inner (xs ys : bytes) z n : (length xs + length ys)%nat = n -> nth n (xs ++ ys ++ [z]) 0 = z.
Proof. intros <-. rewrite app_assoc, app_nth2 by (rewrite length_app; lia). rewrite length_app, Nat.sub_diag. done. Qed.
Lemma script_split (s : bytes) a n : zlen s = Z.of_nat a + Z.of_nat n + 1 -> exists ys, length ys = n /\ s = take a s ++ ys ++ [nth (a + n) s 0].
Proof.
  unfold zlen. intros Hl. exists (take n (drop a s)). split; [rewrite length_take, length_drop; lia|].
  assert (Hd : drop n (drop a s) = [nth (a + n) s 0]).
  { rewrite drop_drop. destruct (lookup_lt_is_Some_2 s (a + n)) as [z Hz]; [lia|]. rewrite (drop_S _ _ _ Hz). rewrite (nth_lookup_Some _ _ _ _ Hz).
    rewrite drop_ge by lia. done. }
  rewrite <-Hd, take_drop, take_drop. done.
Qed.

Definition layout (v : Version) : option (bytes * nat * Z) :=
  match v with
  | PubKey => Some ([codes_OpData32], 32%nat, codes_OpCheckSig)
  | PubKeyECDSA => Some ([codes_OpData33], 33%nat, codes_OpCheckSigECDSA)
  | PubKeyMLDSA => Some ([codes_OpPushData2; 0x20; 0x05], 1312%nat, codes_OpCheckSigMLDSA)
  | ScriptHash => Some ([codes_OpBlake2b; codes_OpData32], 32%nat, codes_OpEqual)
  | Stealth => None
  end.

Lemma pay_layout a spk : pay_to_address_script a = Ok spk <->
  exists xs n z, layout (a_version a) = Some (xs, n, z) /\ length (a_payload a) = n /\ spk = mk_spk 0 (xs ++ a_payload a ++ [z]).
Proof.
  destruct a as [p v key]. unfold pay_to_address_script, pay_to_pub_key, pay_to_pub_key_ecdsa, pay_to_pub_key_mldsa, pay_to_script_hash. cbn [a_version a_payload].
  assert (Hz : forall n, zlen key = Z.of_nat n <-> length key = n) by (unfold zlen; lia). split.
  - destruct v; cbn [layout]; try (by intros [=]); match goal with |- context [zlen key =? ?n] => destruct (Z.eqb_spec (zlen key) n) as [Hl|] end; cbn [negb obind]; intros [= <-];
      eexists _, _, _; split; try reflexivity; (split; [apply Hz; rewrite Hl; reflexivity|reflexivity]).
  - intros (xs & n & z & Hlay & Hl & ->). apply Hz in Hl. destruct v; cbn [layout] in Hlay; try discriminate; injection Hlay as <- <- <-; rewrite Hl; reflexivity.
Qed.

Lemma class_layout v xs n z key : layout v = Some (xs, n, z) -> length key = n -> class_from_script (mk_spk 0 (xs ++ key ++ [z])) = class_of_version v.
Proof.
  intros Hlay Hl. assert (Hz : zlen (xs ++ key ++ [z]) = zlen xs + Z.of_nat n + 1) by (rewrite !zlen_app; unfold zlen; cbn; lia).
  assert (Hlast : nth (length xs + n) (xs ++ key ++ [z]) 0 = z) by (apply nth_inner; lia).
  unfold class_from_script, is_pay_to_pubkey, is_pay_to_pubkey_ecdsa, is_pay_to_pubkey_mldsa, is_pay_to_script_hash. cbn [spk_version spk_script Z.eqb]. rewrite Hz. clear Hz.
  destruct v; cbn [layout] in Hlay; try discriminate; injection Hlay as <- <- <-;
    match goal with |- context [?l =? 34] => let l' := eval vm_compute in l in change l with l' end;
    cbn [length Nat.add] in Hlast; rewrite ?Hlast; cbn [app nth]; try reflexivity.
Qed.

Lemma classified spk v xs n z : class_from_script spk = class_of_version v -> layout v = Some (xs, n, z) ->
  exists key, length key = n /\ spk = mk_spk 0 (xs ++ key ++ [z]).
Proof.
  destruct spk as [ver s]. unfold class_from_script. cbn [spk_version spk_script]. intros Hc Hlay.
  destruct (Z.eqb_spec ver 0) as [->|]; [|by repeat case_match; destruct v]. 
  assert (Hs : match v with PubKey => is_pay_to_pubkey s | PubKeyECDSA => is_pay_to_pubkey_ecdsa s | PubKeyMLDSA => is_pay_to_pubkey_mldsa s | ScriptHash => is_pay_to_script_hash s | Stealth => false end = true).
  { repeat case_match; try done. }
  unfold is_pay_to_pubkey, is_pay_to_pubkey_ecdsa, is_pay_to_pubkey_mldsa, is_pay_to_script_hash in Hs.
  destruct v; cbn [layout] in Hlay; try discriminate; injection Hlay as <- <- <-; rewrite !andb_true_iff, !Z.eqb_eq in Hs.
  - destruct Hs as [[Hl H0] H1]. destruct (script_split s 1 32 Hl) as (key & Hk & Heq). exists key. split; [done|]. f_equal. rewrite Heq at 1. cbn [Nat.add].
    rewrite H1. destruct s as [|x0 s]; [done|]. cbn in H0 |- *. by subst.
  - destruct Hs as [[Hl H0] H1]. destruct (script_split s 1 33 Hl) as (key & Hk & Heq). exists key. split; [done|]. f_equal. rewrite Heq at 1. cbn [Nat.add].
    rewrite H1. destruct s as [|x0 s]; [done|]. cbn in H0 |- *. by subst.
  - destruct Hs as [[[[Hl H0] H1] H2] H3]. destruct (script_split s 3 1312 Hl) as (key & Hk & Heq). exists key. split; [done|]. f_equal. rewrite Heq at 1.
    change (3 + 1312)%nat with 1315%nat. rewrite H3. destruct s as [|x0 [|x1 [|x2 s]]]; try done. cbn [nth take] in *. subst. reflexivity.
  - destruct Hs as [[[Hl H0] H1] H2]. destruct (script_split s 2 32 Hl) as (key & Hk & Heq). exists key. split; [done|]. f_equal. rewrite Heq at 1. cbn [Nat.add].
    rewrite H2. destruct s as [|x0 [|x1 s]]; try done. cbn in H0, H1 |- *. by subst.
Qed.

(** Addresses and standard scripts correspond one to one: the address extracted from
    the script that pays to an address is that address, and a script from which an address
    is extracted is the one that pays to it. *)
Theorem address_script_round_trip prefix : is_stealth prefix = false ->
  (forall a spk, a_prefix a = prefix -> pay_to_address_script a = Ok spk -> extract_script_pub_key_address spk prefix = Ok a) /\
  (forall a spk, 0 <= spk_version spk -> extract_script_pub_key_address spk prefix = Ok a -> a_prefix a = prefix /\ pay_to_address_script a = Ok spk).
Proof.
  intros Hp. split.
  - intros [p v key] spk <- (xs & n & z & Hlay & Hl & ->)%pay_layout. cbn [a_version a_payload a_prefix] in *. unfold extract_script_pub_key_address. rewrite Hp.
    rewrite (class_layout v xs n z key Hlay Hl). destruct v; cbn [layout] in Hlay; try discriminate; injection Hlay as <- <- <-; cbn [class_of_version class_version spk_version spk_script Z.ltb Z.compare];
      by rewrite slice_inner by (cbn; lia).
  - intros a spk Hv. unfold extract_script_pub_key_address. rewrite Hp. destruct (_ <? _); [done|].
    destruct (class_from_script spk) eqn:Hc; try done; intros (payload & Hs & [= <-])%bind_Ok; cbn [a_prefix]; (split; [done|]); rewrite pay_layout; cbn [a_version a_payload].
    + destruct (classified spk PubKey _ _ _ Hc eq_refl) as (key & Hl & ->). cbn [spk_script] in Hs. rewrite slice_inner in Hs by (cbn; lia). injection Hs as <-. by eexists _, _, _.
    + destruct (classified spk PubKeyECDSA _ _ _ Hc eq_refl) as (key & Hl & ->). cbn [spk_script] in Hs. rewrite slice_inner in Hs by (cbn; lia). injection Hs as <-. by eexists _, _, _.
    + destruct (classified spk PubKeyMLDSA _ _ _ Hc eq_refl) as (key & Hl & ->). cbn [spk_script] in Hs. rewrite slice_inner in Hs by (first [reflexivity | rewrite Hl; reflexivity]). injection Hs as <-.
      by eexists _, _, _.
    + destruct (classified spk ScriptHash _ _ _ Hc eq_refl) as (key & Hl & ->). cbn [spk_script] in Hs. rewrite slice_inner in Hs by (cbn; lia). injection Hs as <-. by eexists _, _, _.
Qed.

(** ** Two faults *)

(** The assertion in [to_small_int] excludes [Op16]: counting the signature operations of a
    spend whose redeem script is a multisig of sixteen keys, as the builder makes it, panics
    (the mempool counts them for every pay-to-script-hash input). *)
Lemma sixteen_keys_panic `{Crypto} : let keys := repeat (repeat 7 32) 16 in
  exists redeem sig, multisig_redeem_script keys 1 = Ok redeem /\ pay_to_script_hash_signature_script redeem [] = Ok sig /\
    get_sig_op_count_upper_bound (E := TxScriptError) sig (mk_spk 0 ([codes_OpBlake2b; codes_OpData32] ++ repeat 0 32 ++ [codes_OpEqual])) = Panic.
Proof. eexists _, _. split; [vm_compute; reflexivity|]. split; [vm_compute; reflexivity|vm_compute; reflexivity]. Qed.

(** The canonical size of the element [00] is one byte but it takes two, so the builder can
    exceed the limit on the size of a script. *)
Lemma builder_exceeds_limit : exists script script', zlen script <= MAX_SCRIPTS_SIZE /\ add_data [0] script = Ok script' /\ MAX_SCRIPTS_SIZE < zlen script'.
Proof. exists (repeat codes_OpFalse 9999). eexists. split; [vm_compute; discriminate|]. split; [vm_compute; reflexivity|vm_compute; reflexivity]. Qed.

(** ** A concrete signature scheme

    The scheme of the instances below: a signature is the key followed by the message. *)

Definition toy_verify (n : nat) (key sig : bytes) (m : N) : bool := bool_decide (sig = take n (take 32 key ++ le_bytes 32 (Z.of_N m) ++ repeat 0 n)).
#[local] Instance toy_crypto : Crypto := {|
  hash_fn := toy_hash;
  sha256 := fun bs => le_bytes 32 (of_le_bytes bs);
  blake2b_256 := fun bs => le_bytes 32 (of_le_bytes bs);
  xonly_key_valid := fun _ => true;
  schnorr_signature_valid := fun _ => true;
  schnorr_verify := toy_verify 64;
  ecdsa_key_valid := fun _ => true;
  ecdsa_signature_valid := fun _ => true;
  ecdsa_verify := toy_verify 64;
  mldsa_verify := toy_verify 2420
|}.
#[local] Instance toy_spec : CryptoSpec.
Proof. split; intros bs; cbn [sha256 blake2b_256 toy_crypto]; [apply le_bytes_wf|split; [apply le_bytes_wf|apply length_le_bytes]]. Qed.

Definition sx_input (script : bytes) : TransactionInput := mk_input (7%N, 1%N) script 5 3.
Definition sx_tx (script : bytes) (spk : ScriptPublicKey) : VerifiableTransaction :=
  mk_vtx (mk_tx 0 [sx_input script] [mk_output 100 (mk_spk 0 [3])] 0 SUBNETWORK_ID_NATIVE 0 [] 0 0) [mk_utxo 150 spk 0 false].
Definition sx_key (b : Z) : bytes := repeat b 32.
(** The signature of key [b], with hash type [SIG_HASH_ALL]; the script is not signed. *)
Definition sx_item (spk : ScriptPublicKey) (b : Z) : bytes := sx_key b ++ le_bytes 32 (Z.of_N (schnorr_message (sx_tx [] spk) 0 SIG_HASH_ALL)) ++ [SIG_HASH_ALL].

Definition wf_bytesb (bs : bytes) : bool := forallb (fun b => (0 <=? b) && (b <? 256)) bs.
Lemma wf_bytesb_ok bs : wf_bytesb bs = true -> wf_bytes bs.
Proof. unfold wf_bytesb. rewrite forallb_forall. intros Hb. apply Forall_forall. intros b Hin%list_elem_of_In%Hb. lia. Qed.

Lemma sx_spends script spk : spends (sx_tx script spk) 0 (sx_input script) (mk_utxo 150 spk 0 false).
Proof. done. Qed.
Lemma sx_tx_bytes script spk : wf_bytesb script = true -> wf_bytesb (spk_script spk) = true -> tx_bytes (sx_tx script spk).
Proof.
  intros Hs Hk. split; cbn [sx_tx v_tx v_entries tx_inputs tx_outputs]; rewrite Forall_singleton; [split; [by apply wf_bytesb_ok|done]|by apply wf_bytesb_ok|by apply wf_bytesb_ok].
Qed.

(** A Schnorr output and its spend. *)
Definition sx_spk : ScriptPublicKey := mk_spk 0 (add_raw_data (sx_key 5) [] ++ [codes_OpCheckSig]).
Definition sx_script : bytes := Eval vm_compute in add_raw_data (sx_item sx_spk 5) [].
Definition sx_engine : Engine := fresh_engine 3 (cache_new 4) reused_new [].

Lemma script_engine_never_panics_witness :
  exists source vm, from_transaction_input (sx_tx sx_script sx_spk) (sx_input sx_script) 0 (mk_utxo 150 sx_spk 0 false) reused_new (cache_new 4) [] = Ok (source, vm) /\
    ((exists vm' used, execute source vm = Ok vm' /\ used_sig_ops (E := TxScriptError) vm' = Ok used /\ 0 <= used <= 3) \/
     (exists error, execute source vm = Err error)).
Proof.
  apply (script_engine_never_panics (sx_tx sx_script sx_spk) 0 (sx_input sx_script) (mk_utxo 150 sx_spk 0 false) reused_new (cache_new 4) []).
  - apply sx_tx_bytes; vm_compute; reflexivity.
  - apply sx_spends.
Defined.

Lemma sx_runs : exists vm', execute (spend_source (sx_tx sx_script sx_spk) 0 (sx_input sx_script) (mk_utxo 150 sx_spk 0 false)) sx_engine = Ok vm'.
Proof. eexists. vm_compute. reflexivity. Qed.

Lemma sig_ops_within_static_count_witness :
  exists vm' used, execute (spend_source (sx_tx sx_script sx_spk) 0 (sx_input sx_script) (mk_utxo 150 sx_spk 0 false)) sx_engine = Ok vm' /\
    used_sig_ops (E := TxScriptError) vm' = Ok used /\ 0 <= used <= 1.
Proof.
  destruct sx_runs as [vm' Hrun]. exists vm'.
  destruct (sig_ops_within_static_count (sx_tx sx_script sx_spk) 0 (sx_input sx_script) (mk_utxo 150 sx_spk 0 false) reused_new (cache_new 4) [] vm' 1) as (used & Hu & Hle).
  - apply sx_tx_bytes; vm_compute; reflexivity.
  - apply sx_spends.
  - exact Hrun.
  - vm_compute. reflexivity.
  - exists used. split; [exact Hrun|]. split; [exact Hu|exact Hle].
Defined.

Lemma sx_item_ok spk b : item_ok SchnorrScheme (sx_item spk b).
Proof.
  exists SIG_HASH_ALL, (sx_key b ++ le_bytes 32 (Z.of_N (schnorr_message (sx_tx [] spk) 0 SIG_HASH_ALL))), SIG_HASH_ALL. split; [by rewrite <-app_assoc|]. split; [done|].
  split; [|done]. rewrite zlen_app. unfold zlen. by rewrite length_le_bytes.
Qed.

Lemma pubkey_output_spent_by_signature_witness :
  exists vm', execute (spend_source (sx_tx sx_script sx_spk) 0 (sx_input sx_script) (mk_utxo 150 sx_spk 0 false)) sx_engine = Ok vm'.
Proof.
  destruct (pubkey_output_spent_by_signature (sx_tx sx_script sx_spk) 0 (sx_input sx_script) (mk_utxo 150 sx_spk 0 false) Mainnet PubKey SchnorrScheme (sx_key 5)
    (sx_item sx_spk 5) reused_new (cache_new 4) []) as [vm' Hrun].
  - apply sx_spends.
  - reflexivity.
  - vm_compute. reflexivity.
  - split; reflexivity.
  - apply wf_bytesb_ok. reflexivity.
  - apply sx_item_ok.
  - apply wf_bytesb_ok. vm_compute. reflexivity.
  - vm_compute. reflexivity.
  - vm_compute. discriminate.
  - apply Forall_nil_2.
  - apply reused_new_ok.
  - exists vm'. replace (signs (sx_tx sx_script sx_spk) 0 SchnorrScheme (sx_item sx_spk 5) (sx_key 5)) with true in Hrun by (vm_compute; reflexivity). exact Hrun.
Defined.

(** A two-of-three multisig output and its spend. *)
Definition mx_keys : list bytes := [sx_key 5; sx_key 6; sx_key 7].
Definition mx_redeem : bytes := Eval vm_compute in match multisig_redeem_script mx_keys 2 with Ok s => s | _ => [] end.
Definition mx_spk : ScriptPublicKey := Eval vm_compute in pay_to_script_hash_script mx_redeem.
Definition mx_items : list bytes := Eval vm_compute in [sx_item mx_spk 5; sx_item mx_spk 7].
Definition mx_sigs : bytes := Eval vm_compute in add_raw_data (sx_item mx_spk 7) (add_raw_data (sx_item mx_spk 5) []).
Definition mx_script : bytes := Eval vm_compute in mx_sigs ++ add_raw_data mx_redeem [].

Lemma mx_matching : matching (sx_tx mx_script mx_spk) 0 SchnorrScheme mx_items mx_keys.
Proof.
  exists [sx_key 5; sx_key 7]. split; [apply sublist_skip, sublist_cons, sublist_skip, sublist_nil|].
  apply Forall2_cons; split; [vm_compute; reflexivity|]. apply Forall2_cons; split; [vm_compute; reflexivity|]. by apply Forall2_nil.
Qed.
Lemma mx_items_ok : Forall (item_ok SchnorrScheme) mx_items.
Proof. change mx_items with [sx_item mx_spk 5; sx_item mx_spk 7]. repeat (apply Forall_cons_2; [apply sx_item_ok|]). apply Forall_nil_2. Qed.

Lemma multisig_output_spent_by_matching_witness :
  exists vm', execute (spend_source (sx_tx mx_script mx_spk) 0 (sx_input mx_script) (mk_utxo 150 mx_spk 0 false)) sx_engine = Ok vm'.
Proof.
  destruct (multisig_output_spent_by_matching (sx_tx mx_script mx_spk) 0 (sx_input mx_script) (mk_utxo 150 mx_spk 0 false) false mx_items mx_keys mx_redeem mx_sigs
    reused_new (cache_new 4) []) as (vm' & Hrun & _).
  - apply sx_spends.
  - vm_compute. reflexivity.
  - vm_compute. reflexivity.
  - vm_compute. reflexivity.
  - vm_compute. reflexivity.
  - vm_compute. discriminate.
  - apply wf_bytesb_ok. vm_compute. reflexivity.
  - repeat (apply Forall_cons_2; [apply wf_bytesb_ok; vm_compute; reflexivity|]). apply Forall_nil_2.
  - repeat (apply Forall_cons_2; [apply wf_bytesb_ok; vm_compute; reflexivity|]). apply Forall_nil_2.
  - vm_compute. discriminate.
  - apply mx_items_ok.
  - repeat (apply Forall_cons_2; [split; reflexivity|]). apply Forall_nil_2.
  - vm_compute. discriminate.
  - apply Forall_nil_2.
  - apply reused_new_ok.
  - exists vm'. apply Hrun, mx_matching.
Defined.

Lemma built_pushes_run_witness :
  execute_script (StandAloneScripts []) [0x53; 0x02; 9; 8; 0x00] true sx_engine = Ok (set_dstack [[3]; [9; 8]; []] sx_engine).
Proof.
  apply (built_pushes_run (StandAloneScripts []) [[3]; [9; 8]; []] [0x53; 0x02; 9; 8; 0x00] sx_engine); try reflexivity.
  - repeat (apply Forall_cons_2; [apply wf_bytesb_ok; reflexivity|]). apply Forall_nil_2.
  - vm_compute. discriminate.
Defined.

Lemma address_script_round_trip_witness :
  exists spk, pay_to_address_script (mk_address Mainnet PubKey (sx_key 5)) = Ok spk /\ extract_script_pub_key_address spk Mainnet = Ok (mk_address Mainnet PubKey (sx_key 5)).
Proof.
  exists sx_spk. assert (Hp : pay_to_address_script (mk_address Mainnet PubKey (sx_key 5)) = Ok sx_spk) by (vm_compute; reflexivity). split; [exact Hp|].
  exact (proj1 (address_script_round_trip Mainnet eq_refl) (mk_address Mainnet PubKey (sx_key 5)) sx_spk eq_refl Hp).
Defined.
