(* ===== verification/ScriptCache.v ===== *)
(** * Runs do not depend on the caches

    Two runs of the engine that start with the same stacks and counter, and with sound
    signature caches and consistent reused values, give the same result and leave both
    sound.  The inputs of a transaction share the two, so the result of an input does not
    depend on which inputs were checked before it. *)

From Stdlib Require Import ZArith Lia Bool.
From stdpp Require Import base numbers list.
From S2P Require Import Prelude Tx Uint UintLemmas Header Hashing HashingProps ScriptData ScriptOps ScriptEngine ScriptNumbers ScriptVerify.

#[local] Open Scope Z_scope.

(** ** Related outcomes *)

Inductive orel {E A B} (R : A -> B -> Prop) : outcome E A -> outcome E B -> Prop :=
| orel_Ok a b : R a b -> orel R (Ok a) (Ok b)
| orel_Err err : orel R (Err err) (Err err)
| orel_Panic : orel R Panic Panic
| orel_OutOfFuel : orel R OutOfFuel OutOfFuel.
#[local] Hint Constructors orel : core.

Lemma orel_bind {E A B A' B'} (R : A -> B -> Prop) (S : A' -> B' -> Prop) (m : outcome E A) m' k k' :
  orel R m m' -> (forall a b, R a b -> orel S (k a) (k' b)) -> orel S (obind m k) (obind m' k').
Proof. intros [] Hk; cbn; auto. Qed.

Lemma orel_same {E A B B'} (S : B -> B' -> Prop) (m : outcome E A) k k' : (forall a, m = Ok a -> orel S (k a) (k' a)) -> orel S (obind m k) (obind m k').
Proof. intros Hk. destruct m; cbn; auto. Qed.

Lemma orel_Ok_r {E A B} (R : A -> B -> Prop) (m : outcome E A) b : orel R m (Ok b) -> exists a, m = Ok a /\ R a b.
Proof. inversion 1. eauto. Qed.
Lemma orel_Ok_l {E A B} (R : A -> B -> Prop) a (m : outcome E B) : orel R (Ok a) m -> exists b, m = Ok b /\ R a b.
Proof. inversion 1. eauto. Qed.

Lemma orel_fold {E A X} (R : A -> A -> Prop) (f f' : A -> X -> outcome E A) xs a b :
  (forall x a b, x ∈ xs -> R a b -> orel R (f a x) (f' b x)) -> R a b -> orel R (foldM_out f a xs) (foldM_out f' b xs).
Proof.
  revert a b. induction xs as [|x xs IH]; intros a b Hf Hr; cbn [foldM_out]; [auto|].
  eapply orel_bind; [apply Hf; [apply list_elem_of_here|done]|]. intros a' b' Hr'. apply IH; [|done]. intros y c d Hy. apply Hf. by apply list_elem_of_further.
Qed.

Section CacheRuns.
Context `{Crypto}.
Variables (tx : VerifiableTransaction) (input : TransactionInput) (idx : nat) (e : UtxoEntry) (p : bool).
Let source := TxInput tx input idx e p.
Hypothesis Hidx : (idx < length (tx_inputs (v_tx tx)))%nat /\ (idx < length (v_entries tx))%nat.

(** States that differ only in what is shared, which is sound in both. *)
Definition sim (vm vm' : Engine) : Prop :=
  dstack vm = dstack vm' /\ astack vm = astack vm' /\ cond_stack vm = cond_stack vm' /\ num_ops vm = num_ops vm' /\ counter vm = counter vm' /\
  shared_ok tx vm /\ shared_ok tx vm'.
Definition sim_check (r r' : bool * Engine) : Prop := r.1 = r'.1 /\ sim r.2 r'.2.
Definition sim_step (f : Engine -> sres Engine) : Prop := forall vm vm', sim vm vm' -> orel sim (f vm) (f vm').

(** ** Opcodes without signatures *)

Lemma set_dstack_sim s vm vm' : sim vm vm' -> sim (set_dstack s vm) (set_dstack s vm').
Proof using. by intros (? & ? & ? & ? & ? & ? & ?). Qed.
Lemma set_astack_sim s vm vm' : sim vm vm' -> sim (set_astack s vm) (set_astack s vm').
Proof using. by intros (? & ? & ? & ? & ? & ? & ?). Qed.
Lemma set_cond_stack_sim s vm vm' : sim vm vm' -> sim (set_cond_stack s vm) (set_cond_stack s vm').
Proof using. by intros (? & ? & ? & ? & ? & ? & ?). Qed.
Lemma set_num_ops_sim n vm vm' : sim vm vm' -> sim (set_num_ops n vm) (set_num_ops n vm').
Proof using. by intros (? & ? & ? & ? & ? & ? & ?). Qed.
Lemma set_counter_sim c vm vm' : sim vm vm' -> sim (set_counter c vm) (set_counter c vm').
Proof using. by intros (? & ? & ? & ? & ? & ? & ?). Qed.
Hint Resolve set_dstack_sim set_astack_sim set_cond_stack_sim set_num_ops_sim set_counter_sim : core.

Lemma is_executing_sim vm vm' : sim vm vm' -> is_executing vm = is_executing vm'.
Proof using. intros (_ & _ & Hc & _). unfold is_executing. by rewrite Hc. Qed.

Ltac sim_start := intros vm vm' Hsim; pose proof Hsim as (Hd & Ha & Hc & Hn & Hct & _).
(** Both sides branch on the same values. *)
Ltac sim_auto := repeat (first [apply orel_same; intros ? ? | progress case_match | progress auto 6]).

Lemma on_dstack_sim f : sim_step (on_dstack f).
Proof using. sim_start. unfold on_dstack. rewrite Hd. sim_auto. Qed.
Lemma add_num_ops_sim n : sim_step (add_num_ops n).
Proof using. sim_start. unfold add_num_ops. rewrite Hn. sim_auto. Qed.
Lemma op_if_sim a b : sim_step (op_if a b).
Proof using. sim_start. unfold op_if. rewrite (is_executing_sim _ _ Hsim), Hd, Hc. sim_auto. Qed.
Lemma op_else_sim : sim_step op_else.
Proof using. sim_start. unfold op_else. rewrite Hc. sim_auto. Qed.
Lemma op_end_if_sim : sim_step op_end_if.
Proof using. sim_start. unfold op_end_if. rewrite Hc. sim_auto. Qed.
Lemma op_to_alt_stack_sim : sim_step op_to_alt_stack.
Proof using. sim_start. unfold op_to_alt_stack. rewrite Hd, Ha. sim_auto. Qed.
Lemma op_from_alt_stack_sim : sim_step op_from_alt_stack.
Proof using. sim_start. unfold op_from_alt_stack. rewrite Hd, Ha. sim_auto. Qed.
Lemma op_lock_time_sim : sim_step (op_check_lock_time_verify source).
Proof using. sim_start. unfold op_check_lock_time_verify, source. rewrite Hd. sim_auto. Qed.
Lemma op_sequence_sim : sim_step (op_check_sequence_verify source).
Proof using. sim_start. unfold op_check_sequence_verify, source. rewrite Hd. sim_auto. Qed.
Lemma op_tx_number_sim f : sim_step (op_tx_number source f).
Proof using. apply on_dstack_sim. Qed.
Lemma op_tx_indexed_sim {A} (items : VerifiableTransaction -> list A) err k : sim_step (op_tx_indexed source items err k).
Proof using. apply on_dstack_sim. Qed.
Lemma check_error_sim final : sim_step (check_error_condition final).
Proof using. sim_start. unfold check_error_condition. rewrite Hd. sim_auto. Qed.

(** ** Signatures *)

Lemma cached_verify_sim k vm vm' : sim vm vm' -> sim_check (cached_verify k (truth k) vm) (cached_verify k (truth k) vm').
Proof using.
  intros (Hd & Ha & Hc & Hn & Hct & Hs & Hs').
  destruct (cached_verify_spec tx k vm Hs) as (v1 & -> & Hk1 & ? & ? & ? & ? & ?). destruct (cached_verify_spec tx k vm' Hs') as (v2 & -> & Hk2 & ? & ? & ? & ? & ?).
  split; [done|]. cbn. split_and!; congruence || done.
Qed.

Lemma set_reused_sim r r' vm vm' : reused_ok hash_fn (v_tx tx) r -> reused_ok hash_fn (v_tx tx) r' -> sim vm vm' -> sim (set_reused r vm) (set_reused r' vm').
Proof using. intros Hr Hr' (? & ? & ? & ? & ? & [? _] & [? _]). by split_and!. Qed.

Lemma check_of_sim k t key sig vm vm' : sim vm vm' -> orel sim_check (check_of tx input idx e p k t key sig vm) (check_of tx input idx e p k t key sig vm').
Proof using Hidx.
  intros Hsim. pose proof Hsim as (_ & _ & _ & _ & Hct & [_ Hr] & [_ Hr']). destruct (messages tx idx Hidx t _ Hr) as (r & Hr1 & Hm1 & Hm2).
  destruct (messages tx idx Hidx t _ Hr') as (r' & Hr1' & Hm1' & Hm2').
  destruct k; cbn [check_of]; [unfold check_schnorr_signature|unfold check_ecdsa_signature|unfold check_mldsa_signature]; rewrite Hct; apply orel_same; intros c _;
    cbn [reused_values set_counter]; rewrite ?Hm1, ?Hm2, ?Hm1', ?Hm2'; repeat (progress case_match; [constructor|]); try (apply orel_same; intros ? _);
    repeat (case_match; [constructor|]); cbn [obind]; constructor.
  - apply (cached_verify_sim (mk_key Schnorr sig key (schnorr_message tx idx t))). by apply set_reused_sim, set_counter_sim.
  - apply (cached_verify_sim (mk_key Ecdsa sig key (ecdsa_message tx idx t))). by apply set_reused_sim, set_counter_sim.
  - split; [done|]. by apply set_reused_sim, set_counter_sim.
Qed.

Lemma op_check_sig_sim k : sim_step (op_check_sig (check_of tx input idx e p k)).
Proof using Hidx.
  sim_start. unfold op_check_sig. rewrite Hd. apply orel_same. intros [items s] _. apply orel_same. intros [sig key] _.
  destruct (vec_pop sig) as [[typ sig']|]; [|auto]. apply orel_same. intros t _. eapply orel_bind; [apply check_of_sim; auto|].
  intros [b1 v1] [b2 v2] [Hb Hv]. cbn in Hb, Hv. subst b2. pose proof Hv as (-> & _). auto.
Qed.

Lemma multisig_keys_sim k t sig needed keys vm vm' : sim vm vm' ->
  orel (fun r r' => r.1 = r'.1 /\ sim r.2 r'.2) (multisig_keys (fun key => check_of tx input idx e p k t key sig) needed keys vm)
    (multisig_keys (fun key => check_of tx input idx e p k t key sig) needed keys vm').
Proof using Hidx.
  revert vm vm'. induction keys as [|key keys IH]; intros vm vm' Hsim; cbn [multisig_keys]; destruct (_ <? _)%nat; auto.
  eapply orel_bind; [by apply check_of_sim|]. intros [b1 v1] [b2 v2] [Hb Hv]. cbn in Hb, Hv. subst b2. destruct b1; auto.
Qed.

Lemma multisig_loop_sim k items keys vm vm' : sim vm vm' ->
  orel sim_check (multisig_loop (check_of tx input idx e p k) items keys vm) (multisig_loop (check_of tx input idx e p k) items keys vm').
Proof using Hidx.
  revert keys vm vm'. induction items as [|item items IH]; intros keys vm vm' Hsim; cbn [multisig_loop]; [by constructor|].
  destruct (vec_pop item) as [[typ sig]|]; [|by constructor]. apply orel_same. intros t _. eapply orel_bind; [by apply multisig_keys_sim|].
  intros [r1 v1] [r2 v2] [Hr Hv]. cbn in Hr, Hv. subst r2. destruct r1; [by apply IH|by constructor].
Qed.

Lemma op_check_multisig_sim ecdsa : sim_step (op_check_multisig_schnorr_or_ecdsa source ecdsa).
Proof using Hidx.
  sim_start. unfold op_check_multisig_schnorr_or_ecdsa. rewrite Hd. apply orel_same. intros [ns s] _. apply orel_same. intros n _. do 2 (case_match; [constructor|]).
  eapply orel_bind; [apply add_num_ops_sim; auto|]. intros v1 v2 Hv. pose proof Hv as (-> & _). case_match; [constructor|]. destruct (split_off _ _) as [s' keys].
  apply orel_same. intros [ns' s2] _. apply orel_same. intros m _. do 2 (case_match; [constructor|]). cbn [dstack set_dstack]. case_match; [constructor|].
  destruct (split_off _ _) as [s3 items].
  assert (Hcheck : (if ecdsa then check_ecdsa_signature source else check_schnorr_signature source) = check_of tx input idx e p (if ecdsa then EcdsaScheme else SchnorrScheme)) by (by destruct ecdsa).
  rewrite Hcheck. eapply orel_bind; [apply multisig_loop_sim; auto|]. intros [b1 w1] [b2 w2] [Hb Hw]. cbn in Hb, Hw. subst b2. destruct (b1 && _); [constructor|].
  pose proof Hw as (-> & _). auto.
Qed.

(** ** Scripts *)

Lemma compose_sim f g : sim_step f -> sim_step g -> sim_step (fun vm => let! vm := f vm in g vm).
Proof using. intros Hf Hg vm vm' Hsim. eapply orel_bind; [by apply Hf|]. intros a b Hab. by apply Hg. Qed.

Lemma op_execute_sim op : sim_step (op_execute source op).
Proof using Hidx.
  unfold op_execute. destruct (op_name op);
    first [apply on_dstack_sim | apply op_if_sim | apply op_else_sim | apply op_end_if_sim | apply op_to_alt_stack_sim | apply op_from_alt_stack_sim
      | apply op_lock_time_sim | apply op_sequence_sim | apply op_tx_number_sim | apply op_tx_indexed_sim | apply op_check_multisig_sim
      | apply (op_check_sig_sim SchnorrScheme) | apply (op_check_sig_sim EcdsaScheme) | apply (op_check_sig_sim MldsaScheme)
      | apply compose_sim; [first [apply (op_check_sig_sim SchnorrScheme) | apply op_check_multisig_sim] | apply on_dstack_sim]
      | intros vm vm' Hsim; auto].
  all: intros vm vm' Hsim; pose proof Hsim as (-> & _); by apply on_dstack_sim.
Qed.

Lemma execute_opcode_sim op : sim_step (execute_opcode source op).
Proof using Hidx.
  sim_start. unfold execute_opcode. eapply (orel_bind sim).
  - case_match; [by apply add_num_ops_sim|]. case_match; auto.
  - intros v1 v2 Hv. rewrite (is_executing_sim _ _ Hv). case_match; [|auto]. apply orel_same. intros _ _. by apply op_execute_sim.
Qed.

Lemma execute_parsed_sim vop r : sim_step (fun vm => execute_parsed source vop vm r).
Proof using Hidx.
  sim_start. unfold execute_parsed. apply orel_same. intros op _. repeat (case_match; [constructor|]). eapply orel_bind; [by apply execute_opcode_sim|].
  intros v1 v2 Hv. pose proof Hv as (-> & -> & _). case_match; auto.
Qed.

Lemma execute_script_sim script vop : sim_step (execute_script source script vop).
Proof using Hidx.
  sim_start. unfold execute_script. eapply (orel_bind sim).
  - apply orel_fold; [|done]. intros r a b _ Hab. by apply (execute_parsed_sim vop r).
  - intros v1 v2 Hv. pose proof Hv as (_ & _ & -> & _). case_match; auto.
Qed.

Lemma execute_stealth_sim : sim_step (execute_stealth_spend tx idx input e).
Proof using Hidx.
  sim_start. pose proof Hsim as (_ & _ & _ & _ & _ & [_ Hr] & [_ Hr']). unfold execute_stealth_spend.
  case_match; [constructor|]. apply orel_same. intros r _. case_match; [constructor|]. apply orel_same. intros key _. repeat (case_match; [constructor|]).
  apply orel_same. intros sig _. apply orel_same. intros b _. apply orel_same. intros t _. case_match; [constructor|].
  destruct (messages tx idx Hidx t _ Hr) as (r1 & Hr1 & -> & _). destruct (messages tx idx Hidx t _ Hr') as (r1' & Hr1' & -> & _). cbn [obind]. rewrite Hct.
  apply orel_same. intros c _.
  assert (Hs : sim_check (cached_verify (mk_key Schnorr sig key (schnorr_message tx idx t)) (schnorr_verify key sig (schnorr_message tx idx t)) (set_counter c (set_reused r1 vm)))
    (cached_verify (mk_key Schnorr sig key (schnorr_message tx idx t)) (schnorr_verify key sig (schnorr_message tx idx t)) (set_counter c (set_reused r1' vm')))).
  { apply (cached_verify_sim (mk_key Schnorr sig key (schnorr_message tx idx t))). by apply set_counter_sim, set_reused_sim. }
  destruct (cached_verify _ _ _) as [b1 v1], (cached_verify _ _ _) as [b2 v2]. destruct Hs as [Hb Hv]. cbn in Hb, Hv. subst b2. destruct b1; auto.
Qed.

Lemma run_scripts_sim scripts is_p2sh : sim_step (run_scripts source scripts is_p2sh).
Proof using Hidx.
  sim_start. unfold run_scripts. do 3 (case_match; [constructor|]). eapply (orel_bind (fun r r' => r.2 = r'.2 /\ sim r.1 r'.1)).
  - apply orel_fold; [|done]. intros [i s] [v1 s1] [v2 s2] _ [Hs Hv]. cbn in Hs, Hv. subst s2. cbn [run_script]. pose proof Hv as (-> & _).
    eapply orel_bind; [by apply execute_script_sim|]. intros w1 w2 Hw. constructor. done.
  - intros [v1 s1] [v2 s2] [Hs Hv]. cbn in Hs, Hv. subst s2. eapply (orel_bind sim); [|intros; by apply check_error_sim].
    case_match; [|auto]. eapply orel_bind; [by apply check_error_sim|]. intros w1 w2 Hw. destruct s1 as [saved|]; [|constructor].
    destruct (vec_pop saved) as [[script s]|]; [|constructor]. apply execute_script_sim. auto.
Qed.

Lemma execute_sim : sim_step (execute source).
Proof using Hidx.
  sim_start. unfold execute, source. case_match; [by apply execute_stealth_sim|]. case_match; [auto|]. by apply run_scripts_sim.
Qed.
End CacheRuns.
