(* ===== verification/Mass.v ===== *)
(** * Transaction mass

    Model of consensus/core/src/mass/mod.rs: the estimated serialized size, the compute and
    transient masses and the storage mass of KIP-0009.  Sums and products of [u64]s are
    checked; [checked_] operations return [None].  The length of a vector is below 2^63,
    so a length plus a small constant is a [usize]. *)

From Stdlib Require Import ZArith Lia Bool.
From stdpp Require Import base numbers list.
From S2P Require Import Prelude Tx.

#[local] Open Scope Z_scope.

Abbreviation len l := (Z.of_nat (length l)).

Definition HASH_SIZE : Z := 32.
Definition TRANSIENT_BYTE_TO_MASS_FACTOR : Z := 4.

(** [checked_add], [checked_mul], division and the saturating operations on [u64]. *)
Definition checked_add (a b : Z) : option Z := if a + b <? U64 then Some (a + b) else None.
Definition checked_mul (a b : Z) : option Z := if a * b <? U64 then Some (a * b) else None.
Definition div64 {E} (a b : Z) : outcome E Z := if b =? 0 then Panic else Ok (a / b).
Definition sat_add (a b : Z) : Z := Z.min (a + b) (U64 - 1).
Definition sat_mul (a b : Z) : Z := Z.min (a * b) (U64 - 1).
Definition div_ceil (a b : Z) : Z := (a + b - 1) / b.

(** ** Sizes *)

Definition outpoint_estimated_serialized_size : Z := HASH_SIZE + 4.
Definition transaction_input_estimated_serialized_size {E} (input : TransactionInput) : outcome E Z :=
  let! size := add64 (outpoint_estimated_serialized_size + 8) (len (in_signature_script input)) in
  add64 size 8.
Definition transaction_output_estimated_serialized_size {E} (output : TransactionOutput) : outcome E Z :=
  add64 (8 + 2 + 8) (len (spk_script (out_script_public_key output))).
Definition transaction_estimated_serialized_size {E} (tx : Transaction) : outcome E Z :=
  let! ins := mapM_out transaction_input_estimated_serialized_size (tx_inputs tx) in
  let! inputs_size := sum64 ins in
  let! size := add64 (2 + 8) inputs_size in
  let! size := add64 size 8 in
  let! outs := mapM_out transaction_output_estimated_serialized_size (tx_outputs tx) in
  let! outputs_size := sum64 outs in
  let! size := add64 size outputs_size in
  let! size := add64 size (8 + Z.of_nat SUBNETWORK_ID_SIZE + 8 + HASH_SIZE + 8) in
  add64 size (len (tx_payload tx)).

(** ** Plurality *)

Definition UTXO_CONST_STORAGE : Z := 32 + 4 + 8 + 8 + 1 + 2 + 8.
Definition UTXO_UNIT_SIZE : Z := 100.
Definition utxo_plurality (spk : ScriptPublicKey) : Z := div_ceil (UTXO_CONST_STORAGE + len (spk_script spk)) UTXO_UNIT_SIZE.

Record UtxoCell := mk_cell {
  cell_plurality : Z;
  cell_amount : Z
}.
Definition cell_of_entry (entry : UtxoEntry) : UtxoCell := mk_cell (utxo_plurality (ue_script_public_key entry)) (ue_amount entry).
Definition cell_of_output (output : TransactionOutput) : UtxoCell := mk_cell (utxo_plurality (out_script_public_key output)) (out_value output).

(** ** Masses *)

Record NonContextualMasses := mk_non_contextual {
  compute_mass : Z;
  transient_mass : Z
}.
Definition non_contextual_max (m : NonContextualMasses) : Z := Z.max (compute_mass m) (transient_mass m).
Record ContextualMasses := mk_contextual {
  storage_mass : Z
}.
Definition contextual_max (m : ContextualMasses) (n : NonContextualMasses) : Z := Z.max (storage_mass m) (non_contextual_max n).

Record MassCalculator := mk_calculator {
  mass_per_tx_byte : Z;
  mass_per_script_pub_key_byte : Z;
  mass_per_sig_op : Z;
  storage_mass_parameter : Z
}.

Definition calc_non_contextual_masses {E} (c : MassCalculator) (tx : Transaction) : outcome E NonContextualMasses :=
  if is_coinbase tx then Ok (mk_non_contextual 0 0)
  else
    let! size := transaction_estimated_serialized_size tx in
    let! compute_mass_for_size := mul64 size (mass_per_tx_byte c) in
    let! spk_sizes := mapM_out (fun o => add64 2 (len (spk_script (out_script_public_key o)))) (tx_outputs tx) in
    let! total_script_public_key_size := sum64 spk_sizes in
    let! total_script_public_key_mass := mul64 total_script_public_key_size (mass_per_script_pub_key_byte c) in
    let! total_sigops := sum64 (List.map in_sig_op_count (tx_inputs tx)) in
    let! total_sigops_mass := mul64 total_sigops (mass_per_sig_op c) in
    let! m := add64 compute_mass_for_size total_script_public_key_mass in
    let! m := add64 m total_sigops_mass in
    let! transient := mul64 size TRANSIENT_BYTE_TO_MASS_FACTOR in
    Ok (mk_non_contextual m transient).

(** ** Storage mass *)

(** The fold over the outputs: their plurality and the sum of [C p^2 / amount]. *)
Fixpoint harmonic_outputs {E} (storm_param : Z) (acc_plurality acc_harm : Z) (outputs : list UtxoCell) : outcome E (option (Z * Z)) :=
  match outputs with
  | [] => Ok (Some (acc_plurality, acc_harm))
  | mk_cell plurality amount :: outputs' =>
      let! acc_plurality' := add64 acc_plurality plurality in
      match checked_mul storm_param plurality with
      | None => Ok None
      | Some x =>
          match checked_mul x plurality with
          | None => Ok None
          | Some y =>
              let! z := div64 y amount in
              match checked_add acc_harm z with
              | None => Ok None
              | Some acc_harm' => harmonic_outputs storm_param acc_plurality' acc_harm' outputs'
              end
          end
      end
  end.

Definition harmonic_input {E} (storm_param : Z) (cell : UtxoCell) : outcome E Z :=
  let! x := mul64 storm_param (cell_plurality cell) in
  let! y := mul64 x (cell_plurality cell) in
  div64 y (cell_amount cell).

Definition relaxed_formula_path {E} (outs_plurality : Z) (inputs : list UtxoCell) : outcome E bool :=
  if outs_plurality =? 1 then Ok true
  else if 2 <? len inputs then Ok false
  else
    let! ins_plurality := sum64 (List.map cell_plurality inputs) in
    Ok ((ins_plurality =? 1) || ((outs_plurality =? 2) && (ins_plurality =? 2))).

Definition calc_storage_mass {E} (coinbase : bool) (inputs outputs : list UtxoCell) (storm_param : Z) : outcome E (option Z) :=
  if coinbase then Ok (Some 0)
  else
    let! outs := harmonic_outputs storm_param 0 0 outputs in
    match outs with
    | None => Ok None
    | Some (outs_plurality, harmonic_outs) =>
        let! relaxed := relaxed_formula_path outs_plurality inputs in
        if relaxed : bool then
          let! hs := mapM_out (harmonic_input storm_param) inputs in
          Ok (Some (sat_sub harmonic_outs (foldl sat_add 0 hs)))
        else
          let! ' (ins_plurality, sum_ins) :=
            foldM_out (fun acc cell =>
              let! pl := add64 acc.1 (cell_plurality cell) in
              let! amt := add64 acc.2 (cell_amount cell) in Ok (pl, amt)) (0, 0) inputs in
          let! mean_ins := div64 sum_ins ins_plurality in
          let! q := div64 storm_param mean_ins in
          Ok (Some (sat_sub harmonic_outs (sat_mul ins_plurality q)))
    end.

Definition calc_contextual_masses {E} (c : MassCalculator) (tx : VerifiableTransaction) : outcome E (option ContextualMasses) :=
  let! m := calc_storage_mass (is_coinbase (v_tx tx)) (List.map (fun ie => cell_of_entry ie.2) (populated_inputs tx))
              (List.map cell_of_output (tx_outputs (v_tx tx))) (storage_mass_parameter c) in
  Ok (option_map mk_contextual m).
