(* ===== verification/MassProps.v ===== *)
(** * Properties of the storage mass *)

From Stdlib Require Import ZArith Lia Bool.
From stdpp Require Import base numbers list.
From S2P Require Import Prelude Tx Mass.

#[local] Open Scope Z_scope.

(** ** The formula of KIP-0009 *)

Definition total_plurality (cells : list UtxoCell) : Z := zsum (List.map cell_plurality cells).
Definition total_amount (cells : list UtxoCell) : Z := zsum (List.map cell_amount cells).
(** [C p^2 / amount], the share of a cell in the harmonic sum. *)
Definition share (c : Z) (cell : UtxoCell) : Z := c * cell_plurality cell * cell_plurality cell / cell_amount cell.
Definition harmonic (c : Z) (cells : list UtxoCell) : Z := zsum (List.map (share c) cells).
(** The share of the inputs by their mean amount. *)
Definition arithmetic (c : Z) (cells : list UtxoCell) : Z := total_plurality cells * (c / (total_amount cells / total_plurality cells)).

(** |O| = 1, |I| = 1 or |O| = |I| = 2, counted in storage units. *)
Definition relaxed (ins outs : list UtxoCell) : bool :=
  (total_plurality outs =? 1) || (total_plurality ins =? 1) || ((total_plurality outs =? 2) && (total_plurality ins =? 2)).

Definition fits (c : Z) (cell : UtxoCell) : bool := c * cell_plurality cell * cell_plurality cell <? U64.
(** The mass, or [None] when the harmonic sum of the outputs does not fit in a [u64]. *)
Definition storage_mass_spec (c : Z) (ins outs : list UtxoCell) : option Z :=
  if forallb (fits c) outs && (harmonic c outs <? U64) then
    Some (Z.max 0 (harmonic c outs - Z.min (if relaxed ins outs then harmonic c ins else arithmetic c ins) (U64 - 1)))
  else None.

Definition cell_wf (cell : UtxoCell) : Prop := 1 <= cell_plurality cell /\ 1 <= cell_amount cell.

(** ** Lemmas *)

Lemma utxo_plurality_pos spk : 1 <= utxo_plurality spk.
Proof. unfold utxo_plurality, div_ceil, UTXO_CONST_STORAGE, UTXO_UNIT_SIZE. apply Z.div_le_lower_bound; lia. Qed.

Lemma share_nonneg c cell : 0 <= c -> cell_wf cell -> 0 <= share c cell.
Proof. intros Hc [Hp Ha]. unfold share. apply Z.div_pos; [|lia]. apply Z.mul_nonneg_nonneg; [apply Z.mul_nonneg_nonneg|]; lia. Qed.

Lemma zsum_map_nonneg {A} (f : A -> Z) (P : A -> Prop) l : (forall a, P a -> 0 <= f a) -> Forall P l -> 0 <= zsum (List.map f l).
Proof. intros Hf. induction 1 as [|a l Ha Hl IH]; cbn; [lia|]. specialize (Hf a Ha). lia. Qed.

Lemma total_plurality_len cells : Forall cell_wf cells -> len cells <= total_plurality cells.
Proof. unfold total_plurality. induction 1 as [|x l [Hp _] Hl IH]; cbn -[Z.of_nat]; [lia|]. lia. Qed.

Lemma checked_mul_spec a b : checked_mul a b = if a * b <? U64 then Some (a * b) else None.
Proof. done. Qed.

Lemma harmonic_outputs_spec {E} c outs accp acch : 0 <= c -> 0 <= accp -> 0 <= acch < U64 -> Forall cell_wf outs -> accp + total_plurality outs < U64 ->
  @harmonic_outputs E c accp acch outs =
  Ok (if forallb (fits c) outs && (acch + harmonic c outs <? U64) then Some (accp + total_plurality outs, acch + harmonic c outs) else None).
Proof.
  intros Hc. revert accp acch. induction outs as [|[p a] outs IH]; intros accp acch Hap Hah Hw Hs.
  { cbn. rewrite !Z.add_0_r. destruct (Z.ltb_spec acch U64); [done|lia]. }
  apply Forall_cons in Hw as [[Hp Ha] Hw]. cbn in Hp, Ha. unfold total_plurality, harmonic in *. cbn [List.map zsum cell_plurality forallb] in *. fold (harmonic c outs) in *.
  pose proof (total_plurality_len outs Hw) as Hlen. unfold total_plurality in Hlen. assert (Hh : 0 <= harmonic c outs).
  { apply (zsum_map_nonneg (share c) cell_wf); [|done]. intros. by apply share_nonneg. }
  cbn [harmonic_outputs]. rewrite uadd_lt by lia. cbn [obind]. unfold checked_mul, fits. cbn [cell_plurality].
  assert (Hsq : c * p <= c * p * p) by nia. destruct (Z.ltb_spec (c * p) U64) as [H1|H1]; destruct (Z.ltb_spec (c * p * p) U64) as [H2|H2]; cbn [andb]; try lia; try done.
  unfold div64. destruct (Z.eqb_spec a 0); [lia|]. cbn [obind]. unfold checked_add. change (share c (mk_cell p a)) with (c * p * p / a).
  assert (Hd : 0 <= c * p * p / a) by (apply Z.div_pos; nia). destruct (Z.ltb_spec (acch + c * p * p / a) U64) as [H3|H3].
  - rewrite IH by (lia || done). unfold total_plurality, harmonic. by rewrite !Z.add_assoc.
  - match goal with |- context [?x <? U64] => destruct (Z.ltb_spec x U64) end; [unfold harmonic in *; lia|]. by destruct (forallb _ _).
Qed.

Lemma foldl_sat_add l acc : Forall (fun x => 0 <= x) l -> 0 <= acc < U64 -> foldl sat_add acc l = Z.min (acc + zsum l) (U64 - 1).
Proof.
  intros Hl. revert acc. induction Hl as [|x l Hx Hl IH]; intros acc Ha; cbn [foldl zsum]; [lia|]. rewrite IH by (unfold sat_add; lia).
  assert (0 <= zsum l) by (clear -Hl; induction Hl; cbn; lia). unfold sat_add. lia.
Qed.

Lemma harmonic_inputs {E} c ins : 0 <= c -> Forall cell_wf ins -> Forall (fun i => fits c i = true) ins ->
  @mapM_out E _ _ (harmonic_input c) ins = Ok (List.map (share c) ins).
Proof.
  intros Hc. induction 1 as [|[p a] ins [Hp Ha] Hw IH]; intros Hf; [done|]. apply Forall_cons in Hf as [Hf1 Hf]. cbn in Hp, Ha.
  unfold fits in Hf1. cbn in Hf1. apply Z.ltb_lt in Hf1. cbn [mapM_out]. unfold harmonic_input at 1. cbn [cell_plurality cell_amount].
  rewrite umul_lt by nia. cbn [obind]. rewrite umul_lt by nia. cbn [obind]. unfold div64. destruct (Z.eqb_spec a 0); [lia|]. cbn [obind]. by rewrite IH.
Qed.

Lemma sum_cells {E} ins accp acca : 0 <= accp -> 0 <= acca -> Forall cell_wf ins -> accp + total_plurality ins < U64 -> acca + total_amount ins < U64 ->
  @foldM_out E _ _ (fun acc cell => let! pl := add64 acc.1 (cell_plurality cell) in let! amt := add64 acc.2 (cell_amount cell) in Ok (pl, amt)) (accp, acca) ins =
  Ok (accp + total_plurality ins, acca + total_amount ins).
Proof.
  intros Hp Ha Hw. revert accp acca Hp Ha. induction Hw as [|[p a] ins [H1 H2] Hw IH]; intros accp acca Hp Ha Hs1 Hs2.
  { unfold total_plurality, total_amount. cbn. by rewrite !Z.add_0_r. }
  unfold total_plurality, total_amount in *. cbn [List.map zsum cell_plurality cell_amount] in *. cbn in H1, H2.
  assert (0 <= zsum (List.map cell_plurality ins) /\ 0 <= zsum (List.map cell_amount ins)).
  { split; apply (zsum_map_nonneg _ cell_wf); try done; intros ? []; lia. }
  cbn [foldM_out fst snd cell_plurality cell_amount]. rewrite uadd_lt by lia. cbn [obind]. rewrite uadd_lt by lia. cbn [obind]. rewrite IH by lia. by rewrite !Z.add_assoc.
Qed.

Lemma relaxed_path {E} ins outs : Forall cell_wf ins -> total_plurality ins < U64 -> @relaxed_formula_path E (total_plurality outs) ins = Ok (relaxed ins outs).
Proof.
  intros Hw Hs. unfold relaxed_formula_path, relaxed. destruct (Z.eqb_spec (total_plurality outs) 1); [done|]. cbn [orb].
  pose proof (total_plurality_len ins Hw). destruct (Z.ltb_spec 2 (len ins)).
  - destruct (Z.eqb_spec (total_plurality ins) 1); [lia|]. destruct (Z.eqb_spec (total_plurality ins) 2); [lia|]. by rewrite andb_false_r.
  - rewrite sum64_spec; [done| |done]. apply Forall_map. eapply Forall_impl; [exact Hw|]. intros x [? _]. cbn. lia.
Qed.

Lemma storage_mass_runs {E} c ins outs : 0 <= c -> Forall cell_wf ins -> Forall cell_wf outs -> total_plurality ins < U64 -> total_plurality outs < U64 ->
  (if relaxed ins outs then Forall (fun i => fits c i = true) ins else ins <> [] /\ total_plurality ins <= total_amount ins < U64) ->
  @calc_storage_mass E false ins outs c = Ok (storage_mass_spec c ins outs).
Proof.
  intros Hc Hwi Hwo Hpi Hpo Hin. unfold calc_storage_mass, storage_mass_spec. rewrite harmonic_outputs_spec by (lia || done). cbn [obind]. rewrite !Z.add_0_l.
  destruct (_ && _); [|done]. rewrite relaxed_path by done. cbn [obind]. destruct (relaxed ins outs) eqn:Hr.
  - rewrite harmonic_inputs by done. cbn [obind]. rewrite foldl_sat_add; [done| |lia]. apply Forall_map. eapply Forall_impl; [exact Hwi|]. intros. by apply share_nonneg.
  - destruct Hin as [Hne [Hle Ha]]. rewrite sum_cells by (lia || done). cbn [obind]. rewrite !Z.add_0_l. pose proof (total_plurality_len ins Hwi).
    assert (0 < total_plurality ins) by (destruct ins; [done|cbn -[Z.of_nat] in *; lia]). unfold div64. destruct (Z.eqb_spec (total_plurality ins) 0); [lia|]. cbn [obind].
    assert (0 < total_amount ins / total_plurality ins) by (apply Z.div_str_pos; lia). destruct (Z.eqb_spec (total_amount ins / total_plurality ins) 0); [lia|]. done.
Qed.

(** C29: The storage mass is the one KIP-0009 defines, with outputs and inputs counted in
    storage units: the harmonic share of the outputs minus the share of the inputs,
    harmonic in the relaxed cases and by the mean amount otherwise, and at least zero.  The
    code neither panics nor overflows, and returns no mass exactly when the harmonic sum of
    the outputs does not fit in 64 bits. *)
Theorem storage_mass_formula {E} c ins outs : 0 <= c -> Forall cell_wf ins -> Forall cell_wf outs -> total_plurality ins < U64 -> total_plurality outs < U64 ->
  (if relaxed ins outs then Forall (fun i => fits c i = true) ins else ins <> [] /\ total_plurality ins <= total_amount ins < U64) ->
  @calc_storage_mass E false ins outs c = Ok (storage_mass_spec c ins outs).
Proof. apply storage_mass_runs. Qed.

Lemma storage_mass_formula_witness :
  @calc_storage_mass unit false [mk_cell 1 300; mk_cell 2 900; mk_cell 1 600] [mk_cell 1 100; mk_cell 2 1200] 10000 = Ok (Some 45).
Proof.
  rewrite (storage_mass_formula 10000 [mk_cell 1 300; mk_cell 2 900; mk_cell 1 600] [mk_cell 1 100; mk_cell 2 1200]).
  - reflexivity.
  - lia.
  - repeat (apply Forall_cons_2; [split; cbn; lia|]). apply Forall_nil_2.
  - repeat (apply Forall_cons_2; [split; cbn; lia|]). apply Forall_nil_2.
  - reflexivity.
  - reflexivity.
  - change (relaxed _ _) with false. cbn iota. split; [discriminate|]. cbn. lia.
Defined.

(** The computation can fail although all amounts are positive and there is an input: when
    the inputs hold less than one sompi per storage unit the mean amount is zero. *)
Lemma storage_mass_divides_by_zero :
  @calc_storage_mass unit false [mk_cell 14 1; mk_cell 14 1; mk_cell 14 1] [mk_cell 1 1; mk_cell 1 2] 1000000000000 = Panic.
Proof. reflexivity. Qed.

(** Scripts of stealth and ML-DSA outputs take more than one storage unit. *)
Lemma standard_scripts_plural : utxo_plurality (mk_spk 16 (repeat 0 66)) = 2 /\ utxo_plurality (mk_spk 0 (repeat 0 1316)) = 14.
Proof. done. Qed.
