(* ===== verification/TxValidator.v ===== *)
(** * Transaction validation

    Model of consensus/src/processes/transaction_validator: the checks of a transaction in
    isolation, in the context of a header and in the context of the UTXO set, composed as
    the code composes them.  Scripts run on the engine of ScriptEngine.v.  The inputs of a
    transaction share the signature cache and the reused hashes; when they are checked in
    parallel, the order in which they are checked is an argument. *)

From Stdlib Require Import ZArith Lia Bool SpecFloat.
From stdpp Require Import base gmap numbers list.
From S2P Require Import Prelude Interval Tx Header Hashing ScriptData ScriptEngine Mass.

#[local] Open Scope Z_scope.

(** ** Constants (consensus/core/src/constants.rs) *)

Definition TX_VERSION : Z := 0.
Definition SOMPI_PER_KASPA : Z := 100000000.
Definition MAX_SOMPI : Z := 29000000000 * SOMPI_PER_KASPA.
Definition CORE_LOCK_TIME_THRESHOLD : Z := 500000000000.
Definition CORE_SEQUENCE_LOCK_TIME_MASK : Z := 0xffffffff.
Definition CORE_SEQUENCE_LOCK_TIME_DISABLED : Z := Z.shiftl 1 63.

(** ** Errors *)

Inductive TxRuleError :=
| NoTxInputs
| TxDuplicateInputs
| TxHasGas
| UnknownTxVersion (v : Z)
| TooManyInputs (n max : nat)
| TooManyOutputs (n max : nat)
| TooBigSignatureScript (i max : nat)
| TooBigScriptPublicKey (i max : nat)
| NotFinalized (i : nat)
| CoinbaseHasInputs (n : nat)
| CoinbaseTooManyOutputs (n : nat) (max : Z)
| CoinbaseScriptPublicKeyTooLong (i : nat)
| CoinbaseNonZeroMassCommitment
| ImmatureCoinbaseSpend (i : nat) (o : TransactionOutpoint) (daa pov maturity : Z)
| InputAmountOverflow
| InputAmountTooHigh
| TxOutZero (i : nat)
| TxOutTooHigh (i : nat)
| OutputsValueOverflow
| TotalTxOutTooHigh
| SpendTooHigh (total_out total_in : Z)
| SequenceLockConditionsAreNotMet
| MissingTxOutpoints
| SignatureInvalid (e : TxScriptError)
| SignatureEmpty (e : TxScriptError)
| WrongSigOpCount (i : nat) (got want : Z)
| MassIncomputable
| WrongMass (calculated committed : Z)
| SubnetworksDisabled (id : bytes)
| FeerateTooLow.
Abbreviation tres := (outcome TxRuleError).

Record TransactionValidator := mk_validator {
  max_tx_inputs : nat;
  max_tx_outputs : nat;
  max_signature_script_len : nat;
  max_script_public_key_len : nat;
  coinbase_payload_script_public_key_max_len : nat;
  coinbase_maturity : Z;
  ghostdag_k : Z;
  mass_calculator : MassCalculator
}.

(** [iter().position(f)]. *)
Fixpoint position {A} (f : A -> bool) (l : list A) : option nat :=
  match l with
  | [] => None
  | x :: l' => if f x then Some 0%nat else option_map S (position f l')
  end.

(** ** In isolation *)

Definition check_transaction_inputs_count (v : TransactionValidator) (tx : Transaction) : tres unit :=
  if negb (is_coinbase tx) && bool_decide (tx_inputs tx = []) then Err NoTxInputs
  else if (max_tx_inputs v <? length (tx_inputs tx))%nat then Err (TooManyInputs (length (tx_inputs tx)) (max_tx_inputs v))
  else Ok tt.
Definition check_transaction_signature_scripts (v : TransactionValidator) (tx : Transaction) : tres unit :=
  match position (fun i => max_signature_script_len v <? length (in_signature_script i))%nat (tx_inputs tx) with
  | Some i => Err (TooBigSignatureScript i (max_signature_script_len v))
  | None => Ok tt
  end.
Definition check_transaction_outputs_count (v : TransactionValidator) (tx : Transaction) : tres unit :=
  if is_coinbase tx then Ok tt
  else if (max_tx_outputs v <? length (tx_outputs tx))%nat then Err (TooManyOutputs (length (tx_outputs tx)) (max_tx_outputs v))
  else Ok tt.
Definition check_transaction_script_public_keys (v : TransactionValidator) (tx : Transaction) : tres unit :=
  match position (fun o => max_script_public_key_len v <? length (spk_script (out_script_public_key o)))%nat (tx_outputs tx) with
  | Some i => Err (TooBigScriptPublicKey i (max_script_public_key_len v))
  | None => Ok tt
  end.
Definition check_transaction_inputs_in_isolation (v : TransactionValidator) (tx : Transaction) : tres unit :=
  let! _ := check_transaction_inputs_count v tx in check_transaction_signature_scripts v tx.
Definition check_transaction_outputs_in_isolation (v : TransactionValidator) (tx : Transaction) : tres unit :=
  let! _ := check_transaction_outputs_count v tx in check_transaction_script_public_keys v tx.

Definition check_coinbase_in_isolation (v : TransactionValidator) (tx : Transaction) : tres unit :=
  if negb (is_coinbase tx) then Ok tt
  else if negb (bool_decide (tx_inputs tx = [])) then Err (CoinbaseHasInputs (length (tx_inputs tx)))
  else if 0 <? tx_mass tx then Err CoinbaseNonZeroMassCommitment
  else
    let! outputs_limit := add64 (ghostdag_k v) 2 in
    if outputs_limit <? len (tx_outputs tx) then Err (CoinbaseTooManyOutputs (length (tx_outputs tx)) outputs_limit)
    else
      match position (fun o => coinbase_payload_script_public_key_max_len v <? length (spk_script (out_script_public_key o)))%nat (tx_outputs tx) with
      | Some i => Err (CoinbaseScriptPublicKeyTooLong i)
      | None => Ok tt
      end.

Fixpoint output_values (i : nat) (total : Z) (outputs : list TransactionOutput) : tres unit :=
  match outputs with
  | [] => Ok tt
  | output :: outputs' =>
      if out_value output =? 0 then Err (TxOutZero i)
      else if MAX_SOMPI <? out_value output then Err (TxOutTooHigh i)
      else
        match checked_add total (out_value output) with
        | None => Err OutputsValueOverflow
        | Some total => if MAX_SOMPI <? total then Err TotalTxOutTooHigh else output_values (S i) total outputs'
        end
  end.
Definition check_transaction_output_value_ranges (tx : Transaction) : tres unit := output_values 0 0 (tx_outputs tx).

Fixpoint duplicate_inputs (existing : gset TransactionOutpoint) (inputs : list TransactionInput) : tres unit :=
  match inputs with
  | [] => Ok tt
  | input :: inputs' =>
      if bool_decide (in_previous_outpoint input ∈ existing) then Err TxDuplicateInputs
      else duplicate_inputs ({[in_previous_outpoint input]} ∪ existing) inputs'
  end.
Definition check_duplicate_transaction_inputs (tx : Transaction) : tres unit := duplicate_inputs ∅ (tx_inputs tx).
Definition check_gas (tx : Transaction) : tres unit := if 0 <? tx_gas tx then Err TxHasGas else Ok tt.
Definition check_transaction_version (tx : Transaction) : tres unit :=
  if negb (tx_version tx =? TX_VERSION) then Err (UnknownTxVersion (tx_version tx)) else Ok tt.
Definition check_transaction_subnetwork (tx : Transaction) : tres unit :=
  if is_coinbase tx || is_native (tx_subnetwork_id tx) then Ok tt else Err (SubnetworksDisabled (tx_subnetwork_id tx)).

Definition validate_tx_in_isolation (v : TransactionValidator) (tx : Transaction) : tres unit :=
  let! _ := check_transaction_inputs_in_isolation v tx in
  let! _ := check_transaction_outputs_in_isolation v tx in
  let! _ := check_coinbase_in_isolation v tx in
  let! _ := check_transaction_output_value_ranges tx in
  let! _ := check_duplicate_transaction_inputs tx in
  let! _ := check_gas tx in
  let! _ := check_transaction_subnetwork tx in
  check_transaction_version tx.

(** ** In the context of a header *)

Inductive LockTimeType := LTFinalized | LTDaaScore | LTTime.
Inductive LockTimeArg := ArgFinalized | ArgDaaScore (daa : Z) | ArgMedianTime (time : Z).

Definition get_lock_time_type (tx : Transaction) : LockTimeType :=
  if tx_lock_time tx =? 0 then LTFinalized
  else if tx_lock_time tx <? CORE_LOCK_TIME_THRESHOLD then LTDaaScore
  else LTTime.
Definition check_tx_is_finalized (tx : Transaction) (lock_time_arg : LockTimeArg) : tres unit :=
  let check (block_time_or_daa_score : Z) :=
    if tx_lock_time tx <? block_time_or_daa_score then Ok tt
    else
      match position (fun i => negb (in_sequence i =? U64 - 1)) (tx_inputs tx) with
      | Some i => Err (NotFinalized i)
      | None => Ok tt
      end in
  match lock_time_arg with
  | ArgFinalized => Ok tt
  | ArgDaaScore ctx_daa_score => check ctx_daa_score
  | ArgMedianTime ctx_block_time => check ctx_block_time
  end.
Definition validate_tx_in_header_context (tx : Transaction) (lock_time_arg : LockTimeArg) : tres unit := check_tx_is_finalized tx lock_time_arg.
Definition validate_tx_in_header_context_with_args (tx : Transaction) (ctx_daa_score ctx_block_time : Z) : tres unit :=
  validate_tx_in_header_context tx
    (match get_lock_time_type tx with LTFinalized => ArgFinalized | LTDaaScore => ArgDaaScore ctx_daa_score | LTTime => ArgMedianTime ctx_block_time end).

(** ** In the context of the UTXO set *)

Inductive TxValidationFlags := FlagFull | FlagSkipScriptChecks | FlagSkipMassCheck.

(** [x as i64] of a [u64]. *)
Definition as_i64 (x : Z) : Z := if x <? I64 then x else x - U64.

(** The first input that spends an immature coinbase output. *)
Fixpoint immature {E} (maturity pov_daa_score : Z) (i : nat) (ins : list (TransactionInput * UtxoEntry)) : outcome E (option (nat * TransactionInput * UtxoEntry)) :=
  match ins with
  | [] => Ok None
  | (input, entry) :: ins' =>
      let! found := if ue_is_coinbase entry then let! s := add64 (ue_block_daa_score entry) maturity in Ok (pov_daa_score <? s) else Ok false in
      if found : bool then Ok (Some (i, input, entry)) else immature maturity pov_daa_score (S i) ins'
  end.
Definition check_transaction_coinbase_maturity (v : TransactionValidator) (tx : VerifiableTransaction) (pov_daa_score : Z) : tres unit :=
  let! found := immature (coinbase_maturity v) pov_daa_score 0 (populated_inputs tx) in
  match found with
  | Some (i, input, entry) => Err (ImmatureCoinbaseSpend i (in_previous_outpoint input) (ue_block_daa_score entry) pov_daa_score (coinbase_maturity v))
  | None => Ok tt
  end.

Fixpoint input_amounts (total : Z) (ins : list (TransactionInput * UtxoEntry)) : tres Z :=
  match ins with
  | [] => Ok total
  | (_, entry) :: ins' =>
      match checked_add total (ue_amount entry) with
      | None => Err InputAmountOverflow
      | Some total => if MAX_SOMPI <? total then Err InputAmountTooHigh else input_amounts total ins'
      end
  end.
Definition check_transaction_input_amounts (tx : VerifiableTransaction) : tres Z := input_amounts 0 (populated_inputs tx).

Definition check_transaction_output_values (tx : VerifiableTransaction) (total_in : Z) : tres Z :=
  let! total_out := sum64 (List.map out_value (tx_outputs (v_tx tx))) in
  if total_in <? total_out then Err (SpendTooHigh total_out total_in) else Ok total_out.

Definition check_mass_commitment (v : TransactionValidator) (tx : VerifiableTransaction) : tres unit :=
  let! m := calc_contextual_masses (mass_calculator v) tx in
  match m with
  | None => Err MassIncomputable
  | Some m => if negb (tx_mass (v_tx tx) =? storage_mass m) then Err (WrongMass (storage_mass m) (tx_mass (v_tx tx))) else Ok tt
  end.

(** Whether some input is still locked. *)
Fixpoint locked {E} (pov_daa_score : Z) (ins : list (TransactionInput * UtxoEntry)) : outcome E bool :=
  match ins with
  | [] => Ok false
  | (input, entry) :: ins' =>
      if Z.land (in_sequence input) CORE_SEQUENCE_LOCK_TIME_DISABLED =? CORE_SEQUENCE_LOCK_TIME_DISABLED then locked pov_daa_score ins'
      else
        let relative_lock := as_i64 (Z.land (in_sequence input) CORE_SEQUENCE_LOCK_TIME_MASK) in
        let! s := i64_add (as_i64 (ue_block_daa_score entry)) relative_lock in
        let! lock_daa_score := i64_add s (-1) in
        if pov_daa_score <=? lock_daa_score then Ok true else locked pov_daa_score ins'
  end.
Definition check_sequence_lock (tx : VerifiableTransaction) (pov_daa_score : Z) : tres unit :=
  let! l := locked (as_i64 pov_daa_score) (populated_inputs tx) in
  if l : bool then Err SequenceLockConditionsAreNotMet else Ok tt.

Definition check_feerate_threshold (fee : Z) (mass_and_feerate_threshold : option (Z * spec_float)) : tres unit :=
  match mass_and_feerate_threshold with
  | Some (contextual_mass, feerate_threshold) =>
      let! _ := rassert (0 <? contextual_mass) in
      if SFleb (f64_div (f64_of_u64 fee) (f64_of_u64 contextual_mass)) feerate_threshold then Err FeerateTooLow else Ok tt
  | None => Ok tt
  end.

(** ** Scripts *)

Definition CHECK_SCRIPTS_PARALLELISM_THRESHOLD : nat := 1.

Definition map_script_err (input : TransactionInput) (script_err : TxScriptError) : TxRuleError :=
  if bool_decide (in_signature_script input = []) then SignatureEmpty script_err else SignatureInvalid script_err.

Section Scripts.
Context `{Crypto}.

(** What the checks of the inputs share: the signature cache, the reused hashes and the
    indices evicted from the cache. *)
Record Shared := mk_shared {
  sh_cache : Cache;
  sh_reused : SigHashReusedValues;
  sh_evictions : list nat
}.

(** One input, and the shared values after it. *)
Definition check_input (tx : VerifiableTransaction) (sh : Shared) (i : nat) : tres Shared :=
  let! ' (input, entry) := populated_input tx i in
  let! vm :=
    map_err (map_script_err input)
      (let! ' (source, vm) := from_transaction_input tx input i entry (sh_reused sh) (sh_cache sh) (sh_evictions sh) in execute source vm) in
  Ok (mk_shared (sig_cache vm) (reused_values vm) (evictions vm)).

Definition check_scripts_sequential (cache : Cache) (evictions : list nat) (tx : VerifiableTransaction) : tres unit :=
  let! _ := foldM_out (check_input tx) (mk_shared cache reused_new evictions) (seq 0 (length (populated_inputs tx))) in Ok tt.
(** The inputs in the order [schedule] in which the thread pool checks them. *)
Definition check_scripts_par_iter (schedule : list nat) (cache : Cache) (evictions : list nat) (tx : VerifiableTransaction) : tres unit :=
  let! _ := foldM_out (check_input tx) (mk_shared cache reused_new evictions) schedule in Ok tt.
Definition check_scripts (schedule : list nat) (cache : Cache) (evictions : list nat) (tx : VerifiableTransaction) : tres unit :=
  if (CHECK_SCRIPTS_PARALLELISM_THRESHOLD <? length (tx_inputs (v_tx tx)))%nat then check_scripts_par_iter schedule cache evictions tx
  else check_scripts_sequential cache evictions tx.

Definition validate_populated_transaction_and_get_fee (v : TransactionValidator) (schedule : list nat) (cache : Cache) (evictions : list nat)
    (tx : VerifiableTransaction) (pov_daa_score : Z) (flags : TxValidationFlags) (mass_and_feerate_threshold : option (Z * spec_float)) : tres Z :=
  let! _ := check_transaction_coinbase_maturity v tx pov_daa_score in
  let! total_in := check_transaction_input_amounts tx in
  let! total_out := check_transaction_output_values tx total_in in
  let! fee := usub total_in total_out in
  let! _ := match flags with FlagSkipMassCheck => Ok tt | _ => check_mass_commitment v tx end in
  let! _ := check_sequence_lock tx pov_daa_score in
  let! _ := check_feerate_threshold fee mass_and_feerate_threshold in
  let! _ := match flags with FlagFull | FlagSkipMassCheck => check_scripts schedule cache evictions tx | FlagSkipScriptChecks => Ok tt end in
  Ok fee.
End Scripts.
