(* ===== verification/TxValidatorLemmas.v ===== *)
(** * Lemmas on transaction validation *)

From Stdlib Require Import ZArith Lia Bool SpecFloat Permutation.
From stdpp Require Import base gmap numbers list.
From S2P Require Import Prelude Interval Tx Header Hashing HashingProps ScriptData ScriptOps ScriptEngine ScriptVerify ScriptCache ScriptProps Mass TxValidator.

#[local] Open Scope Z_scope.

(** ** Searches *)

Lemma position_None {A} (f : A -> bool) l : position f l = None <-> Forall (fun x => f x = false) l.
Proof.
  induction l as [|x l IH]; cbn [position]; [split; [intros _; apply Forall_nil_2|done]|]. rewrite Forall_cons. destruct (f x); [split; [done|by intros [? _]]|].
  destruct (position f l); cbn; rewrite <-IH; [split; [done|by intros [_ ?]]|done].
Qed.

Lemma output_values_spec i total outs : 0 <= total <= MAX_SOMPI -> Forall (fun o => 0 <= out_value o) outs ->
  (output_values i total outs = Ok tt <-> Forall (fun o => 0 < out_value o) outs /\ total + zsum (List.map out_value outs) <= MAX_SOMPI) /\
  (output_values i total outs = Ok tt \/ exists e, output_values i total outs = Err e).
Proof.
  unfold MAX_SOMPI, SOMPI_PER_KASPA. intros Ht Hnn. revert i total Ht. induction Hnn as [|o outs Ho Hnn IH]; intros i total Ht; cbn [output_values List.map zsum].
  { split; [|by left]. split; [|done]. intros _. split; [apply Forall_nil_2|lia]. }
  assert (Hpos : 0 <= zsum (List.map out_value outs)) by (apply zsum_nonneg, Forall_map; exact Hnn). rewrite Forall_cons.
  destruct (Z.eqb_spec (out_value o) 0); [split; [split; [done|intros [[? _] _]; lia]|right; by eexists]|].
  unfold MAX_SOMPI, SOMPI_PER_KASPA. destruct (Z.ltb_spec (29000000000 * 100000000) (out_value o)); [split; [split; [done|lia]|right; by eexists]|].
  unfold checked_add. destruct (Z.ltb_spec (total + out_value o) U64); [|split; [split; [done|lia]|right; by eexists]].
  destruct (Z.ltb_spec (29000000000 * 100000000) (total + out_value o)); [split; [split; [done|lia]|right; by eexists]|].
  destruct (IH (S i) (total + out_value o)) as [IH1 IH2]; [lia|]. split; [|done]. rewrite IH1. split; intros [? ?]; (split; [|lia]).
  - split; [lia|done].
  - by match goal with Hx : _ /\ Forall _ _ |- _ => destruct Hx end.
Qed.

Lemma duplicate_inputs_spec existing ins :
  (duplicate_inputs existing ins = Ok tt <-> NoDup (in_previous_outpoint <$> ins) /\ Forall (fun i => in_previous_outpoint i ∉ existing) ins) /\
  (duplicate_inputs existing ins = Ok tt \/ duplicate_inputs existing ins = Err TxDuplicateInputs).
Proof.
  revert existing. induction ins as [|i ins IH]; intros existing; cbn [duplicate_inputs fmap list_fmap].
  { split; [|by left]. split; [|done]. intros _. split; [apply NoDup_nil_2|apply Forall_nil_2]. }
  rewrite NoDup_cons, Forall_cons. case_bool_decide as Hin; [split; [split; [done|by intros [_ [? _]]]|by right]|].
  destruct (IH ({[in_previous_outpoint i]} ∪ existing)) as [IH1 IH2]. split; [|done]. rewrite IH1, !Forall_forall. split.
  - intros [Hnd Hall]. split; [split; [|done]|split; [done|]].
    + intros (j & Heq & Hj)%list_elem_of_fmap. specialize (Hall j Hj). set_solver.
    + intros j Hj. specialize (Hall j Hj). set_solver.
  - intros [[Hni Hnd] [_ Hall]]. split; [done|]. intros j Hj. specialize (Hall j Hj). rewrite elem_of_union, elem_of_singleton. intros [Heq|?]; [|done].
    apply Hni, list_elem_of_fmap. by exists j.
Qed.

(** ** Amounts *)

Lemma input_amounts_spec total ins r : 0 <= total <= MAX_SOMPI -> Forall (fun p => 0 <= ue_amount p.2) ins ->
  (input_amounts total ins = Ok r <-> r = total + zsum (List.map (fun p => ue_amount p.2) ins) /\ r <= MAX_SOMPI).
Proof.
  unfold MAX_SOMPI, SOMPI_PER_KASPA. intros Ht Hnn. revert total Ht. induction Hnn as [|[i e] ins He Hnn IH]; intros total Ht; cbn [input_amounts List.map zsum snd].
  { rewrite Z.add_0_r. split; [intros [= <-]; lia|by intros [-> _]]. }
  cbn in He. assert (Hpos : 0 <= zsum (List.map (fun p : TransactionInput * UtxoEntry => ue_amount p.2) ins)) by (apply zsum_nonneg, Forall_map; exact Hnn).
  unfold checked_add. destruct (Z.ltb_spec (total + ue_amount e) U64); [|split; [done|lia]]. unfold MAX_SOMPI, SOMPI_PER_KASPA.
  destruct (Z.ltb_spec (29000000000 * 100000000) (total + ue_amount e)); [split; [done|lia]|]. rewrite IH by lia. split; intros [-> ?]; lia.
Qed.

(** ** Maturity and sequence locks *)

Definition mature (maturity pov : Z) (p : TransactionInput * UtxoEntry) : Prop := ue_is_coinbase p.2 = true -> ue_block_daa_score p.2 + maturity <= pov.

Lemma immature_spec {E} maturity pov i ins : Forall (fun p => ue_block_daa_score p.2 + maturity < U64) ins ->
  exists r, @immature E maturity pov i ins = Ok r /\ (r = None <-> Forall (mature maturity pov) ins).
Proof.
  intros Hb. revert i. induction Hb as [|[input e] ins He Hb IH]; intros i; cbn [immature].
  { exists None. split; [done|]. split; [intros _; apply Forall_nil_2|done]. }
  cbn in He. destruct (ue_is_coinbase e) eqn:Hc.
  - rewrite uadd_lt by lia. cbn [obind]. destruct (Z.ltb_spec pov (ue_block_daa_score e + maturity)).
    + eexists. split; [done|]. split; [done|]. intros [Hm _]%Forall_cons. specialize (Hm Hc). cbn in Hm. lia.
    + destruct (IH (S i)) as (r & -> & Hr). exists r. split; [done|]. rewrite Hr, Forall_cons. split; [|by intros [_ ?]]. intros ?. split; [|done]. intros _. cbn. lia.
  - cbn [obind]. destruct (IH (S i)) as (r & -> & Hr). exists r. split; [done|]. rewrite Hr, Forall_cons. split; [|by intros [_ ?]]. intros ?. split; [|done].
    intros Hx. cbn in Hx. congruence.
Qed.

(** The relative lock of an input is disabled or has passed. *)
Definition unlocked (pov : Z) (p : TransactionInput * UtxoEntry) : Prop :=
  Z.land (in_sequence p.1) CORE_SEQUENCE_LOCK_TIME_DISABLED = CORE_SEQUENCE_LOCK_TIME_DISABLED \/
  ue_block_daa_score p.2 + Z.land (in_sequence p.1) CORE_SEQUENCE_LOCK_TIME_MASK <= pov.

Lemma locked_spec {E} pov ins : Forall (fun p => 0 <= in_sequence p.1 /\ 0 <= ue_block_daa_score p.2 < 2 ^ 62) ins ->
  exists b, @locked E pov ins = Ok b /\ (b = false <-> Forall (unlocked pov) ins).
Proof.
  induction 1 as [|[input e] ins [Hs He] Hb IH]; cbn [locked].
  { exists false. split; [done|]. split; [intros _; apply Forall_nil_2|done]. }
  cbn in Hs, He. destruct IH as (b & Hrun & Hiff). unfold unlocked. setoid_rewrite Forall_cons. cbn [fst snd].
  destruct (Z.eqb_spec (Z.land (in_sequence input) CORE_SEQUENCE_LOCK_TIME_DISABLED) CORE_SEQUENCE_LOCK_TIME_DISABLED) as [Hdis|Hdis].
  { exists b. split; [done|]. rewrite Hiff. split; [|by intros [_ ?]]. intros ?. split; [by left|done]. }
  set (rel := Z.land (in_sequence input) CORE_SEQUENCE_LOCK_TIME_MASK).
  assert (Hrel : 0 <= rel < 2 ^ 32).
  { unfold rel, CORE_SEQUENCE_LOCK_TIME_MASK. change 0xffffffff with (Z.ones 32). rewrite Z.land_ones by lia. apply Z.mod_pos_bound. lia. }
  unfold as_i64 at 1 2. destruct (Z.ltb_spec (ue_block_daa_score e) I64); [|lia]. destruct (Z.ltb_spec rel I64); [|lia].
  unfold i64_add, is_i64. destruct (Z.leb_spec (- I64) (ue_block_daa_score e + rel)); [|lia]. destruct (Z.ltb_spec (ue_block_daa_score e + rel) I64); [|lia]. cbn [andb obind].
  destruct (Z.leb_spec (- I64) (ue_block_daa_score e + rel + -1)); [|lia]. destruct (Z.ltb_spec (ue_block_daa_score e + rel + -1) I64); [|lia]. cbn [andb obind].
  destruct (Z.leb_spec pov (ue_block_daa_score e + rel + -1)).
  - exists true. split; [done|]. split; [done|]. intros [[?|Hx] _]; [done|]. lia.
  - exists b. split; [done|]. rewrite Hiff. split; [|by intros [_ ?]]. intros ?. split; [right; lia|done].
Qed.

(** ** Scripts *)

Section Scripts.
Context `{Crypto}.
Variable tx : VerifiableTransaction.
Hypothesis Hlen : length (v_entries tx) = length (tx_inputs (v_tx tx)).

Definition shared_sound (sh : Shared) : Prop := cache_sound (sh_cache sh) /\ reused_ok hash_fn (v_tx tx) (sh_reused sh).

(** The scripts of input [i] run successfully, with nothing cached. *)
Definition input_runs (i : nat) : Prop :=
  exists input e vm', spends tx i input e /\ execute (spend_source tx i input e) (fresh_engine (in_sig_op_count input) (cache_new 0) reused_new []) = Ok vm'.

Lemma check_input_runs sh i : shared_sound sh -> (i < length (tx_inputs (v_tx tx)))%nat ->
  (input_runs i -> exists sh', check_input tx sh i = Ok sh' /\ shared_sound sh') /\ (forall sh', check_input tx sh i = Ok sh' -> input_runs i).
Proof using Hlen.
  intros [Hc Hr] Hi. destruct (lookup_lt_is_Some_2 _ _ Hi) as [input Hin]. rewrite <-Hlen in Hi. destruct (lookup_lt_is_Some_2 _ _ Hi) as [e He].
  assert (Hs : spends tx i input e) by done.
  pose proof (execute_sim tx input i e (is_pay_to_script_hash (spk_script (ue_script_public_key e))) (spends_idx _ _ _ _ Hs)
    (fresh_engine (in_sig_op_count input) (sh_cache sh) (sh_reused sh) (sh_evictions sh)) (fresh_engine (in_sig_op_count input) (cache_new 0) reused_new [])) as Hsim.
  assert (H0 : sim tx (fresh_engine (in_sig_op_count input) (sh_cache sh) (sh_reused sh) (sh_evictions sh)) (fresh_engine (in_sig_op_count input) (cache_new 0) reused_new [])).
  { do 5 (split; [done|]). split; [exact (conj Hc Hr)|]. split; [apply Forall_nil_2|apply reused_new_ok]. }
  specialize (Hsim H0). fold (spend_source tx i input e) in Hsim. unfold check_input, populated_input. rewrite Hin, He. cbn [unwrap obind].
  rewrite (from_input_spec tx i input e _ _ _ Hs). cbn [obind]. split.
  - intros (input' & e' & vm' & [Hin' He'] & Hrun). rewrite Hin in Hin'. injection Hin' as <-. rewrite He in He'. injection He' as <-. rewrite Hrun in Hsim.
    apply orel_Ok_r in Hsim as (a & -> & Hab). cbn [map_err obind]. destruct Hab as (_ & _ & _ & _ & _ & Hsh & _). eexists. split; [done|]. exact Hsh.
  - intros sh' Hrun. apply bind_Ok in Hrun as (vm1 & H1 & _). destruct (execute (spend_source tx i input e) _) as [v1| | |]; try done.
    apply orel_Ok_l in Hsim as (b & Hb & _). by exists input, e, b.
Qed.

Lemma check_inputs_fold sh schedule : shared_sound sh -> Forall (fun i => (i < length (tx_inputs (v_tx tx)))%nat) schedule ->
  (exists sh', foldM_out (check_input tx) sh schedule = Ok sh') <-> Forall input_runs schedule.
Proof using Hlen.
  intros Hsh Hall. revert sh Hsh. induction Hall as [|i schedule Hi Hall IH]; intros sh Hsh; cbn [foldM_out].
  { split; [intros _; apply Forall_nil_2|]. intros _. by exists sh. }
  destruct (check_input_runs sh i Hsh Hi) as [Hgo Hback]. rewrite Forall_cons. split.
  - intros [sh' (sh1 & H1 & Hrun)%bind_Ok]. pose proof (Hback _ H1) as Hr. split; [done|]. destruct (Hgo Hr) as (sh2 & H2 & Hs2). rewrite H1 in H2. injection H2 as <-.
    apply (IH sh1 Hs2). by exists sh'.
  - intros [Hr Hrs]. destruct (Hgo Hr) as (sh1 & -> & Hs1). cbn [obind]. by apply IH.
Qed.

Lemma check_scripts_iff schedule cache ev : cache_sound cache -> Permutation schedule (seq 0 (length (tx_inputs (v_tx tx)))) ->
  check_scripts schedule cache ev tx = Ok tt <-> forall i, (i < length (tx_inputs (v_tx tx)))%nat -> input_runs i.
Proof using Hlen.
  intros Hc Hperm. assert (Hsh : shared_sound (mk_shared cache reused_new ev)) by (split; [done|apply reused_new_ok]).
  assert (Hgen : forall l, Permutation l (seq 0 (length (tx_inputs (v_tx tx)))) ->
    (let! _ := foldM_out (check_input tx) (mk_shared cache reused_new ev) l in Ok tt : tres unit) = Ok tt <-> forall i, (i < length (tx_inputs (v_tx tx)))%nat -> input_runs i).
  { intros l Hl. assert (Hin : forall i, i ∈ l <-> (i < length (tx_inputs (v_tx tx)))%nat) by (intros i; rewrite Hl, elem_of_seq; lia).
    assert (Hall : Forall (fun i => (i < length (tx_inputs (v_tx tx)))%nat) l) by (apply Forall_forall; intros i; apply Hin).
    pose proof (check_inputs_fold _ l Hsh Hall) as Hf. rewrite Forall_forall in Hf. split.
    - intros (sh' & Hrun & _)%bind_Ok i Hi. apply Hf; [by exists sh'|by apply Hin].
    - intros Hr. destruct (proj2 Hf) as [sh' ->]; [|done]. intros i Hi. by apply Hr, Hin. }
  unfold check_scripts. destruct (_ <? _)%nat; [by apply Hgen|]. unfold check_scripts_sequential. apply Hgen.
  unfold populated_inputs. rewrite length_zip_with, Hlen, Nat.min_id. done.
Qed.
End Scripts.

(** ** Validation *)

(** What a transaction in the context of the UTXO set must satisfy, with its fee. *)
Record valid_spend `{Crypto} (v : TransactionValidator) (tx : VerifiableTransaction) (pov fee : Z) : Prop := mk_valid_spend {
  vs_mature : Forall (mature (coinbase_maturity v) pov) (populated_inputs tx);
  vs_amount : zsum (List.map (fun p => ue_amount p.2) (populated_inputs tx)) <= MAX_SOMPI;
  vs_fee : 0 <= fee /\ zsum (List.map (fun p => ue_amount p.2) (populated_inputs tx)) = zsum (List.map out_value (tx_outputs (v_tx tx))) + fee;
  vs_mass : @calc_contextual_masses TxRuleError (mass_calculator v) tx = Ok (Some (mk_contextual (tx_mass (v_tx tx))));
  vs_unlocked : Forall (unlocked pov) (populated_inputs tx);
  vs_scripts : forall i, (i < length (tx_inputs (v_tx tx)))%nat -> input_runs tx i
}.

(** The fields of the transaction and of the entries it spends are in range; scores stay
    far below 2^63. *)
Record vtx_wf (v : TransactionValidator) (tx : VerifiableTransaction) : Prop := mk_vtx_wf {
  vw_len : length (v_entries tx) = length (tx_inputs (v_tx tx));
  vw_inputs : Forall (fun p => 0 <= in_sequence p.1 /\ 0 <= ue_amount p.2 /\ 0 <= ue_block_daa_score p.2 < 2 ^ 62) (populated_inputs tx);
  vw_outputs : Forall (fun o => 0 <= out_value o) (tx_outputs (v_tx tx)) /\ zsum (List.map out_value (tx_outputs (v_tx tx))) < U64;
  vw_maturity : 0 <= coinbase_maturity v < 2 ^ 62
}.

Lemma check_mass_iff v tx : check_mass_commitment v tx = Ok tt <->
  @calc_contextual_masses TxRuleError (mass_calculator v) tx = Ok (Some (mk_contextual (tx_mass (v_tx tx)))).
Proof.
  unfold check_mass_commitment. split.
  - intros ([[m]|] & Hm & Hc)%bind_Ok; [|done]. rewrite Hm. cbn in Hc. destruct (Z.eqb_spec (tx_mass (v_tx tx)) m) as [->|]; [done|done].
  - intros ->. cbn. by rewrite Z.eqb_refl.
Qed.

Lemma validate_iff `{Crypto} v schedule cache ev tx pov fee : vtx_wf v tx -> 0 <= pov < 2 ^ 62 -> cache_sound cache ->
  Permutation schedule (seq 0 (length (tx_inputs (v_tx tx)))) ->
  validate_populated_transaction_and_get_fee v schedule cache ev tx pov FlagFull None = Ok fee <-> valid_spend v tx pov fee.
Proof.
  intros [Hlen Hin [Ho Hos] Hmat] Hpov Hc Hperm. unfold validate_populated_transaction_and_get_fee.
  assert (Hamt : Forall (fun p : TransactionInput * UtxoEntry => 0 <= ue_amount p.2) (populated_inputs tx)) by (eapply Forall_impl; [exact Hin|]; intros ? (_ & ? & _); done).
  destruct (@immature_spec TxRuleError (coinbase_maturity v) pov 0 (populated_inputs tx)) as (r & Himm & Hr).
  { eapply Forall_impl; [exact Hin|]. intros ? (_ & _ & ?). lia. }
  destruct (@locked_spec TxRuleError pov (populated_inputs tx)) as (b & Hlock & Hb).
  { eapply Forall_impl; [exact Hin|]. intros ? (? & _ & ?). done. }
  assert (Hpov' : as_i64 pov = pov) by (unfold as_i64; destruct (Z.ltb_spec pov I64); lia).
  unfold check_transaction_coinbase_maturity, check_sequence_lock, check_transaction_output_values, check_transaction_input_amounts.
  rewrite Himm, Hpov', Hlock. cbn [obind check_feerate_threshold]. rewrite sum64_spec by (first [by apply Forall_map|done]). cbn [obind].
  set (total_in := zsum (List.map (fun p => ue_amount p.2) (populated_inputs tx))). set (total_out := zsum _).
  pose proof (fun r => input_amounts_spec 0 (populated_inputs tx) r ltac:(done) Hamt) as Hsum. fold total_in in Hsum. split.
  - intros ([] & Hm & Hrun)%bind_Ok. destruct r as [[[? ?] ?]|]; [done|]. apply bind_Ok in Hrun as (ti & [-> Hti]%Hsum & Hrun). rewrite Z.add_0_l in *.
    destruct (Z.ltb_spec total_in total_out); [done|]. cbn [obind] in Hrun. rewrite usub_le in Hrun by lia. cbn [obind] in Hrun.
    apply bind_Ok in Hrun as ([] & Hmass%check_mass_iff & Hrun). destruct b; [done|]. cbn [obind] in Hrun.
    apply bind_Ok in Hrun as ([] & Hscr & [= <-]). pose proof (proj1 (check_scripts_iff tx Hlen schedule cache ev Hc Hperm) Hscr) as Hscr'.
    split; try done; [by apply Hr|lia|by apply Hb].
  - intros [Hma Ham [Hf Hfee] Hmass Hun Hscr]. rewrite (proj2 Hr Hma). cbn [obind]. fold total_in total_out in Ham, Hfee.
    rewrite (proj2 (Hsum total_in)) by (split; [lia|done]). cbn [obind]. destruct (Z.ltb_spec total_in total_out); [lia|]. cbn [obind]. rewrite usub_le by lia. cbn [obind].
    rewrite (proj2 (check_mass_iff v tx) Hmass). cbn [obind]. rewrite (proj2 Hb Hun). cbn [obind].
    rewrite (proj2 (check_scripts_iff tx Hlen schedule cache ev Hc Hperm) Hscr). cbn [obind]. f_equal. lia.
Qed.
