(* ===== verification/TxValidatorProps.v ===== *)
(** * Properties of transaction validation *)

From Stdlib Require Import ZArith Lia Bool SpecFloat Permutation.
From stdpp Require Import base gmap numbers list.
From S2P Require Import Prelude Interval Tx Header Hashing HashingProps ScriptData ScriptOps ScriptEngine ScriptVerify ScriptSafety ScriptCache ScriptProps Mass MassProps TxValidator TxValidatorLemmas.

#[local] Open Scope Z_scope.

(** C6: Full validation in the context of the UTXO set accepts a transaction with a fee
    exactly when every coinbase output it spends is mature, its inputs are worth its
    outputs plus the fee and at most the maximal supply, its mass commitment is its storage
    mass, its relative locks have passed and the scripts of all inputs run.  The answer does
    not depend on the order in which threads check the inputs nor on the signature cache. *)
Theorem validation_exact `{Crypto} v schedule cache ev tx pov fee : vtx_wf v tx -> 0 <= pov < 2 ^ 62 -> cache_sound cache ->
  Permutation schedule (seq 0 (length (tx_inputs (v_tx tx)))) ->
  validate_populated_transaction_and_get_fee v schedule cache ev tx pov FlagFull None = Ok fee <-> valid_spend v tx pov fee.
Proof. apply validate_iff. Qed.

(** ** In isolation *)

(** What a transaction must satisfy on its own. *)
Record valid_isolated (v : TransactionValidator) (tx : Transaction) : Prop := mk_valid_isolated {
  vi_inputs : (is_coinbase tx = true -> tx_inputs tx = []) /\ (is_coinbase tx = false -> tx_inputs tx <> []) /\ (length (tx_inputs tx) <= max_tx_inputs v)%nat;
  vi_outputs : if is_coinbase tx then len (tx_outputs tx) <= ghostdag_k v + 2 else (length (tx_outputs tx) <= max_tx_outputs v)%nat;
  vi_scripts : Forall (fun i => (length (in_signature_script i) <= max_signature_script_len v)%nat) (tx_inputs tx) /\
    Forall (fun o => (length (spk_script (out_script_public_key o)) <= max_script_public_key_len v)%nat) (tx_outputs tx);
  vi_coinbase : is_coinbase tx = true -> tx_mass tx <= 0 /\
    Forall (fun o => (length (spk_script (out_script_public_key o)) <= coinbase_payload_script_public_key_max_len v)%nat) (tx_outputs tx);
  vi_values : Forall (fun o => 0 < out_value o) (tx_outputs tx) /\ zsum (List.map out_value (tx_outputs tx)) <= MAX_SOMPI;
  vi_distinct : NoDup (in_previous_outpoint <$> tx_inputs tx);
  vi_fields : tx_gas tx <= 0 /\ tx_version tx = TX_VERSION /\ (is_coinbase tx || is_native (tx_subnetwork_id tx) = true)
}.

Lemma position_check {A} (f : A -> nat) limit (l : list A) (err : nat -> TxRuleError) :
  (match position (fun x => (limit <? f x)%nat) l with Some i => Err (err i) | None => Ok tt end = Ok tt <-> Forall (fun x => (f x <= limit)%nat) l) /\
  (match position (fun x => (limit <? f x)%nat) l with Some i => Err (err i) | None => Ok tt end = Ok tt \/
   exists e, match position (fun x => (limit <? f x)%nat) l with Some i => Err (err i) | None => Ok tt end = Err e).
Proof.
  assert (Hiff : Forall (fun x => (limit <? f x)%nat = false) l <-> Forall (fun x => (f x <= limit)%nat) l).
  { rewrite !Forall_forall. split; intros Hl x Hx; specialize (Hl x Hx); [by apply Nat.ltb_ge|by apply Nat.ltb_ge]. }
  pose proof (position_None (fun x => (limit <? f x)%nat) l) as Hp. rewrite Hiff in Hp. destruct (position _ l).
  - split; [|right; by eexists]. split; [done|]. intros Hx%Hp. done.
  - split; [|by left]. split; [|done]. intros _. by apply Hp.
Qed.

(** A check that decides a proposition without panicking. *)
Definition decides (m : tres unit) (P : Prop) : Prop := (m = Ok tt <-> P) /\ (m = Ok tt \/ exists e, m = Err e).

Lemma decides_seq m m' P Q : decides m P -> (P -> decides m' Q) -> decides (let! _ := m in m') (P /\ Q).
Proof.
  intros [Hm [->|[e ->]]] Hq; cbn [obind].
  - destruct (Hq (proj1 Hm eq_refl)) as [Hm' Hd]. split; [|done]. rewrite Hm'. split; [intros; split; [by apply Hm|done]|by intros [_ ?]].
  - split; [|right; by eexists]. split; [done|]. intros [Hp _]. by apply Hm in Hp.
Qed.
Lemma decides_ok P : P -> decides (Ok tt) P.
Proof. intros HP. split; [done|by left]. Qed.
Lemma decides_err e (P : Prop) : ~ P -> decides (Err e) P.
Proof. intros HP. split; [done|right; by eexists]. Qed.
Lemma decides_iff m P Q : (P <-> Q) -> decides m P -> decides m Q.
Proof. intros HPQ [Hm Hd]. split; [by rewrite Hm|done]. Qed.

Lemma isolation_decided v tx : 0 <= ghostdag_k v < U16 -> Forall (fun o => 0 <= out_value o) (tx_outputs tx) ->
  decides (validate_tx_in_isolation v tx) (valid_isolated v tx).
Proof.
  intros Hk Hnn.
  apply (decides_iff _ (((((is_coinbase tx = false -> tx_inputs tx <> []) /\ (length (tx_inputs tx) <= max_tx_inputs v)%nat) /\
      Forall (fun i => (length (in_signature_script i) <= max_signature_script_len v)%nat) (tx_inputs tx))) /\
    (((is_coinbase tx = false -> (length (tx_outputs tx) <= max_tx_outputs v)%nat) /\
      Forall (fun o => (length (spk_script (out_script_public_key o)) <= max_script_public_key_len v)%nat) (tx_outputs tx))) /\
    ((is_coinbase tx = true -> tx_inputs tx = [] /\ tx_mass tx <= 0 /\ len (tx_outputs tx) <= ghostdag_k v + 2 /\
      Forall (fun o => (length (spk_script (out_script_public_key o)) <= coinbase_payload_script_public_key_max_len v)%nat) (tx_outputs tx))) /\
    (Forall (fun o => 0 < out_value o) (tx_outputs tx) /\ zsum (List.map out_value (tx_outputs tx)) <= MAX_SOMPI) /\
    NoDup (in_previous_outpoint <$> tx_inputs tx) /\ tx_gas tx <= 0 /\ (is_coinbase tx || is_native (tx_subnetwork_id tx) = true) /\ tx_version tx = TX_VERSION)).
  { split.
    - intros ([[? ?] ?] & [? ?] & Hcb & ? & ? & ? & ? & ?). split.
      + split; [by intros [? _]%Hcb|done].
      + destruct (is_coinbase tx); [by apply Hcb|auto].
      + done.
      + by intros (? & ? & ? & ?)%Hcb.
      + done.
      + done.
      + done.
    - intros [(? & ? & ?) Ho [? ?] Hcb ? ? (? & ? & ?)]. split; [split; [split|]; done|]. split; [split; [|done]; intros Hc; by rewrite Hc in Ho|].
      split; [intros Hc; destruct (Hcb Hc); rewrite Hc in Ho; auto|]. done. }
  unfold validate_tx_in_isolation. apply decides_seq; [|intros _; apply decides_seq; [|intros _; apply decides_seq; [|intros _]]].
  - unfold check_transaction_inputs_in_isolation. apply decides_seq; [|intros _; apply position_check]. unfold check_transaction_inputs_count.
    destruct (is_coinbase tx); cbn [negb andb].
    + destruct (Nat.ltb_spec (max_tx_inputs v) (length (tx_inputs tx))); [apply decides_err; intros [_ ?]; lia|by apply decides_ok].
    + case_bool_decide as Hi; [apply decides_err; intros [Hx _]; by apply Hx|].
      destruct (Nat.ltb_spec (max_tx_inputs v) (length (tx_inputs tx))); [apply decides_err; intros [_ ?]; lia|by apply decides_ok].
  - unfold check_transaction_outputs_in_isolation. apply decides_seq; [|intros _; apply position_check]. unfold check_transaction_outputs_count.
    destruct (is_coinbase tx); [by apply decides_ok|].
    destruct (Nat.ltb_spec (max_tx_outputs v) (length (tx_outputs tx))); [apply decides_err; intros Hx; specialize (Hx eq_refl); lia|by apply decides_ok].
  - unfold check_coinbase_in_isolation. destruct (is_coinbase tx); cbn [negb]; [|by apply decides_ok].
    case_bool_decide as Hi; cbn [negb]; [|apply decides_err; intros Hx; by destruct (Hx eq_refl)].
    destruct (Z.ltb_spec 0 (tx_mass tx)); [apply decides_err; intros Hx; destruct (Hx eq_refl) as (_ & ? & _); lia|].
    rewrite uadd_lt by lia. cbn [obind]. destruct (Z.ltb_spec (ghostdag_k v + 2) (len (tx_outputs tx))); [apply decides_err; intros Hx; destruct (Hx eq_refl) as (_ & _ & ? & _); lia|].
    eapply decides_iff; [|apply (position_check _ _ _ CoinbaseScriptPublicKeyTooLong)]. split; [auto|]. intros Hx. by destruct (Hx eq_refl) as (_ & _ & _ & ?).
  - apply decides_seq; [|intros _; apply decides_seq; [|intros _; apply decides_seq; [|intros _; apply decides_seq; [|intros _]]]].
    + apply (output_values_spec 0 0 (tx_outputs tx)); done.
    + destruct (duplicate_inputs_spec ∅ (tx_inputs tx)) as [Hd Hr]. unfold check_duplicate_transaction_inputs. split; [|destruct Hr; [by left|right; by eexists]].
      rewrite Hd. split; [by intros [? _]|]. intros ?. split; [done|]. apply Forall_forall. intros. apply not_elem_of_empty.
    + unfold check_gas. destruct (Z.ltb_spec 0 (tx_gas tx)); [apply decides_err; lia|by apply decides_ok].
    + unfold check_transaction_subnetwork. destruct (_ || _); [by apply decides_ok|by apply decides_err].
    + unfold check_transaction_version. destruct (Z.eqb_spec (tx_version tx) TX_VERSION); [by apply decides_ok|by apply decides_err].
Qed.

(** C28: Validation in isolation accepts exactly the transactions that respect the limits on
    inputs, outputs and scripts, whose outputs are positive and at most the maximal supply
    in total, that spend no outpoint twice, and whose other fields are as required; it
    returns an error for all others and never panics. *)
Theorem isolation_exact v tx : 0 <= ghostdag_k v < U16 -> Forall (fun o => 0 <= out_value o) (tx_outputs tx) ->
  (validate_tx_in_isolation v tx = Ok tt <-> valid_isolated v tx) /\
  (validate_tx_in_isolation v tx = Ok tt \/ exists e, validate_tx_in_isolation v tx = Err e).
Proof. apply isolation_decided. Qed.

(** ** Masses of accepted transactions *)

Definition estimated_size (tx : Transaction) : Z :=
  94 + zsum (List.map (fun i => 52 + len (in_signature_script i)) (tx_inputs tx)) +
  zsum (List.map (fun o => 18 + len (spk_script (out_script_public_key o))) (tx_outputs tx)) + len (tx_payload tx).

(** The size that the limits of the validator allow, with a payload of [payload] bytes. *)
Definition max_size (v : TransactionValidator) (payload : Z) : Z :=
  94 + Z.of_nat (max_tx_inputs v) * (52 + Z.of_nat (max_signature_script_len v)) +
  Z.of_nat (max_tx_outputs v) * (18 + Z.of_nat (max_script_public_key_len v)) + payload.

Lemma zsum_bound {A} (f : A -> Z) (l : list A) b n : Forall (fun x => 0 <= f x <= b) l -> (length l <= n)%nat -> 0 <= b -> 0 <= zsum (List.map f l) <= Z.of_nat n * b.
Proof.
  intros Hf. revert n. induction Hf as [|x l Hx Hf IH]; intros n Hn Hb; cbn; [nia|]. cbn in Hn. destruct n as [|n]; [lia|]. specialize (IH n ltac:(lia) Hb). nia.
Qed.

Lemma zsum_member {A} (f : A -> Z) l x : (forall y, 0 <= f y) -> x ∈ l -> f x <= zsum (List.map f l).
Proof.
  intros Hf. induction l as [|j l IH]; intros Hx; [by apply not_elem_of_nil in Hx|]. cbn. assert (0 <= zsum (List.map f l)).
  { apply zsum_nonneg, Forall_map, Forall_forall. intros. apply Hf. }
  pose proof (Hf j). apply elem_of_cons in Hx as [->|Hx]; [lia|]. specialize (IH Hx). lia.
Qed.

Lemma size_runs {E} tx : estimated_size tx < U64 -> @transaction_estimated_serialized_size E tx = Ok (estimated_size tx).
Proof.
  unfold estimated_size, transaction_estimated_serialized_size. set (ins := zsum _). set (outs := zsum (List.map _ (tx_outputs tx))). intros Hs.
  assert (Hin : Forall (fun x => 0 <= x) (List.map (fun i => 52 + len (in_signature_script i)) (tx_inputs tx))) by (apply Forall_map, Forall_forall; intros; cbn; lia).
  assert (Hout : Forall (fun x => 0 <= x) (List.map (fun o => 18 + len (spk_script (out_script_public_key o))) (tx_outputs tx))) by (apply Forall_map, Forall_forall; intros; cbn; lia).
  pose proof (zsum_nonneg _ Hin) as Hi0. pose proof (zsum_nonneg _ Hout) as Ho0. fold ins in Hi0. fold outs in Ho0.
  rewrite (mapM_out_Ok _ (fun i => 52 + len (in_signature_script i))).
  2:{ intros i Hi. unfold transaction_input_estimated_serialized_size, outpoint_estimated_serialized_size, HASH_SIZE.
      pose proof (zsum_member (fun i => 52 + len (in_signature_script i)) _ i ltac:(intros; cbv beta; lia) Hi) as Hm. fold ins in Hm. cbv beta in Hm.
      rewrite uadd_lt by lia. cbn [obind]. rewrite uadd_lt by lia. f_equal. lia. }
  cbn [obind]. rewrite sum64_spec by (done || (fold ins; lia)). fold ins. cbn [obind]. rewrite uadd_lt by lia. cbn [obind]. rewrite uadd_lt by lia. cbn [obind].
  rewrite (mapM_out_Ok _ (fun o => 18 + len (spk_script (out_script_public_key o)))).
  2:{ intros o Ho. unfold transaction_output_estimated_serialized_size.
      pose proof (zsum_member (fun o => 18 + len (spk_script (out_script_public_key o))) _ o ltac:(intros; cbv beta; lia) Ho) as Hm. fold outs in Hm. cbv beta in Hm.
      rewrite uadd_lt by lia. done. }
  cbn [obind]. rewrite sum64_spec by (done || (fold outs; lia)). fold outs. cbn [obind]. rewrite uadd_lt by lia. cbn [obind].
  unfold SUBNETWORK_ID_SIZE, HASH_SIZE. rewrite uadd_lt by (cbn; lia). cbn [obind]. rewrite uadd_lt by (cbn; lia). f_equal. cbn. lia.
Qed.

Lemma estimated_size_bound v tx : valid_isolated v tx -> is_coinbase tx = false -> 0 <= estimated_size tx <= max_size v (len (tx_payload tx)).
Proof.
  intros [(_ & _ & Hni) Hno [Hsi Hso] _ _ _ _] Hcb. rewrite Hcb in Hno. unfold estimated_size, max_size.
  pose proof (zsum_bound (fun i => 52 + len (in_signature_script i)) (tx_inputs tx) (52 + Z.of_nat (max_signature_script_len v)) (max_tx_inputs v)) as Hi.
  pose proof (zsum_bound (fun o => 18 + len (spk_script (out_script_public_key o))) (tx_outputs tx) (18 + Z.of_nat (max_script_public_key_len v)) (max_tx_outputs v)) as Ho.
  assert (Forall (fun i => 0 <= 52 + len (in_signature_script i) <= 52 + Z.of_nat (max_signature_script_len v)) (tx_inputs tx)) by (eapply Forall_impl; [exact Hsi|]; intros; cbv beta in *; lia).
  assert (Forall (fun o => 0 <= 18 + len (spk_script (out_script_public_key o)) <= 18 + Z.of_nat (max_script_public_key_len v)) (tx_outputs tx)) by (eapply Forall_impl; [exact Hso|]; intros; cbv beta in *; lia).
  specialize (Hi H Hni ltac:(lia)). specialize (Ho H0 Hno ltac:(lia)). lia.
Qed.

(** The limits that validation in isolation enforces keep the masses of a transaction
    within 64 bits: when the limits, the mass parameters and the payload are small enough
    for the largest transaction they allow, the compute mass of every accepted transaction
    is the linear function of its size, scripts and signature operations that the
    parameters define, and its transient mass four times its size. *)
Theorem isolated_masses_fit {E} v tx c :
  valid_isolated v tx -> is_coinbase tx = false -> 0 <= mass_per_tx_byte c -> 0 <= mass_per_script_pub_key_byte c -> 0 <= mass_per_sig_op c ->
  Forall (fun i => 0 <= in_sig_op_count i < U8) (tx_inputs tx) ->
  max_size v (len (tx_payload tx)) * (mass_per_tx_byte c + TRANSIENT_BYTE_TO_MASS_FACTOR) +
    Z.of_nat (max_tx_outputs v) * (2 + Z.of_nat (max_script_public_key_len v)) * (mass_per_script_pub_key_byte c + 1) +
    Z.of_nat (max_tx_inputs v) * 255 * (mass_per_sig_op c + 1) < U64 ->
  @calc_non_contextual_masses E c tx = Ok (mk_non_contextual
    (estimated_size tx * mass_per_tx_byte c +
     zsum (List.map (fun o => 2 + len (spk_script (out_script_public_key o))) (tx_outputs tx)) * mass_per_script_pub_key_byte c +
     zsum (List.map in_sig_op_count (tx_inputs tx)) * mass_per_sig_op c)
    (estimated_size tx * 4)).
Proof.
  intros Hiso Hcb Hb Hs Ho Hsig Hlim. pose proof (estimated_size_bound v tx Hiso Hcb) as Hsize. destruct Hiso as [(_ & _ & Hni) Hno [_ Hso] _ _ _ _]. rewrite Hcb in Hno.
  unfold TRANSIENT_BYTE_TO_MASS_FACTOR in Hlim.
  assert (Hspk : 0 <= zsum (List.map (fun o => 2 + len (spk_script (out_script_public_key o))) (tx_outputs tx)) <= Z.of_nat (max_tx_outputs v) * (2 + Z.of_nat (max_script_public_key_len v))).
  { apply zsum_bound; [|done|lia]. eapply Forall_impl; [exact Hso|]. intros; cbv beta in *; lia. }
  assert (Hops : 0 <= zsum (List.map in_sig_op_count (tx_inputs tx)) <= Z.of_nat (max_tx_inputs v) * 255).
  { apply zsum_bound; [|done|lia]. eapply Forall_impl; [exact Hsig|]. intros; cbv beta in *; lia. }
  unfold calc_non_contextual_masses. rewrite Hcb. set (spk := zsum _) in *. set (ops := zsum (List.map in_sig_op_count _)) in *. set (m := max_size v _) in *.
  set (so := Z.of_nat (max_tx_outputs v) * (2 + Z.of_nat (max_script_public_key_len v))) in *. set (oi := Z.of_nat (max_tx_inputs v) * 255) in *.
  rewrite size_runs by nia. cbn [obind]. rewrite umul_lt by nia. cbn [obind]. rewrite (mapM_out_Ok _ (fun o => 2 + len (spk_script (out_script_public_key o)))).
  2:{ intros o Hin. apply uadd_lt. pose proof (zsum_member (fun o => 2 + len (spk_script (out_script_public_key o))) _ o ltac:(intros; cbv beta; lia) Hin) as Hm. cbv beta in Hm. fold spk in Hm. nia. }
  cbn [obind]. rewrite sum64_spec; [|apply Forall_map, Forall_forall; intros; cbv beta in *; lia|fold spk; nia]. fold spk. cbn [obind]. rewrite umul_lt by nia. cbn [obind].
  rewrite sum64_spec; [|apply Forall_map; eapply Forall_impl; [exact Hsig|]; intros; cbv beta in *; lia|fold ops; nia]. fold ops. cbn [obind]. rewrite umul_lt by nia. cbn [obind].
  rewrite uadd_lt by nia. cbn [obind]. rewrite uadd_lt by nia. cbn [obind]. rewrite umul_lt by (unfold TRANSIENT_BYTE_TO_MASS_FACTOR; nia). done.
Qed.

(** ** Instances *)

(** The limits of the main network, with a storage mass parameter that leaves the small
    amounts of the instance without storage mass. *)
Definition tx_validator : TransactionValidator :=
  mk_validator (Z.to_nat 1000) (Z.to_nat 1000) (Z.to_nat 10000) (Z.to_nat 10000) 150 1000 124 (mk_calculator 1 2 800 50).

Lemma validation_exact_witness : @valid_spend toy_crypto tx_validator (sx_tx sx_script sx_spk) 100 50.
Proof.
  apply (@validation_exact toy_crypto tx_validator [0%nat] (cache_new 4) [] (sx_tx sx_script sx_spk) 100 50).
  - split; [reflexivity| | |vm_compute; split; [discriminate|reflexivity]].
    + apply Forall_cons_2; [vm_compute; repeat split; discriminate|apply Forall_nil_2].
    + split; [apply Forall_cons_2; [vm_compute; discriminate|apply Forall_nil_2]|vm_compute; reflexivity].
  - lia.
  - apply Forall_nil_2.
  - reflexivity.
  - vm_compute. reflexivity.
Defined.

Lemma isolation_exact_witness : valid_isolated tx_validator (v_tx (sx_tx sx_script sx_spk)).
Proof.
  apply (isolation_exact tx_validator (v_tx (sx_tx sx_script sx_spk))).
  - vm_compute. split; [discriminate|reflexivity].
  - apply Forall_cons_2; [vm_compute; discriminate|apply Forall_nil_2].
  - vm_compute. reflexivity.
Defined.

Lemma isolated_masses_fit_witness : @calc_non_contextual_masses TxRuleError (mk_calculator 1 2 800 50) (v_tx (sx_tx sx_script sx_spk)) = Ok (mk_non_contextual 2637 924).
Proof.
  rewrite (isolated_masses_fit tx_validator (v_tx (sx_tx sx_script sx_spk)) (mk_calculator 1 2 800 50)).
  - vm_compute. reflexivity.
  - apply isolation_decided.
    + vm_compute. split; [discriminate|reflexivity].
    + apply Forall_cons_2; [vm_compute; discriminate|apply Forall_nil_2].
    + vm_compute. reflexivity.
  - reflexivity.
  - cbn. lia.
  - cbn. lia.
  - cbn. lia.
  - apply Forall_cons_2; [cbn; lia|apply Forall_nil_2].
  - vm_compute. reflexivity.
Defined.
