(* ===== verification/U3072.v ===== *)
(** * The field of the multiset hash

    Model of crypto/muhash/src/u3072.rs: multiplication, inversion and division modulo
    2^3072 - 1103717 on 48 limbs of 64 bits.  Sums and products of [u64]s and [u128]s are
    checked, the [overflowing_] additions wrap, indices out of range panic.  The modular
    inverse of the external big number crate is the class [ModInverse]. *)

From Stdlib Require Import ZArith Lia Bool.
From stdpp Require Import base numbers list.
From S2P Require Import Prelude Uint.

#[local] Open Scope Z_scope.

Definition LIMBS : nat := 48.
Definition PRIME_DIFF : Z := 1103717.
Definition U128 : Z := 340282366920938463463374607431768211456.

(** The value of [UINT_PRIME]. *)
Definition PRIME : Z := modulus LIMBS - PRIME_DIFF.

Definition get {E} (l : limbs) (i : nat) : outcome E Z := unwrap (l !! i).

(** ** Words *)

Definition mul_wide (a b : Z) : Z * Z := let t := a * b in (t mod U64, Z.shiftr t 64).

Definition mulnadd3 {E} (c0 c1 d0 d1 d2 n : Z) : outcome E (Z * Z * Z) :=
  let! t := umul U128 d0 n in
  let! t := uadd U128 t c0 in
  let c0 := t mod U64 in
  let t := Z.shiftr t 64 in
  let! s := umul U128 d1 n in
  let! s := uadd U128 s c1 in
  let! t := uadd U128 t s in
  let c1 := t mod U64 in
  let t := Z.shiftr t 64 in
  let! s := mul64 d2 n in
  let! c2 := add64 (t mod U64) s in
  Ok (c0, c1, c2).

Definition muladd3 {E} (a b low high carry : Z) : outcome E (Z * Z * Z) :=
  let '(tl, th) := mul_wide a b in
  let '(low, overflow) := overflowing_add64 low tl in
  let! th := add64 th (Z.b2z overflow) in
  let '(high, overflow) := overflowing_add64 high th in
  let! carry := add64 carry (Z.b2z overflow) in
  Ok (low, high, carry).

Definition muln2 {E} (low high n : Z) : outcome E (Z * Z) :=
  let! tmp := umul U128 low n in
  let low := tmp mod U64 in
  let tmp := Z.shiftr tmp 64 in
  let! s := umul U128 high n in
  let! tmp := uadd U128 tmp s in
  Ok (low, tmp mod U64).

(** ** Field elements *)

Definition u3072_zero : limbs := uint_zero LIMBS.
Definition u3072_one : limbs := <[0%nat := 1]> u3072_zero.

Definition is_overflow {E} (self : limbs) : outcome E bool :=
  let! l0 := get self 0 in
  if l0 <=? U64 - 1 - PRIME_DIFF then Ok false
  else Ok (forallb (fun limb => limb =? U64 - 1) (drop 1 self)).

Definition u3072_from_le_bytes (bytes : list Z) : limbs := from_le_bytes LIMBS bytes.
Definition u3072_to_le_bytes (self : limbs) : list Z := to_le_bytes self.

(** Adds the two-limb number [low, high] to the limbs: the loop of [full_reduce] and of
    the second reduction of [mul]. *)
Fixpoint add_carries (low high : Z) (self : limbs) : limbs * (Z * Z) :=
  match self with
  | [] => ([], (low, high))
  | limb :: self' =>
      let '(low, overflow) := overflowing_add64 low limb in
      let '(high, overflow) := overflowing_add64 high (Z.b2z overflow) in
      let '(rest, carries) := add_carries high (Z.b2z overflow) self' in
      (low :: rest, carries)
  end.

Definition full_reduce (self : limbs) : limbs := (add_carries PRIME_DIFF 0 self).1.
Definition reduced {E} (self : limbs) : outcome E limbs :=
  let! o := is_overflow self in Ok (if o : bool then full_reduce self else self).

(** One step of an inner loop: the product of two limbs. *)
Definition muladd_at {E} (self other : limbs) (k : nat) (acc : Z * Z * Z) (i : nat) : outcome E (Z * Z * Z) :=
  let '(low, high, carry) := acc in
  let! x := get self i in
  let! y := get other (k - i) in
  muladd3 x y low high carry.

(** The products of the limbs that sum to [LIMBS + j]. *)
Definition high_row {E} (self other : limbs) (j : nat) : outcome E (Z * Z * Z) :=
  let! x := get self (j + 1) in
  let! y := get other (LIMBS + j - (1 + j)) in
  let '(low, high) := mul_wide x y in
  foldM_out (muladd_at self other (LIMBS + j)) (low, high, 0) (seq (2 + j) (LIMBS - (2 + j))).

Record MulState := mk_mul {
  ms_tmp : limbs;
  ms_low : Z;
  ms_high : Z;
  ms_highest : Z
}.

(** One iteration of the loop over the limbs of the result. *)
Definition mul_step {E} (self other : limbs) (s : MulState) (j : nat) : outcome E MulState :=
  let! ' (low, high, carry) := high_row self other j in
  let! acc := mulnadd3 (ms_low s) (ms_high s) low high carry PRIME_DIFF in
  let! ' (carry_low, carry_high, carry_highest) := foldM_out (muladd_at self other j) acc (seq 0 (j + 1)) in
  let! _ := get (ms_tmp s) j in
  Ok (mk_mul (<[j := carry_low]> (ms_tmp s)) carry_high carry_highest 0).

Definition u3072_mul {E} (self other : limbs) : outcome E limbs :=
  if bool_decide (self = u3072_one) then Ok other
  else
    let! s := foldM_out (mul_step self other) (mk_mul u3072_one 0 0 0) (seq 0 (LIMBS - 1)) in
    let! _ := rassert (ms_highest s =? 0) in
    let! ' (carry_low, carry_high, carry_highest) :=
      foldM_out (muladd_at self other (LIMBS - 1)) (ms_low s, ms_high s, ms_highest s) (seq 0 LIMBS) in
    let! _ := get (ms_tmp s) (LIMBS - 1) in
    let tmp := <[(LIMBS - 1)%nat := carry_low]> (ms_tmp s) in
    let! ' (carry_low, carry_high) := muln2 carry_high carry_highest PRIME_DIFF in
    let '(self, (carry_low, carry_high)) := add_carries carry_low carry_high tmp in
    let! _ := rassert (carry_high =? 0) in
    let! _ := rassert ((carry_low =? 0) || (carry_low =? 1)) in
    let! self := reduced self in
    Ok (if negb (carry_low =? 0) then full_reduce self else self).

(** ** Inversion and division *)

(** [Natural::mod_inverse] of the external crate, and its law. *)
Class ModInverse := natural_mod_inverse : Z -> Z -> option Z.
Class ModInverseSpec `{ModInverse} : Prop := natural_mod_inverse_spec x m :
  0 < x < m -> Z.gcd x m = 1 -> exists y, natural_mod_inverse x m = Some y /\ 0 <= y < m /\ (x * y) mod m = 1 mod m.

(** The limbs of a natural number, ascending; more than [n] do not fit the array. *)
Definition limbs_of {E} (n : nat) (x : Z) : outcome E limbs :=
  if x <? modulus n then Ok (tabulate n (fun i => Z.shiftr x (64 * Z.of_nat i) mod U64)) else Panic.

Section Inverse.
Context `{ModInverse} {E : Type}.

(** [Uint3072::mod_inverse] *)
Definition mod_inverse (self prime : limbs) : outcome E (option limbs) :=
  match natural_mod_inverse (val self) (val prime) with
  | None => Ok None
  | Some n => let! res := limbs_of (length self) n in Ok (Some res)
  end.

Definition UINT_PRIME : limbs := <[0%nat := U64 - PRIME_DIFF]> (uint_max LIMBS).

Definition inverse (self : limbs) : outcome E limbs :=
  let! a := reduced self in
  if bool_decide (a = u3072_zero) then Ok a
  else let! inv := mod_inverse a UINT_PRIME in unwrap inv.

Definition u3072_div (self other : limbs) : outcome E limbs :=
  let! other := reduced other in
  let! inv := inverse other in
  let! self := reduced self in
  let! self := u3072_mul self inv in
  reduced self.
End Inverse.
