(* ===== verification/U3072Lemmas.v ===== *)
(** * Lemmas on the field of the multiset hash

    Sums over ranges, the schoolbook product by rows, and what each word operation and
    loop of u3072.rs computes. *)

From Stdlib Require Import ZArith Lia Bool.
From stdpp Require Import base numbers list.
From S2P Require Import Prelude Uint UintLemmas U3072.

#[local] Open Scope Z_scope.

(** ** Sums over ranges of indices *)

Definition sumf (f : nat -> Z) (s n : nat) : Z := zsum (List.map f (seq s n)).

Lemma sumf_S f s n : sumf f s (S n) = sumf f s n + f (s + n)%nat.
Proof. unfold sumf. rewrite seq_S, List.map_app, zsum_app. cbn. lia. Qed.
Lemma sumf_split f s n m : sumf f s (n + m) = sumf f s n + sumf f (s + n) m.
Proof. unfold sumf. by rewrite seq_app, List.map_app, zsum_app. Qed.
Lemma sumf_at i f n : (i <= n)%nat -> sumf f 0 n = sumf f 0 i + sumf f i (n - i).
Proof. intros Hi. rewrite <-(sumf_split f 0 i). f_equal. lia. Qed.
Lemma sumf_ext f g s n : (forall i, (s <= i < s + n)%nat -> f i = g i) -> sumf f s n = sumf g s n.
Proof.
  intros Heq. unfold sumf. f_equal. apply List.map_ext_in. intros i Hi%List.in_seq. auto.
Qed.
Lemma sumf_shift f s n : sumf f s n = sumf (fun i => f (s + i)%nat) 0 n.
Proof. induction n as [|n IH]; [done|]. rewrite !sumf_S, IH. done. Qed.
Lemma sumf_mul c f s n : sumf (fun i => c * f i) s n = c * sumf f s n.
Proof. induction n as [|n IH]; [unfold sumf; cbn; lia|]. rewrite !sumf_S, IH. lia. Qed.
Lemma sumf_add f g s n : sumf (fun i => f i + g i) s n = sumf f s n + sumf g s n.
Proof. induction n as [|n IH]; [done|]. rewrite !sumf_S, IH. lia. Qed.
Lemma sumf_zero s n : sumf (fun _ => 0) s n = 0.
Proof. induction n as [|n IH]; [done|]. by rewrite sumf_S, IH. Qed.
Lemma sumf_swap F s n t m : sumf (fun i => sumf (F i) t m) s n = sumf (fun j => sumf (fun i => F i j) s n) t m.
Proof.
  induction n as [|n IH]; [by rewrite (sumf_ext _ (fun _ => 0) t m), sumf_zero by done|].
  rewrite sumf_S, IH, <-sumf_add. apply sumf_ext. intros j _. by rewrite sumf_S.
Qed.
Lemma sumf_bound f s n b : (forall i, 0 <= f i <= b) -> 0 <= sumf f s n <= Z.of_nat n * b.
Proof. intros Hf. induction n as [|n IH]; [unfold sumf; cbn; lia|]. rewrite sumf_S. specialize (Hf (s + n)%nat). lia. Qed.

(** ** The schoolbook product, by rows *)

Lemma val_sumf l : val l = sumf (fun i => limb l i * modulus i) 0 (length l).
Proof.
  induction l as [|x l IH] using rev_ind; [done|]. rewrite val_app, length_app, Nat.add_1_r, sumf_S, IH. cbn [val].
  rewrite (sumf_ext (fun i => limb (l ++ [x]) i * modulus i) (fun i => limb l i * modulus i)).
  - rewrite Nat.add_0_l. replace (limb (l ++ [x]) (length l)) with x; [lia|]. unfold limb. rewrite List.app_nth2, Nat.sub_diag by lia. done.
  - intros i Hi. unfold limb. rewrite List.app_nth1 by lia. done.
Qed.

(** The products of limbs at distance [k], below and above the top limb. *)
Definition low_sum (a b : limbs) (k : nat) : Z := sumf (fun i => limb a i * limb b (k - i)) 0 (k + 1).
Definition high_sum (a b : limbs) (n k : nat) : Z := sumf (fun i => limb a i * limb b (n + k - i)) (1 + k) (n - (1 + k)).

Lemma row_of b n i : length b = n -> (i <= n)%nat ->
  sumf (fun k => if (i <=? k)%nat then limb b (k - i) * modulus k else limb b (n + k - i) * modulus (n + k)) 0 n = modulus i * val b.
Proof.
  intros Hb Hi. rewrite (sumf_at i), val_sumf, Hb by lia. rewrite (sumf_at (n - i) (fun i => limb b i * modulus i)), Z.mul_add_distr_l, <-!sumf_mul by lia.
  rewrite (Z.add_comm (sumf _ 0 i)). f_equal.
  - rewrite (sumf_shift _ i). apply sumf_ext. intros k Hk. destruct (Nat.leb_spec i (i + k)); [|lia].
    replace (i + k - i)%nat with k by lia. rewrite modulus_add. ring.
  - replace (n - (n - i))%nat with i by lia. rewrite (sumf_shift _ (n - i)). apply sumf_ext. intros k Hk. destruct (Nat.leb_spec i k); [lia|].
    replace (n + k - i)%nat with (n - i + k)%nat by lia. replace (n + k)%nat with (i + (n - i + k))%nat by lia. rewrite modulus_add. ring.
Qed.

Lemma product_rows a b n : length a = n -> length b = n ->
  val a * val b = sumf (fun k => low_sum a b k * modulus k) 0 n + modulus n * sumf (fun k => high_sum a b n k * modulus k) 0 n.
Proof.
  intros Ha Hb. rewrite <-sumf_mul, <-sumf_add.
  rewrite (sumf_ext _ (fun k => sumf (fun i => limb a i * (if (i <=? k)%nat then limb b (k - i) * modulus k else limb b (n + k - i) * modulus (n + k))) 0 n)).
  - rewrite sumf_swap, (val_sumf a), Ha, Z.mul_comm, <-sumf_mul. apply sumf_ext. intros i Hi.
    rewrite sumf_mul, row_of by lia. ring.
  - intros k Hk. rewrite (sumf_at (k + 1) (fun i => limb a i * _)) by lia. unfold low_sum, high_sum. f_equal.
    + rewrite Z.mul_comm, <-sumf_mul. apply sumf_ext. intros i Hi. destruct (Nat.leb_spec i k); [ring|lia].
    + replace (k + 1)%nat with (1 + k)%nat by lia.
      replace (modulus n * (sumf (fun i => limb a i * limb b (n + k - i)) (1 + k) (n - (1 + k)) * modulus k)) with (modulus (n + k) * sumf (fun i => limb a i * limb b (n + k - i)) (1 + k) (n - (1 + k))) by (rewrite modulus_add; ring).
      rewrite <-sumf_mul. apply sumf_ext. intros i Hi. destruct (Nat.leb_spec i k); [lia|ring].
Qed.

(** ** Words *)

(** The number held by three limbs. *)
Definition v3 (x : Z * Z * Z) : Z := x.1.1 + U64 * x.1.2 + U64 * U64 * x.2.
Definition wf3 (x : Z * Z * Z) : Prop := in_u64 x.1.1 /\ in_u64 x.1.2 /\ 0 <= x.2.

Lemma mul_wide_spec a b : in_u64 a -> in_u64 b -> exists l h, mul_wide a b = (l, h) /\ in_u64 l /\ 0 <= h <= U64 - 2 /\ l + U64 * h = a * b.
Proof.
  unfold in_u64. intros Ha Hb. exists ((a * b) mod U64), (Z.shiftr (a * b) 64). split; [done|].
  assert (0 <= a * b <= (U64 - 1) * (U64 - 1)) by (split; [apply Z.mul_nonneg_nonneg; lia|apply Z.mul_le_mono_nonneg; lia]).
  pose proof (word_split (a * b) ltac:(lia)). pose proof (Z.mod_pos_bound (a * b) U64 ltac:(lia)). split; [lia|]. split; [|done].
  rewrite Z.shiftr_div_pow2 by lia. split; [apply Z.div_pos; lia|]. apply Z.lt_succ_r, Z.div_lt_upper_bound; lia.
Qed.

Lemma overflowing_add64_spec a b : in_u64 a -> in_u64 b ->
  exists s o, overflowing_add64 a b = (s, o) /\ in_u64 s /\ s + U64 * Z.b2z o = a + b.
Proof.
  unfold in_u64. intros Ha Hb. unfold overflowing_add64. eexists _, _. split; [done|]. destruct (Z.leb_spec U64 (a + b)); cbn [Z.b2z].
  - rewrite <-(Z.mod_add (a + b) (-1) U64) by lia. rewrite Z.mod_small by lia. lia.
  - rewrite Z.mod_small by lia. lia.
Qed.

Lemma muladd3_spec {E} a b low high carry : in_u64 a -> in_u64 b -> wf3 (low, high, carry) -> carry + 1 < U64 ->
  exists x, @muladd3 E a b low high carry = Ok x /\ wf3 x /\ v3 x = v3 (low, high, carry) + a * b /\ x.2 <= carry + 1.
Proof.
  intros Ha Hb (Hl & Hh & Hc) Hlt. cbn [fst snd] in *. unfold muladd3. destruct (mul_wide_spec a b Ha Hb) as (tl & th & -> & Htl & Hth & Hab).
  destruct (overflowing_add64_spec low tl Hl Htl) as (s & o & -> & Hs & Hso).
  assert (0 <= Z.b2z o <= 1) by (destruct o; cbn; lia). rewrite uadd_lt by lia. cbn [obind].
  destruct (overflowing_add64_spec high (th + Z.b2z o) Hh ltac:(unfold in_u64; lia)) as (s' & o' & -> & Hs' & Hso').
  assert (0 <= Z.b2z o' <= 1) by (destruct o'; cbn; lia). rewrite uadd_lt by lia. cbn [obind]. eexists. split; [done|].
  unfold wf3, v3. cbn. repeat split; try apply Hs; try apply Hs'; lia.
Qed.

Lemma get_limb {E} l i : (i < length l)%nat -> @get E l i = Ok (limb l i).
Proof. intros Hi. unfold get, limb. destruct (lookup_lt_is_Some_2 l i Hi) as [x Hx]. rewrite Hx. cbn. f_equal. by rewrite (nth_lookup_Some _ _ _ _ Hx). Qed.

Lemma limb_product a b i j : wf_limbs a -> wf_limbs b -> 0 <= limb a i * limb b j <= (U64 - 1) * (U64 - 1).
Proof.
  intros Ha Hb. pose proof (limb_wf a i Ha) as Hx. pose proof (limb_wf b j Hb) as Hy. unfold in_u64 in *.
  split; [apply Z.mul_nonneg_nonneg; lia|apply Z.mul_le_mono_nonneg; lia].
Qed.

(** The loops of multiply-and-add steps compute sums of products. *)
Lemma muladd_fold {E} a b k n s acc : wf_limbs a -> wf_limbs b -> wf3 acc -> acc.2 + Z.of_nat n < U64 ->
  (forall i, (s <= i < s + n)%nat -> (i < length a)%nat /\ (k - i < length b)%nat) ->
  exists x, foldM_out (@muladd_at E a b k) acc (seq s n) = Ok x /\ wf3 x /\ v3 x = v3 acc + sumf (fun i => limb a i * limb b (k - i)) s n /\ x.2 <= acc.2 + Z.of_nat n.
Proof.
  intros Ha Hb. revert s acc. induction n as [|n IH]; intros s acc Hacc Hlt Hr.
  { exists acc. unfold sumf. cbn. split; [done|]. split; [done|]. lia. }
  destruct (Hr s ltac:(lia)) as [Hi Hj]. destruct acc as [[low high] carry]. cbn [snd] in Hlt.
  destruct (muladd3_spec (E := E) (limb a s) (limb b (k - s)) low high carry (limb_wf _ _ Ha) (limb_wf _ _ Hb) Hacc ltac:(lia)) as (x & Hx & Hwf & Hv & Hc).
  destruct (IH (S s) x Hwf ltac:(lia)) as (y & Hy & Hwfy & Hvy & Hcy); [intros i Hi'; apply Hr; lia|].
  exists y. cbn [seq foldM_out]. unfold muladd_at at 1. rewrite get_limb by done. cbn [obind]. rewrite get_limb by done. cbn [obind]. rewrite Hx. cbn [obind].
  split; [done|]. split; [done|]. split; [|cbn [snd]; lia].
  rewrite Hvy, Hv. unfold sumf. cbn [seq List.map zsum]. lia.
Qed.

Lemma shiftr_word t : 0 <= t -> exists q, Z.shiftr t 64 = q /\ 0 <= q /\ in_u64 (t mod U64) /\ t mod U64 + U64 * q = t.
Proof.
  intros Ht. exists (Z.shiftr t 64). split; [done|]. split; [by apply Z.shiftr_nonneg|]. split; [apply Z.mod_pos_bound; lia|]. by apply word_split.
Qed.

Lemma mulnadd3_spec {E} c0 c1 d0 d1 d2 : in_u64 c0 -> in_u64 c1 -> wf3 (d0, d1, d2) -> d2 <= 1000 ->
  exists x, @mulnadd3 E c0 c1 d0 d1 d2 PRIME_DIFF = Ok x /\ wf3 x /\ v3 x = c0 + U64 * c1 + PRIME_DIFF * v3 (d0, d1, d2) /\ x.2 <= PRIME_DIFF * (d2 + 1).
Proof.
  unfold PRIME_DIFF, wf3, v3, in_u64, mulnadd3. cbn [fst snd]. intros H0 H1 (Hd0 & Hd1 & Hd2) Hle. unfold U128.
  rewrite umul_lt by lia. cbn [obind]. rewrite uadd_lt by lia. cbn [obind].
  destruct (shiftr_word (d0 * 1103717 + c0) ltac:(lia)) as (q & -> & Hq & Hm & Hs). unfold in_u64 in Hm.
  rewrite umul_lt by lia. cbn [obind]. rewrite uadd_lt by lia. cbn [obind]. rewrite uadd_lt by lia. cbn [obind].
  destruct (shiftr_word (q + (d1 * 1103717 + c1)) ltac:(lia)) as (r & -> & Hr & Hm' & Hs'). unfold in_u64 in Hm'.
  rewrite umul_lt by lia. cbn [obind]. rewrite (Z.mod_small r) by lia. rewrite uadd_lt by lia. cbn [obind]. eexists. split; [done|]. cbn [fst snd]. lia.
Qed.

Lemma muln2_spec {E} low high : in_u64 low -> 0 <= high <= 1000 ->
  exists l h, @muln2 E low high PRIME_DIFF = Ok (l, h) /\ in_u64 l /\ 0 <= h < U64 - 1 /\ l + U64 * h = PRIME_DIFF * (low + U64 * high).
Proof.
  unfold PRIME_DIFF, in_u64, muln2. intros Hl Hh. unfold U128. rewrite umul_lt by lia. cbn [obind].
  destruct (shiftr_word (low * 1103717) ltac:(lia)) as (q & -> & Hq & Hm & Hs). unfold in_u64 in Hm.
  rewrite umul_lt by lia. cbn [obind]. rewrite uadd_lt by lia. cbn [obind]. rewrite (Z.mod_small (q + _)) by lia. eexists _, _. split; [done|]. lia.
Qed.

(** ** Reductions *)

Lemma add_carries_spec self : forall low high, wf_limbs self -> in_u64 low -> in_u64 high ->
  exists r cl ch, add_carries low high self = (r, (cl, ch)) /\ wf_limbs r /\ length r = length self /\ in_u64 cl /\ in_u64 ch /\
    val r + modulus (length self) * (cl + U64 * ch) = val self + (low + U64 * high).
Proof.
  induction self as [|x self IH]; intros low high Hwf Hl Hh.
  { exists [], low, high. split; [done|]. split; [done|]. split; [done|]. split; [done|]. split; [done|].
    change (modulus (length [])) with 1. cbn [val]. lia. }
  inversion Hwf as [|? ? Hx Hrest]; subst. cbn [add_carries].
  destruct (overflowing_add64_spec low x Hl Hx) as (s & o & -> & Hs & Hso).
  destruct (overflowing_add64_spec high (Z.b2z o) Hh ltac:(unfold in_u64; destruct o; cbn; lia)) as (s' & o' & -> & Hs' & Hso').
  destruct (IH s' (Z.b2z o') Hrest Hs' ltac:(unfold in_u64; destruct o'; cbn; lia)) as (r & cl & ch & -> & Hr & Hlen & Hcl & Hch & Hv).
  exists (s :: r), cl, ch. split; [done|]. split; [by constructor|]. split; [cbn; lia|]. split; [done|]. split; [done|].
  cbn [length val]. rewrite modulus_S. lia.
Qed.

Lemma full_reduce_spec self : wf_limbs self -> (length self <> 0)%nat ->
  wf_limbs (full_reduce self) /\ length (full_reduce self) = length self /\ val (full_reduce self) = (val self + PRIME_DIFF) mod modulus (length self).
Proof.
  intros Hwf Hlen. unfold full_reduce. destruct (add_carries_spec self PRIME_DIFF 0 Hwf ltac:(unfold in_u64, PRIME_DIFF; lia) ltac:(unfold in_u64; lia)) as (r & cl & ch & -> & Hr & Hl & _ & _ & Hv).
  cbn [fst]. split; [done|]. split; [done|]. pose proof (val_bound r Hr) as Hb. rewrite Hl in Hb.
  destruct (mod_carry (val r) (modulus (length self)) (cl + U64 * ch) (val self + (PRIME_DIFF + U64 * 0)) Hb Hv) as [-> _]. f_equal.
Qed.

Lemma all_max_spec l : wf_limbs l -> forallb (fun x => x =? U64 - 1) l = (val l =? modulus (length l) - 1).
Proof.
  intros Hwf. induction Hwf as [|x l Hx Hwf IH]; [done|]. cbn [forallb length val]. rewrite modulus_S, IH. unfold in_u64 in Hx.
  pose proof (val_bound l Hwf). destruct (Z.eqb_spec x (U64 - 1)), (Z.eqb_spec (val l) (modulus (length l) - 1)); cbn [andb]; symmetry; [apply Z.eqb_eq|apply Z.eqb_neq..]; lia.
Qed.

(** The modulus, as seen from the limbs. *)
Lemma LIMBS_eq : LIMBS = S 47.
Proof. done. Qed.
Lemma modulus_large n : (2 <= n)%nat -> U64 * U64 <= modulus n.
Proof.
  intros Hn. destruct n as [|[|n]]; [lia..|]. rewrite !modulus_S. pose proof (modulus_pos n). nia.
Qed.
Lemma PRIME_bounds : 0 < PRIME < modulus LIMBS /\ modulus LIMBS < 2 * PRIME.
Proof. unfold PRIME. pose proof (modulus_large LIMBS ltac:(unfold LIMBS; lia)). unfold PRIME_DIFF. lia. Qed.

Lemma is_overflow_spec {E} self : wf_limbs self -> length self = LIMBS -> @is_overflow E self = Ok (PRIME <=? val self).
Proof.
  intros Hwf Hlen. destruct self as [|x rest]; [rewrite LIMBS_eq in Hlen; done|]. inversion Hwf as [|? ? Hx Hrest]; subst.
  unfold is_overflow, get. cbn [lookup list_lookup unwrap obind]. unfold drop. rewrite all_max_spec by done. unfold PRIME.
  assert (Hr : length rest = 47%nat) by (rewrite LIMBS_eq in Hlen; cbn in Hlen; lia).
  rewrite LIMBS_eq, modulus_S, Hr. cbn [val]. pose proof (val_bound rest Hrest) as Hb. rewrite Hr in Hb. unfold in_u64 in Hx. unfold PRIME_DIFF.
  set (M := modulus 47) in *. clearbody M.
  destruct (Z.leb_spec x (U64 - 1 - 1103717)); [f_equal; symmetry; apply Z.leb_gt; lia|]. f_equal.
  destruct (Z.eqb_spec (val rest) (M - 1)); symmetry; [apply Z.leb_le; lia|apply Z.leb_gt; lia].
Qed.

Lemma reduced_spec {E} self : wf_limbs self -> length self = LIMBS ->
  exists r, @reduced E self = Ok r /\ wf_limbs r /\ length r = LIMBS /\ val r = val self mod PRIME.
Proof.
  intros Hwf Hlen. unfold reduced. rewrite is_overflow_spec by done. cbn [obind]. pose proof (val_bound self Hwf) as Hb. rewrite Hlen in Hb. pose proof PRIME_bounds.
  destruct (Z.leb_spec PRIME (val self)).
  - destruct (full_reduce_spec self Hwf ltac:(rewrite Hlen; done)) as (Hr & Hl & Hv). eexists. split; [done|]. split; [done|]. split; [by rewrite Hl|].
    rewrite Hv, Hlen. unfold PRIME in *. set (M := modulus LIMBS) in *. rewrite <-(Z.mod_add _ (-1) M) by lia. rewrite Z.mod_small by (unfold PRIME_DIFF in *; lia).
    rewrite <-(Z.mod_add (val self) (-1)) by lia. rewrite Z.mod_small by lia. lia.
  - eexists. split; [done|]. split; [done|]. split; [done|]. rewrite Z.mod_small; lia.
Qed.

(** ** Multiplication *)

Lemma set_limb tmp j x : length tmp = LIMBS -> wf_limbs tmp -> (j < LIMBS)%nat -> in_u64 x ->
  length (<[j := x]> tmp) = LIMBS /\ wf_limbs (<[j := x]> tmp) /\ val (take (S j) (<[j := x]> tmp)) = val (take j tmp) + modulus j * x.
Proof.
  intros Hl Hwf Hj Hx. rewrite length_insert. split; [done|]. split; [by apply Forall_insert|].
  rewrite (take_S_r _ _ x) by (apply list_lookup_insert_eq; lia). rewrite val_app, take_insert_ge, length_take by lia.
  replace (j `min` length tmp)%nat with j by lia. cbn [val]. lia.
Qed.

Section Mul.
Context {E : Type} (a b : limbs).
Hypothesis (Hwa : wf_limbs a) (Hwb : wf_limbs b) (Hla : length a = LIMBS) (Hlb : length b = LIMBS).

Lemma high_row_spec j : (j < LIMBS - 1)%nat ->
  exists x, @high_row E a b j = Ok x /\ wf3 x /\ v3 x = high_sum a b LIMBS j /\ x.2 <= 48.
Proof using Hwa Hwb Hla Hlb.
  intros Hj. unfold high_row. rewrite get_limb by lia. cbn [obind]. rewrite get_limb by lia. cbn [obind].
  destruct (mul_wide_spec (limb a (j + 1)) (limb b (LIMBS + j - (1 + j))) (limb_wf _ _ Hwa) (limb_wf _ _ Hwb)) as (l & h & -> & Hl & Hh & Hlh).
  destruct (muladd_fold (E := E) a b (LIMBS + j) (LIMBS - (2 + j)) (2 + j) (l, h, 0) Hwa Hwb) as (x & Hx & Hwf & Hv & Hc).
  - unfold wf3, in_u64. cbn [fst snd]. unfold in_u64 in Hl. lia.
  - cbn [snd]. unfold LIMBS. lia.
  - intros i Hi. lia.
  - exists x. split; [done|]. split; [done|]. cbn [snd] in Hc. split; [|unfold LIMBS in Hc; lia]. rewrite Hv. unfold high_sum.
    replace (LIMBS - (1 + j))%nat with (S (LIMBS - (2 + j))) by lia. unfold v3, sumf. cbn [fst snd seq List.map zsum].
    replace (1 + j)%nat with (j + 1)%nat in * by lia. replace (S (j + 1)) with (2 + j)%nat by lia. lia.
Qed.

(** After [j] iterations: the limbs below [j] and the two carries. *)
Record mul_inv (j : nat) (s : MulState) : Prop := mk_mul_inv {
  mi_tmp : length (ms_tmp s) = LIMBS /\ wf_limbs (ms_tmp s);
  mi_carries : in_u64 (ms_low s) /\ 0 <= ms_high s < U32 /\ ms_highest s = 0;
  mi_val : val (take j (ms_tmp s)) + modulus j * (ms_low s + U64 * ms_high s) =
    sumf (fun k => (low_sum a b k + PRIME_DIFF * high_sum a b LIMBS k) * modulus k) 0 j
}.

Lemma mul_step_spec j s : (j < LIMBS - 1)%nat -> mul_inv j s -> exists s', @mul_step E a b s j = Ok s' /\ mul_inv (S j) s'.
Proof using Hwa Hwb Hla Hlb.
  intros Hj [[Hlt Hwt] (Hlow & Hhigh & Hhh) Hv]. unfold mul_step. destruct (high_row_spec j Hj) as ([[l h] c] & -> & Hwf & Hrow & Hc). cbn [obind snd] in *.
  destruct (mulnadd3_spec (E := E) (ms_low s) (ms_high s) l h c Hlow ltac:(unfold in_u64; lia) Hwf ltac:(lia)) as (x & -> & Hwx & Hvx & Hcx). cbn [obind].
  assert (Hx2 : 0 <= x.2 <= PRIME_DIFF * 49) by (destruct Hwx as (_ & _ & ?); unfold PRIME_DIFF in *; lia).
  destruct (muladd_fold (E := E) a b j (j + 1) 0 x Hwa Hwb Hwx) as ([[l' h'] c'] & -> & (Hl' & Hh' & Hc0) & Hv' & Hc').
  - clear -Hx2 Hj. unfold PRIME_DIFF, LIMBS in *. lia.
  - intros i Hi. lia.
  - cbn [obind fst snd] in *. rewrite get_limb by lia. cbn [obind]. eexists. split; [done|].
    destruct (set_limb (ms_tmp s) j l' Hlt Hwt ltac:(lia) Hl') as (Hl2 & Hw2 & Hv2).
    split; cbn [ms_tmp ms_low ms_high ms_highest]; [done|unfold PRIME_DIFF, LIMBS, in_u64 in *; lia|].
    rewrite sumf_S, <-Hv, Hv2, modulus_S, Nat.add_0_l. rewrite Hvx, Hrow in Hv'. unfold v3 in Hv'. cbn [fst snd] in Hv'. fold (low_sum a b j) in Hv'.
    assert (Hv3 : U64 * h' + U64 * U64 * c' = ms_low s + U64 * ms_high s + PRIME_DIFF * high_sum a b LIMBS j + low_sum a b j - l') by lia.
    replace (val (take j (ms_tmp s)) + modulus j * l' + U64 * modulus j * (h' + U64 * c')) with (val (take j (ms_tmp s)) + modulus j * (l' + (U64 * h' + U64 * U64 * c'))) by ring.
    rewrite Hv3. ring.
Qed.

Lemma mul_loop_runs n : (n <= LIMBS - 1)%nat ->
  exists s, foldM_out (@mul_step E a b) (mk_mul u3072_one 0 0 0) (seq 0 n) = Ok s /\ mul_inv n s.
Proof using Hwa Hwb Hla Hlb.
  induction n as [|n IH]; intros Hn.
  { eexists. split; [done|]. split; cbn [ms_tmp ms_low ms_high ms_highest take val].
    - split; [done|]. unfold u3072_one. apply Forall_insert; [apply wf_zero|unfold in_u64; lia].
    - unfold in_u64. lia.
    - rewrite take_0. unfold sumf. cbn [seq List.map zsum val]. lia. }
  destruct (IH ltac:(lia)) as (s & Hs & Hinv). destruct (mul_step_spec n s ltac:(lia) Hinv) as (s' & Hs' & Hinv').
  exists s'. split; [|done]. rewrite seq_S, foldM_out_app, Hs. cbn [obind foldM_out]. rewrite Nat.add_0_l, Hs'. done.
Qed.
End Mul.

Lemma high_sum_top a b n : high_sum a b n (n - 1) = 0.
Proof. unfold high_sum. replace (n - (1 + (n - 1)))%nat with 0%nat by lia. done. Qed.

(** The product in the form the loops leave it: limbs and a carry of weight [modulus LIMBS]. *)
Lemma mul_value a b s x : length a = LIMBS -> length b = LIMBS -> mul_inv a b (LIMBS - 1) s ->
  v3 x = ms_low s + U64 * ms_high s + low_sum a b (LIMBS - 1) ->
  exists q, val a * val b = val (take (LIMBS - 1) (ms_tmp s)) + modulus (LIMBS - 1) * x.1.1 + PRIME_DIFF * (x.1.2 + U64 * x.2) + PRIME * q.
Proof.
  intros Ha Hb [_ _ Hv] Hx. rewrite (product_rows a b LIMBS Ha Hb). assert (HM : modulus LIMBS = U64 * modulus (LIMBS - 1)) by (rewrite LIMBS_eq, modulus_S; done).
  assert (Hsplit : forall f, sumf f 0 LIMBS = sumf f 0 (LIMBS - 1) + f (LIMBS - 1)%nat) by (intros f; rewrite LIMBS_eq, sumf_S; done).
  rewrite !Hsplit, high_sum_top.
  rewrite (sumf_ext _ (fun k => low_sum a b k * modulus k + PRIME_DIFF * (high_sum a b LIMBS k * modulus k))), sumf_add, sumf_mul in Hv by (intros; ring).
  set (L := sumf _ 0 (LIMBS - 1)) in *. set (Hh := sumf (fun k => high_sum a b LIMBS k * modulus k) 0 (LIMBS - 1)) in *. unfold v3 in Hx.
  exists (Hh + x.1.2 + U64 * x.2). unfold PRIME. rewrite HM. set (M := modulus (LIMBS - 1)) in *. clearbody M L Hh.
  assert (Hl : low_sum a b (LIMBS - 1) = x.1.1 + U64 * x.1.2 + U64 * U64 * x.2 - (ms_low s + U64 * ms_high s)) by lia. rewrite Hl.
  assert (Hlow : L = val (take (LIMBS - 1) (ms_tmp s)) + M * (ms_low s + U64 * ms_high s) - PRIME_DIFF * Hh) by lia. rewrite Hlow. ring.
Qed.

Lemma one_val : val u3072_one = 1.
Proof. by apply (val_from_u64 LIMBS 1); unfold LIMBS; lia. Qed.

(** The second reduction leaves at most one carry, and the result is below the modulus. *)
Lemma mul_finish {E} tmp l h v : length tmp = LIMBS -> wf_limbs tmp -> in_u64 l -> 0 <= h < U64 - 1 -> v = val tmp + (l + U64 * h) ->
  exists r, (let '(self, (carry_low, carry_high)) := add_carries l h tmp in
    let! _ := rassert (carry_high =? 0) in
    let! _ := rassert ((carry_low =? 0) || (carry_low =? 1)) in
    let! self := reduced self in
    Ok (if negb (carry_low =? 0) then full_reduce self else self)) = @Ok E _ r /\ wf_limbs r /\ length r = LIMBS /\ val r = v mod PRIME.
Proof.
  intros Hl Hwf Hlow Hh Hval. destruct (add_carries_spec tmp l h Hwf Hlow ltac:(unfold in_u64; lia)) as (r & cl & ch & -> & Hr & Hlen & Hcl & Hch & Hv).
  pose proof (modulus_large LIMBS ltac:(unfold LIMBS; lia)) as HM. rewrite Hl in *. pose proof (val_bound r Hr) as Hrb. pose proof (val_bound tmp Hwf) as Htb. rewrite Hlen in Hrb. rewrite Hl in Htb.
  pose proof PRIME_bounds as HP. unfold in_u64 in *. set (M := modulus LIMBS) in *.
  assert (Hc : cl + U64 * ch < 2) by (apply (Z.mul_lt_mono_pos_l M); lia).
  assert (ch = 0) as -> by lia. cbn [rassert Z.eqb obind].
  assert (Hr2 : exists r', @reduced E r = Ok r' /\ wf_limbs r' /\ length r' = LIMBS /\ val r' = val r mod PRIME) by (apply reduced_spec; done).
  destruct Hr2 as (r' & Hr' & Hw' & Hl' & Hv').
  assert (cl = 0 \/ cl = 1) as [-> | ->] by lia; cbn [Z.eqb orb rassert obind Pos.eqb]; rewrite Hr'; cbn [obind negb].
  - exists r'. split; [done|]. split; [done|]. split; [done|]. rewrite Hv'. f_equal. lia.
  - destruct (full_reduce_spec r' Hw' ltac:(rewrite Hl'; done)) as (Hw2 & Hl2 & Hv2). exists (full_reduce r'). split; [done|]. split; [done|]. split; [by rewrite Hl2|].
    assert (HMbig : U64 * U64 * U64 <= M) by (subst M; rewrite LIMBS_eq, modulus_S; pose proof (modulus_large 47 ltac:(lia)); lia).
    assert (Hsmall : val r < U64 * U64) by lia. rewrite Hv2, Hv', Hl'. fold M. rewrite (Z.mod_small (val r)) by (unfold PRIME, PRIME_DIFF in *; lia).
    rewrite Z.mod_small by (unfold PRIME_DIFF; lia). replace v with (val r + PRIME_DIFF + 1 * PRIME) by (unfold PRIME; fold M; lia).
    rewrite Z.mod_add by lia. rewrite Z.mod_small; [done|]. unfold PRIME, PRIME_DIFF in *. fold M in HP |- *. lia.
Qed.

Lemma u3072_mul_spec {E} a b : wf_limbs a -> wf_limbs b -> length a = LIMBS -> length b = LIMBS ->
  exists r, @u3072_mul E a b = Ok r /\ wf_limbs r /\ length r = LIMBS /\ val r mod PRIME = (val a * val b) mod PRIME /\ (a <> u3072_one -> val r < PRIME).
Proof.
  intros Ha Hb Hla Hlb. unfold u3072_mul. case_bool_decide as Hone.
  { exists b. split; [done|]. split; [done|]. split; [done|]. rewrite Hone, one_val, Z.mul_1_l. done. }
  destruct (mul_loop_runs (E := E) a b Ha Hb Hla Hlb (LIMBS - 1) ltac:(lia)) as (s & -> & Hinv). cbn [obind]. pose proof Hinv as [[Hlt Hwt] (Hlow & Hhigh & ->) _]. cbn [obind rassert Z.eqb].
  destruct (muladd_fold (E := E) a b (LIMBS - 1) LIMBS 0 (ms_low s, ms_high s, 0) Ha Hb) as (x & Hx & (Hx0 & Hx1 & Hx2) & Hv & Hc).
  - unfold wf3, in_u64. cbn [fst snd]. unfold in_u64 in Hlow. lia.
  - cbn [snd]. unfold LIMBS. lia.
  - intros i Hi. lia.
  - rewrite Hx. cbn [obind]. destruct x as [[x0 x1] x2]. cbn [fst snd] in *. rewrite get_limb by (rewrite Hlt; unfold LIMBS; lia). cbn [obind].
    destruct (set_limb (ms_tmp s) (LIMBS - 1) x0 Hlt Hwt ltac:(unfold LIMBS; lia) Hx0) as (Hl2 & Hw2 & Hv2).
    destruct (muln2_spec (E := E) x1 x2 Hx1 ltac:(unfold LIMBS in Hc; lia)) as (l & h & -> & Hl & Hh & Hlh). cbn [obind].
    destruct (mul_finish (E := E) _ l h _ Hl2 Hw2 Hl Hh eq_refl) as (r & Hr & Hwr & Hlr & Hvr). rewrite Hr. exists r. split; [done|]. split; [done|]. split; [done|].
    pose proof PRIME_bounds. split; [|intros _; rewrite Hvr; apply Z.mod_pos_bound; lia].
    destruct (mul_value a b s (x0, x1, x2) Hla Hlb Hinv) as (q & ->).
    + rewrite Hv. unfold v3. cbn [fst snd]. replace (sumf _ 0 LIMBS) with (low_sum a b (LIMBS - 1)) by (unfold low_sum; f_equal; unfold LIMBS; lia). lia.
    + rewrite Hvr, Z.mod_mod by lia. cbn [fst snd]. rewrite (Z.mul_comm PRIME q), Z.mod_add, <-Hlh by lia. f_equal.
      replace (S (LIMBS - 1)) with (length (<[(LIMBS - 1)%nat:=x0]> (ms_tmp s))) in Hv2 by (rewrite Hl2; done). rewrite firstn_all in Hv2. lia.
Qed.

(** ** Inversion and division *)

Lemma modulus_shift x n : 0 <= x -> Z.shiftr x (64 * Z.of_nat n) = x / modulus n.
Proof. intros Hx. rewrite Z.shiftr_div_pow2 by lia. done. Qed.

Lemma digits_sum x n : 0 <= x -> sumf (fun i => Z.shiftr x (64 * Z.of_nat i) mod U64 * modulus i) 0 n = x mod modulus n.
Proof.
  intros Hx. induction n as [|n IH]; [unfold sumf; cbn [seq List.map zsum]; by rewrite Z.mod_1_r|].
  rewrite sumf_S, IH, Nat.add_0_l, modulus_shift, modulus_S, (Z.mul_comm U64) by done. pose proof (modulus_pos n).
  rewrite (Z.rem_mul_r x (modulus n) U64) by lia. lia.
Qed.

Lemma limbs_of_spec {E} n x : 0 <= x < modulus n -> exists r, @limbs_of E n x = Ok r /\ wf_limbs r /\ length r = n /\ val r = x.
Proof.
  intros Hx. unfold limbs_of. destruct (Z.ltb_spec x (modulus n)); [|lia]. eexists. split; [done|].
  split; [apply tabulate_wf; intros i; apply Z.mod_pos_bound; lia|]. split; [apply length_tabulate|].
  rewrite val_sumf, length_tabulate, (sumf_ext _ (fun i => Z.shiftr x (64 * Z.of_nat i) mod U64 * modulus i)).
  - rewrite digits_sum by lia. by apply Z.mod_small.
  - intros i Hi. rewrite limb_tabulate. destruct (Nat.ltb_spec i n); [done|lia].
Qed.

Lemma UINT_PRIME_val : val UINT_PRIME = PRIME.
Proof. vm_compute. reflexivity. Qed.

(** Coprime with the modulus: every number that is not a multiple of it, as it is prime. *)
Definition unit_mod (x : Z) : Prop := Z.gcd (x mod PRIME) PRIME = 1.

Section Inverses.
Context `{ModInverseSpec} {E : Type}.

Lemma inverse_spec a : wf_limbs a -> length a = LIMBS -> unit_mod (val a) ->
  exists r, @inverse _ E a = Ok r /\ wf_limbs r /\ length r = LIMBS /\ val r < PRIME /\ (val a * val r) mod PRIME = 1.
Proof.
  intros Ha Hl Hu. unfold inverse. destruct (reduced_spec (E := E) a Ha Hl) as (r & -> & Hr & Hlr & Hvr). cbn [obind]. pose proof PRIME_bounds as HP.
  assert (1 < PRIME) by (pose proof (modulus_large LIMBS ltac:(unfold LIMBS; lia)); unfold PRIME, PRIME_DIFF in *; lia).
  pose proof (Z.mod_pos_bound (val a) PRIME ltac:(lia)) as Hb.
  assert (Hnz : val r <> 0) by (intros Hz; unfold unit_mod in Hu; rewrite <-Hvr, Hz, Z.gcd_0_l in Hu; lia).
  case_bool_decide as Hzero; [by rewrite Hzero, (val_zero LIMBS : val u3072_zero = 0) in Hnz|].
  unfold mod_inverse. rewrite UINT_PRIME_val. destruct (natural_mod_inverse_spec (val r) PRIME ltac:(lia)) as (y & -> & Hy & Hinv); [by rewrite Hvr|].
  destruct (limbs_of_spec (E := E) (length r) y) as (i & Hi & Hwi & Hli & Hvi); [rewrite Hlr; lia|]. rewrite Hi. cbn [obind unwrap]. exists i. split; [done|]. split; [done|].
  split; [by rewrite Hli|]. split; [lia|]. rewrite Hvi. rewrite <-(Z.mod_small 1 PRIME), <-Hinv, Hvr, Z.mul_mod_idemp_l by lia. done.
Qed.

Lemma u3072_div_spec a b : wf_limbs a -> length a = LIMBS -> wf_limbs b -> length b = LIMBS -> unit_mod (val b) ->
  exists r, @u3072_div _ E a b = Ok r /\ wf_limbs r /\ length r = LIMBS /\ 0 <= val r < PRIME /\ (val r * val b) mod PRIME = val a mod PRIME.
Proof.
  intros Ha Hla Hb Hlb Hu. unfold u3072_div. pose proof PRIME_bounds as HP.
  destruct (reduced_spec (E := E) b Hb Hlb) as (b' & -> & Hb' & Hlb' & Hvb). cbn [obind].
  destruct (inverse_spec b' Hb' Hlb') as (i & -> & Hi & Hli & Hilt & Hinv); [unfold unit_mod; by rewrite Hvb, Z.mod_mod by lia|]. cbn [obind].
  destruct (reduced_spec (E := E) a Ha Hla) as (a' & -> & Ha' & Hla' & Hva). cbn [obind].
  destruct (u3072_mul_spec (E := E) a' i Ha' Hi Hla' Hli) as (m & -> & Hm & Hlm & Hvm & _). cbn [obind].
  destruct (reduced_spec (E := E) m Hm Hlm) as (r & -> & Hr & Hlr & Hvr). exists r. split; [done|]. split; [done|]. split; [done|].
  split; [rewrite Hvr; apply Z.mod_pos_bound; lia|]. rewrite Hvr, Hvm, Hva, Z.mul_mod_idemp_l by lia.
  rewrite Hvb, Z.mul_mod_idemp_l in Hinv by lia.
  replace (val a mod PRIME * val i * val b) with (val a mod PRIME * (val b * val i)) by ring.
  rewrite <-Z.mul_mod_idemp_r, Hinv, Z.mul_1_r, Z.mod_mod by lia. done.
Qed.
End Inverses.
