(* ===== verification/UtxoTotals.v ===== *)
(** * Totals over a set of unspent outputs, and sequences of transactions

    A total of a finite map in a commutative monoid of integers, instantiated below with
    the sum of the amounts and the product of the field elements of the entries, and the
    effect of a transaction on such a total.  Then the effect of a sequence of transactions,
    and the invariant that lets a node accept transactions of many blocks without looking at
    old ones: an id whose transaction was accepted is never accepted again, so created
    outpoints are always new. *)

From Stdlib Require Import ZArith Lia Bool.
From stdpp Require Import base gmap numbers list.
From S2P Require Import Prelude Tx Utxo UtxoProps.

#[local] Open Scope Z_scope.

(** The unspent outputs after a diff. *)
Definition apply_diff (U : UtxoCollection) (d : UtxoDiff) : UtxoCollection := ud_add d ∪ (U ∖ ud_remove d).

(** A finite map seen as a view. *)
Definition view_of (U : UtxoCollection) : UtxoView := fun o => U !! o.

Lemma apply_diff_view U d o : apply_diff U d !! o = composed (view_of U) d o.
Proof.
  unfold apply_diff, composed, view_of. destruct (ud_add d !! o) as [e|] eqn:Ha.
  - by apply lookup_union_Some_l.
  - rewrite lookup_union_r by done. case_decide as Hr.
    + rewrite lookup_difference. destruct Hr as [r ->]. done.
    + rewrite lookup_difference. destruct (ud_remove d !! o) as [r|]; [destruct Hr; eauto|done].
Qed.

Lemma apply_diff_default U : apply_diff U diff_default = U.
Proof. apply map_eq. intros o. rewrite apply_diff_view. unfold composed, view_of. cbn. rewrite !lookup_empty. by rewrite decide_False by (by intros [? ?]). Qed.

(** ** Totals *)

Section Totals.
Context (op : Z -> Z -> Z) (unit : Z) (f : TransactionOutpoint -> UtxoEntry -> Z).
Context (op_assoc : forall x y z, op x (op y z) = op (op x y) z) (op_comm : forall x y, op x y = op y x) (op_unit : forall x, op unit x = x).

Definition total (U : UtxoCollection) : Z := map_fold (fun o e acc => op (f o e) acc) unit U.
Definition total_list (l : list (TransactionOutpoint * UtxoEntry)) : Z := foldr (fun p acc => op (f p.1 p.2) acc) unit l.

Lemma op_swap x y z : op x (op y z) = op y (op x z).
Proof using op_assoc op_comm. by rewrite op_assoc, (op_comm x y), <-op_assoc. Qed.

Lemma total_insert U o e : U !! o = None -> total (<[o := e]> U) = op (f o e) (total U).
Proof using op_assoc op_comm. intros Ho. unfold total. rewrite map_fold_insert_L; [done| |done]. intros. apply op_swap. Qed.
Lemma total_delete U o e : U !! o = Some e -> total U = op (f o e) (total (delete o U)).
Proof using op_assoc op_comm.
  intros Ho. rewrite <-total_insert by apply lookup_delete_eq. by rewrite insert_delete_id.
Qed.

Lemma total_list_app l1 l2 : total_list (l1 ++ l2) = op (total_list l1) (total_list l2).
Proof using op_assoc op_unit. induction l1 as [|p l1 IH]; [by rewrite op_unit|]. cbn [app total_list foldr]. fold (total_list (l1 ++ l2)). by rewrite IH, op_assoc. Qed.

(** Removing a list of entries, and adding one. *)
Lemma total_remove (l : list (TransactionOutpoint * UtxoEntry)) : forall U, NoDup (fst <$> l) -> Forall (fun p => U !! p.1 = Some p.2) l ->
  op (total_list l) (total (foldl (fun U p => delete p.1 U) U l)) = total U.
Proof using op_assoc op_comm op_unit.
  induction l as [|p l IH]; intros U Hnd Hall; cbn [foldl total_list foldr]; [apply op_unit|].
  rewrite fmap_cons, NoDup_cons in Hnd. destruct Hnd as [Hp Hnd]. apply Forall_cons in Hall as [Hp0 Hall]. rewrite (total_delete U p.1 p.2 Hp0), <-op_assoc. f_equal. apply IH; [done|].
  rewrite Forall_forall in Hall |- *. intros q Hq. rewrite lookup_delete_ne; [by apply Hall|]. intros Heq. apply Hp, list_elem_of_fmap. exists q. done.
Qed.
Lemma total_add (l : list (TransactionOutpoint * UtxoEntry)) : forall U, NoDup (fst <$> l) -> Forall (fun p => U !! p.1 = None) l ->
  total (foldl (fun U p => <[p.1 := p.2]> U) U l) = op (total_list l) (total U).
Proof using op_assoc op_comm op_unit.
  induction l as [|p l IH]; intros U Hnd Hall; cbn [foldl total_list foldr]; [symmetry; apply op_unit|].
  rewrite fmap_cons, NoDup_cons in Hnd. destruct Hnd as [Hp Hnd]. apply Forall_cons in Hall as [Hp0 Hall]. rewrite IH, total_insert by
    (done || (rewrite Forall_forall in Hall |- *; intros q Hq; rewrite lookup_insert_ne; [by apply Hall|]; intros Heq; apply Hp, list_elem_of_fmap; exists q; done)).
  rewrite op_swap. apply op_assoc.
Qed.
End Totals.

(** ** Transactions *)

(** The entries a transaction spends and those it creates. *)
Definition tx_spends (v : VerifiableTransaction) : list (TransactionOutpoint * UtxoEntry) :=
  (fun p => (in_previous_outpoint p.1, p.2)) <$> populated_inputs v.
Definition tx_creates (v : VerifiableTransaction) (score : Z) : list (TransactionOutpoint * UtxoEntry) :=
  imap (fun i out => ((tx_id (v_tx v), N.of_nat i), output_entry v score out)) (tx_outputs (v_tx v)).

Definition after_tx (U : UtxoCollection) (v : VerifiableTransaction) (score : Z) : UtxoCollection :=
  foldl (fun U p => <[p.1 := p.2]> U) (foldl (fun U p => delete p.1 U) U (tx_spends v)) (tx_creates v score).

(** The transaction spends entries of the set and creates outpoints it does not hold. *)
Record tx_applies (U : UtxoCollection) (v : VerifiableTransaction) (score : Z) : Prop := mk_tx_applies {
  ta_nodup : NoDup (fst <$> tx_spends v);
  ta_spends : Forall (fun p => U !! p.1 = Some p.2) (tx_spends v);
  ta_index : (N.of_nat (length (tx_outputs (v_tx v))) <= 4294967296)%N;
  ta_fresh : Forall (fun p => U !! p.1 = None) (tx_creates v score)
}.

Lemma tx_creates_elem v score o e : (o, e) ∈ tx_creates v score <->
  exists i out, tx_outputs (v_tx v) !! i = Some out /\ o = (tx_id (v_tx v), N.of_nat i) /\ e = output_entry v score out.
Proof.
  unfold tx_creates. rewrite elem_of_lookup_imap. split.
  - intros (i & out & [= -> ->] & Hi). eauto.
  - intros (i & out & Hi & -> & ->). eauto.
Qed.

Lemma tx_creates_nodup v score : NoDup (fst <$> tx_creates v score).
Proof.
  unfold tx_creates. apply NoDup_fmap_2_strong.
  - intros [o e] [o' e'] (i & out & Hi & -> & ->)%tx_creates_elem (i' & out' & Hi' & -> & ->)%tx_creates_elem. cbn. intros [= Heq%Nat2N.inj]. congruence.
  - apply NoDup_alt. intros i j x. rewrite !list_lookup_imap. destruct (_ !! i); [|done]. destruct (_ !! j); [|done]. cbn. intros [= <-] [= Heq%Nat2N.inj _]. done.
Qed.

Lemma lookup_foldl_delete (l : list (TransactionOutpoint * UtxoEntry)) : forall (U : UtxoCollection) o,
  foldl (fun U p => delete p.1 U) U l !! o = if decide (o ∈ fst <$> l) then None else U !! o.
Proof.
  induction l as [|p l IH]; intros U o; cbn [foldl fmap list_fmap]; [by rewrite decide_False by apply not_elem_of_nil|].
  rewrite IH, lookup_delete. repeat case_decide; set_solver.
Qed.

Lemma lookup_foldl_insert (l : list (TransactionOutpoint * UtxoEntry)) : forall (U : UtxoCollection), NoDup (fst <$> l) ->
  (forall o e, (o, e) ∈ l -> foldl (fun U p => <[p.1 := p.2]> U) U l !! o = Some e) /\
  (forall o, o ∉ fst <$> l -> foldl (fun U p => <[p.1 := p.2]> U) U l !! o = U !! o).
Proof.
  induction l as [|p l IH]; intros U Hnd; cbn [foldl fmap list_fmap]; [split; [intros o e []%not_elem_of_nil|done]|].
  rewrite fmap_cons, NoDup_cons in Hnd. destruct Hnd as [Hp Hnd]. destruct (IH (<[p.1 := p.2]> U) Hnd) as [Hin Hout]. split.
  - intros o e [<-|Hl]%elem_of_cons; [|by apply Hin]. cbn [fst snd]. rewrite Hout by done. apply lookup_insert_eq.
  - intros o Ho. rewrite Hout by set_solver. apply lookup_insert_ne. set_solver.
Qed.

Lemma after_tx_view U v score o : after_tx U v score !! o = after_transaction (view_of U) v score o.
Proof.
  unfold after_tx. destruct (lookup_foldl_insert (tx_creates v score) (foldl (fun U p => delete p.1 U) U (tx_spends v)) (tx_creates_nodup v score)) as [Hin Hout].
  assert (Hspent : o ∈ spent_outpoints v <-> o ∈ fst <$> tx_spends v) by (unfold spent_outpoints, tx_spends; by rewrite <-list_fmap_compose).
  unfold after_transaction. destruct (if _ : bool then _ else _) as [out|] eqn:Hlk.
  - destruct (N.eqb_spec o.1 (tx_id (v_tx v))); [|done]. apply Hin, tx_creates_elem. exists (N.to_nat o.2), out. split; [done|]. split; [|done]. destruct o; cbn in *. subst. f_equal. lia.
  - rewrite Hout, lookup_foldl_delete.
    + unfold view_of. repeat case_decide; tauto.
    + intros ((o' & e) & -> & (i & out & Hi & -> & _)%tx_creates_elem)%list_elem_of_fmap. cbn in Hlk. rewrite N.eqb_refl, Nat2N.id in Hlk. congruence.
Qed.

(** Adding a transaction to a diff, on the sets. *)
Lemma add_transaction_apply U d v score : diff_valid (view_of U) d -> tx_applies (apply_diff U d) v score -> Forall (fun p => U !! p.1 = None) (tx_creates v score) ->
  exists d', add_transaction d v score = Ok d' /\ diff_valid (view_of U) d' /\ apply_diff U d' = after_tx (apply_diff U d) v score.
Proof.
  intros Hv [Hnd Hsp Hidx Hnew] Hbase. destruct (add_transaction_spec (view_of U) d v score Hv) as (d' & Hd & Hv' & Hc).
  - unfold spent_outpoints. unfold tx_spends in Hnd. by rewrite <-list_fmap_compose in Hnd.
  - unfold tx_spends in Hsp. rewrite Forall_fmap in Hsp. eapply Forall_impl; [exact Hsp|]. intros p Hp. cbn in Hp. by rewrite <-apply_diff_view.
  - done.
  - intros i out Hi. rewrite <-apply_diff_view. rewrite Forall_forall in Hnew. apply (Hnew (_, output_entry v score out)), tx_creates_elem. eauto.
  - intros i out u Hi Hu. rewrite Forall_forall in Hbase. assert (Hnone : U !! (tx_id (v_tx v), N.of_nat i) = None) by (apply (Hbase (_, output_entry v score out)), tx_creates_elem; eauto).
    unfold view_of in Hu. congruence.
  - exists d'. split; [done|]. split; [done|]. apply map_eq. intros o. rewrite apply_diff_view, Hc, after_tx_view.
    unfold after_transaction. by rewrite <-apply_diff_view.
Qed.

(** A transaction moves a total from the entries it spends to those it creates. *)
Lemma after_tx_total op unit f U v score : (forall x y z, op x (op y z) = op (op x y) z) -> (forall x y, op x y = op y x) -> (forall x, op unit x = x) ->
  tx_applies U v score -> op (total op unit f (after_tx U v score)) (total_list op unit f (tx_spends v)) = op (total op unit f U) (total_list op unit f (tx_creates v score)).
Proof.
  intros Ha Hc Hu [Hnd Hsp _ Hnew]. unfold after_tx. rewrite (total_add op unit f Ha Hc Hu).
  - rewrite <-(total_remove op unit f Ha Hc Hu (tx_spends v) U Hnd Hsp).
    rewrite (Hc (op (total_list op unit f (tx_spends v)) _)), <-Ha. f_equal. apply Hc.
  - apply tx_creates_nodup.
  - eapply Forall_impl; [exact Hnew|]. intros p Hp. cbn beta in *. rewrite lookup_foldl_delete. by case_decide.
Qed.

(** ** Sequences of transactions and their history *)

Definition accept_all (U : UtxoCollection) (vs : list VerifiableTransaction) (score : Z) : UtxoCollection := foldl (fun U v => after_tx U v score) U vs.

Fixpoint applies_all (U : UtxoCollection) (vs : list VerifiableTransaction) (score : Z) : Prop :=
  match vs with
  | [] => True
  | v :: vs' => tx_applies U v score /\ applies_all (after_tx U v score) vs' score
  end.

Definition vtx_id (v : VerifiableTransaction) : N := tx_id (v_tx v).
Definition vtx_inputs (v : VerifiableTransaction) : list TransactionOutpoint := in_previous_outpoint <$> tx_inputs (v_tx v).

(** ** Lookups after a transaction *)

Lemma creates_id v score o e : (o, e) ∈ tx_creates v score -> o.1 = vtx_id v.
Proof. by intros (i & out & _ & -> & _)%tx_creates_elem. Qed.

Lemma creates_keys v score o : o ∈ fst <$> tx_creates v score -> o.1 = vtx_id v.
Proof. intros ([o' e] & -> & Hin)%list_elem_of_fmap. by eapply creates_id. Qed.

Lemma after_tx_keep U v score o : o.1 <> vtx_id v -> o ∉ fst <$> tx_spends v -> after_tx U v score !! o = U !! o.
Proof.
  intros Hid Hs. unfold after_tx. destruct (lookup_foldl_insert (tx_creates v score) (foldl (fun U p => delete p.1 U) U (tx_spends v)) (tx_creates_nodup v score)) as [_ Hout].
  rewrite Hout by (intros Hc%creates_keys; done). rewrite lookup_foldl_delete. by rewrite decide_False.
Qed.

Lemma after_tx_Some U v score o e : after_tx U v score !! o = Some e -> (o, e) ∈ tx_creates v score \/ (U !! o = Some e /\ o ∉ fst <$> tx_spends v).
Proof.
  unfold after_tx. destruct (lookup_foldl_insert (tx_creates v score) (foldl (fun U p => delete p.1 U) U (tx_spends v)) (tx_creates_nodup v score)) as [Hin Hout].
  destruct (decide (o ∈ fst <$> tx_creates v score)) as [Ho|Ho].
  - pose proof Ho as ([o' e'] & Heq & Hc)%list_elem_of_fmap. cbn in Heq. subst o'. intros Hl. left. rewrite (Hin o e' Hc) in Hl. by injection Hl as ->.
  - rewrite Hout, lookup_foldl_delete by done. case_decide as Hs; [done|]. intros Hl. by right.
Qed.

Lemma after_tx_spent U v score o : o.1 <> vtx_id v -> o ∈ fst <$> tx_spends v -> after_tx U v score !! o = None.
Proof.
  intros Hid Hs. unfold after_tx. destruct (lookup_foldl_insert (tx_creates v score) (foldl (fun U p => delete p.1 U) U (tx_spends v)) (tx_creates_nodup v score)) as [_ Hout].
  rewrite Hout by (intros Hc%creates_keys; done). rewrite lookup_foldl_delete. by rewrite decide_True.
Qed.

Lemma after_tx_Forall (P : TransactionOutpoint -> UtxoEntry -> Prop) U v score :
  map_Forall P U -> Forall (fun p => P p.1 p.2) (tx_creates v score) -> map_Forall P (after_tx U v score).
Proof. intros HU Hc o e [Hin|[Ho _]]%after_tx_Some; [|by apply HU]. rewrite Forall_forall in Hc. by apply (Hc (o, e)). Qed.

(** ** History *)

Section History.
(** The inputs that a transaction id stands for. *)
Context (inputs_of : N -> list TransactionOutpoint).

Record history (U : UtxoCollection) (accepted : gset N) : Prop := mk_history {
  hi_ids : forall o, is_Some (U !! o) -> o.1 ∈ accepted;
  hi_spent : forall id o, id ∈ accepted -> o ∈ inputs_of id -> U !! o = None /\ o.1 ∈ accepted
}.

(** A transaction populated from the set. *)
Record populated_from (U : UtxoCollection) (v : VerifiableTransaction) : Prop := mk_populated_from {
  pf_spends : Forall (fun p => U !! p.1 = Some p.2) (tx_spends v);
  pf_inputs : fst <$> tx_spends v = inputs_of (vtx_id v);
  pf_index : (N.of_nat (length (tx_outputs (v_tx v))) <= 4294967296)%N
}.

Lemma history_fresh U accepted v score : history U accepted -> vtx_id v ∉ accepted -> Forall (fun p => U !! p.1 = None) (tx_creates v score).
Proof using.
  intros [Hids _] Hid. apply Forall_forall. intros [o e] Hc. cbn. apply creates_id in Hc. destruct (U !! o) eqn:Ho; [|done]. destruct Hid. rewrite <-Hc. apply Hids. eauto.
Qed.

Lemma history_new U accepted v : history U accepted -> populated_from U v -> tx_spends v <> [] -> vtx_id v ∉ accepted.
Proof using.
  intros [_ Hsp] [Hs Hin _] Hne Hid. destruct (tx_spends v) as [|[o e] l] eqn:Hl; [done|]. apply Forall_cons in Hs as [Ho _]. cbn in Ho.
  destruct (Hsp (vtx_id v) o Hid) as [Hn _]; [rewrite <-Hin; left|]. congruence.
Qed.

Lemma history_step U accepted v score : history U accepted -> populated_from U v -> vtx_id v ∉ accepted -> history (after_tx U v score) ({[ vtx_id v ]} ∪ accepted).
Proof using.
  intros [Hids Hsp] [Hs Hin _] Hid. assert (Hspid : forall o, o ∈ fst <$> tx_spends v -> o.1 ∈ accepted).
  { intros o ([o' e] & -> & Ho)%list_elem_of_fmap. rewrite Forall_forall in Hs. apply Hids. exists e. by apply (Hs (o', e)). }
  split.
  - intros o [e He]. apply elem_of_union. apply after_tx_Some in He as [Hc%creates_id|[Ho _]]; [left; by apply elem_of_singleton|]. right. apply Hids. eauto.
  - intros id o Hidin Ho. assert (Hor : o ∈ fst <$> tx_spends v \/ (U !! o = None /\ o.1 ∈ accepted)).
    { apply elem_of_union in Hidin as [->%elem_of_singleton|Hacc]; [left; by rewrite Hin|right; by eapply Hsp]. }
    destruct Hor as [Hos|[Hn Ha]].
    + pose proof (Hspid o Hos) as Ha. split; [apply after_tx_spent; [intros Heq; congruence|done]|set_solver].
    + split; [|set_solver]. destruct (after_tx U v score !! o) as [e|] eqn:He; [|done]. apply after_tx_Some in He as [Hc%creates_id|[Hx _]]; congruence.
Qed.

(** Independent transactions populated from one set apply one after the other. *)
Lemma block_applies (vs : list VerifiableTransaction) score : forall U accepted, history U accepted -> Forall (populated_from U) vs -> Forall (fun v => tx_spends v <> []) vs ->
  NoDup (vtx_id <$> vs) -> NoDup (concat ((fun v => fst <$> tx_spends v) <$> vs)) ->
  applies_all U vs score /\ history (accept_all U vs score) (list_to_set (vtx_id <$> vs) ∪ accepted) /\ Forall (fun v => vtx_id v ∉ accepted) vs.
Proof using.
  induction vs as [|v vs IH]; intros U accepted Hh Hpf Hne Hids Hins; cbn [applies_all accept_all foldl].
  { split; [done|]. split; [|constructor]. cbn. by rewrite union_empty_l_L. }
  rewrite fmap_cons in Hids. rewrite fmap_cons in Hins. cbn [concat] in Hins. apply NoDup_cons in Hids as [Hid Hids]. apply NoDup_app in Hins as (Hnd & Hdisj & Hins).
  apply Forall_cons in Hpf as [Hv Hpf]. apply Forall_cons in Hne as [Hnev Hne]. pose proof (history_new U accepted v Hh Hv Hnev) as Hnew.
  pose proof (history_step U accepted v score Hh Hv Hnew) as Hh'.
  assert (Happ : tx_applies U v score) by (split; [done|apply (pf_spends _ _ Hv)|apply (pf_index _ _ Hv)|by eapply history_fresh]).
  assert (Hspid : forall w o, w ∈ vs -> o ∈ fst <$> tx_spends w -> o.1 ∈ accepted).
  { intros w o Hw ([o' e] & -> & Ho)%list_elem_of_fmap. rewrite Forall_forall in Hpf. pose proof (pf_spends _ _ (Hpf w Hw)) as Hs. rewrite Forall_forall in Hs.
    apply (hi_ids _ _ Hh). exists e. by apply (Hs (o', e)). }
  assert (Hpf' : Forall (populated_from (after_tx U v score)) vs).
  { apply Forall_forall. intros w Hw. rewrite Forall_forall in Hpf. destruct (Hpf w Hw) as [Hs Hi Hx]. split; [|done|done]. rewrite Forall_forall in Hs |- *. intros [o e] Ho. cbn.
    rewrite after_tx_keep; [by apply (Hs (o, e))| |].
    - intros Heq. apply Hnew. rewrite <-Heq. apply (Hspid w o Hw), list_elem_of_fmap. by exists (o, e).
    - intros Hv'. apply (Hdisj o Hv'). apply list_elem_of_In, in_concat. exists (fst <$> tx_spends w). split; [apply list_elem_of_In, list_elem_of_fmap; by exists w|].
      apply list_elem_of_In, list_elem_of_fmap. by exists (o, e). }
  destruct (IH (after_tx U v score) ({[ vtx_id v ]} ∪ accepted) Hh' Hpf' Hne Hids Hins) as (Ha & Hhist & Hall). split; [done|]. split.
  - unfold accept_all in Hhist. cbn [fmap list_fmap list_to_set]. replace ({[vtx_id v]} ∪ list_to_set (vtx_id <$> vs) ∪ accepted) with
      (list_to_set (vtx_id <$> vs) ∪ ({[vtx_id v]} ∪ accepted)) by set_solver. done.
  - constructor; [done|]. eapply Forall_impl; [exact Hall|]. cbv beta. set_solver.
Qed.
End History.

(** ** Totals *)

Lemma accept_all_total op unit f vs score : (forall x y z, op x (op y z) = op (op x y) z) -> (forall x y, op x y = op y x) -> (forall x, op unit x = x) ->
  forall U, applies_all U vs score ->
  op (total op unit f (accept_all U vs score)) (total_list op unit f (concat (tx_spends <$> vs))) =
  op (total op unit f U) (total_list op unit f (concat ((fun v => tx_creates v score) <$> vs))).
Proof.
  intros Ha Hc Hu. induction vs as [|v vs IH]; intros U Happ; [done|]. cbn [applies_all accept_all foldl] in *. fold (accept_all (after_tx U v score) vs score).
  rewrite !fmap_cons. cbn [concat]. destruct Happ as [Hv Happ]. specialize (IH _ Happ). rewrite !(total_list_app op unit f Ha Hu).
  pose proof (after_tx_total op unit f U v score Ha Hc Hu Hv) as Hstep. rewrite (Hc (total_list op unit f (tx_spends v))), Ha, IH.
  rewrite <-Ha, (Hc (total_list op unit f (concat _)) (total_list op unit f (tx_spends v))), Ha, Hstep, Ha. done.
Qed.
