(* ===== verification/MuHash.v ===== *)
(** * The multiset hash

    Model of crypto/muhash/src/lib.rs and of consensus/core/src/muhash.rs: the rolling hash
    of a set of byte strings as a fraction in the field of [U3072], and the hash of a set
    of unspent outputs.  The hash function is the argument [H] of Hashing.v; the stream
    cipher that expands a hash to a field element is the class [ElementStream]. *)

From Stdlib Require Import ZArith Lia Bool.
From stdpp Require Import base gmap list numbers.
From S2P Require Import Prelude Tx Utxo Uint Hashing U3072.

#[local] Open Scope Z_scope.

(** The first bytes of [ChaCha20Rng::from_seed(seed)]: as many as a field element has. *)
Class ElementStream := element_bytes : bytes -> bytes.

Definition ELEMENT_BYTE_SIZE : nat := 384.

Record MuHash := mk_muhash {
  mu_numerator : limbs;
  mu_denominator : limbs
}.

Definition muhash_new : MuHash := mk_muhash u3072_one u3072_one.

Inductive MuHashError := MuHashOverflow | NonNormalizedValue.
Abbreviation mres := (outcome MuHashError).

(** [write_utxo] *)
Definition write_utxo (entry : UtxoEntry) (outpoint : TransactionOutpoint) : bytes :=
  hash_as_bytes outpoint.1 ++ write_u32 (Z.of_N outpoint.2) ++
  write_u64 (ue_block_daa_score entry) ++ write_u64 (ue_amount entry) ++ write_bool (ue_is_coinbase entry) ++
  write_u16 (spk_version (ue_script_public_key entry)) ++ write_var_bytes (spk_script (ue_script_public_key entry)).

Section WithHash.
Context (H : HashDomain -> bytes -> N) `{ElementStream} `{ModInverse}.

(** [data_to_element]; [MuHashElementBuilder] does the same on the bytes written to it. *)
Definition data_to_element (data : bytes) : limbs := u3072_from_le_bytes (element_bytes (hash_as_bytes (H MuHashElementHash data))).

Definition add_element (self : MuHash) (data : bytes) : mres MuHash :=
  let! n := u3072_mul (mu_numerator self) (data_to_element data) in Ok (mk_muhash n (mu_denominator self)).
Definition remove_element (self : MuHash) (data : bytes) : mres MuHash :=
  let! d := u3072_mul (mu_denominator self) (data_to_element data) in Ok (mk_muhash (mu_numerator self) d).

Definition combine (self other : MuHash) : mres MuHash :=
  let! n := u3072_mul (mu_numerator self) (mu_numerator other) in
  let! d := u3072_mul (mu_denominator self) (mu_denominator other) in
  Ok (mk_muhash n d).

Definition normalize (self : MuHash) : mres MuHash :=
  let! n := u3072_div (mu_numerator self) (mu_denominator self) in Ok (mk_muhash n u3072_one).

(** [serialize] and [finalize] also leave the normalized value in the receiver. *)
Definition muhash_serialize (self : MuHash) : mres (bytes * MuHash) :=
  let! self := normalize self in Ok (u3072_to_le_bytes (mu_numerator self), self).
Definition muhash_finalize (self : MuHash) : mres (N * MuHash) :=
  let! ' (serialized, self) := muhash_serialize self in Ok (H MuHashFinalizeHash serialized, self).

Definition muhash_deserialize (data : bytes) : mres MuHash :=
  let numerator := u3072_from_le_bytes data in
  let! o := is_overflow numerator in
  if o : bool then Err MuHashOverflow else Ok (mk_muhash numerator u3072_one).

(** [TryFrom<MuHash> for Uint3072] and back *)
Definition muhash_to_uint (self : MuHash) : mres limbs :=
  if bool_decide (mu_denominator self = u3072_one) then Ok (mu_numerator self) else Err NonNormalizedValue.
Definition muhash_of_uint (u : limbs) : MuHash := mk_muhash u u3072_one.

(** ** [MuHashExtensions] *)

Definition add_utxo (self : MuHash) (outpoint : TransactionOutpoint) (entry : UtxoEntry) : mres MuHash := add_element self (write_utxo entry outpoint).
Definition remove_utxo (self : MuHash) (outpoint : TransactionOutpoint) (entry : UtxoEntry) : mres MuHash := remove_element self (write_utxo entry outpoint).

(** The index of an output is converted to 32 bits. *)
Fixpoint add_output_utxos (self : MuHash) (tx_id : N) (coinbase : bool) (block_daa_score : Z) (i : N) (outputs : list TransactionOutput) : mres MuHash :=
  match outputs with
  | [] => Ok self
  | output :: outputs' =>
      let entry := mk_utxo (out_value output) (out_script_public_key output) block_daa_score coinbase in
      let! self := add_utxo self (tx_id, (i mod 4294967296)%N) entry in
      add_output_utxos self tx_id coinbase block_daa_score (N.succ i) outputs'
  end.

Definition muhash_add_transaction (self : MuHash) (tx : VerifiableTransaction) (block_daa_score : Z) : mres MuHash :=
  let! self := foldM_out (fun mh p => remove_utxo mh (in_previous_outpoint p.1) p.2) self (populated_inputs tx) in
  add_output_utxos self (tx_id (v_tx tx)) (is_coinbase (v_tx tx)) block_daa_score 0 (tx_outputs (v_tx tx)).

Definition from_transaction (tx : VerifiableTransaction) (block_daa_score : Z) : mres MuHash := muhash_add_transaction muhash_new tx block_daa_score.
Definition from_utxo (outpoint : TransactionOutpoint) (entry : UtxoEntry) : mres MuHash := add_utxo muhash_new outpoint entry.
End WithHash.
