(* ===== verification/MuHashProps.v ===== *)
(** * Properties of the multiset hash

    The arithmetic of u3072.rs is multiplication modulo the prime, a [MuHash] is a fraction,
    and its hash depends on the multiset of elements alone.  The last section relates it to
    the set of unspent outputs. *)

From Stdlib Require Import ZArith Lia Bool Permutation Morphisms Znumtheory.
From stdpp Require Import base gmap numbers list.
From S2P Require Import Prelude Tx Utxo UtxoProps UtxoTotals Uint UintLemmas Hashing U3072 U3072Lemmas MuHash.

#[local] Open Scope Z_scope.

(** ** Congruence modulo the prime *)

Definition eqm (x y : Z) : Prop := x mod PRIME = y mod PRIME.
Infix "≡p" := eqm (at level 70).

#[export] Instance eqm_equiv : Equivalence eqm.
Proof. unfold eqm. split; [done|by intros ? ?|intros ? ? ?; congruence]. Qed.
#[export] Instance eqm_mul : Proper (eqm ==> eqm ==> eqm) Z.mul.
Proof. intros a a' Ha b b' Hb. unfold eqm in *. by rewrite Z.mul_mod, Ha, Hb, <-Z.mul_mod by (pose proof PRIME_bounds; lia). Qed.
Lemma eqm_mod x : x mod PRIME ≡p x.
Proof. unfold eqm. apply Z.mod_mod. pose proof PRIME_bounds. lia. Qed.

(** A unit can be cancelled, and units are closed under products. *)
Lemma unit_cancel r x y : unit_mod r -> x * r ≡p y * r -> x ≡p y.
Proof.
  pose proof PRIME_bounds. unfold unit_mod, eqm. intros Hr Heq. rewrite Z.gcd_mod in Hr by lia.
  assert (Hdiv : (PRIME | r * (x - y))) by (replace (r * (x - y)) with (x * r - y * r) by ring; apply Z.mod_divide; [lia|]; by rewrite Zminus_mod, Heq, Z.sub_diag, Z.mod_0_l by lia).
  apply Z.gauss in Hdiv; [|done]. destruct Hdiv as [k Hk]. replace x with (y + k * PRIME) by lia. by rewrite Z.mod_add by lia.
Qed.
Lemma unit_mul x y : unit_mod x -> unit_mod y -> unit_mod (x * y).
Proof.
  pose proof PRIME_bounds. unfold unit_mod. rewrite !Z.gcd_mod by lia. apply Z.coprime_mul_r.
Qed.
Lemma unit_proper x y : x ≡p y -> unit_mod x -> unit_mod y.
Proof. unfold eqm, unit_mod. by intros ->. Qed.
Lemma unit_one : unit_mod 1.
Proof. unfold unit_mod. rewrite Z.gcd_mod by (pose proof PRIME_bounds; lia). apply Z.gcd_1_r. Qed.

(** ** Elements *)

(** The stream yields the bytes of a field element. *)
Class ElementStreamSpec `{ElementStream} : Prop := element_bytes_wf seed : length (element_bytes seed) = ELEMENT_BYTE_SIZE /\ wf_bytes (element_bytes seed).

Definition wf_field (l : limbs) : Prop := wf_limbs l /\ length l = LIMBS.

Lemma wf_one : wf_field u3072_one.
Proof. split; [|done]. apply Forall_insert; [apply wf_zero|unfold in_u64; lia]. Qed.

Lemma chunks8_wf n : forall bs, wf_bytes bs -> length bs = (8 * n)%nat -> length (chunks8 n bs) = n /\ Forall (fun c => wf_bytes c /\ length c = 8%nat) (chunks8 n bs).
Proof.
  induction n as [|n IH]; intros bs Hbs Hlen; [done|]. cbn [chunks8].
  destruct (IH (drop 8 bs)) as [Hl Hf]; [by apply Forall_drop|rewrite length_drop; lia|]. split; [cbn; lia|]. constructor; [|done]. split; [by apply Forall_take|].
  rewrite length_take. lia.
Qed.
Lemma field_of_bytes bs : wf_bytes bs -> length bs = ELEMENT_BYTE_SIZE -> wf_field (u3072_from_le_bytes bs).
Proof.
  intros Hbs Hlen. destruct (chunks8_wf LIMBS bs Hbs Hlen) as [Hl Hf]. unfold u3072_from_le_bytes, from_le_bytes. split; [|by rewrite List.length_map].
  apply Forall_map. eapply Forall_impl; [exact Hf|]. intros c [Hc Hc8]. unfold in_u64. pose proof (of_le_bytes_bound c Hc) as Hb. rewrite Hc8 in Hb. exact Hb.
Qed.

(** ** Fractions *)

Definition wf_mu (m : MuHash) : Prop := wf_field (mu_numerator m) /\ wf_field (mu_denominator m).
(** The fraction a [MuHash] stands for. *)
Definition mu_rep (m : MuHash) (a r : Z) : Prop := wf_mu m /\ val (mu_numerator m) ≡p a /\ val (mu_denominator m) ≡p r.

Lemma mul_rep {E} x y a b : wf_field x -> wf_field y -> val x ≡p a -> val y ≡p b -> exists z, @u3072_mul E x y = Ok z /\ wf_field z /\ val z ≡p a * b.
Proof.
  intros [Hx Hlx] [Hy Hly] Ha Hb. destruct (u3072_mul_spec (E := E) x y Hx Hy Hlx Hly) as (z & Hz & Hw & Hl & Hv & _). exists z. split; [done|]. split; [done|].
  rewrite <-Ha, <-Hb. exact Hv.
Qed.

Lemma muhash_new_rep : mu_rep muhash_new 1 1.
Proof. split; [split; apply wf_one|]. cbn [muhash_new mu_numerator mu_denominator]. by rewrite one_val. Qed.

Lemma combine_rep m m' a r a' r' : mu_rep m a r -> mu_rep m' a' r' -> exists m'', combine m m' = Ok m'' /\ mu_rep m'' (a * a') (r * r').
Proof.
  intros [[Hn Hd] [Ha Hr]] [[Hn' Hd'] [Ha' Hr']]. unfold combine.
  destruct (mul_rep (E := MuHashError) _ _ _ _ Hn Hn' Ha Ha') as (n & -> & Hwn & Hvn). cbn [obind].
  destruct (mul_rep (E := MuHashError) _ _ _ _ Hd Hd' Hr Hr') as (d & -> & Hwd & Hvd). cbn [obind]. eexists. split; [done|]. done.
Qed.

Section Rep.
Context (H : HashDomain -> bytes -> N) `{ElementStreamSpec}.

Definition elem (data : bytes) : Z := val (data_to_element H data).

Lemma data_to_element_wf data : wf_field (data_to_element H data).
Proof using Type*. unfold data_to_element. apply field_of_bytes; apply element_bytes_wf. Qed.

Lemma add_element_rep m a r data : mu_rep m a r -> exists m', add_element H m data = Ok m' /\ mu_rep m' (a * elem data) r.
Proof using Type*.
  intros [[Hn Hd] [Ha Hr]]. unfold add_element.
  destruct (mul_rep (E := MuHashError) _ _ _ (elem data) Hn (data_to_element_wf data) Ha) as (n & -> & Hwn & Hvn); [done|]. cbn [obind]. eexists. done.
Qed.
Lemma remove_element_rep m a r data : mu_rep m a r -> exists m', remove_element H m data = Ok m' /\ mu_rep m' a (r * elem data).
Proof using Type*.
  intros [[Hn Hd] [Ha Hr]]. unfold remove_element.
  destruct (mul_rep (E := MuHashError) _ _ _ (elem data) Hd (data_to_element_wf data) Hr) as (n & -> & Hwn & Hvn); [done|]. cbn [obind]. eexists. done.
Qed.
End Rep.

Section Final.
Context (H : HashDomain -> bytes -> N) `{ModInverseSpec}.

(** The quotient in the field, as limbs. *)
Lemma normalize_rep m a r : mu_rep m a r -> unit_mod r ->
  exists q, normalize m = Ok (mk_muhash q u3072_one) /\ wf_field q /\ val q < PRIME /\ val q * r ≡p a.
Proof using Type*.
  intros [[[Hn Hln] [Hd Hld]] [Ha Hr]] Hu. unfold normalize.
  destruct (u3072_div_spec (E := MuHashError) _ _ Hn Hln Hd Hld (unit_proper _ _ (symmetry Hr) Hu)) as (q & -> & Hq & Hlq & Hb & Hv). cbn [obind]. exists q. split; [done|]. split; [done|].
  split; [lia|]. rewrite <-Hr, <-Ha. exact Hv.
Qed.

(** Equal fractions have one quotient, hence one hash. *)
Lemma finalize_equal m m' a r a' r' : mu_rep m a r -> mu_rep m' a' r' -> unit_mod r -> unit_mod r' -> a * r' ≡p a' * r ->
  exists h q, muhash_finalize H m = Ok (h, q) /\ muhash_finalize H m' = Ok (h, q).
Proof using Type*.
  intros Hm Hm' Hu Hu' Heq. destruct (normalize_rep m a r Hm Hu) as (q & Hq & [Hw Hl] & Hlt & Hv). destruct (normalize_rep m' a' r' Hm' Hu') as (q' & Hq' & [Hw' Hl'] & Hlt' & Hv').
  assert (Hval : val q ≡p val q').
  { apply (unit_cancel (r * r')); [by apply unit_mul|]. transitivity (a * r'); [rewrite <-Hv; unfold eqm; f_equal; ring|]. rewrite Heq, <-Hv'. unfold eqm. f_equal. ring. }
  unfold eqm in Hval. rewrite !Z.mod_small in Hval by (split; [apply val_bound; done|done]).
  assert (q = q') as <- by (apply val_inj; congruence).
  unfold muhash_finalize, muhash_serialize. rewrite Hq, Hq'. cbn [obind]. eauto.
Qed.
End Final.

(** ** Multisets *)

(** The ways a [MuHash] is built. *)
Inductive mu_expr :=
| MNew
| MAdd (e : mu_expr) (data : bytes)
| MRemove (e : mu_expr) (data : bytes)
| MCombine (e1 e2 : mu_expr).

Fixpoint added (e : mu_expr) : list bytes :=
  match e with
  | MNew => []
  | MAdd e data => data :: added e
  | MRemove e _ => added e
  | MCombine e1 e2 => added e1 ++ added e2
  end.
Fixpoint removed (e : mu_expr) : list bytes :=
  match e with
  | MNew => []
  | MAdd e _ => removed e
  | MRemove e data => data :: removed e
  | MCombine e1 e2 => removed e1 ++ removed e2
  end.

Fixpoint mu_eval (H : HashDomain -> bytes -> N) `{ElementStream} (e : mu_expr) : mres MuHash :=
  match e with
  | MNew => Ok muhash_new
  | MAdd e data => let! m := mu_eval H e in add_element H m data
  | MRemove e data => let! m := mu_eval H e in remove_element H m data
  | MCombine e1 e2 => let! m1 := mu_eval H e1 in let! m2 := mu_eval H e2 in combine m1 m2
  end.

Definition zprod (l : list Z) : Z := foldr Z.mul 1 l.
Lemma zprod_app l1 l2 : zprod (l1 ++ l2) = zprod l1 * zprod l2.
Proof. induction l1 as [|x l1 IH]; cbn [app zprod foldr]; [fold (zprod l2); lia|]. fold (zprod (l1 ++ l2)) (zprod l1). rewrite IH. ring. Qed.
Lemma zprod_perm l1 l2 : Permutation l1 l2 -> zprod l1 = zprod l2.
Proof. induction 1; unfold zprod in *; cbn [foldr]; lia. Qed.
Lemma unit_zprod l : Forall unit_mod l -> unit_mod (zprod l).
Proof. induction 1; [apply unit_one|by apply unit_mul]. Qed.

Section Multiset.
Context (H : HashDomain -> bytes -> N) `{ElementStreamSpec}.

Lemma mu_eval_rep e : exists m, mu_eval H e = Ok m /\ mu_rep m (zprod (elem H <$> added e)) (zprod (elem H <$> removed e)).
Proof using Type*.
  induction e as [|e (m & Hm & Hr) data|e (m & Hm & Hr) data|e1 (m1 & Hm1 & Hr1) e2 (m2 & Hm2 & Hr2)]; cbn [mu_eval added removed].
  - eexists. split; [done|]. apply muhash_new_rep.
  - rewrite Hm. cbn [obind]. destruct (add_element_rep H m _ _ data Hr) as (m' & Hm' & Hr'). exists m'. split; [done|]. rewrite Z.mul_comm in Hr'. done.
  - rewrite Hm. cbn [obind]. destruct (remove_element_rep H m _ _ data Hr) as (m' & Hm' & Hr'). exists m'. split; [done|]. rewrite (Z.mul_comm _ (elem H data)) in Hr'. done.
  - rewrite Hm1, Hm2. cbn [obind]. destruct (combine_rep m1 m2 _ _ _ _ Hr1 Hr2) as (m' & Hm' & Hr'). exists m'. split; [done|]. by rewrite !fmap_app, !zprod_app.
Qed.
End Multiset.

(** C30: Multiplication of field elements on 48 limbs never panics, its assertions hold, and
    it is multiplication modulo the prime; the result is below the prime unless the left
    operand is one, when it is the right operand as it stands. *)
Theorem u3072_mul_correct {E} (a b : limbs) : wf_field a -> wf_field b ->
  exists r, @u3072_mul E a b = Ok r /\ wf_field r /\ val r mod PRIME = (val a * val b) mod PRIME /\ (a <> u3072_one -> val r < PRIME).
Proof.
  intros [Ha Hla] [Hb Hlb]. destruct (u3072_mul_spec (E := E) a b Ha Hb Hla Hlb) as (r & ? & ? & ? & ? & ?). by exists r.
Qed.

(** C16: The hash of a [MuHash] depends on the multiset of its elements alone: however two of
    them were built by adding, removing and combining, they have one hash when the elements
    added and not removed again are the same. *)
Theorem muhash_of_multiset (H : HashDomain -> bytes -> N) `{ElementStreamSpec} `{ModInverseSpec} (e1 e2 : mu_expr) :
  Permutation (added e1 ++ removed e2) (added e2 ++ removed e1) ->
  Forall (fun data => unit_mod (elem H data)) (removed e1 ++ removed e2) ->
  exists m1 m2 h q, mu_eval H e1 = Ok m1 /\ mu_eval H e2 = Ok m2 /\ muhash_finalize H m1 = Ok (h, q) /\ muhash_finalize H m2 = Ok (h, q).
Proof.
  intros Hp Hu. destruct (mu_eval_rep H e1) as (m1 & Hm1 & Hr1). destruct (mu_eval_rep H e2) as (m2 & Hm2 & Hr2). apply Forall_app in Hu as [Hu1 Hu2].
  destruct (finalize_equal H m1 m2 _ _ _ _ Hr1 Hr2) as (h & q & ? & ?).
  - by apply unit_zprod, Forall_fmap.
  - by apply unit_zprod, Forall_fmap.
  - rewrite <-!zprod_app, <-!fmap_app. unfold eqm. f_equal. apply zprod_perm. by apply Permutation_map.
  - by exists m1, m2, h, q.
Qed.

Lemma deserialize_serialize q : wf_field q -> val q < PRIME -> muhash_deserialize (u3072_to_le_bytes q) = Ok (mk_muhash q u3072_one).
Proof.
  intros [Hw Hl] Hlt. unfold muhash_deserialize, u3072_from_le_bytes, u3072_to_le_bytes. rewrite <-Hl, from_to_le_bytes, is_overflow_spec by done. cbn [obind].
  destruct (Z.leb_spec PRIME (val q)); [lia|done].
Qed.

(** A [MuHash] survives serialization: what its serialization is read back as has the
    same hash, and it is the value serialization left in place. *)
Theorem muhash_serialization_roundtrip (H : HashDomain -> bytes -> N) `{ElementStreamSpec} `{ModInverseSpec} (e : mu_expr) :
  Forall (fun data => unit_mod (elem H data)) (removed e) ->
  exists m bs m' h q, mu_eval H e = Ok m /\ muhash_serialize m = Ok (bs, m') /\ muhash_deserialize bs = Ok m' /\
    muhash_finalize H m = Ok (h, q) /\ muhash_finalize H m' = Ok (h, q).
Proof.
  intros Hu. destruct (mu_eval_rep H e) as (m & Hm & Hr). assert (Hur : unit_mod (zprod (elem H <$> removed e))) by (by apply unit_zprod, Forall_fmap).
  destruct (normalize_rep m _ _ Hr Hur) as (q & Hq & Hw & Hlt & Hv).
  assert (Hr' : mu_rep (mk_muhash q u3072_one) (val q) 1) by (split; [split; [done|apply wf_one]|]; cbn [mu_numerator mu_denominator]; by rewrite one_val).
  destruct (finalize_equal H m _ _ _ _ _ Hr Hr' Hur unit_one) as (h & q' & Hf & Hf').
  - by rewrite Z.mul_1_r, Hv.
  - exists m, (u3072_to_le_bytes q), (mk_muhash q u3072_one), h, q'. split; [done|]. split; [unfold muhash_serialize; by rewrite Hq|]. split; [by apply deserialize_serialize|done].
Qed.

(** ** Sets of unspent outputs *)

Section Utxos.
Context (H : HashDomain -> bytes -> N) `{ElementStreamSpec}.

Definition elem_utxo (o : TransactionOutpoint) (e : UtxoEntry) : Z := elem H (write_utxo e o).
Definition prod_set (U : UtxoCollection) : Z := total Z.mul 1 elem_utxo U.
Definition prod_list (l : list (TransactionOutpoint * UtxoEntry)) : Z := total_list Z.mul 1 elem_utxo l.

Lemma remove_utxos_rep (ins : list (TransactionInput * UtxoEntry)) : forall m a r, mu_rep m a r ->
  exists m', foldM_out (fun mh p => remove_utxo H mh (in_previous_outpoint p.1) p.2) m ins = Ok m' /\
    mu_rep m' a (r * prod_list ((fun p => (in_previous_outpoint p.1, p.2)) <$> ins)).
Proof using Type*.
  induction ins as [|p ins IH]; intros m a r Hm; cbn [foldM_out].
  { exists m. split; [done|]. unfold prod_list. cbn. by rewrite Z.mul_1_r. }
  unfold remove_utxo at 1. destruct (remove_element_rep H m a r (write_utxo p.2 (in_previous_outpoint p.1)) Hm) as (m1 & -> & Hm1). cbn [obind].
  destruct (IH m1 _ _ Hm1) as (m' & -> & Hm'). exists m'. split; [done|]. rewrite <-Z.mul_assoc in Hm'. exact Hm'.
Qed.

Lemma add_output_utxos_rep id cb score outs : forall i m a r, mu_rep m a r -> (i + N.of_nat (length outs) <= 4294967296)%N ->
  exists m', add_output_utxos H m id cb score i outs = Ok m' /\
    mu_rep m' (a * prod_list (imap (fun j out => ((id, (i + N.of_nat j)%N), mk_utxo (out_value out) (out_script_public_key out) score cb)) outs)) r.
Proof using Type*.
  induction outs as [|out outs IH]; intros i m a r Hm Hlen; cbn [add_output_utxos].
  { exists m. split; [done|]. unfold prod_list. cbn. by rewrite Z.mul_1_r. }
  cbn [length] in Hlen. rewrite N.mod_small by lia. unfold add_utxo at 1.
  destruct (add_element_rep H m a r (write_utxo (mk_utxo (out_value out) (out_script_public_key out) score cb) (id, i)) Hm) as (m1 & -> & Hm1). cbn [obind].
  destruct (IH (N.succ i) m1 _ _ Hm1 ltac:(lia)) as (m' & -> & Hm'). exists m'. split; [done|]. rewrite <-Z.mul_assoc in Hm'. cbn [imap]. unfold prod_list in *. cbn [total_list foldr fst snd].
  rewrite N.add_0_r. replace (imap _ outs) with (imap (fun j out => ((id, (N.succ i + N.of_nat j)%N), mk_utxo (out_value out) (out_script_public_key out) score cb)) outs); [exact Hm'|].
  apply imap_ext. intros j x _. cbn. do 2 f_equal. lia.
Qed.

Lemma muhash_add_transaction_rep m a r v score : mu_rep m a r -> (N.of_nat (length (tx_outputs (v_tx v))) <= 4294967296)%N ->
  exists m', muhash_add_transaction H m v score = Ok m' /\ mu_rep m' (a * prod_list (tx_creates v score)) (r * prod_list (tx_spends v)).
Proof using Type*.
  intros Hm Hlen. unfold muhash_add_transaction. destruct (remove_utxos_rep (populated_inputs v) m a r Hm) as (m1 & -> & Hm1). cbn [obind].
  destruct (add_output_utxos_rep (tx_id (v_tx v)) (is_coinbase (v_tx v)) score (tx_outputs (v_tx v)) 0 m1 _ _ Hm1 ltac:(lia)) as (m' & -> & Hm'). exists m'. split; [done|].
  exact Hm'.
Qed.

(** The [MuHash] of a set of unspent outputs. *)
Definition mu_commits (m : MuHash) (U : UtxoCollection) : Prop := exists a r, mu_rep m a r /\ unit_mod r /\ a ≡p r * prod_set U.

(** Combining with the fraction of a transaction follows the set. *)
Lemma commits_after_tx a r U v score : tx_applies U v score -> a ≡p r * prod_set U ->
  a * prod_list (tx_creates v score) ≡p r * prod_list (tx_spends v) * prod_set (after_tx U v score).
Proof using.
  intros Happ Ha. rewrite Ha. unfold eqm. f_equal. unfold prod_set, prod_list.
  rewrite <-!Z.mul_assoc. f_equal. rewrite (Z.mul_comm (total_list _ _ _ (tx_spends v))). symmetry.
  apply (after_tx_total Z.mul 1 elem_utxo U v score); [intros; ring|intros; ring|intros; ring|done].
Qed.
End Utxos.

(** ** The commitment *)

Lemma of_le_bytes_app a b : of_le_bytes (a ++ b) = of_le_bytes a + 256 ^ Z.of_nat (length a) * of_le_bytes b.
Proof.
  induction a as [|x a IH]; cbn [app of_le_bytes length]; [cbn; lia|]. rewrite IH, Nat2Z.inj_succ, Z.pow_succ_r by lia. lia.
Qed.
Lemma to_le_bytes_val l : wf_limbs l -> to_le_bytes l = le_bytes (8 * length l) (val l).
Proof.
  intros Hl. assert (Hlen : length (to_le_bytes l) = (8 * length l)%nat).
  { clear Hl. unfold to_le_bytes. induction l as [|x l IH]; [done|]. cbn [List.map concat length]. rewrite length_app, IH. unfold u64_to_le_bytes. rewrite length_le_bytes. lia. }
  rewrite <-Hlen, <-(le_bytes_of (to_le_bytes l)) at 1.
  - f_equal. clear Hlen. unfold to_le_bytes. induction Hl as [|x l Hx Hl IH]; [done|]. cbn [List.map concat val]. rewrite of_le_bytes_app, IH, u64_le_roundtrip by done.
    unfold u64_to_le_bytes. rewrite length_le_bytes. change (256 ^ Z.of_nat 8) with U64. done.
  - unfold to_le_bytes. clear Hlen. induction Hl as [|x l Hx Hl IH]; [constructor|]. cbn [List.map concat]. apply Forall_app. split; [apply le_bytes_wf|done].
Qed.

(** What a header commits to: the hash of the product of the entries in the field. *)
Definition utxo_commitment (H : HashDomain -> bytes -> N) `{ElementStream} (U : UtxoCollection) : N :=
  H MuHashFinalizeHash (le_bytes ELEMENT_BYTE_SIZE (prod_set H U mod PRIME)).

Lemma finalize_commits (H : HashDomain -> bytes -> N) `{ElementStreamSpec} `{ModInverseSpec} m U : mu_commits H m U ->
  exists m', muhash_finalize H m = Ok (utxo_commitment H U, m') /\ mu_commits H m' U.
Proof.
  intros (a & r & Hm & Hu & Ha). destruct (normalize_rep m a r Hm Hu) as (q & Hq & Hw & Hlt & Hv). exists (mk_muhash q u3072_one).
  assert (Hval : val q ≡p prod_set H U) by (apply (unit_cancel r); [done|]; by rewrite Hv, Ha, Z.mul_comm).
  unfold muhash_finalize, muhash_serialize. rewrite Hq. cbn [obind mu_numerator]. split.
  - do 2 f_equal. unfold utxo_commitment, u3072_to_le_bytes. f_equal. destruct Hw as [Hw Hl]. rewrite to_le_bytes_val, Hl by done. unfold eqm in Hval. rewrite <-Hval, Z.mod_small; [done|].
    split; [by apply val_bound|done].
  - exists (val q), 1. split; [split; [split; [done|apply wf_one]|]; cbn [mu_numerator mu_denominator]; by rewrite one_val|]. split; [apply unit_one|]. by rewrite Z.mul_1_l.
Qed.

(** ** Instances *)

(** The inverse by the extended Euclidean algorithm. *)
#[local] Instance ex_mod_inverse : ModInverse := fun x m => let '(u, _, d) := Z.extgcd x m in if d =? 1 then Some (u mod m) else None.
#[local] Instance ex_mod_inverse_spec : ModInverseSpec.
Proof.
  intros x m Hx Hg. unfold natural_mod_inverse, ex_mod_inverse. destruct (Z.extgcd x m) as [[u v] d] eqn:Hext. destruct (Z.extgcd_correct x m Hext) as [Huv ->].
  rewrite Hg, Z.eqb_refl. eexists. split; [done|]. split; [apply Z.mod_pos_bound; lia|]. rewrite Z.mul_mod_idemp_r by lia.
  replace (x * u) with (1 + (- v) * m) by lia. by rewrite Z.mod_add by lia.
Qed.

(** A stream that repeats its seed, and a hash function that keeps the start of its input. *)
#[local] Instance ex_stream : ElementStream := fun seed => le_bytes ELEMENT_BYTE_SIZE (of_le_bytes seed ^ 7 + 3).
#[local] Instance ex_stream_spec : ElementStreamSpec.
Proof. intros seed. split; [apply length_le_bytes|apply le_bytes_wf]. Qed.
Definition mx_hash (d : HashDomain) (bs : bytes) : N := Z.to_N (1 + of_le_bytes (take 31 bs)).

Lemma u3072_mul_correct_witness : exists r, @u3072_mul MuHashError (uint_max LIMBS) (uint_max LIMBS) = Ok r /\ val r = (PRIME_DIFF - 1) * (PRIME_DIFF - 1).
Proof.
  assert (Hwf : wf_field (uint_max LIMBS)) by (split; [apply wf_max|reflexivity]).
  destruct (u3072_mul_correct (E := MuHashError) (uint_max LIMBS) (uint_max LIMBS) Hwf Hwf) as (r & Hr & [Hw _] & Hv & Hlt).
  exists r. split; [exact Hr|]. rewrite <-(Z.mod_small (val r) PRIME); [rewrite Hv; vm_compute; reflexivity|].
  split; [apply val_bound; exact Hw|apply Hlt; vm_compute; discriminate].
Defined.

Definition mx_expr1 : mu_expr := MCombine (MAdd (MAdd MNew [1; 2]) [7]) (MRemove MNew [7]).
Definition mx_expr2 : mu_expr := MRemove (MAdd (MAdd MNew [1; 2]) [9]) [9].

Lemma mx_units : Forall (fun data => unit_mod (elem mx_hash data)) [[7]; [9]].
Proof. repeat (apply Forall_cons_2; [vm_compute; reflexivity|]). apply Forall_nil_2. Qed.

Lemma muhash_of_multiset_witness : exists m1 m2 h q, mu_eval mx_hash mx_expr1 = Ok m1 /\ mu_eval mx_hash mx_expr2 = Ok m2 /\
  muhash_finalize mx_hash m1 = Ok (h, q) /\ muhash_finalize mx_hash m2 = Ok (h, q).
Proof.
  apply (muhash_of_multiset mx_hash mx_expr1 mx_expr2).
  - cbn [mx_expr1 mx_expr2 added removed app].
    apply (Permutation_trans (l' := [[7]; [1; 2]; [9]])); [reflexivity|].
    apply (Permutation_trans (l' := [[1; 2]; [7]; [9]])); [apply perm_swap|].
    apply (Permutation_trans (l' := [[1; 2]; [9]; [7]])); [apply perm_skip, perm_swap|]. apply perm_swap.
  - exact mx_units.
Defined.

Lemma muhash_serialization_roundtrip_witness : exists m bs m' h q, mu_eval mx_hash mx_expr1 = Ok m /\ muhash_serialize m = Ok (bs, m') /\
  muhash_deserialize bs = Ok m' /\ muhash_finalize mx_hash m = Ok (h, q) /\ muhash_finalize mx_hash m' = Ok (h, q).
Proof.
  apply (muhash_serialization_roundtrip mx_hash mx_expr1). apply Forall_cons_2; [vm_compute; reflexivity|apply Forall_nil_2].
Defined.
