(* ===== verification/Coinbase.v ===== *)
(** * Coinbase transactions and the emission schedule

    Model of consensus/src/processes/coinbase.rs and consensus/core/src/coinbase.rs: the
    payload of a coinbase transaction, the transaction expected for a mergeset and the
    subsidy by DAA score; with [ForkActivation] and [ForkedParam] of
    consensus/core/src/config/params.rs. *)

From Stdlib Require Import ZArith Lia Bool.
From stdpp Require Import base gmap numbers list.
From S2P Require Import Prelude Tx Uint Hashing GhostdagStore Mass TxValidator.

#[local] Open Scope Z_scope.

(** ** params.rs *)

Abbreviation ForkActivation := Z.
Definition fork_NEVER : ForkActivation := U64 - 1.
Definition fork_ALWAYS : ForkActivation := 0.
Definition is_active (self : ForkActivation) (current_daa_score : Z) : bool := self <=? current_daa_score.

Record ForkedParam := mk_forked {
  fp_pre : Z;
  fp_post : Z;
  fp_activation : ForkActivation
}.
Definition forked_get (self : ForkedParam) (daa_score : Z) : Z := if is_active (fp_activation self) daa_score then fp_post self else fp_pre self.
Definition forked_before (self : ForkedParam) : Z := if fp_activation self =? fork_ALWAYS then fp_post self else fp_pre self.
Definition forked_after (self : ForkedParam) : Z := if fp_activation self =? fork_NEVER then fp_pre self else fp_post self.

(** ** Data (core/src/coinbase.rs) *)

Record MinerData := mk_miner {
  md_script_public_key : ScriptPublicKey;
  md_extra_data : bytes
}.
Record CoinbaseData := mk_coinbase_data {
  cd_blue_score : Z;
  cd_subsidy : Z;
  cd_miner_data : MinerData
}.
Record BlockRewardData := mk_reward {
  rw_subsidy : Z;
  rw_total_fees : Z;
  rw_script_public_key : ScriptPublicKey
}.
Record CoinbaseTransactionTemplate := mk_template {
  ct_tx : Transaction;
  ct_has_red_reward : bool
}.

Inductive CoinbaseError :=
| PayloadLenBelowMin (len min : nat)
| PayloadLenAboveMax (len max : nat)
| PayloadScriptPublicKeyLenAboveMax (len : nat) (max : Z)
| PayloadCantContainScriptPublicKey (len needed : nat).
Abbreviation cres := (outcome CoinbaseError).

(** ** The manager *)

Definition LENGTH_OF_BLUE_SCORE : nat := 8.
Definition LENGTH_OF_SUBSIDY : nat := 8.
Definition LENGTH_OF_SCRIPT_PUB_KEY_VERSION : nat := 2.
Definition LENGTH_OF_SCRIPT_PUB_KEY_LENGTH : nat := 1.
Definition MIN_PAYLOAD_LENGTH : nat := LENGTH_OF_BLUE_SCORE + LENGTH_OF_SUBSIDY + LENGTH_OF_SCRIPT_PUB_KEY_VERSION + LENGTH_OF_SCRIPT_PUB_KEY_LENGTH.
Definition SECONDS_PER_MONTH : Z := 2629800.

(** Rewards per second, by month. *)
Definition SUBSIDY_BY_MONTH_TABLE : list Z := [
   44000000000; 41530469757; 39199543598; 36999442271; 34922823143; 32962755691; 31112698372; 29366476791; 27718263097; 26162556530; 24694165062; 23308188075; 22000000000; 20765234878; 19599771799;
   18499721135; 17461411571; 16481377845; 15556349186; 14683238395; 13859131548; 13081278265; 12347082531; 11654094037; 11000000000; 10382617439; 9799885899; 9249860567; 8730705785; 8240688922;
   7778174593; 7341619197; 6929565774; 6540639132; 6173541265; 5827047018; 5500000000; 5191308719; 4899942949; 4624930283; 4365352892; 4120344461; 3889087296; 3670809598; 3464782887;
   3270319566; 3086770632; 2913523509; 2750000000; 2595654359; 2449971474; 2312465141; 2182676446; 2060172230; 1944543648; 1835404799; 1732391443; 1635159783; 1543385316; 1456761754;
   1375000000; 1297827179; 1224985737; 1156232570; 1091338223; 1030086115; 972271824; 917702399; 866195721; 817579891; 771692658; 728380877; 687500000; 648913589; 612492868;
   578116285; 545669111; 515043057; 486135912; 458851199; 433097860; 408789945; 385846329; 364190438; 343750000; 324456794; 306246434; 289058142; 272834555; 257521528;
   243067956; 229425599; 216548930; 204394972; 192923164; 182095219; 171875000; 162228397; 153123217; 144529071; 136417277; 128760764; 121533978; 114712799; 108274465;
   102197486; 96461582; 91047609; 85937500; 81114198; 76561608; 72264535; 68208638; 64380382; 60766989; 57356399; 54137232; 51098743; 48230791; 45523804;
   42968750; 40557099; 38280804; 36132267; 34104319; 32190191; 30383494; 28678199; 27068616; 25549371; 24115395; 22761902; 21484375; 20278549; 19140402;
   18066133; 17052159; 16095095; 15191747; 14339099; 13534308; 12774685; 12057697; 11380951; 10742187; 10139274; 9570201; 9033066; 8526079; 8047547;
   7595873; 7169549; 6767154; 6387342; 6028848; 5690475; 5371093; 5069637; 4785100; 4516533; 4263039; 4023773; 3797936; 3584774; 3383577;
   3193671; 3014424; 2845237; 2685546; 2534818; 2392550; 2258266; 2131519; 2011886; 1898968; 1792387; 1691788; 1596835; 1507212; 1422618;
   1342773; 1267409; 1196275; 1129133; 1065759; 1005943; 949484; 896193; 845894; 798417; 753606; 711309; 671386; 633704; 598137;
   564566; 532879; 502971; 474742; 448096; 422947; 399208; 376803; 355654; 335693; 316852; 299068; 282283; 266439; 251485;
   237371; 224048; 211473; 199604; 188401; 177827; 167846; 158426; 149534; 141141; 133219; 125742; 118685; 112024; 105736;
   99802; 94200; 88913; 83923; 79213; 74767; 70570; 66609; 62871; 59342; 56012; 52868; 49901; 47100; 44456;
   41961; 39606; 37383; 35285; 33304; 31435; 29671; 28006; 26434; 24950; 23550; 22228; 20980; 19803; 18691;
   17642; 16652; 15717; 14835; 14003; 13217; 12475; 11775; 11114; 10490; 9901; 9345; 8821; 8326; 7858;
   7417; 7001; 6608; 6237; 5887; 5557; 5245; 4950; 4672; 4410; 4163; 3929; 3708; 3500; 3304;
   3118; 2943; 2778; 2622; 2475; 2336; 2205; 2081; 1964; 1854; 1750; 1652; 1559; 1471; 1389;
   1311; 1237; 1168; 1102; 1040; 982; 927; 875; 826; 779; 735; 694; 655; 618; 584;
   551; 520; 491; 463; 437; 413; 389; 367; 347; 327; 309; 292; 275; 260; 245;
   231; 218; 206; 194; 183; 173; 163; 154; 146; 137; 130; 122; 115; 109; 103;
   97; 91; 86; 81; 77; 73; 68; 65; 61; 57; 54; 51; 48; 45; 43;
   40; 38; 36; 34; 32; 30; 28; 27; 25; 24; 22; 21; 20; 19; 18;
   17; 16; 15; 14; 13; 12; 12; 11; 10; 10; 9; 9; 8; 8; 7;
   7; 6; 6; 6; 5; 5; 5; 4; 4; 4; 4; 3; 3; 3; 3;
   3; 2; 2; 2; 2; 2; 2; 2; 1; 1; 1; 1; 1; 1; 1;
   1; 1; 1; 1; 1; 0].

Record CoinbaseManager := mk_coinbase_manager {
  cm_script_public_key_max_len : Z;
  cm_max_payload_len : nat;
  cm_deflationary_phase_daa_score : Z;
  cm_pre_deflationary_phase_base_subsidy : Z;
  cm_bps_history : ForkedParam;
  cm_subsidy_by_month_table_before : list Z;
  cm_subsidy_by_month_table_after : list Z;
  cm_crescendo_activation_daa_score : Z
}.

(** [u64::div_ceil] *)
Definition div_ceil64 {E} (a b : Z) : outcome E Z := if b =? 0 then Panic else Ok (div_ceil a b).

Definition coinbase_manager_new {E} (script_public_key_max_len : Z) (max_payload_len : nat) (deflationary_phase_daa_score base_subsidy : Z) (bps_history : ForkedParam) :
    outcome E CoinbaseManager :=
  let! table_before := mapM_out (fun x => div_ceil64 x (forked_before bps_history)) SUBSIDY_BY_MONTH_TABLE in
  let! table_after := mapM_out (fun x => div_ceil64 x (forked_after bps_history)) SUBSIDY_BY_MONTH_TABLE in
  Ok (mk_coinbase_manager script_public_key_max_len max_payload_len deflationary_phase_daa_score base_subsidy bps_history table_before table_after
        (fp_activation bps_history)).

(** ** Subsidy *)

Definition subsidy_month {E} (self : CoinbaseManager) (daa_score : Z) : outcome E Z :=
  let activation := cm_crescendo_activation_daa_score self in
  let deflation := cm_deflationary_phase_daa_score self in
  let before := forked_before (cm_bps_history self) in
  let after := forked_after (cm_bps_history self) in
  let! seconds :=
    if activation <? deflation then let! d := usub daa_score deflation in div64 d after
    else if daa_score <? activation then let! d := usub daa_score deflation in div64 d before
    else
      let! d := usub activation deflation in
      let! s := div64 d before in
      let! d' := usub daa_score activation in
      let! s' := div64 d' after in
      add64 s s' in
  Ok (seconds / SECONDS_PER_MONTH).

Definition calc_block_subsidy {E} (self : CoinbaseManager) (daa_score : Z) : outcome E Z :=
  if daa_score <? cm_deflationary_phase_daa_score self then Ok (cm_pre_deflationary_phase_base_subsidy self)
  else
    let! month := subsidy_month self daa_score in
    let table := if is_active (fp_activation (cm_bps_history self)) daa_score then cm_subsidy_by_month_table_after self else cm_subsidy_by_month_table_before self in
    unwrap (table !! Z.to_nat (Z.min month (len table - 1))).

(** ** Payload *)

Definition payload_tail (miner_data : MinerData) : bytes :=
  le_bytes 2 (spk_version (md_script_public_key miner_data)) ++ le_bytes 1 (len (spk_script (md_script_public_key miner_data)) mod U8) ++
  spk_script (md_script_public_key miner_data) ++ md_extra_data miner_data.

Definition serialize_coinbase_payload (self : CoinbaseManager) (data : CoinbaseData) : cres bytes :=
  let n := length (spk_script (md_script_public_key (cd_miner_data data))) in
  if cm_script_public_key_max_len self <? Z.of_nat n then Err (PayloadScriptPublicKeyLenAboveMax n (cm_script_public_key_max_len self))
  else Ok (le_bytes 8 (cd_blue_score data) ++ le_bytes 8 (cd_subsidy data) ++ payload_tail (cd_miner_data data)).

Definition modify_coinbase_payload (self : CoinbaseManager) (payload : bytes) (miner_data : MinerData) : cres bytes :=
  let n := length (spk_script (md_script_public_key miner_data)) in
  if cm_script_public_key_max_len self <? Z.of_nat n then Err (PayloadScriptPublicKeyLenAboveMax n (cm_script_public_key_max_len self))
  else Ok (take (LENGTH_OF_BLUE_SCORE + LENGTH_OF_SUBSIDY) payload ++ payload_tail miner_data).

(** [PayloadParser::take]: [split_at] panics beyond the end. *)
Definition parser_take {E} (n : nat) (remaining : bytes) : outcome E (bytes * bytes) :=
  if (n <=? length remaining)%nat then Ok (take n remaining, drop n remaining) else Panic.

Definition deserialize_coinbase_payload (self : CoinbaseManager) (payload : bytes) : cres CoinbaseData :=
  if (length payload <? MIN_PAYLOAD_LENGTH)%nat then Err (PayloadLenBelowMin (length payload) MIN_PAYLOAD_LENGTH)
  else if (cm_max_payload_len self <? length payload)%nat then Err (PayloadLenAboveMax (length payload) (cm_max_payload_len self))
  else
    let! ' (blue_score, rest) := parser_take LENGTH_OF_BLUE_SCORE payload in
    let! ' (subsidy, rest) := parser_take LENGTH_OF_SUBSIDY rest in
    let! ' (version, rest) := parser_take LENGTH_OF_SCRIPT_PUB_KEY_VERSION rest in
    let! ' (script_len, rest) := parser_take LENGTH_OF_SCRIPT_PUB_KEY_LENGTH rest in
    let n := of_le_bytes script_len in
    if cm_script_public_key_max_len self <? n then Err (PayloadScriptPublicKeyLenAboveMax (Z.to_nat n) (cm_script_public_key_max_len self))
    else if len rest <? n then Err (PayloadCantContainScriptPublicKey (length payload) (MIN_PAYLOAD_LENGTH + Z.to_nat n))
    else
      let! ' (script, extra_data) := parser_take (Z.to_nat n) rest in
      Ok (mk_coinbase_data (of_le_bytes blue_score) (of_le_bytes subsidy) (mk_miner (mk_spk (of_le_bytes version) script) extra_data)).

(** ** The expected transaction *)

(** The outputs that reward the blue blocks within the DAA window. *)
Fixpoint blue_outputs (mergeset_rewards : gmap N BlockRewardData) (mergeset_non_daa : gset N) (blues : list N) : cres (list TransactionOutput) :=
  match blues with
  | [] => Ok []
  | blue :: blues' =>
      if bool_decide (blue ∈ mergeset_non_daa) then blue_outputs mergeset_rewards mergeset_non_daa blues'
      else
        let! reward_data := unwrap (mergeset_rewards !! blue) in
        let! value := add64 (rw_subsidy reward_data) (rw_total_fees reward_data) in
        let! rest := blue_outputs mergeset_rewards mergeset_non_daa blues' in
        Ok (if 0 <? value then mk_output value (rw_script_public_key reward_data) :: rest else rest)
  end.

(** The reward of the merging block for the red blocks. *)
Definition red_step (mergeset_rewards : gmap N BlockRewardData) (mergeset_non_daa : gset N) (red_reward : Z) (red : N) : cres Z :=
  let! reward_data := unwrap (mergeset_rewards !! red) in
  if bool_decide (red ∈ mergeset_non_daa) then add64 red_reward (rw_total_fees reward_data)
  else
    let! value := add64 (rw_subsidy reward_data) (rw_total_fees reward_data) in
    add64 red_reward value.

Section WithHash.
Variable H : HashDomain -> bytes -> N.

(** [Transaction::new] with no mass *)
Definition transaction_new (version : Z) (inputs : list TransactionInput) (outputs : list TransactionOutput) (lock_time : Z) (subnetwork_id : bytes) (gas : Z)
    (payload : bytes) : Transaction := finalize H (mk_tx version inputs outputs lock_time subnetwork_id gas payload 0 0).

Definition expected_coinbase_transaction (self : CoinbaseManager) (daa_score : Z) (miner_data : MinerData) (ghostdag_data : GhostdagData)
    (mergeset_rewards : gmap N BlockRewardData) (mergeset_non_daa : gset N) : cres CoinbaseTransactionTemplate :=
  let! outputs := blue_outputs mergeset_rewards mergeset_non_daa (gd_mergeset_blues ghostdag_data) in
  let! red_reward := foldM_out (red_step mergeset_rewards mergeset_non_daa) 0 (gd_mergeset_reds ghostdag_data) in
  let outputs := if 0 <? red_reward then outputs ++ [mk_output red_reward (md_script_public_key miner_data)] else outputs in
  let! subsidy := calc_block_subsidy self daa_score in
  let! payload := serialize_coinbase_payload self (mk_coinbase_data (gd_blue_score ghostdag_data) subsidy miner_data) in
  Ok (mk_template (transaction_new TX_VERSION [] outputs 0 SUBNETWORK_ID_COINBASE 0 payload) (0 <? red_reward)).
End WithHash.

(** The manager of the main network ([MAINNET_PARAMS]). *)
Definition MAINNET_DEFLATIONARY_PHASE_DAA_SCORE : Z := 15778800 - 259200.
Definition MAINNET_BPS_HISTORY : ForkedParam := mk_forked (1000 / 1000) (1000 / 100) 110165000.
Definition mainnet_coinbase_manager {E} : outcome E CoinbaseManager :=
  coinbase_manager_new 150 204 MAINNET_DEFLATIONARY_PHASE_DAA_SCORE 50000000000 MAINNET_BPS_HISTORY.
