(* ===== verification/CoinbaseProps.v ===== *)
(** * Properties of coinbase transactions and of the emission *)

From Stdlib Require Import ZArith Lia Bool.
From stdpp Require Import base gmap numbers list.
From S2P Require Import Prelude Tx Uint UintLemmas Hashing GhostdagStore Mass TxValidator TxValidatorLemmas TxValidatorProps U3072Lemmas Coinbase.

#[local] Open Scope Z_scope.

(** ** Payload *)

(** The data fits the fields of the payload and the limits of the manager. *)
Record data_fits (cm : CoinbaseManager) (d : CoinbaseData) : Prop := mk_data_fits {
  df_scores : in_u64 (cd_blue_score d) /\ in_u64 (cd_subsidy d);
  df_version : 0 <= spk_version (md_script_public_key (cd_miner_data d)) < U16;
  df_script : wf_bytes (spk_script (md_script_public_key (cd_miner_data d))) /\ len (spk_script (md_script_public_key (cd_miner_data d))) <= cm_script_public_key_max_len cm;
  df_extra : wf_bytes (md_extra_data (cd_miner_data d)) /\
    (MIN_PAYLOAD_LENGTH + length (spk_script (md_script_public_key (cd_miner_data d))) + length (md_extra_data (cd_miner_data d)) <= cm_max_payload_len cm)%nat
}.

Lemma parser_take_app {E} n a b : length a = n -> @parser_take E n (a ++ b) = Ok (a, b).
Proof.
  intros Ha. unfold parser_take. rewrite length_app. destruct (Nat.leb_spec n (length a + length b)); [|lia].
  by rewrite take_app_length', drop_app_length' by done.
Qed.
Lemma parser_take_Ok {E} n bs a b : @parser_take E n bs = Ok (a, b) -> bs = a ++ b /\ length a = n.
Proof.
  unfold parser_take. destruct (Nat.leb_spec n (length bs)); [|done]. intros [= <- <-]. by rewrite take_drop, length_take, Nat.min_l.
Qed.

Lemma serialize_length cm d bs : serialize_coinbase_payload cm d = Ok bs ->
  length bs = (MIN_PAYLOAD_LENGTH + length (spk_script (md_script_public_key (cd_miner_data d))) + length (md_extra_data (cd_miner_data d)))%nat.
Proof.
  unfold serialize_coinbase_payload, payload_tail. destruct (_ <? _); [done|]. intros <-%Ok_inj. rewrite !length_app, !length_le_bytes. unfold MIN_PAYLOAD_LENGTH, LENGTH_OF_BLUE_SCORE, LENGTH_OF_SUBSIDY, LENGTH_OF_SCRIPT_PUB_KEY_VERSION, LENGTH_OF_SCRIPT_PUB_KEY_LENGTH. lia.
Qed.

Lemma deserialize_serialize_payload cm d : 0 <= cm_script_public_key_max_len cm < U8 -> data_fits cm d ->
  exists bs, serialize_coinbase_payload cm d = Ok bs /\ deserialize_coinbase_payload cm bs = Ok d.
Proof.
  intros Hmax [[Hb Hs] Hv [Hw Hl] [He Hlen]]. destruct d as [blue subsidy [[version script] extra]]. cbn [cd_miner_data md_script_public_key spk_script spk_version md_extra_data cd_blue_score cd_subsidy] in *.
  assert (Hser : serialize_coinbase_payload cm (mk_coinbase_data blue subsidy (mk_miner (mk_spk version script) extra)) =
    Ok (le_bytes 8 blue ++ le_bytes 8 subsidy ++ le_bytes 2 version ++ le_bytes 1 (len script) ++ script ++ extra)).
  { unfold serialize_coinbase_payload, payload_tail. cbn [cd_miner_data md_script_public_key spk_script spk_version md_extra_data cd_blue_score cd_subsidy]. destruct (Z.ltb_spec (cm_script_public_key_max_len cm) (len script)); [lia|]. by rewrite Z.mod_small by lia. }
  eexists. split; [exact Hser|]. pose proof (serialize_length _ _ _ Hser) as Hn. cbn [cd_miner_data md_script_public_key spk_script md_extra_data] in Hn.
  unfold deserialize_coinbase_payload. rewrite Hn. destruct (Nat.ltb_spec (MIN_PAYLOAD_LENGTH + length script + length extra) MIN_PAYLOAD_LENGTH); [lia|].
  destruct (Nat.ltb_spec (cm_max_payload_len cm) (MIN_PAYLOAD_LENGTH + length script + length extra)); [lia|].
  rewrite parser_take_app by apply length_le_bytes. cbn [obind]. rewrite parser_take_app by apply length_le_bytes. cbn [obind].
  rewrite parser_take_app by apply length_le_bytes. cbn [obind]. rewrite parser_take_app by apply length_le_bytes. cbn [obind].
  rewrite (of_le_bytes_le 1) by (cbn; lia). destruct (Z.ltb_spec (cm_script_public_key_max_len cm) (len script)); [lia|]. rewrite length_app.
  destruct (Z.ltb_spec (Z.of_nat (length script + length extra)) (len script)); [lia|]. rewrite Nat2Z.id, parser_take_app by done. cbn [obind].
  rewrite (of_le_bytes_le 8 blue), (of_le_bytes_le 8 subsidy), (of_le_bytes_le 2) by done. done.
Qed.

Lemma serialize_deserialize_payload cm bs d : wf_bytes bs -> deserialize_coinbase_payload cm bs = Ok d -> serialize_coinbase_payload cm d = Ok bs.
Proof.
  intros Hbs. unfold deserialize_coinbase_payload. destruct (_ <? _)%nat; [done|]. destruct (_ <? _)%nat; [done|].
  intros ([b r1] & H1 & H2)%bind_Ok. apply bind_Ok in H2 as ([s r2] & H2 & H3). apply bind_Ok in H3 as ([v r3] & H3 & H4). apply bind_Ok in H4 as ([l r4] & H4 & H5).
  destruct (Z.ltb_spec (cm_script_public_key_max_len cm) (of_le_bytes l)) as [|Hmax]; [done|]. destruct (Z.ltb_spec (len r4) (of_le_bytes l)); [done|].
  apply bind_Ok in H5 as ([script extra] & H5 & [= <-]).
  apply parser_take_Ok in H1 as [-> L1]. apply parser_take_Ok in H2 as [-> L2]. apply parser_take_Ok in H3 as [-> L3]. apply parser_take_Ok in H4 as [-> L4]. apply parser_take_Ok in H5 as [-> L5].
  apply Forall_app in Hbs as [Wb Hbs]. apply Forall_app in Hbs as [Ws Hbs]. apply Forall_app in Hbs as [Wv Hbs]. apply Forall_app in Hbs as [Wl Hbs].
  pose proof (of_le_bytes_bound l Wl) as Hl. rewrite L4 in Hl. change (256 ^ Z.of_nat LENGTH_OF_SCRIPT_PUB_KEY_LENGTH) with 256 in Hl.
  unfold serialize_coinbase_payload, payload_tail. cbn [cd_miner_data md_script_public_key spk_script spk_version md_extra_data cd_blue_score cd_subsidy].
  rewrite L5, Z2Nat.id by lia. destruct (Z.ltb_spec (cm_script_public_key_max_len cm) (of_le_bytes l)); [lia|]. rewrite (Z.mod_small (of_le_bytes l)) by lia.
  pose proof (le_bytes_of b Wb) as E1. pose proof (le_bytes_of s Ws) as E2. pose proof (le_bytes_of v Wv) as E3. pose proof (le_bytes_of l Wl) as E4.
  rewrite L1 in E1. rewrite L2 in E2. rewrite L3 in E3. rewrite L4 in E4. unfold LENGTH_OF_BLUE_SCORE, LENGTH_OF_SUBSIDY, LENGTH_OF_SCRIPT_PUB_KEY_VERSION, LENGTH_OF_SCRIPT_PUB_KEY_LENGTH in *.
  by rewrite E1, E2, E3, E4.
Qed.

(** Coinbase payloads and their data correspond one to one: reading what was written
    gives the data back, a payload that is read is the one written for its data, and
    replacing the miner data of a payload gives the payload of the changed data. *)
Theorem coinbase_payload_roundtrip (cm : CoinbaseManager) : 0 <= cm_script_public_key_max_len cm < U8 ->
  (forall d, data_fits cm d -> exists bs, serialize_coinbase_payload cm d = Ok bs /\ deserialize_coinbase_payload cm bs = Ok d) /\
  (forall bs d, wf_bytes bs -> deserialize_coinbase_payload cm bs = Ok d -> serialize_coinbase_payload cm d = Ok bs) /\
  (forall d bs miner, serialize_coinbase_payload cm d = Ok bs ->
    modify_coinbase_payload cm bs miner = serialize_coinbase_payload cm (mk_coinbase_data (cd_blue_score d) (cd_subsidy d) miner)).
Proof.
  intros Hmax. split; [|split].
  - intros d. by apply deserialize_serialize_payload.
  - apply serialize_deserialize_payload.
  - intros d bs miner. unfold serialize_coinbase_payload at 1. destruct (_ <? _); [done|]. intros <-%Ok_inj.
    unfold modify_coinbase_payload, serialize_coinbase_payload. cbn [cd_miner_data cd_blue_score cd_subsidy]. destruct (_ <? _); [done|].
    rewrite (app_assoc _ _ (payload_tail (cd_miner_data d))), take_app_length' by (rewrite length_app, !length_le_bytes; done). by rewrite <-app_assoc.
Qed.

(** ** Rewards *)

(** What a merged block earns for its miner and what it leaves to the merging block. *)
Definition reward_value (r : BlockRewardData) : Z := rw_subsidy r + rw_total_fees r.
Definition blue_reward (rewards : gmap N BlockRewardData) (non_daa : gset N) (h : N) : Z :=
  if bool_decide (h ∈ non_daa) then 0 else match rewards !! h with Some r => reward_value r | None => 0 end.
Definition red_reward (rewards : gmap N BlockRewardData) (non_daa : gset N) (h : N) : Z :=
  match rewards !! h with Some r => if bool_decide (h ∈ non_daa) then rw_total_fees r else reward_value r | None => 0 end.
Definition mergeset_reward (rewards : gmap N BlockRewardData) (non_daa : gset N) (gd : GhostdagData) : Z :=
  zsum (List.map (blue_reward rewards non_daa) (gd_mergeset_blues gd)) + zsum (List.map (red_reward rewards non_daa) (gd_mergeset_reds gd)).

Definition rewards_nonneg (rewards : gmap N BlockRewardData) : Prop := map_Forall (fun _ r => 0 <= rw_subsidy r /\ 0 <= rw_total_fees r) rewards.
(** Every merged block that is paid for has its reward recorded. *)
Definition rewards_known (rewards : gmap N BlockRewardData) (gd : GhostdagData) : Prop :=
  Forall (fun h => is_Some (rewards !! h)) (gd_mergeset_blues gd ++ gd_mergeset_reds gd).

Section Rewards.
Context (rewards : gmap N BlockRewardData) (non_daa : gset N) (Hnn : rewards_nonneg rewards).

Lemma reward_nonneg h r : rewards !! h = Some r -> 0 <= rw_subsidy r /\ 0 <= rw_total_fees r.
Proof using Hnn. intros Hr. by apply (Hnn h). Qed.
Lemma blue_reward_nonneg h : 0 <= blue_reward rewards non_daa h.
Proof using Hnn. unfold blue_reward, reward_value. case_bool_decide; [done|]. destruct (rewards !! h) eqn:Hr; [|done]. apply reward_nonneg in Hr. lia. Qed.
Lemma red_reward_nonneg h : 0 <= red_reward rewards non_daa h.
Proof using Hnn. unfold red_reward, reward_value. destruct (rewards !! h) eqn:Hr; [|done]. apply reward_nonneg in Hr. case_bool_decide; lia. Qed.

Lemma blue_outputs_value blues outs : blue_outputs rewards non_daa blues = Ok outs ->
  zsum (List.map out_value outs) = zsum (List.map (blue_reward rewards non_daa) blues) /\ Forall (fun o => 0 < out_value o) outs /\ (length outs <= length blues)%nat /\
  Forall (fun o => exists h r, rewards !! h = Some r /\ out_script_public_key o = rw_script_public_key r) outs.
Proof using Hnn.
  revert outs. induction blues as [|b blues IH]; intros outs; cbn [blue_outputs List.map zsum].
  { intros [= <-]. by repeat split. }
  unfold blue_reward at 1. case_bool_decide.
  { intros (Hv & Hp & Hl & Hs)%IH. repeat split; [lia|done|cbn; lia|done]. }
  intros (r & Hr & (v & Hval & (rest & (Hv & Hp & Hl & Hs)%IH & <-%Ok_inj)%bind_Ok)%bind_Ok)%bind_Ok. apply unwrap_Ok in Hr. apply uadd_Ok in Hval as [-> _].
  rewrite Hr. pose proof (reward_nonneg _ _ Hr) as Hn. unfold reward_value. destruct (Z.ltb_spec 0 (rw_subsidy r + rw_total_fees r)).
  - cbn [List.map zsum out_value length]. repeat split; [lia|by constructor|lia|]. constructor; [by exists b, r|done].
  - repeat split; [lia|done|cbn [length]; lia|done].
Qed.

Lemma red_fold_value reds : forall acc r, foldM_out (red_step rewards non_daa) acc reds = Ok r -> r = acc + zsum (List.map (red_reward rewards non_daa) reds).
Proof using.
  induction reds as [|b reds IH]; intros acc r; cbn [foldM_out List.map zsum]; [intros [= <-]; lia|].
  intros (acc' & Hstep & Hrest)%bind_Ok. rewrite (IH _ _ Hrest). unfold red_step in Hstep. apply bind_Ok in Hstep as (d & Hd%unwrap_Ok & Hstep).
  unfold red_reward at 2. rewrite Hd. unfold reward_value. case_bool_decide.
  - apply uadd_Ok in Hstep as [-> _]. lia.
  - apply bind_Ok in Hstep as (v & [-> _]%uadd_Ok & [-> _]%uadd_Ok). lia.
Qed.

(** Both loops run when the rewards are known and fit. *)
Lemma blue_outputs_runs blues : Forall (fun h => is_Some (rewards !! h)) blues -> zsum (List.map (blue_reward rewards non_daa) blues) < U64 ->
  exists outs, blue_outputs rewards non_daa blues = Ok outs.
Proof using Hnn.
  induction blues as [|b blues IH]; intros Hk Hs; cbn [blue_outputs]; [by eexists|]. apply Forall_cons in Hk as [[r Hr] Hk]. cbn [List.map zsum] in Hs.
  assert (Hrest : 0 <= zsum (List.map (blue_reward rewards non_daa) blues)) by (apply zsum_nonneg, Forall_map, Forall_forall; intros; apply blue_reward_nonneg).
  pose proof (blue_reward_nonneg b) as Hb. destruct (IH Hk ltac:(lia)) as [outs Hout]. unfold blue_reward in Hs at 1. case_bool_decide; [by eexists|].
  rewrite Hr in *. unfold reward_value in Hs. cbn [unwrap obind]. rewrite uadd_lt by lia. cbn [obind]. rewrite Hout. by eexists.
Qed.
Lemma red_fold_runs reds : forall acc, Forall (fun h => is_Some (rewards !! h)) reds -> 0 <= acc -> acc + zsum (List.map (red_reward rewards non_daa) reds) < U64 ->
  exists r, foldM_out (red_step rewards non_daa) acc reds = Ok r.
Proof using Hnn.
  induction reds as [|b reds IH]; intros acc Hk Ha Hs; cbn [foldM_out]; [by eexists|]. apply Forall_cons in Hk as [[r Hr] Hk]. cbn [List.map zsum] in Hs.
  assert (Hrest : 0 <= zsum (List.map (red_reward rewards non_daa) reds)) by (apply zsum_nonneg, Forall_map, Forall_forall; intros; apply red_reward_nonneg).
  unfold red_reward in Hs at 1. rewrite Hr in Hs. unfold reward_value in Hs. pose proof (reward_nonneg _ _ Hr) as Hn. unfold red_step at 1. rewrite Hr. cbn [unwrap obind]. case_bool_decide.
  - rewrite uadd_lt by lia. cbn [obind]. apply IH; [done|lia|lia].
  - rewrite uadd_lt by lia. cbn [obind]. rewrite uadd_lt by lia. cbn [obind]. apply IH; [done|lia|lia].
Qed.
End Rewards.

(** What an expected coinbase transaction looks like. *)
Record pays (H : HashDomain -> bytes -> N) (cm : CoinbaseManager) (daa_score : Z) (miner : MinerData) (gd : GhostdagData) (rewards : gmap N BlockRewardData)
    (non_daa : gset N) (tx : Transaction) : Prop := mk_pays {
  py_value : zsum (List.map out_value (tx_outputs tx)) = mergeset_reward rewards non_daa gd;
  py_outputs : Forall (fun o => 0 < out_value o) (tx_outputs tx) /\ (length (tx_outputs tx) <= length (gd_mergeset_blues gd) + 1)%nat;
  py_scripts : Forall (fun o => out_script_public_key o = md_script_public_key miner \/ exists h r, rewards !! h = Some r /\ out_script_public_key o = rw_script_public_key r) (tx_outputs tx);
  py_coinbase : is_coinbase tx = true /\ tx_inputs tx = [] /\ tx_mass tx = 0 /\ tx_gas tx = 0 /\ tx_version tx = TX_VERSION;
  py_payload : exists subsidy, calc_block_subsidy (E := CoinbaseError) cm daa_score = Ok subsidy /\
    serialize_coinbase_payload cm (mk_coinbase_data (gd_blue_score gd) subsidy miner) = Ok (tx_payload tx)
}.

Lemma expected_coinbase_pays H cm daa_score miner gd rewards non_daa t : rewards_nonneg rewards ->
  expected_coinbase_transaction H cm daa_score miner gd rewards non_daa = Ok t -> pays H cm daa_score miner gd rewards non_daa (ct_tx t).
Proof.
  intros Hnn (outs & Hb & (r & Hr & (s & Hs & (p & Hp & <-%Ok_inj)%bind_Ok)%bind_Ok)%bind_Ok)%bind_Ok.
  destruct (blue_outputs_value rewards non_daa Hnn _ _ Hb) as (Hv & Hpos & Hl & Hsp). apply red_fold_value in Hr. cbn [ct_tx].
  assert (0 <= r) by (rewrite Hr; pose proof (zsum_nonneg (List.map (red_reward rewards non_daa) (gd_mergeset_reds gd)) ltac:(apply Forall_map, Forall_forall; intros; by apply red_reward_nonneg)); lia).
  assert (Hsp' : Forall (fun o => out_script_public_key o = md_script_public_key miner \/ exists h r, rewards !! h = Some r /\ out_script_public_key o = rw_script_public_key r) outs) by (eapply Forall_impl; [exact Hsp|]; auto).
  split; cbn [transaction_new finalize tx_outputs tx_inputs tx_mass tx_gas tx_version tx_payload].
  - unfold mergeset_reward. rewrite <-Hv. destruct (Z.ltb_spec 0 r); [rewrite List.map_app, zsum_app; cbn [List.map zsum out_value]; lia|lia].
  - destruct (Z.ltb_spec 0 r); [|split; [done|lia]]. rewrite length_app. split; [|cbn; lia]. apply Forall_app. split; [done|]. by apply Forall_singleton.
  - destruct (0 <? r); [|done]. apply Forall_app. split; [done|]. apply Forall_singleton. by left.
  - done.
  - by exists s.
Qed.


(** ** Instances *)

Definition cx_manager : CoinbaseManager := mk_coinbase_manager 150 204 1000 500 (mk_forked 1 1 fork_NEVER) [] [] fork_NEVER.
Definition cx_spk (b : Z) : ScriptPublicKey := mk_spk 0 [b; 172].
Definition cx_miner : MinerData := mk_miner (cx_spk 1) [7; 8].
Definition cx_data : CoinbaseData := mk_coinbase_data 77 500 cx_miner.
Definition cx_rewards : gmap N BlockRewardData := {[ 5%N := mk_reward 500 20 (cx_spk 2); 6%N := mk_reward 500 0 (cx_spk 3); 7%N := mk_reward 500 3 (cx_spk 4) ]}.
Definition cx_ghostdag : GhostdagData := mk_gd 77 900 5%N [5%N; 6%N] [7%N] ∅.
Definition cx_hash (d : HashDomain) (bs : bytes) : N := Z.to_N (of_le_bytes (take 30 bs)).

Lemma coinbase_payload_roundtrip_witness : exists bs, serialize_coinbase_payload cx_manager cx_data = Ok bs /\ deserialize_coinbase_payload cx_manager bs = Ok cx_data.
Proof.
  apply (coinbase_payload_roundtrip cx_manager).
  - vm_compute. split; [discriminate|reflexivity].
  - split; [split; vm_compute; (split; [discriminate|reflexivity])|vm_compute; split; [discriminate|reflexivity]| |].
    + split; [repeat (apply Forall_cons_2; [lia|]); apply Forall_nil_2|vm_compute; discriminate].
    + split; [repeat (apply Forall_cons_2; [lia|]); apply Forall_nil_2|vm_compute; lia].
Defined.

Lemma cx_rewards_nonneg : rewards_nonneg cx_rewards.
Proof. unfold rewards_nonneg, cx_rewards. repeat (apply map_Forall_insert_2; [cbn; lia|]). apply map_Forall_empty. Qed.

