(* ===== verification/CoinbaseEmission.v ===== *)
(** * The emission schedule

    The subsidies of all DAA scores sum to a bounded amount: each second of the schedule is
    paid by at most one block per block of the rate, each month has a bounded number of
    seconds, and the table ends with a month without subsidy. *)

From Stdlib Require Import ZArith Lia Bool.
From stdpp Require Import base gmap numbers list.
From S2P Require Import Prelude Uint Mass TxValidator U3072Lemmas Coinbase.

#[local] Open Scope Z_scope.

(** ** Sums of values constant on blocks of indices *)

Lemma sumf_nonneg f s n : (forall i, 0 <= f i) -> 0 <= sumf f s n.
Proof. intros Hf. induction n as [|n IH]; [done|]. rewrite sumf_S. specialize (Hf (s + n)%nat). lia. Qed.
Lemma sumf_mono f s n m : (forall i, 0 <= f i) -> (n <= m)%nat -> sumf f s n <= sumf f s m.
Proof.
  intros Hf Hnm. replace m with (n + (m - n))%nat by lia. rewrite sumf_split. pose proof (sumf_nonneg f (s + n) (m - n) Hf). lia.
Qed.
Lemma sumf_le f g s n : (forall i, f i <= g i) -> sumf f s n <= sumf g s n.
Proof. intros Hf. induction n as [|n IH]; [done|]. rewrite !sumf_S. specialize (Hf (s + n)%nat). lia. Qed.

Lemma sumf_const c s n : sumf (fun _ => c) s n = Z.of_nat n * c.
Proof. induction n as [|n IH]; [done|]. rewrite sumf_S, IH. lia. Qed.

Lemma sumf_blocks (g : nat -> Z) k m : (0 < k)%nat -> sumf (fun i => g (i / k)%nat) 0 (k * m) = Z.of_nat k * sumf g 0 m.
Proof.
  intros Hk. induction m as [|m IH]; [rewrite Nat.mul_0_r; unfold sumf; cbn [seq List.map zsum]; lia|].
  assert (Hblock : sumf (fun i => g (i / k)%nat) (0 + k * m) k = Z.of_nat k * g m).
  { rewrite sumf_shift, (sumf_ext _ (fun _ => g m)), sumf_const; [done|].
    intros i Hi. f_equal. rewrite Nat.add_0_l, (Nat.mul_comm k m), Nat.div_add_l, Nat.div_small by lia. lia. }
  rewrite Nat.mul_succ_r, sumf_split, Hblock, IH, sumf_S, Nat.add_0_l. ring.
Qed.

Lemma sumf_blocks_le (g : nat -> Z) k n : (0 < k)%nat -> (forall i, 0 <= g i) -> sumf (fun i => g (i / k)%nat) 0 n <= Z.of_nat k * sumf g 0 (n / k + 1).
Proof.
  intros Hk Hg. rewrite <-sumf_blocks by done. apply sumf_mono; [intros; apply Hg|]. pose proof (Nat.div_mod n k ltac:(lia)). pose proof (Nat.mod_upper_bound n k ltac:(lia)). nia.
Qed.

(** ** The schedule *)

(** The table value of a month: the last month goes on for ever. *)
Definition month_rate (m : nat) : Z := nth (m `min` 425) SUBSIDY_BY_MONTH_TABLE 0.
(** What is paid per second at a rate of [k] blocks per second, rounding up. *)
Definition second_rate (k : Z) (m : nat) : Z := k * div_ceil (month_rate m) k.

Lemma table_nonneg : Forall (fun x => 0 <= x) SUBSIDY_BY_MONTH_TABLE.
Proof. apply Forall_forall. intros x Hx. apply list_elem_of_In in Hx. revert x Hx. apply List.Forall_forall. vm_compute. repeat constructor; discriminate. Qed.
Lemma month_rate_nonneg m : 0 <= month_rate m.
Proof.
  unfold month_rate. destruct (nth_in_or_default (m `min` 425) SUBSIDY_BY_MONTH_TABLE 0) as [Hin| ->]; [|done].
  pose proof table_nonneg as Ht. rewrite Forall_forall in Ht. by apply Ht, list_elem_of_In.
Qed.
Lemma second_rate_nonneg k m : 0 < k -> 0 <= second_rate k m.
Proof. intros Hk. unfold second_rate, div_ceil. pose proof (month_rate_nonneg m). apply Z.mul_nonneg_nonneg; [lia|]. apply Z.div_pos; lia. Qed.

Lemma table_length : length SUBSIDY_BY_MONTH_TABLE = 426%nat.
Proof. done. Qed.
Lemma month_rate_last m : (425 <= m)%nat -> month_rate m = 0.
Proof. intros Hm. unfold month_rate. rewrite Nat.min_r by lia. done. Qed.

Lemma table_lookup k m : 0 <= m ->
  List.map (fun x => div_ceil x k) SUBSIDY_BY_MONTH_TABLE !! Z.to_nat (Z.min m (len (List.map (fun x => div_ceil x k) SUBSIDY_BY_MONTH_TABLE) - 1)) =
  Some (div_ceil (month_rate (Z.to_nat m)) k).
Proof.
  intros Hm. rewrite List.length_map, table_length. unfold month_rate. replace (Z.to_nat (Z.min m (Z.of_nat 426 - 1))) with (Z.to_nat m `min` 425)%nat by lia.
  change (List.map ?f ?l) with (f <$> l). rewrite list_lookup_fmap. destruct (lookup_lt_is_Some_2 SUBSIDY_BY_MONTH_TABLE (Z.to_nat m `min` 425)) as [x Hx]; [rewrite table_length; lia|].
  by rewrite Hx, (nth_lookup_Some _ _ _ _ Hx).
Qed.

Section Schedule.
Context (spk_max : Z) (payload_max : nat) (deflation base : Z) (bps : ForkedParam).
Context {E : Type} (cm : CoinbaseManager) (Hnew : @coinbase_manager_new E spk_max payload_max deflation base bps = Ok cm).
Let before := forked_before bps.
Let after := forked_after bps.
Let activation := fp_activation bps.
Context (Hbefore : 0 < before) (Hafter : 0 < after) (Hdefl : 0 <= deflation) (Hact : 0 <= activation < U64) (Hbase : 0 <= base).

Lemma new_fields : cm_deflationary_phase_daa_score cm = deflation /\ cm_pre_deflationary_phase_base_subsidy cm = base /\ cm_bps_history cm = bps /\
  cm_crescendo_activation_daa_score cm = activation /\
  cm_subsidy_by_month_table_before cm = List.map (fun x => div_ceil x before) SUBSIDY_BY_MONTH_TABLE /\
  cm_subsidy_by_month_table_after cm = List.map (fun x => div_ceil x after) SUBSIDY_BY_MONTH_TABLE.
Proof using Hnew Hbefore Hafter.
  unfold coinbase_manager_new in Hnew. fold before after in Hnew.
  rewrite (mapM_out_Ok _ (fun x => div_ceil x before)) in Hnew by (intros x _; unfold div_ceil64; destruct (Z.eqb_spec before 0); [lia|done]). cbn [obind] in Hnew.
  rewrite (mapM_out_Ok _ (fun x => div_ceil x after)) in Hnew by (intros x _; unfold div_ceil64; destruct (Z.eqb_spec after 0); [lia|done]). cbn [obind] in Hnew.
  apply Ok_inj in Hnew as <-. done.
Qed.

(** The seconds since the deflationary phase started. *)
Definition seconds_at (daa_score : Z) : Z :=
  if activation <? deflation then (daa_score - deflation) / after
  else if daa_score <? activation then (daa_score - deflation) / before
  else (activation - deflation) / before + (daa_score - activation) / after.

Lemma subsidy_at daa_score : 0 <= daa_score < U64 ->
  @calc_block_subsidy E cm daa_score = Ok (if daa_score <? deflation then base
    else let k := if activation <=? daa_score then after else before in div_ceil (month_rate (Z.to_nat (seconds_at daa_score / SECONDS_PER_MONTH))) k).
Proof using Hnew Hbefore Hafter Hact Hdefl.
  intros Hd. destruct new_fields as (Hf1 & Hf2 & Hf3 & Hf4 & Hf5 & Hf6). unfold calc_block_subsidy. rewrite Hf1, Hf2, Hf3, Hf5, Hf6.
  destruct (Z.ltb_spec daa_score deflation); [done|].
  assert (Hdiv : forall a k, 0 <= a -> 0 < k -> 0 <= a / k <= a) by (intros a k ? ?; split; [apply Z.div_pos; lia|apply Z.div_le_upper_bound; nia]).
  assert (Hsec : @subsidy_month E cm daa_score = Ok (seconds_at daa_score / SECONDS_PER_MONTH) /\ 0 <= seconds_at daa_score).
  { unfold subsidy_month, seconds_at. rewrite Hf1, Hf3, Hf4. fold before after. unfold div64.
    destruct (Z.eqb_spec before 0); [lia|]. destruct (Z.eqb_spec after 0); [lia|].
    destruct (Z.ltb_spec activation deflation); [rewrite usub_le by lia; cbn [obind]; split; [done|apply Hdiv; lia]|].
    destruct (Z.ltb_spec daa_score activation); [rewrite usub_le by lia; cbn [obind]; split; [done|apply Hdiv; lia]|].
    rewrite usub_le by lia. cbn [obind]. rewrite usub_le by lia. cbn [obind]. pose proof (Hdiv (activation - deflation) before ltac:(lia) ltac:(lia)).
    pose proof (Hdiv (daa_score - activation) after ltac:(lia) ltac:(lia)). rewrite uadd_lt by lia. cbn [obind]. split; [done|lia]. }
  destruct Hsec as [-> Hs]. cbn [obind]. unfold is_active. fold activation.
  assert (0 <= seconds_at daa_score / SECONDS_PER_MONTH) by (apply Z.div_pos; [done|reflexivity]).
  destruct (activation <=? daa_score); rewrite table_lookup by done; done.
Qed.

(** The bound: the rate per second, rounded up for either block rate. *)
Definition month_cap (m : nat) : Z := Z.max (second_rate before m) (second_rate after m).
Definition emission_cap : Z := base * deflation + SECONDS_PER_MONTH * sumf month_cap 0 426.

Lemma month_cap_nonneg m : 0 <= month_cap m.
Proof using Hbefore. unfold month_cap. pose proof (second_rate_nonneg before m Hbefore). lia. Qed.
Lemma month_cap_last m : (425 <= m)%nat -> month_cap m = 0.
Proof using Hbefore Hafter.
  intros Hm. unfold month_cap, second_rate, div_ceil. rewrite month_rate_last by done. rewrite !Z.div_small by lia. lia.
Qed.
Lemma month_cap_total n : sumf month_cap 0 n <= sumf month_cap 0 426.
Proof using Hbefore Hafter.
  destruct (Nat.le_gt_cases n 426); [apply sumf_mono; [apply month_cap_nonneg|done]|].
  rewrite (sumf_at 426 _ n) by lia. rewrite (sumf_ext _ (fun _ => 0) 426) by (intros; apply month_cap_last; lia). rewrite sumf_zero. lia.
Qed.

Let spm := Z.to_nat SECONDS_PER_MONTH.
Lemma spm_pos : (0 < spm)%nat.
Proof using activation after before bps. unfold spm, SECONDS_PER_MONTH. lia. Qed.

(** Seconds are paid at most at the rate of their month. *)
Lemma seconds_total n : sumf (fun s => month_cap (s / spm)) 0 n <= SECONDS_PER_MONTH * sumf month_cap 0 426.
Proof using Hbefore Hafter.
  etransitivity; [apply (sumf_blocks_le month_cap spm); [apply spm_pos|apply month_cap_nonneg]|].
  replace (Z.of_nat spm) with SECONDS_PER_MONTH by (unfold spm, SECONDS_PER_MONTH; lia). apply Z.mul_le_mono_nonneg_l; [unfold SECONDS_PER_MONTH; lia|apply month_cap_total].
Qed.

(** The subsidies of consecutive scores, when the rate is [k] from second [s0] on. *)
Lemma phase_total k s0 m : 0 < k -> (k = before \/ k = after) ->
  sumf (fun i => div_ceil (month_rate ((s0 + i / Z.to_nat k) / spm)) k) 0 (Z.to_nat k * m) <= sumf (fun s => month_cap (s / spm)) s0 m.
Proof using activation after before bps.
  intros Hk Hor. rewrite (sumf_blocks (fun s => div_ceil (month_rate ((s0 + s) / spm)) k) (Z.to_nat k)) by lia.
  rewrite <-sumf_mul, (sumf_shift _ s0). apply sumf_le. intros i. rewrite Z2Nat.id by lia. unfold month_cap, second_rate. destruct Hor as [-> | ->]; lia.
Qed.

Definition subsidy_value (d : nat) : Z :=
  if Z.of_nat d <? deflation then base
  else let k := if activation <=? Z.of_nat d then after else before in div_ceil (month_rate (Z.to_nat (seconds_at (Z.of_nat d) / SECONDS_PER_MONTH))) k.

Lemma subsidy_value_nonneg d : 0 <= subsidy_value d.
Proof using Hbefore Hafter Hbase.
  unfold subsidy_value. destruct (_ <? _); [done|]. cbv zeta. unfold div_ceil. set (m := Z.to_nat _). pose proof (month_rate_nonneg m). destruct (_ <=? _); apply Z.div_pos; lia.
Qed.

Lemma month_index a : Z.to_nat (Z.of_nat a / SECONDS_PER_MONTH) = (a / spm)%nat.
Proof using activation after before bps. unfold spm. rewrite <-(Z2Nat.id SECONDS_PER_MONTH) at 1 by (unfold SECONDS_PER_MONTH; lia). by rewrite <-Nat2Z.inj_div, Nat2Z.id. Qed.
Lemma nat_div a k : 0 < k -> Z.of_nat a / k = Z.of_nat (a / Z.to_nat k).
Proof using activation after before bps. intros Hk. by rewrite Nat2Z.inj_div, Z2Nat.id by lia. Qed.

(** The scores of one block rate, extended to whole seconds. *)
Lemma phase_upto f k s0 n : 0 < k -> (k = before \/ k = after) -> (forall i, (i < n)%nat -> f i = div_ceil (month_rate ((s0 + i / Z.to_nat k) / spm)) k) ->
  sumf f 0 n <= sumf (fun s => month_cap (s / spm)) s0 n.
Proof using Hact Hafter Hbefore.
  intros Hk Hor Hf. rewrite (sumf_ext f _ 0 n (fun i Hi => Hf i ltac:(lia))). etransitivity; [|by apply phase_total]. apply sumf_mono; [|nia].
  intros i. unfold div_ceil. pose proof (month_rate_nonneg ((s0 + i / Z.to_nat k) / spm)). apply Z.div_pos; lia.
Qed.

Context (Haligned : activation < deflation \/ (before | activation - deflation)).

Lemma deflation_total n : sumf subsidy_value (Z.to_nat deflation) n <= SECONDS_PER_MONTH * sumf month_cap 0 426.
Proof using Hbefore Hafter Hdefl Hact Hbase Haligned.
  destruct (Z.ltb_spec activation deflation) as [Hlt|Hge].
  - etransitivity; [|apply (seconds_total n)]. rewrite sumf_shift. apply (phase_upto _ after); [done|by right|]. intros i Hi.
    unfold subsidy_value, seconds_at. destruct (Z.ltb_spec (Z.of_nat (Z.to_nat deflation + i)) deflation); [lia|]. destruct (Z.leb_spec activation (Z.of_nat (Z.to_nat deflation + i))); [|lia].
    destruct (Z.ltb_spec activation deflation); [|lia]. cbv zeta. replace (Z.of_nat (Z.to_nat deflation + i) - deflation) with (Z.of_nat i) by lia. by rewrite nat_div, month_index by done.
  - destruct Haligned as [?|[q Hq]]; [lia|]. assert (Hq0 : 0 <= q) by nia. set (s0 := Z.to_nat q).
    assert (Hpre : Z.to_nat (activation - deflation) = (Z.to_nat before * s0)%nat) by (unfold s0; rewrite Hq, Z2Nat.inj_mul by lia; lia).
    etransitivity; [apply (sumf_mono _ _ n (Z.to_nat before * s0 + n)); [apply subsidy_value_nonneg|lia]|].
    etransitivity; [|apply (seconds_total (s0 + n))]. rewrite !sumf_split. apply Z.add_le_mono.
    + rewrite sumf_shift. etransitivity; [|apply (phase_total before 0 s0 Hbefore (or_introl eq_refl))]. apply Z.eq_le_incl, sumf_ext. intros i Hi.
      unfold subsidy_value, seconds_at. destruct (Z.ltb_spec (Z.of_nat (Z.to_nat deflation + i)) deflation); [lia|]. destruct (Z.leb_spec activation (Z.of_nat (Z.to_nat deflation + i))); [lia|].
      destruct (Z.ltb_spec activation deflation); [lia|]. destruct (Z.ltb_spec (Z.of_nat (Z.to_nat deflation + i)) activation); [|lia]. cbv zeta.
      replace (Z.of_nat (Z.to_nat deflation + i) - deflation) with (Z.of_nat i) by lia. by rewrite nat_div, month_index by done.
    + rewrite sumf_shift. rewrite Nat.add_0_l. apply (phase_upto _ after s0); [done|by right|]. intros i Hi.
      replace (Z.to_nat deflation + Z.to_nat before * s0 + i)%nat with (Z.to_nat activation + i)%nat by lia.
      unfold subsidy_value, seconds_at. destruct (Z.ltb_spec (Z.of_nat (Z.to_nat activation + i)) deflation); [lia|]. destruct (Z.leb_spec activation (Z.of_nat (Z.to_nat activation + i))); [|lia].
      destruct (Z.ltb_spec activation deflation); [lia|]. destruct (Z.ltb_spec (Z.of_nat (Z.to_nat activation + i)) activation); [lia|]. cbv zeta.
      replace (Z.of_nat (Z.to_nat activation + i) - activation) with (Z.of_nat i) by lia. rewrite Hq, Z.div_mul, nat_div by lia. replace (q + Z.of_nat (i / Z.to_nat after)) with (Z.of_nat (s0 + i / Z.to_nat after)) by (unfold s0; lia).
      by rewrite month_index.
Qed.

(** The subsidies of the first [n] scores are computed and sum to at most the cap. *)
Lemma emission_capped n : Z.of_nat n <= U64 ->
  exists l, mapM_out (fun d => @calc_block_subsidy E cm (Z.of_nat d)) (seq 0 n) = Ok l /\ zsum l <= emission_cap.
Proof using Hnew Hbefore Hafter Hdefl Hact Hbase Haligned.
  intros Hn. exists (List.map subsidy_value (seq 0 n)). split.
  - apply mapM_out_Ok. intros d Hd%list_elem_of_In%List.in_seq. apply subsidy_at. lia.
  - change (sumf subsidy_value 0 n <= emission_cap). etransitivity; [apply (sumf_mono _ _ n (Z.to_nat deflation + n)); [apply subsidy_value_nonneg|lia]|].
    rewrite sumf_split, Nat.add_0_l. unfold emission_cap. apply Z.add_le_mono; [|apply deflation_total].
    rewrite (sumf_ext _ (fun _ => base)), sumf_const; [lia|]. intros i Hi. unfold subsidy_value. destruct (Z.ltb_spec (Z.of_nat i) deflation); [done|lia].
Qed.
End Schedule.

(** C31: On the main network the subsidies of all DAA scores together never exceed the
    maximal supply: every score up to any height has a subsidy, and their sum is at most
    29 billion coins. *)
Theorem mainnet_emission_bounded n : Z.of_nat n <= U64 ->
  exists cm l, mainnet_coinbase_manager (E := CoinbaseError) = Ok cm /\
    mapM_out (fun d => calc_block_subsidy (E := CoinbaseError) cm (Z.of_nat d)) (seq 0 n) = Ok l /\ zsum l <= MAX_SOMPI.
Proof.
  intros Hn. destruct (mainnet_coinbase_manager (E := CoinbaseError)) as [cm| | |] eqn:Hcm; [|by vm_compute in Hcm..].
  destruct (emission_capped _ _ _ _ _ cm Hcm) with (n := n) as (l & Hl & Hcap).
  - reflexivity.
  - reflexivity.
  - unfold MAINNET_DEFLATIONARY_PHASE_DAA_SCORE. lia.
  - cbn. lia.
  - lia.
  - right. exists 94645400. reflexivity.
  - done.
  - exists cm, l. split; [done|]. split; [done|]. etransitivity; [exact Hcap|]. vm_compute. discriminate.
Qed.

Lemma mainnet_emission_bounded_witness : exists cm l, mainnet_coinbase_manager (E := CoinbaseError) = Ok cm /\
  mapM_out (fun d => calc_block_subsidy (E := CoinbaseError) cm (Z.of_nat d)) (seq 0 3) = Ok l /\ zsum l <= MAX_SOMPI.
Proof. apply (mainnet_emission_bounded 3). lia. Defined.
