(* ===== verification/Body.v ===== *)
(** * Validation of block bodies

    Model of consensus/src/pipeline/body_processor/body_validation_in_isolation.rs and
    body_validation_in_context.rs, with the block of consensus/core/src/block.rs, the block
    status of blockstatus.rs and the rule errors of errors/block.rs.  The statuses store
    and the past median time of a known block are arguments. *)

From Stdlib Require Import ZArith Lia Bool.
From stdpp Require Import base gmap numbers list.
From S2P Require Import Prelude Tx Header Hashing GhostdagStore Mass TxValidator Coinbase.

#[local] Open Scope Z_scope.

(** ** Errors *)

Inductive RuleError :=
| WrongBlockVersion (v : Z)
| TimeTooFarIntoTheFuture (t max : Z)
| NoParents
| TooManyParents (n max : nat)
| OriginParent
| InvalidParentsRelation (a b : N)
| InvalidParent (h : N)
| MissingParents (hs : list N)
| PruningViolation (h : N)
| UnexpectedHeaderDaaScore (expected got : Z)
| UnexpectedHeaderBlueScore (expected got : Z)
| UnexpectedHeaderBlueWork (expected got : Z)
| UnexpectedDifficulty (h : N) (got expected : Z)
| TimeTooOld (t min : Z)
| KnownInvalid
| MergeSetTooBig (n max : Z)
| ViolatingBoundedMergeDepth
| BadMerkleRoot (header calculated : N)
| NoTransactions
| FirstTxNotCoinbase
| MultipleCoinbases (i : nat)
| BadCoinbasePayload (e : CoinbaseError)
| BadCoinbasePayloadBlueScore (got expected : Z)
| TxInIsolationValidationFailed (id : N) (e : TxRuleError)
| ExceedsComputeMassLimit (mass max : Z)
| ExceedsTransientMassLimit (mass max : Z)
| ExceedsStorageMassLimit (mass max : Z)
| DoubleSpendInSameBlock (o : TransactionOutpoint)
| ChainedTransaction (o : TransactionOutpoint)
| TxInContextFailed (id : N) (e : TxRuleError)
| WrongSubsidy (expected got : Z)
| DuplicateTransactions (id : N)
| InvalidPoW
| WrongHeaderPruningPoint (expected got : N)
| UnexpectedIndirectParents (expected got : list (list N))
| BadUTXOCommitment (block header calculated : N)
| BadAcceptedIDMerkleRoot (block header calculated : N)
| BadCoinbaseTransaction
| InvalidTransactionsInUtxoContext (invalid total : nat)
| InvalidTransactionsInNewBlock (errors : gmap N TxRuleError)
| InsufficientDaaWindowSize (n : nat)
| PrunedBlock.
Abbreviation bpres := (outcome RuleError).

(** ** Blocks *)

Record Block := mk_block {
  b_header : Header;
  b_transactions : list Transaction
}.
Definition block_hash (b : Block) : N := h_hash (b_header b).

Inductive BlockStatus := StatusInvalid | StatusUTXOValid | StatusUTXOPendingVerification | StatusDisqualifiedFromChain | StatusHeaderOnly.
#[export] Instance block_status_eq : EqDecision BlockStatus.
Proof. solve_decision. Defined.
Definition has_block_header (s : BlockStatus) : bool :=
  match s with StatusHeaderOnly | StatusUTXOValid | StatusUTXOPendingVerification | StatusDisqualifiedFromChain => true | StatusInvalid => false end.
Definition has_block_body (s : BlockStatus) : bool :=
  match s with StatusUTXOValid | StatusUTXOPendingVerification | StatusDisqualifiedFromChain => true | _ => false end.
Definition is_utxo_valid_or_pending (s : BlockStatus) : bool := match s with StatusUTXOValid | StatusUTXOPendingVerification => true | _ => false end.
Definition status_is_valid (s : BlockStatus) : bool := negb (bool_decide (s = StatusInvalid)).

(** [StoreResultExt::optional] *)
Definition optional {A} (m : sresult A) : sresult (option A) :=
  match m with
  | Ok a => Ok (Some a)
  | Err (KeyNotFound _) => Ok None
  | Err e => Err e
  | Panic => Panic
  | OutOfFuel => OutOfFuel
  end.

(** ** In isolation *)

Section Isolation.
Context (H : HashDomain -> bytes -> N) (validator : TransactionValidator) (mass_calculator : MassCalculator) (max_block_mass : Z).

Definition check_has_transactions (block : Block) : bpres unit := if bool_decide (b_transactions block = []) then Err NoTransactions else Ok tt.

Definition check_hash_merkle_root (block : Block) : bpres unit :=
  let! calculated := calc_hash_merkle_root H (b_transactions block) in
  if negb (calculated =? h_hash_merkle_root (b_header block))%N then Err (BadMerkleRoot (h_hash_merkle_root (b_header block)) calculated) else Ok tt.

Definition check_only_one_coinbase (block : Block) : bpres unit :=
  let! first := unwrap (b_transactions block !! 0%nat) in
  if negb (is_coinbase first) then Err FirstTxNotCoinbase
  else match position is_coinbase (drop 1 (b_transactions block)) with
       | Some i => Err (MultipleCoinbases i)
       | None => Ok tt
       end.

Fixpoint transactions_in_isolation (txs : list Transaction) : bpres unit :=
  match txs with
  | [] => Ok tt
  | tx :: txs' => let! _ := map_err (TxInIsolationValidationFailed (tx_id tx)) (validate_tx_in_isolation validator tx) in transactions_in_isolation txs'
  end.
Definition check_transactions_in_isolation (block : Block) : bpres unit := transactions_in_isolation (b_transactions block).

Fixpoint block_mass (compute transient storage : Z) (txs : list Transaction) : bpres (NonContextualMasses * ContextualMasses) :=
  match txs with
  | [] => Ok (mk_non_contextual compute transient, mk_contextual storage)
  | tx :: txs' =>
      let! m := calc_non_contextual_masses mass_calculator tx in
      let compute := sat_add compute (compute_mass m) in
      let transient := sat_add transient (transient_mass m) in
      let storage := sat_add storage (tx_mass tx) in
      if max_block_mass <? compute then Err (ExceedsComputeMassLimit compute max_block_mass)
      else if max_block_mass <? transient then Err (ExceedsTransientMassLimit transient max_block_mass)
      else if max_block_mass <? storage then Err (ExceedsStorageMassLimit storage max_block_mass)
      else block_mass compute transient storage txs'
  end.
Definition check_block_mass (block : Block) : bpres (NonContextualMasses * ContextualMasses) := block_mass 0 0 0 (b_transactions block).

Definition block_inputs (block : Block) : list TransactionOutpoint := List.map in_previous_outpoint (concat (List.map tx_inputs (b_transactions block))).

Fixpoint double_spends (existing : gset TransactionOutpoint) (outpoints : list TransactionOutpoint) : bpres unit :=
  match outpoints with
  | [] => Ok tt
  | o :: outpoints' => if bool_decide (o ∈ existing) then Err (DoubleSpendInSameBlock o) else double_spends ({[ o ]} ∪ existing) outpoints'
  end.
Definition check_block_double_spends (block : Block) : bpres unit := double_spends ∅ (block_inputs block).

(** The outpoints of a transaction; an index is converted to 32 bits. *)
Definition created_outpoints (tx : Transaction) : list TransactionOutpoint :=
  List.map (fun i => (tx_id tx, (N.of_nat i mod 4294967296)%N)) (seq 0 (length (tx_outputs tx))).
Definition check_no_chained_transactions (block : Block) : bpres unit :=
  let created : gset TransactionOutpoint := list_to_set (concat (List.map created_outpoints (b_transactions block))) in
  match List.find (fun o => bool_decide (o ∈ created)) (block_inputs block) with
  | Some o => Err (ChainedTransaction o)
  | None => Ok tt
  end.

Fixpoint duplicate_ids (ids : gset N) (txs : list Transaction) : bpres unit :=
  match txs with
  | [] => Ok tt
  | tx :: txs' => if bool_decide (tx_id tx ∈ ids) then Err (DuplicateTransactions (tx_id tx)) else duplicate_ids ({[ tx_id tx ]} ∪ ids) txs'
  end.
Definition check_duplicate_transactions (block : Block) : bpres unit := duplicate_ids ∅ (b_transactions block).

Definition validate_body_in_isolation (block : Block) : bpres (NonContextualMasses * ContextualMasses) :=
  let! _ := check_has_transactions block in
  let! _ := check_hash_merkle_root block in
  let! _ := check_only_one_coinbase block in
  let! _ := check_transactions_in_isolation block in
  let! mass := check_block_mass block in
  let! _ := check_duplicate_transactions block in
  let! _ := check_block_double_spends block in
  let! _ := check_no_chained_transactions block in
  Ok mass.
End Isolation.

(** ** In context *)

Section InContext.
Context (coinbase_manager : CoinbaseManager) (statuses : N -> sresult BlockStatus) (past_median_time_of : N -> bpres Z).

Definition check_parent_bodies_exist (block : Block) : bpres unit :=
  let! parents := direct_parents (b_header block) in
  let! stats := mapM_out (fun parent => let! s := unwrap_res (optional (statuses parent)) in Ok (parent, s)) parents in
  let missing := List.map fst (List.filter (fun p => match p.2 with None => true | Some s => negb (has_block_body s) end) stats) in
  if negb (bool_decide (missing = [])) then Err (MissingParents missing) else Ok tt.

Definition check_coinbase_blue_score_and_subsidy (block : Block) : bpres unit :=
  let! coinbase := unwrap (b_transactions block !! 0%nat) in
  let! data := map_err BadCoinbasePayload (deserialize_coinbase_payload coinbase_manager (tx_payload coinbase)) in
  if negb (cd_blue_score data =? h_blue_score (b_header block)) then Err (BadCoinbasePayloadBlueScore (cd_blue_score data) (h_blue_score (b_header block)))
  else
    let! expected_subsidy := calc_block_subsidy coinbase_manager (h_daa_score (b_header block)) in
    if negb (cd_subsidy data =? expected_subsidy) then Err (WrongSubsidy expected_subsidy (cd_subsidy data)) else Ok tt.

(** The median time is computed at most once; its value does not depend on when. *)
Fixpoint transactions_in_context (block : Block) (txs : list Transaction) : bpres unit :=
  match txs with
  | [] => Ok tt
  | tx :: txs' =>
      let! lock_time_arg :=
        match get_lock_time_type tx with
        | LTFinalized => Ok ArgFinalized
        | LTDaaScore => Ok (ArgDaaScore (h_daa_score (b_header block)))
        | LTTime => let! t := past_median_time_of (block_hash block) in Ok (ArgMedianTime t)
        end in
      let! _ := map_err (TxInContextFailed (tx_id tx)) (validate_tx_in_header_context tx lock_time_arg) in
      transactions_in_context block txs'
  end.
Definition check_block_transactions_in_context (block : Block) : bpres unit := transactions_in_context block (b_transactions block).

Definition validate_body_in_context (block : Block) : bpres unit :=
  let! _ := check_parent_bodies_exist block in
  let! _ := check_coinbase_blue_score_and_subsidy block in
  check_block_transactions_in_context block.
End InContext.
