(* ===== verification/BodyProps.v ===== *)
(** * Properties of the validation of block bodies *)

From Stdlib Require Import ZArith Lia Bool Permutation.
From stdpp Require Import base gmap numbers list.
From S2P Require Import Prelude Uint Tx Header Hashing GhostdagStore Mass TxValidator TxValidatorLemmas TxValidatorProps Coinbase Body.

#[local] Open Scope Z_scope.

(** ** Accepted bodies *)

Definition total_mass (f : NonContextualMasses -> Z) (ms : list NonContextualMasses) : Z := zsum (List.map f ms).

(** What validation in isolation accepts, with the masses it returns. *)
Record valid_body (H : HashDomain -> bytes -> N) (v : TransactionValidator) (mc : MassCalculator) (max_block_mass : Z) (block : Block) (compute transient storage : Z) : Prop := mk_valid_body {
  vb_coinbase : exists cb rest, b_transactions block = cb :: rest /\ is_coinbase cb = true /\ Forall (fun tx => is_coinbase tx = false) rest;
  vb_merkle : calc_hash_merkle_root (E := RuleError) H (b_transactions block) = Ok (h_hash_merkle_root (b_header block));
  vb_isolated : Forall (valid_isolated v) (b_transactions block);
  vb_masses : exists ms, mapM_out (calc_non_contextual_masses (E := RuleError) mc) (b_transactions block) = Ok ms /\
    compute = total_mass compute_mass ms /\ transient = total_mass transient_mass ms /\ storage = zsum (List.map tx_mass (b_transactions block));
  vb_limits : compute <= max_block_mass /\ transient <= max_block_mass /\ storage <= max_block_mass;
  vb_ids : NoDup (List.map tx_id (b_transactions block));
  vb_inputs : NoDup (block_inputs block);
  vb_unchained : forall o, o ∈ block_inputs block -> o ∉ concat (List.map created_outpoints (b_transactions block))
}.

Lemma only_one_coinbase_iff block : check_only_one_coinbase block = Ok tt <->
  exists cb rest, b_transactions block = cb :: rest /\ is_coinbase cb = true /\ Forall (fun tx => is_coinbase tx = false) rest.
Proof.
  unfold check_only_one_coinbase. destruct (b_transactions block) as [|cb rest] eqn:Ht; cbn [lookup list_lookup unwrap obind].
  { split; [done|]. by intros (? & ? & ? & _). }
  change (drop 1 (cb :: rest)) with rest. pose proof (position_None is_coinbase rest) as Hp. destruct (is_coinbase cb) eqn:Hcb; cbn [negb].
  - destruct (position is_coinbase rest); split; try done.
    + intros (? & ? & [= <- <-] & _ & Hr). by apply Hp in Hr.
    + intros _. exists cb, rest. split; [done|]. split; [done|]. by apply Hp.
  - split; [done|]. intros (? & ? & [= <- <-] & Hx & _). congruence.
Qed.

Lemma transactions_in_isolation_iff v txs : 0 <= ghostdag_k v < U16 -> Forall (fun tx => Forall (fun o => 0 <= out_value o) (tx_outputs tx)) txs ->
  transactions_in_isolation v txs = Ok tt <-> Forall (valid_isolated v) txs.
Proof.
  intros Hk. induction 1 as [|tx txs Htx Htxs IH]; cbn [transactions_in_isolation]; [by split|].
  destruct (isolation_decided v tx Hk Htx) as [Hiff Hor]. rewrite Forall_cons, <-IH, <-Hiff. destruct Hor as [-> | [e ->]]; cbn [map_err obind].
  - split; [done|by intros [_ ?]].
  - split; [done|by intros [? _]].
Qed.

Lemma double_spends_iff existing os : double_spends existing os = Ok tt <-> NoDup os /\ Forall (fun o => o ∉ existing) os.
Proof.
  revert existing. induction os as [|o os IH]; intros existing; cbn [double_spends]; [split; [intros _; split; constructor|done]|].
  rewrite NoDup_cons, Forall_cons. case_bool_decide as Ho; [split; [done|tauto]|]. rewrite IH, !Forall_forall. setoid_rewrite not_elem_of_union. setoid_rewrite not_elem_of_singleton.
  split; [intros [Hnd Hf]; split; [split; [|done]|split; [done|]]|intros [[Hn Hnd] [_ Hf]]; split; [done|]].
  - intros Hin. by destruct (Hf o Hin).
  - intros x Hx. by apply Hf.
  - intros x Hx. split; [intros ->; done|by apply Hf].
Qed.

Lemma duplicate_ids_iff ids txs : duplicate_ids ids txs = Ok tt <-> NoDup (List.map tx_id txs) /\ Forall (fun tx => tx_id tx ∉ ids) txs.
Proof.
  revert ids. induction txs as [|tx txs IH]; intros ids; cbn [duplicate_ids List.map]; [split; [intros _; split; constructor|done]|].
  rewrite NoDup_cons, Forall_cons. case_bool_decide as Ho; [split; [done|tauto]|]. rewrite IH, !Forall_forall. setoid_rewrite not_elem_of_union. setoid_rewrite not_elem_of_singleton.
  split; [intros [Hnd Hf]; split; [split; [|done]|split; [done|]]|intros [[Hn Hnd] [_ Hf]]; split; [done|]].
  - intros (x & Heq & Hx)%list_elem_of_fmap. by destruct (Hf x Hx).
  - intros x Hx. by apply Hf.
  - intros x Hx. split; [|by apply Hf]. intros Heq. apply Hn. rewrite <-Heq. by apply (list_elem_of_fmap_2 tx_id).
Qed.

Lemma no_chained_iff block : check_no_chained_transactions block = Ok tt <-> forall o, o ∈ block_inputs block -> o ∉ concat (List.map created_outpoints (b_transactions block)).
Proof.
  unfold check_no_chained_transactions. set (created := concat _). destruct (List.find _ _) as [o|] eqn:Hf.
  - apply List.find_some in Hf as [Hin%list_elem_of_In Ho%bool_decide_eq_true]. rewrite elem_of_list_to_set in Ho. split; [done|]. intros Hall. by apply Hall in Hin.
  - split; [|done]. intros _ o Ho Hc. pose proof (List.find_none _ _ Hf o ltac:(by apply list_elem_of_In)) as Hn. apply bool_decide_eq_false in Hn. by rewrite elem_of_list_to_set in Hn.
Qed.

(** ** Masses *)

Lemma sat_add_bound a b max : 0 <= a -> 0 <= b -> max < U64 - 1 -> (sat_add a b <= max <-> a + b <= max) /\ (sat_add a b <= max -> sat_add a b = a + b).
Proof. unfold sat_add. lia. Qed.

(** The masses of the transactions are not negative. *)
Definition masses_nonneg (mc : MassCalculator) (txs : list Transaction) : Prop :=
  Forall (fun tx => 0 <= tx_mass tx) txs /\
  forall tx m, tx ∈ txs -> calc_non_contextual_masses (E := RuleError) mc tx = Ok m -> 0 <= compute_mass m /\ 0 <= transient_mass m.

Lemma block_mass_iff mc max : max < U64 - 1 -> forall txs c t s r, 0 <= c <= max -> 0 <= t <= max -> 0 <= s <= max -> masses_nonneg mc txs ->
  block_mass mc max c t s txs = Ok r <->
  exists ms, mapM_out (calc_non_contextual_masses (E := RuleError) mc) txs = Ok ms /\
    r = (mk_non_contextual (c + total_mass compute_mass ms) (t + total_mass transient_mass ms), mk_contextual (s + zsum (List.map tx_mass txs))) /\
    c + total_mass compute_mass ms <= max /\ t + total_mass transient_mass ms <= max /\ s + zsum (List.map tx_mass txs) <= max.
Proof.
  intros Hmax. unfold total_mass. induction txs as [|tx txs IH]; intros c t s r Hc Ht Hs [Hmass Hnn]; cbn [block_mass mapM_out].
  { split.
    - intros <-%Ok_inj. exists []. cbn [List.map zsum]. rewrite !Z.add_0_r. split; [done|]. split; [done|lia].
    - intros (ms & <-%Ok_inj & -> & _). cbn [List.map zsum]. by rewrite !Z.add_0_r. }
  apply Forall_cons in Hmass as [Hm0 Hmass].
  assert (Hnn' : masses_nonneg mc txs) by (split; [done|]; intros x m Hx; apply Hnn; by right).
  assert (Hhead := Hnn tx). specialize (fun m => Hhead m ltac:(left)). clear Hnn.
  destruct (calc_non_contextual_masses mc tx) as [m| | |] eqn:Hm; cbn [obind]; [|split; [done|by intros (? & ? & _)]..].
  destruct (Hhead m eq_refl) as [Hmc Hmt].
  assert (Hpos : forall ms, mapM_out (calc_non_contextual_masses (E := RuleError) mc) txs = Ok ms -> 0 <= zsum (List.map compute_mass ms) /\ 0 <= zsum (List.map transient_mass ms)).
  { intros ms Hms. destruct Hnn' as [_ Hn]. clear -Hms Hn. revert ms Hms. induction txs as [|x txs IH]; intros ms; cbn [mapM_out]; [intros <-%Ok_inj; done|].
    intros (y & Hy & (ys & Hys & <-%Ok_inj)%bind_Ok)%bind_Ok. cbn [List.map zsum]. destruct (Hn x y ltac:(left) Hy). destruct (IH (fun z m Hz => Hn z m ltac:(by right)) ys Hys). lia. }
  assert (Hspos : 0 <= zsum (List.map tx_mass txs)) by (apply zsum_nonneg, Forall_map; done).
  destruct (sat_add_bound c (compute_mass m) max ltac:(lia) Hmc Hmax) as [Hc1 Hc2]. destruct (sat_add_bound t (transient_mass m) max ltac:(lia) Hmt Hmax) as [Ht1 Ht2].
  destruct (sat_add_bound s (tx_mass tx) max ltac:(lia) Hm0 Hmax) as [Hs1 Hs2].
  assert (Hout : max < c + compute_mass m \/ max < t + transient_mass m \/ max < s + tx_mass tx ->
    ~ exists ms, (let! x := mapM_out (calc_non_contextual_masses (E := RuleError) mc) txs in Ok (m :: x)) = Ok ms /\
      r = (mk_non_contextual (c + zsum (List.map compute_mass ms)) (t + zsum (List.map transient_mass ms)), mk_contextual (s + zsum (List.map tx_mass (tx :: txs)))) /\
      c + zsum (List.map compute_mass ms) <= max /\ t + zsum (List.map transient_mass ms) <= max /\ s + zsum (List.map tx_mass (tx :: txs)) <= max).
  { intros Hor (ms & (x & Hx & <-%Ok_inj)%bind_Ok & _ & Hl). cbn [List.map zsum] in Hl. destruct (Hpos x Hx). lia. }
  destruct (Z.ltb_spec max (sat_add c (compute_mass m))); [split; [done|]; intros Hex; exfalso; apply Hout; [lia|done]|].
  destruct (Z.ltb_spec max (sat_add t (transient_mass m))); [split; [done|]; intros Hex; exfalso; apply Hout; [lia|done]|].
  destruct (Z.ltb_spec max (sat_add s (tx_mass tx))); [split; [done|]; intros Hex; exfalso; apply Hout; [lia|done]|].
  rewrite Hc2, Ht2, Hs2 by lia. rewrite IH by (done || lia). split.
  - intros (ms & Hms & -> & Hl). exists (m :: ms). rewrite Hms. cbn [obind List.map zsum]. split; [done|]. rewrite !Z.add_assoc. split; [done|]. lia.
  - intros (ms & (x & Hx & <-%Ok_inj)%bind_Ok & -> & Hl). exists x. split; [done|]. cbn [List.map zsum] in *. rewrite !Z.add_assoc in *. split; [done|]. lia.
Qed.

Lemma mapM_sum_nonneg {E A} (f : A -> outcome E Z) l ys : (forall x y, x ∈ l -> f x = Ok y -> 0 <= y) -> mapM_out f l = Ok ys -> 0 <= zsum ys.
Proof.
  revert ys. induction l as [|x l IH]; intros ys Hf; cbn [mapM_out]; [intros <-%Ok_inj; done|].
  intros (y & Hy & (zs & Hzs & <-%Ok_inj)%bind_Ok)%bind_Ok. cbn [zsum]. pose proof (Hf x y ltac:(left) Hy). pose proof (IH zs (fun z w Hz => Hf z w ltac:(by right)) Hzs). lia.
Qed.

Lemma serialized_size_nonneg {E} tx r : @transaction_estimated_serialized_size E tx = Ok r -> 0 <= r.
Proof.
  unfold transaction_estimated_serialized_size.
  intros (ins & Hins & (a & ->%sum64_Ok & (b & [-> _]%uadd_Ok & (c & [-> _]%uadd_Ok & (outs & Houts & (d & ->%sum64_Ok & (e & [-> _]%uadd_Ok & (f & [-> _]%uadd_Ok & [-> _]%uadd_Ok)%bind_Ok)%bind_Ok)%bind_Ok)%bind_Ok)%bind_Ok)%bind_Ok)%bind_Ok)%bind_Ok.
  apply mapM_sum_nonneg in Hins; [|intros x y _ (z & [-> _]%uadd_Ok & [-> _]%uadd_Ok)%bind_Ok; unfold outpoint_estimated_serialized_size, HASH_SIZE; lia].
  apply mapM_sum_nonneg in Houts; [|intros x y _ [-> _]%uadd_Ok; lia]. unfold SUBNETWORK_ID_SIZE, HASH_SIZE. lia.
Qed.

(** The fields of the parameters and of the transactions are unsigned. *)
Definition unsigned_fields (mc : MassCalculator) (txs : list Transaction) : Prop :=
  0 <= mass_per_tx_byte mc /\ 0 <= mass_per_script_pub_key_byte mc /\ 0 <= mass_per_sig_op mc /\
  Forall (fun tx => 0 <= tx_mass tx /\ Forall (fun o => 0 <= out_value o) (tx_outputs tx) /\ Forall (fun i => 0 <= in_sig_op_count i) (tx_inputs tx)) txs.

Lemma unsigned_masses mc txs : unsigned_fields mc txs -> masses_nonneg mc txs.
Proof.
  intros (Hb & Hs & Ho & Hf). split; [eapply Forall_impl; [exact Hf|]; by intros x [? _]|]. intros tx m Htx. rewrite Forall_forall in Hf. destruct (Hf tx Htx) as (_ & _ & Hsig).
  unfold calc_non_contextual_masses. destruct (is_coinbase tx); [intros <-%Ok_inj; cbn; lia|].
  intros (a & Ha%serialized_size_nonneg & (b & [-> _]%umul_Ok & (c & Hc & (d & ->%sum64_Ok & (e & [-> _]%umul_Ok & (f & ->%sum64_Ok & (g & [-> _]%umul_Ok & (h & [-> _]%uadd_Ok & (i & [-> _]%uadd_Ok & (j & [-> _]%umul_Ok & <-%Ok_inj)%bind_Ok)%bind_Ok)%bind_Ok)%bind_Ok)%bind_Ok)%bind_Ok)%bind_Ok)%bind_Ok)%bind_Ok)%bind_Ok.
  apply mapM_sum_nonneg in Hc; [|intros x y _ [-> _]%uadd_Ok; lia]. assert (0 <= zsum (List.map in_sig_op_count (tx_inputs tx))) by (by apply zsum_nonneg, Forall_map).
  cbn [compute_mass transient_mass]. unfold TRANSIENT_BYTE_TO_MASS_FACTOR. nia.
Qed.

(** C20: Validation of a block body in isolation accepts exactly the bodies that start with
    their only coinbase transaction, match the Merkle root of the header, consist of
    transactions valid in isolation with distinct ids, neither double spend nor spend
    outputs of the same block, and whose three masses are within the limit; it returns the
    exact masses. *)
Theorem body_isolation_exact (H : HashDomain -> bytes -> N) v mc max block c t s :
  0 <= max < U64 - 1 -> 0 <= ghostdag_k v < U16 -> unsigned_fields mc (b_transactions block) ->
  validate_body_in_isolation H v mc max block = Ok (mk_non_contextual c t, mk_contextual s) <-> valid_body H v mc max block c t s.
Proof.
  intros Hmax Hk Huns. pose proof (unsigned_masses _ _ Huns) as Hnn.
  assert (Hout : Forall (fun tx => Forall (fun o => 0 <= out_value o) (tx_outputs tx)) (b_transactions block)) by (eapply Forall_impl; [apply Huns|]; by intros x (_ & ? & _)).
  pose proof (block_mass_iff mc max ltac:(lia) (b_transactions block) 0 0 0 (mk_non_contextual c t, mk_contextual s) ltac:(lia) ltac:(lia) ltac:(lia) Hnn) as Hbm.
  pose proof (only_one_coinbase_iff block) as Hcb. pose proof (transactions_in_isolation_iff v (b_transactions block) Hk Hout) as Hiso.
  pose proof (duplicate_ids_iff ∅ (b_transactions block)) as Hdup. pose proof (double_spends_iff ∅ (block_inputs block)) as Hds. pose proof (no_chained_iff block) as Hch.
  unfold validate_body_in_isolation. split.
  - intros ([] & _ & ([] & Hroot & ([] & Hone & ([] & Htx & (m & Hm & ([] & Hd & ([] & Hs & ([] & Hc & ->%Ok_inj)%bind_Ok)%bind_Ok)%bind_Ok)%bind_Ok)%bind_Ok)%bind_Ok)%bind_Ok)%bind_Ok.
    unfold check_hash_merkle_root in Hroot. apply bind_Ok in Hroot as (root & Hroot & Hr). destruct (N.eqb_spec root (h_hash_merkle_root (b_header block))) as [->|]; [|done].
    apply Hbm in Hm as (ms & Hms & Heq & Hl). injection Heq as -> -> ->. split; [by apply Hcb|done|by apply Hiso|by exists ms|lia|by apply Hdup|by apply Hds|by apply Hch].
  - intros [Hone Hroot Htx (ms & Hms & -> & -> & ->) Hlim Hids Hins Hun]. pose proof Hone as (cb & rest & Ht & _).
    unfold check_has_transactions. rewrite bool_decide_eq_false_2 by (by rewrite Ht). cbn [obind].
    unfold check_hash_merkle_root. rewrite Hroot. cbn [obind]. rewrite N.eqb_refl. cbn [negb obind]. apply Hcb in Hone as ->. cbn [obind].
    unfold check_transactions_in_isolation. apply Hiso in Htx as ->. cbn [obind].
    unfold check_block_mass. rewrite (proj2 Hbm) by (exists ms; rewrite !Z.add_0_l; done). cbn [obind].
    unfold check_duplicate_transactions. rewrite (proj2 Hdup) by (split; [done|]; apply Forall_forall; intros ? _; apply not_elem_of_empty). cbn [obind].
    unfold check_block_double_spends. rewrite (proj2 Hds) by (split; [done|]; apply Forall_forall; intros ? _; apply not_elem_of_empty). cbn [obind].
    by rewrite (proj2 Hch Hun).
Qed.

(** ** In context *)

(** A body accepted in context has a coinbase that commits to the blue score of the header
    and to the subsidy of its DAA score. *)
Lemma in_context_coinbase cm statuses pmt block : validate_body_in_context cm statuses pmt block = Ok tt ->
  exists cb data, b_transactions block !! 0%nat = Some cb /\ deserialize_coinbase_payload cm (tx_payload cb) = Ok data /\
    cd_blue_score data = h_blue_score (b_header block) /\ calc_block_subsidy (E := RuleError) cm (h_daa_score (b_header block)) = Ok (cd_subsidy data).
Proof.
  unfold validate_body_in_context, check_coinbase_blue_score_and_subsidy.
  intros (_ & _ & ([] & (cb & Hcb%unwrap_Ok & (data & Hdata & Hrest)%bind_Ok)%bind_Ok & _)%bind_Ok)%bind_Ok. exists cb, data. split; [done|].
  destruct (deserialize_coinbase_payload cm (tx_payload cb)) as [d| | |]; cbn [map_err] in Hdata; try discriminate. apply Ok_inj in Hdata as ->. split; [done|].
  destruct (Z.eqb_spec (cd_blue_score data) (h_blue_score (b_header block))) as [He|]; [|discriminate]. split; [done|]. cbn [negb] in Hrest.
  apply bind_Ok in Hrest as (sub & -> & Hs). destruct (Z.eqb_spec (cd_subsidy data) sub) as [->|]; [done|discriminate].
Qed.

(** ** Instances *)

Definition bx_hash (d : HashDomain) (bs : bytes) : N := Z.to_N (of_le_bytes (take 30 bs)).
Definition bx_coinbase : Transaction := mk_tx 0 [] [mk_output 500 (mk_spk 0 [1; 172])] 0 SUBNETWORK_ID_COINBASE 0 [7; 8] 0 1%N.
Definition bx_spend : Transaction := mk_tx 0 [mk_input (9%N, 0%N) [1; 2] 0 1] [mk_output 80 (mk_spk 0 [2; 172])] 0 SUBNETWORK_ID_NATIVE 0 [] 25 2%N.
Definition bx_root : N := Eval vm_compute in match calc_hash_merkle_root (E := RuleError) bx_hash [bx_coinbase; bx_spend] with Ok r => r | _ => 0%N end.
Definition bx_block : Block := mk_block (mk_header 3%N 1 [] bx_root 0%N 0%N 0 0 0 0 0 0 0%N) [bx_coinbase; bx_spend].

Lemma body_isolation_exact_witness : valid_body bx_hash tx_validator (mk_calculator 1 2 800 50) 500000 bx_block 976 672 25.
Proof.
  apply (body_isolation_exact bx_hash tx_validator (mk_calculator 1 2 800 50) 500000 bx_block).
  - lia.
  - vm_compute. split; [discriminate|reflexivity].
  - repeat (split; [cbn; lia|]). repeat (apply Forall_cons_2; [split; [cbn; lia|split; cbn; repeat (apply Forall_cons_2; [cbn; lia|]); apply Forall_nil_2]|]). apply Forall_nil_2.
  - vm_compute. reflexivity.
Defined.
