(* ===== verification/MergesetOrder.v ===== *)
(** * The consensus order of a mergeset

    Model of the iterators of [GhostdagData] in consensus/src/model/stores/ghostdag.rs: the
    stored blues and reds of a block are merged by blue work and hash.  An iterator is the
    list it yields; an [unwrap] of a missing block is a panic when the list is read.
    [merge_join_by] of itertools is the class [MergeJoin].

    The theorems tie the iterators to the protocol: they recover the ordered mergeset from
    which GHOSTDAG computed the colours, and that order is topological. *)

From Stdlib Require Import ZArith Lia Bool.
From stdpp Require Import base gmap numbers sorting list.
From S2P Require Import Prelude Interval ReachabilityStore ReachabilityQueries ReachabilityTree ReachabilityDag ReachabilityProps Uint GhostdagStore Difficulty Ghostdag GhostdagColor GhostdagMergeset GhostdagBlocks GhostdagProps.

#[local] Open Scope Z_scope.

(** [EitherOrBoth] of two iterators over the same type. *)
Inductive EitherOrBoth (A : Type) :=
| EitherLeft (a : A)
| EitherRight (a : A)
| EitherBoth (a b : A).
Arguments EitherLeft {A}.
Arguments EitherRight {A}.
Arguments EitherBoth {A}.

Class MergeJoin := merge_join_by : forall {A : Type}, (A -> A -> comparison) -> list A -> list A -> list (EitherOrBoth A).

(** The documented behaviour: the lesser head first, equal heads together. *)
Class MergeJoinSpec `{MergeJoin} : Prop := {
  mj_nil_l {A} (cmp : A -> A -> comparison) ys : merge_join_by cmp [] ys = List.map EitherRight ys;
  mj_nil_r {A} (cmp : A -> A -> comparison) xs : merge_join_by cmp xs [] = List.map EitherLeft xs;
  mj_cons {A} (cmp : A -> A -> comparison) x xs y ys : merge_join_by cmp (x :: xs) (y :: ys) =
    match cmp x y with
    | Lt => EitherLeft x :: merge_join_by cmp xs (y :: ys)
    | Gt => EitherRight y :: merge_join_by cmp (x :: xs) ys
    | Eq => EitherBoth x y :: merge_join_by cmp xs ys
    end
}.

Section Iterators.
Context {St : Type} `{GhostdagStoreReader St} `{MergeJoin} (store : St).

Definition with_work (h : N) : panics SortableBlock := let! w := unwrap_res (get_blue_work store h) in Ok (mk_sortable h w).

(** Distinct blocks are never equal. *)
Definition either_block (r : EitherOrBoth SortableBlock) : panics SortableBlock :=
  match r with
  | EitherLeft b | EitherRight b => Ok b
  | EitherBoth _ _ => Panic
  end.

Definition ascending_mergeset_without_selected_parent (self : GhostdagData) : panics (list SortableBlock) :=
  let! blues := mapM_out with_work (drop 1 (gd_mergeset_blues self)) in
  let! reds := mapM_out with_work (gd_mergeset_reds self) in
  mapM_out either_block (merge_join_by sortable_cmp blues reds).

Definition descending_mergeset_without_selected_parent (self : GhostdagData) : panics (list SortableBlock) :=
  let! blues := mapM_out with_work (reverse (drop 1 (gd_mergeset_blues self))) in
  let! reds := mapM_out with_work (reverse (gd_mergeset_reds self)) in
  mapM_out either_block (merge_join_by (fun a b => sortable_cmp b a) blues reds).

Definition consensus_ordered_mergeset_without_selected_parent (self : GhostdagData) : panics (list N) :=
  let! l := ascending_mergeset_without_selected_parent self in
  Ok (List.map sb_hash l).

Definition consensus_ordered_mergeset (self : GhostdagData) : panics (list N) :=
  let! l := consensus_ordered_mergeset_without_selected_parent self in
  Ok (gd_selected_parent self :: l).
End Iterators.

(** ** Merging undoes splitting *)

(** Each element of a list goes to one of two sublists. *)
Inductive splits {A} : list A -> list A -> list A -> Prop :=
| splits_nil : splits [] [] []
| splits_l x l b r : splits l b r -> splits (x :: l) (x :: b) r
| splits_r x l b r : splits l b r -> splits (x :: l) b (x :: r).

Lemma splits_app {A} (l1 l2 b1 b2 r1 r2 : list A) : splits l1 b1 r1 -> splits l2 b2 r2 -> splits (l1 ++ l2) (b1 ++ b2) (r1 ++ r2).
Proof. intros H1 H2. induction H1; cbn [app]; [done|by constructor..]. Qed.

Lemma splits_reverse {A} (l b r : list A) : splits l b r -> splits (reverse l) (reverse b) (reverse r).
Proof.
  induction 1 as [|x l b r Hs IH|x l b r Hs IH]; [constructor| |]; rewrite !reverse_cons.
  - rewrite <-(app_nil_r (reverse r)). apply splits_app; [done|]. repeat constructor.
  - rewrite <-(app_nil_r (reverse b)). apply splits_app; [done|]. repeat constructor.
Qed.

Lemma splits_map {A B} (f : A -> B) l b r : splits l b r -> splits (List.map f l) (List.map f b) (List.map f r).
Proof. induction 1; cbn [List.map]; by constructor. Qed.

Lemma splits_elem {A} (l b r : list A) x : splits l b r -> x ∈ l <-> x ∈ b \/ x ∈ r.
Proof. induction 1 as [|y l b r Hs IH|y l b r Hs IH]; rewrite ?elem_of_cons, ?elem_of_nil; tauto. Qed.

Lemma splits_nil_l {A} (l r : list A) : splits l [] r -> l = r.
Proof. remember [] as b. induction 1; [done|done|]. f_equal. auto. Qed.
Lemma splits_nil_r {A} (l b : list A) : splits l b [] -> l = b.
Proof. remember [] as r. induction 1; [done| |done]. f_equal. auto. Qed.

Lemma greedy_splits anc k base sp cands : exists b, (greedy anc k base sp cands).1 = sp :: b /\ splits cands b (greedy anc k base sp cands).2.
Proof.
  unfold greedy. assert (Hgen : forall cands st l b, st.1 = sp :: b -> splits l b st.2 ->
    exists b', (foldl (greedy_step anc k base) st cands).1 = sp :: b' /\ splits (l ++ cands) b' (foldl (greedy_step anc k base) st cands).2).
  { clear cands. induction cands as [|c cands IH]; intros st l b Hst Hs; cbn [foldl]; [exists b; by rewrite app_nil_r|].
    replace (l ++ c :: cands) with ((l ++ [c]) ++ cands) by (by rewrite <-app_assoc). unfold greedy_step at 2 4.
    destruct (k_cluster_b _ _ _); (eapply IH; [cbn [fst]; rewrite Hst; reflexivity|]); cbn [snd].
    - rewrite <-(app_nil_r st.2). apply splits_app; [done|repeat constructor].
    - rewrite <-(app_nil_r b). apply splits_app; [done|repeat constructor]. }
  apply (Hgen cands ([sp], []) [] []); [done|constructor].
Qed.

Section Merging.
Context `{MergeJoinSpec}.

Lemma merge_splits (cmp : SortableBlock -> SortableBlock -> comparison) (l b r : list SortableBlock) :
  (forall x y, cmp x y = Lt -> cmp y x = Gt) -> StronglySorted (fun x y => cmp x y = Lt) l -> splits l b r ->
  mapM_out either_block (merge_join_by cmp b r) = Ok l.
Proof.
  intros Hopp Hs Hsp. induction Hsp as [|x l b r Hsp IH|x l b r Hsp IH].
  - by rewrite mj_nil_l.
  - apply StronglySorted_inv in Hs as [Hs Hx]. specialize (IH Hs). destruct r as [|y r].
    + rewrite mj_nil_r in IH |- *. cbn [List.map mapM_out either_block obind]. by rewrite IH.
    + rewrite mj_cons. rewrite Forall_forall in Hx. rewrite (Hx y) by (eapply splits_elem; [done|]; right; left). cbn [mapM_out either_block obind]. by rewrite IH.
  - apply StronglySorted_inv in Hs as [Hs Hx]. specialize (IH Hs). destruct b as [|y b].
    + rewrite mj_nil_l in IH |- *. cbn [List.map mapM_out either_block obind]. by rewrite IH.
    + rewrite mj_cons. rewrite Forall_forall in Hx. rewrite (Hopp x y) by (apply Hx; eapply splits_elem; [done|]; left; left). cbn [mapM_out either_block obind]. by rewrite IH.
Qed.

Lemma sortable_cmp_opp x y : sortable_cmp x y = CompOpp (sortable_cmp y x).
Proof. unfold sortable_cmp. rewrite (Z.compare_antisym (sb_blue_work y)), (N.compare_antisym (sb_hash y)). by destruct (sb_blue_work y ?= sb_blue_work x). Qed.

Lemma sortable_lt x y : sortable_le x y -> sb_hash x <> sb_hash y -> sortable_cmp x y = Lt.
Proof.
  unfold sortable_le, sortable_cmp. intros Hle Hne. destruct (Z.compare_spec (sb_blue_work x) (sb_blue_work y)); [|done|done].
  destruct (N.compare_spec (sb_hash x) (sb_hash y)); done.
Qed.

Lemma sorted_reverse {A} (R : A -> A -> Prop) l : StronglySorted R l -> StronglySorted (flip R) (reverse l).
Proof.
  induction 1 as [|x l Hs IH Hx]; [constructor|]. rewrite reverse_cons. apply StronglySorted_app_2; [|done|repeat constructor].
  intros y z Hy ->%list_elem_of_singleton. rewrite Forall_forall in Hx. unfold flip. apply Hx. by apply elem_of_reverse.
Qed.

(** A merge that meets no equal blocks is a permutation. *)
Lemma merge_perm (cmp : SortableBlock -> SortableBlock -> comparison) : forall b r l, mapM_out either_block (merge_join_by cmp b r) = Ok l -> l ≡ₚ b ++ r.
Proof.
  assert (Hmap : forall (f : SortableBlock -> EitherOrBoth SortableBlock) (Hf : forall x, either_block (f x) = Ok x) xs, mapM_out either_block (List.map f xs) = Ok xs).
  { intros f Hf xs. induction xs as [|x xs IH]; [done|]. cbn [List.map mapM_out]. rewrite Hf. cbn [obind]. by rewrite IH. }
  induction b as [|x b IHb]; intros r l; [rewrite mj_nil_l, Hmap by done; by intros <-%Ok_inj|]. revert l. induction r as [|y r IHr]; intros l.
  { rewrite mj_nil_r, Hmap by done. intros <-%Ok_inj. by rewrite app_nil_r. }
  rewrite mj_cons. destruct (cmp x y); cbn [mapM_out either_block obind]; [done| |].
  - intros (l' & Hl' & <-%Ok_inj)%bind_Ok. cbn [app]. constructor. by apply IHb.
  - intros (l' & Hl' & <-%Ok_inj)%bind_Ok. rewrite (IHr l' Hl'). apply Permutation_middle.
Qed.
End Merging.

(** ** The iterators recover the coloured order *)

Section Recover.
Context {St : Type} `{GhostdagStoreReader St} `{MergeJoinSpec} (store : St) (S : gmap N GhostdagData).
Hypothesis Hreads : reads_map store S.

Lemma with_work_spec h : is_Some (S !! h) -> with_work store h = Ok (key_of S h).
Proof using Hreads. intros [D HD]. unfold with_work, key_of, work_of. rewrite (rm_work (m := S)), HD. done. Qed.

Lemma keys_sorted cands : NoDup cands -> StronglySorted (fun x y => sortable_le (key_of S x) (key_of S y)) cands ->
  StronglySorted (fun x y => sortable_cmp x y = Lt) (List.map (key_of S) cands).
Proof using.
  intros Hnd Hs. induction Hs as [|x l Hs IH Hx]; cbn [List.map]; [constructor|]. apply NoDup_cons in Hnd as [Hn Hnd]. constructor; [auto|].
  apply Forall_map, Forall_forall. intros y Hy. rewrite Forall_forall in Hx. apply sortable_lt; [auto|]. cbn. by intros ->.
Qed.

Lemma iterators_spec (D : GhostdagData) cands b : (forall x, x ∈ cands -> is_Some (S !! x)) -> NoDup cands ->
  StronglySorted (fun x y => sortable_le (key_of S x) (key_of S y)) cands ->
  gd_mergeset_blues D = gd_selected_parent D :: b -> splits cands b (gd_mergeset_reds D) ->
  ascending_mergeset_without_selected_parent store D = Ok (List.map (key_of S) cands) /\
  descending_mergeset_without_selected_parent store D = Ok (reverse (List.map (key_of S) cands)) /\
  consensus_ordered_mergeset store D = Ok (gd_selected_parent D :: cands).
Proof using Hreads H1.
  intros Hkn Hnd Hs Hb Hsp.
  assert (Hkb : forall x, x ∈ b -> with_work store x = Ok (key_of S x)) by (intros x Hx; apply with_work_spec, Hkn; eapply splits_elem; eauto).
  assert (Hkr : forall x, x ∈ gd_mergeset_reds D -> with_work store x = Ok (key_of S x)) by (intros x Hx; apply with_work_spec, Hkn; eapply splits_elem; eauto).
  pose proof (keys_sorted cands Hnd Hs) as Hlt.
  assert (Hasc : ascending_mergeset_without_selected_parent store D = Ok (List.map (key_of S) cands)).
  { unfold ascending_mergeset_without_selected_parent. rewrite Hb. change (drop 1 (gd_selected_parent D :: b)) with b.
    rewrite (mapM_out_Ok _ (key_of S) b) by auto. cbn [obind]. rewrite (mapM_out_Ok _ (key_of S)) by auto. cbn [obind].
    apply merge_splits; [|done|by apply splits_map]. intros x y Hxy. by rewrite sortable_cmp_opp, Hxy. }
  split; [done|]. split.
  - unfold descending_mergeset_without_selected_parent. rewrite Hb. change (drop 1 (gd_selected_parent D :: b)) with b.
    rewrite (mapM_out_Ok _ (key_of S) (reverse b)) by (intros x Hx; rewrite elem_of_reverse in Hx; auto). cbn [obind].
    rewrite (mapM_out_Ok _ (key_of S)) by (intros x Hx; rewrite elem_of_reverse in Hx; auto). cbn [obind].
    replace (reverse (List.map (key_of S) cands)) with (List.map (key_of S) (reverse cands)) by (apply (fmap_reverse (key_of S))). apply merge_splits.
    + intros x y Hxy. by rewrite sortable_cmp_opp, Hxy.
    + rewrite (fmap_reverse (key_of S) cands : List.map _ _ = _). apply (sorted_reverse (fun x y => sortable_cmp x y = Lt)), Hlt.
    + apply splits_map, splits_reverse, Hsp.
  - unfold consensus_ordered_mergeset, consensus_ordered_mergeset_without_selected_parent. rewrite Hasc. cbn [obind]. rewrite List.map_map. cbn. by rewrite List.map_id.
Qed.
End Recover.

(** The consensus order permutes the mergeset. *)
Lemma consensus_perm {St : Type} `{GhostdagStoreReader St} `{MergeJoinSpec} (store : St) D l : consensus_ordered_mergeset_without_selected_parent store D = Ok l ->
  l ≡ₚ unordered_mergeset_without_sp D.
Proof.
  unfold consensus_ordered_mergeset_without_selected_parent, ascending_mergeset_without_selected_parent.
  intros (s & (b & Hb & (r & Hr & Hs)%bind_Ok)%bind_Ok & <-%Ok_inj)%bind_Ok. apply merge_perm in Hs. rewrite Hs, List.map_app. unfold unordered_mergeset_without_sp.
  assert (Hgen : forall hs ks, mapM_out (with_work store) hs = Ok ks -> List.map sb_hash ks = hs).
  { induction hs as [|h hs IH]; intros ks; cbn [mapM_out]; [by intros <-%Ok_inj|]. intros (k & (w & _ & <-%Ok_inj)%bind_Ok & (ks' & Hks & <-%Ok_inj)%bind_Ok)%bind_Ok. cbn. by rewrite (IH ks'). }
  by rewrite (Hgen _ _ Hb), (Hgen _ _ Hr).
Qed.

(** ** Topological order *)

Lemma sorted_index {A} (R : A -> A -> Prop) l i j x y : StronglySorted R l -> l !! i = Some x -> l !! j = Some y -> ~ R y x -> x <> y -> (i < j)%nat.
Proof.
  intros Hs. revert i j. induction Hs as [|z l Hs IH Hz]; intros i j Hi Hj Hn Hne; [done|]. rewrite Forall_forall in Hz.
  destruct i as [|i], j as [|j]; cbn in Hi, Hj; [congruence|lia| |].
  - injection Hj as ->. exfalso. apply Hn, Hz. by eapply list_elem_of_lookup_2.
  - specialize (IH i j Hi Hj Hn Hne). lia.
Qed.

Lemma order_topological genesis k w G anc S sp ps cands : ghostdag_ok genesis k w G anc S -> (sp ∈ ps) -> (forall p, p ∈ ps -> is_Some (G !! p)) ->
  (forall x, x ∈ cands <-> mergeset_of G sp ps x) -> NoDup cands -> StronglySorted (fun x y => sortable_le (key_of S x) (key_of S y)) cands ->
  forall i j x y, (sp :: cands) !! i = Some x -> (sp :: cands) !! j = Some y -> dag_anc G x y -> x <> y -> (i < j)%nat.
Proof.
  intros Hok Hsp Hps Hc Hnd Hs i j x y Hi Hj Hd Hne.
  destruct i as [|i]; destruct j as [|j]; cbn in Hi, Hj; [congruence|lia| |].
  - injection Hj as ->. assert (Hx : x ∈ cands) by (by eapply list_elem_of_lookup_2). apply Hc in Hx as [_ Hx]. done.
  - apply (proj1 (Nat.succ_lt_mono i j)). apply (sorted_index _ _ i j x y Hs Hi Hj); [|done].
    assert (Hx : x ∈ cands) by (by eapply list_elem_of_lookup_2). apply Hc in Hx as [_ Hx].
    destruct (dag_known_l _ _ _ _ _ _ Hok _ _ Hd) as [Dx HDx]. destruct (dag_known_r _ _ _ _ _ _ Hok _ _ Hd) as [Dy HDy].
    assert (Ho : x <> hash_ORIGIN) by (intros ->; apply Hx, (go_root _ _ _ _ _ _ Hok), Hps, Hsp).
    pose proof (work_increasing _ _ _ _ _ _ Hok x y Dx Dy Hd Hne Ho HDx HDy) as Hw.
    rewrite sortable_le_iff. unfold key_of, work_of. cbn. rewrite HDx, HDy. lia.
Qed.

(** A block on top of the origin has the origin as its only blue. *)
Lemma origin_data {St U H : Type} `{GhostdagStoreReader St} `{ReachabilityService U} `{HeaderStoreReader H}
    (fuel : nat) (self : GhostdagManager St U H) (G : dag) (anc : N -> N -> bool) (S : gmap N GhostdagData) (w : N -> Z) (ps : list N) D :
  ghostdag_ok (gm_genesis_hash self) (gm_k self) w G anc S -> serves self G anc S w -> parents_ok G ps ->
  Z.of_nat (size (dom G)) < U64 -> (length ps + 2 * size (dom G) + 4 <= fuel)%nat ->
  ghostdag fuel self ps = Ok D -> gd_selected_parent D = hash_ORIGIN -> gd_mergeset_blues D = [hash_ORIGIN] /\ gd_mergeset_reds D = [].
Proof.
  intros Hok [Hr Hrel Hreach Hw Hk] [Hne Hkn Hanti] Hsz Hf HD Ho.
  assert (HknS : forall p, p ∈ ps -> is_Some (S !! p)) by (intros p Hp; by apply (go_dom _ _ _ _ _ _ Hok), Hkn).
  destruct (find_selected_parent_spec self S Hr ps Hne HknS) as (sp & Hfind & Hin & Hmax). destruct (decide (sp = hash_ORIGIN)) as [->|Hspo].
  - destruct (ghostdag_on_origin fuel self G anc S w ps Hok Hr Hrel Hreach Hw Hk Hsz Hf HknS Hanti Hfind Hin) as (HD' & _). cbv zeta in HD'.
    rewrite HD in HD'. by apply Ok_inj in HD' as ->.
  - destruct (HknS sp Hin) as [D' HD']. destruct (go_blocks _ _ _ _ _ _ Hok sp D' HD' Hspo) as (base & Hb).
    destruct (ghostdag_selected fuel self G anc S w ps Hok Hr Hrel Hreach Hw Hk Hsz Hf HknS Hanti sp D' base Hin Hspo HD' Hb Hfind) as (D1 & cands & HD1 & Hsp & _).
    rewrite HD in HD1. apply Ok_inj in HD1 as ->. congruence.
Qed.

(** C11: The iterators over the stored colours of a new block recover the ordered mergeset
    that GHOSTDAG coloured: they yield each merged block once, ascending or descending by
    blue work and hash, without ever meeting equal blocks.  The consensus order, selected
    parent first, is topological: a block comes after every block of its past. *)
Theorem consensus_order_topological {St U H : Type} `{GhostdagStoreReader St} `{ReachabilityService U} `{HeaderStoreReader H} `{MergeJoinSpec}
    (fuel : nat) (self : GhostdagManager St U H) (G : dag) (anc : N -> N -> bool) (S : gmap N GhostdagData) (w : N -> Z) (ps : list N) :
  ghostdag_ok (gm_genesis_hash self) (gm_k self) w G anc S -> serves self G anc S w -> parents_ok G ps ->
  Z.of_nat (size (dom G)) < U64 -> (length ps + 2 * size (dom G) + 4 <= fuel)%nat ->
  exists D cands, ghostdag fuel self ps = Ok D /\
    (forall x, x ∈ cands <-> mergeset_of G (gd_selected_parent D) ps x) /\ NoDup cands /\
    ascending_mergeset_without_selected_parent (gm_ghostdag_store self) D = Ok (List.map (key_of S) cands) /\
    descending_mergeset_without_selected_parent (gm_ghostdag_store self) D = Ok (reverse (List.map (key_of S) cands)) /\
    StronglySorted (fun x y => sortable_le (key_of S x) (key_of S y)) cands /\
    consensus_ordered_mergeset (gm_ghostdag_store self) D = Ok (gd_selected_parent D :: cands) /\
    forall i j x y, (gd_selected_parent D :: cands) !! i = Some x -> (gd_selected_parent D :: cands) !! j = Some y ->
      dag_anc G x y -> x <> y -> (i < j)%nat.
Proof.
  intros Hok Hs Hp Hsz Hf. destruct (ghostdag_spec fuel self G anc S w ps Hok Hs Hp Hsz Hf) as (D & l & HD & Hin & _ & _ & [Hnd Hms] & _ & Hg).
  assert (Hex : exists cands b, (forall x, x ∈ cands <-> mergeset_of G (gd_selected_parent D) ps x) /\ NoDup cands /\
    StronglySorted (fun x y => sortable_le (key_of S x) (key_of S y)) cands /\ gd_mergeset_blues D = gd_selected_parent D :: b /\ splits cands b (gd_mergeset_reds D)).
  { destruct (decide (gd_selected_parent D = hash_ORIGIN)) as [He|Ho].
    - destruct (origin_data fuel self G anc S w ps D Hok Hs Hp Hsz Hf HD He) as [Hb Hr]. exists [], []. rewrite Hr, He. split_and!; [|constructor|constructor|done|constructor].
      intros x. rewrite <-He, <-Hms. unfold unordered_mergeset_without_sp. by rewrite Hb, Hr.
    - destruct (Hg Ho) as (D' & base & cands & _ & _ & Hc & Hndc & Hsort & Hgr & _). destruct (greedy_splits anc (gm_k self) base (gd_selected_parent D) cands) as (b & Hb & Hsp).
      rewrite <-Hgr in Hb, Hsp. exists cands, b. done. }
  destruct Hex as (cands & b & Hc & Hndc & Hsort & Hb & Hsp). exists D, cands.
  assert (Hkn : forall x, x ∈ cands -> is_Some (S !! x)) by (intros x [(p & Hpp & Hd) _]%Hc; by eapply dag_known_l).
  destruct (iterators_spec (gm_ghostdag_store self) S (sv_reads _ _ _ _ _ Hs) D cands b Hkn Hndc Hsort Hb Hsp) as (Ha & Hde & Hco).
  split_and!; try done. eapply order_topological; [done|exact Hin|apply (pa_known _ _ Hp)|done..].
Qed.

(** ** Instances *)

Fixpoint merge_join {A} (cmp : A -> A -> comparison) (xs : list A) : list A -> list (EitherOrBoth A) :=
  fix inner ys :=
    match xs, ys with
    | [], _ => List.map EitherRight ys
    | _, [] => List.map EitherLeft xs
    | x :: xs', y :: ys' =>
        match cmp x y with
        | Lt => EitherLeft x :: merge_join cmp xs' ys
        | Gt => EitherRight y :: inner ys'
        | Eq => EitherBoth x y :: merge_join cmp xs' ys'
        end
    end.
#[local] Existing Instance constant_headers.
#[local] Instance ex_merge_join : MergeJoin := @merge_join.
#[local] Instance ex_merge_join_spec : MergeJoinSpec.
Proof. split; intros A cmp; [by intros [|]|by intros [|]|]. intros x xs y ys. unfold merge_join_by, ex_merge_join. cbn [merge_join]. by destruct (cmp x y). Qed.

Lemma consensus_order_topological_witness :
  exists D cands, ghostdag 50 (ex_manager_of gG3 gS3 gr3) [2%N; 3%N] = Ok D /\
    consensus_ordered_mergeset (gm_ghostdag_store (ex_manager_of gG3 gS3 gr3)) D = Ok (gd_selected_parent D :: cands).
Proof.
  destruct (consensus_order_topological 50 (ex_manager_of gG3 gS3 gr3) gG3 (query gr3) gS3 exw_of [2%N; 3%N] gS3_ok g3_serves g3_parents)
    as (D & cands & HD & _ & _ & _ & _ & _ & Hc & _); [by vm_compute|by apply (Nat.leb_le _ 50); vm_compute|]. exists D, cands. split; [exact HD|exact Hc].
Defined.
