(* ===== verification/BlockDepth.v ===== *)
(** * Chain iterators and blocks at a depth

    Model of the iterators of consensus/src/model/services/reachability.rs, which walk the
    selected chain up and down, and of consensus/src/processes/block_depth.rs: the block of
    the selected chain at a given blue score depth, found by walking up from the one stored
    for the selected parent.  The iterators yield what the path in the tree holds, and the
    walk finds the block that a search of the whole chain would. *)

From Stdlib Require Import ZArith Lia Bool.
From stdpp Require Import base gmap numbers list.
From S2P Require Import Prelude ReachabilityStore ReachabilityQueries ReachabilityTree ReachabilityProps GhostdagStore Difficulty.

#[local] Open Scope Z_scope.

(** ** Loops over an iterator *)

(** What the body of a [for] loop decides. *)
Inductive Flow (A : Type) :=
| Continue (a : A)
| Break (a : A).
Arguments Continue {A}.
Arguments Break {A}.

Fixpoint for_each {E A B} (body : A -> B -> outcome E (Flow A)) (acc : A) (l : list B) : outcome E A :=
  match l with
  | [] => Ok acc
  | x :: l' =>
      let! r := body acc x in
      match r with
      | Continue acc => for_each body acc l'
      | Break acc => Ok acc
      end
  end.

(** ** The iterators *)

Section Iterators.
Context {R : Type} `{ReachabilityStore R} {A : Type} (store : R) (body : A -> N -> panics (Flow A)).

(** A loop over [ForwardChainIterator]: the iterator has moved on before the body runs. *)
Fixpoint forward_chain_for (fuel : nat) (descendant : N) (inclusive : bool) (acc : A) (current : N) : panics A :=
  match fuel with
  | O => OutOfFuel
  | S fuel' =>
      if (current =? descendant)%N then
        if inclusive then
          let! r := body acc current in
          match r with Continue acc | Break acc => Ok acc end
        else Ok acc
      else
        let! next := unwrap_res (get_next_chain_ancestor store descendant current) in
        let! r := body acc current in
        match r with
        | Continue acc => forward_chain_for fuel' descendant inclusive acc next
        | Break acc => Ok acc
        end
  end.

(** A loop over [BackwardChainIterator]. *)
Fixpoint backward_chain_for (fuel : nat) (ancestor : N) (inclusive : bool) (acc : A) (current : N) : panics A :=
  match fuel with
  | O => OutOfFuel
  | S fuel' =>
      if (current =? ancestor)%N then
        if inclusive then
          let! r := body acc current in
          match r with Continue acc | Break acc => Ok acc end
        else Ok acc
      else
        let! next := unwrap_res (get_parent store current) in
        let! r := body acc current in
        match r with
        | Continue acc => backward_chain_for fuel' ancestor inclusive acc next
        | Break acc => Ok acc
        end
  end.
End Iterators.

(** The iterators collected into a list. *)
Definition forward_chain_iterator {R} `{ReachabilityStore R} (fuel : nat) (store : R) (from_ancestor to_descendant : N) (inclusive : bool) : panics (list N) :=
  forward_chain_for store (fun acc h => Ok (Continue (acc ++ [h]))) fuel to_descendant inclusive [] from_ancestor.
Definition backward_chain_iterator {R} `{ReachabilityStore R} (fuel : nat) (store : R) (from_descendant to_ancestor : N) (inclusive : bool) : panics (list N) :=
  backward_chain_for store (fun acc h => Ok (Continue (acc ++ [h]))) fuel to_ancestor inclusive [] from_descendant.
Definition default_backward_chain_iterator {R} `{ReachabilityStore R} (fuel : nat) (store : R) (from : N) : panics (list N) :=
  backward_chain_iterator fuel store from hash_ORIGIN false.

(** ** Blocks at a depth *)

Inductive BlockDepthType := MergeRoot | Finality.

Record BlockDepthManager (R St : Type) := mk_depth_manager {
  bd_merge_depth : Z;
  bd_finality_depth : Z;
  bd_genesis_hash : N;
  bd_merge_depth_root : N -> sresult N;
  bd_finality_point : N -> sresult N;
  bd_reachability_service : R;
  bd_ghostdag_store : St
}.
Arguments mk_depth_manager {R St}.
Arguments bd_merge_depth {R St}.
Arguments bd_finality_depth {R St}.
Arguments bd_genesis_hash {R St}.
Arguments bd_merge_depth_root {R St}.
Arguments bd_finality_point {R St}.
Arguments bd_reachability_service {R St}.
Arguments bd_ghostdag_store {R St}.

Section Depth.
Context {R St : Type} `{ReachabilityStore R} `{GhostdagStoreReader St} (fuel : nat) (self : BlockDepthManager R St).

Definition depth_of (depth_type : BlockDepthType) : Z := match depth_type with MergeRoot => bd_merge_depth self | Finality => bd_finality_depth self end.
Definition stored_at (depth_type : BlockDepthType) : N -> sresult N := match depth_type with MergeRoot => bd_merge_depth_root self | Finality => bd_finality_point self end.

(** The body of the walk up the chain. *)
Definition depth_step (required_blue_score : Z) (current chain_block : N) : panics (Flow N) :=
  let! s := unwrap_res (get_blue_score (bd_ghostdag_store self) chain_block) in
  Ok (if required_blue_score <=? s then Break current else Continue chain_block).

Definition calculate_block_at_depth (ghostdag_data : GhostdagData) (depth_type : BlockDepthType) (pruning_point : N) : panics N :=
  if (gd_selected_parent ghostdag_data =? hash_ORIGIN)%N then Ok hash_ORIGIN
  else
    let depth := depth_of depth_type in
    if gd_blue_score ghostdag_data <? depth then Ok (bd_genesis_hash self)
    else
      let! pp_bs := unwrap_res (get_blue_score (bd_ghostdag_store self) pruning_point) in
      let! pp_limit := add64 pp_bs depth in
      if gd_blue_score ghostdag_data <? pp_limit then Ok hash_ORIGIN
      else
        let! on_chain := unwrap_res (is_chain_ancestor_of (bd_reachability_service self) pruning_point (gd_selected_parent ghostdag_data)) in
        if negb on_chain then Ok hash_ORIGIN
        else
          let! current := unwrap_res (stored_at depth_type (gd_selected_parent ghostdag_data)) in
          let current := if (current =? hash_ORIGIN)%N then pruning_point else current in
          let! required_blue_score := usub (gd_blue_score ghostdag_data) depth in
          forward_chain_for (bd_reachability_service self) (depth_step required_blue_score) fuel (gd_selected_parent ghostdag_data) true current current.

Definition calc_merge_depth_root (ghostdag_data : GhostdagData) (pruning_point : N) : panics N := calculate_block_at_depth ghostdag_data MergeRoot pruning_point.
Definition calc_finality_point (ghostdag_data : GhostdagData) (pruning_point : N) : panics N := calculate_block_at_depth ghostdag_data Finality pruning_point.

Fixpoint chain_filter (merge_depth_root : N) (blues : list N) : panics (list N) :=
  match blues with
  | [] => Ok []
  | blue :: blues' =>
      let! b := unwrap_res (is_chain_ancestor_of (bd_reachability_service self) merge_depth_root blue) in
      let! rest := chain_filter merge_depth_root blues' in
      Ok (if b : bool then blue :: rest else rest)
  end.
Definition kosherizing_blues (ghostdag_data : GhostdagData) (merge_depth_root : N) : panics (list N) := chain_filter merge_depth_root (gd_mergeset_blues ghostdag_data).
End Depth.

(** ** Paths in the tree *)

Inductive tree_path (m : nodes) (d : N) : N -> list N -> Prop :=
| path_end : is_Some (m !! d) -> tree_path m d d [d]
| path_step a c da dc p : m !! a = Some da -> m !! c = Some dc -> d_parent dc = a -> c ∈ d_children da -> chain_anc m c d -> tree_path m d c p -> tree_path m d a (a :: p).

Section Paths.
Context (m : nodes) (root : N) (Hsh : shape m root).

Lemma path_exists a d : chain_anc m a d -> exists p, tree_path m d a p.
Proof.
  intros Had. destruct (chain_in_l _ _ _ Had) as [da Ha]. destruct (chain_in_r _ _ _ Had) as [dd Hd].
  remember (Z.to_nat (d_height dd - d_height da)) as n eqn:Hn. assert (Hle : d_height dd - d_height da <= Z.of_nat n) by lia. clear Hn.
  revert a da Ha Had Hle. induction n as [|n IH]; intros a da Ha Had Hle; (destruct (decide (a = d)) as [->|Hne]; [exists [d]; by constructor|]).
  { pose proof (chain_height _ _ Hsh _ _ _ _ Had Ha Hd Hne). lia. }
  destruct (chain_first_child _ _ Hsh _ _ _ Had Hne Ha) as (c & Hc & Hcd). destruct (sh_child _ _ Hsh _ _ _ Ha Hc) as (dc & Hdc & Hp).
  destruct (IH c dc Hdc Hcd) as [p Hpath].
  { assert (d_height da < d_height dc) by (apply (sh_height _ _ Hsh c dc da Hdc); by rewrite Hp). lia. }
  exists (a :: p). by apply (path_step m d a c da dc p).
Qed.

Lemma path_elem d a p : tree_path m d a p -> forall x, x ∈ p <-> chain_anc m a x /\ chain_anc m x d.
Proof.
  induction 1 as [[dd Hd]|a c da dc p Ha Hc Hpar Hin Hcd Hp IH]; intros x.
  - rewrite list_elem_of_singleton. split; [intros ->; split; by econstructor|]. intros [H1 H2]. by eapply chain_antisym.
  - rewrite elem_of_cons, IH. pose proof (chain_child _ _ Hsh _ _ _ Ha Hin) as Hac. split.
    + intros [->|[H1 H2]]; [split; [by econstructor|by eapply chain_trans]|]. split; [by eapply chain_trans|done].
    + intros [H1 H2]. destruct (decide (x = a)) as [->|Hne]; [by left|right]. split; [|done].
      destruct (chain_first_child _ _ Hsh _ _ _ H1 ltac:(congruence) Ha) as (c' & Hc' & Hcx).
      by rewrite (siblings_disjoint _ _ Hsh _ _ _ _ d Ha Hin Hc' Hcd (chain_trans _ _ _ _ Hcx H2)).
Qed.

Lemma path_neq d a c da dc p : m !! a = Some da -> m !! c = Some dc -> d_parent dc = a -> chain_anc m c d -> tree_path m d c p -> a <> d.
Proof.
  intros Ha Hc Hpar Hcd _ ->. assert (Hh : d_height da < d_height dc) by (apply (sh_height _ _ Hsh c dc da Hc); by rewrite Hpar).
  destruct (decide (c = d)) as [->|Hne]; [simplify_eq; lia|]. pose proof (chain_height _ _ Hsh _ _ _ _ Hcd Hc Ha Hne). lia.
Qed.

Lemma path_last d a p : tree_path m d a p -> exists q, p = q ++ [d].
Proof using. induction 1 as [|a c da dc p Ha Hc Hpar Hin Hcd Hp [q ->]]; [by exists []|by exists (a :: q)]. Qed.
End Paths.

(** ** The iterators follow the path *)

Lemma for_each_last {E A B} (body : A -> B -> outcome E (Flow A)) acc x :
  (let! r := body acc x in match r with Continue acc | Break acc => Ok acc end) = for_each body acc [x].
Proof. cbn [for_each]. destruct (body acc x) as [[|]| | |]; done. Qed.

Section Walk.
Context (s : MemoryReachabilityStore) (root : N) (Hok : tree_ok (m_map s) root) {A : Type} (body : A -> N -> panics (Flow A)).

Lemma next_on_path d a c da dc p : m_map s !! a = Some da -> m_map s !! c = Some dc -> d_parent dc = a -> c ∈ d_children da -> chain_anc (m_map s) c d ->
  tree_path (m_map s) d c p -> (a =? d)%N = false /\ get_next_chain_ancestor s d a = Ok c.
Proof using Hok.
  intros Ha Hc Hpar Hin Hcd Hp. pose proof (path_neq _ _ (proj1 Hok) _ _ _ _ _ _ Ha Hc Hpar Hcd Hp) as Hne. split; [by apply N.eqb_neq|].
  destruct (get_next_chain_ancestor_correct s root a d da Hok Ha (chain_in_r _ _ _ Hcd)) as [(_ & _ & c' & Hn & Hu)|[Hno _]].
  - rewrite Hn. f_equal. symmetry. by apply Hu.
  - exfalso. apply Hno. split; [|done]. eapply chain_trans; [by eapply chain_child; [apply Hok|..]|done].
Qed.

Lemma forward_for_path d a p : tree_path (m_map s) d a p -> forall fuel acc, (length p <= fuel)%nat ->
  forward_chain_for s body fuel d true acc a = for_each body acc p /\ forward_chain_for s body fuel d false acc a = for_each body acc (take (length p - 1) p).
Proof using Hok.
  induction 1 as [Hd|a c da dc p Ha Hc Hpar Hin Hcd Hp IH]; intros [|fuel] acc Hf; cbn [length] in Hf; try lia; cbn [forward_chain_for].
  - rewrite N.eqb_refl. split; [apply for_each_last|done].
  - destruct (next_on_path _ _ _ _ _ _ Ha Hc Hpar Hin Hcd Hp) as [-> ->]. cbn [unwrap_res obind length].
    assert (Hl : exists n, length p = S n) by (destruct Hp; cbn; eauto). destruct Hl as [n Hn]. rewrite Hn. replace (S (S n) - 1)%nat with (S n) by lia. cbn [take for_each].
    destruct (body acc a) as [[acc'|acc']| | |]; cbn [obind]; try done. destruct (IH fuel acc' ltac:(lia)) as [-> ->]. rewrite Hn. by replace (S n - 1)%nat with n by lia.
Qed.

(** The last step of a path. *)
Lemma path_snoc d a p : tree_path (m_map s) d a p -> a <> d -> exists dd q, m_map s !! d = Some dd /\ p = q ++ [d] /\ tree_path (m_map s) (d_parent dd) a q.
Proof using Hok.
  induction 1 as [Hd|a c da dc p Ha Hc Hpar Hin Hcd Hp IH]; intros Hne; [done|]. destruct (decide (c = d)) as [->|Hcne].
  - exists dc, [a]. split; [done|]. assert (p = [d]) as ->.
    { inversion Hp as [|? c' ? dc' ? Ha' Hc' Hpar' Hin' Hcd' Hp']; subst; [done|]. destruct (path_neq _ _ (proj1 Hok) _ _ _ _ _ _ Ha' Hc' eq_refl Hcd' Hp'); done. }
    split; [done|]. rewrite Hpar. constructor. eauto.
  - destruct (IH Hcne) as (dd & q & Hd & -> & Hq). exists dd, (a :: q). split; [done|]. split; [done|]. apply (path_step _ _ a c da dc q); [done..| |done].
    apply (path_elem _ _ (proj1 Hok) _ _ _ Hq c). by inversion Hq; subst; left.
Qed.

Lemma backward_for_path a p : forall d, tree_path (m_map s) d a p -> forall fuel acc, (length p <= fuel)%nat ->
  backward_chain_for s body fuel a true acc d = for_each body acc (reverse p) /\ backward_chain_for s body fuel a false acc d = for_each body acc (take (length p - 1) (reverse p)).
Proof using Hok.
  induction p as [|x p IH] using rev_ind; intros d Hp; [by inversion Hp|]. intros [|fuel] acc Hf; rewrite length_app in Hf |- *; cbn [length] in *; [lia|]. cbn [backward_chain_for].
  rewrite reverse_app. change (reverse [x]) with [x]. cbn [app]. replace (length p + 1 - 1)%nat with (length p) by lia. destruct (N.eqb_spec d a) as [->|Hne].
  - inversion Hp as [Hd Hz Heq|? ? ? ? ? Ha Hc Hpar Hin Hcd Hp']; subst.
    + destruct p as [|? [|]]; [|done|done]. injection Heq as <-. split; [apply for_each_last|done].
    + destruct (path_neq _ _ (proj1 Hok) _ _ _ _ _ _ Ha Hc eq_refl Hcd Hp'). done.
  - destruct (path_snoc _ _ _ Hp ltac:(done)) as (dd & q & Hd & Heq & Hq). apply app_inj_tail in Heq as [-> ->]. rewrite (get_parent_mem _ _ _ Hd). cbn [unwrap_res obind].
    assert (Hl : exists n, length q = S n) by (destruct Hq; cbn; eauto). destruct Hl as [n Hn]. rewrite Hn. cbn [take for_each].
    destruct (body acc d) as [[acc'|acc']| | |]; cbn [obind]; try done. destruct (IH _ Hq fuel acc' ltac:(lia)) as [-> ->]. rewrite Hn. by replace (S n - 1)%nat with n by lia.
Qed.
End Walk.

Lemma for_each_collect {E} (l : list N) : forall acc, for_each (E := E) (fun acc h => Ok (Continue (acc ++ [h]))) acc l = Ok (acc ++ l).
Proof. induction l as [|x l IH]; intros acc; cbn [for_each obind]; [by rewrite app_nil_r|]. by rewrite IH, <-app_assoc. Qed.

(** C36: On a block of the tree and one of its chain descendants, the forward iterator yields
    the path between them, parent to child, and the backward iterator yields the same path
    in reverse; without the end point they leave out the last block. *)
Theorem chain_iterators_agree (s : MemoryReachabilityStore) (root a d : N) : tree_ok (m_map s) root -> chain_anc (m_map s) a d ->
  exists p, (forall x, x ∈ p <-> chain_anc (m_map s) a x /\ chain_anc (m_map s) x d) /\ tree_path (m_map s) d a p /\
    forall fuel, (length p <= fuel)%nat ->
      forward_chain_iterator fuel s a d true = Ok p /\ backward_chain_iterator fuel s d a true = Ok (reverse p) /\
      forward_chain_iterator fuel s a d false = Ok (take (length p - 1) p) /\ backward_chain_iterator fuel s d a false = Ok (take (length p - 1) (reverse p)).
Proof.
  intros Hok Had. destruct (path_exists _ _ (proj1 Hok) _ _ Had) as [p Hp]. exists p. split; [apply (path_elem _ _ (proj1 Hok) _ _ _ Hp)|]. split; [done|]. intros fuel Hf.
  unfold forward_chain_iterator, backward_chain_iterator.
  destruct (forward_for_path s root Hok (fun acc h => Ok (Continue (acc ++ [h]))) d a p Hp fuel [] Hf) as [-> ->].
  destruct (backward_for_path s root Hok (fun acc h => Ok (Continue (acc ++ [h]))) a p d Hp fuel [] Hf) as [-> ->]. by rewrite !for_each_collect.
Qed.

(** ** Blocks at a depth *)

Section AtDepth.
Context {St : Type} `{GhostdagStoreReader St} (self : BlockDepthManager MemoryReachabilityStore St).
Let m : nodes := m_map (bd_reachability_service self).
Let g : N := bd_genesis_hash self.
Context (root : N) (Hok : tree_ok m root) (score : N -> Z) (sp : N).

(** The chain from genesis to [sp], with increasing blue scores. *)
Record chain_scores : Prop := mk_chain_scores {
  ch_genesis : chain_anc m g sp /\ score g = 0;
  ch_store x : chain_anc m g x -> chain_anc m x sp -> get_blue_score (bd_ghostdag_store self) x = Ok (score x);
  ch_increasing x y : chain_anc m g x -> chain_anc m x y -> chain_anc m y sp -> x <> y -> score x < score y
}.

(** What the depth store may hold for a block of blue score [b] on top of [sp], or for [sp]. *)
Definition depth_entry (depth b : Z) (cur : N) : Prop :=
  cur = hash_ORIGIN \/ (chain_anc m g cur /\ chain_anc m cur sp /\ (score cur + depth <= b \/ (cur = g /\ b <= depth))).

Lemma depth_walk (Hch : chain_scores) required a p : tree_path m sp a p -> chain_anc m g a -> forall acc,
  exists x, for_each (depth_step self required) acc p = Ok x /\ (required <= score a -> x = acc) /\
    (score a < required -> x ∈ p /\ score x < required /\ forall y, y ∈ p -> score y < required -> chain_anc m y x).
Proof using Hok.
  destruct Hch as [[Hg _] Hst Hinc]. induction 1 as [Hd|a c da dc p Ha Hc Hpar Hin Hcd Hp IH]; intros Hga acc; cbn [for_each].
  - destruct Hd as [dd Hd]. assert (Hr : chain_anc m sp sp) by (by econstructor). unfold depth_step at 1. rewrite (Hst sp Hg Hr). cbn [unwrap_res obind].
    destruct (Z.leb_spec required (score sp)).
    + exists acc. split; [done|]. split; [done|lia].
    + exists sp. split; [done|]. split; [lia|]. intros _. split; [by left|]. split; [done|]. by intros y ->%list_elem_of_singleton _.
  - pose proof (chain_child _ _ (proj1 Hok) _ _ _ Ha Hin) as Hac. assert (Hasp : chain_anc m a sp) by (by eapply chain_trans).
    unfold depth_step at 1. rewrite (Hst a Hga Hasp). cbn [unwrap_res obind]. destruct (Z.leb_spec required (score a)).
    { exists acc. split; [done|]. split; [done|lia]. }
    destruct (IH (chain_trans _ _ _ _ Hga Hac) a) as (x & Hx & Hx1 & Hx2). exists x. split; [done|]. split; [lia|]. intros _.
    destruct (Z.le_gt_cases required (score c)) as [Hle|Hlt].
    + rewrite (Hx1 Hle). split; [left|]. split; [done|]. intros y [->|Hy]%elem_of_cons Hys; [by econstructor|]. exfalso.
      apply (path_elem _ _ (proj1 Hok) _ _ _ Hp) in Hy as [Hcy Hysp]. destruct (decide (c = y)) as [->|Hne]; [lia|].
      pose proof (Hinc c y (chain_trans _ _ _ _ Hga Hac) Hcy Hysp Hne). lia.
    + destruct (Hx2 ltac:(lia)) as (Hxp & Hxs & Hmax). split; [by right|]. split; [done|]. intros y [->|Hy]%elem_of_cons Hys; [|by apply Hmax].
      apply (path_elem _ _ (proj1 Hok) _ _ _ Hp) in Hxp as [Hcx _]. exact (chain_trans _ _ _ _ Hac Hcx).
Qed.

(** The walk from a start of the chain: the last block below the required score, or the start
    when it is not below. *)
Lemma walk_from (Hch : chain_scores) required a : chain_anc m g a -> chain_anc m a sp -> exists len x,
  (forall fuel, (len <= fuel)%nat -> forward_chain_for (bd_reachability_service self) (depth_step self required) fuel sp true a a = Ok x) /\ chain_anc m g x /\ chain_anc m x sp /\
    (required <= score a -> x = a) /\
    (score a < required -> score x < required /\ forall y, chain_anc m g y -> chain_anc m y sp -> score y < required -> chain_anc m y x).
Proof using Hok.
  intros Hga Hasp. destruct (path_exists _ _ (proj1 Hok) _ _ Hasp) as [p Hp]. 
  destruct (depth_walk Hch required a p Hp Hga a) as (x & Hx & Hx1 & Hx2). exists (length p), x. split.
  { intros fuel Hf. by rewrite (proj1 (forward_for_path _ root Hok (depth_step self required) sp a p Hp fuel a Hf)). }
  destruct (Z.le_gt_cases required (score a)) as [Hle|Hlt].
  - rewrite (Hx1 Hle). split_and!; try done. lia.
  - destruct (Hx2 ltac:(lia)) as (Hxp & Hxs & Hmax). apply (path_elem _ _ (proj1 Hok) _ _ _ Hp) in Hxp as [Hax Hxsp]. split; [exact (chain_trans _ _ _ _ Hga Hax)|]. split; [done|]. split; [lia|]. intros _. split; [done|].
    intros y Hgy Hysp Hys. destruct (chain_linear _ _ _ _ Hysp Hasp) as [Hya|Hay]; [exact (chain_trans _ _ _ _ Hya Hax)|]. apply Hmax; [|done]. by apply (path_elem _ _ (proj1 Hok) _ _ _ Hp).
Qed.
End AtDepth.


(** ** Instances *)

Lemma query_of_chain (s : MemoryReachabilityStore) root a b : tree_ok (m_map s) root -> chain_anc (m_map s) a b -> is_chain_ancestor_of s a b = Ok true.
Proof.
  intros Hok Hab. destruct (is_chain_ancestor_spec s root Hok a b (chain_in_l _ _ _ Hab) (chain_in_r _ _ _ Hab)) as (r & -> & Hr). f_equal. by apply Hr.
Qed.

Lemma ex4_tree : tree_ok (m_map ex4) 1%N.
Proof. apply tree_check_sound. by_vm. Qed.

Lemma ex4_keys x : is_Some (m_map ex4 !! x) -> x ∈ [4%N; 2%N; 5%N; 3%N; 1%N].
Proof.
  intros [d Hd]. apply elem_of_map_to_list in Hd. apply (list_elem_of_fmap_2 fst) in Hd. cbn [fst] in Hd.
  replace [4%N; 2%N; 5%N; 3%N; 1%N] with (map_to_list (m_map ex4)).*1 by (vm_compute; reflexivity). exact Hd.
Qed.

(** Genesis is block 1 of the example; the chain of block 5 is 1, 2, 4, 5. *)
Definition bx_score (x : N) : Z := if (x =? 1)%N then 0 else if (x =? 2)%N then 1 else if (x =? 4)%N then 3 else 4.
Definition bx_store : MemoryGhostdagStore := mk_mem_gd ({[ 1%N := 0; 2%N := 1; 4%N := 3; 5%N := 4 ]}) ∅ ∅ ∅ ∅ ∅.
Definition bx_manager : BlockDepthManager MemoryReachabilityStore MemoryGhostdagStore :=
  mk_depth_manager 4 10 1%N (fun _ => Ok 1%N) (fun _ => Ok 1%N) ex4 bx_store.
Definition bx_data : GhostdagData := mk_gd 6 0 5%N [5%N] [] ∅.

Lemma bx_scores : chain_scores bx_manager bx_score 5%N.
Proof.
  split.
  - split; [apply (chain_by_query ex4 1%N); [exact ex4_tree|by_vm]|reflexivity].
  - intros x _ H5. pose proof (ex4_keys x (chain_in_l _ _ _ H5)) as Hx. apply (query_of_chain ex4 1%N) in H5; [|exact ex4_tree].
    rewrite list_elem_of_In in Hx. destruct Hx as [<-|[<-|[<-|[<-|[<-|[]]]]]]; first [vm_compute in H5; discriminate H5|reflexivity].
  - intros x y _ Hxy H5 Hne. pose proof (ex4_keys x (chain_in_l _ _ _ Hxy)) as Hx. pose proof (ex4_keys y (chain_in_r _ _ _ Hxy)) as Hy.
    apply (query_of_chain ex4 1%N) in H5; [|exact ex4_tree]. apply (query_of_chain ex4 1%N) in Hxy; [|exact ex4_tree].
    rewrite list_elem_of_In in Hx. rewrite list_elem_of_In in Hy. destruct Hx as [<-|[<-|[<-|[<-|[<-|[]]]]]], Hy as [<-|[<-|[<-|[<-|[<-|[]]]]]];
      first [vm_compute in Hxy; discriminate Hxy|vm_compute in H5; discriminate H5|destruct Hne; reflexivity|reflexivity].
Qed.

Lemma chain_iterators_agree_witness : exists p, (4%N ∈ p) /\ (3%N ∉ p) /\
  forall fuel, (length p <= fuel)%nat -> forward_chain_iterator fuel ex4 1%N 5%N true = Ok p /\ backward_chain_iterator fuel ex4 5%N 1%N true = Ok (reverse p).
Proof.
  destruct (chain_iterators_agree ex4 1%N 1%N 5%N ex4_tree (chain_by_query ex4 1%N 1%N 5%N ex4_tree ltac:(by_vm))) as (p & Hin & Hp & Hit).
  exists p. split; [apply Hin; split; (apply (chain_by_query ex4 1%N); [exact ex4_tree|by_vm])|]. split.
  - intros H3. apply Hin in H3 as [_ H3]. apply (query_of_chain ex4 1%N) in H3; [|exact ex4_tree]. vm_compute in H3. discriminate.
  - intros fuel Hf. destruct (Hit fuel Hf) as (Hfw & Hbw & _). split; [exact Hfw|exact Hbw].
Defined.

