(* ===== verification/Pruning.v ===== *)
(** * Pruning points

    Model of consensus/src/processes/pruning.rs.  A chain block is a pruning sample when it
    is the first of its finality epoch; the pruning point of a block is the most recent
    sample at pruning depth below it.  The manager finds it by hopping through the samples
    recorded for earlier blocks, and clamps the search.  With the parameters that the
    networks use the clamps never apply: the search returns the definition. *)

From Stdlib Require Import ZArith Lia Bool Sorted.
From stdpp Require Import base gmap numbers sorting list.
From S2P Require Import Prelude ReachabilityStore ReachabilityQueries Header GhostdagStore Difficulty Mass BlockDepth.

#[local] Open Scope Z_scope.

(** ** The manager *)

Record PruningPointReply := mk_reply {
  pr_pruning_sample : N;
  pr_pruning_point : N
}.

(** The errors of [PruningImportError] that this file returns. *)
Inductive PruningImportError :=
| ImportWrongHeaderPruningPoint (header_pruning_point block : N)
| MissingPointedPruningPoint
| WrongPointedPruningPoint
| UnpointedPruningPoint.

Record PruningPointManager (R St : Type) := mk_pruning_manager {
  pm_pruning_depth : Z;
  pm_finality_depth : Z;
  pm_genesis_hash : N;
  pm_reachability_service : R;
  pm_ghostdag_store : St;
  pm_header_blue_score : N -> sresult Z;
  pm_header : N -> sresult Header;
  pm_past_pruning_points : Z -> sresult N;
  pm_pruning_samples : gmap N N;
  pm_pruning_samples_steps : Z
}.
Arguments pm_pruning_depth {R St}.
Arguments pm_finality_depth {R St}.
Arguments pm_genesis_hash {R St}.
Arguments pm_reachability_service {R St}.
Arguments pm_ghostdag_store {R St}.
Arguments pm_header_blue_score {R St}.
Arguments pm_header {R St}.
Arguments pm_past_pruning_points {R St}.
Arguments pm_pruning_samples {R St}.
Arguments pm_pruning_samples_steps {R St}.

Definition pruning_manager_new {R St} (pruning_depth finality_depth : Z) (genesis_hash : N) (reachability_service : R) (ghostdag_store : St)
    (header_blue_score : N -> sresult Z) (header : N -> sresult Header) (past_pruning_points : Z -> sresult N) (pruning_samples : gmap N N) :
    panics (PruningPointManager R St) :=
  if finality_depth =? 0 then Panic
  else Ok (mk_pruning_manager R St pruning_depth finality_depth genesis_hash reachability_service ghostdag_store header_blue_score header past_pruning_points
         pruning_samples (div_ceil pruning_depth finality_depth)).

(** The samples store: reading, and inserting with duplicates ignored ([idempotent]). *)
Definition pruning_sample_from_pov (samples : gmap N N) (h : N) : sresult N :=
  match samples !! h with Some x => Ok x | None => Err (KeyNotFound h) end.
Definition insert_sample (samples : gmap N N) (h x : N) : gmap N N :=
  match samples !! h with Some _ => samples | None => <[h := x]> samples end.

Section Manager.
Context {R St : Type} `{ReachabilityStore R} `{GhostdagStoreReader St} (fuel : nat) (self : PruningPointManager R St).

Definition finality_score (blue_score finality_depth : Z) : panics Z := div64 blue_score finality_depth.

Definition is_pruning_sample (self_blue_score epoch_chain_ancestor_blue_score finality_depth : Z) : panics bool :=
  let! a := finality_score epoch_chain_ancestor_blue_score finality_depth in
  let! b := finality_score self_blue_score finality_depth in
  Ok (a <? b).

(** The loop over the samples: [steps] counts from one. *)
Fixpoint pruning_loop (n : nat) (samples : gmap N N) (blue_score : Z) (is_self_pruning_sample : bool) (selected_parent_pruning_point : N) (steps : Z) (current : N) : panics N :=
  match n with
  | O => OutOfFuel
  | S n' =>
      if (current =? pm_genesis_hash self)%N then Ok current
      else
        let! current_blue_score := unwrap_res (pm_header_blue_score self current) in
        let! deep := add64 current_blue_score (pm_pruning_depth self) in
        if deep <=? blue_score then Ok current
        else if is_self_pruning_sample && (steps =? pm_pruning_samples_steps self) then Ok current
        else if (current =? selected_parent_pruning_point)%N then Ok current
        else
          let! next := unwrap_res (pruning_sample_from_pov samples current) in
          let! steps := add64 steps 1 in
          pruning_loop n' samples blue_score is_self_pruning_sample selected_parent_pruning_point steps next
  end.

(** With the samples store given, since importing a proof adds to it. *)
Definition expected_header_pruning_point_in (samples : gmap N N) (ghostdag_data : CompactGhostdagData) : panics PruningPointReply :=
  let selected_parent := cgd_selected_parent ghostdag_data in
  let! selected_parent_blue_score := unwrap_res (pm_header_blue_score self selected_parent) in
  let! pruning_sample :=
    if (selected_parent =? pm_genesis_hash self)%N then Ok (pm_genesis_hash self)
    else
      let! sample := unwrap_res (pruning_sample_from_pov samples selected_parent) in
      let! sample_blue_score := unwrap_res (pm_header_blue_score self sample) in
      let! b := is_pruning_sample selected_parent_blue_score sample_blue_score (pm_finality_depth self) in
      Ok (if b : bool then selected_parent else sample) in
  let! is_self_pruning_sample := is_pruning_sample (cgd_blue_score ghostdag_data) selected_parent_blue_score (pm_finality_depth self) in
  let! header := unwrap_res (pm_header self selected_parent) in
  let! pruning_point := pruning_loop fuel samples (cgd_blue_score ghostdag_data) is_self_pruning_sample (h_pruning_point header) 1 pruning_sample in
  Ok (mk_reply pruning_sample pruning_point).

Definition expected_header_pruning_point (ghostdag_data : CompactGhostdagData) : panics PruningPointReply :=
  expected_header_pruning_point_in (pm_pruning_samples self) ghostdag_data.

(** The samples from [current] down to [stop], the oldest first. *)
Fixpoint samples_down_to (n : nat) (stop : N) (deque : list N) (current : N) : panics (list N) :=
  match n with
  | O => OutOfFuel
  | S n' =>
      if (current =? stop)%N then Ok deque
      else
        let! next := unwrap_res (pruning_sample_from_pov (pm_pruning_samples self) current) in
        samples_down_to n' stop (current :: deque) next
  end.

Definition next_pruning_points (sink_ghostdag : CompactGhostdagData) (current_pruning_point : N) : panics (list N) :=
  if (cgd_selected_parent sink_ghostdag =? hash_ORIGIN)%N then Ok []
  else
    let! current_pruning_point_blue_score := unwrap_res (pm_header_blue_score self current_pruning_point) in
    let! deep := add64 current_pruning_point_blue_score (pm_pruning_depth self) in
    if cgd_blue_score sink_ghostdag <? deep then Ok []
    else
      let! reply := expected_header_pruning_point sink_ghostdag in
      let! sink_pruning_point_blue_score := unwrap_res (pm_header_blue_score self (pr_pruning_point reply)) in
      if sink_pruning_point_blue_score <=? current_pruning_point_blue_score then Ok []
      else samples_down_to fuel current_pruning_point [] (pr_pruning_point reply).

Definition is_pruning_point_in_pruning_depth (pov_blue_score : Z) (pruning_point : N) (pruning_depth : Z) : panics bool :=
  let! pp_bs := unwrap_res (pm_header_blue_score self pruning_point) in
  let! deep := add64 pp_bs pruning_depth in
  Ok (deep <=? pov_blue_score).

Definition is_valid_pruning_point (pp_candidate tip : N) : panics bool :=
  if (pp_candidate =? pm_genesis_hash self)%N then Ok true
  else
    let! b := unwrap_res (is_chain_ancestor_of (pm_reachability_service self) pp_candidate tip) in
    if negb b then Ok false
    else
      let! tip_bs := unwrap_res (get_blue_score (pm_ghostdag_store self) tip) in
      is_pruning_point_in_pruning_depth tip_bs pp_candidate (pm_pruning_depth self).

(** ** Importing a proof *)

(** One block of the path: the queue, the samples store, and an error that ends the walk. *)
Definition path_block (acc : list N * gmap N N * option PruningImportError) (current : N) : panics (Flow (list N * gmap N N * option PruningImportError)) :=
  let '(queue, samples, _) := acc in
  let! current_header := unwrap_res (pm_header self current) in
  let! compact := unwrap_res (get_compact_data (pm_ghostdag_store self) current) in
  let! reply := expected_header_pruning_point_in samples compact in
  if negb (pr_pruning_point reply =? h_pruning_point current_header)%N
  then Ok (Break (queue, samples, Some (ImportWrongHeaderPruningPoint (h_pruning_point current_header) current)))
  else
    let samples := insert_sample samples current (pr_pruning_sample reply) in
    let queue :=
      match queue with
      | h :: _ => if (h =? h_pruning_point current_header)%N then queue else h_pruning_point current_header :: queue
      | [] => [h_pruning_point current_header]
      end in
    Ok (Continue (queue, samples, None)).

(** The path without its first block; the store after the walk, also when it fails. *)
Definition pruning_points_on_path_to_syncer_sink (pruning_point syncer_sink : N) : panics (outcome PruningImportError (list N) * gmap N N) :=
  let! ' (queue, samples, err, _) :=
    forward_chain_for (pm_reachability_service self)
      (fun acc h =>
         let '(queue, samples, err, first) := acc in
         if first : bool then Ok (Continue (queue, samples, err, false))
         else
           let! r := path_block (queue, samples, err) h in
           Ok (match r with Continue a => Continue (a, false) | Break a => Break (a, false) end))
      fuel syncer_sink true ([], pm_pruning_samples self, None, true) pruning_point in
  Ok (match err with Some e => Err e | None => Ok queue end, samples).

(** The points beyond the synced one are dropped. *)
Fixpoint drop_future (synced_pruning_point : N) (queue : list N) : list N :=
  match queue with
  | [] => []
  | h :: queue' => if (h =? synced_pruning_point)%N then queue else drop_future synced_pruning_point queue'
  end.

(** The past pruning points from index [idx] down to zero. *)
Fixpoint check_past (idx : nat) (queue : list N) : outcome PruningImportError unit :=
  let! pp := unwrap_res (pm_past_pruning_points self (Z.of_nat idx)) in
  let! pp_header := unwrap_res (pm_header self pp) in
  match queue with
  | [] => Err MissingPointedPruningPoint
  | expected_pp :: queue =>
      if negb (expected_pp =? pp)%N then Err WrongPointedPruningPoint
      else
        match idx with
        | O => if negb (bool_decide (queue = [])) || negb (pp =? pm_genesis_hash self)%N then Err UnpointedPruningPoint else Ok tt
        | S idx' =>
            match last queue with
            | Some last_added_pp => check_past idx' (if (last_added_pp =? h_pruning_point pp_header)%N then queue else queue ++ [h_pruning_point pp_header])
            | None => Err MissingPointedPruningPoint
            end
        end
  end.

Definition are_pruning_points_in_valid_chain (synced_pruning_point : N) (synced_pp_index : nat) (syncer_sink : N) : panics (outcome PruningImportError unit * gmap N N) :=
  let! ' (r, samples) := pruning_points_on_path_to_syncer_sink synced_pruning_point syncer_sink in
  match r with
  | Ok queue =>
      let queue := drop_future synced_pruning_point queue in
      match queue with
      | [] => Ok (Err MissingPointedPruningPoint, samples)
      | _ => match check_past synced_pp_index queue with
             | Panic => Panic
             | OutOfFuel => OutOfFuel
             | res => Ok (res, samples)
             end
      end
  | Err e => Ok (Err e, samples)
  | Panic => Panic
  | OutOfFuel => OutOfFuel
  end.
End Manager.

(** ** Samples of a chain *)

(** A chain from a block down to genesis, with blue scores. *)
Section Samples.
Context (F : Z) (HF : 0 < F).

(** The first blocks of their epochs, the most recent first; genesis is one. *)
Fixpoint samples (l : list (N * Z)) : list (N * Z) :=
  match l with
  | [] => []
  | x :: l' =>
      match l' with
      | [] => [x]
      | y :: _ => if y.2 / F <? x.2 / F then x :: samples l' else samples l'
      end
  end.

(** Blue scores grow by at most [gap] from one chain block to the next. *)
Fixpoint steps_ok (gap : Z) (l : list (N * Z)) : Prop :=
  match l with
  | x :: (y :: _) as l' => y.2 < x.2 <= y.2 + gap /\ steps_ok gap l'
  | _ => True
  end.

Lemma samples_cons x y l : samples (x :: y :: l) = if y.2 / F <? x.2 / F then x :: samples (y :: l) else samples (y :: l).
Proof using. done. Qed.

Lemma samples_sub l x : x ∈ samples l -> x ∈ l.
Proof using.
  induction l as [|y l IH]; [done|]. destruct l as [|z l]; [done|]. rewrite samples_cons. destruct (_ <? _); [|intros Hx; right; by apply IH].
  rewrite !elem_of_cons. intros [->|Hx]; [by left|right]. apply elem_of_cons. by apply IH.
Qed.

Lemma samples_last l x : last l = Some x -> last (samples l) = Some x.
Proof using.
  induction l as [|y l IH]; [done|]. destruct l as [|z l]; [done|]. intros Hl. change (last (z :: l) = Some x) in Hl. specialize (IH Hl). rewrite samples_cons. destruct (_ <? _); [|done].
  destruct (samples (z :: l)); [done|exact IH].
Qed.

(** The most recent sample is in the epoch of the head. *)
Lemma samples_head gap x l : steps_ok gap (x :: l) -> exists y rest, samples (x :: l) = y :: rest /\ y.2 / F = x.2 / F.
Proof using HF.
  revert x. induction l as [|y l IH]; intros x Hs; [by exists x, []|]. destruct Hs as [Hxy Hs]. rewrite samples_cons. destruct (Z.ltb_spec (y.2 / F) (x.2 / F)) as [|Hge]; [by eexists _, _|].
  destruct (IH y Hs) as (z & rest & -> & Hz). exists z, rest. split; [done|]. rewrite Hz. pose proof (Z.div_le_mono y.2 x.2 F HF ltac:(lia)). lia.
Qed.

(** Samples are in different epochs, and close to the start of theirs. *)
Lemma samples_epoch gap x l i y : steps_ok gap (x :: l) -> samples (x :: l) !! i = Some y -> y.2 / F <= x.2 / F - Z.of_nat i.
Proof using HF.
  revert x i. induction l as [|z l IH]; intros x i Hs; [destruct i; [intros [= <-]; lia|done]|]. destruct Hs as [Hxz Hs]. rewrite samples_cons.
  destruct (Z.ltb_spec (z.2 / F) (x.2 / F)) as [Hlt|Hge].
  - destruct i as [|i]; [intros [= <-]; lia|]. intros Hy. specialize (IH z i Hs Hy). lia.
  - intros Hy. specialize (IH z i Hs Hy). pose proof (Z.div_le_mono z.2 x.2 F HF ltac:(lia)). lia.
Qed.
Lemma samples_offset gap l x g : steps_ok gap l -> last l = Some g -> x ∈ samples l -> x <> g -> x.2 < x.2 / F * F + gap.
Proof using HF.
  intros Hs Hg. induction l as [|y l IH]; [done|]. destruct l as [|z l]; [cbn in Hg; injection Hg as ->; by intros ->%list_elem_of_singleton|].
  destruct Hs as [Hyz Hs]. specialize (IH Hs Hg). rewrite samples_cons. destruct (Z.ltb_spec (z.2 / F) (y.2 / F)) as [Hlt|Hge]; [|done].
  intros [->|Hx]%elem_of_cons Hne; [|by apply IH]. pose proof (Z.mul_div_le y.2 F HF). pose proof (Z.mul_succ_div_gt z.2 F HF). nia.
Qed.
End Samples.

(** ** The pruning point of a block on a chain *)

Section Point.
Context {R St : Type} (self : PruningPointManager R St).
#[local] Abbreviation F := (pm_finality_depth self).
#[local] Abbreviation P := (pm_pruning_depth self).
#[local] Abbreviation g := (pm_genesis_hash self).

(** The most recent sample with pruning depth from [b], or genesis. *)
Definition point_of (b : Z) (ss : list (N * Z)) : N :=
  match find (fun x => x.2 + P <=? b) ss with Some x => x.1 | None => g end.

(** A chain [l] down to genesis with its scores in the headers store, samples recorded for
    its head and for its samples. *)
Record recorded_chain (l : list (N * Z)) := {
  rc_genesis : last l = Some (g, 0);
  rc_nodup : NoDup l.*1;
  rc_score : forall x, x ∈ l -> pm_header_blue_score self x.1 = Ok x.2;
  rc_width : forall x, x ∈ l -> 0 <= x.2 /\ x.2 + P < U64;
  rc_sample : forall pre x y l', l = pre ++ x :: y :: l' -> pre = [] \/ x ∈ samples F l ->
    exists z rest, samples F (y :: l') = z :: rest /\ pm_pruning_samples self !! x.1 = Some z.1
}.

(** The parameters as the networks have them ([assert_pruning_depth_consistency]); [gap]
    bounds the blue score a chain block adds, K + 1. *)
Record depths_consistent (gap : Z) := {
  dc_F : 0 < F;
  dc_P : 0 <= P;
  dc_gap : 0 < gap;
  dc_above : gap <= P `mod` F;
  dc_below : P `mod` F <= F - gap;
  dc_steps : pm_pruning_samples_steps self = div_ceil P F
}.

Lemma samples_from pre l x rest : 0 < F -> samples F l = pre ++ x :: rest -> exists pre' l', l = pre' ++ x :: l' /\ (l' <> [] -> rest = samples F l') /\ (l' = [] -> rest = []).
Proof using.
  intros HF. revert pre. induction l as [|y l IH]; intros pre Hs; [by destruct pre|]. destruct l as [|z l].
  { destruct pre as [|? []]; [|done..]. injection Hs as <- <-. by exists [], []. }
  rewrite samples_cons in Hs. destruct (_ <? _).
  - destruct pre as [|p pre]; [|injection Hs as -> Hs; destruct (IH pre Hs) as (pre' & l' & -> & Hr); by exists (p :: pre'), l'].
    injection Hs as <- <-. by exists [], (z :: l).
  - destruct (IH pre Hs) as (pre' & l' & -> & Hr). by exists (y :: pre'), l'.
Qed.

Lemma recorded_link l pre x y rest : 0 < F -> recorded_chain l -> samples F l = pre ++ x :: y :: rest -> pm_pruning_samples self !! x.1 = Some y.1.
Proof using.
  intros HF Hrc Hs. destruct (samples_from _ _ _ _ HF Hs) as (pre' & l' & Hl & Hr & Hr'). destruct l' as [|z l']; [by specialize (Hr' eq_refl)|].
  destruct (rc_sample l Hrc pre' x z l' Hl) as (w & rest' & Hw & ->); [right; rewrite Hs; set_solver|].
  specialize (Hr ltac:(done)). rewrite Hw in Hr. by injection Hr as <- <-.
Qed.

Lemma recorded_unique l x s : recorded_chain l -> x ∈ l -> (x.1, s) ∈ l -> x.2 = s.
Proof using. intros Hrc Hx Hy. pose proof (rc_score l Hrc x Hx) as H1. pose proof (rc_score l Hrc _ Hy) as H2. cbn in H2. rewrite H1 in H2. by injection H2. Qed.

(** The loop returns the point, when the clamps stop it only where the depth does. *)
Lemma pruning_loop_point l b ss hp steps0 pre x rest n :
  0 < F -> recorded_chain l -> samples F l = pre ++ x :: rest -> (length (x :: rest) <= n)%nat ->
  1 <= steps0 -> steps0 + Z.of_nat (length rest) < U64 ->
  (forall y, y ∈ x :: rest -> y.1 = hp -> y.1 <> g -> y.2 + P <= b) ->
  (ss = true -> forall i y, (x :: rest) !! i = Some y -> steps0 + Z.of_nat i = pm_pruning_samples_steps self -> y.1 <> g -> y.2 + P <= b) ->
  pruning_loop self n (pm_pruning_samples self) b ss hp steps0 x.1 = Ok (point_of b (x :: rest)).
Proof using.
  intros HF Hrc. revert pre x rest steps0. induction n as [|n IH]; intros pre x rest steps0 Hs Hn Hs0 Hov Hhp Hss; [cbn in Hn; lia|].
  assert (Hin : forall y, y ∈ x :: rest -> y ∈ l) by (intros y Hy; apply (samples_sub F); rewrite Hs; set_solver).
  assert (Hlast : last (x :: rest) = Some (g, 0)). { pose proof (samples_last F l _ (rc_genesis l Hrc)) as H. rewrite Hs, last_app in H. destruct (last (x :: rest)) eqn:E; [done|]. by apply last_None in E. }
  cbn [pruning_loop]. destruct (N.eqb_spec x.1 g) as [Hg|Hg].
  { assert (rest = []) as ->.
    { destruct rest as [|y rest]; [done|]. exfalso. change (last (y :: rest) = Some (g, 0)) in Hlast. apply last_Some in Hlast as [tl Htl].
      destruct (samples_from _ _ _ _ HF Hs) as (pre' & l' & Hl & Hr & Hr'). destruct l' as [|z l']; [by specialize (Hr' eq_refl)|].
      specialize (Hr ltac:(done)). pose proof (rc_nodup l Hrc) as Hnd. rewrite Hl, fmap_app, fmap_cons in Hnd. apply NoDup_app in Hnd as (_ & _ & [Hnx _]%NoDup_cons).
      apply Hnx, list_elem_of_fmap. exists (g, 0). split; [done|]. apply (samples_sub F). rewrite <- Hr, Htl. set_solver. }
    unfold point_of. cbn [find]. rewrite <- Hg. destruct (_ <=? _); reflexivity. }
  rewrite (rc_score l Hrc x) by (apply Hin; set_solver). cbn [unwrap_res obind].
  pose proof (rc_width l Hrc x ltac:(apply Hin; set_solver)) as Hw. rewrite uadd_lt by lia. cbn [obind].
  unfold point_of. cbn [find]. destruct (Z.leb_spec (x.2 + P) b) as [Hd|Hd]; [done|].
  destruct (ss && (steps0 =? pm_pruning_samples_steps self)) eqn:Hcl.
  { apply andb_true_iff in Hcl as [Hss1 Hst]. apply Z.eqb_eq in Hst. specialize (Hss Hss1 0%nat x eq_refl ltac:(lia) Hg). lia. }
  destruct (N.eqb_spec x.1 hp) as [Hh|Hh]; [specialize (Hhp x ltac:(set_solver) Hh Hg); lia|].
  destruct rest as [|y rest]; [cbn in Hlast; injection Hlast as ->; done|].
  unfold pruning_sample_from_pov. rewrite (recorded_link l pre x y rest HF Hrc Hs). cbn [unwrap_res obind length] in *. rewrite uadd_lt by lia. cbn [obind].
  apply (IH (pre ++ [x])); [by rewrite <- app_assoc|cbn; lia|lia|lia|intros z Hz; apply Hhp; set_solver|].
  intros Hss1 i z Hz Hi. apply (Hss Hss1 (S i) z Hz). lia.
Qed.

(** The clamp on steps: the ceil(P/F)-th sample below a sample has pruning depth. *)
Lemma clamp_steps_deep gap l x b i y :
  depths_consistent gap -> recorded_chain (x :: l) -> steps_ok gap (x :: l) -> x.2 / F < b / F -> 0 <= b ->
  samples F (x :: l) !! i = Some y -> 1 + Z.of_nat i = pm_pruning_samples_steps self -> y.1 <> g -> y.2 + P <= b.
Proof using.
  intros Hdc Hrc Hs Hb Hb0 Hy Hi Hg. pose proof (dc_F gap Hdc) as HF. pose proof (dc_steps gap Hdc) as Hst. rewrite Hst in Hi. unfold div_ceil in Hi.
  pose proof (dc_above gap Hdc) as Ha. pose proof (dc_below gap Hdc) as Hbl. pose proof (dc_gap gap Hdc) as Hgap.
  pose proof (samples_epoch F HF gap x l i y Hs Hy) as He.
  assert (Ho : y.2 < y.2 / F * F + gap). { apply (samples_offset F HF gap (x :: l) y (g, 0) Hs (rc_genesis _ Hrc)); [by eapply list_elem_of_lookup_2|]. intros ->. done. }
  pose proof (Z.div_mod P F ltac:(lia)) as HP. pose proof (Z.mul_div_le b F HF) as Hbm.
  assert (Hc : (P + F - 1) / F = P / F + 1). { symmetry. apply Z.div_unique with (r := P mod F - 1); lia. }
  nia.
Qed.

(** *** The points after the current one *)

Lemma samples_below gap x l y : steps_ok gap (x :: l) -> y ∈ l -> y.2 < x.2.
Proof using.
  revert x. induction l as [|z l IH]; intros x Hs Hy; [set_solver|]. destruct Hs as [Hxz Hs]. apply elem_of_cons in Hy as [->|Hy]; [lia|]. specialize (IH z Hs Hy). lia.
Qed.
Lemma steps_ok_tail gap x l : steps_ok gap (x :: l) -> steps_ok gap l.
Proof using. destruct l; [done|]. by intros [_ H]. Qed.
Lemma samples_sorted gap l : steps_ok gap l -> StronglySorted (fun a b => b.2 < a.2) (samples F l).
Proof using.
  induction l as [|x l IH]; intros Hs; [constructor|]. specialize (IH (steps_ok_tail _ _ _ Hs)). destruct l as [|y l]; [by repeat constructor|].
  rewrite samples_cons. destruct (_ <? _); [|done]. constructor; [done|]. apply Forall_forall. intros z Hz. apply (samples_below gap x (y :: l) z Hs). by apply (samples_sub F).
Qed.

Lemma find_split (f : N * Z -> bool) l x : find f l = Some x -> exists pre post, l = pre ++ x :: post /\ f x = true /\ Forall (fun y => f y = false) pre.
Proof using.
  induction l as [|y l IH]; cbn; [done|]. destruct (f y) eqn:Hy; [intros [= ->]; by exists [], l|]. intros (pre & post & -> & Hx & Hp)%IH. exists (y :: pre), post. by split_and!; [|done|constructor].
Qed.

(** The samples above [c] that have pruning depth from [b], the oldest first. *)
Definition points_after (c : N * Z) (b : Z) (ss : list (N * Z)) : list N :=
  rev (map fst (List.filter (fun y => (c.2 <? y.2) && (y.2 + P <=? b)) ss)).

Lemma filter_false {A} (f : A -> bool) l : Forall (fun y => f y = false) l -> List.filter f l = [].
Proof using. induction 1 as [|y l Hy _ IH]; [done|]. cbn. by rewrite Hy. Qed.
Lemma filter_true {A} (f : A -> bool) l : Forall (fun y => f y = true) l -> List.filter f l = l.
Proof using. induction 1 as [|y l Hy _ IH]; [done|]. cbn. by rewrite Hy, IH. Qed.

Lemma points_after_shallow c b ss : b < c.2 + P -> points_after c b ss = [].
Proof using.
  intros Hb. unfold points_after. rewrite filter_false; [done|]. apply Forall_forall. intros y _. destruct (Z.ltb_spec c.2 y.2); [|done]. cbn. apply Z.leb_gt. lia.
Qed.

Lemma points_after_mid c b pre d mid rest :
  StronglySorted (fun a b => b.2 < a.2) (pre ++ d :: mid ++ c :: rest) -> Forall (fun y => (y.2 + P <=? b) = false) pre -> d.2 + P <= b ->
  points_after c b (pre ++ d :: mid ++ c :: rest) = rev (map fst (d :: mid)).
Proof using.
  intros Hss Hpre Hd. assert (Hmid : Forall (fun y => y.2 <= d.2 /\ c.2 < y.2) (d :: mid)).
  { apply StronglySorted_app in Hss as (_ & _ & Hss). apply StronglySorted_inv in Hss as [Hss Hdm]. rewrite Forall_app, Forall_cons in Hdm. destruct Hdm as (Hm & Hc & _).
    apply Forall_cons_2; [lia|]. apply StronglySorted_app in Hss as (Hx & _ & _). apply Forall_forall. intros y Hy. rewrite Forall_forall in Hm. specialize (Hm y Hy). specialize (Hx y c Hy ltac:(set_solver)). cbn in *. lia. }
  unfold points_after. f_equal. f_equal. rewrite app_comm_cons, !List.filter_app. rewrite filter_false, filter_true, filter_false, app_nil_r; [done|..].
  - apply StronglySorted_app in Hss as (_ & _ & Hss). rewrite app_comm_cons in Hss. apply StronglySorted_app in Hss as (_ & _ & Hss). apply StronglySorted_inv in Hss as [_ Hr].
    apply Forall_cons_2; [by rewrite Z.ltb_irrefl|]. eapply Forall_impl; [exact Hr|]. intros y Hy. cbn in Hy. destruct (Z.ltb_spec c.2 y.2); [lia|done].
  - eapply Forall_impl; [exact Hmid|]. intros y Hy. cbn in Hy. apply andb_true_iff. rewrite Z.ltb_lt, Z.leb_le. lia.
  - eapply Forall_impl; [exact Hpre|]. intros y Hy. cbn in Hy. rewrite Hy. by destruct (_ <? _).
Qed.
Lemma points_after_self c b pre rest :
  StronglySorted (fun a b => b.2 < a.2) (pre ++ c :: rest) -> Forall (fun y => (y.2 + P <=? b) = false) pre -> points_after c b (pre ++ c :: rest) = [].
Proof using.
  intros Hss Hpre. unfold points_after. rewrite filter_false; [done|]. apply Forall_app. split.
  - eapply Forall_impl; [exact Hpre|]. intros y Hy. cbn in Hy. rewrite Hy. by destruct (_ <? _).
  - apply StronglySorted_app in Hss as (_ & _ & Hss). apply StronglySorted_inv in Hss as [_ Hr]. apply Forall_cons_2; [by rewrite Z.ltb_irrefl|].
    eapply Forall_impl; [exact Hr|]. intros y Hy. cbn in Hy. destruct (Z.ltb_spec c.2 y.2); [lia|done].
Qed.

(** The walk down the samples from [d] stops at [c]. *)
Lemma samples_down_walk l c d pre mid rest acc n :
  0 < F -> recorded_chain l -> samples F l = pre ++ d :: mid ++ c :: rest -> c.1 ∉ (d :: mid).*1 -> (length (d :: mid) < n)%nat ->
  samples_down_to self n c.1 acc d.1 = Ok (rev (map fst (d :: mid)) ++ acc).
Proof using.
  intros HF Hrc. revert pre d acc n. induction mid as [|e mid IH]; intros pre d acc [|n] Hs Hc Hn; cbn in Hn; try lia; cbn [samples_down_to];
    (destruct (N.eqb_spec d.1 c.1) as [Hd|_]; [exfalso; apply Hc; rewrite <- Hd; left|]); unfold pruning_sample_from_pov.
  - rewrite (recorded_link l pre d c rest HF Hrc Hs). cbn [unwrap_res obind]. destruct n as [|n]; [lia|]. cbn [samples_down_to]. by rewrite N.eqb_refl.
  - rewrite (recorded_link l pre d e (mid ++ c :: rest) HF Hrc Hs). cbn [unwrap_res obind].
    rewrite (IH (pre ++ [d]) e (d.1 :: acc) n); [|by rewrite <- app_assoc|set_solver|cbn; lia]. cbn. by rewrite <- !app_assoc.
Qed.

(** *** A block on top of the chain *)

(** The block of [gd] on top of the chain [x :: l], whose header has its pruning point. *)
Record block_above (x : N * Z) (l : list (N * Z)) (gd : CompactGhostdagData) := {
  ba_parent : cgd_selected_parent gd = x.1;
  ba_origin : x.1 <> hash_ORIGIN;
  ba_score : x.2 < cgd_blue_score gd;
  ba_width : cgd_blue_score gd < U64;
  ba_header : exists h, pm_header self x.1 = Ok h /\ (l <> [] -> h_pruning_point h = point_of x.2 (samples F l))
}.

Lemma point_of_header l x hp b y :
  recorded_chain (x :: l) -> x.2 < b -> (l <> [] -> hp = point_of x.2 (samples F l)) -> y ∈ x :: l -> y.1 = hp -> y.1 <> g -> y.2 + P <= b.
Proof using.
  intros Hrc Hb Hhp Hy Hyh Hg. destruct l as [|z l].
  { apply list_elem_of_singleton in Hy as ->. pose proof (rc_genesis _ Hrc) as Hl. cbn in Hl. injection Hl as ->. done. }
  rewrite (Hhp ltac:(done)) in Hyh. unfold point_of in Hyh. destruct (find _ _) as [d|] eqn:Hf; [|done]. apply find_some in Hf as [Hd%list_elem_of_In Hdp%Z.leb_le].
  apply (samples_sub F) in Hd. assert (y.2 = d.2) by (apply (recorded_unique (x :: z :: l) y d.2 Hrc Hy); rewrite Hyh; destruct d; set_solver). lia.
Qed.

Lemma most_recent_sample gap x l : 0 < F -> recorded_chain (x :: l) -> steps_ok gap (x :: l) ->
  exists y rest, samples F (x :: l) = y :: rest /\
  (if (x.1 =? g)%N then Ok g
   else let! sample := unwrap_res (pruning_sample_from_pov (pm_pruning_samples self) x.1) in
        let! sample_blue_score := unwrap_res (pm_header_blue_score self sample) in
        let! b := is_pruning_sample x.2 sample_blue_score F in
        Ok (if b : bool then x.1 else sample)) = Ok y.1 :> panics N.
Proof using.
  intros HF Hrc Hs. destruct l as [|z l].
  { exists x, []. split; [done|]. pose proof (rc_genesis _ Hrc) as Hl. cbn in Hl. injection Hl as ->. cbn. by rewrite N.eqb_refl. }
  destruct (N.eqb_spec x.1 g) as [Hg|Hg].
  { exfalso. pose proof (rc_genesis _ Hrc) as Hl. change (last (z :: l) = Some (g, 0)) in Hl. apply last_Some in Hl as [tl Htl].
    pose proof (rc_nodup _ Hrc) as Hnd. rewrite fmap_cons in Hnd. apply NoDup_cons in Hnd as [Hnx _]. apply Hnx. rewrite Hg. apply list_elem_of_fmap. exists (g, 0). split; [done|]. rewrite Htl. set_solver. }
  destruct (rc_sample _ Hrc [] x z l eq_refl ltac:(by left)) as (w & rest & Hw & Hst). destruct Hs as [Hxz Hs].
  destruct (samples_head F HF gap z l Hs) as (w' & rest' & Hw' & He). rewrite Hw in Hw'. injection Hw' as <- <-.
  unfold pruning_sample_from_pov. rewrite Hst. cbn [unwrap_res obind]. rewrite (rc_score _ Hrc w) by (right; apply (samples_sub F); rewrite Hw; set_solver).
  cbn [unwrap_res obind]. unfold is_pruning_sample, finality_score, div64. rewrite (proj2 (Z.eqb_neq F 0)) by lia. cbn [obind]. rewrite He, samples_cons, Hw. destruct (_ <? _); by eexists _, _.
Qed.

Lemma samples_count gap x l : 0 < F -> recorded_chain (x :: l) -> steps_ok gap (x :: l) -> Z.of_nat (length (samples F (x :: l))) <= x.2 + 1.
Proof using.
  intros HF Hrc Hs. pose proof (samples_last F _ _ (rc_genesis _ Hrc)) as Hl. rewrite last_lookup in Hl. apply (samples_epoch F HF gap x l _ _ Hs) in Hl. cbn [snd] in Hl.
  rewrite Z.div_0_l in Hl by lia. pose proof (rc_width _ Hrc x ltac:(set_solver)) as [Hx _].
  assert (x.2 / F <= x.2) by (apply Z.div_le_upper_bound; nia). lia.
Qed.

Lemma expected_point gap x l gd fuel :
  depths_consistent gap -> recorded_chain (x :: l) -> steps_ok gap (x :: l) -> block_above x l gd -> (length (samples F (x :: l)) <= fuel)%nat ->
  exists y rest, samples F (x :: l) = y :: rest /\ expected_header_pruning_point fuel self gd = Ok (mk_reply y.1 (point_of (cgd_blue_score gd) (samples F (x :: l)))).
Proof using.
  intros Hdc Hrc Hs [Hp Ho Hsc Hw (h & Hh & Hhp)] Hfuel. pose proof (dc_F gap Hdc) as HF. destruct (most_recent_sample gap x l HF Hrc Hs) as (y & rest & Hy & Hm).
  exists y, rest. split; [done|]. unfold expected_header_pruning_point, expected_header_pruning_point_in. rewrite Hp, (rc_score _ Hrc x), Hh by set_solver. cbn [unwrap_res obind].
  rewrite Hm. cbn [obind]. unfold is_pruning_sample, finality_score, div64. rewrite (proj2 (Z.eqb_neq F 0)) by lia. cbn [obind].
  pose proof (rc_width _ Hrc x ltac:(set_solver)) as Hx. pose proof (dc_P gap Hdc). pose proof (samples_count gap x l HF Hrc Hs) as Hcnt. rewrite Hy in Hfuel, Hcnt. cbn [length] in Hcnt.
  rewrite (pruning_loop_point (x :: l) (cgd_blue_score gd) _ (h_pruning_point h) 1 [] y rest fuel HF Hrc Hy Hfuel) by
    first [ lia
          | (intros z Hz; eapply (point_of_header l x); [done..|]; apply (samples_sub F); by rewrite Hy)
          | (intros Hb%Z.ltb_lt i z Hz Hi; rewrite <- Hy in Hz; apply (clamp_steps_deep gap l x _ i z Hdc Hrc Hs Hb ltac:(lia) Hz Hi)) ].
  cbn [obind]. by rewrite Hy.
Qed.

Lemma next_points gap x l gd fuel c :
  depths_consistent gap -> recorded_chain (x :: l) -> steps_ok gap (x :: l) -> block_above x l gd -> (length (samples F (x :: l)) <= fuel)%nat ->
  c ∈ samples F (x :: l) -> next_pruning_points fuel self gd c.1 = Ok (points_after c (cgd_blue_score gd) (samples F (x :: l))).
Proof using.
  intros Hdc Hrc Hs Hba Hfuel Hc. pose proof (dc_F gap Hdc) as HF. pose proof (samples_sub F _ _ Hc) as Hcl.
  unfold next_pruning_points. rewrite (ba_parent _ _ _ Hba), (proj2 (N.eqb_neq _ _) (ba_origin _ _ _ Hba)), (rc_score _ Hrc c Hcl). cbn [unwrap_res obind].
  pose proof (rc_width _ Hrc c Hcl). rewrite uadd_lt by lia. cbn [obind]. destruct (Z.ltb_spec (cgd_blue_score gd) (c.2 + P)) as [Hb|Hb]; [by rewrite points_after_shallow|].
  destruct (expected_point gap x l gd fuel Hdc Hrc Hs Hba Hfuel) as (y & rest & Hy & ->). clear Hy. cbn [obind pr_pruning_point]. unfold point_of.
  destruct (find _ _) as [d|] eqn:Hf; [|exfalso; apply (find_none _ _) with (x := c) in Hf; [apply Z.leb_gt in Hf; lia|by apply list_elem_of_In]].
  destruct (find_split _ _ _ Hf) as (pre & post & Hsp & Hd%Z.leb_le & Hpre). pose proof (samples_sorted gap _ Hs) as Hss. rewrite Hsp in Hss, Hc |- *.
  rewrite (rc_score _ Hrc d) by (apply (samples_sub F); rewrite Hsp; set_solver). cbn [unwrap_res obind].
  apply elem_of_app in Hc as [Hc|Hc]; [rewrite Forall_forall in Hpre; apply Hpre, Z.leb_gt in Hc; lia|].
  apply elem_of_cons in Hc as [->|Hc]; [rewrite (proj2 (Z.leb_le _ _)) by lia; by rewrite points_after_self|].
  assert (Hlt : c.2 < d.2). { apply StronglySorted_app in Hss as (_ & _ & Hss). apply StronglySorted_inv in Hss as [_ Hr]. rewrite Forall_forall in Hr. by apply Hr. }
  rewrite (proj2 (Z.leb_gt _ _)) by lia. apply list_elem_of_split in Hc as (mid & rest' & ->). rewrite points_after_mid by done.
  rewrite (samples_down_walk _ c d pre mid rest' [] fuel HF Hrc Hsp), app_nil_r; [done| |rewrite Hsp, !length_app in Hfuel; cbn in Hfuel |- *; rewrite !length_app in Hfuel; cbn in Hfuel; lia].
  intros (z & Hz & Hzin)%list_elem_of_fmap. assert (c.2 < z.2) as Hz2.
  { apply StronglySorted_app in Hss as (_ & _ & Hss). rewrite app_comm_cons in Hss. apply (StronglySorted_app_1_elem_of _ _ _ z c Hss Hzin). set_solver. }
  assert (z.2 = c.2); [|lia]. apply (recorded_unique (x :: l) z c.2 Hrc); [apply (samples_sub F); rewrite Hsp; set_solver|]. rewrite <- Hz. by destruct c.
Qed.
End Point.

(** C10: the pruning point of a block is found exactly.  On a chain of blocks down to genesis
    with the depths as the networks choose them (the pruning depth is not within K of a
    multiple of the finality depth), the samples recorded for the selected parent and for
    the samples below it and the selected parent's header pruning point, the search of
    [expected_header_pruning_point] returns the first block of the most recent finality
    epoch and the most recent such sample at pruning depth (genesis when there is none):
    neither the clamp to ceil(P/F) hops nor the clamp to the selected parent's pruning point
    stops it early, and it does not overflow.  From a current pruning point that is a sample,
    [next_pruning_points] returns the samples above it at pruning depth, the oldest first. *)
Theorem pruning_points_exact {R St : Type} (self : PruningPointManager R St) gap x l gd fuel :
  depths_consistent self gap -> recorded_chain self (x :: l) -> steps_ok gap (x :: l) -> block_above self x l gd ->
  (length (samples (pm_finality_depth self) (x :: l)) <= fuel)%nat ->
  let ss := samples (pm_finality_depth self) (x :: l) in
  (exists y rest, ss = y :: rest /\ expected_header_pruning_point fuel self gd = Ok (mk_reply y.1 (point_of self (cgd_blue_score gd) ss))) /\
  forall c, c ∈ ss -> next_pruning_points fuel self gd c.1 = Ok (points_after self c (cgd_blue_score gd) ss).
Proof.
  intros Hdc Hrc Hs Hba Hfuel ss. split; [by eapply expected_point|]. intros c Hc. by eapply next_points.
Qed.

(** ** An example chain: F = 10, P = 25, K = 2 and a block at every third blue score *)

Definition px_chain : list (N * Z) := map (fun i => (N.of_nat (S i), 3 * Z.of_nat i)) (rev (seq 0 16)).
Definition px_samples : gmap N N :=
  list_to_map (map (fun k => ((nth k px_chain (0%N, 0)).1, (nth 0 (samples 10 (drop (S k) px_chain)) (1%N, 0)).1)) (seq 0 15)).
Definition px_manager : PruningPointManager unit unit :=
  mk_pruning_manager unit unit 25 10 1%N tt tt
    (fun h => Ok (3 * (Z.of_N h - 1))) (fun h => Ok (mk_header h 1 [] 0%N 0%N 0%N 0 0 0 0 0 0 5%N)) (fun i => Err (KeyNotFound 0%N)) px_samples 3.
Definition px_data : CompactGhostdagData := mk_compact 48 0 16%N.

Lemma px_new : pruning_manager_new 25 10 1%N tt tt (pm_header_blue_score px_manager) (pm_header px_manager) (pm_past_pruning_points px_manager) px_samples = Ok px_manager.
Proof. reflexivity. Qed.

Lemma px_links k : (k < 15)%nat -> exists z rest, samples 10 (drop (S k) px_chain) = z :: rest /\ px_samples !! (nth k px_chain (0%N, 0)).1 = Some z.1.
Proof. intros Hk. do 15 (destruct k as [|k]; [by eexists _, _; split; vm_compute; reflexivity|]). lia. Qed.

Lemma px_recorded : recorded_chain px_manager px_chain.
Proof.
  split.
  - reflexivity.
  - apply (bool_decide_unpack _). vm_compute. exact I.
  - intros x Hx. vm_compute in Hx. repeat (apply elem_of_cons in Hx as [->|Hx]; [reflexivity|]). by apply elem_of_nil in Hx.
  - intros x Hx. vm_compute in Hx. repeat (apply elem_of_cons in Hx as [->|Hx]; [by split; vm_compute|]). by apply elem_of_nil in Hx.
  - intros pre x y l' Hl _. assert (Hk : (length pre < 15)%nat). { apply (f_equal length) in Hl. rewrite length_app in Hl. cbn in Hl. lia. }
    destruct (px_links (length pre) Hk) as (z & rest & Hz & Hst). exists z, rest. rewrite Hl in Hz, Hst.
    replace (S (length pre)) with (length (pre ++ [x])) in Hz by (rewrite length_app; cbn; lia).
    change (pre ++ x :: y :: l') with (pre ++ [x] ++ y :: l') in Hz. rewrite app_assoc, drop_app_length in Hz. rewrite app_nth2, Nat.sub_diag in Hst by lia. by split.
Qed.

Lemma pruning_points_exact_witness :
  (exists y rest, samples 10 px_chain = y :: rest /\ expected_header_pruning_point 5 px_manager px_data = Ok (mk_reply y.1 (point_of px_manager 48 (samples 10 px_chain)))) /\
  forall c, c ∈ samples 10 px_chain -> next_pruning_points 5 px_manager px_data c.1 = Ok (points_after px_manager c 48 (samples 10 px_chain)).
Proof.
  apply (pruning_points_exact px_manager 3 (16%N, 45) (drop 1 px_chain) px_data 5).
  - by split; vm_compute.
  - exact px_recorded.
  - by vm_compute.
  - split; [done|done|by vm_compute|by vm_compute|]. eexists. split; [reflexivity|]. by vm_compute.
  - vm_compute. lia.
Defined.
Lemma px_values :
  expected_header_pruning_point 5 px_manager px_data = Ok (mk_reply 15%N 8%N) /\ next_pruning_points 5 px_manager px_data 1%N = Ok [5%N; 8%N].
Proof. by split; vm_compute. Qed.
