(* ===== verification/Window.v ===== *)
(** * Block windows

    Model of consensus/src/processes/window.rs and of the window heaps of
    consensus/src/model/stores/block_window_cache.rs.  The sampled blocks of the mergesets
    down the selected chain go through a heap that keeps the ones of highest blue work; the
    windows of earlier blocks, when cached, shorten the walk.

    A heap is the list of its blocks; the iteration order of a [BinaryHeap] is unspecified,
    so the theorems are up to permutation.  An iterator is the list it yields.

    The main theorem: whatever correct windows the cache holds, the walk returns the
    sampled blocks of highest blue work, or the error when trusted data ends too early. *)

From Stdlib Require Import ZArith Lia Bool.
From stdpp Require Import base gmap numbers sorting list.
From S2P Require Import Prelude Interval ReachabilityStore ReachabilityQueries ReachabilityTree ReachabilityDag ReachabilityProps Uint GhostdagStore Difficulty Ghostdag GhostdagColor GhostdagMergeset GhostdagBlocks GhostdagProps MergesetOrder Body.

#[local] Open Scope Z_scope.

(** ** Heaps *)

Abbreviation BlockWindowHeap := (list SortableBlock).

#[export] Instance sortable_block_eq_dec : EqDecision SortableBlock.
Proof. solve_decision. Defined.

(** [BinaryHeap] of reversed blocks: its maximum is the least block. *)
Fixpoint heap_peek (h : BlockWindowHeap) : option SortableBlock :=
  match h with
  | [] => None
  | x :: h' =>
      match heap_peek h' with
      | None => Some x
      | Some y => Some (match sortable_cmp x y with Gt => y | _ => x end)
      end
  end.
Fixpoint heap_remove (x : SortableBlock) (h : BlockWindowHeap) : BlockWindowHeap :=
  match h with
  | [] => []
  | y :: h' => if decide (x = y) then h' else y :: heap_remove x h'
  end.
Definition heap_pop (h : BlockWindowHeap) : BlockWindowHeap :=
  match heap_peek h with Some x => heap_remove x h | None => h end.
Definition heap_push (x : SortableBlock) (h : BlockWindowHeap) : BlockWindowHeap := x :: h.

Record BoundedSizeBlockHeap := mk_bounded {
  bh_binary_heap : BlockWindowHeap;
  bh_size_bound : nat
}.
Definition bounded_from_binary_heap (size_bound : nat) (heap : BlockWindowHeap) : BoundedSizeBlockHeap := mk_bounded heap size_bound.
Definition bounded_new (size_bound : nat) : BoundedSizeBlockHeap := bounded_from_binary_heap size_bound [].

Definition reached_size_bound (self : BoundedSizeBlockHeap) : bool := (length (bh_binary_heap self) =? bh_size_bound self)%nat.

Definition can_push (self : BoundedSizeBlockHeap) (b : SortableBlock) : panics bool :=
  if reached_size_bound self then
    let! max := unwrap (heap_peek (bh_binary_heap self)) in
    Ok (match sortable_cmp max b with Gt => false | _ => true end)
  else Ok true.

Definition try_push (self : BoundedSizeBlockHeap) (b : SortableBlock) : BoundedSizeBlockHeap * bool :=
  let put heap := (mk_bounded (heap_push b heap) (bh_size_bound self), true) in
  if reached_size_bound self then
    match heap_peek (bh_binary_heap self) with
    | Some max =>
        match sortable_cmp b max with
        | Lt => (self, false)
        | _ => put (heap_pop (bh_binary_heap self))
        end
    | None => put (heap_pop (bh_binary_heap self))
    end
  else put (bh_binary_heap self).

Definition merge_ancestor_heap (self : BoundedSizeBlockHeap) (ancestor_heap : BlockWindowHeap) : BoundedSizeBlockHeap :=
  let heap := bh_binary_heap self ++ ancestor_heap in
  mk_bounded (Nat.iter (length heap - bh_size_bound self) heap_pop heap) (bh_size_bound self).

(** ** The window manager *)

Inductive WindowType := DifficultyWindow | MedianTimeWindow | VaryingWindow (size : nat).

Record DaaWindow := mk_daa_window {
  dw_window : BlockWindowHeap;
  dw_daa_score : Z;
  dw_mergeset_non_daa : gset N
}.

Inductive SampledBlock := Sampled (b : SortableBlock) | NonDaa (h : N).

(** [u64::is_multiple_of] *)
Definition is_multiple_of (a b : Z) : bool := if b =? 0 then a =? 0 else a mod b =? 0.

Record SampledWindowManager (St H : Type) := mk_window_manager {
  wm_genesis_hash : N;
  wm_ghostdag_store : St;
  wm_headers_store : H;
  wm_cache_for_difficulty : gmap N BlockWindowHeap;
  wm_cache_for_past_median_time : gmap N BlockWindowHeap;
  wm_difficulty_window_size : nat;
  wm_difficulty_sample_rate : Z;
  wm_past_median_time_window_size : nat;
  wm_past_median_time_sample_rate : Z;
  wm_difficulty_manager : SampledDifficultyManager
}.
Arguments wm_genesis_hash {St H}.
Arguments wm_ghostdag_store {St H}.
Arguments wm_headers_store {St H}.
Arguments wm_cache_for_difficulty {St H}.
Arguments wm_cache_for_past_median_time {St H}.
Arguments wm_difficulty_window_size {St H}.
Arguments wm_difficulty_sample_rate {St H}.
Arguments wm_past_median_time_window_size {St H}.
Arguments wm_past_median_time_sample_rate {St H}.
Arguments wm_difficulty_manager {St H}.

Definition window_manager_new {St H} (genesis_hash : N) (genesis_bits : Z) (ghostdag_store : St) (headers_store : H)
    (cache_for_difficulty cache_for_past_median_time : gmap N BlockWindowHeap) (max_difficulty_target : limbs) (target_time_per_block : Z)
    (difficulty_window_size : nat) (min_difficulty_window_size difficulty_sample_rate : Z) (past_median_time_window_size : nat)
    (past_median_time_sample_rate : Z) : panics (SampledWindowManager St H) :=
  let! difficulty_manager := sdm_new genesis_hash genesis_bits max_difficulty_target (Z.of_nat difficulty_window_size) min_difficulty_window_size
                               difficulty_sample_rate target_time_per_block in
  Ok (mk_window_manager St H genesis_hash ghostdag_store headers_store cache_for_difficulty cache_for_past_median_time difficulty_window_size
        difficulty_sample_rate past_median_time_window_size past_median_time_sample_rate difficulty_manager).

Section Manager.
Context {St H : Type} `{GhostdagStoreReader St} `{HeaderStoreReader H} `{MergeJoin}.
Context (position_minmax : list DifficultyBlock -> option (nat * nat)) (minmax : list Z -> option (Z * Z)).
Context (fuel : nat) (self : SampledWindowManager St H).

Definition window_size (window_type : WindowType) : nat :=
  match window_type with
  | DifficultyWindow => wm_difficulty_window_size self
  | MedianTimeWindow => wm_past_median_time_window_size self
  | VaryingWindow size => size
  end.
Definition sample_rate (window_type : WindowType) : Z :=
  match window_type with
  | DifficultyWindow => wm_difficulty_sample_rate self
  | MedianTimeWindow => wm_past_median_time_sample_rate self
  | VaryingWindow _ => 1
  end.

(** The blocks that [sampled_mergeset_iterator] filters, with the scores it reads first. *)
Definition mergeset_to_sample (ghostdag_data : GhostdagData) (selected_parent_blue_work : Z) : panics (Z * Z * list SortableBlock) :=
  let! selected_parent_daa_score := unwrap_res (hs_daa_score (wm_headers_store self) (gd_selected_parent ghostdag_data)) in
  let! blue_score_threshold := lowest_daa_blue_score (wm_difficulty_manager self) ghostdag_data in
  let! rest := descending_mergeset_without_selected_parent (wm_ghostdag_store self) ghostdag_data in
  Ok (selected_parent_daa_score, blue_score_threshold, mk_sortable (gd_selected_parent ghostdag_data) selected_parent_blue_work :: rest).

(** The closure of the iterator on one block: the index of the block among those that count. *)
Definition sample_block (rate selected_parent_daa_score blue_score_threshold index : Z) (block : SortableBlock) : panics (Z * option SampledBlock) :=
  let! blue_score := unwrap_res (get_blue_score (wm_ghostdag_store self) (sb_hash block)) in
  if blue_score <? blue_score_threshold then Ok (index, Some (NonDaa (sb_hash block)))
  else
    let! index := add64 index 1 in
    let! daa_score := add64 selected_parent_daa_score index in
    Ok (index, if is_multiple_of daa_score rate then Some (Sampled block) else None).

(** With an inserter: the whole mergeset, the heap and the inserted hashes. *)
Fixpoint push_all (rate daa threshold index : Z) (heap : BoundedSizeBlockHeap) (inserted : list N) (blocks : list SortableBlock) : panics (BoundedSizeBlockHeap * list N) :=
  match blocks with
  | [] => Ok (heap, inserted)
  | block :: blocks' =>
      let! ' (index, sample) := sample_block rate daa threshold index block in
      match sample with
      | Some (Sampled b) => push_all rate daa threshold index (try_push heap b).1 inserted blocks'
      | Some (NonDaa h) => push_all rate daa threshold index heap (inserted ++ [h]) blocks'
      | None => push_all rate daa threshold index heap inserted blocks'
      end
  end.
(** Without: until a sample cannot be pushed. *)
Fixpoint push_while (rate daa threshold index : Z) (heap : BoundedSizeBlockHeap) (blocks : list SortableBlock) : panics BoundedSizeBlockHeap :=
  match blocks with
  | [] => Ok heap
  | block :: blocks' =>
      let! ' (index, sample) := sample_block rate daa threshold index block in
      match sample with
      | Some (Sampled b) =>
          let '(heap, pushed) := try_push heap b in
          if pushed : bool then push_while rate daa threshold index heap blocks' else Ok heap
      | _ => push_while rate daa threshold index heap blocks'
      end
  end.

Definition push_mergeset_inserting (heap : BoundedSizeBlockHeap) (rate : Z) (ghostdag_data : GhostdagData) (selected_parent_blue_work : Z) :
    panics (BoundedSizeBlockHeap * list N) :=
  let! ' (daa, threshold, blocks) := mergeset_to_sample ghostdag_data selected_parent_blue_work in
  push_all rate daa threshold 0 heap [] blocks.
Definition push_mergeset (heap : BoundedSizeBlockHeap) (rate : Z) (ghostdag_data : GhostdagData) (selected_parent_blue_work : Z) : panics BoundedSizeBlockHeap :=
  let! ' (daa, threshold, blocks) := mergeset_to_sample ghostdag_data selected_parent_blue_work in
  push_while rate daa threshold 0 heap blocks.

Definition try_init_from_cache (size : nat) (rate : Z) (cache : gmap N BlockWindowHeap) (ghostdag_data : GhostdagData) (selected_parent_blue_work : Z) :
    panics (option (BlockWindowHeap * list N)) :=
  match cache !! gd_selected_parent ghostdag_data with
  | None => Ok None
  | Some selected_parent_window =>
      let! ' (heap, inserted) := push_mergeset_inserting (bounded_from_binary_heap size selected_parent_window) rate ghostdag_data selected_parent_blue_work in
      Ok (Some (bh_binary_heap heap, inserted))
  end.

Definition try_merge_with_selected_parent_cache (heap : BoundedSizeBlockHeap) (cache : gmap N BlockWindowHeap) (selected_parent : N) : BoundedSizeBlockHeap * bool :=
  match cache !! selected_parent with
  | Some selected_parent_window => (merge_ancestor_heap heap selected_parent_window, true)
  | None => (heap, false)
  end.

(** The loop down the selected chain. *)
Fixpoint window_loop (n : nat) (rate : Z) (cache : gmap N BlockWindowHeap) (heap : BoundedSizeBlockHeap) (current : GhostdagData) : bpres BlockWindowHeap :=
  match n with
  | O => OutOfFuel
  | S n' =>
      let selected_parent := gd_selected_parent current in
      if (selected_parent =? hash_ORIGIN)%N then
        if reached_size_bound heap then Ok (bh_binary_heap heap) else Err (InsufficientDaaWindowSize (length (bh_binary_heap heap)))
      else if (selected_parent =? wm_genesis_hash self)%N then Ok (bh_binary_heap heap)
      else
        let! parent := unwrap_res (get_data (wm_ghostdag_store self) selected_parent) in
        let! can := unwrap_res (can_push heap (mk_sortable selected_parent (gd_blue_work parent))) in
        if negb can then Ok (bh_binary_heap heap)
        else
          let! heap := unwrap_res (push_mergeset heap rate current (gd_blue_work parent)) in
          let '(heap, merged) := try_merge_with_selected_parent_cache heap cache selected_parent in
          if merged : bool then Ok (bh_binary_heap heap) else window_loop n' rate cache heap parent
  end.

Definition cache_of (window_type : WindowType) : gmap N BlockWindowHeap :=
  match window_type with
  | DifficultyWindow => wm_cache_for_difficulty self
  | MedianTimeWindow => wm_cache_for_past_median_time self
  | VaryingWindow _ => ∅
  end.

(** The window, and the hashes given to the inserter. *)
Definition build_block_window (ghostdag_data : GhostdagData) (window_type : WindowType) : bpres (BlockWindowHeap * list N) :=
  let size := window_size window_type in
  let rate := sample_rate window_type in
  let selected_parent := gd_selected_parent ghostdag_data in
  if (size =? 0)%nat then Ok ([], [])
  else if (selected_parent =? wm_genesis_hash self)%N then Ok ([], [wm_genesis_hash self])
  else if (selected_parent =? hash_ORIGIN)%N then Err (InsufficientDaaWindowSize 0)
  else
    let! selected_parent_blue_work := unwrap_res (get_blue_work (wm_ghostdag_store self) selected_parent) in
    let! cached := unwrap_res (try_init_from_cache size rate (cache_of window_type) ghostdag_data selected_parent_blue_work) in
    match cached with
    | Some res => Ok res
    | None =>
        let! ' (heap, inserted) := unwrap_res (push_mergeset_inserting (bounded_new size) rate ghostdag_data selected_parent_blue_work) in
        let! current := unwrap_res (get_data (wm_ghostdag_store self) selected_parent) in
        let! window := window_loop fuel rate (cache_of window_type) heap current in
        Ok (window, inserted)
    end.

(** ** [WindowManager] *)

Definition block_window (ghostdag_data : GhostdagData) (window_type : WindowType) : bpres BlockWindowHeap :=
  let! ' (window, _) := build_block_window ghostdag_data window_type in
  Ok window.

Definition calc_daa_window (ghostdag_data : GhostdagData) (window : BlockWindowHeap) : panics DaaWindow :=
  let! ' (daa_score, mergeset_non_daa) := calc_daa_score_and_mergeset_non_daa_blocks (wm_headers_store self) (wm_difficulty_manager self) ghostdag_data (wm_ghostdag_store self) in
  Ok (mk_daa_window window daa_score mergeset_non_daa).

Definition block_daa_window (ghostdag_data : GhostdagData) : bpres DaaWindow :=
  let! ' (window, inserted) := build_block_window ghostdag_data DifficultyWindow in
  let mergeset_non_daa : gset N := list_to_set inserted in
  let! daa_score := unwrap_res (internal_calc_daa_score (wm_headers_store self) ghostdag_data mergeset_non_daa) in
  Ok (mk_daa_window window daa_score mergeset_non_daa).

Definition window_difficulty_bits (ghostdag_data : GhostdagData) (daa_window : DaaWindow) : panics Z :=
  calculate_difficulty_bits (wm_headers_store self) position_minmax (wm_difficulty_manager self) (dw_window daa_window) ghostdag_data.

Definition window_past_median_time (ghostdag_data : GhostdagData) : bpres (Z * BlockWindowHeap) :=
  let! window := block_window ghostdag_data MedianTimeWindow in
  let! past_median_time := unwrap_res (calc_past_median_time (wm_headers_store self) window (gd_selected_parent ghostdag_data)) in
  Ok (past_median_time, window).

(** The time, and what the cache of windows for it holds afterwards. *)
Definition calc_past_median_time_for_known_hash (hash : N) : bpres (Z * gmap N BlockWindowHeap) :=
  let cache := wm_cache_for_past_median_time self in
  match cache !! hash with
  | Some window =>
      let! selected_parent := unwrap_res (get_selected_parent (wm_ghostdag_store self) hash) in
      let! past_median_time := unwrap_res (calc_past_median_time (wm_headers_store self) window selected_parent) in
      Ok (past_median_time, cache)
  | None =>
      let! ghostdag_data := unwrap_res (get_data (wm_ghostdag_store self) hash) in
      let! ' (past_median_time, window) := window_past_median_time ghostdag_data in
      Ok (past_median_time, <[hash := window]> cache)
  end.

Definition window_hashes_per_second (window : BlockWindowHeap) : outcome DifficultyError Z :=
  estimate_network_hashes_per_second (wm_headers_store self) minmax window.

(** One mergeset of the cover: the cover and the unvisited blocks. *)
Definition cover_mergeset (acc : gset N * gset N) (merged : N) : panics (gset N * gset N) :=
  let '(cover, unvisited) := acc in
  let cover := {[ merged ]} ∪ cover in
  if decide (merged ∈ unvisited) then
    let! sp := unwrap_res (get_selected_parent (wm_ghostdag_store self) merged) in
    Ok ({[ sp ]} ∪ cover, unvisited ∖ {[ merged ]})
  else Ok (cover, unvisited).

Fixpoint cover_loop (n : nat) (cover unvisited : gset N) (ghostdag : GhostdagData) : panics (gset N) :=
  match n with
  | O => OutOfFuel
  | S n' =>
      if decide (unvisited = ∅) then Ok cover
      else
        let! _ := rassert (negb (gd_selected_parent ghostdag =? hash_ORIGIN)%N) in
        let! ' (cover, unvisited) := foldM_out cover_mergeset (cover, unvisited) (unordered_mergeset ghostdag) in
        if decide (unvisited = ∅) then Ok cover
        else
          let! ghostdag := unwrap_res (get_data (wm_ghostdag_store self) (gd_selected_parent ghostdag)) in
          cover_loop n' cover unvisited ghostdag
  end.

(** The capacity computed for the cover is a checked product. *)
Definition consecutive_cover_for_window (ghostdag : GhostdagData) (window : BlockWindowHeap) : panics (gset N) :=
  let! _ := mul64 (Z.of_nat (length window)) (wm_difficulty_sample_rate self) in
  let! cover := cover_loop fuel ∅ (list_to_set (List.map sb_hash window)) ghostdag in
  Ok (cover ∖ {[ hash_ORIGIN ]}).
End Manager.

(** ** The blocks of highest work *)

#[export] Instance sortable_le_preorder : PreOrder sortable_le.
Proof.
  split; [intros x; apply sortable_le_iff; lia|]. intros x y z Hx%sortable_le_iff Hy%sortable_le_iff. apply sortable_le_iff. lia.
Qed.
#[export] Instance sortable_le_antisymm : AntiSymm (=) sortable_le.
Proof.
  intros [h1 w1] [h2 w2] Hx%sortable_le_iff Hy%sortable_le_iff. cbn in *. f_equal; lia.
Qed.
Lemma sortable_le_total x y : sortable_le x y \/ sortable_le y x.
Proof. rewrite !sortable_le_iff. lia. Qed.
Lemma sortable_not_le x y : ~ sortable_le x y -> sortable_le y x.
Proof. destruct (sortable_le_total x y); tauto. Qed.
Lemma sortable_lt_not_le x y : sortable_cmp x y = Lt <-> ~ sortable_le y x.
Proof. rewrite (sortable_cmp_opp x y). unfold sortable_le. destruct (sortable_cmp y x); cbn; intuition congruence. Qed.

Lemma heap_peek_spec h m : heap_peek h = Some m -> m ∈ h /\ forall x, x ∈ h -> sortable_le m x.
Proof.
  revert m. induction h as [|x h IH]; intros m; cbn [heap_peek]; [done|]. destruct (heap_peek h) as [y|] eqn:Hy.
  - destruct (IH y eq_refl) as [Hin Hle]. intros [= <-]. assert (Hc : sortable_cmp x y = Gt <-> ~ sortable_le x y).
    { unfold sortable_le. destruct (sortable_cmp x y); intuition congruence. }
    destruct (decide (sortable_le x y)) as [Hxy|Hxy].
    + replace (match sortable_cmp x y with Gt => y | _ => x end) with x by (unfold sortable_le in Hxy; by destruct (sortable_cmp x y)).
      split; [by left|]. intros z [->|Hz]%elem_of_cons; [done|]. etrans; [exact Hxy|by apply Hle].
    + rewrite (proj2 Hc Hxy). split; [by right|]. intros z [->|Hz]%elem_of_cons; [by apply sortable_not_le|by apply Hle].
  - intros [= <-]. destruct h as [|z h]; [split; [by left|]; by intros z ->%list_elem_of_singleton|]. cbn in Hy. by destruct (heap_peek h).
Qed.
Lemma heap_peek_some h : h <> [] -> exists m, heap_peek h = Some m.
Proof. destruct h as [|x h]; [done|]. intros _. cbn. destruct (heap_peek h); by eexists. Qed.

Lemma heap_remove_perm x h : x ∈ h -> h ≡ₚ x :: heap_remove x h.
Proof.
  induction h as [|y h IH]; [by intros ?%elem_of_nil|]. cbn [heap_remove]. case_decide as Hd; [by subst|]. intros [->|Hx]%elem_of_cons; [done|].
  etrans; [apply Permutation_skip, IH, Hx|apply Permutation_swap].
Qed.
Lemma heap_pop_perm h m : heap_peek h = Some m -> h ≡ₚ m :: heap_pop h.
Proof. intros Hm. unfold heap_pop. rewrite Hm. apply heap_remove_perm. by apply heap_peek_spec. Qed.

(** [w] holds the [k] greatest of [l], all of them when there are fewer. *)
Definition is_top (k : nat) (l w : list SortableBlock) : Prop :=
  exists rest, l ≡ₚ w ++ rest /\ length w = Nat.min k (length l) /\ forall x y, x ∈ w -> y ∈ rest -> sortable_le y x.

Lemma is_top_perm k l l' w w' : l ≡ₚ l' -> w ≡ₚ w' -> is_top k l w -> is_top k l' w'.
Proof.
  intros Hl Hw (rest & Hp & Hlen & Hle). exists rest. rewrite <- Hl, <- Hw. split_and!; [done|done|].
  intros x y Hx Hy. apply Hle; [by rewrite Hw|done].
Qed.
Lemma is_top_nil k : is_top k [] [].
Proof. exists []. split_and!; [done|cbn; lia|]. by intros ? ? ?%elem_of_nil. Qed.
Lemma is_top_short k l w : is_top k l w -> (length w < k)%nat -> w ≡ₚ l.
Proof. intros (rest & Hp & Hlen & _) Hk. pose proof (Permutation_length Hp) as Hl. rewrite length_app in Hl. destruct rest; [by rewrite app_nil_r in Hp|cbn in Hl; lia]. Qed.
(** Lesser blocks do not enter a full top. *)
Lemma is_top_extend k l l' w : is_top k l w -> length w = k -> (forall x y, x ∈ w -> y ∈ l' -> sortable_le y x) -> is_top k (l ++ l') w.
Proof.
  intros (rest & Hp & Hlen & Hle) Hk Hle'. exists (rest ++ l'). rewrite app_assoc, <- Hp, length_app. split_and!; [done|lia|]. intros x y Hx [Hy|Hy]%elem_of_app; eauto.
Qed.

Lemma try_push_spec k l w b : (0 < k)%nat -> is_top k l w -> exists w' p, try_push (mk_bounded w k) b = (mk_bounded w' k, p) /\ is_top k (l ++ [b]) w' /\
  (p = false -> w' = w /\ length w = k /\ forall x, x ∈ w -> sortable_le b x).
Proof.
  intros Hk Htop. pose proof Htop as (rest & Hp & Hlen & Hle). unfold try_push, reached_size_bound, heap_push. cbn [bh_binary_heap bh_size_bound].
  assert (Hsnoc : forall v, is_top k (b :: l) v -> is_top k (l ++ [b]) v) by (intros v; apply is_top_perm; [apply Permutation_cons_append|done]).
  destruct (Nat.eqb_spec (length w) k) as [Hf|Hf].
  - destruct (heap_peek_some w) as [m Hm]; [intros ->; cbn in Hf; lia|]. rewrite Hm. destruct (heap_peek_spec w m Hm) as [Hin Hmin].
    pose proof (heap_pop_perm w m Hm) as Hpop. generalize dependent (heap_pop w). intros pw Hpop. destruct (sortable_cmp b m) eqn:Hc; [|apply sortable_lt_not_le in Hc|].
    2: { eexists w, false. split; [done|]. assert (Hb : forall x, x ∈ w -> sortable_le b x) by (intros x Hx; etrans; [by apply sortable_not_le|by apply Hmin]).
         split; [|done]. apply is_top_extend; [done|done|]. intros x y Hx ->%list_elem_of_singleton. by apply Hb. }
    all: assert (Hmb : sortable_le m b) by (unfold sortable_le; rewrite sortable_cmp_opp, Hc; done).
    all: eexists _, true; split; [done|]; split; [|done]; apply Hsnoc; exists (m :: rest); split_and!;
      [rewrite Hp, Hpop; cbn [app]; apply Permutation_skip, Permutation_middle|apply Permutation_length in Hpop; cbn [length] in *; lia|].
    all: intros x y [->|Hx]%elem_of_cons [->|Hy]%elem_of_cons; [done|etrans; [by apply Hle|done]|apply Hmin; rewrite Hpop; by right|apply Hle; [rewrite Hpop; by right|done]].
  - eexists _, true. split; [done|]. split; [|done]. apply Hsnoc. exists rest. split_and!; [by rewrite Hp|cbn [length]; lia|].
    assert (rest = []) as ->; [|by intros ? ? ? ?%elem_of_nil]. apply Permutation_length in Hp. rewrite length_app in Hp. destruct rest; [done|cbn in Hp; lia].
Qed.

(** Popping down to a size keeps the greatest. *)
Lemma pops_top n h : (n <= length h)%nat -> is_top (length h - n) h (Nat.iter n heap_pop h).
Proof.
  induction n as [|n IH]; intros Hn.
  { exists []. rewrite app_nil_r. split_and!; [done|cbn; lia|]. by intros ? ? ? ?%elem_of_nil. }
  destruct (IH ltac:(lia)) as (rest & Hp & Hlen & Hle). change (Nat.iter (S n) heap_pop h) with (heap_pop (Nat.iter n heap_pop h)). clear IH. generalize dependent (Nat.iter n heap_pop h). intros v Hp Hlen Hle.
  destruct (heap_peek_some v) as [m Hm]; [intros Hv; rewrite Hv in Hlen; cbn in Hlen; lia|]. destruct (heap_peek_spec v m Hm) as [Hin Hmin]. pose proof (heap_pop_perm v m Hm) as Hpop. generalize dependent (heap_pop v). intros pv Hpop.
  exists (m :: rest). split_and!.
  - rewrite Hp, Hpop. cbn [app]. apply Permutation_middle.
  - apply Permutation_length in Hpop. cbn in Hpop. lia.
  - intros x y Hx [->|Hy]%elem_of_cons; [apply Hmin; rewrite Hpop; by right|]. apply Hle; [rewrite Hpop; by right|done].
Qed.

Lemma filter_keeps {A} (P : A -> Prop) `{!forall x, Decision (P x)} (l : list A) : (forall x, x ∈ l -> P x) -> filter P l = l.
Proof. induction l as [|x l IH]; intros Hl; [done|]. rewrite filter_cons_True by (apply Hl; left). f_equal. apply IH. intros y Hy. apply Hl. by right. Qed.
Lemma filter_drops {A} (P : A -> Prop) `{!forall x, Decision (P x)} (l : list A) : (forall x, x ∈ l -> ~ P x) -> filter P l = [].
Proof. induction l as [|x l IH]; intros Hl; [done|]. rewrite filter_cons_False by (apply Hl; left). apply IH. intros y Hy. apply Hl. by right. Qed.

(** A block outside the top of one part is outside the top of the whole. *)
Lemma top_part k w w' v r y : length w = k -> length v = k -> w ++ w' ≡ₚ v ++ r -> (forall x z, x ∈ v -> z ∈ r -> sortable_le z x) ->
  (forall x, x ∈ w -> sortable_le y x) -> forall x, x ∈ v -> sortable_le y x.
Proof.
  intros Hw Hv Hp Hle Hy x Hx. destruct (decide (sortable_le y x)) as [|Hn]; [done|exfalso].
  set (P z := ~ sortable_le z x). assert (Hd : forall z, Decision (P z)) by (intros z; unfold P; apply _).
  assert (Hfw : filter P w = w). { apply filter_keeps. intros z Hz Hzx. apply Hn. etrans; [by apply Hy|done]. }
  assert (Hfr : filter P r = []). { apply filter_drops. intros z Hz. unfold P. intros Hnz. apply Hnz. by apply Hle. }
  assert (Hlt : (length (filter P v) < length v)%nat) by (apply (length_filter_lt P v x Hx); unfold P; intros Hnx; by apply Hnx).
  assert (Hlen : length (filter P (w ++ w')) = length (filter P (v ++ r))) by (by rewrite Hp).
  rewrite !filter_app, Hfw, Hfr, !length_app in Hlen. cbn in Hlen. lia.
Qed.

Lemma merge_ancestor_top k l l' w w' : is_top k l w -> is_top k l' w' ->
  exists v, merge_ancestor_heap (mk_bounded w k) w' = mk_bounded v k /\ is_top k (l ++ l') v.
Proof.
  intros (r & Hp & Hlen & Hle) (r' & Hp' & Hlen' & Hle'). unfold merge_ancestor_heap. cbn [bh_binary_heap bh_size_bound]. eexists. split; [done|].
  destruct (pops_top (length (w ++ w') - k) (w ++ w') ltac:(lia)) as (q & Hq & Hvl & Hvq). set (v := Nat.iter _ heap_pop _) in *.
  assert (Hv : length v = Nat.min k (length (l ++ l'))). { pose proof (Permutation_length Hp). pose proof (Permutation_length Hp'). rewrite !length_app in *. lia. }
  exists (q ++ r ++ r'). split_and!; [|done|].
  - rewrite Hp, Hp', (app_assoc v q), <- Hq, <- !app_assoc. apply Permutation_app_head. rewrite !app_assoc. apply Permutation_app_tail, Permutation_app_comm.
  - pose proof (Permutation_length Hp) as Hpl. pose proof (Permutation_length Hp') as Hpl'. rewrite !length_app in *.
    intros x y Hx [Hy|[Hy|Hy]%elem_of_app]%elem_of_app; [by apply Hvq| |].
    + assert (length w = k) by (destruct r; [by apply elem_of_nil in Hy|cbn in Hpl; lia]). apply (top_part k w w' v q y); [done|lia|done|done| |done]. intros z Hz. by apply Hle.
    + assert (length w' = k) by (destruct r'; [by apply elem_of_nil in Hy|cbn in Hpl'; lia]). apply (top_part k w' w v q y); [done|lia|by rewrite Permutation_app_comm|done| |done]. intros z Hz. by apply Hle'.
Qed.

(** ** The samples of a chain *)

Section Spec.
Context (genesis : N) (S : gmap N GhostdagData) (daa_of : N -> Z) (full_window : Z).

Definition score_of (h : N) : Z := match S !! h with Some D => gd_blue_score D | None => 0 end.

(** The mergeset, the selected parent first and then by descending work. *)
Definition mergeset_desc (D : GhostdagData) : list SortableBlock :=
  key_of S (gd_selected_parent D) :: merge_sort (flip sortable_le) (List.map (key_of S) (unordered_mergeset_without_sp D)).

Definition daa_threshold (D : GhostdagData) : Z := Z.max (gd_blue_score D) full_window - full_window.
(** The blocks that count for the DAA score, and the others. *)
Definition daa_blocks (threshold : Z) (l : list SortableBlock) : list SortableBlock := List.filter (fun b => threshold <=? score_of (sb_hash b)) l.
Definition non_daa_blocks (threshold : Z) (l : list SortableBlock) : list N := List.map sb_hash (List.filter (fun b => score_of (sb_hash b) <? threshold) l).

(** Every block whose DAA index is a multiple of the rate. *)
Fixpoint every (rate i : Z) (l : list SortableBlock) : list SortableBlock :=
  match l with
  | [] => []
  | b :: l' => if is_multiple_of (i + 1) rate then b :: every rate (i + 1) l' else every rate (i + 1) l'
  end.

Definition mergeset_samples (rate : Z) (D : GhostdagData) : list SortableBlock :=
  every rate (daa_of (gd_selected_parent D)) (daa_blocks (daa_threshold D) (mergeset_desc D)).

(** All samples down the selected chain of [D], [n] blocks of it, to genesis or to where
    trusted data ends ([true]). *)
Inductive chain_samples (rate : Z) : nat -> GhostdagData -> list SortableBlock -> bool -> Prop :=
| cs_genesis D : gd_selected_parent D = genesis -> genesis <> hash_ORIGIN -> chain_samples rate 0 D [] false
| cs_origin D : gd_selected_parent D = hash_ORIGIN -> genesis <> hash_ORIGIN -> chain_samples rate 0 D [] true
| cs_step n D Dp l trusted : gd_selected_parent D <> genesis -> gd_selected_parent D <> hash_ORIGIN -> S !! gd_selected_parent D = Some Dp ->
    chain_samples rate n Dp l trusted -> chain_samples rate (Datatypes.S n) D (mergeset_samples rate D ++ l) trusted.

Lemma chain_samples_functional rate n D l t n' l' t' : chain_samples rate n D l t -> chain_samples rate n' D l' t' -> n = n' /\ l = l' /\ t = t'.
Proof using.
  intros Hc. revert n' l' t'. induction Hc as [D Hg Ho|D Hg Ho|n D Dp l t Hg Ho HD Hc IH]; intros n' l' t' Hc'; inversion Hc'; subst; try congruence; try done.
  assert (Dp = Dp0) as -> by congruence. destruct (IH _ _ _ H2) as (-> & -> & ->). done.
Qed.

(** The mergeset of stored data is in GHOSTDAG's order, below the selected parent. *)
Record ordered_data (D : GhostdagData) (cands b : list N) : Prop := mk_ordered {
  od_parent : is_Some (S !! gd_selected_parent D);
  od_known : forall x, x ∈ cands -> is_Some (S !! x);
  od_nodup : NoDup cands;
  od_fresh : gd_selected_parent D ∉ cands;
  od_sorted : StronglySorted (fun x y => sortable_le (key_of S x) (key_of S y)) cands;
  od_blues : gd_mergeset_blues D = gd_selected_parent D :: b;
  od_splits : splits cands b (gd_mergeset_reds D);
  od_max : forall x, x ∈ cands -> sortable_le (key_of S x) (key_of S (gd_selected_parent D))
}.
Definition ordered_store : Prop := forall h D, S !! h = Some D -> h <> hash_ORIGIN -> h <> genesis ->
  (exists cands b, ordered_data D cands b) /\ (gd_selected_parent D <> hash_ORIGIN -> work_of S (gd_selected_parent D) < gd_blue_work D).

Lemma splits_perm {A} (l b r : list A) : splits l b r -> l ≡ₚ b ++ r.
Proof using. induction 1 as [|x l b r _ IH|x l b r _ IH]; [done|by rewrite IH|rewrite IH; apply Permutation_middle]. Qed.

#[local] Instance sortable_ge_total : Total (flip sortable_le).
Proof. intros x y. apply sortable_le_total. Qed.
#[local] Instance sortable_ge_antisymm : AntiSymm (=) (flip sortable_le).
Proof. intros x y Hx Hy. by apply (anti_symm sortable_le). Qed.
#[local] Instance sortable_ge_trans : Transitive (flip sortable_le).
Proof. intros x y z Hx Hy. unfold flip in *. by etrans. Qed.

Lemma sorted_keys cands : StronglySorted (fun x y => sortable_le (key_of S x) (key_of S y)) cands -> StronglySorted sortable_le (List.map (key_of S) cands).
Proof using. induction 1 as [|x l Hs IH Hx]; cbn; [constructor|]. constructor; [done|]. by apply Forall_map. Qed.

Lemma mergeset_desc_cands D cands b : ordered_data D cands b -> mergeset_desc D = key_of S (gd_selected_parent D) :: reverse (List.map (key_of S) cands).
Proof using.
  intros [_ _ _ _ Hs Hb Hsp _]. unfold mergeset_desc. f_equal. apply (StronglySorted_unique (flip sortable_le)).
  - apply (StronglySorted_merge_sort _).
  - apply (sorted_reverse sortable_le). by apply sorted_keys.
  - rewrite merge_sort_Permutation, reverse_Permutation. unfold unordered_mergeset_without_sp. rewrite Hb. change (drop 1 (gd_selected_parent D :: b)) with b. by rewrite <- (splits_perm _ _ _ Hsp).
Qed.

Lemma mergeset_desc_sorted D cands b : ordered_data D cands b -> StronglySorted (flip sortable_le) (mergeset_desc D).
Proof using.
  intros Hod. rewrite (mergeset_desc_cands D cands b Hod). constructor; [by apply (sorted_reverse sortable_le), sorted_keys, Hod|].
  apply Forall_forall. intros x Hx. rewrite elem_of_reverse in Hx. apply list_elem_of_fmap in Hx as (c & -> & Hc). by apply (od_max _ _ _ Hod).
Qed.

Lemma every_sub rate i l x : x ∈ every rate i l -> x ∈ l.
Proof using. revert i. induction l as [|b l IH]; intros i; cbn [every]; [done|]. destruct (is_multiple_of _ _); [intros [->|Hx]%elem_of_cons; [left|right; by eapply IH]|intros Hx; right; by eapply IH]. Qed.
Lemma daa_blocks_sub threshold l x : x ∈ daa_blocks threshold l -> x ∈ l.
Proof using. unfold daa_blocks. rewrite !list_elem_of_In. intros [Hx _]%List.filter_In. done. Qed.
Lemma mergeset_samples_le rate D cands b x : ordered_data D cands b -> x ∈ mergeset_samples rate D -> sortable_le x (key_of S (gd_selected_parent D)).
Proof using.
  intros Hod Hx%every_sub%daa_blocks_sub. pose proof (mergeset_desc_sorted D cands b Hod) as Hs. unfold mergeset_desc in *. apply StronglySorted_inv in Hs as [_ Hs].
  apply elem_of_cons in Hx as [->|Hx]; [done|]. rewrite Forall_forall in Hs. by apply Hs.
Qed.

(** Everything below is less than the selected parent. *)
Lemma chain_samples_le rate n D l t : ordered_store -> chain_samples rate n D l t -> (exists cands b, ordered_data D cands b) ->
  forall x, x ∈ l -> sortable_le x (key_of S (gd_selected_parent D)).
Proof using.
  intros Hos. induction 1 as [D Hg Ho|D Hg Ho|n D Dp l t Hg Ho HD Hc IH]; intros (cands & b & Hod) x Hx; [by apply elem_of_nil in Hx..|].
  apply elem_of_app in Hx as [Hx|Hx]; [by eapply mergeset_samples_le|]. destruct (Hos _ _ HD Ho Hg) as [Hodp Hw].
  destruct (decide (gd_selected_parent Dp = hash_ORIGIN)) as [He|He]; [inversion Hc; subst; [congruence|by apply elem_of_nil in Hx|congruence]|].
  etrans; [by apply IH|]. apply sortable_le_iff. specialize (Hw He). left. cbn. unfold work_of in *. rewrite HD. done.
Qed.

Lemma every_short rate i l : (length (every rate i l) <= length l)%nat.
Proof using. revert i. induction l as [|b l IH]; intros i; cbn; [lia|]. specialize (IH (i + 1)). destruct (is_multiple_of _ _); cbn; lia. Qed.
End Spec.

(** ** The walk builds the top of the samples *)

Section Walk.
Context {St H : Type} `{GhostdagStoreReader St} `{HeaderStoreReader H} `{MergeJoinSpec}.
Context (self : SampledWindowManager St H) (S : gmap N GhostdagData) (daa_of : N -> Z).
#[local] Abbreviation genesis := (wm_genesis_hash self).
#[local] Abbreviation full_window := (dm_difficulty_window_size (wm_difficulty_manager self) * dm_difficulty_sample_rate (wm_difficulty_manager self)).

(** The stores read [S] and the DAA scores, and widths suffice. *)
Record window_ready : Prop := mk_window_ready {
  wr_reads : reads_map (wm_ghostdag_store self) S;
  wr_daa : forall h, is_Some (S !! h) -> hs_daa_score (wm_headers_store self) h = Ok (daa_of h) /\ 0 <= daa_of h < 2 ^ 62;
  wr_size : Z.of_nat (size S) < 2 ^ 62;
  wr_full : full_window < U64;
  wr_store : ordered_store genesis S
}.
Hypothesis Hready : window_ready.

Lemma cands_bound D cands b : ordered_data S D cands b -> Z.of_nat (length (mergeset_desc S D)) <= 2 ^ 62.
Proof using Hready.
  intros Hod. rewrite (mergeset_desc_cands S D cands b Hod). cbn [length]. rewrite length_reverse, List.length_map.
  assert (Hle : (length cands <= size S)%nat); [|pose proof (wr_size Hready); lia].
  rewrite <- (size_list_to_set (C := gset N) cands) by apply Hod. rewrite <- (size_dom S). apply subseteq_size. intros x Hx%elem_of_list_to_set. apply elem_of_dom. by apply (od_known _ _ _ _ Hod).
Qed.

Lemma desc_known D cands b x : ordered_data S D cands b -> x ∈ mergeset_desc S D -> is_Some (S !! sb_hash x).
Proof using.
  intros Hod. rewrite (mergeset_desc_cands S D cands b Hod). intros [->|Hx]%elem_of_cons; [apply Hod|].
  rewrite elem_of_reverse in Hx. apply list_elem_of_fmap in Hx as (c & -> & Hc). by apply (od_known _ _ _ _ Hod).
Qed.

Lemma mergeset_to_sample_spec D cands b : ordered_data S D cands b ->
  mergeset_to_sample self D (work_of S (gd_selected_parent D)) = Ok (daa_of (gd_selected_parent D), daa_threshold full_window D, mergeset_desc S D).
Proof using Hready H3.
  intros Hod. unfold mergeset_to_sample. destruct (wr_daa Hready _ (od_parent _ _ _ _ Hod)) as [-> _]. cbn [unwrap_res obind].
  unfold lowest_daa_blue_score, difficulty_full_window_size. rewrite umul_lt by apply Hready. cbn [obind]. rewrite usub_le by lia. cbn [obind].
  destruct (iterators_spec (wm_ghostdag_store self) S (wr_reads Hready) D cands b) as (_ & -> & _); try apply Hod. cbn [obind].
  by rewrite (mergeset_desc_cands S D cands b Hod).
Qed.

Lemma sample_block_spec rate daa threshold index b : is_Some (S !! sb_hash b) -> 0 <= daa -> 0 <= index -> daa + index + 1 < U64 ->
  sample_block self rate daa threshold index b =
  Ok (if score_of S (sb_hash b) <? threshold then (index, Some (NonDaa (sb_hash b)))
      else (index + 1, if is_multiple_of (daa + index + 1) rate then Some (Sampled b) else None)).
Proof using Hready.
  intros [D HD] Hd Hi Hov. unfold sample_block, score_of. pose proof (wr_reads Hready). rewrite (rm_score (m := S)), HD. cbn [unwrap_res obind].
  destruct (_ <? _); [done|]. rewrite uadd_lt by lia. cbn [obind]. rewrite uadd_lt by lia. cbn [obind]. by rewrite Z.add_assoc.
Qed.

Lemma push_all_spec k rate daa threshold blocks : (0 < k)%nat -> 0 <= daa -> (forall x, x ∈ blocks -> is_Some (S !! sb_hash x)) ->
  forall index l w inserted, 0 <= index -> daa + index + Z.of_nat (length blocks) < U64 -> is_top k l w ->
  exists w', push_all self rate daa threshold index (mk_bounded w k) inserted blocks = Ok (mk_bounded w' k, inserted ++ non_daa_blocks S threshold blocks) /\
    is_top k (l ++ every rate (daa + index) (daa_blocks S threshold blocks)) w'.
Proof using Hready.
  intros Hk Hd. induction blocks as [|b blocks IH]; intros Hkn index l w inserted Hi Hov Htop; cbn [push_all].
  { exists w. cbn. rewrite !app_nil_r. done. }
  cbn [length] in Hov. rewrite sample_block_spec by first [apply Hkn; left|lia]. specialize (IH ltac:(intros x Hx; apply Hkn; by right)).
  unfold non_daa_blocks, daa_blocks. cbn [List.filter obind]. rewrite (Z.leb_antisym _ threshold). destruct (Z.ltb_spec (score_of S (sb_hash b)) threshold) as [Hlt|Hge]; cbn [negb].
  - destruct (IH index l w (inserted ++ [sb_hash b]) Hi ltac:(lia) Htop) as (w' & -> & Hw'). exists w'. split; [|done]. by rewrite <- app_assoc.
  - cbn [every]. destruct (is_multiple_of (daa + index + 1) rate) eqn:Hm.
    + destruct (try_push_spec k l w b Hk Htop) as (v & p & -> & Hv & _). cbn [fst].
      destruct (IH (index + 1) (l ++ [b]) v inserted ltac:(lia) ltac:(lia) Hv) as (w' & -> & Hw'). exists w'. split; [done|]. by rewrite <- app_assoc, Z.add_assoc in Hw'.
    + destruct (IH (index + 1) l w inserted ltac:(lia) ltac:(lia) Htop) as (w' & -> & Hw'). exists w'. split; [done|]. by rewrite Z.add_assoc in Hw'.
Qed.

Lemma push_while_spec k rate daa threshold blocks : (0 < k)%nat -> 0 <= daa -> (forall x, x ∈ blocks -> is_Some (S !! sb_hash x)) -> StronglySorted (flip sortable_le) blocks ->
  forall index l w, 0 <= index -> daa + index + Z.of_nat (length blocks) < U64 -> is_top k l w ->
  exists w', push_while self rate daa threshold index (mk_bounded w k) blocks = Ok (mk_bounded w' k) /\
    is_top k (l ++ every rate (daa + index) (daa_blocks S threshold blocks)) w'.
Proof using Hready.
  intros Hk Hd. induction blocks as [|b blocks IH]; intros Hkn Hs index l w Hi Hov Htop; cbn [push_while].
  { exists w. cbn. by rewrite app_nil_r. }
  apply StronglySorted_inv in Hs as [Hs Hb].
  cbn [length] in Hov. rewrite sample_block_spec by first [apply Hkn; left|lia]. specialize (IH ltac:(intros x Hx; apply Hkn; by right) Hs).
  unfold daa_blocks. cbn [List.filter obind]. rewrite (Z.leb_antisym _ threshold). destruct (Z.ltb_spec (score_of S (sb_hash b)) threshold) as [Hlt|Hge]; cbn [negb].
  - destruct (IH index l w Hi ltac:(lia) Htop) as (w' & -> & Hw'). by exists w'.
  - cbn [every]. destruct (is_multiple_of (daa + index + 1) rate) eqn:Hm.
    + destruct (try_push_spec k l w b Hk Htop) as (v & p & -> & Hv & Hp). destruct p.
      * destruct (IH (index + 1) (l ++ [b]) v ltac:(lia) ltac:(lia) Hv) as (w' & -> & Hw'). exists w'. split; [done|]. by rewrite <- app_assoc, Z.add_assoc in Hw'.
      * destruct (Hp eq_refl) as (-> & Hf & Hle). exists w. split; [done|]. apply is_top_extend; [done|done|]. intros x y Hx [->|Hy]%elem_of_cons; [by apply Hle|].
        etrans; [|by apply Hle]. rewrite Forall_forall in Hb. by apply every_sub, daa_blocks_sub, Hb in Hy.
    + destruct (IH (index + 1) l w ltac:(lia) ltac:(lia) Htop) as (w' & -> & Hw'). exists w'. split; [done|]. by rewrite Z.add_assoc in Hw'.
Qed.

Lemma push_mergeset_spec k rate D cands b l w : (0 < k)%nat -> ordered_data S D cands b -> is_top k l w ->
  exists w', push_mergeset self (mk_bounded w k) rate D (work_of S (gd_selected_parent D)) = Ok (mk_bounded w' k) /\ is_top k (l ++ mergeset_samples S daa_of full_window rate D) w'.
Proof using Hready H3.
  intros Hk Hod Htop. unfold push_mergeset. rewrite (mergeset_to_sample_spec D cands b Hod). cbn [obind]. unfold mergeset_samples. destruct (wr_daa Hready _ (od_parent _ _ _ _ Hod)) as [_ Hd].
  pose proof (cands_bound D cands b Hod).
  destruct (push_while_spec k rate (daa_of (gd_selected_parent D)) (daa_threshold full_window D) (mergeset_desc S D) Hk ltac:(lia) ltac:(intros x Hx; by eapply desc_known)
    ltac:(by eapply mergeset_desc_sorted) 0 l w ltac:(lia) ltac:(lia) Htop) as (w' & Hw & Hw'). rewrite Z.add_0_r in Hw'. by exists w'.
Qed.
Lemma push_mergeset_inserting_spec k rate D cands b l w : (0 < k)%nat -> ordered_data S D cands b -> is_top k l w ->
  exists w', push_mergeset_inserting self (mk_bounded w k) rate D (work_of S (gd_selected_parent D)) = Ok (mk_bounded w' k, non_daa_blocks S (daa_threshold full_window D) (mergeset_desc S D)) /\
    is_top k (l ++ mergeset_samples S daa_of full_window rate D) w'.
Proof using Hready H3.
  intros Hk Hod Htop. unfold push_mergeset_inserting. rewrite (mergeset_to_sample_spec D cands b Hod). cbn [obind]. unfold mergeset_samples. destruct (wr_daa Hready _ (od_parent _ _ _ _ Hod)) as [_ Hd].
  pose proof (cands_bound D cands b Hod).
  destruct (push_all_spec k rate (daa_of (gd_selected_parent D)) (daa_threshold full_window D) (mergeset_desc S D) Hk ltac:(lia) ltac:(intros x Hx; by eapply desc_known) 0 l w [] ltac:(lia)
    ltac:(lia) Htop) as (w' & Hw & Hw'). rewrite Z.add_0_r in Hw'. by exists w'.
Qed.

(** What is expected of a window of [k] blocks. *)
Definition window_result (k : nat) (l : list SortableBlock) (trusted : bool) (r : bpres BlockWindowHeap) : Prop :=
  if trusted && (length l <? k)%nat then r = Err (InsufficientDaaWindowSize (length l)) else exists w, r = Ok w /\ is_top k l w.

(** Cached windows are the windows of their blocks. *)
Definition cache_right (rate : Z) (k : nat) (cache : gmap N BlockWindowHeap) : Prop := forall h w, cache !! h = Some w ->
  exists D n l trusted, S !! h = Some D /\ chain_samples genesis S daa_of full_window rate n D l trusted /\ is_top k l w /\ (trusted = true -> (k <= length l)%nat).

Lemma window_loop_spec k rate cache : (0 < k)%nat -> cache_right rate k cache ->
  forall n D l' t, chain_samples genesis S daa_of full_window rate n D l' t -> forall fuel l w, (n < fuel)%nat ->
  (gd_selected_parent D <> hash_ORIGIN -> gd_selected_parent D <> genesis -> exists cands b, ordered_data S D cands b) -> is_top k l w ->
  window_result k (l ++ l') t (window_loop self fuel rate cache (mk_bounded w k) D).
Proof using Hready H3.
  intros Hk Hcache n D l' t. induction 1 as [D Hg Ho|D Hg Ho|n D Dp l' t Hg Ho HD Hc IH]; intros [|fuel] l w Hf Hod Htop; try lia; cbn [window_loop].
  - rewrite app_nil_r. rewrite (proj2 (N.eqb_neq _ _)) by congruence. rewrite Hg, N.eqb_refl. by exists w.
  - rewrite app_nil_r. rewrite Hg, N.eqb_refl. unfold window_result, reached_size_bound. cbn [bh_binary_heap bh_size_bound].
    destruct Htop as (rest & Hp & Hlen & Hle). destruct (Nat.eqb_spec (length w) k) as [He|He].
    + rewrite (proj2 (Nat.ltb_ge _ _)) by lia. exists w. split; [done|]. by exists rest.
    + rewrite (proj2 (Nat.ltb_lt _ _)) by lia. cbn [andb]. do 2 f_equal. lia.
  - rewrite (proj2 (N.eqb_neq _ _) Ho), (proj2 (N.eqb_neq _ _) Hg). pose proof (wr_reads Hready). rewrite (rm_data (m := S)), HD. cbn [unwrap_res obind].
    destruct (Hod Ho Hg) as (cands & b & HodD). destruct (wr_store Hready _ _ HD Ho Hg) as [Hodp _].
    assert (Hkey : mk_sortable (gd_selected_parent D) (gd_blue_work Dp) = key_of S (gd_selected_parent D)) by (unfold key_of, work_of; by rewrite HD).
    assert (Hwork : gd_blue_work Dp = work_of S (gd_selected_parent D)) by (unfold work_of; by rewrite HD). rewrite Hkey.
    assert (Hcan : can_push (mk_bounded w k) (key_of S (gd_selected_parent D)) = Ok true \/
      can_push (mk_bounded w k) (key_of S (gd_selected_parent D)) = Ok false /\ length w = k /\ forall x, x ∈ w -> sortable_le (key_of S (gd_selected_parent D)) x).
    { unfold can_push, reached_size_bound. cbn [bh_binary_heap bh_size_bound]. destruct (Nat.eqb_spec (length w) k) as [He|]; [|by left].
      destruct (heap_peek_some w) as [m Hm]; [intros ->; cbn in He; lia|]. rewrite Hm. cbn [unwrap obind]. destruct (heap_peek_spec w m Hm) as [_ Hmin].
      destruct (sortable_cmp m _) eqn:Hcmp; [by left|by left|]. right. split_and!; [done|done|]. intros x Hx. etrans; [|by apply Hmin]. apply sortable_not_le. unfold sortable_le. congruence. }
    destruct Hcan as [-> | (-> & Hfull & Hle)]; cbn [unwrap_res obind negb].
    + rewrite Hwork. destruct (push_mergeset_spec k rate D cands b l w Hk HodD Htop) as (w' & -> & Hw'). cbn [unwrap_res obind].
      unfold try_merge_with_selected_parent_cache. destruct (cache !! gd_selected_parent D) as [cw|] eqn:Hcw.
      * destruct (Hcache _ _ Hcw) as (D' & n' & l'' & t' & HD' & Hc' & Htop' & Ht'). assert (D' = Dp) as -> by congruence.
        destruct (chain_samples_functional _ _ _ _ _ _ _ _ _ _ _ _ Hc Hc') as (<- & <- & <-).
        destruct (merge_ancestor_top k _ _ w' cw Hw' Htop') as (v & -> & Hv). rewrite <- app_assoc in Hv. unfold window_result. cbn [bh_binary_heap].
        destruct t; cbn [andb]; [|by exists v]. rewrite (proj2 (Nat.ltb_ge _ _)) by (specialize (Ht' eq_refl); rewrite !length_app; lia). by exists v.
      * rewrite app_assoc. apply IH; [lia|done|done].
    + assert (Hall : is_top k (l ++ mergeset_samples S daa_of full_window rate D ++ l') w).
      { apply is_top_extend; [done|done|]. intros x y Hx Hy. etrans; [|by apply Hle]. eapply (chain_samples_le genesis S daa_of full_window rate); [apply Hready|by eapply cs_step|by eexists _, _|done]. }
      unfold window_result. destruct Hall as (r & Hp & Hlen & Hr). rewrite (proj2 (Nat.ltb_ge _ _)) by lia. rewrite andb_false_r. exists w. split; [done|]. by exists r.
Qed.

(** The hashes that leave the DAA score: genesis, or those below the threshold. *)
Definition left_out (D : GhostdagData) : list N :=
  if (gd_selected_parent D =? genesis)%N then [genesis] else non_daa_blocks S (daa_threshold full_window D) (mergeset_desc S D).

Lemma build_window_spec fuel D window_type n l t : let k := window_size self window_type in let rate := sample_rate self window_type in
  (0 < k)%nat -> cache_right rate k (cache_of self window_type) -> chain_samples genesis S daa_of full_window rate n D l t -> (n <= fuel)%nat ->
  (gd_selected_parent D <> hash_ORIGIN -> gd_selected_parent D <> genesis -> exists cands b, ordered_data S D cands b) ->
  if t && (length l <? k)%nat then build_block_window fuel self D window_type = Err (InsufficientDaaWindowSize (length l))
  else exists w, build_block_window fuel self D window_type = Ok (w, left_out D) /\ is_top k l w.
Proof using Hready H3.
  intros k rate Hk Hcache Hc Hf Hod. unfold build_block_window, left_out. fold k rate. rewrite (proj2 (Nat.eqb_neq _ _)) by lia.
  inversion Hc as [D' Hg Ho|D' Hg Ho|n' D' Dp l' t' Hg Ho HD Hc']; subst.
  - rewrite Hg, N.eqb_refl. exists []. split; [done|apply is_top_nil].
  - rewrite (proj2 (N.eqb_neq _ _)) by congruence. rewrite Hg, N.eqb_refl. by rewrite (proj2 (Nat.ltb_lt _ _)).
  - rewrite (proj2 (N.eqb_neq _ _) Ho), (proj2 (N.eqb_neq _ _) Hg). destruct (Hod Ho Hg) as (cands & b & HodD). destruct (wr_store Hready _ _ HD Ho Hg) as [Hodp _]. pose proof (wr_reads Hready).
    assert (Hwork : gd_blue_work Dp = work_of S (gd_selected_parent D)) by (unfold work_of; by rewrite HD). rewrite (rm_work (m := S)), HD. cbn [unwrap_res obind]. rewrite Hwork.
    unfold try_init_from_cache. destruct (cache_of self window_type !! gd_selected_parent D) as [cw|] eqn:Hcw.
    + destruct (Hcache _ _ Hcw) as (D' & n'' & l'' & t'' & HD' & Hc'' & Htop & Ht). assert (D' = Dp) as -> by congruence.
      destruct (chain_samples_functional _ _ _ _ _ _ _ _ _ _ _ _ Hc' Hc'') as (<- & <- & <-). unfold bounded_from_binary_heap.
      destruct (push_mergeset_inserting_spec k rate D cands b l' cw Hk HodD Htop) as (w' & -> & Hw'). cbn [unwrap_res obind bh_binary_heap].
      assert (Htop' : is_top k (mergeset_samples S daa_of full_window rate D ++ l') w') by (eapply is_top_perm; [apply Permutation_app_comm|done|exact Hw']).
      destruct t; cbn [andb]; [|by exists w']. rewrite (proj2 (Nat.ltb_ge _ _)) by (specialize (Ht eq_refl); rewrite !length_app; lia). by exists w'.
    + unfold bounded_new, bounded_from_binary_heap. cbn [unwrap_res obind].
      destruct (push_mergeset_inserting_spec k rate D cands b [] [] Hk HodD (is_top_nil k)) as (w' & -> & Hw'). cbn [unwrap_res obind]. rewrite (rm_data (m := S)), HD. cbn [unwrap_res obind].
      pose proof (window_loop_spec k rate _ Hk Hcache n' Dp l' t Hc' fuel _ w' ltac:(lia) ltac:(intros; done) Hw') as Hres. unfold window_result in Hres. cbn [app] in Hres.
      destruct (t && _); [by rewrite Hres|]. destruct Hres as (v & -> & Hv). by exists v.
Qed.

Lemma non_daa_sub threshold l : sublist (non_daa_blocks S threshold l) (List.map sb_hash l).
Proof using. unfold non_daa_blocks. induction l as [|b l IH]; [done|]. cbn [List.filter List.map]. destruct (_ <? _); cbn [List.map]; [by apply sublist_skip|by apply sublist_cons]. Qed.
Lemma left_out_size D cands b : ordered_data S D cands b -> NoDup (left_out D) /\ (length (left_out D) <= mergeset_size D)%nat.
Proof using.
  intros Hod. unfold left_out, mergeset_size. rewrite (od_blues _ _ _ _ Hod). cbn [length]. destruct (_ =? _)%N; [split; [apply NoDup_singleton|cbn; lia]|].
  pose proof (non_daa_sub (daa_threshold full_window D) (mergeset_desc S D)) as Hsub. rewrite (mergeset_desc_cands S D cands b Hod) in *. cbn [List.map key_of sb_hash] in Hsub.
  assert (Hm : List.map sb_hash (reverse (List.map (key_of S) cands)) = reverse cands).
  { rewrite (fmap_reverse sb_hash (List.map (key_of S) cands) : List.map _ _ = _). f_equal. change (sb_hash <$> List.map (key_of S) cands) with (List.map sb_hash (List.map (key_of S) cands)).
    rewrite List.map_map. cbn. apply List.map_id. }
  rewrite Hm in Hsub. split.
  - eapply sublist_NoDup; [|exact Hsub]. apply NoDup_cons. rewrite elem_of_reverse. split; [apply Hod|]. rewrite reverse_Permutation. apply Hod.
  - apply sublist_length in Hsub. cbn [length] in Hsub. rewrite length_reverse in Hsub. pose proof (Permutation_length (splits_perm _ _ _ (od_splits _ _ _ _ Hod))) as Hl. rewrite length_app in Hl. lia.
Qed.

Lemma daa_window_spec fuel D n l t cands b : let k := window_size self DifficultyWindow in let rate := sample_rate self DifficultyWindow in
  (0 < k)%nat -> cache_right rate k (cache_of self DifficultyWindow) -> chain_samples genesis S daa_of full_window rate n D l t -> (n <= fuel)%nat ->
  ordered_data S D cands b -> t && (length l <? k)%nat = false ->
  exists w, block_daa_window fuel self D = Ok (mk_daa_window w (daa_of (gd_selected_parent D) + (Z.of_nat (mergeset_size D) - Z.of_nat (length (left_out D)))) (list_to_set (left_out D))) /\ is_top k l w.
Proof using Hready H3.
  intros k rate Hk Hcache Hc Hf Hod Ht. pose proof (build_window_spec fuel D DifficultyWindow n l t Hk Hcache Hc Hf ltac:(by eexists _, _)) as Hb. fold k rate in Hb. cbv zeta in Hb.
  change (window_size self DifficultyWindow) with k in Hb. rewrite Ht in Hb. destruct Hb as (w & Hb & Htop). exists w. split; [|done]. unfold block_daa_window. rewrite Hb. cbn [obind].
  destruct (left_out_size D cands b Hod) as [Hnd Hle]. unfold internal_calc_daa_score. destruct (wr_daa Hready _ (od_parent _ _ _ _ Hod)) as [-> Hd]. cbn [unwrap_res obind].
  rewrite size_list_to_set by done. rewrite usub_le by lia. cbn [unwrap_res obind].
  assert (Hms : Z.of_nat (mergeset_size D) <= 2 ^ 62).
  { etrans; [|apply (cands_bound D cands b Hod)]. rewrite (mergeset_desc_cands S D cands b Hod). unfold mergeset_size. rewrite (od_blues _ _ _ _ Hod). cbn [length].
    rewrite length_reverse, List.length_map. pose proof (Permutation_length (splits_perm _ _ _ (od_splits _ _ _ _ Hod))) as Hl. rewrite length_app in Hl. lia. }
  by rewrite uadd_lt by lia.
Qed.
End Walk.

(** C7: the window of a block is the sampled blocks of highest blue work.  The samples are the
    blocks of the mergesets down the selected chain, above genesis, that count for the DAA
    score and whose DAA index is a multiple of the sample rate.  The windows cached for
    earlier blocks, the early end of the walk and of each mergeset change nothing: whatever
    correct windows the cache holds the result is the same up to order.  When trusted data
    ends before the window is full the walk reports the number of samples.  The blocks given
    to the inserter are those below the DAA threshold, and the DAA score counts the others. *)
Theorem block_windows_exact {St H : Type} `{GhostdagStoreReader St} `{HeaderStoreReader H} `{MergeJoinSpec} (self : SampledWindowManager St H)
    (S : gmap N GhostdagData) (daa_of : N -> Z) (fuel : nat) (D : GhostdagData) (window_type : WindowType) n l t cands b :
  let full := dm_difficulty_window_size (wm_difficulty_manager self) * dm_difficulty_sample_rate (wm_difficulty_manager self) in
  let k := window_size self window_type in
  let short := t && (length l <? k)%nat in
  window_ready self S daa_of -> (0 < k)%nat -> cache_right self S daa_of (sample_rate self window_type) k (cache_of self window_type) ->
  chain_samples (wm_genesis_hash self) S daa_of full (sample_rate self window_type) n D l t -> (n <= fuel)%nat -> ordered_data S D cands b ->
  (if short then build_block_window fuel self D window_type = Err (InsufficientDaaWindowSize (length l))
   else exists w, build_block_window fuel self D window_type = Ok (w, left_out self S D) /\ is_top k l w) /\
  (window_type = DifficultyWindow -> short = false -> exists w, is_top k l w /\ block_daa_window fuel self D =
     Ok (mk_daa_window w (daa_of (gd_selected_parent D) + (Z.of_nat (mergeset_size D) - Z.of_nat (length (left_out self S D)))) (list_to_set (left_out self S D)))).
Proof.
  intros full k short Hready Hk Hcache Hc Hf Hod. split.
  - by apply (build_window_spec self S daa_of Hready fuel D window_type n l t); [..|by eexists _, _].
  - intros -> Hs. destruct (daa_window_spec self S daa_of Hready fuel D n l t cands b Hk Hcache Hc Hf Hod Hs) as (w & Hw & Htop). by exists w.
Qed.

(** ** GHOSTDAG keeps the stored mergesets in order *)

Lemma ghostdag_ordered {St U H : Type} `{GhostdagStoreReader St} `{ReachabilityService U} `{HeaderStoreReader H}
    (fuel : nat) (self : GhostdagManager St U H) (G : dag) (anc : N -> N -> bool) (S : gmap N GhostdagData) (w : N -> Z) (ps : list N) D :
  ghostdag_ok (gm_genesis_hash self) (gm_k self) w G anc S -> serves self G anc S w -> parents_ok G ps ->
  Z.of_nat (size (dom G)) < U64 -> (length ps + 2 * size (dom G) + 4 <= fuel)%nat -> ghostdag fuel self ps = Ok D ->
  (exists cands b, ordered_data S D cands b) /\ (gd_selected_parent D <> hash_ORIGIN -> work_of S (gd_selected_parent D) < gd_blue_work D).
Proof.
  intros Hok Hs Hp Hsz Hf HD. destruct (ghostdag_spec fuel self G anc S w ps Hok Hs Hp Hsz Hf) as (D' & l & HD' & Hin & Hmax & _ & [Hnd Hms] & Hinc & Hg).
  rewrite HD in HD'. apply Ok_inj in HD' as <-.
  assert (Hsp : is_Some (S !! gd_selected_parent D)) by (apply (go_dom _ _ _ _ _ _ Hok), (pa_known _ _ Hp), Hin). split.
  2: { intros Ho. destruct Hsp as [Dp HDp]. specialize (Hinc _ Dp Hin Ho HDp). unfold work_of. by rewrite HDp. }
  destruct (decide (gd_selected_parent D = hash_ORIGIN)) as [He|Ho].
  { destruct (origin_data fuel self G anc S w ps D Hok Hs Hp Hsz Hf HD He) as [Hb Hr]. exists [], [].
    split; [done|by intros x ?%elem_of_nil|constructor|by intros ?%elem_of_nil|constructor|by rewrite Hb, He|rewrite Hr; constructor|by intros x ?%elem_of_nil]. }
  destruct (Hg Ho) as (Dp & base & cands & HDp & _ & Hc & Hndc & Hsort & Hgr & _). destruct (greedy_splits anc (gm_k self) base (gd_selected_parent D) cands) as (b & Hb & Hsp').
  rewrite <- Hgr in Hb, Hsp'. exists cands, b. split; [done| |done| |done|done|done|].
  - intros x [(p & Hpp & Hd) _]%Hc. by eapply dag_known_l.
  - intros [_ Hn]%Hc. apply Hn. constructor. apply (pa_known _ _ Hp), Hin.
  - intros x [(p & Hpp & Hd) Hn]%Hc. destruct (decide (x = p)) as [->|Hxp]; [by apply Hmax|].
    destruct (dag_known_l _ _ _ _ _ _ Hok _ _ Hd) as [Dx HDx]. destruct (dag_known_r _ _ _ _ _ _ Hok _ _ Hd) as [Dq HDq].
    assert (Hxo : x <> hash_ORIGIN) by (intros ->; apply Hn, (go_root _ _ _ _ _ _ Hok), (pa_known _ _ Hp), Hin).
    pose proof (work_increasing _ _ _ _ _ _ Hok x p Dx Dq Hd Hxp Hxo HDx HDq) as Hw. etrans; [|by apply Hmax]. apply sortable_le_iff. left. unfold key_of, work_of. cbn. by rewrite HDx, HDq.
Qed.

Section Extend.
Context (genesis n : N) (S : gmap N GhostdagData) (D : GhostdagData).
Hypothesis Hn : S !! n = None.

Lemma key_of_extend x : is_Some (S !! x) -> key_of (<[n := D]> S) x = key_of S x.
Proof using Hn. intros [Dx HDx]. unfold key_of, work_of. rewrite lookup_insert_ne; [done|]. intros ->. congruence. Qed.

Lemma ordered_data_extend D' cands b : ordered_data S D' cands b -> ordered_data (<[n := D]> S) D' cands b.
Proof using Hn.
  intros [Hp Hk Hnd Hf Hs Hb Hsp Hm]. assert (Hext : forall x, is_Some (S !! x) -> is_Some (<[n := D]> S !! x)) by (intros x [Dx Hx]; rewrite lookup_insert_ne; [by eexists|]; intros ->; congruence).
  split; [by apply Hext|by auto|done|done| |done|done|].
  - clear Hnd Hf Hsp Hm. induction Hs as [|x l Hs IH Hx]; constructor; [apply IH; intros y Hy; apply Hk; by right|]. rewrite Forall_forall in Hx |- *. intros y Hy.
    rewrite !key_of_extend by (apply Hk; first [left|by right]). by apply Hx.
  - intros x Hx. rewrite !key_of_extend by auto. by apply Hm.
Qed.

Lemma ordered_store_extend : ordered_store genesis S -> (exists cands b, ordered_data S D cands b) ->
  (gd_selected_parent D <> hash_ORIGIN -> work_of S (gd_selected_parent D) < gd_blue_work D) -> ordered_store genesis (<[n := D]> S).
Proof using Hn.
  intros Hos (cands & b & Hod) Hw h D' HD' Ho Hg.
  assert (Hwork : forall p cs bs Dx, ordered_data S Dx cs bs -> p = gd_selected_parent Dx -> work_of (<[n := D]> S) p = work_of S p).
  { intros p cs bs Dx Hx ->. unfold work_of. destruct (od_parent _ _ _ _ Hx) as [? Hx']. rewrite lookup_insert_ne; [done|]. intros ->. congruence. }
  destruct (decide (h = n)) as [->|Hne].
  - rewrite lookup_insert_eq in HD'. injection HD' as <-. split; [eexists _, _; by apply ordered_data_extend|]. intros Hsp. rewrite (Hwork _ _ _ _ Hod eq_refl). auto.
  - rewrite lookup_insert_ne in HD' by done. destruct (Hos h D' HD' Ho Hg) as [(cs & bs & Hod') Hw']. split; [eexists _, _; by apply ordered_data_extend|].
    intros Hsp. rewrite (Hwork _ _ _ _ Hod' eq_refl). auto.
Qed.
End Extend.

(** ** Witness: block 4 on top of 2 and 3, with the window of 3 cached *)

#[local] Existing Instance constant_headers.
#[local] Existing Instance ex_merge_join.
#[local] Existing Instance ex_merge_join_spec.

Definition wx_data : GhostdagData := ex_data gG3 gS3 gr3 [2%N; 3%N].
Definition wx_manager : SampledWindowManager MemoryGhostdagStore unit :=
  mk_window_manager _ _ 1%N (store_of gS3) tt {[ 3%N := [] ]} ∅ 1 2 1 1 (mk_sdm 1%N 0 (uint256_to_320 (replicate 4 1)) 1 0 2 1000).
Lemma wx_new : window_manager_new 1%N 0 (store_of gS3) tt {[ 3%N := [] ]} ∅ (replicate 4 1) 1000 1 0 2 1 1 = Ok wx_manager.
Proof. reflexivity. Qed.

Lemma gS3_cases h D : gS3 !! h = Some D -> h <> hash_ORIGIN -> h <> 1%N -> (h = 2%N \/ h = 3%N) /\ gd_selected_parent D = 1%N /\ gd_mergeset_blues D = [1%N] /\ gd_mergeset_reds D = [] /\ 0 < gd_blue_work D.
Proof.
  intros HD Ho Hg. unfold gS3, gS2, gS1, genesis_store in HD. rewrite !lookup_insert_Some, lookup_singleton_Some in HD.
  destruct HD as [[<- <-]|[_ [[<- <-]|[_ HD]]]].
  - split; [by right|]. vm_compute. done.
  - split; [by left|]. vm_compute. done.
  - exfalso. naive_solver.
Qed.
Lemma wx_ready : window_ready wx_manager gS3 (fun _ => 0).
Proof.
  split.
  - apply mg_reads. by split.
  - intros h _. split; [done|lia].
  - by vm_compute.
  - by vm_compute.
  - intros h D HD Ho Hg. destruct (gS3_cases h D HD Ho Hg) as (_ & Hsp & Hb & Hr & Hw). split; [|intros _; rewrite Hsp; exact Hw].
    exists [], []. split; [rewrite Hsp; vm_compute; by eexists|by intros x ?%elem_of_nil|constructor|by intros ?%elem_of_nil|constructor|by rewrite Hb, Hsp|rewrite Hr; constructor|by intros x ?%elem_of_nil].
Qed.

Lemma wx_chain_3 rate full D : gS3 !! 3%N = Some D -> chain_samples 1%N gS3 (fun _ => 0) full rate 0 D [] false.
Proof. intros HD. destruct (gS3_cases 3%N D HD ltac:(done) ltac:(done)) as (_ & Hsp & _). by constructor. Qed.

Lemma wx_parent : gd_selected_parent wx_data = 3%N.
Proof. by vm_compute. Qed.

Lemma wx_ordered : exists cands b, ordered_data gS3 wx_data cands b.
Proof.
  apply (ghostdag_ordered 50 (ex_manager_of gG3 gS3 gr3) gG3 (query gr3) gS3 exw_of [2%N; 3%N] wx_data gS3_ok g3_serves g3_parents); [by vm_compute|by apply (Nat.leb_le _ 50); vm_compute|].
  vm_compute. reflexivity.
Qed.

Lemma block_windows_exact_witness : exists w, build_block_window 2 wx_manager wx_data DifficultyWindow = Ok (w, left_out wx_manager gS3 wx_data) /\
  is_top 1 (mergeset_samples gS3 (fun _ => 0) 2 2 wx_data ++ []) w /\ w = [key_of gS3 2%N].
Proof.
  destruct wx_ordered as (cands & b & Hod). destruct (gS3 !! 3%N) as [D3|] eqn:H3; [|exfalso; by vm_compute in H3].
  destruct (block_windows_exact wx_manager gS3 (fun _ => 0) 2 wx_data DifficultyWindow 1 (mergeset_samples gS3 (fun _ => 0) 2 2 wx_data ++ []) false cands b) as [(w & Hw & Htop) _].
  - exact wx_ready.
  - cbn. lia.
  - intros h w Hh. change (({[ 3%N := [] ]} : gmap N BlockWindowHeap) !! h = Some w) in Hh. apply lookup_singleton_Some in Hh as [<- <-]. exists D3, 0%nat, [], false. split_and!; [done|by apply wx_chain_3|apply is_top_nil|done].
  - apply (cs_step _ _ _ _ _ 0 wx_data D3 [] false); [by rewrite wx_parent|by rewrite wx_parent|by rewrite wx_parent|by apply wx_chain_3].
  - lia.
  - exact Hod.
  - exists w. split_and!; [exact Hw|exact Htop|]. assert (Hc : (let! p := build_block_window 2 wx_manager wx_data DifficultyWindow in Ok p.1) = Ok [key_of gS3 2%N]) by (vm_compute; reflexivity).
    rewrite Hw in Hc. by injection Hc.
Defined.
