(* ===== verification/Pow.v ===== *)
(** * Proof of work

    Model of consensus/pow (lib.rs, matrix.rs, xoshiro.rs) and of the proof of work hashers
    of crypto/hashes/src/pow_hashers.rs.  A header's hash seeds a generator of 64 by 64
    matrices of nibbles; the first one of full rank (computed in [f64]) is applied to the
    hash with the nonce.  The permutation Keccak-f[1600] is the class [Keccak]. *)

From Stdlib Require Import ZArith Lia Bool SpecFloat.
From stdpp Require Import base numbers list.
From S2P Require Import Prelude Interval Uint UintLemmas Tx Header Hashing HashingProps Difficulty DifficultyProps.

#[local] Open Scope Z_scope.

(** ** Words of hashes *)

Definition hash_from_bytes (bs : list Z) : N := Z.to_N (of_le_bytes (rev bs)).
Definition hash_to_le_u64 (h : N) : list Z := List.map of_le_bytes (chunks8 4 (hash_as_bytes h)).
Definition hash_from_le_u64 (ws : list Z) : N := hash_from_bytes (concat (List.map (le_bytes 8) ws)).

(** ** xoshiro.rs *)

Record XoShiRo256PlusPlus := mk_xoshiro {
  xs_s0 : Z;
  xs_s1 : Z;
  xs_s2 : Z;
  xs_s3 : Z
}.
Definition xoshiro_new (h : N) : XoShiRo256PlusPlus :=
  let ws := hash_to_le_u64 h in mk_xoshiro (nth 0 ws 0) (nth 1 ws 0) (nth 2 ws 0) (nth 3 ws 0).

(** [u64::rotate_left] *)
Definition rotate_left (x n : Z) : Z := Z.lor (Z.shiftl x n mod U64) (Z.shiftr x (64 - n)).

Definition xoshiro_u64 (g : XoShiRo256PlusPlus) : Z * XoShiRo256PlusPlus :=
  let res := (xs_s0 g + rotate_left ((xs_s0 g + xs_s3 g) mod U64) 23) mod U64 in
  let t := Z.shiftl (xs_s1 g) 17 mod U64 in
  let s2 := Z.lxor (xs_s2 g) (xs_s0 g) in
  let s3 := Z.lxor (xs_s3 g) (xs_s1 g) in
  let s1 := Z.lxor (xs_s1 g) s2 in
  let s0 := Z.lxor (xs_s0 g) s3 in
  let s2 := Z.lxor s2 t in
  let s3 := rotate_left s3 45 in
  (res, mk_xoshiro s0 s1 s2 s3).

(** ** matrix.rs *)

Abbreviation Matrix := (list (list Z)).

(** One element of a row: the generator runs at every sixteenth. *)
Definition rand_element (acc : list Z * Z * XoShiRo256PlusPlus) (j : nat) : list Z * Z * XoShiRo256PlusPlus :=
  let '(row, val, g) := acc in
  let shift := (j mod 16)%nat in
  let '(val, g) := if (shift =? 0)%nat then xoshiro_u64 g else (val, g) in
  (row ++ [Z.land (Z.shiftr val (4 * Z.of_nat shift)) 0x0F mod U16], val, g).
Definition rand_row (acc : Matrix * XoShiRo256PlusPlus) (_ : nat) : Matrix * XoShiRo256PlusPlus :=
  let '(row, _, g) := foldl rand_element ([], 0, acc.2) (seq 0 64) in
  (acc.1 ++ [row], g).
Definition rand_matrix_no_rank_check (g : XoShiRo256PlusPlus) : Matrix * XoShiRo256PlusPlus := foldl rand_row ([], g) (seq 0 64).

Definition convert_to_float (m : Matrix) : list (list spec_float) := List.map (List.map f64_of_u64) m.

(** [1e-9] *)
Definition EPS : spec_float := S754_finite false 0x112e0be826d695 (-82).
Definition above_eps (x : spec_float) : bool := SFltb EPS (SFabs x).
Definition felem (m : list (list spec_float)) (j i : nat) : spec_float := nth i (nth j m []) f64_zero.

(** The first row not selected with an element in column [i]. *)
Fixpoint find_row (i : nat) (selected : list bool) (m : list (list spec_float)) (j : nat) : option nat :=
  match selected, m with
  | s :: selected', row :: m' => if negb s && above_eps (nth i row f64_zero) then Some j else find_row i selected' m' (S j)
  | _, _ => None
  end.

(** The columns after [i] of row [j] are divided by its element in column [i], then
    subtracted from the other rows. *)
Definition update_from (i : nat) (f : nat -> spec_float -> spec_float) (row : list spec_float) : list spec_float :=
  imap (fun p x => if (i <? p)%nat then f p x else x) row.
Definition normalize_row (i : nat) (row : list spec_float) : list spec_float :=
  update_from i (fun _ x => f64_div x (nth i row f64_zero)) row.
Definition eliminate_row (i : nat) (pivot row : list spec_float) : list spec_float :=
  if above_eps (nth i row f64_zero)
  then update_from i (fun p x => SFsub 53 1024 x (f64_mul (nth p pivot f64_zero) (nth i row f64_zero))) row
  else row.
Definition rank_column (acc : nat * list bool * list (list spec_float)) (i : nat) : nat * list bool * list (list spec_float) :=
  let '(rank, selected, m) := acc in
  match find_row i selected m 0 with
  | None => acc
  | Some j =>
      let pivot := normalize_row i (nth j m []) in
      (S rank, <[j := true]> selected, imap (fun k row => if (k =? j)%nat then pivot else eliminate_row i pivot row) m)
  end.
Definition compute_rank (self : Matrix) : nat :=
  (foldl rank_column (0%nat, replicate 64 false, convert_to_float self) (seq 0 64)).1.1.

Fixpoint generate_loop (fuel : nat) (g : XoShiRo256PlusPlus) : panics Matrix :=
  match fuel with
  | O => OutOfFuel
  | S fuel' =>
      let '(mat, g) := rand_matrix_no_rank_check g in
      if (compute_rank mat =? 64)%nat then Ok mat else generate_loop fuel' g
  end.
Definition generate (fuel : nat) (h : N) : panics Matrix := generate_loop fuel (xoshiro_new h).

(** The sum of a row: [u16] products and sums. *)
Fixpoint row_sum (sum : Z) (row vec : list Z) : panics Z :=
  match row, vec with
  | x :: row', v :: vec' =>
      let! p := umul U16 x v in
      let! sum := uadd U16 sum p in
      row_sum sum row' vec'
  | _, [] => Ok sum
  | [], _ :: _ => Panic
  end.
Definition hash_nibbles (h : N) : list Z := concat (List.map (fun e => [Z.shiftr e 4; Z.land e 0x0F]) (hash_as_bytes h)).

Definition product_byte (self : Matrix) (vec : list Z) (i : nat) : panics Z :=
  let! row1 := unwrap (self !! (2 * i)%nat) in
  let! row2 := unwrap (self !! (2 * i + 1)%nat) in
  let! sum1 := row_sum 0 row1 vec in
  let! sum2 := row_sum 0 row2 vec in
  Ok (Z.lor (Z.shiftl (Z.shiftr sum1 10) 4 mod U16 mod 256) (Z.shiftr sum2 10 mod 256)).

Section WithKeccak.

(** ** pow_hashers.rs *)

Class Keccak := f1600 : list Z -> list Z.
Context `{Keccak}.

Definition POW_INITIAL_STATE : list Z := [
  1242148031264380989; 3008272977830772284; 2188519011337848018; 1992179434288343456; 8876506674959887717;
  5399642050693751366; 1745875063082670864; 8605242046444978844; 17936695144567157056; 3343109343542796272;
  1123092876221303306; 4963925045340115282; 17037383077651887893; 16629644495023626889; 12833675776649114147;
  3784524041015224902; 1082795874807940378; 13952716920571277634; 13411128033953605860; 15060696040649351053;
  9928834659948351306; 5237849264682708699; 12825353012139217522; 6706187291358897596; 196324915476054915 ].
Definition HEAVY_INITIAL_STATE : list Z := [
  4239941492252378377; 8746723911537738262; 8796936657246353646; 1272090201925444760; 16654558671554924250;
  8270816933120786537; 13907396207649043898; 6782861118970774626; 9239690602118867528; 11582319943599406348;
  17596056728278508070; 15212962468105129023; 7812475424661425213; 3370482334374859748; 5690099369266491460;
  8596393687355028144; 570094237299545110; 9119540418498120711; 16901969272480492857; 13372017233735502424;
  14372891883993151831; 5171152063242093102; 10573107899694386186; 6096431547456407061; 1592359455985097269 ].

(** [state_word ^= word] for the words that there are. *)
Fixpoint xor_words (ws state : list Z) : list Z :=
  match ws, state with
  | w :: ws', s :: state' => Z.lxor s w :: xor_words ws' state'
  | _, _ => state
  end.
Definition xor_at (i : nat) (x : Z) (state : list Z) : list Z := alter (fun s => Z.lxor s x) i state.

Definition pow_hash_new (pre_pow_hash : N) (timestamp : Z) : list Z := xor_at 4 timestamp (xor_words (hash_to_le_u64 pre_pow_hash) POW_INITIAL_STATE).
Definition finalize_with_nonce (self : list Z) (nonce : Z) : N := hash_from_le_u64 (take 4 (f1600 (xor_at 9 nonce self))).
Definition kheavy_hash (in_hash : N) : N := hash_from_le_u64 (take 4 (f1600 (xor_words (hash_to_le_u64 in_hash) HEAVY_INITIAL_STATE))).

Definition heavy_hash (self : Matrix) (hash : N) : panics N :=
  let vec := hash_nibbles hash in
  let! product := mapM_out (product_byte self vec) (seq 0 32) in
  Ok (kheavy_hash (hash_from_bytes (zip_with Z.lxor product (hash_as_bytes hash)))).

(** ** lib.rs *)

Record PowState := mk_pow_state {
  ps_matrix : Matrix;
  ps_target : limbs;
  ps_hasher : list Z
}.

Context (hash_fn : HashDomain -> bytes -> N) (fuel : nat).

Definition pow_state_new (header : Header) : panics PowState :=
  let target := from_compact_target_bits (h_bits header) in
  let! pre_pow_hash := hash_override_nonce_time hash_fn header 0 0 in
  let hasher := pow_hash_new pre_pow_hash (h_timestamp header) in
  let! matrix := generate fuel pre_pow_hash in
  Ok (mk_pow_state matrix target hasher).

Definition calculate_pow (self : PowState) (nonce : Z) : panics limbs :=
  let hash := finalize_with_nonce (ps_hasher self) nonce in
  let! hash := heavy_hash (ps_matrix self) hash in
  Ok (from_le_bytes 4 (hash_as_bytes hash)).

Definition check_pow (self : PowState) (nonce : Z) : panics (bool * limbs) :=
  let! pow := calculate_pow self nonce in
  Ok (match uint_cmp pow (ps_target self) with Gt => false | _ => true end, pow).

Definition calc_level_from_pow (pow : limbs) (max_block_level : Z) : Z :=
  let signed_block_level := max_block_level - uint_bits pow in
  Z.max signed_block_level 0 mod 256.

Definition calc_block_level_check_pow (header : Header) (max_block_level : Z) : panics (Z * bool) :=
  if parents_is_empty (h_parents_by_level header) then Ok (max_block_level, true)
  else
    let! state := pow_state_new header in
    let! ' (passed, pow) := check_pow state (h_nonce header) in
    Ok (calc_level_from_pow pow max_block_level, passed).
Definition calc_block_level (header : Header) (max_block_level : Z) : panics Z :=
  let! ' (block_level, _) := calc_block_level_check_pow header max_block_level in
  Ok block_level.
End WithKeccak.

(** ** Matrices *)

Definition nibble (x : Z) : Prop := 0 <= x < 16.
Definition matrix_ok (m : Matrix) : Prop := length m = 64%nat /\ Forall (fun row => length row = 64%nat /\ Forall nibble row) m.

Lemma land_nibble x : nibble (Z.land x 0x0F).
Proof. unfold nibble. change 0x0F with (Z.ones 4). rewrite Z.land_ones by lia. apply Z.mod_pos_bound. lia. Qed.

Lemma rand_elements_ok l (row : list Z) v g : Forall nibble row ->
  length (foldl rand_element (row, v, g) l).1.1 = (length row + length l)%nat /\ Forall nibble (foldl rand_element (row, v, g) l).1.1.
Proof.
  revert row v g. induction l as [|j l IH]; intros row v g Hrow; cbn [foldl]; [split; [cbn; lia|done]|].
  unfold rand_element at 2 4. destruct (if (j mod 16 =? 0)%nat then xoshiro_u64 g else (v, g)) as [v' g'].
  destruct (IH (row ++ [Z.land (Z.shiftr v' (4 * Z.of_nat (j mod 16))) 15 mod U16]) v' g') as [Hl Hf].
  - apply Forall_app_2; [done|]. constructor; [|done]. pose proof (land_nibble (Z.shiftr v' (4 * Z.of_nat (j mod 16)))) as Hn. unfold nibble in *. rewrite Z.mod_small by lia. done.
  - rewrite Hl, length_app. cbn [length]. split; [lia|done].
Qed.
Lemma rand_rows_ok l m g : Forall (fun row => length row = 64%nat /\ Forall nibble row) m ->
  length (foldl rand_row (m, g) l).1 = (length m + length l)%nat /\ Forall (fun row => length row = 64%nat /\ Forall nibble row) (foldl rand_row (m, g) l).1.
Proof.
  revert m g. induction l as [|j l IH]; intros m g Hm; cbn [foldl]; [split; [cbn; lia|done]|].
  unfold rand_row at 2 4. cbn [fst snd]. pose proof (rand_elements_ok (seq 0 64) [] 0 g ltac:(constructor)) as Hr. destruct (foldl rand_element _ _) as [[row ?] g']. cbn [fst] in Hr.
  destruct (IH (m ++ [row]) g') as [Hl Hf]; [apply Forall_app_2; [done|]; constructor; [|done]; split; [apply Hr|apply Hr]|].
  rewrite Hl, length_app. cbn [length]. split; [lia|done].
Qed.
Lemma rand_matrix_ok g : matrix_ok (rand_matrix_no_rank_check g).1.
Proof. destruct (rand_rows_ok (seq 0 64) [] g ltac:(constructor)) as [Hl Hf]. split; [exact Hl|exact Hf]. Qed.

(** The matrices that the generator yields, and the first of full rank. *)
Fixpoint matrices (n : nat) (g : XoShiRo256PlusPlus) : list Matrix :=
  match n with
  | O => []
  | S n' => let '(m, g') := rand_matrix_no_rank_check g in m :: matrices n' g'
  end.
Lemma matrices_ok n g : Forall matrix_ok (matrices n g).
Proof.
  revert g. induction n as [|n IH]; intros g; cbn [matrices]; [constructor|]. pose proof (rand_matrix_ok g) as Hm. destruct (rand_matrix_no_rank_check g) as [m g']. by constructor.
Qed.
Lemma generate_first fuel h :
  generate fuel h = match find (fun m => (compute_rank m =? 64)%nat) (matrices fuel (xoshiro_new h)) with Some m => Ok m | None => OutOfFuel end.
Proof.
  unfold generate. generalize (xoshiro_new h) as g. induction fuel as [|fuel IH]; intros g; [done|]. cbn [generate_loop matrices]. destruct (rand_matrix_no_rank_check g) as [m g'].
  cbn [find]. by destruct (_ =? _)%nat.
Qed.

(** ** The product with a vector of nibbles *)

Definition dot (row vec : list Z) : Z := zsum (zip_with Z.mul row vec).
Definition matrix_byte (m : Matrix) (vec : list Z) (i : nat) : Z := 16 * (dot (nth (2 * i) m []) vec / 1024) + dot (nth (2 * i + 1) m []) vec / 1024.

Lemma row_sum_spec row vec sum : Forall nibble row -> Forall nibble vec -> length row = length vec -> 0 <= sum -> sum + 225 * Z.of_nat (length row) < U16 ->
  row_sum sum row vec = Ok (sum + dot row vec) /\ 0 <= dot row vec <= 225 * Z.of_nat (length row).
Proof.
  intros Hr. revert vec sum. induction Hr as [|x row Hx Hr IH]; intros vec sum Hv Hlen Hs Hov; destruct vec as [|v vec]; try done.
  { cbn. split; [by rewrite Z.add_0_r|lia]. }
  apply Forall_cons in Hv as [Hv Hvec]. unfold dot in *. cbn [row_sum zip_with zsum length] in *. unfold nibble in *. assert (0 <= x * v <= 225) by nia.
  rewrite umul_lt by lia. cbn [obind]. rewrite uadd_lt by lia. cbn [obind].
  destruct (IH vec (sum + x * v) Hvec ltac:(lia) ltac:(lia) ltac:(lia)) as [-> Hd]. split; [f_equal; lia|lia].
Qed.

Lemma lor_nibbles a b : nibble a -> nibble b -> Z.lor (16 * a) b = 16 * a + b.
Proof.
  intros Ha Hb. unfold nibble in *. rewrite <- Z.add_nocarry_lor; [done|]. apply Z.bits_inj_0. intros k. rewrite Z.land_spec. change 16 with (2 ^ 4). rewrite (Z.mul_comm (2 ^ 4)).
  destruct (Z.lt_ge_cases k 4) as [Hk|Hk]; [by rewrite Z.mul_pow2_bits_low|]. rewrite (Z.bits_above_log2 b k); [apply andb_false_r|lia|].
  destruct (Z.eq_dec b 0) as [->|]; [cbn; lia|]. apply Z.log2_lt_pow2; [lia|]. pose proof (Z.pow_le_mono_r 2 4 k). lia.
Qed.

Lemma product_byte_spec m vec i : matrix_ok m -> Forall nibble vec -> length vec = 64%nat -> (i < 32)%nat ->
  product_byte m vec i = Ok (matrix_byte m vec i) /\ 0 <= matrix_byte m vec i < 256.
Proof.
  intros [Hl Hm] Hv Hvl Hi. unfold product_byte, matrix_byte. destruct (lookup_lt_is_Some_2 m (2 * i)) as [r1 H1]; [lia|]. destruct (lookup_lt_is_Some_2 m (2 * i + 1)) as [r2 H2]; [lia|].
  rewrite H1, H2, (nth_lookup_Some _ _ _ _ H1), (nth_lookup_Some _ _ _ _ H2). cbn [unwrap obind]. rewrite Forall_forall in Hm.
  destruct (Hm r1 ltac:(by eapply list_elem_of_lookup_2)) as [Hl1 Hn1]. destruct (Hm r2 ltac:(by eapply list_elem_of_lookup_2)) as [Hl2 Hn2].
  destruct (row_sum_spec r1 vec 0 Hn1 Hv ltac:(lia) ltac:(lia) ltac:(lia)) as [-> Hd1]. destruct (row_sum_spec r2 vec 0 Hn2 Hv ltac:(lia) ltac:(lia) ltac:(lia)) as [-> Hd2].
  rewrite Hl1 in Hd1. rewrite Hl2 in Hd2. cbn [obind]. rewrite !Z.add_0_l, !Z.shiftr_div_pow2, Z.shiftl_mul_pow2 by lia. change (2 ^ 10) with 1024. change (2 ^ 4) with 16.
  assert (B1 : 0 <= dot r1 vec / 1024 <= 14) by (split; [apply Z.div_pos; lia|apply Z.lt_succ_r, Z.div_lt_upper_bound; lia]).
  assert (B2 : 0 <= dot r2 vec / 1024 <= 14) by (split; [apply Z.div_pos; lia|apply Z.lt_succ_r, Z.div_lt_upper_bound; lia]).
  rewrite !(Z.mod_small _ 256), (Z.mod_small _ U16), (Z.mul_comm _ 16) by (rewrite ?(Z.mod_small _ U16); lia). rewrite lor_nibbles by (unfold nibble; lia). split; [done|lia].
Qed.

Lemma hash_nibbles_spec h : length (hash_nibbles h) = 64%nat /\ Forall nibble (hash_nibbles h).
Proof.
  unfold hash_nibbles. assert (Hwf : wf_bytes (hash_as_bytes h)) by (apply Forall_rev, le_bytes_wf). assert (Hl : length (hash_as_bytes h) = 32%nat) by (unfold hash_as_bytes; by rewrite length_rev, length_le_bytes).
  replace 64%nat with (2 * length (hash_as_bytes h))%nat by (rewrite Hl; done). clear Hl. induction Hwf as [|e l He Hwf IH]; [by split|]. cbn [List.map concat]. destruct IH as [IHl IHf]. split; [cbn [app length]; lia|].
  cbn [app]. constructor; [|constructor; [apply land_nibble|done]]. unfold nibble. rewrite Z.shiftr_div_pow2 by lia. split; [apply Z.div_pos; lia|apply Z.div_lt_upper_bound; lia].
Qed.

(** ** Bits and levels *)

Lemma uint_bits_le l n : wf_limbs l -> 0 <= n -> uint_bits l <= n <-> val l < 2 ^ n.
Proof.
  intros Hl Hn. rewrite uint_bits_spec by done. unfold bit_length. pose proof (val_bound l Hl) as Hv. destruct (Z.eqb_spec (val l) 0) as [->|Hz].
  - split; [intros _; apply Z.pow_pos_nonneg; lia|lia].
  - rewrite (Z.log2_lt_pow2 (val l) n) by lia. lia.
Qed.

(** A state made for a header: a matrix of nibbles, a target of 256 bits. *)
Definition pow_state_ok (st : PowState) : Prop := matrix_ok (ps_matrix st) /\ wf_limbs (ps_target st) /\ length (ps_target st) = 4%nat.

Section Pow.
Context `{Keccak}.

(** The hash of the nonce through the matrix. *)
Definition pow_value (st : PowState) (nonce : Z) : limbs :=
  let hash := finalize_with_nonce (ps_hasher st) nonce in
  from_le_bytes 4 (hash_as_bytes (kheavy_hash (hash_from_bytes (zip_with Z.lxor (List.map (matrix_byte (ps_matrix st) (hash_nibbles hash)) (seq 0 32)) (hash_as_bytes hash))))).

Lemma from_le_bytes_wf n bs : wf_bytes bs -> wf_limbs (from_le_bytes n bs) /\ length (from_le_bytes n bs) = n.
Proof using.
  unfold from_le_bytes, wf_limbs. revert bs. induction n as [|n IH]; intros bs Hb; [by split; [constructor|]|]. cbn [chunks8 List.map length]. destruct (IH (drop 8 bs)) as [Hf Hl]; [by apply Forall_drop|].
  split; [|by rewrite Hl]. constructor; [|done]. pose proof (of_le_bytes_bound (take 8 bs) ltac:(by apply Forall_take)) as Hbd. rewrite length_take in Hbd.
  assert (256 ^ Z.of_nat (8 `min` length bs) <= 256 ^ 8) by (apply Z.pow_le_mono_r; lia). unfold in_u64. change (256 ^ 8) with U64 in *. lia.
Qed.

Lemma calculate_pow_spec st nonce : matrix_ok (ps_matrix st) -> calculate_pow st nonce = Ok (pow_value st nonce).
Proof using.
  intros Hm. unfold calculate_pow, heavy_hash, pow_value. set (hash := finalize_with_nonce _ _). destruct (hash_nibbles_spec hash) as [Hl Hn].
  rewrite (mapM_out_Ok _ (matrix_byte (ps_matrix st) (hash_nibbles hash))); [done|]. intros i Hi%elem_of_seq. by apply product_byte_spec; [..|lia].
Qed.

Lemma pow_value_wf st nonce : wf_limbs (pow_value st nonce) /\ length (pow_value st nonce) = 4%nat.
Proof using. apply from_le_bytes_wf, Forall_rev, le_bytes_wf. Qed.

Lemma check_pow_spec st nonce : pow_state_ok st -> check_pow st nonce = Ok (val (pow_value st nonce) <=? val (ps_target st), pow_value st nonce).
Proof using.
  intros (Hm & Ht & Htl). destruct (pow_value_wf st nonce) as [Hwf Hl]. unfold check_pow. rewrite calculate_pow_spec by done. cbn [obind].
  rewrite uint_cmp_spec by (done || lia). reflexivity.
Qed.
End Pow.


(** C23: the proof of work check compares the heavy hash with the target.  On a well-formed state
    the 16-bit sums of the matrix product do not overflow and its bytes are the upper bits of
    the dot products; the check passes when the hash is at most the target, and the block
    level is at least l exactly when the hash is below 2^(max - l). *)
Theorem pow_check_exact `{Keccak} (st : PowState) (nonce max_level : Z) :
  pow_state_ok st -> 0 <= max_level < 256 ->
  let pow := pow_value st nonce in
  check_pow st nonce = Ok (val pow <=? val (ps_target st), pow) /\
  0 <= calc_level_from_pow pow max_level <= max_level /\
  forall l, 0 < l <= max_level -> l <= calc_level_from_pow pow max_level <-> val pow < 2 ^ (max_level - l).
Proof.
  intros Hst Hml pow. destruct (pow_value_wf st nonce) as [Hwf Hl]. fold pow in Hwf, Hl.
  assert (Hbits : 0 <= uint_bits pow). { rewrite uint_bits_spec by done. apply bit_length_le, Hwf. }
  rewrite check_pow_spec by done. fold pow. unfold calc_level_from_pow. rewrite Z.mod_small by lia. split_and!; [done|lia|lia|].
  intros l Hll. rewrite <- (uint_bits_le pow (max_level - l) Hwf) by lia. lia.
Qed.

(** ** The test vectors of the repository

    Keccak-f[1600] of FIPS 202, to run the model on the vectors of matrix.rs.  A row of a
    matrix is written as the number with its elements as hexadecimal digits. *)

Definition keccak_offsets : list Z := [0; 1; 62; 28; 27; 36; 44; 6; 55; 20; 3; 10; 43; 25; 39; 41; 45; 15; 21; 8; 18; 2; 61; 56; 14].
Definition keccak_constants : list Z := [
  1; 32898; 9223372036854808714; 9223372039002292224; 32907; 2147483649; 9223372039002292353; 9223372036854808585; 138; 136; 2147516425; 2147483658; 2147516555; 9223372036854775947; 9223372036854808713; 9223372036854808579; 9223372036854808578; 9223372036854775936; 32778; 9223372039002259466; 9223372039002292353; 9223372036854808704; 2147483649; 9223372039002292232].
Definition lane (s : list Z) (x y : nat) : Z := nth (x mod 5 + 5 * (y mod 5)) s 0.
Definition keccak_round (s : list Z) (rc : Z) : list Z :=
  let c := List.map (fun x => Z.lxor (lane s x 0) (Z.lxor (lane s x 1) (Z.lxor (lane s x 2) (Z.lxor (lane s x 3) (lane s x 4))))) (seq 0 5) in
  let d := List.map (fun x => Z.lxor (nth ((x + 4) mod 5) c 0) (rotate_left (nth ((x + 1) mod 5) c 0) 1)) (seq 0 5) in
  let a := List.map (fun i => Z.lxor (nth i s 0) (nth (i mod 5) d 0)) (seq 0 25) in
  (* lane (y, 2x + 3y) of [b] is lane (x, y) of [a], rotated; x = x' + 3y', y = x' *)
  let b := List.map (fun i => let x := (i mod 5)%nat in let y := (i / 5)%nat in
             let j := ((x + 3 * y) mod 5 + 5 * x)%nat in rotate_left (nth j a 0) (nth j keccak_offsets 0)) (seq 0 25) in
  let e := List.map (fun i => let x := (i mod 5)%nat in let y := (i / 5)%nat in
             Z.lxor (lane b x y) (Z.land (U64 - 1 - lane b (x + 1) y) (lane b (x + 2) y))) (seq 0 25) in
  match e with e0 :: e' => Z.lxor e0 rc :: e' | [] => [] end.
Definition keccak_f1600 (s : list Z) : list Z := foldl keccak_round s keccak_constants.
#[local] Instance fips_keccak : Keccak := keccak_f1600.

Definition digits_row (n : Z) : list Z := List.map (fun j => Z.land (Z.shiftr n (4 * (63 - Z.of_nat j))) 15) (seq 0 64).
Definition test_matrix : Matrix := List.map digits_row [
  0xd2ed2fe3a418438fffff2bfff17cc42061eacef8ac05d3eaa6cbb766a224bc05;
  0x4d021fddb25cf70a7263c0c0267777acbecc4ba0ab2a177cf95e9c30cd4d8fb6;
  0xe6f9822c234cdf45d430e35e3d4f9c7f51dc998beb4ac6c86398160589c5ef22;
  0x96760b562ec64d89219745a8bbbf7b1e38e828d788f71d7917ff00cfd5da156d;
  0x40ca6be22f41242cd19a802ad8975382661c3014283d6f0de4f073785ee55012;
  0xce6334671327fffa9c063850d5060e2ca4b2a7768b44b93ca52655adca16e7c4;
  0x7e677c41868dd5cea862c38f5ff3e0869c9738407e33de3732233c6741ea6a29;
  0xebf57a1b426297409cb23d154a566c811f42cc04e3b175943f73f98383367692;
  0xa46a52fc0eefe0c91c4552a42db318a070c4b1e6e55bb13806bb8476e49e97d9;
  0xc7982335e809742ff3bb85750fa80d1e8a14d1d3bb23a68ef2aac77663d81e21;
  0x2b69d3c6046d8e69a2a84d650df42217533d7359fee60fb24f6989f269f844b1;
  0xab83bda2252efa2b0182e1a0375a78f725d4a362396b7e1b9337609b4a41974f;
  0xd8febc539e15ede5d54a99006c572726661c9f7bbab1aa0814558aaf68dbb3f5;
  0x8b5a1a91c76b11412844778271e18ffca4fb36a740a9b71e4e3ea4dc53c7a803;
  0x9b6fea04776077cf54c3730c27b673285b9438bc35ec4dc03e49119eae8f6eaf;
  0xaea0acf039ba3511917f78aacb51a366d0d145949f84dd455b1df3af7baf8ca3;
  0x85b38dff3c1d17156d7851c3a7c6ecf53c2fbd1d8580df7d6da1b0895b299a4f;
  0x04ce3175bd53bc68afb87a025f6a4231d76ce76eca6ec0cb6931cff355ab7fd3;
  0xce2ed6f788ed922a3f6ab7d0c1588c1b1324a7773a722301d582e0bd93d2e2f4;
  0x00d69cf78074cf3271e493dcbc9937a919a2aeb0e4fcc998e19e0610d976d239;
  0x80ad079751037a3f1f3b263a0aa34f86bb75857f1b7dd6dd423f95a6663bfd1f;
  0x112a22959201e2b6b610d7e1fed7cb8b2b6a2300f0464c557ea603d081da5175;
  0x052ca251e014fb87bef641667dc5d2162d5f088655203de2a576e514b2b18f24;
  0x9945253ce51330067e0feb3a194e7e10fb59400a44078fc8a8121bceee8a15da;
  0x5a44ba060ca59b8ab3bec946bc876e06c45390b6132c897ce7c6bd021318c2ff;
  0xab23ba171aae5da3bf9ebb3fb6fdd11a515ba39cc1563311c83f628e34a97d26;
  0xc0104336831d6c1114c4499ef364b1c560a918e5284fcd7ec2694d0faa6c7c9a;
  0x085bccb7292f110065a1bc8717a428251129203751553143e8b7802d3f1defbd;
  0x8d5e299df82e42601dad6cfb6b99296e29c1d95ba44589da905f4c7a655f88be;
  0x69671f014f53a9f9ec7630c8c2b8b81aa7753512db252aa1ee81b126fa87a703;
  0xc6b1178155846564284100e2aeeb29efce937e47c93510c9a5bcaa6e6dd55ada;
  0xc6d080a6ff730adead5dfe34aa966f270a6e29b755debf9420f54ee1345811ac;
  0x2504b556a467a30ee0cfbcd7639198884a317a32c6fe068a19ccf71bfd04a0cb;
  0x8cefefa02e3126021790fd5e68f4f6a6f3c854a5304da9846396cb9d8a998c12;
  0xbaff5ef759ee7b6638234eb1cfb600d7e3ce0f61b2b83d4cad7e9d3a2ed4cdea;
  0x1b2c1a7c33e91a0b8acc4c2b503f82e3a21d6e008b6dfac77be92768e9eab99c;
  0x5ae214b5a2d96cb5d45e87f984529b53c26174b4f052dbb2fa0c58a14b3db79e;
  0x98a502587336b1df44b626db26945dc2877cef5c70ff05f039af9baa5393cd0d;
  0x1bf0a535671b4b425c255615e915ec6a085bbbca8aa1e108470b31bcb8ef931e;
  0xebcc468ef1b2d362718149bf81ad4d277a52ccc3a82b038942f7f646c7e998ec;
  0xf48cbb950076a58256ebd0df549fdcefa236ae1867a1e9cd72ca6bf1fbd06d7f;
  0x33c5e9ee809122eb7131efc8e24da5a8176542b54de6df667cb5da9d9e567eb7;
  0xecb505a5717b10d65e305e678586636183a7f6b667d2200b1f2e514801801122;
  0xadd3fe9cff858a59667f10e91b6bd46e9cd8e6e23f44e49c809bda8e357b67f2;
  0x99b6b0548a8b2c87bd61ddb4577964c0b86cb4fbc8bb136e96750a3fd701df1e;
  0xa687369f13ae900a0f200060d99186d219e9148420850bcfd1eef7844c1c8395;
  0xcb14ae8c24f2977bfcab74d08688a55d379dde68157c4469d1616e582a4a196f;
  0x4d496b187bb13acb1a6a0730063921482a2f9feefe32766a884b1d602a0bfe69;
  0xf0cd09a4b5a08732c6385fe2dd6b569ae5e4975bd271e9078cbf215b37516386;
  0x038146313820ffefdab92b5c330153b6ab857f4c88ccc194b6ab1c8c561e2a30;
  0xad69b14a0d874cf5ec6900a5daf3087098a6b8adb7559d1f05f54799f8263858;
  0xe0624c2d6a52216b169d0d93c438709c017aa739d5f4d0854eb33df99c95201e;
  0x4ed0efbab13391c865fb17538d0db58186d4d7c65570c118164288fbbb4447dc;
  0xefa04319d799f5039647db327168d7a4395926a79d2e2e72e2880909c67768cd;
  0x5f8cb3d45ea4ff1a9e664c49c2fd25c232fbc262b679ca511596eb3b6abb0cf1;
  0xc68a25798effdaf3aa6aea75376cbc89c9fff783fe1c00409a87ea8e6281ba01;
  0xc12c7a4b5ea2294d3e3f50e77f6528f966da9863e7c978dced60519ce0bb63b7;
  0xf48c8b4f162d177c08eeae0c033b742d00b258cb65600400199b32d4d9f47832;
  0x3d88ca547dade32cb09564e46925a39a50c5f5ff2c3b0f9e1566e58059377cf1;
  0x1b74d308b9f14c2ca4e39ee23bc45a6f2dd991bcce15f17ecabdd5247794efda;
  0xef9e95d200e86207ba2d2e964b5e616e6395293b1e54c535b3b6d7d7494d835b;
  0xdccd8242a635776d86f4c7f4398f03c198daf4e16f0489313f551bbaba8854d0;
  0x84f9e9588a5f98c5ba2cd1026db9c050b5ec342a3c5f48e10d9524d82589f355;
  0x0334655132e5a7fb7df40c9fc031e1c9d89fc35b3b4194d74a6ed09bff33dfaf].
Definition expected_matrix : Matrix := List.map digits_row [
  0x4545454545454545f3f3f3f3f3f3f3f32a2a2a2a2a2a2a2ae122ea4c4caaaaaa;
  0x9b1b1b9b9b93cdb5ff5068186bf536732fe37be736ec39511084af9a6d117446;
  0x2608bf40527df3bc6218d4b4aed26fa6656933319ccf60157de1aa5e40cd2f84;
  0x86510648d08c7243a593cd24de779ca8b6e3c8802a091978529df6da191a62a9;
  0x426e4257f604b9c03204a5c334a10d3cf07a22f02f82fca662d38e3da545165a;
  0x03dcb4bd1c4bfed47130a388125e45e113315f75b88ca5792adb42cfa660663c;
  0x9c3358cd745b40722fcec542888d61150fcd8504d161ce10dcaa14dd84fd66ea;
  0xef80725a53c0b3428b6ee33c37626cf11d069977d442f52fdda69f296a6ee35b;
  0x6478b0db0700d63bfea278de8fa8e6ae3b5bd53c30206e4c448f78cb395daed4;
  0xa00f14d3fa25b29e73286f0c141930f89d079a6e379740b84658805e7cc25656;
  0xc00e8303da5d5724db31b2e5a559cfc810bd811ba0bfd9ce545e27214cbb9cbf;
  0x3f98dcf787e6a3052266325cb2abd397768feebb971385bb12f8d8b4153c5377;
  0xdd2e43f20f1541514e51bdf1335de10461f770f8f3e778ca2e92bb7a43cd4d0e;
  0xceff200d4642eb56e8e7df6f7910b9902c88eb7530bc92890098982ec20ed84a;
  0x7a1fce747d48dc17a65ee3e4be6cfcfc45987730573844756cd0ca25e964dde5;
  0xe5834fdeea7ef2beddca69556dfd70fb4cf7743b8e5a244c3619f11d750ef786;
  0x12a52d1bfa499ced35037ba3c5a2d717d8283ea35c0939b2a906401eb0861f3a;
  0xd90587cfaa511761e5f235357377143e50c0caa6c6355ba1b3d39b17ee08f527;
  0x85b6f01d167f43ec93b64c1b6c5b1c2312bc05b53db3bea83948db9b24c30e7b;
  0xab4a783ef8f69856c1f655ed2ce655e91abe86eb1f6bb812854f68080b01078f;
  0x0f50b442048c220812656c31c16a25020b86d4e4f58b96269142ea4411b86bb9;
  0x736591b0fddd4eec37931659762ba4beadb8b81f50a5605fb664ab8c0abbb1d6;
  0x7f00b57d37325c6be49899d0f2d2f6f11740a18e0ac45d907cdbb88f2f4493a7;
  0x0935e67e72d73f9f280460f621e858242b92fdbc8f3d22ad187fd67743e709fb;
  0x8d77887814a1c4eb7cf0af92e2e245d32a0f768b76aa47a66ea4e6c2819d343e;
  0xaa6385a7ba948e9a098ebf8dd7ddd9cb63960066b648151796d4388b9a6bcdee;
  0xea0fe430c40eb90646098e446828a38011f424d994055125b62178aa1586704e;
  0x0fabdc774095280a66756790148ea355b51a6a0e1fbc8278403b9f35ffef345e;
  0x5cc800e14f32261a7ae5e08590c89a3c3200cc7d2647aae1b6a3c21a7dacebe8;
  0x953c43ae75bc2d98526249aa4340b1a94a458b17d7663c00f6ccd7eebf7ec6f2;
  0xf20cfe8e7e033bc23ed5c96b74517c0b156686c2c3a34a333aae3df076f6d74b;
  0xbf5e011e23fe43b1660c35f63bdb778b59aa9e7172866519658e2e29334fd527;
  0x78d9f8b719fc6931aab008e5bce439c9e009c41d3634da29377a7aa35f89b71e;
  0x5591f33b6bdd4c7c48ed7cd8a21cb708a9f139a091e11922895632f9f63be404;
  0x92a2096dd0de3c1f93c25f66fb7b040bac793022dd969264365aa97249db2d68;
  0xdf9862322c5386b6f7a3f8753842b1041161d651267a43a6207df1d0caf624e3;
  0x5be407c44ec34a7e64e70c59f6f63c0ab71ed51e5fc19d9de5abcafb9d2e9c2b;
  0x2c57152b84f69e51f431b4214544733c432fd1ef146bdf6ccd68a0ac1a329828;
  0xacc685445367f5a38fe562e41713c3c4af66066869575192490811e37e8904b7;
  0xdbe7040acba86cdf92e930cebf47fe48fc9e779dee49d81d63c70f6f723095d0;
  0x38cb599e8ee599ca3cd00067c423889fb1cdafb12da1727b8f76465bbf21b118;
  0xa7714d9a2237c855553156828b504cc679eab809b4e7782fc744d203e0152f7b;
  0x38a4173d5e09310b2f4965e0281e76155720534fda9ddc5bbeda8e08172acc1b;
  0xbe4d3ba6f25ae4d3c7ca4001e6122c923b14a4477c43cb93fd6d7b5c5dfc0dc9;
  0x872253afa8104576fd2e6295905c864c68ef7fb22c797bf7045d725905767c41;
  0xb42d6a94c99642ee955ff98b428be38ae96647b23751e29401a76713d732c366;
  0xb1e3e3990be6e7e84256d34a88ab51ff704efded32160664f60c5b1733dcc632;
  0x72aeed4ea6027725e15ef1292d13613da6bd17df2b96d7923daa62591303153c;
  0xbe42abf5978ba957e3c27fcf4fc926668507efee3c7c2417134719bff371a9ee;
  0x4db19651b668398fdc3d59a5c1fec1ab573c9c0223e42d1fb83d0a5460e8106f;
  0xf2052e90a5c85601944146e53022e9702fc0ac9cf194f30d065026b9df635408;
  0x4e8ed44a6cfb72f6991bd27a445cef8561bf4b5257345738ad7565a1cd36287f;
  0x3f49ec61707fa655f59476e214a3c1710a2bed7a5b5bf503f12edda9fca52a06;
  0x465dbaf42fd677404674916761420b63e5922a12de4b47c98229579c8f09cb1c;
  0xbcb98f4cda666c306ffa6c57a2716c9bbe1cf062cf4fe834f4d3e1376d910c4e;
  0xcbdaaa37c3d960ca4b54b57e6accdfc1dff712861cc04333789a7700bdf495a9;
  0x6c309b6499159e37f3505b76d5a2ca26011d93b782a9d664c03a94fbe1930e61;
  0xbeaab647a07932dd99233ea4e1a7e49f3b5a78301223c962bf39368045730e79;
  0x4bdc623ff35105a2537af0532aca839f537d57dc5a29a194e1ad122c53e778dd;
  0xacba0f430830f03aa9f3d38382e716d822c330ac011750da7d99d70102e2d083;
  0xb3bacfb6e8857b31d7d4f72387389faf905417d8271a1cc17cd5ea9fc2a3a39c;
  0x98b05615910cc0cb284017751e19d72c89cd1b53cef498c7b139b57e46c34c79;
  0xac2ee1b837d721ed76f8fcdabf426dc32afeab8e93c9f2ee5d76211410da1029;
  0xa5bec1c7c8a56a0756bbdc0d06b0e421c71a7f53ef1312a4b82b2554f5a3172e].

(** [test_heavy_hash] *)
Lemma heavy_hash_vector : heavy_hash test_matrix (hash_from_bytes [82; 46; 212; 218; 28; 192; 143; 92; 213; 66; 86; 63; 245; 241; 155; 189; 73; 159; 229; 180; 202; 105; 159; 166; 109; 172; 128; 136; 169; 195; 97; 41]) =
  Ok (hash_from_bytes [135; 104; 159; 55; 153; 67; 234; 249; 183; 71; 92; 169; 83; 37; 104; 119; 114; 191; 204; 104; 252; 120; 153; 202; 235; 68; 9; 236; 69; 144; 195; 37]).
Proof. vm_compute. reflexivity. Qed.

(** [test_generate_matrix], and the rank of the matrix. *)
Lemma rand_matrix_vector : (rand_matrix_no_rank_check (xoshiro_new (hash_from_bytes (replicate 32 42)))).1 = expected_matrix.
Proof. vm_compute. reflexivity. Qed.

(** The vector as a state, with target 2^256 - 1. *)
Definition px_state : PowState := mk_pow_state test_matrix (replicate 4 (U64 - 1)) (pow_hash_new 0 0).
Lemma test_matrix_ok : matrix_ok test_matrix.
Proof. split; [reflexivity|]. unfold test_matrix. apply Forall_map, Forall_forall. intros n _. unfold digits_row. split; [by rewrite List.length_map|]. apply Forall_map, Forall_forall. intros j _. apply land_nibble. Qed.
Lemma pow_check_exact_witness : check_pow px_state 7 = Ok (val (pow_value px_state 7) <=? 2 ^ 256 - 1, pow_value px_state 7) /\
  forall l, 0 < l <= 225 -> l <= calc_level_from_pow (pow_value px_state 7) 225 <-> val (pow_value px_state 7) < 2 ^ (225 - l).
Proof.
  destruct (pow_check_exact px_state 7 225) as (Hc & _ & Hl); [|lia|].
  - split_and!; [exact test_matrix_ok|repeat constructor; cbn; lia|reflexivity].
  - split; [exact Hc|exact Hl].
Defined.
