(* ===== verification/Parents.v ===== *)
(** * Parents by level

    Model of consensus/src/processes/parents_builder.rs: the parents of a block at each block
    level, computed from its direct parents and their own parents by level.  The map of
    candidates to reference blocks is a [gmap]; the order in which Rust iterates over it is
    unspecified, so the parents of a level are meant up to order.

    The theorem: while no block involved is pruned, the parents at a level are the maximal
    blocks of that level below the new block. *)

From Stdlib Require Import ZArith Lia Bool.
From stdpp Require Import base gmap numbers list.
From S2P Require Import Prelude Interval ReachabilityStore ReachabilityQueries ReachabilityTree ReachabilityDag ReachabilityProps Uint GhostdagStore Header Difficulty Ghostdag GhostdagMergeset GhostdagColor GhostdagBlocks GhostdagProps.

#[local] Open Scope Z_scope.

(** [IndexSet]: insertion order, without duplicates. *)
Definition index_insert (l : list N) (x : N) : list N := if decide (x ∈ l) then l else l ++ [x].
Definition index_extend (l xs : list N) : list N := foldl index_insert l xs.

(** [slice::swap(0, i)] *)
Definition swap_first {A} (i : nat) (l : list A) : panics (list A) :=
  let! a := unwrap (l !! 0%nat) in
  let! b := unwrap (l !! i) in
  Ok (<[i := a]> (<[0%nat := b]> l)).

(** [Iterator::position] *)
Fixpoint position {A} (f : A -> panics bool) (l : list A) : panics (option nat) :=
  match l with
  | [] => Ok None
  | x :: l' =>
      let! b := f x in
      if b : bool then Ok (Some 0%nat)
      else let! r := position f l' in Ok (match r with Some i => Some (S i) | None => None end)
  end.

Record ParentsManager (R : Type) := mk_parents_manager {
  pb_max_block_level : Z;
  pb_genesis_hash : N;
  pb_header_with_block_level : N -> sresult (Header * Z);
  pb_reachability_service : R;
  pb_relations_children : N -> sresult (list N)
}.
Arguments pb_max_block_level {R}.
Arguments pb_genesis_hash {R}.
Arguments pb_header_with_block_level {R}.
Arguments pb_reachability_service {R}.
Arguments pb_relations_children {R}.

Section Manager.
Context {R : Type} `{ReachabilityStore R} (self : ParentsManager R).

Definition has_reachability_data (h : N) : panics bool := unwrap_res (has (pb_reachability_service self) h).

Definition parents_at_level (header : Header) (level : Z) : panics (list N) :=
  let! r := parents_get (h_parents_by_level header) level in
  Ok (match r with
      | Some ps => ps
      | None => if parents_is_empty (h_parents_by_level header) then [] else [pb_genesis_hash self]
      end).

(** The parents at the level of a list of headers, in one [IndexSet]. *)
Definition extend_grandparents (level : Z) (acc : list N) (headers : list (Header * Z)) : panics (list N) :=
  foldM_out (fun acc h => let! ps := parents_at_level h.1 level in Ok (index_extend acc ps)) acc headers.

(** The children of the origin whose parents at the level include the block. *)
Definition reference_blocks (level : Z) (parent : N) (has_data : bool) : panics (list N) :=
  if has_data then Ok [parent]
  else
    let! children := unwrap_res (pb_relations_children self hash_ORIGIN) in
    let! headers := mapM_out (fun child => let! h := unwrap_res (pb_header_with_block_level self child) in Ok h.1) children in
    foldM_out (fun refs child_header =>
      let! ps := parents_at_level child_header level in
      Ok (if decide (parent ∈ ps) then refs ++ [h_hash child_header] else refs)) [] headers.

(** [retain]: candidates that are ancestors of the block leave. *)
Definition retain_candidates (parent : N) (candidates : gmap N (list N)) : panics (gmap N (list N)) :=
  foldM_out (fun kept c =>
    let! b := is_any_dag_ancestor (pb_reachability_service self) c.2 parent in
    Ok (if b : bool then delete c.1 kept else kept)) candidates (map_to_list candidates).

Fixpoint is_below_any (parent : N) (candidates : list (N * list N)) : panics bool :=
  match candidates with
  | [] => Ok false
  | c :: candidates' =>
      let! b := is_dag_ancestor_of_any (pb_reachability_service self) parent c.2 in
      if b : bool then Ok true else is_below_any parent candidates'
  end.

Definition process_grandparent (level : Z) (first_parent_marker i : nat) (candidates : gmap N (list N)) (parent : N) : panics (gmap N (list N)) :=
  let! has_data := has_reachability_data parent in
  let! refs := reference_blocks level parent has_data in
  if (i <? first_parent_marker)%nat then Ok (<[parent := refs]> candidates)
  else if negb has_data then Ok candidates
  else
    let! retained := retain_candidates parent candidates in
    if (size retained <? size candidates)%nat then Ok (<[parent := refs]> retained)
    else
      let! below := is_below_any parent (map_to_list retained) in
      Ok (if below : bool then retained else <[parent := refs]> retained).

Fixpoint process_grandparents (level : Z) (first_parent_marker i : nat) (candidates : gmap N (list N)) (grandparents : list N) : panics (gmap N (list N)) :=
  match grandparents with
  | [] => Ok candidates
  | parent :: grandparents' =>
      let! candidates := process_grandparent level first_parent_marker i candidates parent in
      process_grandparents level first_parent_marker (S i) candidates grandparents'
  end.

Definition level_candidates (level : Z) (headers : list (Header * Z)) : gmap N (list N) :=
  foldl (fun m h => if level <=? h.2 then <[h_hash h.1 := [h_hash h.1]]> m else m) ∅ headers.

(** The body of the loop over levels. *)
Definition level_parents (level : Z) (headers : list (Header * Z)) : panics (list N) :=
  let candidates := level_candidates level headers in
  let! ' (first_parent_marker, grandparents) :=
    if decide (candidates = ∅) then
      let! first := unwrap (headers !! 0%nat) in
      let! first_parents := extend_grandparents level [] [first] in
      let! all := extend_grandparents level first_parents (drop 1 headers) in
      Ok (length first_parents, all)
    else
      let! all := extend_grandparents level [] (List.filter (fun h => h.2 <? level) headers) in
      Ok (0%nat, all) in
  if bool_decide (candidates = ∅) && (first_parent_marker =? length grandparents)%nat then Ok grandparents
  else
    let! candidates := process_grandparents level first_parent_marker 0 candidates grandparents in
    Ok (List.map fst (map_to_list candidates)).

Fixpoint levels_loop (levels : list nat) (headers : list (Header * Z)) (parents : CompressedParents) : panics CompressedParents :=
  match levels with
  | [] => Ok parents
  | level :: levels' =>
      let! at_level := level_parents (Z.of_nat level) headers in
      if (0 <? level)%nat && bool_decide (at_level = [pb_genesis_hash self]) then Ok parents
      else
        let! parents := parents_push parents at_level in
        levels_loop levels' headers parents
  end.

Definition calc_block_parents (current_pruning_point : N) (direct_parents : list N) : panics CompressedParents :=
  let! headers := mapM_out (fun parent => unwrap_res (pb_header_with_block_level self parent)) direct_parents in
  let! first := position (fun parent => unwrap_res (is_dag_ancestor_of (pb_reachability_service self) current_pruning_point parent)) direct_parents in
  let! first := unwrap first in
  let! headers := swap_first first headers in
  levels_loop (seq 0 (Z.to_nat (pb_max_block_level self) + 1)) headers [].
End Manager.

(** ** Index sets *)

Lemma index_extend_elem l xs x : x ∈ index_extend l xs <-> x ∈ l \/ x ∈ xs.
Proof.
  unfold index_extend. revert l. induction xs as [|y xs IH]; intros l; cbn [foldl]; [set_solver|]. rewrite IH. unfold index_insert. case_decide; set_solver.
Qed.
Lemma index_extend_nodup l xs : NoDup l -> NoDup (index_extend l xs).
Proof.
  unfold index_extend. revert l. induction xs as [|y xs IH]; intros l Hl; cbn [foldl]; [done|]. apply IH. unfold index_insert. case_decide; [done|]. apply NoDup_app. split_and!; [done|set_solver|apply NoDup_singleton].
Qed.
Lemma index_extend_prefix l xs : exists r, index_extend l xs = l ++ r.
Proof.
  unfold index_extend. revert l. induction xs as [|y xs IH]; intros l; cbn [foldl]; [exists []; by rewrite app_nil_r|]. destruct (IH (index_insert l y)) as [r ->]. unfold index_insert. case_decide; [by exists r|].
  exists (y :: r). by rewrite <- app_assoc.
Qed.

(** ** Maximal blocks *)

Section Maximal.
Context (anc : N -> N -> bool) (known : N -> Prop).
Hypothesis anc_refl : forall x, known x -> anc x x = true.
Hypothesis anc_trans : forall x y z, known x -> known y -> known z -> anc x y = true -> anc y z = true -> anc x z = true.
Hypothesis anc_antisym : forall x y, known x -> known y -> anc x y = true -> anc y x = true -> x = y.

(** [x] is in [P] and below no other block of [P]. *)
Definition is_max (P : list N) (x : N) : Prop := x ∈ P /\ forall y, y ∈ P -> anc x y = true -> y = x.

Lemma is_max_equiv P Q x : (forall y, y ∈ P <-> y ∈ Q) -> is_max P x <-> is_max Q x.
Proof using. intros Heq. unfold is_max. rewrite Heq. by setoid_rewrite Heq. Qed.

Definition strictly_above (P : list N) (y : N) : list N := List.filter (fun z => anc y z && negb (z =? y)%N) P.

Lemma filter_shorter {A} (f g : A -> bool) (l : list A) x : (forall z, z ∈ l -> f z = true -> g z = true) ->
  (length (List.filter f l) <= length (List.filter g l))%nat /\ (x ∈ l -> g x = true -> f x = false -> (length (List.filter f l) < length (List.filter g l))%nat).
Proof using.
  induction l as [|z l IH]; intros Hfg; [split; [done|by intros ?%elem_of_nil]|]. destruct IH as [Hle Hlt]; [intros u Hu; apply Hfg; by right|]. pose proof (Hfg z ltac:(left)) as Hz.
  cbn. split.
  - destruct (f z); [rewrite Hz by done; cbn; lia|]. destruct (g z); cbn; lia.
  - intros [<-|Hin]%elem_of_cons Hg Hf; [rewrite Hg, Hf; cbn; lia|]. specialize (Hlt Hin Hg Hf). destruct (f z); [rewrite Hz by done; cbn; lia|]. destruct (g z); cbn; lia.
Qed.

Lemma max_above P y : (forall z, z ∈ P -> known z) -> y ∈ P -> exists z, is_max P z /\ anc y z = true.
Proof using anc_refl anc_trans anc_antisym.
  intros Hk. remember (length (strictly_above P y)) as n eqn:Hn. revert y Hn. induction (lt_wf n) as [n _ IH]. intros y Hn Hy.
  destruct (decide (Exists (fun z => anc y z = true /\ z <> y) P)) as [Hex|Hno].
  - apply Exists_exists in Hex as (z & Hz & Hyz & Hne). destruct (IH (length (strictly_above P z))) with (y := z) as (m & Hm & Hzm); [|done|done|].
    + subst n. unfold strictly_above. apply (filter_shorter _ _ P z); [|done| |].
      * intros u Hin Hu. apply andb_true_iff in Hu as [Hzu Hne']. apply negb_true_iff, N.eqb_neq in Hne'.
        apply andb_true_iff. split; [by apply (anc_trans y z u); auto|]. apply negb_true_iff, N.eqb_neq. intros ->. apply Hne'. by apply anc_antisym; auto.
      * by rewrite Hyz, (proj2 (N.eqb_neq _ _) Hne).
      * by rewrite N.eqb_refl, andb_false_r.
    + exists m. split; [done|]. apply (anc_trans y z m); auto. apply Hk, Hm.
  - exists y. split; [split; [done|]|by apply anc_refl, Hk]. intros z Hz Hyz. destruct (decide (z = y)) as [|Hne]; [done|]. exfalso. apply Hno. apply Exists_exists. by exists z.
Qed.

(** ** Candidates are the maximal blocks met so far *)

Context {R : Type} `{ReachabilityStore R} (self : ParentsManager R).
Hypothesis Hquery : forall a b, known a -> known b -> service_is_dag_ancestor_of (pb_reachability_service self) a b = Ok (anc a b).
Hypothesis Hhas : forall a, known a -> has (pb_reachability_service self) a = Ok true.

Record cand_ok (P : list N) (m : gmap N (list N)) : Prop := mk_cand_ok {
  co_max : forall x, is_Some (m !! x) <-> is_max P x;
  co_refs : forall x refs, m !! x = Some refs -> refs = [x]
}.

Lemma retain_fold p l kept : known p -> (forall c, c ∈ l -> c.2 = [c.1] /\ known c.1) ->
  foldM_out (fun kept c => let! b := is_any_dag_ancestor (pb_reachability_service self) c.2 p in Ok (if b : bool then delete c.1 kept else kept)) kept l =
  Ok (foldl (fun kept c => if anc c.1 p then delete c.1 kept else kept) kept l) :> panics (gmap N (list N)).
Proof using Hquery.
  intros Hp. revert kept. induction l as [|c l IH]; intros kept Hl; [done|]. cbn [foldM_out foldl]. destruct (Hl c ltac:(left)) as [-> Hc]. cbn [is_any_dag_ancestor].
  rewrite Hquery by done. cbn [obind]. assert (Hb : (if anc c.1 p then Ok true else Ok false) = (Ok (anc c.1 p) : panics bool)) by (by destruct (anc c.1 p)). rewrite Hb. cbn [obind]. apply IH. intros d Hd. apply Hl. by right.
Qed.
Lemma deletes_lookup p (l : list (N * list N)) (kept : gmap N (list N)) x :
  foldl (fun kept c => if anc c.1 p then delete c.1 kept else kept) kept l !! x = if decide (x ∈ l.*1 /\ anc x p = true) then None else kept !! x.
Proof using.
  revert kept. induction l as [|c l IH]; intros kept; cbn [foldl fmap list_fmap]; [rewrite decide_False; [done|]; by intros [?%elem_of_nil _]|]. rewrite IH. cbn [fmap list_fmap].
  destruct (anc c.1 p) eqn:Hc.
  - destruct (decide (x = c.1)) as [->|Hne].
    + rewrite lookup_delete_eq. rewrite (decide_True (P := c.1 ∈ c.1 :: _ /\ _)) by (split; [left|done]). by case_decide.
    + rewrite lookup_delete_ne by done. rewrite (decide_ext (x ∈ l.*1 /\ anc x p = true) (x ∈ c.1 :: l.*1 /\ anc x p = true)); [done|]. rewrite elem_of_cons. tauto.
  - rewrite (decide_ext (x ∈ l.*1 /\ anc x p = true) (x ∈ c.1 :: l.*1 /\ anc x p = true)); [done|]. rewrite elem_of_cons. split; [tauto|]. intros [[->|Hx] Ha]; [congruence|done].
Qed.

Lemma retain_spec P m p : (forall x, x ∈ P -> known x) -> known p -> cand_ok P m ->
  exists m', retain_candidates self p m = Ok m' /\ forall x, m' !! x = if anc x p then None else m !! x.
Proof using Hquery.
  intros Hk Hp Hco. unfold retain_candidates. rewrite retain_fold; [|done|].
  - eexists. split; [done|]. intros x. rewrite deletes_lookup. destruct (m !! x) as [refs|] eqn:Hx.
    + assert (Hin : x ∈ (map_to_list m).*1) by (apply list_elem_of_fmap; exists (x, refs); split; [done|]; by apply elem_of_map_to_list).
      destruct (anc x p); [by rewrite decide_True|]. rewrite decide_False; [done|]. by intros [_ ?].
    + rewrite decide_False; [by destruct (anc x p)|]. intros [([y refs] & -> & Hy%elem_of_map_to_list)%list_elem_of_fmap _]. cbn in Hx. congruence.
  - intros [x refs] Hc%elem_of_map_to_list. cbn. split; [by eapply co_refs|]. apply Hk. by apply (co_max P m Hco).
Qed.

Lemma below_any_spec p (l : list (N * list N)) : known p -> (forall c, c ∈ l -> c.2 = [c.1] /\ known c.1) -> is_below_any self p l = Ok (existsb (fun c => anc p c.1) l).
Proof using Hquery.
  intros Hp. induction l as [|c l IH]; intros Hl; [done|]. cbn [is_below_any existsb]. destruct (Hl c ltac:(left)) as [-> Hc]. cbn [is_dag_ancestor_of_any]. rewrite Hquery by done.
  cbn [obind]. destruct (anc p c.1); [done|]. cbn [obind orb]. apply IH. intros d Hd. apply Hl. by right.
Qed.

Lemma process_grandparent_spec level marker i P m p : (forall x, x ∈ P -> known x) -> known p -> cand_ok P m -> (marker <= i)%nat ->
  exists m', process_grandparent self level marker i m p = Ok m' /\ cand_ok (P ++ [p]) m'.
Proof using anc_refl anc_trans anc_antisym Hquery Hhas.
  intros Hk Hp Hco Hi. unfold process_grandparent, has_reachability_data. rewrite Hhas by done. cbn [unwrap_res obind reference_blocks]. rewrite (proj2 (Nat.ltb_ge _ _) Hi). cbn [negb].
  destruct (retain_spec P m p Hk Hp Hco) as (m' & -> & Hm'). cbn [obind].
  assert (Hsub : m' ⊆ m). { apply map_subseteq_spec. intros x refs. rewrite Hm'. by destruct (anc x p). }
  assert (Hkeep : forall x, is_max P x -> anc x p = false -> is_max (P ++ [p]) x).
  { intros x [Hx Hmax] Hxp. split; [apply elem_of_app; by left|]. intros y [Hy| ->%list_elem_of_singleton]%elem_of_app; [by apply Hmax|congruence]. }
  assert (Hback : forall x, is_max (P ++ [p]) x -> x = p \/ is_max P x /\ anc x p = false).
  { intros x [Hx Hmax]. destruct (decide (x = p)) as [|Hne]; [by left|right]. assert (HxP : x ∈ P) by set_solver. split; [split; [done|]; intros y Hy; apply Hmax; set_solver|].
    destruct (anc x p) eqn:Ha; [|done]. exfalso. apply Hne. symmetry. apply Hmax; [set_solver|done]. }
  assert (Hins : is_max (P ++ [p]) p -> cand_ok (P ++ [p]) (<[p := [p]]> m')).
  { intros Hpm. split.
    - intros x. destruct (decide (x = p)) as [->|Hne]; [rewrite lookup_insert_eq; by split; [|eexists]|]. rewrite lookup_insert_ne by done. rewrite Hm'. split.
      + destruct (anc x p) eqn:Ha; [by intros [? ?]|]. intros Hx. apply Hkeep; [by apply (co_max P m Hco)|done].
      + intros Hx. destruct (Hback x Hx) as [?|[Hmx Ha]]; [done|]. rewrite Ha. by apply (co_max P m Hco).
    - intros x refs. destruct (decide (x = p)) as [->|Hne]; [rewrite lookup_insert_eq; by intros [= <-]|]. rewrite lookup_insert_ne by done. rewrite Hm'. destruct (anc x p); [done|]. by apply (co_refs P m Hco). }
  destruct (Nat.ltb_spec (size m') (size m)) as [Hlt|Hge].
  - eexists. split; [done|]. apply Hins.
    assert (Hex : exists x, is_max P x /\ anc x p = true).
    { destruct (decide (Exists (fun c => anc c.1 p = true) (map_to_list m))) as [Hex|Hno].
      - apply Exists_exists in Hex as ([x refs] & Hc%elem_of_map_to_list & Ha). exists x. split; [|done]. apply (co_max P m Hco). by eexists.
      - exfalso. assert (m' = m) as ->; [|lia]. apply map_eq. intros x. rewrite Hm'. destruct (anc x p) eqn:Ha; [|done]. destruct (m !! x) as [refs|] eqn:Hx; [|done]. exfalso. apply Hno.
        apply Exists_exists. exists (x, refs). split; [by apply elem_of_map_to_list|done]. }
    destruct Hex as (x & [HxP Hxm] & Hxp). split; [apply elem_of_app; right; left|]. intros y [Hy| ->%list_elem_of_singleton]%elem_of_app Hpy; [|done].
    destruct (max_above P y Hk Hy) as (z & [HzP Hzm] & Hyz). assert (z = x) as ->. { apply Hxm; [done|]. apply (anc_trans x p z); auto. apply (anc_trans p y z); auto. }
    apply anc_antisym; auto. apply (anc_trans y x p); auto.
  - assert (m' = m) as ->. { apply map_eq. intros x. destruct (m !! x) as [refs|] eqn:Hx; [|by rewrite Hm', Hx; destruct (anc x p)].
      rewrite Hm'. destruct (anc x p) eqn:Ha; [exfalso|done]. assert (Hss : m' ⊂ m). { split; [done|]. intros Hms. rewrite map_subseteq_spec in Hms. specialize (Hms x refs Hx). rewrite Hm', Ha in Hms. done. }
      apply map_subset_size in Hss. lia. }
    assert (Hno : forall x, is_max P x -> anc x p = false). { intros x Hx. apply (co_max P m Hco) in Hx as [refs Hx]. specialize (Hm' x). rewrite Hx in Hm'. by destruct (anc x p). }
    rewrite below_any_spec; [|done|intros [x refs] Hc%elem_of_map_to_list; cbn; split; [by eapply co_refs|]; apply Hk; by apply (co_max P m Hco)]. cbn [obind].
    destruct (existsb _ _) eqn:Hb.
    + exists m. split; [done|]. apply existsb_exists in Hb as ([c refs] & Hc%list_elem_of_In%elem_of_map_to_list & Hpc). cbn in Hpc.
      assert (Hcm : is_max P c) by (apply (co_max P m Hco); by eexists). split; [|apply (co_refs P m Hco)]. intros x. rewrite (co_max P m Hco). split; [intros Hx; by apply Hkeep; [|apply Hno]|].
      intros Hx. destruct (Hback x Hx) as [->|[? _]]; [|done]. exfalso. destruct Hx as [_ Hxm]. assert (c = p) as -> by (apply Hxm; [apply elem_of_app; left; apply Hcm|done]). specialize (Hno p Hcm). rewrite anc_refl in Hno by done. done.
    + eexists. split; [done|]. apply Hins. split; [apply elem_of_app; right; left|]. intros y [Hy| ->%list_elem_of_singleton]%elem_of_app Hpy; [|done]. exfalso.
      destruct (max_above P y Hk Hy) as (z & Hz & Hyz). pose proof Hz as [HzP _]. apply (co_max P m Hco) in Hz as [refs Hz]. apply not_true_iff_false in Hb. apply Hb. apply existsb_exists. exists (z, refs).
      split; [by apply list_elem_of_In, elem_of_map_to_list|]. cbn. apply (anc_trans p y z); auto.
Qed.

Lemma process_rest level marker l : forall i P m, (forall x, x ∈ P ++ l -> known x) -> cand_ok P m -> (marker <= i)%nat ->
  exists m', process_grandparents self level marker i m l = Ok m' /\ cand_ok (P ++ l) m'.
Proof using anc_refl anc_trans anc_antisym Hquery Hhas.
  induction l as [|p l IH]; intros i P m Hk Hco Hi; cbn [process_grandparents]; [exists m; by rewrite app_nil_r|].
  destruct (process_grandparent_spec level marker i P m p) as (m' & -> & Hm'); [set_solver|apply Hk; set_solver|done|done|]. cbn [obind].
  destruct (IH (S i) (P ++ [p]) m') as (m'' & -> & Hm''); [intros x; rewrite <- app_assoc; apply Hk|done|lia|]. exists m''. split; [done|]. by rewrite <- app_assoc in Hm''.
Qed.

Definition antichain (l : list N) : Prop := forall x y, x ∈ l -> y ∈ l -> anc x y = true -> y = x.
Lemma antichain_max l x : antichain l -> is_max l x <-> x ∈ l.
Proof using. intros Ha. split; [by intros [? _]|]. intros Hx. split; [done|]. intros y Hy. by apply Ha. Qed.

(** The parents of the first parent enter without a check. *)
Lemma process_first level marker l : forall i P m, (forall x, x ∈ P ++ l -> known x) -> antichain (P ++ l) -> cand_ok P m -> (i + length l <= marker)%nat ->
  forall rest, exists m', process_grandparents self level marker i m (l ++ rest) = process_grandparents self level marker (i + length l) m' rest /\ cand_ok (P ++ l) m'.
Proof using anc_refl anc_trans anc_antisym Hquery Hhas.
  induction l as [|p l IH]; intros i P m Hk Ha Hco Hi rest; cbn [app]; [exists m; rewrite app_nil_r, Nat.add_0_r; done|]. cbn [length] in Hi.
  cbn [process_grandparents]. unfold process_grandparent at 1, has_reachability_data. rewrite Hhas by (apply Hk; set_solver). cbn [unwrap_res obind reference_blocks].
  rewrite (proj2 (Nat.ltb_lt i marker)) by lia. cbn [obind].
  assert (Hsub : antichain (P ++ [p])) by (intros x y Hx Hy; apply Ha; set_solver). assert (HsubP : antichain P) by (intros x y Hx Hy; apply Ha; set_solver).
  destruct (IH (S i) (P ++ [p]) (<[p := [p]]> m)) with (rest := rest) as (m' & -> & Hm').
  - intros x. rewrite <- app_assoc. apply Hk.
  - by rewrite <- app_assoc.
  - split.
    + intros x. rewrite antichain_max by done. destruct (decide (x = p)) as [->|Hne]; [rewrite lookup_insert_eq; split; [set_solver|by eexists]|].
      rewrite lookup_insert_ne by done. rewrite (co_max P m Hco), antichain_max by done. set_solver.
    + intros x refs. destruct (decide (x = p)) as [->|Hne]; [rewrite lookup_insert_eq; by intros [= <-]|]. rewrite lookup_insert_ne by done. apply (co_refs P m Hco).
  - lia.
  - exists m'. rewrite <- app_assoc in Hm'. split; [|done]. cbn [length]. by replace (i + S (length l))%nat with (S i + length l)%nat by lia.
Qed.

(** *** Headers *)

(** The parents at a level that a header lists. *)
Definition listed (h : Header) (level : Z) : list N :=
  match levels_of (h_parents_by_level h) !! Z.to_nat level with
  | Some ps => ps
  | None => if parents_is_empty (h_parents_by_level h) then [] else [pb_genesis_hash self]
  end.
Lemma parents_at_level_spec h level : canonical (h_parents_by_level h) -> 0 <= level -> parents_at_level self h level = Ok (listed h level).
Proof using. intros Hc Hl. unfold parents_at_level, listed. rewrite parents_get_spec by done. cbn [obind]. by destruct (_ !! _). Qed.

(** Every block of a level that is a direct parent or listed by one below the level. *)
Definition below_level (level : Z) (headers : list (Header * Z)) : list (Header * Z) := List.filter (fun h => h.2 <? level) headers.
Definition level_pool (level : Z) (headers : list (Header * Z)) : list N :=
  List.map (fun h => h_hash h.1) (List.filter (fun h => level <=? h.2) headers) ++ concat (List.map (fun h => listed h.1 level) (below_level level headers)).

Definition gather (level : Z) (acc : list N) (headers : list (Header * Z)) : list N := foldl (fun acc (h : Header * Z) => index_extend acc (listed h.1 level)) acc headers.

Lemma extend_grandparents_spec level acc headers : 0 <= level -> (forall h, h ∈ headers -> canonical (h_parents_by_level h.1)) ->
  extend_grandparents self level acc headers = Ok (gather level acc headers).
Proof using.
  intros Hl. unfold extend_grandparents, gather. revert acc. induction headers as [|h hs IH]; intros acc Hc; cbn [foldM_out foldl]; [done|].
  rewrite parents_at_level_spec by (done || (apply Hc; left)). cbn [obind]. apply IH. intros h' Hh'. apply Hc. by right.
Qed.
Lemma gather_elem level headers : forall acc x, x ∈ gather level acc headers <-> x ∈ acc \/ x ∈ concat (List.map (fun h : Header * Z => listed h.1 level) headers).
Proof using.
  unfold gather. induction headers as [|h hs IH]; intros acc x; cbn [foldl List.map concat]; [rewrite elem_of_nil; tauto|]. rewrite IH, index_extend_elem, elem_of_app. tauto.
Qed.
Lemma gather_prefix level headers : forall acc, NoDup acc -> exists r, gather level acc headers = acc ++ r /\ NoDup (acc ++ r).
Proof using.
  unfold gather. induction headers as [|h hs IH]; intros acc Hnd; cbn [foldl]; [exists []; by rewrite app_nil_r|]. destruct (index_extend_prefix acc (listed h.1 level)) as [r Hr].
  destruct (IH (index_extend acc (listed h.1 level))) as (r' & -> & Hr'); [by apply index_extend_nodup|]. exists (r ++ r'). rewrite app_assoc, <- Hr. done.
Qed.

Lemma level_candidates_spec level headers (m : gmap N (list N)) (P : list N) : (forall x refs, m !! x = Some refs -> refs = [x]) -> (forall x, is_Some (m !! x) <-> x ∈ P) ->
  let m' : gmap N (list N) := foldl (fun m (h : Header * Z) => if level <=? h.2 then <[h_hash h.1 := [h_hash h.1]]> m else m) m headers in
  (forall x refs, m' !! x = Some refs -> refs = [x]) /\ (forall x, is_Some (m' !! x) <-> x ∈ P ++ List.map (fun h => h_hash h.1) (List.filter (fun h => level <=? h.2) headers)).
Proof using.
  revert m P. induction headers as [|h hs IH]; intros m P Hr Hm; cbn [foldl List.filter]; [rewrite app_nil_r; done|]. destruct (level <=? h.2); [|by apply IH]. cbn [List.map].
  replace (P ++ h_hash h.1 :: List.map (fun h0 => h_hash h0.1) (List.filter (fun h0 => level <=? h0.2) hs)) with ((P ++ [h_hash h.1]) ++ List.map (fun h0 => h_hash h0.1) (List.filter (fun h0 => level <=? h0.2) hs)) by (by rewrite <- app_assoc).
  apply IH.
  - intros x refs. destruct (decide (x = h_hash h.1)) as [->|Hne]; [rewrite lookup_insert_eq; by intros [= <-]|]. rewrite lookup_insert_ne by done. apply Hr.
  - intros x. rewrite elem_of_app, list_elem_of_singleton. destruct (decide (x = h_hash h.1)) as [->|Hne]; [rewrite lookup_insert_eq; split; [by right|by eexists]|]. rewrite lookup_insert_ne, Hm by done. tauto.
Qed.

(** What a level needs: everything is known, each list is an antichain. *)
Record level_ready (level : Z) (headers : list (Header * Z)) : Prop := mk_level_ready {
  lr_some : headers <> [];
  lr_canonical : forall h, h ∈ headers -> canonical (h_parents_by_level h.1);
  lr_known : forall x, x ∈ level_pool level headers -> known x;
  lr_direct : antichain (List.map (fun h => h_hash h.1) headers);
  lr_listed : forall h, h ∈ headers -> antichain (listed h.1 level)
}.

Lemma filter_all_below level (headers : list (Header * Z)) : List.filter (fun h => level <=? h.2) headers = [] -> below_level level headers = headers.
Proof using.
  unfold below_level. induction headers as [|h hs IH]; [done|]. cbn [List.filter]. rewrite (Z.ltb_antisym level). destruct (level <=? h.2); [done|]. intros Hf. cbn [negb]. by rewrite IH.
Qed.

Lemma level_parents_spec level headers : 0 <= level -> level_ready level headers ->
  exists l, level_parents self level headers = Ok l /\ NoDup l /\ forall x, x ∈ l <-> is_max (level_pool level headers) x.
Proof using anc_refl anc_trans anc_antisym Hquery Hhas.
  intros Hl [Hne Hcan Hkn Hdir Hlist]. unfold level_parents, level_candidates.
  destruct (level_candidates_spec level headers ∅ []) as [Hrefs Hdom]; [done|intros x; rewrite lookup_empty, elem_of_nil; split; [by intros [? ?]|done]|].
  set (m := foldl _ ∅ headers) in *. cbn [app] in Hdom.
  assert (Hkeys : forall m' P, cand_ok P m' -> (forall x, x ∈ P <-> x ∈ level_pool level headers) ->
    NoDup (List.map fst (map_to_list m')) /\ forall x, x ∈ List.map fst (map_to_list m') <-> is_max (level_pool level headers) x).
  { intros m' P Hco HP. split; [apply NoDup_fst_map_to_list|]. intros x. rewrite <- (is_max_equiv P _ x HP), <- (co_max P m' Hco). split.
    - intros ([y refs] & -> & Hy%elem_of_map_to_list)%list_elem_of_fmap. by eexists.
    - intros [refs Hx]. apply list_elem_of_fmap. exists (x, refs). split; [done|]. by apply elem_of_map_to_list. }
  destruct (decide (m = ∅)) as [Hem|Hem].
  - assert (Hnone : List.filter (fun h : Header * Z => level <=? h.2) headers = []).
    { destruct (List.filter _ headers) as [|h hs] eqn:Hf; [done|]. exfalso. destruct (proj2 (Hdom (h_hash h.1))) as [refs Hr]; [cbn [List.map]; left|]. rewrite Hem in Hr. done. }
    destruct headers as [|h0 hs]; [done|]. cbn [lookup list_lookup unwrap obind drop].
    rewrite (extend_grandparents_spec level [] [h0]) by (done || (intros h ->%list_elem_of_singleton; apply Hcan; left)). cbn [obind].
    rewrite (extend_grandparents_spec level _ hs) by (done || (intros h Hh; apply Hcan; by right)). cbn [obind].
    set (fp := gather level [] [h0]). destruct (gather_prefix level [h0] [] ltac:(constructor)) as (fp' & Hfp & Hndfp). cbn [app] in Hfp, Hndfp. fold fp in Hfp. rewrite <- Hfp in Hndfp.
    assert (Hfpe : forall x, x ∈ fp <-> x ∈ listed h0.1 level) by (intros x; unfold fp; rewrite gather_elem; cbn [List.map concat]; rewrite app_nil_r, elem_of_nil; tauto).
    destruct (gather_prefix level hs fp Hndfp) as (r & Hr & Hndr). rewrite Hr.
    assert (Hpool : forall x, x ∈ fp ++ r <-> x ∈ level_pool level (h0 :: hs)).
    { intros x. unfold level_pool. rewrite Hnone, (filter_all_below _ _ Hnone). cbn [List.map app concat]. rewrite <- Hr, gather_elem, elem_of_app, Hfpe. done. }
    assert (Hac : antichain fp) by (intros x y Hx%Hfpe Hy%Hfpe; by apply (Hlist h0 ltac:(left))).
    rewrite bool_decide_eq_true_2 by done. cbn [andb]. destruct (Nat.eqb_spec (length fp) (length (fp ++ r))) as [Heq|Hneq].
    + eexists. split; [done|]. split; [done|]. intros x. rewrite length_app in Heq. assert (r = []) as -> by (destruct r; [done|cbn in Heq; lia]). rewrite app_nil_r in *.
      rewrite <- (is_max_equiv fp _ x) by done. by rewrite antichain_max.
    + destruct (process_first level (length fp) fp 0 [] ∅) with (rest := r) as (m1 & Hm1 & Hco1); [intros x Hx; apply Hkn, Hpool; set_solver|done| |cbn; lia|].
      { split; [|done]. intros x. rewrite lookup_empty. split; [by intros [? ?]|]. by intros [?%elem_of_nil _]. }
      rewrite Hem. rewrite Hm1. cbn [app] in Hco1. destruct (process_rest level (length fp) r (0 + length fp) fp m1) as (m2 & -> & Hco2); [intros x Hx; by apply Hkn, Hpool|done|lia|].
      cbn [obind]. eexists. split; [done|]. by apply (Hkeys m2 (fp ++ r)).
  - rewrite extend_grandparents_spec by (done || (intros h [Hh _]%list_elem_of_In%filter_In; by apply Hcan, list_elem_of_In)). cbn [obind]. rewrite bool_decide_eq_false_2 by done. cbn [andb].
    set (D := List.map (fun h => h_hash h.1) (List.filter (fun h => level <=? h.2) headers)) in *.
    assert (Hpool : forall x, x ∈ D ++ gather level [] (List.filter (fun h => h.2 <? level) headers) <-> x ∈ level_pool level headers).
    { intros x. unfold level_pool, below_level. fold D. rewrite !elem_of_app, gather_elem, elem_of_nil. tauto. }
    assert (HacD : antichain D).
    { assert (HinD : forall x, x ∈ D -> x ∈ List.map (fun h => h_hash h.1) headers).
      { intros x (h & -> & [Hh _]%list_elem_of_In%filter_In)%list_elem_of_fmap. apply list_elem_of_fmap. exists h. split; [done|]. by apply list_elem_of_In. }
      intros x y Hx%HinD Hy%HinD. by apply Hdir. }
    destruct (process_rest level 0 (gather level [] (List.filter (fun h => h.2 <? level) headers)) 0 D m) as (m2 & -> & Hco2); [intros x Hx; by apply Hkn, Hpool| |lia|].
    { split; [|done]. intros x. by rewrite Hdom, antichain_max. }
    cbn [obind]. eexists. split; [done|]. by apply (Hkeys m2 (D ++ gather level [] (List.filter (fun h => h.2 <? level) headers))).
Qed.

(** *** The loop over levels *)

(** [L] lists the maximal blocks of the levels from [n] on, until a level above the first
    has genesis only or the levels end. *)
Inductive levels_right (headers : list (Header * Z)) : list nat -> list (list N) -> Prop :=
| lv_end : levels_right headers [] []
| lv_genesis n ns l : (0 < n)%nat -> NoDup l -> (forall x, x ∈ l <-> is_max (level_pool (Z.of_nat n) headers) x) -> l = [pb_genesis_hash self] -> levels_right headers (n :: ns) []
| lv_level n ns l L : NoDup l -> (forall x, x ∈ l <-> is_max (level_pool (Z.of_nat n) headers) x) -> n = 0%nat \/ l <> [pb_genesis_hash self] ->
    levels_right headers ns L -> levels_right headers (n :: ns) (l :: L).

Lemma levels_loop_spec headers ns : forall p, (forall n, n ∈ ns -> level_ready (Z.of_nat n) headers) -> canonical p -> expanded_len p + Z.of_nat (length ns) < U8 ->
  exists p' L, levels_loop self ns headers p = Ok p' /\ canonical p' /\ levels_of p' = levels_of p ++ L /\ levels_right headers ns L.
Proof using anc_refl anc_trans anc_antisym Hquery Hhas.
  induction ns as [|n ns IH]; intros p Hr Hc Hlen; cbn [levels_loop].
  { exists p, []. rewrite app_nil_r. split_and!; [done|done|done|constructor]. }
  destruct (level_parents_spec (Z.of_nat n) headers ltac:(lia) (Hr n ltac:(left))) as (l & -> & Hnd & Hl). cbn [obind length] in *.
  destruct ((0 <? n)%nat && bool_decide (l = [pb_genesis_hash self])) eqn:Hstop.
  - apply andb_true_iff in Hstop as [Hn%Nat.ltb_lt He%bool_decide_eq_true]. exists p, []. rewrite app_nil_r. split_and!; [done|done|done|by eapply lv_genesis].
  - destruct (parents_push_spec (E := Empty_set) p l Hc ltac:(lia)) as (p1 & -> & Hc1 & Hl1). cbn [obind].
    destruct (IH p1) as (p' & L & -> & Hc' & Hl' & HL); [intros n' Hn'; apply Hr; by right|done| |].
    { rewrite expanded_len_spec by done. rewrite Hl1, length_app. cbn [length]. rewrite expanded_len_spec in Hlen by done. lia. }
    exists p', (l :: L). split_and!; [done|done|rewrite Hl', Hl1, <- app_assoc; done|]. constructor; [done|done| |done].
    apply andb_false_iff in Hstop as [Hn%Nat.ltb_ge|He%bool_decide_eq_false]; [left; lia|by right].
Qed.

Lemma bool_filter_perm {A} (f : A -> bool) l l' : l ≡ₚ l' -> List.filter f l ≡ₚ List.filter f l'.
Proof using.
  induction 1 as [|x l l' _ IH|x y l|l1 l2 l3 _ IH1 _ IH2]; cbn; [done|destruct (f x); by rewrite ?IH|destruct (f x), (f y); (done || apply Permutation_swap)|by rewrite IH1].
Qed.
Lemma level_pool_perm level headers headers' : headers ≡ₚ headers' -> level_pool level headers ≡ₚ level_pool level headers'.
Proof using.
  intros Hp. unfold level_pool, below_level. rewrite <- !flat_map_concat_map. apply Permutation_app; [apply Permutation_map|apply Permutation_flat_map]; by apply bool_filter_perm.
Qed.
Lemma levels_right_perm headers headers' ns L : headers ≡ₚ headers' -> levels_right headers ns L -> levels_right headers' ns L.
Proof using.
  intros Hp. assert (Hpool : forall n x, is_max (level_pool (Z.of_nat n) headers) x <-> is_max (level_pool (Z.of_nat n) headers') x).
  { intros n x. apply is_max_equiv. intros y. by rewrite (level_pool_perm _ _ _ Hp). }
  induction 1 as [|n ns l Hn Hnd Hl He|n ns l L Hnd Hl Hn _ IH]; [constructor|eapply lv_genesis|eapply lv_level]; try done; intros x; by rewrite Hl.
Qed.
End Maximal.

(** The past relation orders the blocks of a coloured DAG. *)
Lemma past_order genesis k w G anc S : ghostdag_ok genesis k w G anc S -> let known x := is_Some (G !! x) in
  (forall x, known x -> anc x x = true) /\ (forall x y z, known x -> known y -> known z -> anc x y = true -> anc y z = true -> anc x z = true) /\
  (forall x y, known x -> known y -> anc x y = true -> anc y x = true -> x = y).
Proof.
  intros Hok known. pose proof (go_anc _ _ _ _ _ _ Hok) as Hq. unfold known. split_and!.
  - intros x Hx. apply (Hq x x Hx Hx). by constructor.
  - intros x y z Hx Hy Hz Hxy Hyz. apply (Hq x z Hx Hz). eapply dag_anc_trans; [by apply (Hq x y Hx Hy)|by apply (Hq y z Hy Hz)].
  - intros x y Hx Hy Hxy%(Hq x y Hx Hy) Hyx%(Hq y x Hy Hx). destruct (decide (x = y)) as [|Hne]; [done|exfalso].
    destruct (proj1 (go_dom _ _ _ _ _ _ Hok x) Hx) as [Dx HDx]. destruct (proj1 (go_dom _ _ _ _ _ _ Hok y) Hy) as [Dy HDy].
    destruct (decide (x = hash_ORIGIN)) as [->|Hxo]; [|destruct (decide (y = hash_ORIGIN)) as [->|Hyo]].
    + apply Hne. symmetry. by apply (origin_past _ _ _ _ _ _ Hok).
    + apply Hne. by apply (origin_past _ _ _ _ _ _ Hok).
    + pose proof (work_increasing _ _ _ _ _ _ Hok x y Dx Dy Hxy Hne Hxo HDx HDy). pose proof (work_increasing _ _ _ _ _ _ Hok y x Dy Dx Hyx (not_eq_sym Hne) Hyo HDy HDx). lia.
Qed.

Lemma swap_first_perm {A} (l : list A) i : (i < length l)%nat -> exists l', swap_first i l = Ok l' /\ l' ≡ₚ l.
Proof.
  intros Hi. unfold swap_first. destruct (lookup_lt_is_Some_2 l i Hi) as [b Hb]. destruct (lookup_lt_is_Some_2 l 0 ltac:(lia)) as [a Ha]. rewrite Ha, Hb. cbn [unwrap obind].
  eexists. split; [done|]. by apply Permutation_insert_swap.
Qed.

Lemma position_some {A} (f : A -> panics bool) (g : A -> bool) l : (forall x, x ∈ l -> f x = Ok (g x)) -> (exists x, x ∈ l /\ g x = true) -> exists i, position f l = Ok (Some i) /\ (i < length l)%nat.
Proof.
  induction l as [|y l IH]; intros Hf (x & Hx & Hg); [by apply elem_of_nil in Hx|]. cbn [position]. rewrite Hf by left. cbn [obind]. destruct (g y) eqn:Hy; [exists 0%nat; cbn; split; [done|lia]|].
  apply elem_of_cons in Hx as [->|Hx]; [congruence|]. destruct IH as (i & -> & Hi); [intros z Hz; apply Hf; by right|by exists x|]. exists (S i). cbn. split; [done|lia].
Qed.

(** C14: The parents of a new block at each level are the maximal blocks of the level below it.
    When the blocks involved are in the store (none is pruned), each header lists an
    antichain and one direct parent is in the future of the pruning point, the level parents
    computed from the direct parents and from the parents that their headers list are, for
    each level, exactly the blocks among them that are below no other, each once; the list
    stops at the level above the first whose only block is genesis, or at the highest level. *)
Theorem block_parents_maximal {R : Type} `{ReachabilityStore R} (self : ParentsManager R) (genesis : N) (k : Z) (w : N -> Z) (G : dag) (anc : N -> N -> bool)
    (S : gmap N GhostdagData) (header_of : N -> Header * Z) (pp : N) (ps : list N) :
  let known x := is_Some (G !! x) in
  let headers := List.map header_of ps in
  ghostdag_ok genesis k w G anc S ->
  (forall a b, known a -> known b -> is_dag_ancestor_of (pb_reachability_service self) a b = Ok (anc a b)) ->
  (forall a, known a -> has (pb_reachability_service self) a = Ok true) ->
  (forall p, p ∈ ps -> known p /\ pb_header_with_block_level self p = Ok (header_of p)) ->
  known pp -> (exists p, p ∈ ps /\ anc pp p = true) -> 0 <= pb_max_block_level self < 255 ->
  (forall n, Z.of_nat n <= pb_max_block_level self -> level_ready anc known self (Z.of_nat n) headers) ->
  exists p L, calc_block_parents self pp ps = Ok p /\ @into_levels unit p = Ok L /\
    levels_right anc self headers (seq 0 (Z.to_nat (pb_max_block_level self) + 1)) L.
Proof.
  intros known headers Hok Hquery Hhas Hps Hpp Hfirst Hmax Hready. destruct (past_order _ _ _ _ _ _ Hok) as (Hrefl & Htrans & Hanti). unfold calc_block_parents.
  rewrite (mapM_out_Ok _ header_of) by (intros p Hp; destruct (Hps p Hp) as [_ ->]; done). cbn [obind].
  destruct (position_some (fun parent => unwrap_res (is_dag_ancestor_of (pb_reachability_service self) pp parent)) (anc pp) ps) as (i & -> & Hi).
  { intros p Hp. rewrite Hquery by (done || apply (Hps p Hp)). done. }
  { done. }
  cbn [unwrap obind]. destruct (swap_first_perm (List.map header_of ps) i) as (hs & -> & Hperm); [by rewrite List.length_map|]. cbn [obind].
  assert (Hreadys : forall n, n ∈ seq 0 (Z.to_nat (pb_max_block_level self) + 1) -> level_ready anc known self (Z.of_nat n) hs).
  { intros n Hn%elem_of_seq. destruct (Hready n ltac:(lia)) as [H1 H2 H3 H4 H5]. unfold headers in *. split.
    - intros ->. apply Permutation_nil_l in Hperm. by rewrite <- Hperm in H1.
    - intros h Hh. apply H2. by rewrite <- Hperm.
    - intros x Hx. apply H3. by rewrite <- (level_pool_perm _ _ _ _ Hperm).
    - intros x y Hx Hy. apply H4; by rewrite <- Hperm.
    - intros h Hh. apply H5. by rewrite <- Hperm. }
  destruct (levels_loop_spec anc known Hrefl Htrans Hanti self) with (headers := hs) (ns := seq 0 (Z.to_nat (pb_max_block_level self) + 1)) (p := @nil (Z * list N)) as (p & L & Hp & Hc & HL & HR).
  - intros a b Ha Hb. cbn. by rewrite Hquery.
  - done.
  - done.
  - by split.
  - rewrite length_seq. cbn. lia.
  - exists p, L. split_and!; [done| |].
    + rewrite into_levels_spec by done. by rewrite HL.
    + eapply levels_right_perm; done.
Qed.

(** ** Witness: block 2 of level 1 and block 3 of level 0 on top of genesis *)

Definition lx_header (h : N) : Header * Z := (mk_header h 1 [(1, [1%N])] 0%N 0%N 0%N 0 0 0 0 0 0 1%N, if (h =? 2)%N then 1 else 0).
Definition lx_manager : ParentsManager MemoryReachabilityStore := mk_parents_manager _ 2 1%N (fun h => Ok (lx_header h)) gr3 (fun _ => Ok [1%N]).

Lemma lx_listed h level : In h [2%N; 3%N] -> 0 <= level -> listed lx_manager (lx_header h).1 level = [1%N].
Proof.
  intros _ Hl. unfold listed. cbn [lx_header fst h_parents_by_level levels_of]. destruct (Z.to_nat level) as [|n] eqn:Hn; [reflexivity|]. by destruct n.
Qed.

Lemma lx_ready n : level_ready (query gr3) (fun x => is_Some (gG3 !! x)) lx_manager (Z.of_nat n) (List.map lx_header [2%N; 3%N]).
Proof.
  assert (Hpool : forall x, x ∈ level_pool lx_manager (Z.of_nat n) (List.map lx_header [2%N; 3%N]) -> x ∈ [1%N; 2%N; 3%N]).
  { intros x. unfold level_pool, below_level. rewrite elem_of_app. intros [(h & -> & [Hh _]%list_elem_of_In%filter_In)%list_elem_of_fmap|(l & (h & <- & [Hh _]%filter_In)%in_map_iff & Hx)%list_elem_of_In%in_concat].
    - apply in_map_iff in Hh as (i & <- & Hi). cbn. apply list_elem_of_In. right. exact Hi.
    - apply in_map_iff in Hh as (i & <- & Hi). rewrite (lx_listed i _ Hi) in Hx by lia. destruct Hx as [<-|[]]. left. }
  split.
  - done.
  - intros h Hh. apply list_elem_of_In, in_map_iff in Hh as (i & <- & _). split; [|done]. cbn. lia.
  - intros x Hx%Hpool. rewrite !elem_of_cons, elem_of_nil in Hx. destruct Hx as [->|[->|[->|[]]]]; vm_compute; by eexists.
  - intros x y Hx Hy. cbn in Hx, Hy. rewrite !elem_of_cons, elem_of_nil in Hx, Hy. destruct Hx as [->|[->|[]]]; destruct Hy as [->|[->|[]]]; vm_compute; done.
  - intros h Hh. apply list_elem_of_In, in_map_iff in Hh as (i & <- & Hi). rewrite (lx_listed i _ Hi) by lia. intros x y ->%list_elem_of_singleton ->%list_elem_of_singleton. done.
Qed.

Lemma memory_serves (r : MemoryReachabilityStore) G : dag_ok (m_map r) hash_ORIGIN G ->
  (forall a b, is_Some (G !! a) -> is_Some (G !! b) -> is_dag_ancestor_of r a b = Ok (query r a b)) /\ (forall a, is_Some (G !! a) -> has r a = Ok true).
Proof.
  intros Hd. split.
  - intros a b Ha Hb. pose proof (query_service r hash_ORIGIN G a b Hd Ha Hb) as Hq. cbn in Hq. by destruct (is_dag_ancestor_of r a b); [injection Hq as ->|..].
  - intros a Ha%(do_dom _ _ _ Hd). cbn. unfold mem_has. by rewrite bool_decide_eq_true_2.
Qed.

Lemma block_parents_maximal_witness : exists p L, calc_block_parents lx_manager 1%N [2%N; 3%N] = Ok p /\ @into_levels unit p = Ok L /\
  levels_right (query gr3) lx_manager (List.map lx_header [2%N; 3%N]) (seq 0 3) L.
Proof.
  apply (block_parents_maximal lx_manager 1%N 1 exw_of gG3 (query gr3) gS3 lx_header 1%N [2%N; 3%N]).
  - exact gS3_ok.
  - exact (proj1 (memory_serves gr3 gG3 gr3_dag)).
  - exact (proj2 (memory_serves gr3 gG3 gr3_dag)).
  - intros p Hp. rewrite !elem_of_cons, elem_of_nil in Hp. split; [|done]. destruct Hp as [->|[->|[]]]; vm_compute; by eexists.
  - vm_compute. by eexists.
  - exists 2%N. split; [left|]. vm_compute. reflexivity.
  - cbn. lia.
  - intros n _. apply lx_ready.
Defined.

Lemma lx_levels : calc_block_parents lx_manager 1%N [2%N; 3%N] = Ok [(1, [2%N; 3%N]); (2, [2%N])].
Proof. vm_compute. reflexivity. Qed.
