(* ===== verification/UtxoState.v ===== *)
(** * The UTXO state of a block

    Model of consensus/src/pipeline/virtual_processor/utxo_validation.rs: from the UTXO set of
    its selected parent a block derives its own by accepting the transactions of its
    mergeset, and its header, its coinbase and its transactions are verified against the
    result.  With it the validated and mutable transactions of consensus/core/src/tx.rs and
    the acceptance data of consensus/core/src/acceptance_data.rs.

    Transactions of one block are validated by a thread pool.  What a validation observes of
    the other threads, the order in which its inputs are checked and the state of the shared
    signature cache, is an argument per transaction; [reduce] of rayon splits its items at
    arbitrary places, which a [bracketing] describes. *)

From Stdlib Require Import ZArith Lia Bool SpecFloat.
From stdpp Require Import base gmap numbers list.
From S2P Require Import Prelude Tx Utxo Header Hashing GhostdagStore Difficulty Mass ScriptEngine TxValidator U3072 MuHash Coinbase Body MergesetOrder Pruning.

#[local] Open Scope Z_scope.

(** ** Data *)

(** [PopulatedTransaction::new] *)
Definition populated_new {E} (tx : Transaction) (entries : list UtxoEntry) : outcome E VerifiableTransaction :=
  let! _ := rassert (length (tx_inputs tx) =? length entries)%nat in Ok (mk_vtx tx entries).

Record ValidatedTransaction := mk_validated {
  vt_populated : VerifiableTransaction;
  vt_calculated_fee : Z
}.
Definition vt_id (vt : ValidatedTransaction) : N := tx_id (v_tx (vt_populated vt)).

Definition new_coinbase {E} (tx : Transaction) : outcome E ValidatedTransaction :=
  let! _ := rassert (is_coinbase tx) in Ok (mk_validated (mk_vtx tx []) 0).

(** [MutableTransaction]: entries may be missing; the mass of the shared transaction can be set. *)
Record MutableTransaction := mk_mutable {
  mt_tx : Transaction;
  mt_entries : list (option UtxoEntry);
  mt_calculated_fee : option Z;
  mt_calculated_non_contextual_masses : option NonContextualMasses
}.
Definition mutable_new (tx : Transaction) : MutableTransaction := mk_mutable tx (replicate (length (tx_inputs tx)) None) None None.
Definition is_verifiable {E} (m : MutableTransaction) : outcome E bool :=
  let! _ := rassert (length (mt_entries m) =? length (tx_inputs (mt_tx m)))%nat in
  Ok (forallb (fun e => bool_decide (is_Some e)) (mt_entries m)).
Definition as_verifiable {E} (m : MutableTransaction) : outcome E VerifiableTransaction :=
  let! b := is_verifiable m in
  let! _ := rassert b in
  Ok (mk_vtx (mt_tx m) (omap id (mt_entries m))).
Definition set_mass (tx : Transaction) (mass : Z) : Transaction :=
  mk_tx (tx_version tx) (tx_inputs tx) (tx_outputs tx) (tx_lock_time tx) (tx_subnetwork_id tx) (tx_gas tx) (tx_payload tx) mass (tx_id tx).

Record AcceptedTxEntry := mk_accepted {
  ac_transaction_id : N;
  ac_index_within_block : Z
}.
Record MergesetBlockAcceptanceData := mk_acceptance {
  ma_block_hash : N;
  ma_accepted_transactions : list AcceptedTxEntry
}.

Record UtxoProcessingContext := mk_utxo_context {
  uc_ghostdag_data : GhostdagData;
  uc_multiset_hash : MuHash;
  uc_mergeset_diff : UtxoDiff;
  uc_accepted_tx_ids : list N;
  uc_mergeset_acceptance_data : list MergesetBlockAcceptanceData;
  uc_mergeset_rewards : gmap N BlockRewardData;
  uc_pruning_sample_from_pov : option N
}.
Definition utxo_context_new (ghostdag_data : GhostdagData) (selected_parent_multiset_hash : MuHash) : UtxoProcessingContext :=
  mk_utxo_context ghostdag_data selected_parent_multiset_hash diff_default [] [] ∅ None.
Definition uc_selected_parent (ctx : UtxoProcessingContext) : N := gd_selected_parent (uc_ghostdag_data ctx).

(** What the validation of one transaction observes of the other threads. *)
Record ValidationEnv := mk_env {
  ve_schedule : list nat;
  ve_cache : Cache;
  ve_evictions : list nat
}.

(** How [reduce] splits its items: a leaf folds its items from the identity. *)
Inductive bracketing := BLeaf | BSplit (at_ : nat) (l r : bracketing).

Fixpoint reduce {E A} (b : bracketing) (identity : A) (op : A -> A -> outcome E A) (items : list A) : outcome E A :=
  match b with
  | BLeaf => foldM_out op identity items
  | BSplit n l r =>
      let! x := reduce l identity op (take n items) in
      let! y := reduce r identity op (drop n items) in
      op x y
  end.

(** [Result::ok] *)
Definition ok_of {E F A} (m : outcome E A) : outcome F (option A) :=
  match m with
  | Ok a => Ok (Some a)
  | Err _ => Ok None
  | Panic => Panic
  | OutOfFuel => OutOfFuel
  end.

(** The stores and managers of the processor that are read here. *)
Record VirtualStateProcessor (R St : Type) := mk_virtual_processor {
  vp_transaction_validator : TransactionValidator;
  vp_coinbase_manager : CoinbaseManager;
  vp_block_transactions_store : N -> sresult (list Transaction);
  vp_ghostdag_store : St;
  vp_headers_store : N -> sresult Header;
  vp_daa_excluded_store : N -> sresult (gset N);
  vp_pruning_point_manager : PruningPointManager R St;
  (** The hops through pruning samples that the model follows. *)
  vp_fuel : nat
}.
Arguments vp_transaction_validator {R St}.
Arguments vp_coinbase_manager {R St}.
Arguments vp_block_transactions_store {R St}.
Arguments vp_ghostdag_store {R St}.
Arguments vp_headers_store {R St}.
Arguments vp_daa_excluded_store {R St}.
Arguments vp_pruning_point_manager {R St}.
Arguments vp_fuel {R St}.

Section Processor.
Context {R St : Type} `{GhostdagStoreReader St} `{MergeJoin} `{Crypto} `{ElementStream} `{ModInverse} (self : VirtualStateProcessor R St).

(** ** One transaction *)

Fixpoint view_entries (view : UtxoView) (inputs : list TransactionInput) : tres (list UtxoEntry) :=
  match inputs with
  | [] => Ok []
  | input :: inputs' =>
      match view (in_previous_outpoint input) with
      | Some entry => let! entries := view_entries view inputs' in Ok (entry :: entries)
      | None => Err MissingTxOutpoints
      end
  end.

Definition validate_transaction_in_utxo_context (env : ValidationEnv) (transaction : Transaction) (utxo_view : UtxoView) (pov_daa_score : Z) (flags : TxValidationFlags) :
    tres ValidatedTransaction :=
  let! entries := view_entries utxo_view (tx_inputs transaction) in
  let! populated_tx := populated_new transaction entries in
  let! calculated_fee := validate_populated_transaction_and_get_fee (vp_transaction_validator self) (ve_schedule env) (ve_cache env) (ve_evictions env)
                           populated_tx pov_daa_score flags None in
  Ok (mk_validated populated_tx calculated_fee).

(** ** Mempool transactions *)

(** Entries found earlier are kept; the result says whether some are still missing. *)
Fixpoint populate_entries {E} (utxo_view : UtxoView) (inputs : list TransactionInput) (entries : list (option UtxoEntry)) : outcome E (list (option UtxoEntry) * bool) :=
  match inputs, entries with
  | [], _ => Ok (entries, false)
  | _ :: _, [] => Panic
  | input :: inputs', entry :: entries' =>
      let found := match entry with Some e => Some e | None => utxo_view (in_previous_outpoint input) end in
      let! ' (rest, missing) := populate_entries utxo_view inputs' entries' in
      Ok (found :: rest, missing || negb (bool_decide (is_Some found)))
  end.

(** The transaction after the call, and the error returned, if any. *)
Definition populate_mempool_transaction_in_utxo_context (mutable_tx : MutableTransaction) (utxo_view : UtxoView) : panics (MutableTransaction * option TxRuleError) :=
  let! ' (entries, missing) := populate_entries utxo_view (tx_inputs (mt_tx mutable_tx)) (mt_entries mutable_tx) in
  let mutable_tx := mk_mutable (mt_tx mutable_tx) entries (mt_calculated_fee mutable_tx) (mt_calculated_non_contextual_masses mutable_tx) in
  Ok (mutable_tx, if missing : bool then Some MissingTxOutpoints else None).

Definition validate_mempool_transaction_in_utxo_context (env : ValidationEnv) (mutable_tx : MutableTransaction) (utxo_view : UtxoView) (pov_daa_score : Z)
    (feerate_threshold : option spec_float) : panics (MutableTransaction * option TxRuleError) :=
  let! ' (mutable_tx, missing) := populate_mempool_transaction_in_utxo_context mutable_tx utxo_view in
  match missing with
  | Some e => Ok (mutable_tx, Some e)
  | None =>
      let! verifiable := as_verifiable mutable_tx in
      let! masses := calc_contextual_masses (mass_calculator (vp_transaction_validator self)) verifiable in
      match masses with
      | None => Ok (mutable_tx, Some MassIncomputable)
      | Some contextual_mass =>
          let tx := set_mass (mt_tx mutable_tx) (storage_mass contextual_mass) in
          let mutable_tx := mk_mutable tx (mt_entries mutable_tx) (mt_calculated_fee mutable_tx) (mt_calculated_non_contextual_masses mutable_tx) in
          let! mass_and_feerate_threshold :=
            match feerate_threshold with
            | None => Ok None
            | Some threshold => let! m := unwrap (mt_calculated_non_contextual_masses mutable_tx) in Ok (Some (contextual_max contextual_mass m, threshold))
            end in
          let! verifiable := as_verifiable mutable_tx in
          match validate_populated_transaction_and_get_fee (vp_transaction_validator self) (ve_schedule env) (ve_cache env) (ve_evictions env) verifiable
                  pov_daa_score FlagSkipMassCheck mass_and_feerate_threshold with
          | Ok fee => Ok (mk_mutable tx (mt_entries mutable_tx) (Some fee) (mt_calculated_non_contextual_masses mutable_tx), None)
          | Err e => Ok (mutable_tx, Some e)
          | Panic => Panic
          | OutOfFuel => OutOfFuel
          end
      end
  end.

(** ** The transactions of a block *)

(** The transactions that pass, with their index, from index [i] on. *)
Fixpoint filter_valid (envs : nat -> ValidationEnv) (i : nat) (txs : list Transaction) (utxo_view : UtxoView) (pov_daa_score : Z) (flags : TxValidationFlags) :
    panics (list (ValidatedTransaction * Z)) :=
  match txs with
  | [] => Ok []
  | tx :: txs' =>
      let! r := ok_of (validate_transaction_in_utxo_context (envs i) tx utxo_view pov_daa_score flags) in
      let! rest := filter_valid envs (S i) txs' utxo_view pov_daa_score flags in
      Ok (match r with Some vtx => (vtx, Z.of_nat i mod U32) :: rest | None => rest end)
  end.

Definition validate_transactions_in_parallel (envs : nat -> ValidationEnv) (txs : list Transaction) (utxo_view : UtxoView) (pov_daa_score : Z) (flags : TxValidationFlags) :
    panics (list (ValidatedTransaction * Z)) :=
  filter_valid envs 1 (drop 1 txs) utxo_view pov_daa_score flags.

Definition combine_validated (a b : list (ValidatedTransaction * Z) * MuHash) : panics (list (ValidatedTransaction * Z) * MuHash) :=
  let! mh := unwrap_res (combine a.2 b.2) in Ok (a.1 ++ b.1, mh).

Definition validate_transactions_with_muhash_in_parallel (envs : nat -> ValidationEnv) (b : bracketing) (txs : list Transaction) (utxo_view : UtxoView) (pov_daa_score : Z)
    (flags : TxValidationFlags) : panics (list (ValidatedTransaction * Z) * MuHash) :=
  let! valid := filter_valid envs 1 (drop 1 txs) utxo_view pov_daa_score flags in
  let! items := mapM_out (fun p => let! mh := unwrap_res (from_transaction hash_fn (vt_populated p.1) pov_daa_score) in Ok ([p], mh)) valid in
  reduce b ([], muhash_new) combine_validated items.

(** ** The mergeset *)

(** The accepted transactions of a block: the diff, the ids and the fees. *)
Definition accept_step (pov_daa_score : Z) (acc : UtxoDiff * list N * Z) (p : ValidatedTransaction * Z) : panics (UtxoDiff * list N * Z) :=
  let '(diff, ids, fee) := acc in
  let! diff := unwrap_res (add_transaction diff (vt_populated p.1) pov_daa_score) in
  let! fee := add64 fee (vt_calculated_fee p.1) in
  Ok (diff, ids ++ [vt_id p.1], fee).

Definition merge_block (view : UtxoView) (pov_daa_score : Z) (coinbase_id : N) (envs : nat -> nat -> ValidationEnv) (bs : nat -> bracketing)
    (ctx : UtxoProcessingContext) (i : nat) (merged_block : N) (txs : list Transaction) : panics UtxoProcessingContext :=
  let composed_view := composed view (uc_mergeset_diff ctx) in
  let is_selected_parent := (i =? 0)%nat in
  let validation_flags := if is_selected_parent then FlagSkipScriptChecks else FlagFull in
  let! ' (validated, inner_multiset) := validate_transactions_with_muhash_in_parallel (envs i) (bs i) txs composed_view pov_daa_score validation_flags in
  let! mh := unwrap_res (combine (uc_multiset_hash ctx) inner_multiset) in
  let! ' (diff, ids, block_fee) := foldM_out (accept_step pov_daa_score) (uc_mergeset_diff ctx, uc_accepted_tx_ids ctx, 0) validated in
  let accepted := (if is_selected_parent then [mk_accepted coinbase_id 0] else []) ++ List.map (fun p => mk_accepted (vt_id p.1) p.2) validated in
  let! coinbase := unwrap (txs !! 0%nat) in
  let! coinbase_data := unwrap_res (deserialize_coinbase_payload (vp_coinbase_manager self) (tx_payload coinbase)) in
  Ok (mk_utxo_context (uc_ghostdag_data ctx) mh diff ids (uc_mergeset_acceptance_data ctx ++ [mk_acceptance merged_block accepted])
       (<[merged_block := mk_reward (cd_subsidy coinbase_data) block_fee (md_script_public_key (cd_miner_data coinbase_data))]> (uc_mergeset_rewards ctx))
       (uc_pruning_sample_from_pov ctx)).

Fixpoint merge_blocks (view : UtxoView) (pov_daa_score : Z) (coinbase_id : N) (envs : nat -> nat -> ValidationEnv) (bs : nat -> bracketing)
    (ctx : UtxoProcessingContext) (i : nat) (blocks : list N) : panics UtxoProcessingContext :=
  match blocks with
  | [] => Ok ctx
  | b :: blocks' =>
      let! txs := unwrap_res (vp_block_transactions_store self b) in
      let! ctx := merge_block view pov_daa_score coinbase_id envs bs ctx i b txs in
      merge_blocks view pov_daa_score coinbase_id envs bs ctx (S i) blocks'
  end.

Definition calculate_utxo_state (envs : nat -> nat -> ValidationEnv) (bs : nat -> bracketing) (ctx : UtxoProcessingContext) (selected_parent_utxo_view : UtxoView)
    (pov_daa_score : Z) : panics UtxoProcessingContext :=
  let! txs := unwrap_res (vp_block_transactions_store self (uc_selected_parent ctx)) in
  let! coinbase := unwrap (txs !! 0%nat) in
  let! validated_coinbase := new_coinbase coinbase in
  let! diff := unwrap_res (add_transaction (uc_mergeset_diff ctx) (vt_populated validated_coinbase) pov_daa_score) in
  let! mh := unwrap_res (muhash_add_transaction hash_fn (uc_multiset_hash ctx) (vt_populated validated_coinbase) pov_daa_score) in
  let coinbase_id := vt_id validated_coinbase in
  let ctx := mk_utxo_context (uc_ghostdag_data ctx) mh diff (uc_accepted_tx_ids ctx ++ [coinbase_id]) (uc_mergeset_acceptance_data ctx)
               (uc_mergeset_rewards ctx) (uc_pruning_sample_from_pov ctx) in
  let! ctx := merge_block selected_parent_utxo_view pov_daa_score coinbase_id envs bs ctx 0 (uc_selected_parent ctx) txs in
  let! ordered := consensus_ordered_mergeset_without_selected_parent (vp_ghostdag_store self) (uc_ghostdag_data ctx) in
  merge_blocks selected_parent_utxo_view pov_daa_score coinbase_id envs bs ctx 1 ordered.

(** ** Verification *)

Definition verify_header_pruning_point (header : Header) (ghostdag_data : CompactGhostdagData) : bpres PruningPointReply :=
  let! reply := unwrap_res (expected_header_pruning_point (vp_fuel self) (vp_pruning_point_manager self) ghostdag_data) in
  if negb (pr_pruning_point reply =? h_pruning_point header)%N then Err (WrongHeaderPruningPoint (pr_pruning_point reply) (h_pruning_point header)) else Ok reply.

Definition verify_coinbase_transaction (coinbase : Transaction) (daa_score : Z) (ghostdag_data : GhostdagData) (mergeset_rewards : gmap N BlockRewardData)
    (mergeset_non_daa : gset N) : bpres unit :=
  let! data := unwrap_res (deserialize_coinbase_payload (vp_coinbase_manager self) (tx_payload coinbase)) in
  let! expected := unwrap_res (expected_coinbase_transaction hash_fn (vp_coinbase_manager self) daa_score (cd_miner_data data) ghostdag_data mergeset_rewards mergeset_non_daa) in
  if negb (tx_hash hash_fn coinbase =? tx_hash hash_fn (ct_tx expected))%N then Err BadCoinbaseTransaction else Ok tt.

Definition calc_accepted_id_merkle_root {E} (accepted_tx_ids : list N) (selected_parent : N) : outcome E N :=
  let! header := unwrap_res (vp_headers_store self selected_parent) in
  let! root := calc_merkle_root hash_fn accepted_tx_ids in
  Ok (merkle_hash hash_fn (h_accepted_id_merkle_root header) root).

(** Finalizing normalizes the multiset hash of the context. *)
Definition verify_expected_utxo_state (envs : nat -> ValidationEnv) (ctx : UtxoProcessingContext) (selected_parent_utxo_view : UtxoView) (header : Header) :
    bpres UtxoProcessingContext :=
  let! ' (expected_commitment, mh) := unwrap_res (muhash_finalize hash_fn (uc_multiset_hash ctx)) in
  if negb (expected_commitment =? h_utxo_commitment header)%N then Err (BadUTXOCommitment (h_hash header) (h_utxo_commitment header) expected_commitment)
  else
    let! expected_root := calc_accepted_id_merkle_root (uc_accepted_tx_ids ctx) (uc_selected_parent ctx) in
    if negb (expected_root =? h_accepted_id_merkle_root header)%N then
      Err (BadAcceptedIDMerkleRoot (h_hash header) (h_accepted_id_merkle_root header) expected_root)
    else
      let! txs := unwrap_res (vp_block_transactions_store self (h_hash header)) in
      let! coinbase := unwrap (txs !! 0%nat) in
      let! mergeset_non_daa := unwrap_res (vp_daa_excluded_store self (h_hash header)) in
      let! _ := verify_coinbase_transaction coinbase (h_daa_score header) (uc_ghostdag_data ctx) (uc_mergeset_rewards ctx) mergeset_non_daa in
      let! reply := verify_header_pruning_point header (to_compact (uc_ghostdag_data ctx)) in
      let current_utxo_view := composed selected_parent_utxo_view (uc_mergeset_diff ctx) in
      let! validated := unwrap_res (validate_transactions_in_parallel envs txs current_utxo_view (h_daa_score header) FlagFull) in
      if (length validated <? length txs - 1)%nat then
        Err (InvalidTransactionsInUtxoContext (length txs - 1 - length validated) (length txs - 1))
      else Ok (mk_utxo_context (uc_ghostdag_data ctx) mh (uc_mergeset_diff ctx) (uc_accepted_tx_ids ctx) (uc_mergeset_acceptance_data ctx) (uc_mergeset_rewards ctx)
                 (Some (pr_pruning_sample reply))).
End Processor.
