(* ===== verification/UtxoStateValid.v ===== *)
(** * Validation against a UTXO set is decided

    With entries, transactions and parameters in range, the validation of a populated
    transaction neither panics nor depends on the other threads: it accepts with the fee
    that the abstract conditions determine, or rejects. *)

From Stdlib Require Import ZArith Lia Bool SpecFloat Permutation.
From stdpp Require Import base gmap numbers list.
From S2P Require Import Prelude Uint UintLemmas Interval Tx Utxo UtxoProps Header Hashing HashingProps ScriptData ScriptOps ScriptEngine ScriptNumbers ScriptSafety ScriptCount ScriptVerify ScriptCache ScriptProps Mass MassProps TxValidator TxValidatorLemmas TxValidatorProps U3072 U3072Lemmas UtxoTotals MuHash MuHashProps UtxoState.

#[local] Open Scope Z_scope.

(** ** Ranges *)

Record validator_ok (v : TransactionValidator) : Prop := mk_validator_ok {
  vo_maturity : 0 <= coinbase_maturity v < 2 ^ 62;
  vo_counts : Z.of_nat (max_tx_inputs v) < 2 ^ 32 /\ Z.of_nat (max_tx_outputs v) < 2 ^ 32;
  vo_param : 1 <= storage_mass_parameter (mass_calculator v);
  vo_scripts : forall spk, (length (spk_script spk) <= max_script_public_key_len v)%nat ->
    storage_mass_parameter (mass_calculator v) * utxo_plurality spk * utxo_plurality spk < U64
}.

(** An entry: its script within the limit, an amount of at least one sompi per storage
    unit, a score far below 2^63, and a field element with an inverse. *)
Record entry_ok `{Crypto} `{ElementStream} (v : TransactionValidator) (o : TransactionOutpoint) (e : UtxoEntry) : Prop := mk_entry_ok {
  eo_bytes : wf_bytes (spk_script (ue_script_public_key e));
  eo_script : (length (spk_script (ue_script_public_key e)) <= max_script_public_key_len v)%nat;
  eo_amount : utxo_plurality (ue_script_public_key e) <= ue_amount e;
  eo_score : 0 <= ue_block_daa_score e < 2 ^ 62;
  eo_unit : unit_mod (elem_utxo hash_fn o e)
}.

(** A transaction that passed validation in isolation, with bytes and numbers in range. *)
Record tx_ok (v : TransactionValidator) (tx : Transaction) : Prop := mk_tx_ok {
  to_isolated : valid_isolated v tx;
  to_inputs : Forall (fun i => wf_bytes (in_signature_script i) /\ 0 <= in_sig_op_count i < U8 /\ 0 <= in_sequence i) (tx_inputs tx);
  to_outputs : Forall (fun o => wf_bytes (spk_script (out_script_public_key o))) (tx_outputs tx)
}.

Record env_ok `{Crypto} (env : ValidationEnv) (tx : Transaction) : Prop := mk_env_ok {
  en_schedule : Permutation (ve_schedule env) (seq 0 (length (tx_inputs tx)));
  en_cache : cache_sound (ve_cache env)
}.

(** ** Mass *)

Section Decided.
Context `{CS : CryptoSpec} `{ElementStream} (v : TransactionValidator) (Hv : validator_ok v).

Lemma plurality_small spk : (length (spk_script spk) <= max_script_public_key_len v)%nat -> 1 <= utxo_plurality spk < 2 ^ 32.
Proof using Hv. intros Hl. pose proof (utxo_plurality_pos spk). pose proof (vo_scripts _ Hv spk Hl). pose proof (vo_param _ Hv). nia. Qed.

Lemma pluralities_fit {A} (cell : A -> UtxoCell) (l : list A) n : Forall (fun x => 1 <= cell_plurality (cell x) < 2 ^ 32) l -> (length l <= n)%nat -> Z.of_nat n < 2 ^ 32 ->
  total_plurality (List.map cell l) < U64.
Proof using.
  intros Hl Hlen Hn. unfold total_plurality. rewrite List.map_map. pose proof (zsum_bound (fun x => cell_plurality (cell x)) l (2 ^ 32 - 1) n) as Hb. cbv beta in Hb.
  destruct Hb; [eapply Forall_impl; [exact Hl|]; cbv beta; lia|done|lia|]. nia.
Qed.

Lemma mass_runs tx entries : tx_ok v tx -> is_coinbase tx = false -> Forall2 (fun i e => entry_ok v (in_previous_outpoint i) e) (tx_inputs tx) entries ->
  zsum (List.map ue_amount entries) <= MAX_SOMPI -> exists m, @calc_contextual_masses TxRuleError (mass_calculator v) (mk_vtx tx entries) = Ok m.
Proof using Hv.
  intros [Hiso _ _] Hcb Hent Hsum. destruct Hiso as [(_ & Hne & Hni) Hno [_ Hso] _ [Hpos _] _ _]. rewrite Hcb in Hno. destruct (vo_counts _ Hv) as [Hci Hco].
  assert (He : Forall (fun e => exists o, entry_ok v o e) entries) by (clear -Hent; induction Hent; constructor; eauto).
  assert (Hlen : length entries = length (tx_inputs tx)) by (symmetry; by eapply Forall2_length).
  assert (Hz : List.map (fun ie => cell_of_entry ie.2) (populated_inputs (mk_vtx tx entries)) = List.map cell_of_entry entries).
  { unfold populated_inputs. cbn [v_tx v_entries]. clear -Hlen. revert entries Hlen. induction (tx_inputs tx) as [|i ins IH]; intros [|e es] Hl; try done. cbn in *. f_equal. apply IH. lia. }
  unfold calc_contextual_masses. rewrite Hz. cbn [v_tx]. rewrite Hcb. rewrite storage_mass_runs; [by eexists|pose proof (vo_param _ Hv); lia|..].
  - apply Forall_map. eapply Forall_impl; [exact He|]. intros e (o & [_ Hs Ha _ _]). pose proof (plurality_small _ Hs). split; cbn; lia.
  - apply Forall_map, Forall_forall. intros o Ho. rewrite Forall_forall in Hso, Hpos. pose proof (plurality_small _ (Hso o Ho)). specialize (Hpos o Ho). split; cbn in *; lia.
  - apply (pluralities_fit _ _ (max_tx_inputs v)); [|lia|done]. eapply Forall_impl; [exact He|]. intros e (o & Heo). apply plurality_small, (eo_script _ _ _ Heo).
  - apply (pluralities_fit _ _ (max_tx_outputs v)); [|lia|done]. eapply Forall_impl; [exact Hso|]. intros o Ho. by apply plurality_small.
  - destruct (relaxed _ _).
    + apply Forall_map. eapply Forall_impl; [exact He|]. intros e (o & Heo). unfold fits. cbn. apply Z.ltb_lt, (vo_scripts _ Hv), (eo_script _ _ _ Heo).
    + split; [destruct entries; [|done]; cbn in Hlen; by destruct (tx_inputs tx); [destruct (Hne Hcb)|]|].
      unfold total_amount, total_plurality. rewrite !List.map_map. cbn [cell_of_entry cell_amount cell_plurality].
      split; [|unfold MAX_SOMPI, SOMPI_PER_KASPA in Hsum; change (List.map (fun x => ue_amount x) entries) with (List.map ue_amount entries); lia].
      clear -He. induction He as [|e es (o & Heo) Hes IH]; cbn; [lia|]. pose proof (eo_amount _ _ _ Heo). lia.
Qed.

(** ** Scripts *)

Lemma check_input_safe tx sh i : tx_bytes tx -> length (v_entries tx) = length (tx_inputs (v_tx tx)) -> (i < length (tx_inputs (v_tx tx)))%nat ->
  safe (fun _ => True) (check_input tx sh i).
Proof using CS.
  intros Hb Hlen Hi. destruct (lookup_lt_is_Some_2 _ _ Hi) as [input Hin]. rewrite <-Hlen in Hi. destruct (lookup_lt_is_Some_2 _ _ Hi) as [e He].
  assert (Hs : spends tx i input e) by done. unfold check_input, populated_input. rewrite Hin, He. cbn [unwrap obind].
  rewrite (from_input_spec tx i input e _ _ _ Hs). cbn [obind].
  assert (Hn : 0 <= in_sig_op_count input) by (destruct Hb as [Hi' _ _]; rewrite Forall_lookup in Hi'; destruct (Hi' i input Hin); lia).
  pose proof (execute_safe _ _ (spend_source_wf _ _ _ _ Hb Hs) (fresh_engine_wf _ (sh_cache sh) (sh_reused sh) (sh_evictions sh) Hn)) as Hsafe.
  by destruct (execute _ _).
Qed.

Lemma check_scripts_safe tx schedule cache ev : tx_bytes tx -> length (v_entries tx) = length (tx_inputs (v_tx tx)) ->
  Permutation schedule (seq 0 (length (tx_inputs (v_tx tx)))) -> safe (fun _ => True) (check_scripts schedule cache ev tx).
Proof using CS.
  intros Hb Hlen Hperm. assert (Hgen : forall l, Permutation l (seq 0 (length (tx_inputs (v_tx tx)))) -> forall sh, safe (fun _ => True) (foldM_out (check_input tx) sh l)).
  { intros l Hl. assert (Hall : Forall (fun i => (i < length (tx_inputs (v_tx tx)))%nat) l) by (apply Forall_forall; intros i Hi; rewrite Hl, elem_of_seq in Hi; lia).
    clear Hl. induction Hall as [|i l Hi Hall IH]; intros sh; cbn [foldM_out]; [done|]. eapply safe_bind; [by apply check_input_safe|]. intros sh' _. apply IH. }
  unfold check_scripts, check_scripts_par_iter, check_scripts_sequential. destruct (_ <? _)%nat; (eapply safe_bind; [apply Hgen|done]); [done|].
  unfold populated_inputs. by rewrite length_zip_with, Hlen, Nat.min_id.
Qed.

(** ** The decision *)

(** The conditions of acceptance; with [FlagSkipScriptChecks] scripts do not count. *)
Record accepted_spend (flags : TxValidationFlags) (tx : VerifiableTransaction) (pov fee : Z) : Prop := mk_accepted_spend {
  as_mature : Forall (mature (coinbase_maturity v) pov) (populated_inputs tx);
  as_amount : zsum (List.map (fun p => ue_amount p.2) (populated_inputs tx)) <= MAX_SOMPI;
  as_fee : 0 <= fee /\ zsum (List.map (fun p => ue_amount p.2) (populated_inputs tx)) = zsum (List.map out_value (tx_outputs (v_tx tx))) + fee;
  as_mass : @calc_contextual_masses TxRuleError (mass_calculator v) tx = Ok (Some (mk_contextual (tx_mass (v_tx tx))));
  as_unlocked : Forall (unlocked pov) (populated_inputs tx);
  as_scripts : flags = FlagFull -> forall i, (i < length (tx_inputs (v_tx tx)))%nat -> input_runs tx i
}.

Definition decided {A} (m : tres A) (P : A -> Prop) : Prop := (exists a, m = Ok a /\ P a) \/ (exists e, m = Err e /\ forall a, ~ P a).

Lemma decided_bind {A B} (m : tres A) (f : A -> tres B) (P : A -> Prop) (Q : B -> Prop) :
  decided m P -> (forall b, Q b -> exists a, P a) -> (forall a, m = Ok a -> P a -> decided (f a) Q) -> decided (obind m f) Q.
Proof using. intros [(a & -> & Ha)|(e & -> & Hn)] Hq Hf; cbn [obind]; [by apply Hf|]. right. exists e. split; [done|]. intros b (a & Ha)%Hq. by eapply Hn. Qed.

Lemma decided_safe (m : tres unit) P : safe (fun _ => True) m -> (m = Ok tt <-> P) -> decided m (fun _ => P).
Proof using. intros Hs Hi. destruct m as [[]|e| |]; try done; [left; exists tt; split; [done|by apply Hi]|]. right. exists e. split; [done|]. intros _ Hp%Hi. done. Qed.

Lemma input_amounts_safe total ins : safe (fun _ => True) (input_amounts total ins).
Proof using.
  revert total. induction ins as [|[i e] ins IH]; intros total; cbn [input_amounts]; [done|]. destruct (checked_add _ _); [|done]. destruct (_ <? _); [done|apply IH].
Qed.

Lemma input_amounts_decided ins : Forall (fun p : TransactionInput * UtxoEntry => 0 <= ue_amount p.2) ins ->
  decided (input_amounts 0 ins) (fun t => t = zsum (List.map (fun p => ue_amount p.2) ins) /\ t <= MAX_SOMPI).
Proof using.
  intros Hin. pose proof (fun r => input_amounts_spec 0 ins r ltac:(done) Hin) as Hspec. pose proof (input_amounts_safe 0 ins) as Hs.
  destruct (input_amounts 0 ins) as [t|e| |]; try done; [left|right]; [exists t|exists e]; (split; [done|]).
  - rewrite <-(Z.add_0_l (zsum _)). by apply Hspec.
  - intros t Ht. rewrite <-(Z.add_0_l (zsum _)) in Ht. by apply Hspec in Ht.
Qed.

Lemma populated_facts tx entries : tx_ok v tx -> Forall2 (fun i e => entry_ok v (in_previous_outpoint i) e) (tx_inputs tx) entries ->
  Forall (fun p => 0 <= in_sequence p.1 /\ 0 <= ue_amount p.2 /\ 0 <= ue_block_daa_score p.2 < 2 ^ 62) (populated_inputs (mk_vtx tx entries)).
Proof using.
  intros [_ Hi _] He. unfold populated_inputs. cbn [v_tx v_entries]. induction He as [|i e ins es Hie He IH]; [constructor|]. apply Forall_cons in Hi as [Hi0 Hi].
  cbn [zip_with]. constructor; [|by apply IH]. cbn [fst snd]. pose proof (utxo_plurality_pos (ue_script_public_key e)). pose proof (eo_amount _ _ _ Hie). pose proof (eo_score _ _ _ Hie). lia.
Qed.

Lemma populated_amounts tx entries : length entries = length (tx_inputs tx) ->
  List.map (fun p => ue_amount p.2) (populated_inputs (mk_vtx tx entries)) = List.map ue_amount entries.
Proof using.
  unfold populated_inputs. cbn [v_tx v_entries]. revert entries. induction (tx_inputs tx) as [|i ins IH]; intros [|e es] Hl; try done. cbn in *. f_equal. apply IH. lia.
Qed.

Lemma ok_bytes tx entries : tx_ok v tx -> Forall2 (fun i e => entry_ok v (in_previous_outpoint i) e) (tx_inputs tx) entries -> tx_bytes (mk_vtx tx entries).
Proof using.
  intros [_ Hi Ho] He. split; cbn [v_tx v_entries]; [eapply Forall_impl; [exact Hi|]; cbv beta; tauto| |done].
  clear -He. induction He as [|i e ins es Hie He IH]; constructor; [apply (eo_bytes _ _ _ Hie)|done].
Qed.

(** The outcome does not depend on the environment. *)
Lemma validate_decided env tx entries pov flags : tx_ok v tx -> is_coinbase tx = false -> Forall2 (fun i e => entry_ok v (in_previous_outpoint i) e) (tx_inputs tx) entries ->
  0 <= pov < 2 ^ 62 -> env_ok env tx -> flags <> FlagSkipMassCheck ->
  decided (validate_populated_transaction_and_get_fee v (ve_schedule env) (ve_cache env) (ve_evictions env) (mk_vtx tx entries) pov flags None)
    (fun fee => accepted_spend flags (mk_vtx tx entries) pov fee).
Proof using CS Hv.
  intros Htx Hcb He Hpov [Hperm Hcache] Hfl. pose proof (populated_facts _ _ Htx He) as Hin. assert (Hlen : length entries = length (tx_inputs tx)) by (symmetry; by eapply Forall2_length).
  set (vt := mk_vtx tx entries) in *. unfold validate_populated_transaction_and_get_fee.
  assert (Hout : Forall (fun o => 0 <= out_value o) (tx_outputs tx) /\ zsum (List.map out_value (tx_outputs tx)) < U64).
  { destruct (vi_values _ _ (to_isolated _ _ Htx)) as [Hp Hs]. split; [eapply Forall_impl; [exact Hp|]; cbv beta; lia|]. unfold MAX_SOMPI, SOMPI_PER_KASPA in Hs. lia. }
  apply (decided_bind _ _ (fun _ => Forall (mature (coinbase_maturity v) pov) (populated_inputs vt))).
  { unfold check_transaction_coinbase_maturity. destruct (@immature_spec TxRuleError (coinbase_maturity v) pov 0 (populated_inputs vt)) as (r & -> & Hr).
    { eapply Forall_impl; [exact Hin|]. intros ? (_ & _ & ?). pose proof (vo_maturity _ Hv). cbv beta. lia. }
    cbn [obind]. apply decided_safe; destruct r as [[[? ?] ?]|]; try done; split; try done; intros Hm; [by apply Hr in Hm|by apply Hr]. }
  { intros fee [Hm _ _ _ _ _]. by exists tt. }
  intros _ _ Hmat. apply (decided_bind _ _ (fun t => t = zsum (List.map (fun p => ue_amount p.2) (populated_inputs vt)) /\ t <= MAX_SOMPI)).
  { apply input_amounts_decided. eapply Forall_impl; [exact Hin|]. intros ? (_ & ? & _). done. }
  { intros fee [_ Ha _ _ _ _]. eauto. }
  intros total_in _ [-> Hamt]. set (total_in := zsum (List.map (fun p => ue_amount p.2) (populated_inputs vt))) in *. unfold check_transaction_output_values. rewrite sum64_spec by (first [by apply Forall_map, Hout|apply Hout]). cbn [obind].
  change (v_tx vt) with tx. set (total_out := zsum (List.map out_value (tx_outputs tx))) in *.
  destruct (Z.ltb_spec total_in total_out) as [Hlt|Hge]; cbn [obind].
  { right. eexists. split; [reflexivity|]. intros fee [_ _ Hf _ _ _]. change (v_tx vt) with tx in Hf. fold total_in total_out in Hf. lia. }
  rewrite usub_le by done. cbn [obind]. apply (decided_bind _ _ (fun _ => @calc_contextual_masses TxRuleError (mass_calculator v) vt = Ok (Some (mk_contextual (tx_mass tx))))).
  { replace (match flags with FlagSkipMassCheck => Ok tt | _ => check_mass_commitment v vt end) with (check_mass_commitment v vt) by (by destruct flags).
    apply decided_safe; [|apply check_mass_iff]. unfold check_mass_commitment. destruct (mass_runs tx entries Htx Hcb He) as [m Hm].
    - rewrite <-(populated_amounts tx) by done. exact Hamt.
    - fold vt in Hm. rewrite Hm. cbn [obind]. destruct m as [m|]; [|done]. by destruct (negb _). }
  { intros fee [_ _ _ Hm _ _]. by exists tt. }
  intros _ _ Hmass. apply (decided_bind _ _ (fun _ => Forall (unlocked pov) (populated_inputs vt))).
  { unfold check_sequence_lock. assert (as_i64 pov = pov) as -> by (unfold as_i64; destruct (Z.ltb_spec pov I64); lia).
    destruct (@locked_spec TxRuleError pov (populated_inputs vt)) as (b & -> & Hb); [eapply Forall_impl; [exact Hin|]; cbv beta; tauto|]. cbn [obind].
    apply decided_safe; destruct b; try done; split; try done; intros Hu; [by apply Hb in Hu|by apply Hb]. }
  { intros fee [_ _ _ _ Hu _]. by exists tt. }
  intros _ _ Hun. cbn [check_feerate_threshold obind]. apply (decided_bind _ _ (fun _ => flags = FlagFull -> forall i, (i < length (tx_inputs (v_tx vt)))%nat -> input_runs vt i)).
  { apply decided_safe.
    - destruct flags; [|done|done]. by apply check_scripts_safe; [apply ok_bytes|..].
    - destruct flags; [|done|done]. rewrite (check_scripts_iff vt Hlen _ _ _ Hcache Hperm). tauto. }
  { intros fee [_ _ _ _ _ Hs]. by exists tt. }
  intros _ _ Hscr. left. eexists. split; [done|]. split; try done. change (v_tx vt) with tx. fold total_in total_out. lia.
Qed.
End Decided.
