(* ===== verification/UtxoStateMerge.v ===== *)
(** * Merging the blocks of a mergeset

    Which transactions of a merged block are accepted, stated without reference to the
    algorithm, and what accepting them does to the UTXO set, the diff, the multiset hash and
    the fees; then the lemma that [merge_block] implements it. *)

From Stdlib Require Import ZArith Lia Bool SpecFloat Permutation.
From stdpp Require Import base gmap numbers list.
From S2P Require Import Prelude Tx Utxo UtxoProps Uint UintLemmas GhostdagStore Difficulty Header Hashing ScriptEngine ScriptSafety Mass MassProps TxValidator TxValidatorLemmas TxValidatorProps U3072 U3072Lemmas UtxoTotals MuHash MuHashProps Coinbase Body MergesetOrder UtxoState UtxoStateValid.

#[local] Open Scope Z_scope.

(** ** Which transactions are accepted *)

Section Accept.
Context `{CS : CryptoSpec} `{ElementStream} (v : TransactionValidator).

(** [vt] is [tx] with the entries of [U] it spends and its fee, and is accepted. *)
Record valid_in (flags : TxValidationFlags) (U : UtxoCollection) (pov : Z) (tx : Transaction) (vt : ValidatedTransaction) : Prop := mk_valid_in {
  va_tx : v_tx (vt_populated vt) = tx;
  va_entries : Forall2 (fun i e => U !! in_previous_outpoint i = Some e) (tx_inputs tx) (v_entries (vt_populated vt));
  va_spend : accepted_spend v flags (vt_populated vt) pov (vt_calculated_fee vt)
}.

(** Exactly the valid transactions of a list, in order, with their indices from [i]. *)
Inductive selects (flags : TxValidationFlags) (U : UtxoCollection) (pov : Z) : nat -> list Transaction -> list (ValidatedTransaction * Z) -> Prop :=
| sel_nil i : selects flags U pov i [] []
| sel_accept i tx txs vt l : valid_in flags U pov tx vt -> selects flags U pov (S i) txs l -> selects flags U pov i (tx :: txs) ((vt, Z.of_nat i mod U32) :: l)
| sel_reject i tx txs l : (forall vt, ~ valid_in flags U pov tx vt) -> selects flags U pov (S i) txs l -> selects flags U pov i (tx :: txs) l.

Lemma selects_sublist flags U pov i txs l : selects flags U pov i txs l -> (fun p => v_tx (vt_populated p.1)) <$> l `sublist_of` txs.
Proof using. induction 1 as [|i tx txs vt l Hv Hs IH|i tx txs l Hn Hs IH]; [constructor| |by constructor]. rewrite fmap_cons. cbn [fst]. rewrite (va_tx _ _ _ _ _ Hv). by constructor. Qed.

Lemma selects_valid flags U pov i txs l : selects flags U pov i txs l -> Forall (fun p => v_tx (vt_populated p.1) ∈ txs /\ valid_in flags U pov (v_tx (vt_populated p.1)) p.1) l.
Proof using.
  induction 1 as [|i tx txs vt l Hv Hs IH|i tx txs l Hn Hs IH]; [constructor| |].
  - constructor; [cbn [fst]; rewrite (va_tx _ _ _ _ _ Hv); split; [left|done]|]. eapply Forall_impl; [exact IH|]. intros p [Hp ?]. split; [by right|done].
  - eapply Forall_impl; [exact IH|]. intros p [Hp ?]. split; [by right|done].
Qed.

(** ** The algorithm selects them *)

Lemma view_entries_spec view ins : (exists es, view_entries view ins = Ok es /\ Forall2 (fun i e => view (in_previous_outpoint i) = Some e) ins es) \/
  (view_entries view ins = Err MissingTxOutpoints /\ forall es, ~ Forall2 (fun i e => view (in_previous_outpoint i) = Some e) ins es).
Proof using.
  induction ins as [|i ins IH]; cbn [view_entries]; [left; exists []; split; [done|constructor]|]. destruct (view (in_previous_outpoint i)) as [e|] eqn:Hi.
  - destruct IH as [(es & -> & Hes)|[-> Hn]]; cbn [obind]; [left; exists (e :: es); split; [done|by constructor]|]. right. split; [done|].
    intros es Hf. inversion Hf; subst. by eapply Hn.
  - right. split; [done|]. intros es Hf. inversion Hf; subst. congruence.
Qed.

Lemma Forall2_fun (view : TransactionOutpoint -> option UtxoEntry) ins es es' :
  Forall2 (fun i e => view (in_previous_outpoint i) = Some e) ins es -> Forall2 (fun i e => view (in_previous_outpoint i) = Some e) ins es' -> es = es'.
Proof using. intros Hf. revert es'. induction Hf; intros es' Hf'; inversion Hf'; subst; [done|]. f_equal; [congruence|auto]. Qed.
End Accept.

Section Select.
Context {R St : Type} `{GhostdagStoreReader St} `{MergeJoin} `{CS : CryptoSpec} `{ElementStreamSpec} `{ModInverseSpec} (self : VirtualStateProcessor R St).
Let v := vp_transaction_validator self.
Hypothesis Hv : validator_ok v.

Lemma validate_transaction_decided env tx view U pov flags : (forall o, view o = U !! o) -> map_Forall (entry_ok v) U -> tx_ok v tx -> is_coinbase tx = false ->
  0 <= pov < 2 ^ 62 -> env_ok env tx -> flags <> FlagSkipMassCheck ->
  decided (validate_transaction_in_utxo_context self env tx view pov flags) (valid_in v flags U pov tx).
Proof using CS Hv.
  intros Hview HU Htx Hcb Hpov Henv Hfl. unfold validate_transaction_in_utxo_context. destruct (view_entries_spec view (tx_inputs tx)) as [(es & -> & Hes)|[-> Hn]]; cbn [obind].
  - assert (HesU : Forall2 (fun i e => U !! in_previous_outpoint i = Some e) (tx_inputs tx) es) by (eapply Forall2_impl; [exact Hes|]; intros i e; cbv beta; by rewrite Hview).
    assert (Hok : Forall2 (fun i e => entry_ok v (in_previous_outpoint i) e) (tx_inputs tx) es) by (eapply Forall2_impl; [exact HesU|]; intros i e Hie; by apply HU in Hie).
    assert (Hlen : length (tx_inputs tx) = length es) by (by eapply Forall2_length). unfold populated_new. rewrite <-Hlen, Nat.eqb_refl. cbn [rassert obind].
    destruct (validate_decided v Hv env tx es pov flags Htx Hcb Hok Hpov Henv Hfl) as [(fee & Hf & Ha)|(e & Hf & Hn)]; fold v; rewrite Hf; cbn [obind].
    + left. eexists. split; [done|]. by split.
    + right. exists e. split; [done|]. intros [[tx' es'] fee] [Htx' Hes' Ha]. cbn in *. subst tx'. rewrite (Forall2_fun (fun o => U !! o) _ _ _ Hes' HesU) in Ha. by eapply Hn.
  - right. eexists. split; [done|]. intros vt [_ Hes _]. eapply Hn, Forall2_impl; [exact Hes|]. intros i e. cbv beta. by rewrite Hview.
Qed.

(** Environments for the transactions [txs] from index [i] on. *)
Definition envs_ok (envs : nat -> ValidationEnv) (i : nat) (txs : list Transaction) : Prop := forall j tx, txs !! j = Some tx -> env_ok (envs (i + j)%nat) tx.

Lemma filter_valid_selects envs view U pov flags : (forall o, view o = U !! o) -> map_Forall (entry_ok v) U -> 0 <= pov < 2 ^ 62 -> flags <> FlagSkipMassCheck ->
  forall txs i, Forall (fun tx => tx_ok v tx /\ is_coinbase tx = false) txs -> envs_ok envs i txs ->
  exists l, filter_valid self envs i txs view pov flags = Ok l /\ selects v flags U pov i txs l.
Proof using CS Hv.
  intros Hview HU Hpov Hfl txs. induction txs as [|tx txs IH]; intros i Htxs Henv; cbn [filter_valid]; [exists []; split; [done|constructor]|].
  apply Forall_cons in Htxs as [[Htx Hcb] Htxs]. destruct (IH (S i) Htxs) as (l & Hl & Hs).
  { intros j t Ht. specialize (Henv (S j) t Ht). by replace (S i + j)%nat with (i + S j)%nat by lia. }
  assert (He : env_ok (envs i) tx) by (rewrite <-(Nat.add_0_r i); by apply Henv).
  destruct (validate_transaction_decided (envs i) tx view U pov flags Hview HU Htx Hcb Hpov He Hfl) as [(vt & -> & Hvt)|(e & -> & Hn)]; cbn [ok_of obind]; rewrite Hl; cbn [obind]; eexists; (split; [done|]).
  - by constructor.
  - by constructor.
Qed.
End Select.

(** ** The multiset hash of the accepted transactions *)

Section Reduce.
Context `{CS : CryptoSpec} `{ElementStreamSpec} `{ModInverseSpec}.

(** The numerator and the denominator that stand for a list of transactions. *)
Definition creates_all (vs : list VerifiableTransaction) (score : Z) : list (TransactionOutpoint * UtxoEntry) := concat ((fun v => tx_creates v score) <$> vs).
Definition spends_all (vs : list VerifiableTransaction) : list (TransactionOutpoint * UtxoEntry) := concat (tx_spends <$> vs).

Definition item_rep (it : list (ValidatedTransaction * Z) * MuHash) (ar : Z * Z) : Prop := mu_rep it.2 ar.1 ar.2.

Lemma fold_items its : forall ars a r acc mh, Forall2 item_rep its ars -> mu_rep mh a r ->
  exists mh', foldM_out combine_validated (acc, mh) its = Ok (acc ++ concat (List.map fst its), mh') /\ mu_rep mh' (a * zprod (fst <$> ars)) (r * zprod (snd <$> ars)).
Proof using.
  induction its as [|it its IH]; intros ars a r acc mh Hf Hm; inversion Hf as [|? ar ? ars' Hit Hf']; subst; cbn [foldM_out List.map concat].
  { exists mh. cbn [fmap list_fmap zprod foldr]. rewrite app_nil_r, !Z.mul_1_r. done. }
  unfold combine_validated at 1. cbn [fst snd]. destruct (combine_rep mh it.2 _ _ _ _ Hm Hit) as (m1 & -> & Hm1). cbn [unwrap_res obind].
  destruct (IH ars' _ _ (acc ++ it.1) m1 Hf' Hm1) as (mh' & -> & Hm'). exists mh'. rewrite <-app_assoc. split; [done|]. rewrite <-!Z.mul_assoc in Hm'. exact Hm'.
Qed.

Lemma reduce_items b : forall its ars, Forall2 item_rep its ars ->
  exists mh, reduce b ([], muhash_new) combine_validated its = Ok (concat (List.map fst its), mh) /\ mu_rep mh (zprod (fst <$> ars)) (zprod (snd <$> ars)).
Proof using.
  induction b as [|n l IHl r IHr]; intros its ars Hf; cbn [reduce].
  - destruct (fold_items its ars 1 1 [] muhash_new Hf muhash_new_rep) as (mh & -> & Hm). exists mh. split; [done|]. by rewrite !Z.mul_1_l in Hm.
  - destruct (IHl _ _ (Forall2_take _ _ _ n Hf)) as (m1 & -> & Hm1). cbn [obind]. destruct (IHr _ _ (Forall2_drop _ _ _ n Hf)) as (m2 & -> & Hm2). cbn [obind].
    unfold combine_validated. cbn [fst snd]. destruct (combine_rep m1 m2 _ _ _ _ Hm1 Hm2) as (mh & -> & Hm). cbn [unwrap_res obind]. exists mh.
    rewrite <-!zprod_app, <-!fmap_app, take_drop in Hm. rewrite <-concat_app, <-List.map_app, take_drop. done.
Qed.

Definition populated_of (l : list (ValidatedTransaction * Z)) : list VerifiableTransaction := (fun p => vt_populated p.1) <$> l.

Lemma prod_concat (ls : list (list (TransactionOutpoint * UtxoEntry))) : zprod (prod_list hash_fn <$> ls) = prod_list hash_fn (concat ls).
Proof using.
  induction ls as [|l ls IH]; [done|]. rewrite fmap_cons. cbn [zprod foldr concat]. fold (zprod (prod_list hash_fn <$> ls)). rewrite IH. unfold prod_list. symmetry.
  apply total_list_app; intros; ring.
Qed.

Lemma items_spec (l : list (ValidatedTransaction * Z)) score : Forall (fun p => (N.of_nat (length (tx_outputs (v_tx (vt_populated p.1)))) <= 4294967296)%N) l ->
  exists its ars, mapM_out (fun p => let! mh := unwrap_res (from_transaction hash_fn (vt_populated p.1) score) in Ok ([p], mh) : panics (list (ValidatedTransaction * Z) * MuHash)) l = Ok its /\
    Forall2 item_rep its ars /\ concat (List.map fst its) = l /\
    zprod (fst <$> ars) = prod_list hash_fn (creates_all (populated_of l) score) /\ zprod (snd <$> ars) = prod_list hash_fn (spends_all (populated_of l)).
Proof using All.
  unfold creates_all, spends_all. rewrite <-!prod_concat. induction 1 as [|p l Hp Hl IH]; cbn [mapM_out]; [exists [], []; split_and!; [done|constructor|done..]|].
  unfold from_transaction at 1. destruct (muhash_add_transaction_rep hash_fn muhash_new 1 1 (vt_populated p.1) score muhash_new_rep Hp) as (mh & -> & Hm). cbn [unwrap_res obind].
  destruct IH as (its & ars & -> & Hf & Hc & Ha & Hr). cbn [obind]. rewrite !Z.mul_1_l in Hm.
  exists (([p], mh) :: its), ((prod_list hash_fn (tx_creates (vt_populated p.1) score), prod_list hash_fn (tx_spends (vt_populated p.1))) :: ars).
  split; [done|]. split; [by constructor|]. split; [cbn; by rewrite Hc|]. unfold populated_of in *. split; [exact (f_equal (Z.mul _) Ha)|exact (f_equal (Z.mul _) Hr)].
Qed.
End Reduce.

Section Validate.
Context {R St : Type} `{GhostdagStoreReader St} `{MergeJoin} `{CS : CryptoSpec} `{ElementStreamSpec} `{ModInverseSpec} (self : VirtualStateProcessor R St).
Let v := vp_transaction_validator self.
Hypothesis Hv : validator_ok v.

Lemma outputs_index tx : tx_ok v tx -> is_coinbase tx = false -> (N.of_nat (length (tx_outputs tx)) <= 4294967296)%N.
Proof using Hv. intros [Hiso _ _] Hcb. pose proof (vi_outputs _ _ Hiso) as Ho. rewrite Hcb in Ho. destruct (vo_counts _ Hv). lia. Qed.

Lemma validate_with_muhash_spec envs b txs view U pov flags : (forall o, view o = U !! o) -> map_Forall (entry_ok v) U -> 0 <= pov < 2 ^ 62 -> flags <> FlagSkipMassCheck ->
  Forall (fun tx => tx_ok v tx /\ is_coinbase tx = false) (drop 1 txs) -> envs_ok envs 1 (drop 1 txs) ->
  exists l mh, validate_transactions_with_muhash_in_parallel self envs b txs view pov flags = Ok (l, mh) /\ selects v flags U pov 1 (drop 1 txs) l /\
    mu_rep mh (prod_list hash_fn (creates_all (populated_of l) pov)) (prod_list hash_fn (spends_all (populated_of l))).
Proof using All.
  intros Hview HU Hpov Hfl Htxs Henv. unfold validate_transactions_with_muhash_in_parallel.
  destruct (filter_valid_selects self Hv envs view U pov flags Hview HU Hpov Hfl (drop 1 txs) 1 Htxs Henv) as (l & -> & Hsel). cbn [obind].
  destruct (items_spec l pov) as (its & ars & -> & Hf & Hc & Ha & Hr).
  { eapply Forall_impl; [eapply selects_valid; exact Hsel|]. intros p [Hp _]. rewrite Forall_forall in Htxs. destruct (Htxs _ Hp). by apply outputs_index. }
  cbn [obind]. destruct (reduce_items b its ars Hf) as (mh & -> & Hm). exists l, mh. rewrite Hc. rewrite Ha, Hr in Hm. done.
Qed.
End Validate.

(** ** The diff, the ids and the fees *)

Definition fees_of (l : list (ValidatedTransaction * Z)) : Z := zsum (List.map (fun p => vt_calculated_fee p.1) l).

Lemma accept_fold (U0 : UtxoCollection) pov l : forall d ids fee, diff_valid (view_of U0) d -> applies_all (apply_diff U0 d) (populated_of l) pov ->
  Forall (fun w => Forall (fun p => U0 !! p.1 = None) (tx_creates w pov)) (populated_of l) ->
  0 <= fee -> Forall (fun p => 0 <= vt_calculated_fee p.1) l -> fee + fees_of l < U64 ->
  exists d', foldM_out (accept_step pov) (d, ids, fee) l = Ok (d', ids ++ List.map (fun p => vt_id p.1) l, fee + fees_of l) /\
    diff_valid (view_of U0) d' /\ apply_diff U0 d' = accept_all (apply_diff U0 d) (populated_of l) pov.
Proof.
  unfold fees_of. induction l as [|p l IH]; intros d ids fee Hd Happ Hfresh Hfee Hfees Hlt; cbn [foldM_out List.map zsum] in *.
  { exists d. rewrite app_nil_r, Z.add_0_r. done. }
  unfold populated_of in *. rewrite fmap_cons in Happ, Hfresh |- *. cbn [applies_all accept_all foldl] in *. destruct Happ as [Hp Happ]. apply Forall_cons in Hfresh as [Hf0 Hfresh].
  apply Forall_cons in Hfees as [Hp0 Hfees]. assert (0 <= zsum (List.map (fun p : ValidatedTransaction * Z => vt_calculated_fee p.1) l)) by (by apply zsum_nonneg, Forall_map).
  unfold accept_step at 1. destruct (add_transaction_apply U0 d (vt_populated p.1) pov Hd Hp Hf0) as (d1 & -> & Hd1 & Heq). cbn [unwrap_res obind].
  rewrite uadd_lt by lia. cbn [obind]. rewrite <-Heq in Happ. destruct (IH d1 (ids ++ [vt_id p.1]) (fee + vt_calculated_fee p.1) Hd1 Happ Hfresh ltac:(lia) Hfees ltac:(lia)) as (d' & -> & Hd' & Heq').
  exists d'. rewrite <-app_assoc, Z.add_assoc. split; [done|]. split; [done|]. by rewrite Heq', Heq.
Qed.

(** The amount held by a UTXO set. *)
Definition value (U : UtxoCollection) : Z := total Z.add 0 (fun _ e => ue_amount e) U.
Definition amounts (l : list (TransactionOutpoint * UtxoEntry)) : Z := total_list Z.add 0 (fun _ e => ue_amount e) l.

Lemma value_nonneg U : map_Forall (fun _ e => 0 <= ue_amount e) U -> 0 <= value U.
Proof.
  unfold value, total. intros HU. revert HU. apply (map_fold_weak_ind (fun acc U => map_Forall (fun _ e => 0 <= ue_amount e) U -> 0 <= acc)); [done|].
  intros o e U' acc Ho IH HU. rewrite map_Forall_insert in HU by done. destruct HU as [He HU]. specialize (IH HU). lia.
Qed.

Lemma amounts_zsum l : amounts l = zsum (List.map (fun p => ue_amount p.2) l).
Proof. unfold amounts. induction l as [|p l IH]; [done|]. cbn [total_list foldr List.map zsum]. fold (total_list Z.add 0 (fun _ e => ue_amount e) l). by rewrite IH. Qed.

Lemma amounts_creates w score : amounts (tx_creates w score) = zsum (List.map out_value (tx_outputs (v_tx w))).
Proof.
  rewrite amounts_zsum. f_equal. unfold tx_creates.
  assert (Hgen : forall (g : nat -> TransactionOutput -> TransactionOutpoint) outs, List.map (fun p => ue_amount p.2) (imap (fun i out => (g i out, output_entry w score out)) outs) = List.map out_value outs).
  { intros g outs. revert g. induction outs as [|o outs IH]; intros g; [done|]. cbn [imap List.map]. f_equal. apply (IH (fun i => g (S i))). }
  apply Hgen.
Qed.

Lemma amounts_spends w : amounts (tx_spends w) = zsum (List.map (fun p => ue_amount p.2) (populated_inputs w)).
Proof. rewrite amounts_zsum. unfold tx_spends. f_equal. induction (populated_inputs w) as [|p l IH]; [done|]. rewrite fmap_cons. cbn [List.map snd]. by rewrite IH. Qed.

Lemma sublist_concat {A B} (f : A -> list B) l1 l2 : l1 `sublist_of` l2 -> concat (f <$> l1) `sublist_of` concat (f <$> l2).
Proof. induction 1 as [|x l1 l2 Hs IH|x l1 l2 Hs IH]; [done| |]; rewrite ?fmap_cons; cbn [concat]; [by apply sublist_app|by apply sublist_inserts_l]. Qed.

(** ** What the body of a merged block satisfies *)

Section Merge.
Context {R St : Type} `{GhostdagStoreReader St} `{MergeJoin} `{CS : CryptoSpec} `{ElementStreamSpec} `{ModInverseSpec} (self : VirtualStateProcessor R St).
Let v := vp_transaction_validator self.
Context (inputs_of : N -> list TransactionOutpoint).

(** Besides validity in isolation: the id stands for the inputs, and the outputs are
    entries in range. *)
Record merged_tx_ok (pov : Z) (tx : Transaction) : Prop := mk_merged_tx_ok {
  mt_ok : tx_ok v tx;
  mt_inputs : inputs_of (tx_id tx) = in_previous_outpoint <$> tx_inputs tx;
  mt_creates : Forall (fun p => entry_ok v p.1 p.2) (tx_creates (mk_vtx tx []) pov)
}.

Record merged_body_ok (pov : Z) (txs : list Transaction) (data : CoinbaseData) : Prop := mk_merged_body_ok {
  mb_coinbase : exists cb, txs !! 0%nat = Some cb /\ deserialize_coinbase_payload (vp_coinbase_manager self) (tx_payload cb) = Ok data;
  mb_txs : Forall (fun tx => merged_tx_ok pov tx /\ is_coinbase tx = false) (drop 1 txs);
  mb_ids : NoDup (tx_id <$> drop 1 txs);
  mb_inputs : NoDup (concat ((fun tx => in_previous_outpoint <$> tx_inputs tx) <$> drop 1 txs))
}.

(** ** The state while merging *)

Record merge_state (U0 : UtxoCollection) (ctx : UtxoProcessingContext) (U : UtxoCollection) (accepted : gset N) : Prop := mk_merge_state {
  ms_valid : diff_valid (view_of U0) (uc_mergeset_diff ctx);
  ms_diff : apply_diff U0 (uc_mergeset_diff ctx) = U;
  ms_hash : mu_commits hash_fn (uc_multiset_hash ctx) U;
  ms_history : history inputs_of U accepted;
  ms_base : forall o, is_Some (U0 !! o) -> o.1 ∈ accepted;
  ms_entries : map_Forall (entry_ok v) U
}.

Lemma entries_value U : map_Forall (entry_ok v) U -> 0 <= value U.
Proof using. intros HU. apply value_nonneg. eapply map_Forall_impl; [exact HU|]. intros o e He. cbv beta. pose proof (eo_amount _ _ _ He). pose proof (utxo_plurality_pos (ue_script_public_key e)). lia. Qed.

(** A selected transaction is populated from the set. *)
Lemma spends_keys w : length (v_entries w) = length (tx_inputs (v_tx w)) -> fst <$> tx_spends w = in_previous_outpoint <$> tx_inputs (v_tx w).
Proof using.
  unfold tx_spends, populated_inputs. generalize (v_entries w). generalize (tx_inputs (v_tx w)). induction l as [|i l IH]; intros [|e es] Hl; try done. cbn in *. f_equal. apply IH. lia.
Qed.

Lemma spends_from (U : UtxoCollection) (w : VerifiableTransaction) : Forall2 (fun i e => U !! in_previous_outpoint i = Some e) (tx_inputs (v_tx w)) (v_entries w) ->
  Forall (fun p => U !! p.1 = Some p.2) (tx_spends w).
Proof using. unfold tx_spends, populated_inputs. induction 1 as [|i e ins es He Hes IH]; [constructor|]. cbn. constructor; done. Qed.

Lemma valid_populated flags U pov tx vt : validator_ok v -> merged_tx_ok pov tx -> is_coinbase tx = false -> valid_in v flags U pov tx vt ->
  populated_from inputs_of U (vt_populated vt) /\ tx_spends (vt_populated vt) <> [] /\ fst <$> tx_spends (vt_populated vt) = in_previous_outpoint <$> tx_inputs tx /\ vtx_id (vt_populated vt) = tx_id tx.
Proof using.
  intros Hv [Hok Hin _] Hcb [Htx Hent _]. assert (Hlen : length (v_entries (vt_populated vt)) = length (tx_inputs (v_tx (vt_populated vt)))) by (rewrite Htx; symmetry; by eapply Forall2_length).
  pose proof (spends_keys _ Hlen) as Hk. rewrite Htx in Hk. unfold vtx_id. rewrite Htx. split_and!; [|..|done|done].
  - split; [apply spends_from; by rewrite Htx|unfold vtx_id; by rewrite Htx, Hin, Hk|rewrite Htx; by eapply outputs_index].
  - intros Hnil. rewrite Hnil in Hk. destruct (vi_inputs _ _ (to_isolated _ _ Hok)) as (_ & Hne & _). apply (Hne Hcb). by destruct (tx_inputs tx).
Qed.

(** ** One block *)

Lemma selected_apply (Hv : validator_ok v) flags U accepted pov txs data l : history inputs_of U accepted -> merged_body_ok pov txs data -> selects v flags U pov 1 (drop 1 txs) l ->
  applies_all U (populated_of l) pov /\ history inputs_of (accept_all U (populated_of l) pov) (list_to_set (vtx_id <$> populated_of l) ∪ accepted) /\
  Forall (fun w => vtx_id w ∉ accepted) (populated_of l).
Proof using.
  intros Hh [_ Htxs Hids Hins] Hsel. pose proof (selects_valid _ _ _ _ _ _ _ Hsel) as Hval. pose proof (selects_sublist _ _ _ _ _ _ _ Hsel) as Hsub. rewrite Forall_forall in Htxs.
  assert (Hpop : Forall (fun p => populated_from inputs_of U (vt_populated p.1) /\ tx_spends (vt_populated p.1) <> [] /\
    fst <$> tx_spends (vt_populated p.1) = in_previous_outpoint <$> tx_inputs (v_tx (vt_populated p.1)) /\ vtx_id (vt_populated p.1) = tx_id (v_tx (vt_populated p.1))) l).
  { eapply Forall_impl; [exact Hval|]. intros p [Hp Hvin]. destruct (Htxs _ Hp) as [Hok Hcb]. by eapply valid_populated. }
  unfold populated_of. apply block_applies; [done|..].
  - rewrite Forall_fmap. eapply Forall_impl; [exact Hpop|]. by intros p (? & _).
  - rewrite Forall_fmap. eapply Forall_impl; [exact Hpop|]. by intros p (_ & ? & _).
  - rewrite <-list_fmap_compose. eapply sublist_NoDup; [exact Hids|]. replace ((vtx_id ∘ (fun p : ValidatedTransaction * Z => vt_populated p.1)) <$> l) with (tx_id <$> ((fun p : ValidatedTransaction * Z => v_tx (vt_populated p.1)) <$> l))
      by (by rewrite <-list_fmap_compose). by apply fmap_sublist.
  - eapply sublist_NoDup; [exact Hins|]. rewrite <-list_fmap_compose.
    replace (((fun w => fst <$> tx_spends w) ∘ (fun p : ValidatedTransaction * Z => vt_populated p.1)) <$> l) with
      ((fun tx => in_previous_outpoint <$> tx_inputs tx) <$> ((fun p : ValidatedTransaction * Z => v_tx (vt_populated p.1)) <$> l)); [by apply sublist_concat|].
    rewrite <-list_fmap_compose. apply list_fmap_ext. intros i p Hp. cbn. rewrite Forall_forall in Hpop. symmetry. apply (Hpop p). by eapply list_elem_of_lookup_2.
Qed.

Lemma creates_ext w w' score : v_tx w = v_tx w' -> tx_creates w score = tx_creates w' score.
Proof using. unfold tx_creates, output_entry. by intros ->. Qed.

Lemma accept_entries U pov (l : list VerifiableTransaction) : map_Forall (entry_ok v) U -> Forall (fun w => Forall (fun p => entry_ok v p.1 p.2) (tx_creates w pov)) l ->
  map_Forall (entry_ok v) (accept_all U l pov).
Proof using. intros HU Hl. revert U HU. induction Hl as [|w l Hw Hl IH]; intros U HU; cbn [accept_all foldl]; [done|]. apply IH. by apply after_tx_Forall. Qed.

(** Fees leave the set. *)
Lemma selected_value flags U pov i txs l : selects v flags U pov i txs l -> Forall (fun p => 0 <= vt_calculated_fee p.1) l /\ amounts (spends_all (populated_of l)) = amounts (creates_all (populated_of l) pov) + fees_of l.
Proof using.
  intros Hs. apply selects_valid in Hs. unfold spends_all, creates_all, populated_of, fees_of. induction Hs as [|p l [_ [_ _ Ha]] Hl [IHp IH]]; [by split; [constructor|]|].
  rewrite !fmap_cons. cbn [concat List.map zsum]. unfold amounts in *. rewrite !(total_list_app Z.add 0) by (intros; lia). fold (amounts (tx_spends (vt_populated p.1))) (amounts (tx_creates (vt_populated p.1) pov)).
  rewrite amounts_spends, amounts_creates. pose proof (as_fee _ _ _ _ _ Ha). split; [constructor; [lia|done]|]. match goal with |- context [zsum (?f <$> ?l)] => change (f <$> l) with (List.map f l) end. lia.
Qed.

Lemma accept_value U pov l : applies_all U l pov -> value (accept_all U l pov) + amounts (spends_all l) = value U + amounts (creates_all l pov).
Proof using. intros Ha. apply accept_all_total; [intros; lia|intros; lia|intros; lia|done]. Qed.

Lemma spends_units (U : UtxoCollection) l : map_Forall (entry_ok v) U -> Forall (fun w => Forall (fun p => U !! p.1 = Some p.2) (tx_spends w)) l -> unit_mod (prod_list hash_fn (spends_all l)).
Proof using.
  intros HU Hl. unfold spends_all, prod_list. induction Hl as [|w l Hw Hl IH]; [apply unit_one|]. rewrite fmap_cons. cbn [concat]. rewrite (total_list_app Z.mul 1) by (intros; ring).
  apply unit_mul; [|done]. clear -HU Hw. induction Hw as [|p ps Hp Hps IH]; [apply unit_one|]. cbn [total_list foldr]. apply unit_mul; [apply (eo_unit _ _ _ (HU _ _ Hp))|exact IH].
Qed.

(** Combining with the hash of the accepted transactions follows the set. *)
Lemma commits_block m mh U l pov : mu_commits hash_fn m U -> mu_rep mh (prod_list hash_fn (creates_all l pov)) (prod_list hash_fn (spends_all l)) -> applies_all U l pov ->
  unit_mod (prod_list hash_fn (spends_all l)) -> exists m', combine m mh = Ok m' /\ mu_commits hash_fn m' (accept_all U l pov).
Proof using.
  intros (a & r & Hm & Hu & Ha) Hmh Happ Hunit. destruct (combine_rep m mh _ _ _ _ Hm Hmh) as (m' & -> & Hm'). exists m'. split; [done|]. eexists _, _. split; [exact Hm'|].
  split; [by apply unit_mul|]. rewrite Ha. unfold eqm. f_equal. rewrite <-!Z.mul_assoc. f_equal. rewrite (Z.mul_comm (prod_list hash_fn (spends_all l))). symmetry.
  apply (accept_all_total Z.mul 1 (elem_utxo hash_fn)); [intros; ring|intros; ring|intros; ring|done].
Qed.

Definition block_flags (i : nat) : TxValidationFlags := if (i =? 0)%nat then FlagSkipScriptChecks else FlagFull.
Definition block_reward (data : CoinbaseData) (l : list (ValidatedTransaction * Z)) : BlockRewardData :=
  mk_reward (cd_subsidy data) (fees_of l) (md_script_public_key (cd_miner_data data)).
Definition block_acceptance (cbid : N) (i : nat) (b : N) (l : list (ValidatedTransaction * Z)) : MergesetBlockAcceptanceData :=
  mk_acceptance b ((if (i =? 0)%nat then [mk_accepted cbid 0] else []) ++ List.map (fun p => mk_accepted (vt_id p.1) p.2) l).

Lemma merge_block_spec (Hv : validator_ok v) U0 ctx U accepted pov cbid envs bs i b txs data : merge_state U0 ctx U accepted -> value U < U64 -> 0 <= pov < 2 ^ 62 ->
  merged_body_ok pov txs data -> envs_ok (envs i) 1 (drop 1 txs) ->
  exists l ctx', merge_block self (view_of U0) pov cbid envs bs ctx i b txs = Ok ctx' /\ selects v (block_flags i) U pov 1 (drop 1 txs) l /\
    merge_state U0 ctx' (accept_all U (populated_of l) pov) (list_to_set (vtx_id <$> populated_of l) ∪ accepted) /\
    value (accept_all U (populated_of l) pov) + fees_of l = value U /\ 0 <= fees_of l /\
    uc_ghostdag_data ctx' = uc_ghostdag_data ctx /\ uc_accepted_tx_ids ctx' = uc_accepted_tx_ids ctx ++ List.map (fun p => vt_id p.1) l /\
    uc_mergeset_acceptance_data ctx' = uc_mergeset_acceptance_data ctx ++ [block_acceptance cbid i b l] /\
    uc_mergeset_rewards ctx' = <[b := block_reward data l]> (uc_mergeset_rewards ctx) /\ uc_pruning_sample_from_pov ctx' = uc_pruning_sample_from_pov ctx.
Proof using All.
  intros [Hdv Hdiff Hmu Hh Hbase Hent] Hval Hpov Hbody Henv. unfold merge_block. fold (block_flags i).
  destruct (validate_with_muhash_spec self Hv (envs i) (bs i) txs (composed (view_of U0) (uc_mergeset_diff ctx)) U pov (block_flags i)) as (l & mh & -> & Hsel & Hmh); try done.
  { intros o. rewrite <-Hdiff. symmetry. apply apply_diff_view. }
  { unfold block_flags. by destruct (i =? 0)%nat. }
  { eapply Forall_impl; [apply (mb_txs _ _ _ Hbody)|]. intros tx [Hok Hcb]. split; [apply (mt_ok _ _ Hok)|done]. }
  cbn [obind]. destruct (selected_apply Hv _ _ _ _ _ _ _ Hh Hbody Hsel) as (Happ & Hh' & Hnew). destruct (selected_value _ _ _ _ _ _ Hsel) as [Hfees Hamt].
  pose proof (accept_value U pov (populated_of l) Happ) as Hacc. pose proof (selects_valid _ _ _ _ _ _ _ Hsel) as Hvalid. pose proof (mb_txs _ _ _ Hbody) as Htxs. rewrite Forall_forall in Htxs.
  assert (Hcr : Forall (fun w => Forall (fun p => entry_ok v p.1 p.2) (tx_creates w pov)) (populated_of l)).
  { unfold populated_of. rewrite Forall_fmap. eapply Forall_impl; [exact Hvalid|]. intros p [Hp Hvin]. cbn. destruct (Htxs _ Hp) as [Hok _]. pose proof (mt_creates _ _ Hok) as Hc.
    by rewrite (creates_ext (vt_populated p.1) (mk_vtx (v_tx (vt_populated p.1)) [])). }
  pose proof (accept_entries U pov (populated_of l) Hent Hcr) as Hent'. pose proof (entries_value _ Hent') as Hpos.
  assert (Hunit : unit_mod (prod_list hash_fn (spends_all (populated_of l)))).
  { apply (spends_units U _ Hent). unfold populated_of. rewrite Forall_fmap. eapply Forall_impl; [exact Hvalid|]. intros p [Hp Hvin]. cbn. destruct (Htxs _ Hp) as [Hok Hcb].
    destruct (valid_populated _ _ _ _ _ Hv Hok Hcb Hvin) as [[Hs _ _] _]. done. }
  destruct (commits_block _ _ _ _ _ Hmu Hmh Happ Hunit) as (m' & -> & Hm'). cbn [unwrap_res obind].
  assert (Hsum : 0 <= fees_of l) by (by apply zsum_nonneg, Forall_map).
  destruct (accept_fold U0 pov l (uc_mergeset_diff ctx) (uc_accepted_tx_ids ctx) 0) as (d' & -> & Hd' & Heq); try done; [by rewrite Hdiff| |lia|].
  { eapply Forall_impl; [exact Hnew|]. intros w Hw. cbv beta in Hw |- *. apply Forall_forall. intros [o e] Hc. cbn. apply creates_id in Hc.
    destruct (U0 !! o) eqn:Ho; [|done]. destruct Hw. rewrite <-Hc. apply Hbase. eauto. }
  cbn [obind]. destruct (mb_coinbase _ _ _ Hbody) as (cb & -> & Hdes). cbn [unwrap obind]. rewrite Hdes. cbn [unwrap_res obind].
  eexists l, _. split; [done|]. cbn [uc_ghostdag_data uc_accepted_tx_ids uc_mergeset_acceptance_data uc_mergeset_rewards uc_pruning_sample_from_pov]. rewrite Z.add_0_l.
  split_and!; try done; [|lia]. rewrite Hdiff in Heq. split; cbn [uc_mergeset_diff uc_multiset_hash]; try done. intros o Ho. specialize (Hbase o Ho). set_solver.
Qed.
End Merge.
