(* ===== verification/UtxoExample.v ===== *)
(** * A small chain

    A concrete world on which the theorems about the UTXO state are instantiated: a UTXO set
    with one entry; a selected parent whose body spends it with a signed transaction; a
    second merged block with a coinbase only; and a block on top of both. *)

From Stdlib Require Import ZArith Lia Bool SpecFloat Permutation.
From stdpp Require Import base gmap numbers list.
From S2P Require Import Prelude Uint UintLemmas Tx Utxo UtxoProps Header Hashing HashingProps MerkleProps GhostdagStore Difficulty ScriptEngine ScriptSafety ScriptProps Mass TxValidator TxValidatorLemmas TxValidatorProps U3072 U3072Lemmas UtxoTotals MuHash MuHashProps Coinbase CoinbaseProps Body MergesetOrder Pruning UtxoState UtxoStateValid UtxoStateMerge.

#[local] Open Scope Z_scope.
#[local] Existing Instance toy_crypto.
#[local] Existing Instance toy_spec.
#[local] Existing Instance ex_mod_inverse.
#[local] Existing Instance ex_mod_inverse_spec.
#[local] Existing Instance ex_stream.
#[local] Existing Instance ex_stream_spec.
#[local] Existing Instance ex_merge_join.
#[local] Existing Instance ex_merge_join_spec.

(** ** The blocks *)

Definition ux_set : UtxoCollection := {[ (7%N, 1%N) := mk_utxo 150 sx_spk 0 false ]}.
Definition ux_spend : Transaction := v_tx (sx_tx sx_script sx_spk).

Definition ux_data (score : Z) (b : Z) : CoinbaseData := mk_coinbase_data score 500 (mk_miner (cx_spk b) [7]).
Definition ux_payload (d : CoinbaseData) : bytes := match serialize_coinbase_payload cx_manager d with Ok bs => bs | _ => [] end.
Definition ux_coinbase (outs : list TransactionOutput) (d : CoinbaseData) (id : N) : Transaction := mk_tx 0 [] outs 0 SUBNETWORK_ID_COINBASE 0 (ux_payload d) 0 id.
Definition ux_parent_coinbase : Transaction := ux_coinbase [mk_output 500 (cx_spk 9)] (ux_data 10 2) 8%N.

(** Block 2 is the selected parent of block 5, and block 4 is merged with it. *)
Definition ux_ghostdag : GhostdagData := mk_gd 12 900 2%N [2%N; 4%N] [] ∅.
Definition ux_store : MemoryGhostdagStore :=
  match mg_insert mg_new 4%N (mk_gd 9 300 1%N [1%N] [] ∅) with Ok s => s | _ => mg_new end.

Definition ux_bodies (tip : list Transaction) (b : N) : list Transaction :=
  if (b =? 2)%N then [ux_parent_coinbase; ux_spend] else if (b =? 4)%N then [ux_coinbase [] (ux_data 9 3) 6%N] else tip.
Definition ux_header (hash : N) (accepted_root commitment pruning : N) : Header := mk_header hash 1 [] 0%N accepted_root commitment 0 0 0 100 0 12 pruning.
(** The depths keep genesis, block 1, as the pruning sample and point. *)
Definition ux_pruning : PruningPointManager unit MemoryGhostdagStore :=
  mk_pruning_manager _ _ 25 10 1%N tt ux_store (fun h => Ok (if (h =? 1)%N then 0 else 9)) (fun h => Ok (ux_header h 33%N 0%N 1%N)) (fun _ => Err (KeyNotFound 0%N)) {[ 2%N := 1%N ]} 3.
Definition ux_processor_of (tip : list Transaction) : VirtualStateProcessor unit MemoryGhostdagStore :=
  mk_virtual_processor _ _ tx_validator cx_manager (fun b => Ok (ux_bodies tip b)) ux_store (fun h => Ok (ux_header h 33%N 0%N 1%N)) (fun _ => Ok ∅)
    ux_pruning 2.
Definition ux_env : ValidationEnv := mk_env [0%nat] (cache_new 4) [].
Definition ux_mh : MuHash := match add_utxo hash_fn muhash_new (7%N, 1%N) (mk_utxo 150 sx_spk 0 false) with Ok m => m | _ => muhash_new end.
Definition ux_context_of (tip : list Transaction) : UtxoProcessingContext :=
  match calculate_utxo_state (ux_processor_of tip) (fun _ _ => ux_env) (fun _ => BLeaf) (utxo_context_new ux_ghostdag ux_mh) (view_of ux_set) 100 with
  | Ok ctx => ctx
  | _ => utxo_context_new ux_ghostdag ux_mh
  end.

(** The coinbase of block 5 pays for blocks 2 and 4. *)
Definition ux_expected : CoinbaseTransactionTemplate :=
  match expected_coinbase_transaction hash_fn cx_manager 100 (cd_miner_data (ux_data 12 5)) ux_ghostdag (uc_mergeset_rewards (ux_context_of [])) ∅ with
  | Ok t => t
  | _ => mk_template ux_parent_coinbase false
  end.
Definition ux_tip : list Transaction := [ct_tx ux_expected].
Definition ux_processor : VirtualStateProcessor unit MemoryGhostdagStore := ux_processor_of ux_tip.
Definition ux_context : UtxoProcessingContext := ux_context_of ux_tip.
Definition ux_block : Header :=
  ux_header 5%N (merkle_hash hash_fn 33%N (merkle_ref hash_fn (uc_accepted_tx_ids ux_context))) (utxo_commitment hash_fn (apply_diff ux_set (uc_mergeset_diff ux_context))) 1%N.

(** ** What the theorems ask of it *)

Lemma ux_validator_ok : validator_ok tx_validator.
Proof.
  split; [vm_compute; split; [discriminate|reflexivity]|vm_compute; split; reflexivity|vm_compute; discriminate|].
  intros spk Hlen. change (max_script_public_key_len tx_validator) with (Z.to_nat 10000) in Hlen. change (storage_mass_parameter (mass_calculator tx_validator)) with 50.
  assert (Hp : 0 <= utxo_plurality spk <= 102).
  { unfold utxo_plurality, div_ceil, UTXO_CONST_STORAGE, UTXO_UNIT_SIZE. split; [apply Z.div_pos|apply Z.lt_succ_r, Z.div_lt_upper_bound]; lia. }
  nia.
Qed.

Definition ux_inputs_of (id : N) : list TransactionOutpoint := if (id =? 0)%N then [(7%N, 1%N)] else [].

Lemma ux_entry o e : wf_bytesb (spk_script (ue_script_public_key e)) && (length (spk_script (ue_script_public_key e)) <=? 100)%nat &&
    (utxo_plurality (ue_script_public_key e) <=? ue_amount e) && (0 <=? ue_block_daa_score e) && (ue_block_daa_score e <? 2 ^ 62) &&
    (Z.gcd (elem_utxo hash_fn o e mod PRIME) PRIME =? 1) = true -> entry_ok tx_validator o e.
Proof.
  rewrite !andb_true_iff, !Z.leb_le, Z.ltb_lt, Z.eqb_eq, Nat.leb_le. intros [[[[[Hb Hl] Ha] Hs0] Hs1] Hu].
  split; [by apply wf_bytesb_ok|change (max_script_public_key_len tx_validator) with (Z.to_nat 10000); lia|done|done|exact Hu].
Qed.

Lemma ux_created tx : forallb (fun p : TransactionOutpoint * UtxoEntry => let '(o, e) := p in
    wf_bytesb (spk_script (ue_script_public_key e)) && (length (spk_script (ue_script_public_key e)) <=? 100)%nat &&
    (utxo_plurality (ue_script_public_key e) <=? ue_amount e) && (0 <=? ue_block_daa_score e) && (ue_block_daa_score e <? 2 ^ 62) &&
    (Z.gcd (elem_utxo hash_fn o e mod PRIME) PRIME =? 1)) (tx_creates (mk_vtx tx []) 100) = true ->
  Forall (fun p => entry_ok tx_validator p.1 p.2) (tx_creates (mk_vtx tx []) 100).
Proof. rewrite forallb_forall. intros Hb. apply Forall_forall. intros [o e] Hin%list_elem_of_In%Hb. by apply ux_entry. Qed.

Lemma ux_spend_ok : merged_tx_ok ux_processor ux_inputs_of 100 ux_spend.
Proof.
  split; [|reflexivity|apply ux_created; vm_compute; reflexivity]. split.
  - apply isolation_decided; [vm_compute; split; [discriminate|reflexivity]|apply Forall_cons_2; [vm_compute; discriminate|apply Forall_nil_2]|vm_compute; reflexivity].
  - apply Forall_cons_2; [|apply Forall_nil_2]. split; [apply wf_bytesb_ok; vm_compute; reflexivity|vm_compute; repeat split; discriminate].
  - apply Forall_cons_2; [apply wf_bytesb_ok; vm_compute; reflexivity|apply Forall_nil_2].
Qed.

Lemma ux_parent_body : merged_body_ok ux_processor ux_inputs_of 100 (ux_bodies ux_tip 2%N) (ux_data 10 2).
Proof.
  split; [exists ux_parent_coinbase; split; vm_compute; reflexivity|apply Forall_cons_2; [split; [apply ux_spend_ok|reflexivity]|apply Forall_nil_2]| |].
  - apply NoDup_singleton.
  - apply NoDup_singleton.
Qed.

Lemma ux_merged_body : merged_body_ok ux_processor ux_inputs_of 100 (ux_bodies ux_tip 4%N) (ux_data 9 3).
Proof. split; [eexists; split; [reflexivity|vm_compute; reflexivity]|apply Forall_nil_2|apply NoDup_nil_2|apply NoDup_nil_2]. Qed.

Lemma ux_tip_body : merged_body_ok ux_processor ux_inputs_of 100 ux_tip (ux_data 12 5).
Proof. split; [eexists; split; [reflexivity|vm_compute; reflexivity]|apply Forall_nil_2|apply NoDup_nil_2|apply NoDup_nil_2]. Qed.

Lemma ux_envs_spend i : envs_ok (fun _ => ux_env) i [ux_spend].
Proof. intros [|j] tx Htx; [|done]. injection Htx as <-. split; [reflexivity|apply Forall_nil_2]. Qed.
Lemma ux_envs_nil i : envs_ok (fun _ => ux_env) i [].
Proof. intros j tx Htx. done. Qed.

Lemma ux_history : history ux_inputs_of ux_set {[ 7%N ]}.
Proof.
  unfold ux_set. split.
  - intros o [e He]. apply lookup_singleton_Some in He as [<- _]. by apply elem_of_singleton.
  - intros id o ->%elem_of_singleton Ho. by apply elem_of_nil in Ho.
Qed.

Lemma ux_entries : map_Forall (entry_ok tx_validator) ux_set.
Proof. apply map_Forall_singleton, ux_entry. vm_compute. reflexivity. Qed.

Lemma ux_commits : mu_commits hash_fn ux_mh ux_set.
Proof.
  exists (prod_set hash_fn ux_set), 1. split; [|split; [apply unit_one|by rewrite Z.mul_1_l]]. unfold ux_mh, add_utxo.
  destruct (add_element_rep hash_fn muhash_new 1 1 (write_utxo (mk_utxo 150 sx_spk 0 false) (7%N, 1%N)) muhash_new_rep) as (m & -> & Hm).
  replace (prod_set hash_fn ux_set) with (1 * elem hash_fn (write_utxo (mk_utxo 150 sx_spk 0 false) (7%N, 1%N))); [exact Hm|].
  unfold prod_set, total, ux_set. rewrite map_fold_singleton. unfold elem_utxo. lia.
Qed.
