(* ===== verification/UtxoStateProps.v ===== *)
(** * The UTXO state of a block: properties

    [calculate_utxo_state] implements the abstract merging of the mergeset: it never panics,
    its diff leads to the merged set, its multiset hash commits to that set, and amounts are
    conserved up to the fees, whatever the threads do. *)

From Stdlib Require Import ZArith Lia Bool SpecFloat Permutation.
From stdpp Require Import base gmap numbers list.
From S2P Require Import Prelude Uint UintLemmas Tx Utxo UtxoProps Header Hashing GhostdagStore Difficulty ScriptEngine ScriptSafety Mass TxValidator TxValidatorLemmas TxValidatorProps U3072 U3072Lemmas UtxoTotals MuHash MuHashProps Coinbase Body MergesetOrder UtxoState UtxoStateValid UtxoStateMerge ScriptProps CoinbaseProps UtxoExample.

#[local] Open Scope Z_scope.

(** ** The abstract mergeset *)

Section Spec.
Context `{CS : CryptoSpec} `{ElementStream} (v : TransactionValidator) (pov : Z) (bodies : N -> list Transaction).

(** The blocks one after the other: of each, the transactions valid at that point are
    accepted.  The scripts of the first block, the selected parent, do not count. *)
Inductive merges : nat -> UtxoCollection -> list N -> list (list (ValidatedTransaction * Z)) -> UtxoCollection -> Prop :=
| merges_nil i U : merges i U [] [] U
| merges_cons i U b bs l ls U' : selects v (block_flags i) U pov 1 (drop 1 (bodies b)) l -> merges (S i) (accept_all U (populated_of l) pov) bs ls U' ->
    merges i U (b :: bs) (l :: ls) U'.

Lemma valid_in_unique flags U tx vt vt' : valid_in v flags U pov tx vt -> valid_in v flags U pov tx vt' -> vt = vt'.
Proof using.
  destruct vt as [[tx1 es1] fee1], vt' as [[tx2 es2] fee2]. intros [Ht Hes [_ _ [_ Hf] _ _ _]] [Ht' Hes' [_ _ [_ Hf'] _ _ _]]. cbn in *. subst tx1 tx2.
  rewrite (Forall2_fun (fun o => U !! o) _ _ _ Hes' Hes) in Hf' |- *. f_equal. lia.
Qed.

Lemma selects_unique flags U i txs l l' : selects v flags U pov i txs l -> selects v flags U pov i txs l' -> l = l'.
Proof using.
  intros Hs. revert l'. induction Hs as [|i tx txs vt l Hv Hs IH|i tx txs l Hn Hs IH]; intros l' Hs'; inversion Hs'; subst; try done.
  - f_equal; [|by apply IH]. f_equal. by eapply valid_in_unique.
  - exfalso. naive_solver.
  - exfalso. naive_solver.
  - by apply IH.
Qed.

Lemma merges_unique i U bs ls U' ls' U'' : merges i U bs ls U' -> merges i U bs ls' U'' -> ls = ls' /\ U' = U''.
Proof using.
  intros Hm. revert ls' U''. induction Hm as [|i U b bs l ls U' Hs Hm IH]; intros ls' U'' Hm'; inversion Hm' as [|? ? ? ? l' ls'' ? Hs' Hm'']; subst; [done|].
  rewrite <-(selects_unique _ _ _ _ _ _ Hs Hs') in *. destruct (IH _ _ Hm'') as [-> ->]. done.
Qed.
End Spec.

Definition all_accepted (ls : list (list (ValidatedTransaction * Z))) : list N := List.map (fun p => vt_id p.1) (concat ls).
Definition all_fees (ls : list (list (ValidatedTransaction * Z))) : Z := zsum (List.map fees_of ls).

Fixpoint acceptances (cbid : N) (i : nat) (blocks : list N) (ls : list (list (ValidatedTransaction * Z))) : list MergesetBlockAcceptanceData :=
  match blocks, ls with
  | b :: blocks', l :: ls' => block_acceptance cbid i b l :: acceptances cbid (S i) blocks' ls'
  | _, _ => []
  end.

(** ** Merging implements it *)

Section Run.
Context {R St : Type} `{GhostdagStoreReader St} `{MergeJoin} `{CS : CryptoSpec} `{ElementStreamSpec} `{ModInverseSpec} (self : VirtualStateProcessor R St).
Let v := vp_transaction_validator self.
Context (inputs_of : N -> list TransactionOutpoint) (pov : Z) (bodies : N -> list Transaction) (data : N -> CoinbaseData).
Hypothesis Hv : validator_ok v.
Hypothesis Hpov : 0 <= pov < 2 ^ 62.

Definition block_known (b : N) : Prop := vp_block_transactions_store self b = Ok (bodies b) /\ merged_body_ok self inputs_of pov (bodies b) (data b).
Definition block_envs (envs : nat -> nat -> ValidationEnv) (i : nat) (blocks : list N) : Prop := forall j b, blocks !! j = Some b -> envs_ok (envs (i + j)%nat) 1 (drop 1 (bodies b)).

(** The rewards recorded for the merged blocks. *)
Definition rewards_for (blocks : list N) (ls : list (list (ValidatedTransaction * Z))) (rewards : gmap N BlockRewardData) : Prop :=
  forall j b l, blocks !! j = Some b -> ls !! j = Some l -> rewards !! b = Some (block_reward (data b) l).

Record merged (U0 : UtxoCollection) (cbid : N) (i : nat) (ctx : UtxoProcessingContext) (U : UtxoCollection) (accepted : gset N) (blocks : list N)
    (ctx' : UtxoProcessingContext) (ls : list (list (ValidatedTransaction * Z))) (U' : UtxoCollection) : Prop := mk_merged {
  me_merges : merges v pov bodies i U blocks ls U';
  me_state : merge_state self inputs_of U0 ctx' U' (list_to_set (all_accepted ls) ∪ accepted);
  me_value : value U' + all_fees ls = value U /\ 0 <= all_fees ls;
  me_ids : uc_accepted_tx_ids ctx' = uc_accepted_tx_ids ctx ++ all_accepted ls;
  me_acceptance : uc_mergeset_acceptance_data ctx' = uc_mergeset_acceptance_data ctx ++ acceptances cbid i blocks ls;
  me_other : forall b, b ∉ blocks -> uc_mergeset_rewards ctx' !! b = uc_mergeset_rewards ctx !! b;
  me_rewards : NoDup blocks -> rewards_for blocks ls (uc_mergeset_rewards ctx');
  me_ghostdag : uc_ghostdag_data ctx' = uc_ghostdag_data ctx
}.

Lemma merge_blocks_spec U0 cbid envs bs blocks : forall i ctx U accepted, merge_state self inputs_of U0 ctx U accepted -> value U < U64 ->
  Forall block_known blocks -> block_envs envs i blocks ->
  exists ls ctx' U', merge_blocks self (view_of U0) pov cbid envs bs ctx i blocks = Ok ctx' /\ merged U0 cbid i ctx U accepted blocks ctx' ls U'.
Proof using All.
  induction blocks as [|b blocks IH]; intros i ctx U accepted Hst Hval Hkn Henv; cbn [merge_blocks].
  { exists [], ctx, U. split; [done|]. split; [apply merges_nil| | | | |done|by intros _ j c l'|done].
    - replace (list_to_set (all_accepted []) ∪ accepted) with accepted by (unfold all_accepted; cbn; set_solver). done.
    - unfold all_fees. cbn. lia.
    - by rewrite app_nil_r.
    - by rewrite app_nil_r. }
  apply Forall_cons in Hkn as [[Hstore Hbody] Hkn]. rewrite Hstore. cbn [unwrap_res obind].
  assert (He0 : envs_ok (envs i) 1 (drop 1 (bodies b))) by (rewrite <-(Nat.add_0_r i); by apply (Henv 0%nat b)).
  destruct (merge_block_spec self inputs_of Hv U0 ctx U accepted pov cbid envs bs i b (bodies b) (data b) Hst Hval Hpov Hbody He0)
    as (l & ctx1 & -> & Hsel & Hst1 & Hv1 & Hf1 & Hgd & Hids & Hacc & Hrew & _). cbn [obind].
  destruct (IH (S i) ctx1 _ _ Hst1 ltac:(lia) Hkn) as (ls & ctx' & U' & Hrun & [Hmg Hst' [Hval' Hfe] Hids' Hacc' Hoth Hrw Hgd']).
  { intros j c Hj. replace (S i + j)%nat with (i + S j)%nat by lia. by apply (Henv (S j) c). }
  exists (l :: ls), ctx', U'. split; [done|]. split.
  - by econstructor.
  - unfold all_accepted in *. cbn [concat]. rewrite List.map_app, list_to_set_app_L. replace (vtx_id <$> populated_of l) with (List.map (fun p => vt_id p.1) l) in Hst' by
      (unfold populated_of; by rewrite <-list_fmap_compose). by rewrite (union_comm_L (list_to_set (List.map _ l))), <-union_assoc_L.
  - unfold all_fees in *. cbn [List.map zsum]. lia.
  - rewrite Hids', Hids, <-app_assoc. unfold all_accepted. cbn [concat]. by rewrite List.map_app.
  - rewrite Hacc', Hacc, <-app_assoc. done.
  - intros c Hc. rewrite Hoth, Hrew by set_solver. apply lookup_insert_ne. set_solver.
  - intros [Hnb Hnd]%NoDup_cons. intros [|j] c l' Hj Hl; cbn in Hj, Hl; [|by apply (Hrw Hnd j)]. injection Hj as <-. injection Hl as <-. rewrite Hoth, Hrew by done. apply lookup_insert_eq.
  - by rewrite Hgd', Hgd.
Qed.

(** ** The coinbase of the selected parent *)

Record chain_coinbase_ok (accepted : gset N) (cb : Transaction) : Prop := mk_chain_coinbase_ok {
  cc_coinbase : is_coinbase cb = true;
  cc_inputs : tx_inputs cb = [] /\ inputs_of (tx_id cb) = [];
  cc_new : tx_id cb ∉ accepted;
  cc_index : (N.of_nat (length (tx_outputs cb)) <= 4294967296)%N;
  cc_creates : Forall (fun p => entry_ok v p.1 p.2) (tx_creates (mk_vtx cb []) pov)
}.

(** The UTXO set of a chain block, with the ids accepted up to it. *)
Record chain_state (U : UtxoCollection) (accepted : gset N) : Prop := mk_chain_state {
  cs_history : history inputs_of U accepted;
  cs_entries : map_Forall (entry_ok v) U
}.

Lemma no_spends tx : tx_spends (mk_vtx tx []) = [].
Proof using. unfold tx_spends, populated_inputs. cbn. by destruct (tx_inputs tx). Qed.

Lemma coinbase_step U0 accepted mh cb D : chain_state U0 accepted -> mu_commits hash_fn mh U0 -> chain_coinbase_ok accepted cb ->
  exists d m, add_transaction diff_default (mk_vtx cb []) pov = Ok d /\ muhash_add_transaction hash_fn mh (mk_vtx cb []) pov = Ok m /\
    forall ids acceptance rewards sample, merge_state self inputs_of U0 (mk_utxo_context D m d ids acceptance rewards sample) (after_tx U0 (mk_vtx cb []) pov) ({[ tx_id cb ]} ∪ accepted).
Proof using All.
  intros [Hh Hent] (a & r & Hm & Hu & Ha) [Hcb [Hin Hio] Hnew Hidx Hcr]. set (w := mk_vtx cb []) in *.
  assert (Hpf : populated_from inputs_of U0 w) by (split; [unfold w; rewrite no_spends; apply Forall_nil_2|unfold w; rewrite no_spends; symmetry; exact Hio|done]).
  assert (Hfresh : Forall (fun p => U0 !! p.1 = None) (tx_creates w pov)) by (by eapply history_fresh).
  assert (Happ : tx_applies U0 w pov) by (split; [unfold w; rewrite no_spends; apply NoDup_nil_2|apply (pf_spends _ _ _ Hpf)|done|done]).
  destruct (add_transaction_apply U0 diff_default w pov) as (d & Hd & Hdv & Heq).
  { split; cbn; intros; by rewrite lookup_empty in *. }
  { by rewrite apply_diff_default. }
  { done. }
  destruct (muhash_add_transaction_rep hash_fn mh a r w pov Hm Hidx) as (m & Hmr & Hm'). exists d, m. split; [done|]. split; [done|]. intros ids acceptance rewards sample.
  rewrite apply_diff_default in Heq. split; cbn [uc_mergeset_diff uc_multiset_hash]; try done.
  - eexists _, _. split; [exact Hm'|]. split; [unfold w; rewrite no_spends; unfold prod_list; cbn; by rewrite Z.mul_1_r|]. by apply commits_after_tx.
  - by apply (history_step inputs_of U0 accepted w pov Hh Hpf).
  - intros o Ho. pose proof (hi_ids _ _ _ Hh o Ho). set_solver.
  - by apply after_tx_Forall.
Qed.

Lemma coinbase_value U0 accepted cb : chain_state U0 accepted -> chain_coinbase_ok accepted cb ->
  value (after_tx U0 (mk_vtx cb []) pov) = value U0 + zsum (List.map out_value (tx_outputs cb)).
Proof using.
  intros [Hh _] [_ _ Hnew Hidx _].
  assert (Happ : tx_applies U0 (mk_vtx cb []) pov) by (split; [rewrite no_spends; apply NoDup_nil_2|rewrite no_spends; apply Forall_nil_2|done|by eapply history_fresh]).
  pose proof (after_tx_total Z.add 0 (fun _ e => ue_amount e) U0 (mk_vtx cb []) pov ltac:(intros; lia) ltac:(intros; lia) ltac:(intros; lia) Happ) as Ht.
  rewrite no_spends in Ht. fold (value U0) (value (after_tx U0 (mk_vtx cb []) pov)) (amounts (tx_creates (mk_vtx cb []) pov)) in Ht. rewrite amounts_creates in Ht. cbn [total_list foldr v_tx] in Ht. lia.
Qed.

Lemma merge_block_ghostdag view cbid envs bs ctx i b txs ctx' : merge_block self view pov cbid envs bs ctx i b txs = Ok ctx' -> uc_ghostdag_data ctx' = uc_ghostdag_data ctx.
Proof using.
  unfold merge_block. intros ([l mh] & _ & (m & _ & ([[d ids] fee] & _ & (cb & _ & (cd & _ & <-%Ok_inj)%bind_Ok)%bind_Ok)%bind_Ok)%bind_Ok)%bind_Ok. done.
Qed.

(** ** The whole mergeset *)

Lemma calculate_spec U0 accepted mh D cb rest envs bs : let sp := gd_selected_parent D in
  chain_state U0 accepted -> mu_commits hash_fn mh U0 -> bodies sp !! 0%nat = Some cb -> chain_coinbase_ok accepted cb ->
  consensus_ordered_mergeset_without_selected_parent (vp_ghostdag_store self) D = Ok rest ->
  Forall block_known (sp :: rest) -> block_envs envs 0 (sp :: rest) -> value U0 + zsum (List.map out_value (tx_outputs cb)) < U64 ->
  exists ctx1 ls ctx' U', calculate_utxo_state self envs bs (utxo_context_new D mh) (view_of U0) pov = Ok ctx' /\
    uc_accepted_tx_ids ctx1 = [tx_id cb] /\ uc_mergeset_acceptance_data ctx1 = [] /\ uc_mergeset_rewards ctx1 = ∅ /\ uc_ghostdag_data ctx1 = D /\
    merged U0 (tx_id cb) 0 ctx1 (after_tx U0 (mk_vtx cb []) pov) ({[ tx_id cb ]} ∪ accepted) (sp :: rest) ctx' ls U'.
Proof using All.
  intros sp Hst Hmu Hcb0 Hcb Hord Hkn Henv Hval. destruct (coinbase_step U0 accepted mh cb D Hst Hmu Hcb) as (d & m & Hd & Hm & Hms).
  set (ctx1 := mk_utxo_context D m d [tx_id cb] [] ∅ None). pose proof (Hms [tx_id cb] [] ∅ None) as Hms1. fold ctx1 in Hms1.
  assert (Hv1 : value (after_tx U0 (mk_vtx cb []) pov) < U64) by (by rewrite (coinbase_value U0 accepted)).
  destruct (merge_blocks_spec U0 (tx_id cb) envs bs (sp :: rest) 0 ctx1 _ _ Hms1 Hv1 Hkn Henv) as (ls & ctx' & U' & Hrun & Hmerged).
  exists ctx1, ls, ctx', U'. split; [|done]. cbn [merge_blocks] in Hrun. apply Forall_cons in Hkn as [[Hstore _] _].
  unfold calculate_utxo_state. change (uc_selected_parent (utxo_context_new D mh)) with sp. rewrite Hstore in Hrun |- *. cbn [unwrap_res obind] in Hrun |- *. rewrite Hcb0. cbn [unwrap obind].
  unfold new_coinbase. rewrite (cc_coinbase _ _ Hcb). cbn [rassert obind vt_populated utxo_context_new uc_mergeset_diff uc_multiset_hash]. rewrite Hd. cbn [unwrap_res obind]. rewrite Hm. cbn [unwrap_res obind].
  change ((let! ctx := merge_block self (view_of U0) pov (tx_id cb) envs bs ctx1 0 sp (bodies sp) in
           let! ordered := consensus_ordered_mergeset_without_selected_parent (vp_ghostdag_store self) (uc_ghostdag_data ctx) in
           merge_blocks self (view_of U0) pov (tx_id cb) envs bs ctx 1 ordered) = Ok ctx').
  apply bind_Ok in Hrun as (ctx2 & Hblock & Hrest). rewrite Hblock. cbn [obind]. rewrite (merge_block_ghostdag _ _ _ _ _ _ _ _ _ Hblock). change (uc_ghostdag_data ctx1) with D. rewrite Hord. done.
Qed.
End Run.

(** C2: Calculating the UTXO state of a block accepts, block by block in consensus order,
    exactly the transactions that are valid at that point, and nothing else: the result is
    determined by the mergeset, whatever the scheduling of the threads and the content of
    the signature cache.  It never panics; the diff leads from the UTXO set of the selected
    parent to the new one, the multiset hash commits to the new one, the amounts are
    conserved except for the fees, which are recorded per block together with the subsidy,
    and the new set is again a state from which a block can be processed. *)
Theorem utxo_state_correct {R St : Type} `{GhostdagStoreReader St} `{MergeJoin} `{CS : CryptoSpec} `{ElementStreamSpec} `{ModInverseSpec} (self : VirtualStateProcessor R St)
    (inputs_of : N -> list TransactionOutpoint) (pov : Z) (bodies : N -> list Transaction) (data : N -> CoinbaseData)
    (U : UtxoCollection) (accepted : gset N) (mh : MuHash) (D : GhostdagData) (cb : Transaction) (rest : list N) (envs : nat -> nat -> ValidationEnv) (bs : nat -> bracketing) :
  let sp := gd_selected_parent D in
  validator_ok (vp_transaction_validator self) -> 0 <= pov < 2 ^ 62 ->
  chain_state self inputs_of U accepted -> mu_commits hash_fn mh U ->
  bodies sp !! 0%nat = Some cb -> chain_coinbase_ok self inputs_of pov accepted cb ->
  consensus_ordered_mergeset_without_selected_parent (vp_ghostdag_store self) D = Ok rest -> NoDup (sp :: rest) ->
  Forall (block_known self inputs_of pov bodies data) (sp :: rest) -> block_envs bodies envs 0 (sp :: rest) ->
  value U + zsum (List.map out_value (tx_outputs cb)) < U64 ->
  exists ls U' ctx', merges (vp_transaction_validator self) pov bodies 0 (after_tx U (mk_vtx cb []) pov) (sp :: rest) ls U' /\
    (forall ls' U'', merges (vp_transaction_validator self) pov bodies 0 (after_tx U (mk_vtx cb []) pov) (sp :: rest) ls' U'' -> ls' = ls /\ U'' = U') /\
    calculate_utxo_state self envs bs (utxo_context_new D mh) (view_of U) pov = Ok ctx' /\
    apply_diff U (uc_mergeset_diff ctx') = U' /\
    (exists m', muhash_finalize hash_fn (uc_multiset_hash ctx') = Ok (utxo_commitment hash_fn U', m')) /\
    uc_accepted_tx_ids ctx' = tx_id cb :: all_accepted ls /\
    uc_mergeset_acceptance_data ctx' = acceptances (tx_id cb) 0 (sp :: rest) ls /\
    rewards_for data (sp :: rest) ls (uc_mergeset_rewards ctx') /\
    value U' + all_fees ls = value U + zsum (List.map out_value (tx_outputs cb)) /\
    chain_state self inputs_of U' (list_to_set (uc_accepted_tx_ids ctx') ∪ accepted).
Proof.
  intros sp Hv Hpov Hst Hmu Hcb0 Hcb Hord Hnd Hkn Henv Hval.
  destruct (calculate_spec self inputs_of pov bodies data Hv Hpov U accepted mh D cb rest envs bs Hst Hmu Hcb0 Hcb Hord Hkn Henv Hval)
    as (ctx1 & ls & ctx' & U' & Hrun & Hi1 & Ha1 & _ & _ & [Hmg Hms [Hv1 _] Hids Hacc _ Hrw _]).
  exists ls, U', ctx'. split; [done|]. split; [intros ls' U'' Hm'; by eapply merges_unique|]. split; [done|]. split; [apply (ms_diff _ _ _ _ _ _ Hms)|]. split.
  { destruct (finalize_commits hash_fn _ _ (ms_hash _ _ _ _ _ _ Hms)) as (m' & Hm' & _). by exists m'. }
  rewrite Hids, Hacc, Hi1, Ha1. split; [done|]. split; [done|]. split; [by apply Hrw|]. rewrite (coinbase_value self inputs_of pov U accepted cb Hst Hcb) in Hv1. split; [done|].
  split; [|apply (ms_entries _ _ _ _ _ _ Hms)]. pose proof (ms_history _ _ _ _ _ _ Hms) as Hh. cbn [app list_to_set]. by replace ({[tx_id cb]} ∪ list_to_set (all_accepted ls) ∪ accepted)
    with (list_to_set (all_accepted ls) ∪ ({[tx_id cb]} ∪ accepted)) by set_solver.
Qed.

(** ** An instance *)

#[local] Existing Instance toy_crypto.
#[local] Existing Instance toy_spec.
#[local] Existing Instance ex_mod_inverse.
#[local] Existing Instance ex_mod_inverse_spec.
#[local] Existing Instance ex_stream.
#[local] Existing Instance ex_stream_spec.
#[local] Existing Instance ex_merge_join.

Definition ux_datas (b : N) : CoinbaseData := if (b =? 2)%N then ux_data 10 2 else ux_data 9 3.

Lemma ux_chain_state : chain_state ux_processor ux_inputs_of ux_set {[ 7%N ]}.
Proof. split; [apply ux_history|apply ux_entries]. Qed.

Lemma ux_chain_coinbase : chain_coinbase_ok ux_processor ux_inputs_of 100 {[ 7%N ]} ux_parent_coinbase.
Proof. split; [reflexivity|split; reflexivity|by rewrite elem_of_singleton|vm_compute; discriminate|apply ux_created; vm_compute; reflexivity]. Qed.

Lemma ux_ordered : consensus_ordered_mergeset_without_selected_parent ux_store ux_ghostdag = Ok [4%N].
Proof. vm_compute. reflexivity. Qed.

Lemma ux_known : Forall (block_known ux_processor ux_inputs_of 100 (ux_bodies ux_tip) ux_datas) [2%N; 4%N].
Proof. apply Forall_cons_2; [split; [reflexivity|apply ux_parent_body]|apply Forall_cons_2; [split; [reflexivity|apply ux_merged_body]|apply Forall_nil_2]]. Qed.

Lemma ux_block_envs : block_envs (ux_bodies ux_tip) (fun _ _ => ux_env) 0 [2%N; 4%N].
Proof. intros [|[|j]] b Hb; [| |done]; injection Hb as <-; [apply ux_envs_spend|apply ux_envs_nil]. Qed.

Lemma ux_value : value ux_set + zsum (List.map out_value (tx_outputs ux_parent_coinbase)) < U64.
Proof. vm_compute. reflexivity. Qed.

Lemma utxo_state_correct_witness : exists ls U' ctx',
  merges tx_validator 100 (ux_bodies ux_tip) 0 (after_tx ux_set (mk_vtx ux_parent_coinbase []) 100) [2%N; 4%N] ls U' /\
  calculate_utxo_state ux_processor (fun _ _ => ux_env) (fun _ => BLeaf) (utxo_context_new ux_ghostdag ux_mh) (view_of ux_set) 100 = Ok ctx' /\
  all_accepted ls = [0%N] /\ value U' = 600.
Proof.
  destruct (utxo_state_correct ux_processor ux_inputs_of 100 (ux_bodies ux_tip) ux_datas ux_set {[ 7%N ]} ux_mh ux_ghostdag ux_parent_coinbase [4%N] (fun _ _ => ux_env) (fun _ => BLeaf))
    as (ls & U' & ctx' & Hm & _ & Hrun & Hd & _ & Hids & _ & _ & Hval & _).
  - exact ux_validator_ok.
  - vm_compute. split; [discriminate|reflexivity].
  - exact ux_chain_state.
  - exact ux_commits.
  - reflexivity.
  - exact ux_chain_coinbase.
  - exact ux_ordered.
  - apply NoDup_cons_2; [by intros [=]%list_elem_of_singleton|apply NoDup_singleton].
  - exact ux_known.
  - exact ux_block_envs.
  - exact ux_value.
  - exists ls, U', ctx'. split; [exact Hm|]. split; [exact Hrun|].
    assert (Hctx : ctx' = ux_context) by (unfold ux_context, ux_context_of; change (ux_processor_of ux_tip) with ux_processor; rewrite Hrun; reflexivity).
    rewrite Hctx in Hids, Hd. split; [|rewrite <-Hd; vm_compute; reflexivity].
    apply (f_equal (fun l => drop 1 l)) in Hids. transitivity (drop 1 (uc_accepted_tx_ids ux_context)); [symmetry; exact Hids|vm_compute; reflexivity].
Defined.
