(* ===== verification/UtxoStateVerify.v ===== *)
(** * Verifying the UTXO state of a block: properties

    [verify_expected_utxo_state] accepts a block exactly under the five conditions of its
    documentation, and the script checks that merging skips for the selected parent would
    all succeed. *)

From Stdlib Require Import ZArith Lia Bool SpecFloat Permutation.
From stdpp Require Import base gmap numbers list.
From S2P Require Import Prelude Uint UintLemmas Tx Utxo UtxoProps Header Hashing MerkleProps GhostdagStore Difficulty ScriptEngine ScriptSafety Mass TxValidator TxValidatorLemmas TxValidatorProps U3072 U3072Lemmas UtxoTotals MuHash MuHashProps Coinbase CoinbaseProps Body MergesetOrder Pruning UtxoState UtxoStateValid UtxoStateMerge ScriptProps UtxoExample UtxoStateProps.

#[local] Open Scope Z_scope.

(** ** Selecting everything *)

Section All.
Context `{CS : CryptoSpec} `{ElementStream} (v : TransactionValidator).

Lemma selects_length flags U pov i txs l : selects v flags U pov i txs l -> (length l <= length txs)%nat.
Proof using. induction 1; cbn [length]; lia. Qed.

Lemma selects_all flags U pov i txs l : selects v flags U pov i txs l -> (length txs <= length l)%nat -> Forall (fun tx => exists vt, valid_in v flags U pov tx vt) txs.
Proof using.
  induction 1 as [|i tx txs vt l Hv Hs IH|i tx txs l Hn Hs IH]; intros Hlen; cbn [length] in Hlen; [constructor|constructor; [by exists vt|apply IH; lia]|].
  apply selects_length in Hs. lia.
Qed.

Lemma accepted_skip tx pov fee : accepted_spend v FlagFull tx pov fee -> accepted_spend v FlagSkipScriptChecks tx pov fee.
Proof using. intros [? ? ? ? ? _]. by split. Qed.

Lemma all_selected U pov txs : forall i, Forall (fun tx => exists vt, valid_in v FlagFull U pov tx vt) txs ->
  exists l, selects v FlagFull U pov i txs l /\ selects v FlagSkipScriptChecks U pov i txs l /\ length l = length txs.
Proof using.
  induction txs as [|tx txs IH]; intros i Hall; [exists []; split_and!; [constructor|constructor|done]|]. apply Forall_cons in Hall as [[vt Hvt] Hall].
  destruct (IH (S i) Hall) as (l & Hf & Hs & Hl). exists ((vt, Z.of_nat i mod U32) :: l). split_and!; [by constructor| |cbn; lia].
  constructor; [|done]. destruct Hvt as [? ? Ha]. split; [done|done|by apply accepted_skip].
Qed.

(** Maturity and locks only improve with the score. *)
Lemma accepted_later flags tx score pov fee : score <= pov -> accepted_spend v flags tx score fee -> accepted_spend v flags tx pov fee.
Proof using.
  intros Hle [Hm Ha Hf Hc Hu Hs]. split; try done.
  - eapply Forall_impl; [exact Hm|]. unfold mature. intros p Hp Hcb. specialize (Hp Hcb). lia.
  - eapply Forall_impl; [exact Hu|]. unfold unlocked. intros p Hp. lia.
Qed.
End All.

Section Verify.
Context {R St : Type} `{GhostdagStoreReader St} `{MergeJoin} `{CS : CryptoSpec} `{ElementStreamSpec} `{ModInverseSpec} (self : VirtualStateProcessor R St).
Let v := vp_transaction_validator self.
Context (inputs_of : N -> list TransactionOutpoint).
Hypothesis Hv : validator_ok v.

Lemma body_txs_ok pov txs data : merged_body_ok self inputs_of pov txs data -> Forall (fun tx => tx_ok v tx /\ is_coinbase tx = false) (drop 1 txs).
Proof using. intros Hb. eapply Forall_impl; [apply (mb_txs _ _ _ _ _ Hb)|]. intros tx [Hok Hcb]. split; [apply (mt_ok _ _ _ _ Hok)|done]. Qed.

(** The transactions of a block verified against a set stay valid for its children. *)
Lemma valid_in_child U accepted cb score pov tx vt : chain_state self inputs_of U accepted -> chain_coinbase_ok self inputs_of pov accepted cb -> score <= pov ->
  valid_in v FlagFull U score tx vt -> valid_in v FlagFull (after_tx U (mk_vtx cb []) pov) pov tx vt.
Proof using.
  intros [Hh _] Hcb Hle [Ht He Ha]. split; [done| |by eapply accepted_later]. eapply Forall2_impl; [exact He|]. intros i e Hi. cbv beta in *. rewrite after_tx_keep; [done| |].
  - intros Heq. apply (cc_new _ _ _ _ _ Hcb). change (tx_id cb) with (vtx_id (mk_vtx cb [])). rewrite <-Heq. apply (hi_ids _ _ _ Hh). eauto.
  - rewrite no_spends. apply not_elem_of_nil.
Qed.

Lemma parallel_selects envs txs view U pov flags data : (forall o, view o = U !! o) -> map_Forall (entry_ok v) U -> 0 <= pov < 2 ^ 62 -> flags <> FlagSkipMassCheck ->
  merged_body_ok self inputs_of pov txs data -> envs_ok envs 1 (drop 1 txs) ->
  exists l, validate_transactions_in_parallel self envs txs view pov flags = Ok l /\ selects v flags U pov 1 (drop 1 txs) l.
Proof using Hv CS.
  intros Hview HU Hpov Hfl Hb Henv. unfold validate_transactions_in_parallel. by apply (filter_valid_selects self Hv envs view U pov flags); try done; eapply body_txs_ok.
Qed.

(** ** The five conditions *)

(** What the stores say about the block of [header], whose context is [ctx]. *)
Record verify_inputs (header : Header) (ctx : UtxoProcessingContext) (parent_root : N) (txs : list Transaction) (cb : Transaction) (data : CoinbaseData) (non_daa : gset N)
    (expected : CoinbaseTransactionTemplate) (reply : PruningPointReply) : Prop := mk_verify_inputs {
  vr_parent : exists h, vp_headers_store self (uc_selected_parent ctx) = Ok h /\ h_accepted_id_merkle_root h = parent_root;
  vr_txs : vp_block_transactions_store self (h_hash header) = Ok txs;
  vr_coinbase : txs !! 0%nat = Some cb;
  vr_data : deserialize_coinbase_payload (vp_coinbase_manager self) (tx_payload cb) = Ok data;
  vr_non_daa : vp_daa_excluded_store self (h_hash header) = Ok non_daa;
  vr_expected : expected_coinbase_transaction hash_fn (vp_coinbase_manager self) (h_daa_score header) (cd_miner_data data) (uc_ghostdag_data ctx) (uc_mergeset_rewards ctx) non_daa = Ok expected;
  vr_reply : expected_header_pruning_point (vp_fuel self) (vp_pruning_point_manager self) (to_compact (uc_ghostdag_data ctx)) = Ok reply
}.

Record utxo_valid (header : Header) (U : UtxoCollection) (accepted_ids : list N) (parent_root : N) (txs : list Transaction) (cb : Transaction)
    (expected : CoinbaseTransactionTemplate) (reply : PruningPointReply) : Prop := mk_utxo_valid {
  uv_commitment : h_utxo_commitment header = utxo_commitment hash_fn U;
  uv_accepted : h_accepted_id_merkle_root header = merkle_hash hash_fn parent_root (merkle_ref hash_fn accepted_ids);
  uv_coinbase : tx_hash hash_fn cb = tx_hash hash_fn (ct_tx expected);
  uv_pruning : h_pruning_point header = pr_pruning_point reply;
  uv_txs : Forall (fun tx => exists vt, valid_in v FlagFull U (h_daa_score header) tx vt) (drop 1 txs)
}.

Lemma verify_decided U0 ctx U accepted header parent_root txs cb data non_daa expected reply envs : merge_state self inputs_of U0 ctx U accepted -> 0 <= h_daa_score header < 2 ^ 62 ->
  verify_inputs header ctx parent_root txs cb data non_daa expected reply -> merged_body_ok self inputs_of (h_daa_score header) txs data -> envs_ok envs 1 (drop 1 txs) ->
  (exists ctx', verify_expected_utxo_state self envs ctx (view_of U0) header = Ok ctx' /\ utxo_valid header U (uc_accepted_tx_ids ctx) parent_root txs cb expected reply /\
     mu_commits hash_fn (uc_multiset_hash ctx') U /\ uc_pruning_sample_from_pov ctx' = Some (pr_pruning_sample reply)) \/
  (exists e, verify_expected_utxo_state self envs ctx (view_of U0) header = Err e /\ ~ utxo_valid header U (uc_accepted_tx_ids ctx) parent_root txs cb expected reply).
Proof using All.
  intros Hms Hscore [(h & Hh & Hroot) Htxs Hcb Hdata Hnd Hexp Hrep] Hbody Henv. unfold verify_expected_utxo_state.
  destruct (finalize_commits hash_fn _ _ (ms_hash _ _ _ _ _ _ Hms)) as (m' & -> & Hm'). cbn [unwrap_res obind].
  destruct (N.eqb_spec (utxo_commitment hash_fn U) (h_utxo_commitment header)) as [Hc|Hc]; cbn [negb]; [|right; eexists; split; [done|]; intros [? _ _ _ _]; congruence].
  unfold calc_accepted_id_merkle_root. rewrite Hh. cbn [unwrap_res obind]. rewrite calc_merkle_root_spec. cbn [obind]. rewrite Hroot.
  destruct (N.eqb_spec (merkle_hash hash_fn parent_root (merkle_ref hash_fn (uc_accepted_tx_ids ctx))) (h_accepted_id_merkle_root header)) as [Hr|Hr]; cbn [negb];
    [|right; eexists; split; [done|]; intros [_ ? _ _ _]; congruence].
  rewrite Htxs. cbn [unwrap_res obind]. rewrite Hcb. cbn [unwrap obind]. rewrite Hnd. cbn [unwrap_res obind]. unfold verify_coinbase_transaction. rewrite Hdata. cbn [unwrap_res obind]. rewrite Hexp. cbn [unwrap_res obind].
  destruct (N.eqb_spec (tx_hash hash_fn cb) (tx_hash hash_fn (ct_tx expected))) as [Ht|Ht]; cbn [negb obind]; [|right; eexists; split; [done|]; intros [_ _ ? _ _]; congruence].
  unfold verify_header_pruning_point. rewrite Hrep. cbn [unwrap_res obind].
  destruct (N.eqb_spec (pr_pruning_point reply) (h_pruning_point header)) as [Hp|Hp]; cbn [negb obind]; [|right; eexists; split; [done|]; intros [_ _ _ ? _]; congruence].
  destruct (parallel_selects envs txs (composed (view_of U0) (uc_mergeset_diff ctx)) U (h_daa_score header) FlagFull data) as (l & -> & Hsel); try done.
  { intros o. rewrite <-(ms_diff _ _ _ _ _ _ Hms). symmetry. apply apply_diff_view. }
  { apply (ms_entries _ _ _ _ _ _ Hms). }
  cbn [unwrap_res obind]. destruct (Nat.ltb_spec (length l) (length txs - 1)) as [Hlt|Hge].
  - right. eexists. split; [done|]. intros [_ _ _ _ Hall]. destruct (all_selected v U _ _ 1 Hall) as (l' & Hl' & _ & Hlen). rewrite (selects_unique _ _ _ _ _ _ _ _ Hsel Hl'), Hlen, length_drop in Hlt. lia.
  - left. eexists. split; [done|]. split; [|done]. split; try done. apply (selects_all v _ _ _ _ _ l Hsel). rewrite length_drop. lia.
Qed.
End Verify.

(** C4: After the UTXO state of a block has been calculated, its verification returns
    without panicking, and accepts exactly when the header commits to the new UTXO set and
    to the accepted ids on top of the selected parent's, the coinbase transaction hashes as
    the expected one, the pruning point is the expected one, and every other transaction of
    the block is valid against the new set. *)
Theorem utxo_verification_exact {R St : Type} `{GhostdagStoreReader St} `{MergeJoin} `{CS : CryptoSpec} `{ElementStreamSpec} `{ModInverseSpec} (self : VirtualStateProcessor R St)
    (inputs_of : N -> list TransactionOutpoint) (header : Header) (bodies : N -> list Transaction) (data : N -> CoinbaseData)
    (U : UtxoCollection) (accepted : gset N) (mh : MuHash) (D : GhostdagData) (scb : Transaction) (rest : list N) (envs : nat -> nat -> ValidationEnv) (envs' : nat -> ValidationEnv) (bs : nat -> bracketing)
    (ctx : UtxoProcessingContext) (parent_root : N) (txs : list Transaction) (cb : Transaction) (cdata : CoinbaseData) (non_daa : gset N) (expected : CoinbaseTransactionTemplate) (reply : PruningPointReply) :
  let sp := gd_selected_parent D in
  let score := h_daa_score header in
  validator_ok (vp_transaction_validator self) -> 0 <= score < 2 ^ 62 ->
  chain_state self inputs_of U accepted -> mu_commits hash_fn mh U ->
  bodies sp !! 0%nat = Some scb -> chain_coinbase_ok self inputs_of score accepted scb ->
  consensus_ordered_mergeset_without_selected_parent (vp_ghostdag_store self) D = Ok rest ->
  Forall (block_known self inputs_of score bodies data) (sp :: rest) -> block_envs bodies envs 0 (sp :: rest) ->
  value U + zsum (List.map out_value (tx_outputs scb)) < U64 ->
  calculate_utxo_state self envs bs (utxo_context_new D mh) (view_of U) score = Ok ctx ->
  verify_inputs self header ctx parent_root txs cb cdata non_daa expected reply -> merged_body_ok self inputs_of score txs cdata -> envs_ok envs' 1 (drop 1 txs) ->
  ((exists ctx', verify_expected_utxo_state self envs' ctx (view_of U) header = Ok ctx') <->
    utxo_valid self header (apply_diff U (uc_mergeset_diff ctx)) (uc_accepted_tx_ids ctx) parent_root txs cb expected reply) /\
  ((exists ctx', verify_expected_utxo_state self envs' ctx (view_of U) header = Ok ctx') \/ (exists e, verify_expected_utxo_state self envs' ctx (view_of U) header = Err e)).
Proof.
  intros sp score Hv Hscore Hst Hmu Hcb0 Hcb Hord Hkn Henv Hval Hcalc Hin Hbody Henv'.
  destruct (calculate_spec self inputs_of score bodies data Hv Hscore U accepted mh D scb rest envs bs Hst Hmu Hcb0 Hcb Hord Hkn Henv Hval) as (ctx1 & ls & ctx' & U' & Hrun & _ & _ & _ & _ & [_ Hms _ _ _ _ _ _]).
  rewrite Hcalc in Hrun. apply Ok_inj in Hrun as <-. rewrite (ms_diff _ _ _ _ _ _ Hms).
  destruct (verify_decided self inputs_of Hv U ctx U' _ header parent_root txs cb cdata non_daa expected reply envs' Hms Hscore Hin Hbody Henv') as [(ctx' & Hok & Hvalid & _)|(e & He & Hn)].
  - split; [|left; eauto]. split; [done|eauto].
  - split; [|right; eauto]. split; [|done]. intros (ctx' & Hok). congruence.
Qed.

(** C18: Skipping the script checks of the selected parent changes nothing: once a block has
    been verified against its own UTXO set, its transactions are validated with and without
    script checks alike when a child merges it, and none is rejected. *)
Theorem selected_parent_scripts_skipped {R St : Type} `{GhostdagStoreReader St} `{MergeJoin} `{CS : CryptoSpec} `{ElementStreamSpec} `{ModInverseSpec} (self : VirtualStateProcessor R St)
    (inputs_of : N -> list TransactionOutpoint) (U : UtxoCollection) (accepted : gset N) (score pov : Z) (cb : Transaction) (txs : list Transaction) (data : CoinbaseData)
    (envs envs' envs'' : nat -> ValidationEnv) (verified : list (ValidatedTransaction * Z)) :
  validator_ok (vp_transaction_validator self) -> 0 <= score <= pov -> pov < 2 ^ 62 ->
  chain_state self inputs_of U accepted -> chain_coinbase_ok self inputs_of pov accepted cb ->
  merged_body_ok self inputs_of score txs data -> merged_body_ok self inputs_of pov txs data ->
  envs_ok envs 1 (drop 1 txs) -> envs_ok envs' 1 (drop 1 txs) -> envs_ok envs'' 1 (drop 1 txs) ->
  validate_transactions_in_parallel self envs txs (view_of U) score FlagFull = Ok verified -> (length txs - 1 <= length verified)%nat ->
  let child := view_of (after_tx U (mk_vtx cb []) pov) in
  exists l, validate_transactions_in_parallel self envs' txs child pov FlagSkipScriptChecks = Ok l /\
    validate_transactions_in_parallel self envs'' txs child pov FlagFull = Ok l /\ length l = (length txs - 1)%nat.
Proof.
  intros Hv [Hs0 Hle] Hpov Hst Hcb Hbs Hbp He He' He'' Hver Hlen child. pose proof (cs_entries _ _ _ _ Hst) as HU.
  destruct (parallel_selects self inputs_of Hv envs txs (view_of U) U score FlagFull data (fun o => eq_refl) HU ltac:(lia) ltac:(done) Hbs He) as (l0 & Hl0 & Hsel).
  rewrite Hver in Hl0. apply Ok_inj in Hl0 as <-. pose proof (selects_all _ _ _ _ _ _ _ Hsel ltac:(rewrite length_drop; lia)) as Hall.
  assert (Hall' : Forall (fun tx => exists vt, valid_in (vp_transaction_validator self) FlagFull (after_tx U (mk_vtx cb []) pov) pov tx vt) (drop 1 txs)).
  { eapply Forall_impl; [exact Hall|]. intros tx [vt Hvt]. exists vt. by eapply valid_in_child. }
  assert (HU' : map_Forall (entry_ok (vp_transaction_validator self)) (after_tx U (mk_vtx cb []) pov)) by (apply after_tx_Forall; [done|apply (cc_creates _ _ _ _ _ Hcb)]).
  destruct (all_selected _ _ _ _ 1 Hall') as (l & Hf & Hsk & Hl). exists l.
  destruct (parallel_selects self inputs_of Hv envs' txs child _ pov FlagSkipScriptChecks data (fun o => eq_refl) HU' ltac:(lia) ltac:(done) Hbp He') as (l1 & -> & Hs1).
  destruct (parallel_selects self inputs_of Hv envs'' txs child _ pov FlagFull data (fun o => eq_refl) HU' ltac:(lia) ltac:(done) Hbp He'') as (l2 & -> & Hs2).
  rewrite (selects_unique _ _ _ _ _ _ _ _ Hs1 Hsk), (selects_unique _ _ _ _ _ _ _ _ Hs2 Hf). rewrite length_drop in Hl. done.
Qed.

(** ** Instances *)

#[local] Existing Instance toy_crypto.
#[local] Existing Instance toy_spec.
#[local] Existing Instance ex_mod_inverse.
#[local] Existing Instance ex_mod_inverse_spec.
#[local] Existing Instance ex_stream.
#[local] Existing Instance ex_stream_spec.
#[local] Existing Instance ex_merge_join.

Definition ok_or {E A} (default : A) (m : outcome E A) : A := match m with Ok a => a | _ => default end.

Lemma ux_calculated : calculate_utxo_state ux_processor (fun _ _ => ux_env) (fun _ => BLeaf) (utxo_context_new ux_ghostdag ux_mh) (view_of ux_set) 100 = Ok ux_context.
Proof. vm_compute. reflexivity. Qed.

Definition ux_verified : UtxoProcessingContext := ok_or ux_context (verify_expected_utxo_state ux_processor (fun _ => ux_env) ux_context (view_of ux_set) ux_block).
Lemma ux_verifies : verify_expected_utxo_state ux_processor (fun _ => ux_env) ux_context (view_of ux_set) ux_block = Ok ux_verified.
Proof. vm_compute. reflexivity. Qed.

Lemma ux_expected_ok : expected_coinbase_transaction hash_fn cx_manager 100 (cd_miner_data (ux_data 12 5)) ux_ghostdag (uc_mergeset_rewards ux_context) ∅ = Ok ux_expected.
Proof. vm_compute. reflexivity. Qed.

Lemma ux_verify_inputs : verify_inputs ux_processor ux_block ux_context 33%N ux_tip (ct_tx ux_expected) (ux_data 12 5) ∅ ux_expected (mk_reply 1%N 1%N).
Proof. split; [eexists; split; reflexivity|reflexivity|reflexivity|vm_compute; reflexivity|reflexivity| |reflexivity]. rewrite <-ux_expected_ok. vm_compute. reflexivity. Qed.

Lemma utxo_verification_exact_witness :
  utxo_valid ux_processor ux_block (apply_diff ux_set (uc_mergeset_diff ux_context)) (uc_accepted_tx_ids ux_context) 33%N ux_tip (ct_tx ux_expected) ux_expected (mk_reply 1%N 1%N).
Proof.
  apply (utxo_verification_exact ux_processor ux_inputs_of ux_block (ux_bodies ux_tip) ux_datas ux_set {[ 7%N ]} ux_mh ux_ghostdag ux_parent_coinbase [4%N] (fun _ _ => ux_env) (fun _ => ux_env)
    (fun _ => BLeaf) ux_context 33%N ux_tip (ct_tx ux_expected) (ux_data 12 5) ∅ ux_expected (mk_reply 1%N 1%N)).
  - exact ux_validator_ok.
  - vm_compute. split; [discriminate|reflexivity].
  - exact ux_chain_state.
  - exact ux_commits.
  - reflexivity.
  - exact ux_chain_coinbase.
  - exact ux_ordered.
  - exact ux_known.
  - exact ux_block_envs.
  - exact ux_value.
  - exact ux_calculated.
  - exact ux_verify_inputs.
  - exact ux_tip_body.
  - apply ux_envs_nil.
  - exists ux_verified. exact ux_verifies.
Defined.

Definition ux_parent_txs : list (ValidatedTransaction * Z) :=
  ok_or [] (validate_transactions_in_parallel ux_processor (fun _ => ux_env) (ux_bodies ux_tip 2%N) (view_of ux_set) 100 FlagFull).

Lemma selected_parent_scripts_skipped_witness : exists l,
  validate_transactions_in_parallel ux_processor (fun _ => ux_env) (ux_bodies ux_tip 2%N) (view_of (after_tx ux_set (mk_vtx ux_parent_coinbase []) 100)) 100 FlagSkipScriptChecks = Ok l /\
  length l = 1%nat.
Proof.
  destruct (selected_parent_scripts_skipped ux_processor ux_inputs_of ux_set {[ 7%N ]} 100 100 ux_parent_coinbase (ux_bodies ux_tip 2%N) (ux_data 10 2)
    (fun _ => ux_env) (fun _ => ux_env) (fun _ => ux_env) ux_parent_txs) as (l & Hl & _ & Hlen).
  - exact ux_validator_ok.
  - vm_compute. split; discriminate.
  - reflexivity.
  - exact ux_chain_state.
  - exact ux_chain_coinbase.
  - exact ux_parent_body.
  - exact ux_parent_body.
  - apply ux_envs_spend.
  - apply ux_envs_spend.
  - apply ux_envs_spend.
  - vm_compute. reflexivity.
  - apply Nat.leb_le. vm_compute. reflexivity.
  - exists l. split; [exact Hl|exact Hlen].
Defined.
