(* ===== verification/UtxoSupply.v ===== *)
(** * The supply along the selected chain

    The blocks of a selected chain, each processed and verified on top of the previous one.
    Every point of the chain satisfies the invariant that processing needs, its multiset hash
    commits to its UTXO set, and the amount in circulation never exceeds what the subsidies
    of the merged blocks have minted. *)

From Stdlib Require Import ZArith Lia Bool SpecFloat Permutation.
From stdpp Require Import base gmap numbers list.
From S2P Require Import Prelude Uint UintLemmas Tx Utxo UtxoProps Header Hashing HashingProps MerkleProps GhostdagStore Difficulty ScriptEngine ScriptSafety Mass TxValidator TxValidatorLemmas TxValidatorProps U3072 U3072Lemmas UtxoTotals MuHash MuHashProps Coinbase CoinbaseProps Body MergesetOrder UtxoState UtxoStateValid UtxoStateMerge ScriptProps UtxoExample UtxoStateProps UtxoStateVerify.

#[local] Open Scope Z_scope.

Definition outputs_value (tx : Transaction) : Z := zsum (List.map out_value (tx_outputs tx)).

(** A chain block: its coinbase is not yet part of its UTXO set. *)
Record ChainPoint := mk_point {
  cp_block : N;
  cp_blue_score : Z;
  cp_coinbase : Transaction;
  cp_utxo : UtxoCollection;
  cp_accepted : gset N;
  cp_multiset : MuHash
}.

(** ** Rewards of a mergeset *)

Lemma mergeset_reward_le rewards non_daa gd (r : N -> Z) : rewards_nonneg rewards -> (forall h x, rewards !! h = Some x -> reward_value x <= r h) -> (forall h, h ∈ unordered_mergeset gd -> is_Some (rewards !! h)) ->
  mergeset_reward rewards non_daa gd <= zsum (List.map r (unordered_mergeset gd)).
Proof.
  intros Hnn Hr Hk. unfold mergeset_reward, unordered_mergeset. rewrite List.map_app, zsum_app. apply Z.add_le_mono; apply zsum_le; intros h Hh.
  - unfold blue_reward. destruct (Hk h) as [x Hx]; [apply elem_of_app; by left|]. rewrite Hx. pose proof (Hr h x Hx). pose proof (Hnn h x Hx). unfold reward_value in *. case_bool_decide; lia.
  - unfold red_reward. destruct (Hk h) as [x Hx]; [apply elem_of_app; by right|]. rewrite Hx. pose proof (Hr h x Hx). pose proof (Hnn h x Hx). unfold reward_value in *. case_bool_decide; lia.
Qed.

Section Rewards.
Context `{CS : CryptoSpec} `{ElementStream} (v : TransactionValidator) (pov : Z) (bodies : N -> list Transaction) (data : N -> CoinbaseData).

Lemma merges_length i U bs ls U' : merges v pov bodies i U bs ls U' -> length ls = length bs.
Proof using. induction 1; cbn; lia. Qed.

(** Accepted ids are ids of transactions of the merged bodies. *)
Lemma merges_ids i U bs ls U' id : merges v pov bodies i U bs ls U' -> id ∈ all_accepted ls -> exists b tx, b ∈ bs /\ tx ∈ drop 1 (bodies b) /\ tx_id tx = id.
Proof using.
  induction 1 as [|i U b bs l ls U' Hs Hm IH]; unfold all_accepted in *; cbn [concat List.map]; [intros []%not_elem_of_nil|].
  rewrite List.map_app, elem_of_app. intros [Hl|Hr].
  - apply list_elem_of_In, in_map_iff in Hl as (p & <- & Hp%list_elem_of_In). apply selects_valid in Hs. rewrite Forall_forall in Hs. destruct (Hs p Hp) as [Htx _]. exists b, (v_tx (vt_populated p.1)). split; [left|done].
  - destruct (IH Hr) as (b' & tx & Hb & Htx). exists b', tx. split; [by right|done].
Qed.

Lemma merges_fees i U bs ls U' : merges v pov bodies i U bs ls U' -> Forall (fun l => 0 <= fees_of l) ls.
Proof using.
  induction 1 as [|i U b bs l ls U' Hs Hm IH]; constructor; [|done]. apply zsum_nonneg, Forall_map. apply selects_valid in Hs. eapply Forall_impl; [exact Hs|].
  intros p [_ [_ _ Ha]]. apply (as_fee _ _ _ _ _ Ha).
Qed.

(** The subsidies and the fees of the merged blocks. *)
Lemma rewards_sum bs ls rewards : length ls = length bs -> rewards_for data bs ls rewards ->
  zsum (List.map (fun h => match rewards !! h with Some x => reward_value x | None => 0 end) bs) = zsum (List.map (fun b => cd_subsidy (data b)) bs) + all_fees ls.
Proof using.
  unfold all_fees. revert ls. induction bs as [|b bs IH]; intros [|l ls] Hlen Hr; try done. cbn [List.map zsum]. rewrite (Hr 0%nat b l eq_refl eq_refl). change (reward_value (block_reward (data b) l)) with (cd_subsidy (data b) + fees_of l).
  rewrite (IH ls); [lia|cbn in Hlen; lia|]. intros j c l' Hj Hl. by apply (Hr (S j)).
Qed.
End Rewards.

(** ** Steps of the chain *)

Section Chain.
Context {R St : Type} `{GhostdagStoreReader St} `{MergeJoinSpec} `{CS : CryptoSpec} `{ElementStreamSpec} `{ModInverseSpec} (self : VirtualStateProcessor R St).
Let v := vp_transaction_validator self.
(** What transaction ids stand for: the inputs, and the blue score in the payload of a
    coinbase; the transactions and the payload data of each block. *)
Context (inputs_of : N -> list TransactionOutpoint) (blue_score_of : N -> option Z) (bodies : N -> list Transaction) (data : N -> CoinbaseData).

Record point_ok (p : ChainPoint) : Prop := mk_point_ok {
  po_state : chain_state self inputs_of (cp_utxo p) (cp_accepted p);
  po_commits : mu_commits hash_fn (cp_multiset p) (cp_utxo p);
  po_scores : forall id s, id ∈ cp_accepted p -> blue_score_of id = Some s -> s < cp_blue_score p
}.

(** The coinbase of a chain block. *)
Record coinbase_body_ok (pov : Z) (p : ChainPoint) : Prop := mk_coinbase_body_ok {
  cy_body : bodies (cp_block p) !! 0%nat = Some (cp_coinbase p);
  cy_coinbase : is_coinbase (cp_coinbase p) = true;
  cy_inputs : tx_inputs (cp_coinbase p) = [] /\ inputs_of (tx_id (cp_coinbase p)) = [];
  cy_score : blue_score_of (tx_id (cp_coinbase p)) = Some (cp_blue_score p);
  cy_index : (N.of_nat (length (tx_outputs (cp_coinbase p))) <= 4294967296)%N;
  cy_creates : Forall (fun q => entry_ok v q.1 q.2) (tx_creates (mk_vtx (cp_coinbase p) []) pov)
}.

(** The coinbase transaction that the block of [header] should have, given its payload. *)
Definition expected_for (header : Header) (ctx : UtxoProcessingContext) (cb : Transaction) (t : CoinbaseTransactionTemplate) : Prop :=
  exists cdata non_daa, deserialize_coinbase_payload (vp_coinbase_manager self) (tx_payload cb) = Ok cdata /\ vp_daa_excluded_store self (h_hash header) = Ok non_daa /\
    expected_coinbase_transaction hash_fn (vp_coinbase_manager self) (h_daa_score header) (cd_miner_data cdata) (uc_ghostdag_data ctx) (uc_mergeset_rewards ctx) non_daa = Ok t.

(** A block on top of [p] that has been processed and verified; the merged blocks minted
    [minted]. *)
Record extends (p p' : ChainPoint) (minted : Z) : Prop := mk_extends {
  ex_run : exists D header blues envs envs' bs ctx ctx' txs,
    gd_selected_parent D = cp_block p /\ gd_mergeset_blues D = cp_block p :: blues /\ NoDup (unordered_mergeset D) /\ cp_blue_score p < gd_blue_score D /\
    0 <= h_daa_score header < 2 ^ 62 /\ coinbase_body_ok (h_daa_score header) p /\
    Forall (fun b => block_known self inputs_of (h_daa_score header) bodies data b /\ 0 <= cd_subsidy (data b) /\
      Forall (fun tx => blue_score_of (tx_id tx) = None) (drop 1 (bodies b))) (unordered_mergeset D) /\
    (exists rest, consensus_ordered_mergeset_without_selected_parent (vp_ghostdag_store self) D = Ok rest /\ block_envs bodies envs 0 (cp_block p :: rest)) /\
    calculate_utxo_state self envs bs (utxo_context_new D (cp_multiset p)) (view_of (cp_utxo p)) (h_daa_score header) = Ok ctx /\
    verify_expected_utxo_state self envs' ctx (view_of (cp_utxo p)) header = Ok ctx' /\
    vp_block_transactions_store self (h_hash header) = Ok txs /\ txs !! 0%nat = Some (cp_coinbase p') /\
    tx_wf (cp_coinbase p') /\
    (forall t, expected_for header ctx (cp_coinbase p') t ->
       tx_wf (ct_tx t) /\ ~ collision hash_fn TransactionHash [write_transaction flags_FULL (cp_coinbase p'); write_transaction flags_FULL (ct_tx t)]) /\
    cp_block p' = h_hash header /\ cp_blue_score p' = gd_blue_score D /\ cp_utxo p' = apply_diff (cp_utxo p) (uc_mergeset_diff ctx) /\
    cp_accepted p' = list_to_set (uc_accepted_tx_ids ctx) ∪ cp_accepted p /\ cp_multiset p' = uc_multiset_hash ctx' /\
    minted = zsum (List.map (fun b => cd_subsidy (data b)) (unordered_mergeset D))
}.

Inductive chain : ChainPoint -> ChainPoint -> Z -> Prop :=
| chain_start p : chain p p 0
| chain_next p0 p p' total minted : chain p0 p total -> extends p p' minted -> chain p0 p' (total + minted).

(** What verification has checked. *)
Lemma verify_inv envs ctx view header ctx' : verify_expected_utxo_state self envs ctx view header = Ok ctx' ->
  exists h m txs cb t, muhash_finalize hash_fn (uc_multiset_hash ctx) = Ok (h, m) /\ uc_multiset_hash ctx' = m /\
    vp_block_transactions_store self (h_hash header) = Ok txs /\ txs !! 0%nat = Some cb /\ expected_for header ctx cb t /\ tx_hash hash_fn cb = tx_hash hash_fn (ct_tx t).
Proof using.
  unfold verify_expected_utxo_state. intros Hrun. apply bind_Ok in Hrun as ([h m] & Hfin & Hrest). rewrite unwrap_res_Ok in Hfin. destruct (negb (h =? h_utxo_commitment header)%N); [done|].
  apply bind_Ok in Hrest as (root & _ & Hrest). destruct (negb (root =? h_accepted_id_merkle_root header)%N); [done|].
  apply bind_Ok in Hrest as (txs & Htxs & Hrest). rewrite unwrap_res_Ok in Htxs. apply bind_Ok in Hrest as (cb & Hcb & Hrest). apply unwrap_Ok in Hcb.
  apply bind_Ok in Hrest as (nd & Hnd & Hrest). rewrite unwrap_res_Ok in Hnd. apply bind_Ok in Hrest as ([] & Hver & Hrest). apply bind_Ok in Hrest as (reply & _ & Hrest).
  apply bind_Ok in Hrest as (l & _ & Hrest). destruct (_ <? _)%nat; [done|]. apply Ok_inj in Hrest as <-. unfold verify_coinbase_transaction in Hver.
  apply bind_Ok in Hver as (cdata & Hcd & Hver). rewrite unwrap_res_Ok in Hcd. apply bind_Ok in Hver as (t & Ht & Hver). rewrite unwrap_res_Ok in Ht.
  destruct (N.eqb_spec (tx_hash hash_fn cb) (tx_hash hash_fn (ct_tx t))) as [Heq|]; [|done].
  exists h, m, txs, cb, t. split_and!; try done. unfold expected_for. by exists cdata, nd.
Qed.

Lemma mergeset_with_sp D sp blues rest : gd_mergeset_blues D = sp :: blues -> rest ≡ₚ unordered_mergeset_without_sp D -> sp :: rest ≡ₚ unordered_mergeset D.
Proof using. intros HD ->. unfold unordered_mergeset, unordered_mergeset_without_sp. by rewrite HD. Qed.

(** The rewards of the mergeset: what the blocks minted, and the fees of what was accepted. *)
Lemma rewards_paid pov U0 cbid ctx1 U1 acc sp rest ctx ls U' D non_daa :
  merged self inputs_of pov bodies data U0 cbid 0 ctx1 U1 acc (sp :: rest) ctx ls U' -> uc_mergeset_rewards ctx1 = ∅ ->
  sp :: rest ≡ₚ unordered_mergeset D -> NoDup (sp :: rest) -> Forall (fun b => 0 <= cd_subsidy (data b)) (sp :: rest) ->
  rewards_nonneg (uc_mergeset_rewards ctx) /\
  mergeset_reward (uc_mergeset_rewards ctx) non_daa D <= zsum (List.map (fun b => cd_subsidy (data b)) (unordered_mergeset D)) + all_fees ls.
Proof using.
  intros [Hmg _ _ _ _ Hother Hrw _] Hempty Hperm Hnd Hsub. specialize (Hrw Hnd). pose proof (merges_length _ _ _ _ _ _ _ _ Hmg) as Hlen. pose proof (merges_fees _ _ _ _ _ _ _ _ Hmg) as Hfees.
  assert (Hsome : forall b, b ∈ sp :: rest -> exists l, l ∈ ls /\ uc_mergeset_rewards ctx !! b = Some (block_reward (data b) l)).
  { intros b [j Hj]%list_elem_of_lookup. destruct (lookup_lt_is_Some_2 ls j) as [l Hl]; [apply lookup_lt_Some in Hj; lia|].
    exists l. split; [by eapply list_elem_of_lookup_2|by apply (Hrw j)]. }
  assert (Hnn : rewards_nonneg (uc_mergeset_rewards ctx)).
  { intros b x Hx. destruct (decide (b ∈ sp :: rest)) as [Hin|Hin]; [|rewrite (Hother b Hin), Hempty in Hx; done].
    destruct (Hsome b Hin) as (l & Hl & Hl'). rewrite Hl' in Hx. injection Hx as <-. rewrite Forall_forall in Hsub. rewrite Forall_forall in Hfees. split; [by apply Hsub|by apply Hfees]. }
  split; [done|]. etrans; [apply (mergeset_reward_le _ _ _ (fun h => match uc_mergeset_rewards ctx !! h with Some x => reward_value x | None => 0 end)); [done| |]|].
  - intros h x ->. lia.
  - intros h Hh. rewrite <-Hperm in Hh. destruct (Hsome h Hh) as (l & _ & ->). done.
  - rewrite <-(zsum_perm _ _ (Permutation_map _ Hperm)), (rewards_sum data (sp :: rest) ls _ Hlen Hrw), (zsum_perm _ _ (Permutation_map (fun b => cd_subsidy (data b)) Hperm)). lia.
Qed.

(** A coinbase accepted now is not among the ids accepted before: its payload has the blue
    score of its block. *)
Lemma point_coinbase pov p : point_ok p -> coinbase_body_ok pov p -> chain_coinbase_ok self inputs_of pov (cp_accepted p) (cp_coinbase p).
Proof using.
  intros [_ _ Hs] [_ Hcb Hin Hsc Hidx Hcr]. split; try done. intros Hacc. pose proof (Hs _ _ Hacc Hsc). lia.
Qed.

(** The coinbase that verification accepts pays no more than the rewards. *)
Lemma verified_coinbase header ctx cb t bound : expected_for header ctx cb t -> tx_hash hash_fn cb = tx_hash hash_fn (ct_tx t) -> tx_wf cb -> tx_wf (ct_tx t) ->
  ~ collision hash_fn TransactionHash [write_transaction flags_FULL cb; write_transaction flags_FULL (ct_tx t)] -> rewards_nonneg (uc_mergeset_rewards ctx) ->
  (forall non_daa, mergeset_reward (uc_mergeset_rewards ctx) non_daa (uc_ghostdag_data ctx) <= bound) -> outputs_value cb <= bound.
Proof using.
  intros (cdata & nd & _ & _ & Ht) Hh Hw1 Hw2 Hnc Hnn Hb. apply expected_coinbase_pays in Ht; [|done].
  unfold tx_hash in Hh. apply (equal_or_collision _ _ [write_transaction flags_FULL cb; write_transaction flags_FULL (ct_tx t)]) in Hh as [Heq|Hc]; [|done|left|right; left].
  apply full_encoding_inj in Heq; [|done..]. assert (Ho : tx_outputs cb = tx_outputs (ct_tx t)) by (by injection Heq). unfold outputs_value. rewrite Ho, (py_value _ _ _ _ _ _ _ _ Ht). apply Hb.
Qed.

(** The next point keeps the invariant. *)
Lemma extended_point pov p p' ctx1 ctx ls U' blocks m : point_ok p -> coinbase_body_ok pov p -> cp_blue_score p < cp_blue_score p' ->
  Forall (fun b => Forall (fun tx => blue_score_of (tx_id tx) = None) (drop 1 (bodies b))) blocks -> uc_accepted_tx_ids ctx1 = [tx_id (cp_coinbase p)] ->
  merged self inputs_of pov bodies data (cp_utxo p) (tx_id (cp_coinbase p)) 0 ctx1 (after_tx (cp_utxo p) (mk_vtx (cp_coinbase p) []) pov)
    ({[ tx_id (cp_coinbase p) ]} ∪ cp_accepted p) blocks ctx ls U' ->
  muhash_finalize hash_fn (uc_multiset_hash ctx) = Ok (m, cp_multiset p') -> cp_utxo p' = apply_diff (cp_utxo p) (uc_mergeset_diff ctx) ->
  cp_accepted p' = list_to_set (uc_accepted_tx_ids ctx) ∪ cp_accepted p -> point_ok p'.
Proof using All.
  intros [_ _ Hsc] Hbody Hbs Hnone Hi1 [Hmg Hms _ Hids _ _ _ _] Hfin Hu Hacc. rewrite Hids, Hi1 in Hacc. rewrite (ms_diff _ _ _ _ _ _ Hms) in Hu.
  assert (Heq : cp_accepted p' = list_to_set (all_accepted ls) ∪ ({[ tx_id (cp_coinbase p) ]} ∪ cp_accepted p)) by (rewrite Hacc; cbn [app list_to_set]; by rewrite (comm_L (∪) {[ _ ]} (list_to_set _)), (assoc_L (∪))).
  split.
  - rewrite Hu, Heq. split; [apply (ms_history _ _ _ _ _ _ Hms)|apply (ms_entries _ _ _ _ _ _ Hms)].
  - destruct (finalize_commits hash_fn _ _ (ms_hash _ _ _ _ _ _ Hms)) as (m' & Hm' & Hc). rewrite Hfin in Hm'. injection Hm' as _ <-. by rewrite Hu.
  - intros id s Hid Hs. rewrite Heq, !elem_of_union, elem_of_list_to_set, elem_of_singleton in Hid. destruct Hid as [Hid|[->|Hid]].
    + destruct (merges_ids _ _ _ _ _ _ _ _ _ Hmg Hid) as (b & tx & Hb & Htx & <-). rewrite Forall_forall in Hnone. specialize (Hnone b Hb). rewrite Forall_forall in Hnone. by rewrite (Hnone tx Htx) in Hs.
    + rewrite (cy_score _ _ Hbody) in Hs. injection Hs as <-. lia.
    + specialize (Hsc id s Hid Hs). lia.
Qed.

Lemma extends_minted p p' minted : extends p p' minted -> 0 <= minted.
Proof using.
  intros [(D & header & blues & envs & envs' & bs & ctx & ctx' & txs & _ & _ & _ & _ & _ & _ & Hkn & _ & _ & _ & _ & _ & _ & _ & _ & _ & _ & _ & _ & ->)].
  apply zsum_nonneg, Forall_map. eapply Forall_impl; [exact Hkn|]. by intros b (_ & Hb & _).
Qed.

Lemma extends_step p p' minted : validator_ok v -> point_ok p -> extends p p' minted -> value (cp_utxo p) + outputs_value (cp_coinbase p) < U64 ->
  point_ok p' /\ value (cp_utxo p') + outputs_value (cp_coinbase p') <= value (cp_utxo p) + outputs_value (cp_coinbase p) + minted.
Proof using All.
  intros Hv Hp [(D & header & blues & envs & envs' & bs & ctx & ctx' & txs & Hsp & HD & Hnd & Hbs & Hpov & Hbody & Hkn & (rest & Hord & Henv) & Hcalc & Hver & Htxs & Hcb & Hwf & Hexp &
    _ & Hbs' & Hu & Hacc & Hmh & ->)] Hval.
  pose proof (point_coinbase _ _ Hp Hbody) as Hcc. pose proof (mergeset_with_sp D _ _ _ HD (consensus_perm _ _ _ Hord)) as Hperm.
  rewrite <-Hperm in Hkn, Hnd. rewrite <-Hsp in Hperm, Hkn, Hnd, Henv.
  apply Forall_and in Hkn as [Hkn Hkn']. apply Forall_and in Hkn' as [Hsub Hnone].
  destruct (calculate_spec self inputs_of (h_daa_score header) bodies data Hv Hpov (cp_utxo p) (cp_accepted p) (cp_multiset p) D (cp_coinbase p) rest envs bs
    (po_state _ Hp) (po_commits _ Hp) ltac:(rewrite Hsp; apply (cy_body _ _ Hbody)) Hcc Hord Hkn Henv Hval) as (ctx1 & ls & ctx2 & U' & Hrun & Hi1 & _ & Hr1 & Hg1 & Hm).
  rewrite Hcalc in Hrun. apply Ok_inj in Hrun as <-.
  destruct (verify_inv _ _ _ _ _ Hver) as (h & m & txs' & cb & t & Hfin & Hm' & Htxs' & Hcb' & Ht & Hh). rewrite Htxs in Htxs'. injection Htxs' as <-. rewrite Hcb in Hcb'. injection Hcb' as <-.
  rewrite <-Hm', <-Hmh in Hfin. split; [eapply (extended_point _ p p' ctx1 ctx); eauto; lia|].
  pose proof (fun nd => rewards_paid _ _ _ _ _ _ _ _ _ _ _ D nd Hm Hr1 Hperm Hnd Hsub) as Hpay. destruct (Hpay ∅) as [Hnn _]. destruct (Hexp t Ht) as [Hwt Hnc].
  pose proof (me_ghostdag _ _ _ _ _ _ _ _ _ _ _ _ _ _ _ Hm) as Hgd. rewrite Hg1 in Hgd.
  pose proof (verified_coinbase _ _ _ _ _ Ht Hh Hwf Hwt Hnc Hnn ltac:(rewrite Hgd; intros nd; apply Hpay)) as Hout.
  pose proof (me_value _ _ _ _ _ _ _ _ _ _ _ _ _ _ _ Hm) as [Hv1 _]. rewrite (coinbase_value self inputs_of _ _ _ _ (po_state _ Hp) Hcc) in Hv1.
  rewrite Hu, (ms_diff _ _ _ _ _ _ (me_state _ _ _ _ _ _ _ _ _ _ _ _ _ _ _ Hm)). unfold outputs_value in *. lia.
Qed.
End Chain.

(** C3: Along a selected chain whose blocks have been processed and verified one on top of
    the other, the amount held by the UTXO set and the pending coinbase never exceeds the
    amount at the start and the subsidies in the payloads of the merged blocks.  Each point
    keeps the invariant that processing needs, its multiset hash commits to its UTXO set, and
    no transaction id has been accepted twice. *)
Theorem supply_bounded {R St : Type} `{GhostdagStoreReader St} `{MergeJoinSpec} `{CS : CryptoSpec} `{ElementStreamSpec} `{ModInverseSpec} (self : VirtualStateProcessor R St)
    (inputs_of : N -> list TransactionOutpoint) (blue_score_of : N -> option Z) (bodies : N -> list Transaction) (data : N -> CoinbaseData) (p0 p : ChainPoint) (minted : Z) :
  validator_ok (vp_transaction_validator self) -> chain self inputs_of blue_score_of bodies data p0 p minted -> point_ok self inputs_of blue_score_of p0 ->
  value (cp_utxo p0) + outputs_value (cp_coinbase p0) + minted < U64 ->
  point_ok self inputs_of blue_score_of p /\ 0 <= minted /\
  value (cp_utxo p) + outputs_value (cp_coinbase p) <= value (cp_utxo p0) + outputs_value (cp_coinbase p0) + minted.
Proof.
  intros Hv Hchain Hp0. induction Hchain as [p|p0 p p' total minted Hchain IH Hext]; intros Hlt; [split; [done|lia]|].
  pose proof (extends_minted _ _ _ _ _ _ _ _ Hext). destruct IH as (Hp & Htotal & Hle); [done|lia|].
  destruct (extends_step _ _ _ _ _ _ _ _ Hv Hp Hext) as [Hp' Hle']; [lia|]. split; [done|]. lia.
Qed.

(** ** An instance *)

#[local] Existing Instance toy_crypto.
#[local] Existing Instance toy_spec.
#[local] Existing Instance ex_mod_inverse.
#[local] Existing Instance ex_mod_inverse_spec.
#[local] Existing Instance ex_stream.
#[local] Existing Instance ex_stream_spec.
#[local] Existing Instance ex_merge_join.
#[local] Existing Instance ex_merge_join_spec.

Definition ux_score_of (id : N) : option Z := if (id =? 8)%N then Some 10 else None.
Definition ux_start : ChainPoint := mk_point 2%N 10 ux_parent_coinbase ux_set {[ 7%N ]} ux_mh.
Definition ux_end : ChainPoint :=
  mk_point 5%N 12 (ct_tx ux_expected) (apply_diff ux_set (uc_mergeset_diff ux_context)) (list_to_set (uc_accepted_tx_ids ux_context) ∪ {[ 7%N ]}) (uc_multiset_hash ux_verified).

Lemma ux_start_ok : point_ok ux_processor ux_inputs_of ux_score_of ux_start.
Proof. split; [exact ux_chain_state|exact ux_commits|]. intros id s Hid. cbn [ux_start cp_accepted] in Hid. apply elem_of_singleton in Hid as ->. done. Qed.

Lemma ux_start_coinbase : coinbase_body_ok ux_processor ux_inputs_of ux_score_of (ux_bodies ux_tip) 100 ux_start.
Proof. destruct ux_chain_coinbase as [Hc Hi _ Hx Hr]. split; [reflexivity|exact Hc|exact Hi|reflexivity|exact Hx|exact Hr]. Qed.

Lemma ux_expected_unique t : expected_for ux_processor ux_block ux_context (ct_tx ux_expected) t -> t = ux_expected.
Proof.
  intros (cdata & nd & Hd & Hn & Ht). pose proof (vr_data _ _ _ _ _ _ _ _ _ _ ux_verify_inputs) as Hd'. rewrite Hd in Hd'. apply Ok_inj in Hd' as ->. apply Ok_inj in Hn as <-.
  pose proof (vr_expected _ _ _ _ _ _ _ _ _ _ ux_verify_inputs) as Ht'. rewrite Ht in Ht'. by apply Ok_inj in Ht'.
Qed.

Lemma ux_expected_wf : tx_wf (ct_tx ux_expected).
Proof.
  assert (Heq : ct_tx ux_expected = ltac:(let t := eval vm_compute in (ct_tx ux_expected) in exact t)) by (vm_compute; reflexivity). rewrite Heq.
  clear Heq. split; cbn [tx_version tx_inputs tx_outputs tx_lock_time tx_subnetwork_id tx_gas tx_payload tx_mass]; try (unfold in_u64; lia); try reflexivity.
  - split; [apply Forall_nil_2|reflexivity].
  - split; [|reflexivity]. repeat (apply Forall_cons_2; [split; cbn; [unfold in_u64; lia|split; cbn; [lia|reflexivity]]|]). apply Forall_nil_2.
Qed.

Lemma ux_merged_ok : Forall (fun b => block_known ux_processor ux_inputs_of 100 (ux_bodies ux_tip) ux_datas b /\ 0 <= cd_subsidy (ux_datas b) /\
  Forall (fun tx => ux_score_of (tx_id tx) = None) (drop 1 (ux_bodies ux_tip b))) [2%N; 4%N].
Proof.
  pose proof ux_known as Hk. apply Forall_cons in Hk as [H2 Hk]. apply Forall_cons in Hk as [H4 _].
  apply Forall_cons_2; [|apply Forall_cons_2; [|apply Forall_nil_2]]; (split; [done|]; split; [vm_compute; discriminate|]); [apply Forall_cons_2; [reflexivity|apply Forall_nil_2]|apply Forall_nil_2].
Qed.

Lemma same_no_collision H d m : ~ collision H d [m; m].
Proof.
  intros (m1 & m2 & H1 & H2 & Hne & _). apply Hne. rewrite !list_elem_of_In in H1. rewrite !list_elem_of_In in H2. cbn in H1, H2. naive_solver.
Qed.

Lemma ux_extends : extends ux_processor ux_inputs_of ux_score_of (ux_bodies ux_tip) ux_datas ux_start ux_end 1000.
Proof.
  split. exists ux_ghostdag, ux_block, [4%N], (fun _ _ => ux_env), (fun _ => ux_env), (fun _ => BLeaf), ux_context, ux_verified, ux_tip.
  split; [reflexivity|]. split; [reflexivity|].
  split; [apply NoDup_cons_2; [by intros [=]%list_elem_of_singleton|apply NoDup_singleton]|].
  split; [vm_compute; reflexivity|]. split; [vm_compute; split; [discriminate|reflexivity]|]. split; [exact ux_start_coinbase|]. split; [exact ux_merged_ok|].
  split; [exists [4%N]; split; [exact ux_ordered|exact ux_block_envs]|]. split; [exact ux_calculated|]. split; [exact ux_verifies|].
  split; [reflexivity|]. split; [reflexivity|]. split; [exact ux_expected_wf|]. split.
  - intros t ->%ux_expected_unique. split; [exact ux_expected_wf|]. apply same_no_collision.
  - unfold ux_end. cbn [cp_block cp_blue_score cp_utxo cp_accepted cp_multiset]. split_and!; try reflexivity.
Qed.

Lemma supply_bounded_witness : value (cp_utxo ux_end) + outputs_value (cp_coinbase ux_end) <= 1650.
Proof.
  apply (supply_bounded ux_processor ux_inputs_of ux_score_of (ux_bodies ux_tip) ux_datas ux_start ux_end (0 + 1000)).
  - exact ux_validator_ok.
  - apply (chain_next _ _ _ _ _ _ ux_start); [apply chain_start|exact ux_extends].
  - exact ux_start_ok.
  - vm_compute. reflexivity.
Defined.
