(* ===== verification/UtxoMempool.v ===== *)
(** * Mempool transactions

    [validate_mempool_transaction_in_utxo_context] sets the mass of the transaction and skips
    the check of it: it accepts exactly the transactions that, with that mass, a block may
    contain. *)

From Stdlib Require Import ZArith Lia Bool SpecFloat Permutation.
From stdpp Require Import base gmap numbers list.
From S2P Require Import Prelude Uint UintLemmas Tx Utxo UtxoProps Header Hashing GhostdagStore Difficulty ScriptEngine ScriptSafety ScriptProps Mass TxValidator TxValidatorLemmas TxValidatorProps U3072 U3072Lemmas UtxoTotals MuHash MuHashProps Coinbase CoinbaseProps Body MergesetOrder UtxoState UtxoStateValid UtxoStateMerge UtxoExample.

#[local] Open Scope Z_scope.

(** ** Computations without errors of their own

    Such a computation has the same result whatever the type of errors around it. *)

Inductive parallel {E F A} : outcome E A -> outcome F A -> Prop :=
| par_ok a : parallel (Ok a) (Ok a)
| par_panic : parallel Panic Panic
| par_fuel : parallel OutOfFuel OutOfFuel.

Lemma parallel_Ok {E F A} (m : outcome E A) (m' : outcome F A) a : parallel m m' -> m = Ok a -> m' = Ok a.
Proof. intros [b| |] Hb; [|done|done]. by apply Ok_inj in Hb as ->. Qed.

Lemma parallel_bind {E F A B} (m : outcome E A) (m' : outcome F A) (k : A -> outcome E B) (k' : A -> outcome F B) :
  parallel m m' -> (forall a, parallel (k a) (k' a)) -> parallel (obind m k) (obind m' k').
Proof. intros [a| |] Hk; cbn; [apply Hk|constructor|constructor]. Qed.

Lemma parallel_uadd {E F} w a b : parallel (@uadd E w a b) (@uadd F w a b).
Proof. unfold uadd. destruct (_ <? _); constructor. Qed.
Lemma parallel_umul {E F} w a b : parallel (@umul E w a b) (@umul F w a b).
Proof. unfold umul. destruct (_ <? _); constructor. Qed.
Lemma parallel_div {E F} a b : parallel (@div64 E a b) (@div64 F a b).
Proof. unfold div64. destruct (_ =? _); constructor. Qed.

Ltac parallel_tac := repeat first [apply parallel_bind; [|intros ?] | apply parallel_uadd | apply parallel_umul | apply parallel_div | apply par_ok | apply par_panic].

Lemma parallel_mapM {E F A B} (f : A -> outcome E B) (g : A -> outcome F B) l : (forall a, parallel (f a) (g a)) -> parallel (mapM_out f l) (mapM_out g l).
Proof. intros Hf. induction l as [|a l IH]; cbn [mapM_out]; [constructor|]. apply parallel_bind; [apply Hf|]. intros b. apply parallel_bind; [done|]. intros bs. constructor. Qed.
Lemma parallel_foldM {E F A B} (f : B -> A -> outcome E B) (g : B -> A -> outcome F B) l : forall b, (forall b a, parallel (f b a) (g b a)) -> parallel (foldM_out f b l) (foldM_out g b l).
Proof. induction l as [|a l IH]; intros b Hf; cbn [foldM_out]; [constructor|]. apply parallel_bind; [apply Hf|]. intros b'. by apply IH. Qed.
Lemma parallel_sum {E F} l : parallel (@sum64 E l) (@sum64 F l).
Proof. apply parallel_foldM. intros. apply parallel_uadd. Qed.

Lemma parallel_harmonic {E F} c outs : forall p h, parallel (@harmonic_outputs E c p h outs) (@harmonic_outputs F c p h outs).
Proof.
  induction outs as [|[p a] outs IH]; intros p0 h; cbn [harmonic_outputs]; [constructor|]. apply parallel_bind; [apply parallel_uadd|]. intros p1.
  destruct (checked_mul c p); [|constructor]. destruct (checked_mul _ p); [|constructor]. apply parallel_bind; [apply parallel_div|]. intros q. destruct (checked_add h q); [apply IH|constructor].
Qed.

Lemma parallel_storage {E F} cb ins outs c : parallel (@calc_storage_mass E cb ins outs c) (@calc_storage_mass F cb ins outs c).
Proof.
  unfold calc_storage_mass. destruct cb; [constructor|]. apply parallel_bind; [apply parallel_harmonic|]. intros [[op ho]|]; [|constructor].
  apply parallel_bind; [|intros [|]].
  - unfold relaxed_formula_path. destruct (_ =? _); [constructor|]. destruct (_ <? _); [constructor|]. apply parallel_bind; [apply parallel_sum|]. intros. constructor.
  - apply parallel_bind; [|intros; constructor]. apply parallel_mapM. intros cell. unfold harmonic_input. parallel_tac.
  - apply parallel_bind; [apply parallel_foldM; intros; parallel_tac|]. intros [ip si]. parallel_tac.
Qed.

Lemma parallel_masses {E F} c tx : parallel (@calc_contextual_masses E c tx) (@calc_contextual_masses F c tx).
Proof. apply parallel_bind; [apply parallel_storage|]. intros. constructor. Qed.

(** ** The two validations *)

Section Mempool.
Context {R St : Type} `{CS : CryptoSpec} (self : VirtualStateProcessor R St).
Let v := vp_transaction_validator self.

Definition validates (env : ValidationEnv) (tx : VerifiableTransaction) (pov : Z) (flags : TxValidationFlags) (threshold : option (Z * spec_float)) : tres Z :=
  validate_populated_transaction_and_get_fee v (ve_schedule env) (ve_cache env) (ve_evictions env) tx pov flags threshold.

Lemma scripts_agree env env' tx : length (v_entries tx) = length (tx_inputs (v_tx tx)) -> env_ok env (v_tx tx) -> env_ok env' (v_tx tx) ->
  check_scripts (ve_schedule env) (ve_cache env) (ve_evictions env) tx = Ok tt -> check_scripts (ve_schedule env') (ve_cache env') (ve_evictions env') tx = Ok tt.
Proof using.
  intros Hlen [Hp Hc] [Hp' Hc'] Hs. apply (check_scripts_iff tx Hlen _ _ _ Hc' Hp'). by apply (check_scripts_iff tx Hlen _ _ (ve_evictions env) Hc Hp).
Qed.

Lemma full_of_skip env env' tx pov threshold fee : length (v_entries tx) = length (tx_inputs (v_tx tx)) -> env_ok env (v_tx tx) -> env_ok env' (v_tx tx) ->
  check_mass_commitment v tx = Ok tt -> validates env tx pov FlagSkipMassCheck threshold = Ok fee -> validates env' tx pov FlagFull None = Ok fee.
Proof using.
  intros Hlen He He' Hm. unfold validates, validate_populated_transaction_and_get_fee.
  intros ([] & -> & (ti & -> & (to & Hto & (f & Hf & (_ & _ & ([] & Hsl & (_ & _ & ([] & Hs & <-%Ok_inj)%bind_Ok)%bind_Ok)%bind_Ok)%bind_Ok)%bind_Ok)%bind_Ok)%bind_Ok)%bind_Ok.
  cbn [obind]. rewrite Hto. cbn [obind]. rewrite Hf. cbn [obind]. rewrite Hm. cbn [obind]. rewrite Hsl. cbn [obind check_feerate_threshold]. by rewrite (scripts_agree env env' tx Hlen He He' Hs).
Qed.

Lemma skip_of_full env env' tx pov fee : length (v_entries tx) = length (tx_inputs (v_tx tx)) -> env_ok env (v_tx tx) -> env_ok env' (v_tx tx) ->
  validates env tx pov FlagFull None = Ok fee -> check_mass_commitment v tx = Ok tt /\ validates env' tx pov FlagSkipMassCheck None = Ok fee.
Proof using.
  intros Hlen He He'. unfold validates, validate_populated_transaction_and_get_fee.
  intros ([] & -> & (ti & -> & (to & Hto & (f & Hf & ([] & Hm & ([] & Hsl & (_ & _ & ([] & Hs & <-%Ok_inj)%bind_Ok)%bind_Ok)%bind_Ok)%bind_Ok)%bind_Ok)%bind_Ok)%bind_Ok)%bind_Ok.
  split; [done|]. cbn [obind]. rewrite Hto. cbn [obind]. rewrite Hf. cbn [obind]. rewrite Hsl. cbn [obind check_feerate_threshold]. by rewrite (scripts_agree env env' tx Hlen He He' Hs).
Qed.

(** ** Populating *)

(** Entries already there are those of the view. *)
Definition entries_agree (view : UtxoView) (m : MutableTransaction) : Prop :=
  Forall2 (fun i e => e = None \/ e = view (in_previous_outpoint i)) (tx_inputs (mt_tx m)) (mt_entries m).

Lemma populate_spec {E} (view : UtxoView) ins es : Forall2 (fun i e => e = None \/ e = view (in_previous_outpoint i)) ins es ->
  @populate_entries E view ins es = Ok ((fun i => view (in_previous_outpoint i)) <$> ins, negb (forallb (fun i => bool_decide (is_Some (view (in_previous_outpoint i)))) ins)).
Proof using.
  induction 1 as [|i e ins es Hie Hes IH]; cbn [populate_entries]; [done|]. rewrite IH. cbn [obind fmap list_fmap forallb].
  assert (Hf : match e with Some e0 => Some e0 | None => view (in_previous_outpoint i) end = view (in_previous_outpoint i)) by (destruct Hie as [->| ->]; [done|by destruct (view _)]).
  rewrite Hf, negb_andb, orb_comm. done.
Qed.

Lemma found_all (view : UtxoView) ins es : Forall2 (fun i e => view (in_previous_outpoint i) = Some e) ins es ->
  ((fun i => view (in_previous_outpoint i)) <$> ins) = Some <$> es /\ forallb (fun i => bool_decide (is_Some (view (in_previous_outpoint i)))) ins = true.
Proof using.
  induction 1 as [|i e ins es Hie Hes [IH1 IH2]]; [done|]. rewrite !fmap_cons, IH1. cbn [forallb]. rewrite IH2, Hie. done.
Qed.
Lemma found_some (view : UtxoView) ins : forallb (fun i => bool_decide (is_Some (view (in_previous_outpoint i)))) ins = true -> exists es, Forall2 (fun i e => view (in_previous_outpoint i) = Some e) ins es.
Proof using.
  induction ins as [|i ins IH]; cbn [forallb]; [exists []; constructor|]. intros [Hi Hins]%andb_true_iff. destruct (IH Hins) as [es Hes]. apply bool_decide_eq_true in Hi as [e He]. exists (e :: es). by constructor.
Qed.

Lemma as_verifiable_all {E} tx es fee masses : length es = length (tx_inputs tx) -> @as_verifiable E (mk_mutable tx (Some <$> es) fee masses) = Ok (mk_vtx tx es).
Proof using.
  intros Hlen. unfold as_verifiable, is_verifiable. cbn [mt_entries mt_tx]. rewrite length_fmap, Hlen, Nat.eqb_refl. cbn [rassert obind].
  assert (Hall : forallb (fun e : option UtxoEntry => bool_decide (is_Some e)) (Some <$> es) = true) by (clear; induction es; done). rewrite Hall. cbn [rassert obind].
  assert (Ho : omap id (Some <$> es) = es) by (clear; induction es as [|e es IH]; [done|cbn; by f_equal]). by rewrite Ho.
Qed.

(** With every input found, validation in a block is validation with the entries found. *)
Lemma in_context_all env tx view pov flags es : Forall2 (fun i e => view (in_previous_outpoint i) = Some e) (tx_inputs tx) es ->
  validate_transaction_in_utxo_context self env tx view pov flags = (let! fee := validates env (mk_vtx tx es) pov flags None in Ok (mk_validated (mk_vtx tx es) fee)).
Proof using.
  intros Hes. unfold validate_transaction_in_utxo_context. destruct (view_entries_spec view (tx_inputs tx)) as [(es' & -> & Hes')|[_ Hn]]; [|by apply Hn in Hes].
  rewrite (Forall2_fun (fun o => view o) _ _ _ Hes' Hes). cbn [obind]. unfold populated_new. rewrite <-(Forall2_length _ _ _ Hes), Nat.eqb_refl. done.
Qed.

(** Mempool validation once every input is found. *)
Lemma mempool_all env m view pov threshold es : entries_agree view m -> Forall2 (fun i e => view (in_previous_outpoint i) = Some e) (tx_inputs (mt_tx m)) es ->
  forall m', validate_mempool_transaction_in_utxo_context self env m view pov threshold = Ok (m', None) <->
    exists mass fee th, @calc_contextual_masses TxRuleError (mass_calculator v) (mk_vtx (mt_tx m) es) = Ok (Some (mk_contextual mass)) /\
      match threshold with
      | None => th = None
      | Some t => exists n, mt_calculated_non_contextual_masses m = Some n /\ th = Some (contextual_max (mk_contextual mass) n, t)
      end /\
      validates env (mk_vtx (set_mass (mt_tx m) mass) es) pov FlagSkipMassCheck th = Ok fee /\
      m' = mk_mutable (set_mass (mt_tx m) mass) (Some <$> es) (Some fee) (mt_calculated_non_contextual_masses m).
Proof using.
  intros Ha Hes m'. unfold validate_mempool_transaction_in_utxo_context, populate_mempool_transaction_in_utxo_context. rewrite (populate_spec _ _ _ Ha).
  destruct (found_all _ _ _ Hes) as [-> ->]. cbn [obind negb mt_tx mt_entries mt_calculated_fee mt_calculated_non_contextual_masses].
  assert (Hlen : length es = length (tx_inputs (mt_tx m))) by (symmetry; by eapply Forall2_length). rewrite as_verifiable_all by done. cbn [obind].
  unfold validates, v. destruct (parallel_masses (E := Empty_set) (F := TxRuleError) (mass_calculator (vp_transaction_validator self)) (mk_vtx (mt_tx m) es)) as [[[mass]|]| |]; cbn [obind storage_mass].
  2: { split; [done|]. intros (mass & fee & th & [=] & _). }
  2: { split; [done|]. intros (mass & fee & th & [=] & _). }
  2: { split; [done|]. intros (mass & fee & th & [=] & _). }
  assert (Hth : forall th, (match threshold with None => Ok None | Some t => let! n := unwrap (mt_calculated_non_contextual_masses m) in Ok (Some (contextual_max (mk_contextual mass) n, t)) end : panics _) = Ok th <->
    match threshold with None => th = None | Some t => exists n, mt_calculated_non_contextual_masses m = Some n /\ th = Some (contextual_max (mk_contextual mass) n, t) end).
  { intros th. destruct threshold as [t|]; [|split; [by intros [= <-]|by intros ->]]. destruct (mt_calculated_non_contextual_masses m) as [n|]; cbn [unwrap obind].
    - split; [intros [= <-]; by exists n|by intros (n' & [= <-] & ->)].
    - split; [done|]. by intros (n' & ? & _). }
  split.
  - intros (th & Hths & Hrun)%bind_Ok. apply Hth in Hths. rewrite as_verifiable_all in Hrun by done. cbn [obind] in Hrun.
    destruct (validate_populated_transaction_and_get_fee _ _ _ _ _ _ _ _) as [fee|e| |] eqn:Hv; [|done..]. injection Hrun as <-. by exists mass, fee, th.
  - intros (mass' & fee & th & [= <-] & Hths & Hrun & ->). apply Hth in Hths. rewrite Hths. cbn [obind]. rewrite as_verifiable_all by done. cbn [obind]. by rewrite Hrun.
Qed.

Lemma env_ok_mass env tx mass : env_ok env tx -> env_ok env (set_mass tx mass).
Proof using. by intros [Hp Hc]. Qed.

(** A missing input is an error. *)
Lemma mempool_missing env m view pov threshold m' : entries_agree view m ->
  validate_mempool_transaction_in_utxo_context self env m view pov threshold = Ok (m', None) -> exists es, Forall2 (fun i e => view (in_previous_outpoint i) = Some e) (tx_inputs (mt_tx m)) es.
Proof using.
  intros Ha. unfold validate_mempool_transaction_in_utxo_context, populate_mempool_transaction_in_utxo_context. rewrite (populate_spec _ _ _ Ha). cbn [obind].
  destruct (forallb _ _) eqn:Hf; [|done]. intros _. by apply found_some.
Qed.
End Mempool.


#[local] Existing Instance toy_crypto.
#[local] Existing Instance toy_spec.

Definition ux_mutable : MutableTransaction := mutable_new (set_mass ux_spend 999).

